(* ===== verification/_CoqProject ===== *)
-Q . S2P
Prelude.v
GoStrings.v
GoSort.v
NetAddr.v
Health.v
RulesParser.v
RulesSplit.v
RulesHTTP.v
RulesOn.v
RulesVars.v
RulesDo.v
Rules.v
LoadBalancer.v
BackScanner.v
LogRotate.v
AccessLog.v
ACL.v
LogFile.v
Period.v
EventQueue.v
Monitor.v
Docker.v
Container.v
IdleConfig.v
Route.v
Provider.v
IdleWatcher.v
Entrypoint.v
MiddlewareVars.v
Middleware.v
MiddlewareSpec.v
MiddlewareBuild.v
Streams.v
Auth.v
Captcha.v
Serialization.v
Notif.v
DockerClient.v
Autocert.v
IdleDeps.v
ConfigState.v
MemLog.v
SocketProxy.v
Metrics.v
Icons.v
Homepage.v
MaxMind.v
IdleProvider.v
Base64.v
Agent.v
AgentProxy.v
AgentMetrics.v
Watchers.v
ModifyHTML.v
API.v
