(* ===== verification/Prelude.v ===== *)
(** * GoDoxy: a verified model of the reverse proxy's core logic

    GoDoxy is a reverse proxy written in Go.  A request enters through
    listeners guarded by an access control list (internal/acl), the entrypoint
    finds a route by its host (internal/entrypoint), the request passes the
    route's rules (internal/route/rules), may be spread over several servers by
    the load balancer (internal/net/gphttp/loadbalancer) or wake a sleeping
    container (internal/idlewatcher), and is recorded by the access logger
    (internal/logging/accesslog).  Routes come from providers
    (internal/route/provider), which read the labels of containers
    (internal/docker) and follow events (internal/watcher); health monitors
    watch them and pollers keep metrics.  The configuration (internal/config)
    puts the parts together; users log in (internal/auth), certificates are
    renewed (internal/autocert), messages are sent (internal/notif) and the
    homepage (internal/homepage) lists the routes; a REST API (internal/api) is
    their interface.  The socket proxy (socket-proxy) guards the Docker socket,
    and agents (agent) proxy requests on other hosts.  This library models these
    components as executable Rocq functions and proves what they promise.

    ** Conventions

    Go strings are lists of bytes ([bytes]); a rune loop decodes UTF-8 as Go
    does ([GoStrings.runes]).  Fallible code returns [result E A]: a value, an
    error, or a panic ([Ok], [Err], [Panic]), so a theorem that a call returns
    [Ok] also says that it does not panic.  Machine integers are [Z] with their
    wrap-around written out where the code can reach it; float64 arithmetic
    uses the standard library's [spec_float].  Loops that are not structural
    take fuel that is shown to be enough by the theorems on their results: the scanner
    ([scan_measure], twice the unread bytes plus the buffer), the rotation loop
    (one more than the file's length), the splitting loops (the length of the
    text), and [parseOn] (the alternatives returned by [splitPipe] are never
    split again).

    Code outside the repository is a parameter: [HTTPLib] (net/http and
    net/url), [RuleLib] (environment, glob, regexp, bcrypt), [DoLib] (serving,
    proxying, authentication), [DockerLib] (YAML, URLs, agents), [RouteLib]
    (agents, Proxmox, pings, constructors), [PeriodCodec] (JSON),
    [BufferedWriter] and the rate limiter of the logger, JWT, OAuth and ACME
    clients, [AEAD], [X509Lib], [ZipLib] (encryption, certificates, archives),
    [ProxyJSON], [HTMLLib], gorilla/mux, gopsutil, the contents of the MaxMind database, answers of
    probes and of container providers, clocks, hashes and the order in which Go
    ranges over a map.  Every theorem that relies on a law of a parameter names
    it as a hypothesis, and its witness instantiates the parameter.

    ** Files

    - [Prelude]: results, panics, tactics and lemmas on lists.
    - [GoStrings], [GoSort], [NetAddr]: what the code uses of unicode/utf8,
      strings, strconv, slices, net and path.
    - [RulesParser] (rules/parser.go): the tokenizer [parse] as a state machine
      over runes.  It reads quoted arguments of characters up to U+00FF with
      balanced brackets back, and panics exactly on characters outside its quote
      table.
    - [RulesSplit] (rules/on.go): [splitAnd] equals a plain specification;
      [splitPipe] recovers joined alternatives and never leaves one to split.
    - [RulesHTTP] (rules/cache.go, crypto.go, response_modifier.go,
      routes/context.go): the [world] of a request, the per-request cache, the
      buffered response and its release.  Parsing a form reads the body.
    - [RulesOn] (rules/on.go, matcher.go, check_on.go, validate.go): every
      subject of a condition; a parsed condition means what its text says, the
      cache being invisible.
    - [RulesVars] (rules/vars.go, vars_static.go, vars_dynamic.go,
      template.go): expansion of templates; validation is sound.
    - [RulesDo] (rules/do.go, do_set.go, command.go, io.go): every command and
      field handler; parsing of `do` blocks.
    - [Rules] (rules/rules.go): [BuildHandler], with theorems from the text of
      a rule to what the client receives: blocking rules, the default rule,
      terminating commands, bypass.
    - [Health] (types/health.go): the status bits.
    - [LoadBalancer] (loadbalancer/): weights, policies, sticky sessions; the
      connection counters of the least-connections policy as a step relation
      with an invariant over all interleavings.
    - [BackScanner], [LogRotate] (accesslog/back_scanner.go, retention.go,
      rotate.go): backward reading for every chunk size, and in-place rotation
      of a log file.  The invariant of the rotation loop relates the blocks to
      keep to the bytes of the file; the copy never overwrites a block it has
      yet to read.
    - [AccessLog] (accesslog/filter.go, fields.go, status_code_range.go,
      formatter.go, access_logger.go): what is logged, the lines, and the
      logger's buffer; the lines connect to [LogRotate.ParseLogTime].
    - [ACL] (acl/, maxmind/city_cache.go): matching with its caches against the
      policy, the database being replaced over time (cities that were found stay
      cached); the notification counters lose nothing; the listeners.
    - [LogFile] (accesslog/file_logger.go, utils/ref_count.go): shared log
      files and reference counts as interleaved steps.
    - [Period] (metrics/period): the ring buffer of samples refines a history;
      saving and loading; the poller and its error counts.
    - [EventQueue] (watcher/events, directory_watcher.go, docker_watcher.go):
      events and the queue that batches them for any callbacks, which are the
      class [QueueHandler]; [ConfigState] and [Watchers] are its clients.
    - [Monitor] (watcher/health/monitor): health checks, notifications and the
      loop of a monitor.
    - [Docker], [Container] (docker/): labels and wildcards; a container from
      the answer of the daemon.
    - [IdleConfig], [IdleWatcher] (types/idlewatcher.go, idlewatcher/): the
      settings and the state machine of a container that sleeps when idle.  The
      loop of the watcher, the handlers of requests and streams, reloads and
      what dependents do to it are steps of one machine, of which a system of
      watchers is composed; the relation [reaches] collects its runs.
    - [Route] (route/route.go, port_selection.go, common.go, types/): from the
      settings of a route to a validated one.
    - [Provider] (route/provider): routes from labels, loading, and the map of
      running routes through all events ([provider_reachable]).
    - [Entrypoint] (utils/pool, route/routes, route/reverse_proxy.go,
      entrypoint/): which route is listed under a key, which route a host
      finds, and the routes of load balancers.
    - [MiddlewareVars], [Middleware], [MiddlewareSpec], [MiddlewareBuild]
      (net/gphttp/middleware, net/types/cidr.go): header modification with its
      variables; the middlewares with their state and their chains; what they
      promise; construction, registry and compose files.  A response writer is
      the connection's or a [ResponseModifier] ([rw]), and conditions of
      [RulesOn] are checked on either.
    - [Streams] (route/stream): TCP connections, and the UDP session table with
      all its goroutines as interleaved steps.
    - [Auth], [Captcha] (auth/, middleware/oidc.go, middleware/captcha):
      password and OIDC logins, refresh tokens over all interleavings, the gates
      in front of requests.
    - [Serialization] (serialization/): conversion of decoded values into values
      of any type, types being finite trees.
    - [Notif] (notif/): message bodies, providers, the dispatcher with its
      goroutines, its retries and its end.
    - [DockerClient] (docker/client.go): shared clients, their counts and the
      cleaner until the end of the program.
    - [Autocert] (autocert/): certificates, renewal, restarts and crashes; making
      the client fetches the directory of the server.
    - [IdleDeps] (idlewatcher/watcher.go): containers that depend on others, as
      trees that are deduplicated, woken and stopped; [wakes] is the relation of
      the interleavings of its goroutines.
    - [IdleProvider] (idlewatcher/provider, proxmox/): status, actions and events
      of Docker and LXC containers, composed with [IdleWatcher].
    - [ConfigState] (config/, types/stats.go): building, loading and reloading
      the configuration with the global objects it replaces, and the handler of
      changes of its file behind [EventQueue], against an abstract [outlook].
    - [MaxMind] (maxmind/): the life of the geographical database.
    - [Metrics] (metrics/uptime, metrics/systeminfo, metrics/utils): what is
      asked of the samples of [Period].
    - [Icons], [Homepage] (homepage/, jsonstore/, api/v1/homepage): icons and
      how they are found; items, overrides, categories and their order.
    - [MemLog] (logging/memlogger): the log kept in memory and its viewers.
    - [SocketProxy] (socket-proxy/pkg): which requests reach the Docker socket,
      and how they are forwarded.
    - [Base64], [Agent] (agent/pkg/agent, agent/pkg/certs, agent/pkg/server,
      agent/cmd, api/v1/agent): the certificates of an agent, how both sides
      verify them, the pool, and creating and adding an agent.
    - [AgentProxy] (agent/pkg/agentproxy, agent/pkg/handler,
      route/types/http_config.go): the headers that carry the settings of a
      request to an agent, TLS options, and health checks through agents, with
      [Monitor].
    - [AgentMetrics] (api/v1/metrics/all_system_info.go): the stream of the
      system information of all agents, its retries and its writer.
    - [Watchers] (watcher/docker_watcher.go, directory_watcher.go): the
      goroutines behind the event channels; the Docker watcher composed with
      [EventQueue] and with [Provider].
    - [ModifyHTML] (middleware/modify_html.go): changing the body of a response.
    - [API] (api/handler.go, api/v1/route/playground.go): the router and its
      guard; the playground runs [Rules] on a mock request.

    ** What the theorems show

    Rules: conditions (C1), tokenizer (C8), splitting (C12), blocking and
    default rules (C10, C11).  Middlewares: bypass rules and chains (C15, C16),
    client addresses (C17), forward authentication (C18).  Access control: C2.
    Logins and sessions: C20, C21, C23.  Decoding of settings: C19, C22.  Log
    rotation: C5.  From a container to a running route: labels (C29),
    validation (C6), ports (C35), the provider (C4, C14), hosts (C9).  Streams:
    C24.  Idle watcher: C3, C13, C33, and its dependencies C26.  Health: C30.
    Certificates: C25.  Notifications: C34.  Docker clients: C37, and the socket
    proxy C27.  Events and configuration: C31, C32.  Metrics: C7, C40.  Database:
    C28.  Agents: enrolment (C36), proxied requests (C38).  Homepage: C39.

    By kind: refinement of an abstract history (C7), equivalence with a
    reference (C12), typing (C19), liveness (C13, C31), termination (C33),
    bounds (C35), round trips (C8, C36), errors and panics (C40), invariants and
    safety over all runs (C2, C3, C14, C20, C24 to C28, C32, C34, C37, C38).
    Theorems that are not numbered complete the components, among them the
    counters of the least-connections policy, the shared log files, rate limits,
    captchas, renewal of certificates, statistics, stable sorting, the round
    trips of icons, stores and saved metrics, the outcome of a reload, that
    looking for an icon ends ([find_icon_terminates]), that nothing is lost
    between Docker and a provider ([watcher_to_queue]), the certificates of
    agents ([new_agent_mutual_tls]) and the guard of the API ([api_guarded]).

    The side conditions of a property are in its comment: among them the names
    in lower case of C4 and C14 (route.go derives the alias from the name, the
    map is keyed by the name), the buffer of C5, the brackets of C8, the forms of
    C10 and C15, refresh tokens that are stored twice (C20), flat structs (C22), one
    call at a time (C25), production mode (C31, C32), the calls of [Clients]
    (C37), the headers that arrive (C38) and the size of orders (C39).

    Lemmas also state behaviour the code does not intend, each with the exact
    condition, among them
    [basic_auth_twice_panics], [negative_index_panics], [empty_do_panics],
    [bypass_skips_actions], [iphash_remove_broken], [rotate_buffer_panics],
    [buffer_size_oscillates], [newline_only_from_query], [reopen_race_panics],
    [WriteTo_refused_floods], [zero_interval_panics], [null_ring_panics],
    [fileserver_never_checked], [wildcard_panics_iff], [conflict_leaks],
    [blacklist_fullname_dead], [duplicate_check_dead], [health_error_final],
    [loser_removes_winner], [balancer_lost], [domain_lookup_with_port],
    [uppercase_alias_lost], [reload_loses_ready], [header_value_reexpanded],
    [cloudflare_second_instance], [empty_options_unvalidated],
    [default_priority], [renewal_stops_after_failure], [never_renews],
    [refused_reload_leaks], [reload_ends_notifications], [memlog_content],
    [upgrade_never_switches], [allow_stop_ignored], [no_date_panics],
    [unpause_never_succeeds], [dark_refused], [names_lost_on_restart],
    [ssl_error_ignored], [verify_500_registers], [verify_short_panics],
    [sni_off_ignored], [stream_ends_on_partial_failure], [watcher_leaks],
    [quick_restart_keeps_stale], [city_outlives_update],
    [real_ip_takes_whole_line], [number_wraps], [not_rotated],
    [directory_not_limited] and [retry_lost].

    ** Not modelled

    Hijacked connections and the copying of bytes in both directions, byte pools
    (except the buffer of the rotation), JSON representations (produced by
    sonic and zerolog), the switch of the balancing policy at run time, the
    texts of notifications and reports, route files, the documents of HTML
    and the themes of pages, homepage widgets, the templates of agent scripts,
    cycles of pointers in the types that are decoded.  Whole components left out
    are those that are mostly calls to other packages: the handlers of the REST
    API that are not named above, and constant texts such as rule presets and
    help. *)

From stdpp Require Export base decidable list strings gmap.
From Stdlib Require Export Ascii ZArith Lia.

#[export] Set Warnings "-register-all".

#[global] Open Scope Z_scope.
#[global] Open Scope list_scope.

(** ** Go byte strings *)

(** A Go [string] (and a [[]byte]) is a sequence of bytes; string literals of
    the source are written as Rocq literals through the coercion [B]. *)
Abbreviation bytes := (list ascii).

Definition B (s : string) : bytes := String.list_ascii_of_string s.

Coercion B : string >-> list.

(** ** Errors and panics *)

(** Runtime panics of Go that the modelled code can run into. *)
Inductive panic :=
  | IndexOutOfRange
  | SliceOutOfBounds
  | NilInterfaceConversion
  | NilDereference
  | InterfaceConversion
  | DivideByZero
  | CloseOfClosedChannel
  | MakeSliceOutOfRange
  | NilFunctionCall
  | NilMapWrite
  | ExplicitPanic.

#[export] Instance panic_eq_dec : EqDecision panic.
Proof. solve_decision. Defined.

(** The outcome of a Go call with an [error] result: the value, the error, or
    a panic that unwinds the goroutine. *)
Inductive result (E A : Type) : Type :=
  | Ok (a : A)
  | Err (e : E)
  | Panic (p : panic).

Arguments Ok {E A} _.
Arguments Err {E A} _.
Arguments Panic {E A} _.

#[export] Instance result_eq_dec {E A} `{EqDecision E, EqDecision A} :
  EqDecision (result E A).
Proof. solve_decision. Defined.

#[export] Instance result_ret {E} : MRet (result E) := fun A a => Ok a.

#[export] Instance result_bind {E} : MBind (result E) := fun A C f r =>
  match r with
  | Ok a => f a
  | Err e => Err e
  | Panic p => Panic p
  end.

#[export] Instance result_fmap {E} : FMap (result E) := fun A C f r =>
  match r with
  | Ok a => Ok (f a)
  | Err e => Err e
  | Panic p => Panic p
  end.

Definition is_Ok {E A} (r : result E A) : bool :=
  match r with Ok _ => true | _ => false end.

Definition is_Panic {E A} (r : result E A) : bool :=
  match r with Panic _ => true | _ => false end.

(** A loop whose body may fail: Go's [for _, x := range l] with state [s],
    left as soon as one iteration returns an error or panics. *)
Fixpoint foldM {E S X : Type} (f : S -> X -> result E S) (s : S) (l : list X)
    : result E S :=
  match l with
  | [] => Ok s
  | x :: l' =>
      match f s x with
      | Ok s' => foldM f s' l'
      | Err e => Err e
      | Panic p => Panic p
      end
  end.

(** ** Machine integers *)

(** Two's complement wrap-around of an [int] or [int64] result. *)
Definition wrap64 (z : Z) : Z := (z + 2 ^ 63) mod 2 ^ 64 - 2 ^ 63.

(** [t.Sub(u)] of two instants in nanoseconds: the difference, saturated to the
    range of a [time.Duration]. *)
Definition time_Sub (t u : Z) : Z := Z.max (- 2 ^ 63) (Z.min (2 ^ 63 - 1) (t - u)).

(** Go's units of [time.Duration]. *)
Definition Millisecond : Z := 1000000.
Definition Second : Z := 1000 * Millisecond.
Definition Minute : Z := 60 * Second.
Definition Hour : Z := 60 * Minute.

(** Go's [copy(dst, src)]: the first elements of [dst], as many as both slices
    have, are replaced. *)
Definition go_copy {A} (dst src : list A) : list A :=
  take (length dst) src ++ drop (length src) dst.

(** ** Sums over lists of integers *)

Definition sum_Z (l : list Z) : Z := foldr Z.add 0 l.

(** ** Proof automation *)

(** Case analysis on every boolean test and [decide] in sight, discarding the
    impossible branches. *)
Ltac invert H := inversion H; subst; clear H.

Ltac case_if :=
  match goal with
  | |- context [if ?b then _ else _] => destruct b eqn:?
  | H : context [if ?b then _ else _] |- _ => destruct b eqn:?
  end.

Ltac split_ifs := repeat (case_if; try congruence; try lia).

(** Turn boolean comparisons in the context into propositions. *)
Ltac reflect :=
  repeat match goal with
  | H : (_ && _) = true |- _ => apply andb_prop in H; destruct H
  | H : (_ || _) = false |- _ => apply orb_false_elim in H; destruct H
  | H : negb _ = true |- _ => apply negb_true_iff in H
  | H : negb _ = false |- _ => apply negb_false_iff in H
  | H : (_ =? _) = true |- _ => apply Z.eqb_eq in H
  | H : (_ =? _) = false |- _ => apply Z.eqb_neq in H
  | H : (_ <=? _) = true |- _ => apply Z.leb_le in H
  | H : (_ <=? _) = false |- _ => apply Z.leb_gt in H
  | H : (_ <? _) = true |- _ => apply Z.ltb_lt in H
  | H : (_ <? _) = false |- _ => apply Z.ltb_ge in H
  | H : Ascii.eqb _ _ = true |- _ => apply Ascii.eqb_eq in H
  | H : Ascii.eqb _ _ = false |- _ => apply Ascii.eqb_neq in H
  | H : bool_decide _ = true |- _ => apply bool_decide_eq_true in H
  | H : bool_decide _ = false |- _ => apply bool_decide_eq_false in H
  end.

(** A closed decidable proposition, by evaluation. *)
Ltac decide_closed :=
  match goal with |- ?P => refine (bool_decide_unpack P _); vm_compute; exact I end.

(** Linear arithmetic with division and remainder by constants. *)
Ltac dlia := zify; Z.to_euclidean_division_equations; lia.

Create HintDb godoxy discriminated.

(** ** Generic lemmas *)

Lemma foldM_app {E S X} (f : S -> X -> result E S) s l1 l2 :
  foldM f s (l1 ++ l2) = foldM f s l1 ≫= fun s' => foldM f s' l2.
Proof.
  revert s; induction l1 as [|x l1 IH]; intros s; simpl; [done|].
  destruct (f s x); simpl; auto.
Qed.

Lemma foldM_app_Ok {E S X} (f : S -> X -> result E S) s s' l1 l2 :
  foldM f s l1 = Ok s' -> foldM f s (l1 ++ l2) = foldM f s' l2.
Proof. intros H. by rewrite foldM_app, H. Qed.

(** A loop invariant: what every successful iteration preserves holds after
    the loop, and the loop panics only if some iteration does. *)
Lemma foldM_invariant {E S X} (I : S -> Prop) (P : X -> Prop)
    (f : S -> X -> result E S) :
  (forall s x, I s -> P x ->
     match f s x with Ok s' => I s' | Err _ => True | Panic _ => False end) ->
  forall l s, I s -> Forall P l ->
    match foldM f s l with Ok s' => I s' | Err _ => True | Panic _ => False end.
Proof.
  intros Hstep l; induction l as [|x l IH]; intros s Hs Hl; simpl; [done|].
  inversion Hl as [|? ? Hx Hl']; subst. specialize (Hstep s x Hs Hx).
  destruct (f s x); [by apply IH | done | done].
Qed.

Lemma forallb_Forall {A} (f : A -> bool) l :
  forallb f l = true <-> Forall (fun x => f x = true) l.
Proof. rewrite forallb_forall, Forall_forall. by setoid_rewrite list_elem_of_In. Qed.

Lemma existsb_map {A C} (f : A -> C) p l : existsb p (map f l) = existsb (fun x => p (f x)) l.
Proof. induction l; simpl; congruence. Qed.

Lemma forallb_map {A C} (f : A -> C) p l : forallb p (map f l) = forallb (fun x => p (f x)) l.
Proof. induction l; simpl; congruence. Qed.

Lemma sum_Z_app l1 l2 : sum_Z (l1 ++ l2) = sum_Z l1 + sum_Z l2.
Proof. induction l1; simpl; lia. Qed.

Lemma sum_Z_replicate n x : sum_Z (replicate n x) = Z.of_nat n * x.
Proof. induction n; simpl; lia. Qed.

Lemma drop_app_exact {A} (l1 l2 : list A) n :
  n = length l1 -> drop n (l1 ++ l2) = l2.
Proof. intros ->. apply drop_app_length. Qed.

Lemma take_app_exact {A} (l1 l2 : list A) n :
  n = length l1 -> take n (l1 ++ l2) = l1.
Proof. intros ->. apply take_app_length. Qed.

#[export] Hint Resolve drop_app_exact take_app_exact : godoxy.
