(* ===== verification/GoStrings.v ===== *)
(** * Go strings: UTF-8, package [strings], package [strconv]

    The parts of the language and of its standard library that the modelled
    code uses on strings.  [runes] is Go's [for i, r := range s] (invalid
    UTF-8 yields U+FFFD and advances by one byte); [WriteRune] is
    [utf8.AppendRune]; the rest are the functions of the same names.  Offsets
    are [nat]; [None] stands for the index -1. *)

From S2P Require Import Prelude.

(** ** Bytes and runes *)

Definition byteZ (c : ascii) : Z := Z.of_N (N_of_ascii c).

Definition zbyte (z : Z) : ascii := ascii_of_N (Z.to_N (z mod 256)).

Definition RuneError : Z := 0xFFFD.

Definition within (lo hi x : Z) : bool := (lo <=? x) && (x <=? hi).

(** A Unicode scalar value. *)
Definition valid_rune (r : Z) : bool :=
  within 0 0xD7FF r || within 0xE000 0x10FFFF r.

(** Bounds of the second byte of a three- or four-byte sequence, by its first
    byte (the table [acceptRanges] of unicode/utf8). *)
Definition accept_lo (x : Z) : Z :=
  if x =? 0xE0 then 0xA0 else if x =? 0xF0 then 0x90 else 0x80.

Definition accept_hi (x : Z) : Z :=
  if x =? 0xED then 0x9F else if x =? 0xF4 then 0x8F else 0xBF.

Definition is_cont (c : ascii) : bool := within 0x80 0xBF (byteZ c).

(** [utf8.DecodeRuneInString] on a nonempty string: the rune and its width. *)
Definition DecodeRune (s : bytes) : Z * nat :=
  match s with
  | [] => (RuneError, 0%nat)
  | b0 :: s1 =>
      let x := byteZ b0 in
      if x <? 0x80 then (x, 1%nat)
      else if within 0xC2 0xDF x then
        match s1 with
        | b1 :: _ =>
            if is_cont b1
            then ((x - 0xC0) * 64 + (byteZ b1 - 0x80), 2%nat)
            else (RuneError, 1%nat)
        | _ => (RuneError, 1%nat)
        end
      else if within 0xE0 0xEF x then
        match s1 with
        | b1 :: b2 :: _ =>
            if within (accept_lo x) (accept_hi x) (byteZ b1) && is_cont b2
            then ((x - 0xE0) * 4096 + (byteZ b1 - 0x80) * 64 + (byteZ b2 - 0x80),
                  3%nat)
            else (RuneError, 1%nat)
        | _ => (RuneError, 1%nat)
        end
      else if within 0xF0 0xF4 x then
        match s1 with
        | b1 :: b2 :: b3 :: _ =>
            if within (accept_lo x) (accept_hi x) (byteZ b1)
               && is_cont b2 && is_cont b3
            then ((x - 0xF0) * 262144 + (byteZ b1 - 0x80) * 4096
                  + (byteZ b2 - 0x80) * 64 + (byteZ b3 - 0x80), 4%nat)
            else (RuneError, 1%nat)
        | _ => (RuneError, 1%nat)
        end
      else (RuneError, 1%nat)
  end.

(** [for _, r := range s]: the runes with the bytes each was decoded from;
    [skip] counts the bytes of the current rune still to be passed over. *)
Fixpoint runes_from (skip : nat) (s : bytes) : list (Z * bytes) :=
  match s with
  | [] => []
  | _ :: s' =>
      match skip with
      | S k => runes_from k s'
      | O => let rw := DecodeRune s in
             (rw.1, take rw.2 s) :: runes_from (rw.2 - 1) s'
      end
  end.

Definition runes (s : bytes) : list (Z * bytes) := runes_from 0 s.

(** [utf8.AppendRune], the [WriteRune] of [bytes.Buffer] and
    [strings.Builder]: anything but a scalar value is written as U+FFFD. *)
Definition WriteRune (r : Z) : bytes :=
  let r := if valid_rune r then r else RuneError in
  if r <? 0x80 then [zbyte r]
  else if r <? 0x800 then [zbyte (0xC0 + r / 64); zbyte (0x80 + r mod 64)]
  else if r <? 0x10000 then
    [zbyte (0xE0 + r / 4096); zbyte (0x80 + r / 64 mod 64);
     zbyte (0x80 + r mod 64)]
  else
    [zbyte (0xF0 + r / 262144); zbyte (0x80 + r / 4096 mod 64);
     zbyte (0x80 + r / 64 mod 64); zbyte (0x80 + r mod 64)].

Definition write_runes (rs : list Z) : bytes := concat (map WriteRune rs).

(** [unicode.IsSpace]. *)
Definition IsSpace (r : Z) : bool :=
  within 9 13 r || (r =? 32) || (r =? 0x85) || (r =? 0xA0) || (r =? 0x1680)
  || within 0x2000 0x200A r || (r =? 0x2028) || (r =? 0x2029)
  || (r =? 0x202F) || (r =? 0x205F) || (r =? 0x3000).

(** The rune constant written ['c'] in Go. *)
Definition rune (c : ascii) : Z := byteZ c.

(** ** Package strings *)

Fixpoint drop_while {A} (p : A -> bool) (l : list A) : list A :=
  match l with
  | [] => []
  | x :: l' => if p x then drop_while p l' else l
  end.

Definition drop_while_end {A} (p : A -> bool) (l : list A) : list A :=
  rev (drop_while p (rev l)).

Definition trim {A} (p : A -> bool) (l : list A) : list A :=
  drop_while_end p (drop_while p l).

(** [strings.TrimSpace]. *)
Definition TrimSpace (s : bytes) : bytes :=
  concat (map snd (trim (fun rb => IsSpace rb.1) (runes s))).

Fixpoint IndexByte (s : bytes) (c : ascii) : option nat :=
  match s with
  | [] => None
  | b :: s' => if Ascii.eqb b c then Some 0%nat else S <$> IndexByte s' c
  end.

Fixpoint LastIndexByte (s : bytes) (c : ascii) : option nat :=
  match s with
  | [] => None
  | b :: s' =>
      match LastIndexByte s' c with
      | Some i => Some (S i)
      | None => if Ascii.eqb b c then Some 0%nat else None
      end
  end.

(** [strings.Cut] for a one-byte separator. *)
Definition Cut (s : bytes) (c : ascii) : bytes * bytes * bool :=
  match IndexByte s c with
  | Some i => (take i s, drop (S i) s, true)
  | None => (s, [], false)
  end.

(** [strings.Split] for a one-byte separator. *)
Fixpoint Split (s : bytes) (c : ascii) : list bytes :=
  match s with
  | [] => [[]]
  | b :: s' =>
      if Ascii.eqb b c then [] :: Split s' c
      else match Split s' c with
           | p :: ps => (b :: p) :: ps
           | [] => [[b]]
           end
  end.

(** [strings.Join] for a one-byte separator. *)
Fixpoint Join (ps : list bytes) (c : ascii) : bytes :=
  match ps with
  | [] => []
  | [p] => p
  | p :: ps' => p ++ c :: Join ps' c
  end.

Definition HasPrefix (s p : bytes) : bool := bool_decide (take (length p) s = p).

Definition HasSuffix (s p : bytes) : bool :=
  (length p <=? length s)%nat && bool_decide (drop (length s - length p) s = p).

(** [strings.CutSuffix]; [None] when the suffix is absent. *)
Definition CutSuffix (s p : bytes) : option bytes :=
  if HasSuffix s p then Some (take (length s - length p) s) else None.

(** [bytes.Index] / [strings.Contains]: the first occurrence of [p]. *)
Fixpoint Index (s p : bytes) : option nat :=
  if HasPrefix s p then Some 0%nat
  else match s with
       | [] => None
       | _ :: s' => S <$> Index s' p
       end.

Definition is_upper (c : ascii) : bool := within 65 90 (byteZ c).
Definition is_lower (c : ascii) : bool := within 97 122 (byteZ c).

Definition lower_byte (c : ascii) : ascii :=
  if is_upper c then zbyte (byteZ c + 32) else c.

Definition upper_byte (c : ascii) : ascii :=
  if is_lower c then zbyte (byteZ c - 32) else c.

Definition is_ascii (c : ascii) : bool := byteZ c <? 0x80.

(** [strings.ToLower]; the case mapping [u] of runes outside ASCII is that of
    package unicode. *)
Definition ToLowerWith (u : Z -> Z) (s : bytes) : bytes :=
  if forallb is_ascii s then map lower_byte s
  else write_runes (map (fun rb => if rb.1 <? 0x80 then byteZ (lower_byte (zbyte rb.1)) else u rb.1) (runes s)).

(** ** Package strconv *)

Definition MaxInt64 : Z := 9223372036854775807.
Definition MinInt64 : Z := -9223372036854775808.
Definition MaxUint64 : Z := 18446744073709551615.

Definition is_digit (c : ascii) : bool := within 48 57 (byteZ c).

Definition digit_val (c : ascii) : Z := byteZ c - 48.

Definition digits_val (s : bytes) : Z :=
  fold_left (fun acc c => acc * 10 + digit_val c) s 0.

(** A nonempty run of decimal digits, as a natural number of any size. *)
Definition parse_digits (s : bytes) : option Z :=
  match s with
  | [] => None
  | _ => if forallb is_digit s then Some (digits_val s) else None
  end.

(** [strconv.ParseUint(s, 10, 64)]; [None] for a syntax or a range error. *)
Definition ParseUint (s : bytes) : option Z :=
  n ← parse_digits s;
  if n <=? MaxUint64 then Some n else None.

(** [strconv.Atoi] on a 64-bit platform. *)
Definition Atoi (s : bytes) : option Z :=
  match s with
  | "-"%char :: s' =>
      n ← parse_digits s';
      if n <=? - MinInt64 then Some (- n) else None
  | "+"%char :: s' =>
      n ← parse_digits s';
      if n <=? MaxInt64 then Some n else None
  | _ =>
      n ← parse_digits s;
      if n <=? MaxInt64 then Some n else None
  end.

Fixpoint format_digits (fuel : nat) (n : Z) (acc : bytes) : bytes :=
  match fuel with
  | O => acc
  | S fuel' =>
      let acc := zbyte (48 + n mod 10) :: acc in
      if n <? 10 then acc else format_digits fuel' (n / 10) acc
  end.

(** The digits of [n >= 0]; [log2 n + 1] bounds their number. *)
Definition format_uint (n : Z) : bytes :=
  format_digits (S (Z.to_nat (Z.log2 n))) n [].

(** [strconv.Itoa]. *)
Definition Itoa (n : Z) : bytes :=
  if n <? 0 then "-"%char :: format_uint (- n) else format_uint n.

(** ** Lemmas: bytes *)

Lemma byteZ_range c : 0 <= byteZ c < 256.
Proof.
  unfold byteZ. pose proof (N_ascii_bounded c). lia.
Qed.

Lemma byteZ_zbyte z : 0 <= z < 256 -> byteZ (zbyte z) = z.
Proof.
  intros Hz. unfold byteZ, zbyte. rewrite Z.mod_small by lia.
  rewrite N_ascii_embedding by lia. lia.
Qed.

Lemma zbyte_byteZ c : zbyte (byteZ c) = c.
Proof.
  unfold zbyte. rewrite Z.mod_small by apply byteZ_range.
  unfold byteZ. rewrite N2Z.id. apply ascii_N_embedding.
Qed.

Lemma byteZ_inj c d : byteZ c = byteZ d -> c = d.
Proof. intros H. by rewrite <- (zbyte_byteZ c), H, zbyte_byteZ. Qed.

Lemma within_spec lo hi x : within lo hi x = true <-> lo <= x <= hi.
Proof. unfold within. rewrite andb_true_iff, !Z.leb_le. done. Qed.

Lemma within_false lo hi x : within lo hi x = false <-> x < lo \/ hi < x.
Proof. unfold within. rewrite andb_false_iff, !Z.leb_gt. lia. Qed.

Ltac ranges :=
  repeat match goal with
  | H : within _ _ _ = true |- _ => apply within_spec in H
  | H : within _ _ _ = false |- _ => apply within_false in H
  end.

(** ** Lemmas: UTF-8 *)

Lemma valid_rune_spec r :
  valid_rune r = true <-> 0 <= r <= 0xD7FF \/ 0xE000 <= r <= 0x10FFFF.
Proof. unfold valid_rune. by rewrite orb_true_iff, !within_spec. Qed.

(** What the decoder consumes: one ASCII byte, or a chunk of bytes above 0x7F. *)
Lemma DecodeRune_spec b s r w :
  DecodeRune (b :: s) = (r, w) ->
  (0 < w <= length (b :: s))%nat /\ valid_rune r = true /\
  (w = 1%nat /\ r = byteZ b /\ r < 0x80 \/
   0x80 <= r /\ Forall (fun c => 0x80 <= byteZ c) (take w (b :: s))).
Proof.
  pose proof (byteZ_range b) as Hb.
  assert (Hbad : 0x80 <= byteZ b -> (RuneError, 1%nat) = (r, w) ->
    (0 < w <= length (b :: s))%nat /\ valid_rune r = true /\
    (w = 1%nat /\ r = byteZ b /\ r < 0x80 \/
     0x80 <= r /\ Forall (fun c => 0x80 <= byteZ c) (take w (b :: s)))).
  { intros Hx [= <- <-]. simpl. repeat split; [lia..|]. right. repeat constructor; done. }
  simpl. intros H. rewrite valid_rune_spec in *.
  unfold is_cont, accept_lo, accept_hi in H.
  repeat case_match; simplify_eq/=; reflect; ranges; try (apply Hbad; done || lia);
    repeat split; try lia; try (right; split; [lia|]; repeat constructor; lia).
Qed.

Lemma runes_from_drop k s : runes_from k s = runes (drop k s).
Proof.
  revert s; induction k as [|k IH]; intros [|b s]; try done.
  cbn [drop]. rewrite <- IH. by destruct k.
Qed.

Lemma runes_cons b s r w :
  DecodeRune (b :: s) = (r, w) ->
  runes (b :: s) = (r, take w (b :: s)) :: runes (drop w (b :: s)).
Proof.
  intros H. pose proof (DecodeRune_spec _ _ _ _ H) as [Hw _].
  unfold runes at 1. cbn [runes_from]. rewrite H. cbn [fst snd].
  rewrite runes_from_drop. destruct w as [|w]; [lia|]. cbn [drop].
  by rewrite Nat.sub_succ, Nat.sub_0_r.
Qed.

(** Induction over a string rune by rune. *)
Lemma runes_ind (P : bytes -> list (Z * bytes) -> Prop) :
  P [] [] ->
  (forall r bs s, bs <> [] -> valid_rune r = true ->
     (exists b, bs = [b] /\ r = byteZ b /\ r < 0x80) \/
     0x80 <= r /\ Forall (fun c => 0x80 <= byteZ c) bs ->
     runes (bs ++ s) = (r, bs) :: runes s ->
     P s (runes s) -> P (bs ++ s) ((r, bs) :: runes s)) ->
  forall s, P s (runes s).
Proof.
  intros Hnil Hcons s. remember (length s) as n eqn:Hn. revert s Hn.
  induction (lt_wf n) as [n _ IH]; intros s ->.
  destruct s as [|b s]; [done|].
  destruct (DecodeRune (b :: s)) as [r w] eqn:E.
  pose proof (DecodeRune_spec _ _ _ _ E) as (Hw & Hv & Hc).
  pose proof (runes_cons _ _ _ _ E) as Hr. rewrite Hr.
  pose proof (take_drop w (b :: s)) as Ht. rewrite <- Ht at 1.
  assert (Hne : take w (b :: s) <> []) by (destruct w; [lia|done]).
  apply Hcons; [done|done| |by rewrite Ht|].
  - destruct Hc as [(-> & ? & ?) | [? ?]]; [left; by exists b | by right].
  - apply (IH (length (drop w (b :: s)))); [rewrite length_drop; lia|done].
Qed.

(** Decoding loses no byte. *)
Lemma runes_concat s : concat (map snd (runes s)) = s.
Proof.
  pattern s, (runes s). apply runes_ind; [done|].
  intros r bs s' _ _ _ _ IH. simpl. by rewrite IH.
Qed.

Lemma runes_valid s : Forall (fun rb => valid_rune rb.1 = true) (runes s).
Proof.
  pattern s, (runes s). apply runes_ind; [done|].
  intros r bs s' _ Hv _ _ IH. by constructor.
Qed.

(** A rune below 0x80 is the byte itself; the other chunks hold no ASCII. *)
Lemma runes_chunks s :
  Forall (fun rb => (exists b, rb.2 = [b] /\ rb.1 = byteZ b /\ rb.1 < 0x80) \/
                    0x80 <= rb.1 /\ Forall (fun c => 0x80 <= byteZ c) rb.2) (runes s).
Proof.
  pattern s, (runes s). apply runes_ind; [done|].
  intros r bs s' _ _ Hc _ IH. by constructor.
Qed.

(** Base-64 digits: a quotient splits into the next quotient and a digit. *)
Lemma div_split (r d : Z) : 0 < d -> r / d = r / (d * 64) * 64 + r / d mod 64.
Proof.
  intros Hd. rewrite (Z.div_mod (r / d) 64) at 1 by lia.
  rewrite Zdiv.Zdiv_Zdiv by lia. lia.
Qed.

(** Writing a scalar value and decoding it gives the value back, whatever
    follows. *)
Lemma DecodeRune_WriteRune r s :
  valid_rune r = true -> DecodeRune (WriteRune r ++ s) = (r, length (WriteRune r)).
Proof.
  intros Hv. unfold WriteRune. rewrite Hv. apply valid_rune_spec in Hv.
  assert (Hd := Z.mod_pos_bound r 64 eq_refl).
  assert (Hr := Z.div_mod r 64 ltac:(done)).
  assert (Hb := div_split r 64 eq_refl). change (64 * 64) with 4096 in Hb.
  assert (Hc := div_split r 4096 eq_refl). change (4096 * 64) with 262144 in Hc.
  assert (Hbm := Z.mod_pos_bound (r / 64) 64 eq_refl).
  assert (Hcm := Z.mod_pos_bound (r / 4096) 64 eq_refl).
  destruct (r <? 0x80) eqn:E1; reflect; [|destruct (r <? 0x800) eqn:E2; reflect;
    [|destruct (r <? 0x10000) eqn:E3; reflect]];
    cbn [app DecodeRune length]; unfold is_cont, accept_lo, accept_hi;
    rewrite !byteZ_zbyte by lia;
    repeat case_match; reflect; ranges; try (f_equal; lia); exfalso;
    repeat match goal with H : _ && _ = false |- _ => apply andb_false_iff in H as [H|H] end;
    ranges; lia.
Qed.

Lemma runes_WriteRune r s :
  valid_rune r = true -> runes (WriteRune r ++ s) = (r, WriteRune r) :: runes s.
Proof.
  intros Hv. pose proof (DecodeRune_WriteRune r s Hv) as H.
  destruct (WriteRune r) as [|b bs] eqn:E.
  { exfalso. unfold WriteRune in E. repeat case_match; done. }
  rewrite <- app_comm_cons in H |- *. rewrite (runes_cons _ _ _ _ H).
  rewrite app_comm_cons. by rewrite take_app_length, drop_app_length.
Qed.

Lemma runes_write_runes rs s :
  Forall (fun r => valid_rune r = true) rs ->
  runes (write_runes rs ++ s) = map (fun r => (r, WriteRune r)) rs ++ runes s.
Proof.
  induction 1 as [|r rs Hr _ IH]; [done|].
  unfold write_runes in *. cbn [map concat]. rewrite <- app_assoc.
  rewrite runes_WriteRune by done. simpl. by rewrite IH.
Qed.

Lemma write_runes_app rs1 rs2 : write_runes (rs1 ++ rs2) = write_runes rs1 ++ write_runes rs2.
Proof. unfold write_runes. by rewrite map_app, concat_app. Qed.


Lemma runes_ascii s :
  forallb is_ascii s = true -> runes s = map (fun c => (byteZ c, [c])) s.
Proof.
  induction s as [|c s IH]; [done|]. simpl. intros H. reflect.
  rewrite (runes_cons c s (byteZ c) 1).
  - simpl. by rewrite drop_0, IH.
  - unfold is_ascii in *. unfold DecodeRune. by rewrite H.
Qed.

Lemma WriteRune_ascii c : is_ascii c = true -> WriteRune (byteZ c) = [c].
Proof.
  unfold is_ascii, WriteRune. intros H. reflect.
  rewrite (proj2 (valid_rune_spec _)) by (pose proof (byteZ_range c); lia).
  rewrite (proj2 (Z.ltb_lt _ _) H). by rewrite zbyte_byteZ.
Qed.

(** ** Lemmas: Split and Join *)

Lemma Split_nonempty s c : Split s c <> [].
Proof. destruct s as [|b s]; simpl; [done|]. repeat case_match; done. Qed.

Lemma Join_cons p ps c : ps <> [] -> Join (p :: ps) c = p ++ c :: Join ps c.
Proof. by destruct ps. Qed.

Lemma Join_Split s c : Join (Split s c) c = s.
Proof.
  induction s as [|b s IH]; [done|]. simpl. case_match; reflect; subst.
  - rewrite Join_cons by apply Split_nonempty. simpl. by rewrite IH.
  - destruct (Split s c) as [|p ps] eqn:E; [by destruct (Split_nonempty s c)|].
    destruct ps; simpl in *; by rewrite <- IH.
Qed.

Lemma Split_no_sep s c : c ∉ s -> Split s c = [s].
Proof.
  induction s as [|b s IH]; [done|]. intros Hc. simpl.
  rewrite list_elem_of_In in Hc. simpl in Hc.
  destruct (Ascii.eqb_spec b c) as [->|Hne]; [tauto|].
  rewrite IH; [done|]. rewrite list_elem_of_In. tauto.
Qed.

Lemma Split_app s1 s2 c : c ∉ s1 -> Split (s1 ++ c :: s2) c = s1 :: Split s2 c.
Proof.
  induction s1 as [|b s IH]; intros Hc; simpl.
  - by rewrite Ascii.eqb_refl.
  - apply not_elem_of_cons in Hc as [Hb Hs].
    destruct (Ascii.eqb_spec b c) as [->|_]; [done|]. by rewrite IH.
Qed.

Lemma Split_parts s c : Forall (fun p => c ∉ p) (Split s c).
Proof.
  induction s as [|b s IH]; simpl; [repeat constructor; by apply not_elem_of_nil|].
  destruct (Ascii.eqb_spec b c) as [->|Hne].
  - constructor; [by apply not_elem_of_nil|done].
  - destruct (Split s c) as [|p ps]; invert IH; repeat constructor; try done;
      apply not_elem_of_cons; split; try done. by apply not_elem_of_nil.
Qed.

Lemma length_Split s c :
  length (Split s c) = S (length (filter (fun b => b = c) s)).
Proof.
  induction s as [|b s IH]; [done|]. simpl.
  destruct (Ascii.eqb_spec b c) as [->|Hne].
  - rewrite filter_cons_True by done. simpl. by rewrite IH.
  - rewrite filter_cons_False by done.
    destruct (Split s c) as [|p ps] eqn:E; [by destruct (Split_nonempty s c)|]. done.
Qed.

(** ** Lemmas: decimal numbers *)

Lemma digit_val_zbyte d : 0 <= d < 10 -> digit_val (zbyte (48 + d)) = d.
Proof. intros. unfold digit_val. rewrite byteZ_zbyte; lia. Qed.

Lemma is_digit_zbyte d : 0 <= d < 10 -> is_digit (zbyte (48 + d)) = true.
Proof. intros. unfold is_digit. rewrite byteZ_zbyte by lia. apply within_spec. lia. Qed.

Definition digits_from (a : Z) (s : bytes) : Z :=
  fold_left (fun acc c => acc * 10 + digit_val c) s a.

Lemma digits_from_shift s : forall a,
  digits_from a s = a * 10 ^ Z.of_nat (length s) + digits_from 0 s.
Proof.
  unfold digits_from. induction s as [|c s IH]; intros a; cbn [fold_left length]; [lia|].
  rewrite IH. rewrite (IH (0 * 10 + digit_val c)).
  rewrite Nat2Z.inj_succ, Z.pow_succ_r by lia. lia.
Qed.

Lemma digits_val_cons c s :
  digits_val (c :: s) = digit_val c * 10 ^ Z.of_nat (length s) + digits_val s.
Proof.
  unfold digits_val. cbn [fold_left]. rewrite Z.mul_0_l, Z.add_0_l.
  apply (digits_from_shift s (digit_val c)).
Qed.

Lemma format_digits_spec fuel : forall n acc,
  0 <= n < 10 ^ Z.of_nat fuel -> (fuel <> 0)%nat ->
  forallb is_digit acc = true ->
  let s := format_digits fuel n acc in
  forallb is_digit s = true /\ s <> [] /\
  digits_val s = n * 10 ^ Z.of_nat (length acc) + digits_val acc.
Proof.
  induction fuel as [|fuel IH]; intros n acc Hn Hf Hacc; [done|].
  cbn [format_digits]. assert (Hm := Z.mod_pos_bound n 10 eq_refl).
  assert (Hd := Z.div_mod n 10 ltac:(done)).
  destruct (n <? 10) eqn:E; reflect.
  - rewrite Z.mod_small by lia. simpl. rewrite is_digit_zbyte, Hacc by lia.
    repeat split; [done|]. by rewrite digits_val_cons, digit_val_zbyte by lia.
  - assert (0 <= n / 10) by (apply Z.div_pos; lia).
    rewrite Nat2Z.inj_succ, Z.pow_succ_r in Hn by lia.
    destruct (IH (n / 10) (zbyte (48 + n mod 10) :: acc)) as (H1 & H2 & H3).
    + lia.
    + destruct fuel; [simpl in Hn; lia|done].
    + simpl. by rewrite is_digit_zbyte, Hacc by lia.
    + repeat split; [done|done|]. rewrite H3. cbn [length].
      rewrite Nat2Z.inj_succ, Z.pow_succ_r by lia.
      rewrite digits_val_cons, digit_val_zbyte by lia. lia.
Qed.

Lemma format_uint_spec n :
  0 <= n ->
  forallb is_digit (format_uint n) = true /\ format_uint n <> [] /\
  digits_val (format_uint n) = n.
Proof.
  intros Hn. unfold format_uint.
  destruct (format_digits_spec (S (Z.to_nat (Z.log2 n))) n []) as (H1 & H2 & H3);
    [|done|done|].
  - split; [done|].
    destruct (Z.eq_dec n 0) as [->|]; [done|].
    assert (Hl0 := Z.log2_nonneg n).
    assert (Hl := Z.log2_spec n ltac:(lia)).
    rewrite Nat2Z.inj_succ, Z2Nat.id by lia.
    apply (Z.lt_le_trans _ (2 ^ Z.succ (Z.log2 n))); [lia|].
    apply Z.pow_le_mono_l. lia.
  - repeat split; [done|done|]. rewrite H3. change (n * 1 + 0 = n). lia.
Qed.

Lemma parse_format_uint n : 0 <= n -> parse_digits (format_uint n) = Some n.
Proof.
  intros Hn. destruct (format_uint_spec n Hn) as (H1 & H2 & H3).
  unfold parse_digits. destruct (format_uint n); [done|]. by rewrite H1, H3.
Qed.

Lemma ParseUint_format n : 0 <= n <= MaxUint64 -> ParseUint (format_uint n) = Some n.
Proof.
  intros Hn. unfold ParseUint. rewrite parse_format_uint by lia. simpl.
  by rewrite (proj2 (Z.leb_le _ _)) by lia.
Qed.

Lemma is_digit_range c : is_digit c = true -> 48 <= byteZ c <= 57.
Proof. apply within_spec. Qed.

(** [Atoi] reads back every 64-bit integer that [Itoa] prints. *)
Lemma Atoi_Itoa n : MinInt64 <= n <= MaxInt64 -> Atoi (Itoa n) = Some n.
Proof.
  intros Hn. unfold Itoa. unfold MinInt64, MaxInt64 in Hn. destruct (n <? 0) eqn:E; reflect.
  - cbn [Atoi]. rewrite parse_format_uint by lia. simpl.
    rewrite (proj2 (Z.leb_le _ _)) by (unfold MinInt64; lia).
    f_equal. lia.
  - assert (H : parse_digits (format_uint n) = Some n) by (apply parse_format_uint; lia).
    destruct (format_uint_spec n) as (H1 & H2 & _); [lia|].
    destruct (format_uint n) as [|c s]; [done|]. simpl in H1. reflect.
    apply is_digit_range in H0.
    assert (Atoi (c :: s) = n ← parse_digits (c :: s); if n <=? MaxInt64 then Some n else None) as ->.
    { unfold Atoi. repeat case_match; subst; try done; by vm_compute in H0. }
    rewrite H. simpl. by rewrite (proj2 (Z.leb_le _ _)) by (unfold MaxInt64; lia).
Qed.

Lemma Itoa_no_sep n c :
  is_digit c = false -> c <> "-"%char -> c ∉ Itoa n.
Proof.
  intros Hd Hm. assert (Hf : forall m, 0 <= m -> c ∉ format_uint m).
  { intros m Hm0 Hin. destruct (format_uint_spec m Hm0) as (H1 & _ & _).
    rewrite forallb_forall in H1. rewrite list_elem_of_In in Hin.
    specialize (H1 c Hin). congruence. }
  unfold Itoa. destruct (n <? 0) eqn:E; reflect.
  - intros [|]%elem_of_cons; [done|]. apply (Hf (- n)); [lia|done].
  - apply Hf. lia.
Qed.

Lemma parse_digits_nonneg s n : parse_digits s = Some n -> 0 <= n.
Proof.
  unfold parse_digits, digits_val. intros H. destruct s as [|c s]; [done|].
  destruct (forallb is_digit (c :: s)) eqn:E; [|done]. injection H as <-.
  assert (G : forall l a, 0 <= a -> forallb is_digit l = true ->
    0 <= fold_left (fun acc c => acc * 10 + digit_val c) l a).
  { induction l as [|d l IH]; intros a Ha Hl; simpl in *; [done|]. reflect.
    apply IH; [|done]. assert (Hd := is_digit_range d ltac:(assumption)). unfold digit_val. lia. }
  apply (G (c :: s) 0); [lia|done].
Qed.

(** Only a minus sign makes a number negative. *)
Lemma Atoi_negative s n : Atoi s = Some n -> n < 0 -> "-"%char ∈ s.
Proof.
  unfold Atoi. intros H Hn. destruct s as [|c s]; [done|].
  destruct (Ascii.eqb_spec c "-") as [->|Hc]; [left|]. exfalso.
  assert (G : forall l, (m ← parse_digits l; if m <=? MaxInt64 then Some m else None) = Some n -> False).
  { intros l Hl. destruct (parse_digits l) eqn:E; [|done]. simpl in Hl.
    apply parse_digits_nonneg in E. case_match; [|done]. simplify_eq. lia. }
  destruct c as [[] [] [] [] [] [] [] []]; first [by apply Hc | by apply G in H].
Qed.

(** ** Searching *)

Lemma IndexByte_first t c s : c ∉ t -> IndexByte (t ++ c :: s) c = Some (length t).
Proof.
  induction t as [|b t IH]; simpl; intros Hn.
  - by rewrite Ascii.eqb_refl.
  - rewrite not_elem_of_cons in Hn. destruct Hn as [Hb Ht].
    destruct (Ascii.eqb_spec b c); [congruence|]. by rewrite IH.
Qed.

Lemma IndexByte_Some s c i : IndexByte s c = Some i -> s = take i s ++ c :: drop (S i) s /\ c ∉ take i s.
Proof.
  revert i; induction s as [|b s IH]; intros i; simpl; [done|].
  destruct (Ascii.eqb_spec b c) as [->|Hne].
  - intros [= <-]. split; [by rewrite drop_0|apply not_elem_of_nil].
  - destruct (IndexByte s c) as [j|]; [|done]. intros [= <-]. destruct (IH j eq_refl) as [H1 H2].
    split; [cbn; by f_equal|]. cbn. by apply not_elem_of_cons.
Qed.

Lemma IndexByte_None s c : IndexByte s c = None <-> c ∉ s.
Proof.
  induction s as [|b s IH]; simpl; [split; [intros _; apply not_elem_of_nil|done]|].
  rewrite not_elem_of_cons. destruct (Ascii.eqb_spec b c) as [->|Hne].
  - split; [done|]. by intros [? _].
  - rewrite <- IH. destruct (IndexByte s c); cbn; intuition congruence.
Qed.

Lemma CutSuffix_Some s p t : CutSuffix s p = Some t <-> s = t ++ p.
Proof.
  unfold CutSuffix, HasSuffix. split.
  - destruct ((length p <=? length s)%nat && bool_decide (drop (length s - length p) s = p)) eqn:E; [|done].
    intros [= <-]. reflect. rewrite <- H0 at 2. by rewrite take_drop.
  - intros ->. rewrite length_app.
    replace (length t + length p - length p)%nat with (length t) by lia.
    rewrite take_app_length, drop_app_length, bool_decide_eq_true_2, andb_true_r by done.
    by rewrite (proj2 (Nat.leb_le _ _)) by lia.
Qed.
