(* ===== verification/GoSort.v ===== *)
(** * Ordering of strings and stable sorting

    What the code uses of strings.Compare, slices.Sort and slices.SortStableFunc.
    [SortStableFunc] is documented as a stable sort for a comparison that is a
    strict weak ordering; insertion sort is one, and any two stable sorts agree
    ([stable_unique]). *)

From Stdlib Require Import Sorted Permutation.
From S2P Require Import Prelude GoStrings.

(** ** Strings *)

(** [strings.Compare]: byte by byte, a prefix comes first. *)
Fixpoint str_compare (a b : bytes) : comparison :=
  match a, b with
  | [], [] => Eq
  | [], _ => Lt
  | _, [] => Gt
  | x :: a', y :: b' => match (byteZ x ?= byteZ y)%Z with Eq => str_compare a' b' | c => c end
  end.

Lemma str_compare_eq a b : str_compare a b = Eq <-> a = b.
Proof.
  revert b. induction a as [|x a IH]; intros [|y b]; simpl; [done..|]. destruct (byteZ x ?= byteZ y)%Z eqn:E.
  - apply Z.compare_eq_iff, byteZ_inj in E as ->. rewrite IH. split; [by intros ->|by intros [= ->]].
  - split; [done|]. intros [= -> ->]. by rewrite Z.compare_refl in E.
  - split; [done|]. intros [= -> ->]. by rewrite Z.compare_refl in E.
Qed.

Lemma str_compare_antisym a b : str_compare b a = CompOpp (str_compare a b).
Proof.
  revert b. induction a as [|x a IH]; intros [|y b]; simpl; [done..|]. rewrite (Z.compare_antisym (byteZ x) (byteZ y)).
  destruct (byteZ x ?= byteZ y)%Z; simpl; auto.
Qed.

Lemma str_compare_trans a b c : str_compare a b <> Gt -> str_compare b c <> Gt -> str_compare a c <> Gt.
Proof.
  revert b c. induction a as [|x a IH]; intros [|y b] [|z c]; simpl; try done.
  destruct (Z.compare_spec (byteZ x) (byteZ y)); destruct (Z.compare_spec (byteZ y) (byteZ z)); try done; intros H1 H2;
    destruct (Z.compare_spec (byteZ x) (byteZ z)); try done; try lia. eauto.
Qed.

(** ** Stable sorting *)

(** A total preorder as a comparison. *)
Class TotalCompare {A} (cmp : A -> A -> comparison) := {
  cmp_antisym : forall a b, cmp b a = CompOpp (cmp a b);
  cmp_trans : forall a b c, cmp a b <> Gt -> cmp b c <> Gt -> cmp a c <> Gt
}.

#[export] Instance str_compare_total : TotalCompare str_compare.
Proof. split; [apply str_compare_antisym|apply str_compare_trans]. Qed.

(** By a number. *)
#[export] Instance key_compare_total {A} (key : A -> Z) : TotalCompare (fun a b => (key a ?= key b)%Z).
Proof.
  split; [intros a b; apply Z.compare_antisym|].
  intros a b c H1 H2. rewrite Z.compare_le_iff in *. lia.
Qed.

(** By a text. *)
#[export] Instance text_compare_total {A} (key : A -> bytes) : TotalCompare (fun a b => str_compare (key a) (key b)).
Proof. split; intros; [apply str_compare_antisym|by eapply str_compare_trans]. Qed.

(** By one comparison, then by another. *)
#[export] Instance then_compare_total {A} (f g : A -> A -> comparison) `{TotalCompare A f, TotalCompare A g} :
  TotalCompare (fun a b => match f a b with Eq => g a b | c => c end).
Proof.
  split.
  - intros a b. rewrite (cmp_antisym (cmp := f) a b), (cmp_antisym (cmp := g) a b). by destruct (f a b).
  - intros a b c H1 H2.
    assert (Hrev : forall x y z, f x y <> Gt -> f y z <> Gt -> f x z = Eq -> f x y = Eq /\ f y z = Eq).
    { intros x y z Hxy Hyz Hxz.
      assert (Hzx : f z x <> Gt) by (rewrite (cmp_antisym (cmp := f) x z), Hxz; done).
      pose proof (cmp_trans (cmp := f) y z x Hyz Hzx) as Hyx. rewrite (cmp_antisym (cmp := f) x y) in Hyx.
      pose proof (cmp_trans (cmp := f) z x y Hzx Hxy) as Hzy. rewrite (cmp_antisym (cmp := f) y z) in Hzy.
      destruct (f x y), (f y z); done. }
    assert (Hab : f a b <> Gt) by (by destruct (f a b)). assert (Hbc : f b c <> Gt) by (by destruct (f b c)).
    pose proof (cmp_trans (cmp := f) a b c Hab Hbc) as Hac. destruct (f a c) eqn:E; try done.
    destruct (Hrev a b c Hab Hbc E) as [E1 E2]. rewrite E1 in H1. rewrite E2 in H2. by eapply cmp_trans.
Qed.

Section Sort.
Context {A : Type} (cmp : A -> A -> comparison) `{!TotalCompare cmp}.

Fixpoint sort_insert (x : A) (l : list A) : list A :=
  match l with
  | [] => [x]
  | y :: l' => match cmp x y with Gt => y :: sort_insert x l' | _ => x :: y :: l' end
  end.

Definition SortStableFunc (l : list A) : list A := foldr sort_insert [] l.

(** Never greater than a later element. *)
Definition cmp_le (a b : A) : Prop := cmp a b <> Gt.
Definition sorted (l : list A) : Prop := StronglySorted cmp_le l.

(** The elements that compare equal to [x], in their order. *)
Definition class_of (x : A) (l : list A) : list A := base.filter (fun y => cmp x y = Eq) l.

Lemma sort_insert_perm x l : sort_insert x l ≡ₚ x :: l.
Proof. induction l as [|y l IH]; simpl; [done|]. destruct (cmp x y); try done. rewrite IH. apply Permutation_swap. Qed.

Lemma SortStableFunc_perm l : SortStableFunc l ≡ₚ l.
Proof. induction l as [|x l IH]; simpl; [done|]. by rewrite sort_insert_perm, IH. Qed.

Lemma sort_insert_sorted x l : sorted l -> sorted (sort_insert x l).
Proof.
  unfold sorted. induction 1 as [|y l Hl IH Hy]; simpl; [by repeat constructor|]. destruct (cmp x y) eqn:E.
  3: { constructor; [done|]. rewrite sort_insert_perm. constructor; [|done]. unfold cmp_le. by rewrite (cmp_antisym x y), E. }
  all: constructor; [by constructor|]; constructor; [unfold cmp_le; by rewrite E|];
    eapply Forall_impl; [exact Hy|]; intros z Hz; eapply cmp_trans; [by rewrite E|exact Hz].
Qed.

Lemma SortStableFunc_sorted l : sorted (SortStableFunc l).
Proof. induction l as [|x l IH]; simpl; [constructor|]. by apply sort_insert_sorted. Qed.

(** Equal elements keep their order. *)
Lemma sort_insert_class z x l : class_of z (sort_insert x l) = class_of z (x :: l).
Proof.
  induction l as [|y l IH]; simpl; [done|]. destruct (cmp x y) eqn:E; try done. unfold class_of in *. rewrite !filter_cons.
  rewrite IH. rewrite filter_cons. destruct (decide (cmp z y = Eq)) as [Hy|Hy], (decide (cmp z x = Eq)) as [Hx|Hx]; try done.
  exfalso. assert (cmp x y <> Gt); [|congruence]. eapply cmp_trans; [|by rewrite Hy]. by rewrite (cmp_antisym z x), Hx.
Qed.

Lemma SortStableFunc_stable z l : class_of z (SortStableFunc l) = class_of z l.
Proof.
  induction l as [|x l IH]; [done|]. cbn [SortStableFunc foldr]. rewrite sort_insert_class. unfold class_of. rewrite !filter_cons.
  by destruct (decide _); [f_equal|].
Qed.

Lemma cmp_refl x : cmp x x = Eq.
Proof. pose proof (cmp_antisym x x) as H. by destruct (cmp x x). Qed.

(** A stable sort is determined by its promise: sorted, and equal elements in
    their order. *)
Lemma stable_unique l1 l2 : sorted l1 -> sorted l2 -> (forall z, class_of z l1 = class_of z l2) -> l1 = l2.
Proof.
  unfold sorted. revert l2. induction l1 as [|x l1 IH]; intros l2 H1 H2 Hc.
  - destruct l2 as [|y l2]; [done|]. specialize (Hc y). unfold class_of in Hc. rewrite filter_cons_True in Hc by apply cmp_refl. done.
  - destruct l2 as [|y l2].
    { specialize (Hc x). unfold class_of in Hc. rewrite filter_cons_True in Hc by apply cmp_refl. done. }
    apply StronglySorted_inv in H1 as [H1 Hx], H2 as [H2 Hy].
    assert (Hmem : forall z a b : list A, (forall w, class_of w a = class_of w b) -> forall e, e ∈ a -> e ∈ b).
    { intros _ a b Hab e He. assert (He' : e ∈ class_of e a) by (apply list_elem_of_filter; split; [apply cmp_refl|done]).
      rewrite Hab in He'. by apply list_elem_of_filter in He' as [_ ?]. }
    assert (Hxy : cmp x y <> Gt).
    { assert (y ∈ x :: l1) as Hin by (eapply (Hmem []); [intros w; symmetry; apply Hc|by left]).
      apply elem_of_cons in Hin as [->|Hin]; [by rewrite cmp_refl|]. rewrite Forall_forall in Hx. by apply Hx. }
    assert (Hyx : cmp y x <> Gt).
    { assert (x ∈ y :: l2) as Hin by (eapply (Hmem []); [apply Hc|by left]).
      apply elem_of_cons in Hin as [->|Hin]; [by rewrite cmp_refl|]. rewrite Forall_forall in Hy. by apply Hy. }
    assert (E : cmp x y = Eq) by (rewrite (cmp_antisym x y) in Hyx; by destruct (cmp x y)).
    assert (x = y) as <-.
    { pose proof (Hc x) as Hcx. unfold class_of in Hcx. rewrite !filter_cons_True in Hcx by (done || apply cmp_refl). by injection Hcx. }
    f_equal. apply IH; [done..|]. intros z. specialize (Hc z). unfold class_of in *. rewrite !filter_cons in Hc.
    destruct (decide _); [by injection Hc|done].
Qed.

End Sort.

(** Sorting only compares elements at different places: comparisons that agree on
    these give the same result. *)
Lemma sort_insert_ext {A} (f g : A -> A -> comparison) x l : Forall (fun y => f x y = g x y) l -> sort_insert f x l = sort_insert g x l.
Proof. induction 1 as [|y l Hy _ IH]; simpl; [done|]. rewrite Hy. destruct (g x y); congruence. Qed.

Lemma SortStableFunc_ext {A} (f g : A -> A -> comparison) l :
  StronglySorted (fun x y => f x y = g x y) l -> SortStableFunc f l = SortStableFunc g l.
Proof.
  induction 1 as [|x l _ IH Hx]; simpl; [done|]. rewrite IH. apply sort_insert_ext.
  rewrite SortStableFunc_perm. done.
Qed.

(** [slices.Sort] of strings. *)
Definition sort_strings (l : list bytes) : list bytes := SortStableFunc str_compare l.

Lemma sort_strings_perm l : sort_strings l ≡ₚ l.
Proof. apply SortStableFunc_perm. Qed.

(** The order of the input does not matter. *)
Lemma sort_strings_unique l1 l2 : l1 ≡ₚ l2 -> sort_strings l1 = sort_strings l2.
Proof.
  intros Hp. apply (stable_unique str_compare); [apply SortStableFunc_sorted, _..|]. intros z. unfold sort_strings.
  rewrite !SortStableFunc_stable by apply _. unfold class_of.
  assert (Hrep : forall l, base.filter (fun y => str_compare z y = Eq) l = replicate (length (base.filter (fun y => str_compare z y = Eq) l)) z).
  { intros l. induction l as [|y l IH]; [done|]. rewrite filter_cons. destruct (decide (str_compare z y = Eq)) as [E|]; [|done].
    apply str_compare_eq in E as <-. simpl. by f_equal. }
  rewrite (Hrep l1), (Hrep l2). f_equal. by rewrite Hp.
Qed.
