(* ===== verification/NetAddr.v ===== *)
(** * Package net: addresses, networks, host:port and paths

    The parts of Go's [net], [net/netip] and [path] that the modelled code
    calls: [ParseIP], [ParseCIDR], [IP.Equal], [IPNet.Contains],
    [IP.IsLoopback], [IP.IsPrivate], [SplitHostPort] and [path.Clean]. *)

From S2P Require Import Prelude GoStrings.

(** ** Addresses *)

(** [net.IP]: 4 or 16 bytes (as integers 0..255); a nil IP is [None] where it
    can occur. *)
Abbreviation IP := (list Z).

Definition v4InV6Prefix : list Z := replicate 10 0 ++ [255; 255].

(** [IP.To4]. *)
Definition To4 (ip : IP) : option IP :=
  if (length ip =? 4)%nat then Some ip
  else if (length ip =? 16)%nat && bool_decide (take 12 ip = v4InV6Prefix)
  then Some (drop 12 ip) else None.

(** [IP.Equal]: an IPv4 address and its IPv6 form are equal. *)
Definition Equal (ip x : IP) : bool :=
  if (length ip =? length x)%nat then bool_decide (ip = x)
  else if (length ip =? 4)%nat && (length x =? 16)%nat
  then bool_decide (take 12 x = v4InV6Prefix) && bool_decide (ip = drop 12 x)
  else if (length ip =? 16)%nat && (length x =? 4)%nat
  then bool_decide (take 12 ip = v4InV6Prefix) && bool_decide (drop 12 ip = x)
  else false.

Definition byte_at (ip : IP) (i : nat) : Z := default 0 (ip !! i).

(** [IP.IsLoopback]. *)
Definition IsLoopback (ip : IP) : bool :=
  match To4 ip with
  | Some ip4 => byte_at ip4 0 =? 127
  | None => Equal ip (replicate 15 0 ++ [1])
  end.

(** [IP.IsPrivate]. *)
Definition IsPrivate (ip : IP) : bool :=
  match To4 ip with
  | Some ip4 =>
      (byte_at ip4 0 =? 10)
      || ((byte_at ip4 0 =? 172) && (Z.land (byte_at ip4 1) 0xf0 =? 16))
      || ((byte_at ip4 0 =? 192) && (byte_at ip4 1 =? 168))
  | None => (length ip =? 16)%nat && (Z.land (byte_at ip 0) 0xfe =? 0xfc)
  end.

(** ** Parsing addresses *)

Definition parse_octet (s : bytes) : option Z :=
  match s with
  | [] => None
  | [c] => if is_digit c then Some (digit_val c) else None
  | c :: _ =>
      if forallb is_digit s && negb (Ascii.eqb c "0") && (digits_val s <=? 255)
      then Some (digits_val s) else None
  end.

(** Dotted decimal, exactly four fields without leading zeros. *)
Definition parseIPv4 (s : bytes) : option IP :=
  match mapM parse_octet (Split s ".") with
  | Some [a; b; c; d] => Some [a; b; c; d]
  | _ => None
  end.

Definition hex_val (c : ascii) : option Z :=
  let x := byteZ c in
  if within 48 57 x then Some (x - 48)
  else if within 97 102 x then Some (x - 87)
  else if within 65 70 x then Some (x - 55)
  else None.

(** The hexadecimal digits at the front of [s]: value, count, rest. *)
Fixpoint hex_field (s : bytes) (acc : Z) (n : nat) : Z * nat * bytes :=
  match s with
  | [] => (acc, n, [])
  | c :: s' =>
      match hex_val c with
      | Some d => hex_field s' (acc * 16 + d) (S n)
      | None => (acc, n, s)
      end
  end.

(** The loop of [parseIPv6]: [ip] holds the bytes decoded so far and [ell] the
    position of "::".  A field takes two bytes, so 8 rounds are enough. *)
Fixpoint parse_fields (fuel : nat) (s : bytes) (ip : IP) (ell : option nat)
    : option (IP * option nat * bytes) :=
  match fuel with
  | O => Some (ip, ell, s)
  | S fuel' =>
      let '(acc, n, rest) := hex_field s 0 0 in
      if (n =? 0)%nat || (4 <? n)%nat then None
      else match rest with
           | "."%char :: _ =>
               if negb (bool_decide (is_Some ell)) && negb (length ip =? 12)%nat then None
               else if (16 <? length ip + 4)%nat then None
               else match parseIPv4 s with
                    | Some ip4 => Some (ip ++ ip4, ell, [])
                    | None => None
                    end
           | [] => Some (ip ++ [acc / 256; acc mod 256], ell, [])
           | ":"%char :: rest' =>
               let ip' := ip ++ [acc / 256; acc mod 256] in
               match rest' with
               | [] => None
               | ":"%char :: rest'' =>
                   match ell with
                   | Some _ => None
                   | None =>
                       match rest'' with
                       | [] => Some (ip', Some (length ip'), [])
                       | _ => parse_fields fuel' rest'' ip' (Some (length ip'))
                       end
                   end
               | _ => parse_fields fuel' rest' ip' ell
               end
           | _ => None
           end
  end.

Definition finish_v6 (r : IP * option nat * bytes) : option IP :=
  let '(ip, ell, rest) := r in
  match rest with
  | _ :: _ => None
  | [] =>
      if (length ip <? 16)%nat then
        match ell with
        | None => None
        | Some e => Some (take e ip ++ replicate (16 - length ip) 0 ++ drop e ip)
        end
      else match ell with None => Some ip | Some _ => None end
  end.

Definition parseIPv6 (s : bytes) : option IP :=
  match s with
  | ":"%char :: ":"%char :: [] => Some (replicate 16 0)
  | ":"%char :: ":"%char :: s' => parse_fields 8 s' [] (Some 0%nat) ≫= finish_v6
  | _ => parse_fields 8 s [] None ≫= finish_v6
  end.

(** [netip.ParseAddr] without zones: the first of '.', ':' and '%' decides. *)
Fixpoint addr_kind (s : bytes) : option ascii :=
  match s with
  | [] => None
  | c :: s' =>
      if Ascii.eqb c "." || Ascii.eqb c ":" || Ascii.eqb c "%" then Some c else addr_kind s'
  end.

Definition ParseAddr (s : bytes) : option IP :=
  match addr_kind s with
  | Some "."%char => parseIPv4 s
  | Some ":"%char =>
      match IndexByte s "%" with
      | Some _ => None          (* a zone: refused by every caller *)
      | None => parseIPv6 s
      end
  | _ => None
  end.

(** [Addr.As16]. *)
Definition As16 (ip : IP) : IP := if (length ip =? 4)%nat then v4InV6Prefix ++ ip else ip.

(** [net.ParseIP]: the result always has 16 bytes. *)
Definition ParseIP (s : bytes) : option IP := As16 <$> ParseAddr s.

(** ** Networks *)

Record IPNet := { net_IP : IP; net_Mask : list Z }.

(** One byte of [CIDRMask(ones, bits)]: the [n] high bits set. *)
Definition mask_byte (n : Z) : Z :=
  if n <=? 0 then 0 else if 8 <=? n then 255 else 256 - 2 ^ (8 - n).

Definition CIDRMask (ones : Z) (len : nat) : list Z :=
  map (fun i => mask_byte (ones - 8 * Z.of_nat i)) (seq 0 len).

Definition and_bytes (a b : list Z) : list Z := zip_with Z.land a b.

(** [IP.Mask] for the masks [ParseCIDR] builds. *)
Definition Mask (ip : IP) (mask : list Z) : IP :=
  if (length mask =? 4)%nat && (length ip =? 16)%nat && bool_decide (take 12 ip = v4InV6Prefix)
  then and_bytes (drop 12 ip) mask
  else and_bytes ip mask.

Definition ParseCIDR (s : bytes) : option (IP * IPNet) :=
  match Cut s "/" with
  | (addr, mask, true) =>
      ip ← ParseAddr addr;
      match mask with
      | [] => None
      | _ =>
          if forallb is_digit mask && (digits_val mask <=? 8 * Z.of_nat (length ip))
          then let m := CIDRMask (digits_val mask) (length ip) in
               Some (As16 ip, {| net_IP := Mask (As16 ip) m; net_Mask := m |})
          else None
      end
  | _ => None
  end.

(** [IPNet.Contains]. *)
Definition Contains (n : IPNet) (ip : IP) : bool :=
  let nn := default (net_IP n) (To4 (net_IP n)) in
  let m := if (length nn =? 4)%nat && (length (net_Mask n) =? 16)%nat
           then drop 12 (net_Mask n) else net_Mask n in
  let x := default ip (To4 ip) in
  (length x =? length nn)%nat && bool_decide (and_bytes nn m = and_bytes x m).

(** [Mask.Size] of a canonical mask: the number of leading ones. *)
Definition mask_ones (m : list Z) : Z :=
  sum_Z (map (fun b => sum_Z (map (fun i => Z.b2z (Z.testbit b i)) [0; 1; 2; 3; 4; 5; 6; 7])) m).

(** ** Host and port *)

(** [net.SplitHostPort]; [None] is any of its errors. *)
Definition SplitHostPort (s : bytes) : option (bytes * bytes) :=
  match LastIndexByte s ":" with
  | None => None
  | Some i =>
      let no_brackets (j k : nat) :=
        negb (bool_decide (is_Some (IndexByte (drop j s) "[")))
        && negb (bool_decide (is_Some (IndexByte (drop k s) "]"))) in
      match s with
      | "["%char :: _ =>
          match IndexByte s "]" with
          | None => None
          | Some e =>
              if (S e =? i)%nat && no_brackets 1%nat (S e)
              then Some (take (e - 1) (drop 1 s), drop (S i) s) else None
          end
      | _ =>
          let host := take i s in
          if bool_decide (is_Some (IndexByte host ":")) then None
          else if no_brackets 0%nat 0%nat then Some (host, drop (S i) s) else None
      end
  end.

(** ** Paths *)

(** One element of a path against the cleaned elements so far (last first). *)
Definition clean_step (rooted : bool) (out : list bytes) (e : bytes) : list bytes :=
  if bool_decide (e = [] \/ e = B ".") then out
  else if bool_decide (e = B "..") then
    match out with
    | [] => if rooted then [] else [e]
    | o :: out' => if bool_decide (o = B "..") then e :: out else out'
    end
  else e :: out.

(** [path.Clean]. *)
Definition Clean (p : bytes) : bytes :=
  match p with
  | [] => "."
  | c :: _ =>
      let rooted := Ascii.eqb c "/" in
      let els := rev (fold_left (clean_step rooted) (Split p "/") []) in
      if rooted then "/"%char :: Join els "/"
      else match els with [] => "." | _ => Join els "/" end
  end.

Example ParseIP_ex :
  ParseIP "192.168.1.10" = Some (v4InV6Prefix ++ [192; 168; 1; 10])
  /\ ParseIP "fe80::1:2" = Some ([254; 128] ++ replicate 10 0 ++ [0; 1; 0; 2])
  /\ ParseIP "::ffff:1.2.3.4" = Some (v4InV6Prefix ++ [1; 2; 3; 4])
  /\ ParseIP "1.2.3" = None /\ ParseIP "01.2.3.4" = None /\ ParseIP "1:2" = None.
Proof. vm_compute. repeat split; reflexivity. Qed.

Example ParseCIDR_ex :
  snd <$> ParseCIDR "10.1.2.3/8" = Some {| net_IP := [10; 0; 0; 0]; net_Mask := [255; 0; 0; 0] |}
  /\ ParseCIDR "10.0.0.0/33" = None.
Proof. vm_compute. by split. Qed.

Example Clean_ex :
  Clean "/a/../b//c/." = B "/b/c" /\ Clean "../x/.." = B ".." /\ Clean "/.." = B "/".
Proof. vm_compute. repeat split; reflexivity. Qed.

Example SplitHostPort_ex :
  SplitHostPort "a:80" = Some (B "a", B "80") /\ SplitHostPort "[::1]:8080" = Some (B "::1", B "8080")
  /\ SplitHostPort "::1" = None /\ SplitHostPort "host" = None.
Proof. vm_compute. repeat split; reflexivity. Qed.
