(* ===== verification/Health.v ===== *)
(** * Health statuses

    Models the type [HealthStatus] of internal/types/health.go: a uint8 with
    one bit per status, its masks, and its text form. *)

From S2P Require Import Prelude GoStrings.

(** ** Definitions *)

(** The constants: [StatusHealthy] is [1 << iota] with [iota = 1]. *)
Definition StatusUnknown : Z := 0.
Definition StatusHealthy : Z := Z.shiftl 1 1.
Definition StatusNapping : Z := Z.shiftl 1 2.
Definition StatusStarting : Z := Z.shiftl 1 3.
Definition StatusUnhealthy : Z := Z.shiftl 1 4.
Definition StatusError : Z := Z.shiftl 1 5.

Definition HealthyMask : Z := Z.lor (Z.lor StatusHealthy StatusNapping) StatusStarting.
Definition IdlingMask : Z := Z.lor StatusNapping StatusStarting.

Definition Good (s : Z) : bool := negb (Z.land s HealthyMask =? 0).
Definition Bad (s : Z) : bool := Z.land s HealthyMask =? 0.
Definition Idling (s : Z) : bool := negb (Z.land s IdlingMask =? 0).

(** [HealthStatus.String]. *)
Definition status_String (s : Z) : bytes :=
  if s =? StatusHealthy then "healthy"
  else if s =? StatusUnhealthy then "unhealthy"
  else if s =? StatusNapping then "napping"
  else if s =? StatusStarting then "starting"
  else if s =? StatusError then "error"
  else "unknown".

(** [NewHealthStatusFromString]: the name or the decimal value. *)
Definition NewHealthStatusFromString (s : bytes) : Z :=
  let eqs (name : bytes) (v : Z) := bool_decide (s = name) || bool_decide (s = Itoa v) in
  if eqs "healthy" StatusHealthy then StatusHealthy
  else if eqs "unhealthy" StatusUnhealthy then StatusUnhealthy
  else if eqs "napping" StatusNapping then StatusNapping
  else if eqs "starting" StatusStarting then StatusStarting
  else if eqs "error" StatusError then StatusError
  else StatusUnknown.

Definition all_statuses : list Z :=
  [StatusUnknown; StatusHealthy; StatusNapping; StatusStarting; StatusUnhealthy; StatusError].

(** ** Theorems *)

(** Both text forms are read back, and no status is both good and bad. *)
Lemma status_text_roundtrip s :
  s ∈ all_statuses ->
  NewHealthStatusFromString (status_String s) = s /\ NewHealthStatusFromString (Itoa s) = s
  /\ (Idling s = true -> Good s = true) /\ Bad s = negb (Good s).
Proof.
  unfold all_statuses. intros Hs. repeat (apply elem_of_cons in Hs as [->|Hs]; [vm_compute; intuition congruence|]).
  by apply not_elem_of_nil in Hs.
Qed.
