(* ===== verification/RulesParser.v ===== *)
(** * Rule expressions: the tokenizer [parse]

    Models internal/route/rules/parser.go: the function [parse] that splits
    one line of a rule ([error 403 "Forbidden ${NAME}"]) into a subject and
    its arguments, with quotes, escapes, brackets and environment variables.
    [LookupEnv] (package goutils/env) is a parameter. *)

From S2P Require Import Prelude GoStrings.

Inductive parse_error :=
  | ErrUnterminatedQuotes
  | ErrUnterminatedBrackets
  | ErrUnterminatedEnvVar.

#[export] Instance parse_error_eq_dec : EqDecision parse_error.
Proof. solve_decision. Defined.

(** The three results of [parse]: [po_err] is the syntax error and
    [po_missing] the names joined to it as [ErrEnvVarNotFound]; the returned
    [err] is nil when both are absent. *)
Record parse_output := ParseOutput {
  po_subject : bytes;
  po_args : list bytes;
  po_err : option parse_error;
  po_missing : list bytes
}.

(** The local variables of the loop. *)
Record parser := Parser {
  p_buf : bytes;
  p_escaped : bool;
  p_quote : Z;            (* 0 outside quotes *)
  p_brackets : Z;
  p_envVar : bytes;
  p_missing : list bytes;
  p_inEnvVar : bool;
  p_expectingBrace : bool;
  p_subject : bytes;
  p_args : list bytes
}.

Definition init_parser : parser :=
  Parser [] false 0 0 [] [] false false [] [].

(** [escapedChars]. *)
Definition escapedChars (r : Z) : option Z :=
  if r =? rune "n" then Some 10
  else if r =? rune "t" then Some 9
  else if r =? rune "r" then Some 13
  else if r =? 39 then Some 39
  else if r =? 34 then Some 34
  else if r =? rune "\" then Some (rune "\")
  else if r =? rune " " then Some (rune " ")
  else None.

(** [quoteChars], an array of 256 entries: indexing it with a larger rune is
    a run-time panic. *)
Definition quoteChars (r : Z) : result parse_error bool :=
  if within 0 255 r then Ok ((r =? 34) || (r =? 39) || (r =? 96))
  else Panic IndexOutOfRange.

Definition set_buf (b : bytes) (p : parser) : parser :=
  Parser b (p_escaped p) (p_quote p) (p_brackets p) (p_envVar p) (p_missing p)
    (p_inEnvVar p) (p_expectingBrace p) (p_subject p) (p_args p).

Definition set_escaped (e : bool) (p : parser) : parser :=
  Parser (p_buf p) e (p_quote p) (p_brackets p) (p_envVar p) (p_missing p)
    (p_inEnvVar p) (p_expectingBrace p) (p_subject p) (p_args p).

Definition set_quote (q : Z) (p : parser) : parser :=
  Parser (p_buf p) (p_escaped p) q (p_brackets p) (p_envVar p) (p_missing p)
    (p_inEnvVar p) (p_expectingBrace p) (p_subject p) (p_args p).

Definition set_brackets (n : Z) (p : parser) : parser :=
  Parser (p_buf p) (p_escaped p) (p_quote p) n (p_envVar p) (p_missing p)
    (p_inEnvVar p) (p_expectingBrace p) (p_subject p) (p_args p).

Definition set_env (v : bytes) (i : bool) (p : parser) : parser :=
  Parser (p_buf p) (p_escaped p) (p_quote p) (p_brackets p) v (p_missing p)
    i (p_expectingBrace p) (p_subject p) (p_args p).

Definition add_missing (v : bytes) (p : parser) : parser :=
  Parser (p_buf p) (p_escaped p) (p_quote p) (p_brackets p) (p_envVar p)
    (p_missing p ++ [v]) (p_inEnvVar p) (p_expectingBrace p) (p_subject p) (p_args p).

Definition set_brace (e : bool) (p : parser) : parser :=
  Parser (p_buf p) (p_escaped p) (p_quote p) (p_brackets p) (p_envVar p) (p_missing p)
    (p_inEnvVar p) e (p_subject p) (p_args p).

Definition write (s : bytes) (p : parser) : parser := set_buf (p_buf p ++ s) p.

Definition write_rune (r : Z) (p : parser) : parser := write (WriteRune r) p.

(** The loop of [flush] that counts leading white space.  It records the byte
    offset [i + 1] after the start of each white-space rune. *)
Fixpoint leading_spaces (i beg : nat) (rs : list (Z * bytes)) : nat :=
  match rs with
  | [] => beg
  | (r, bs) :: rs' =>
      if IsSpace r then leading_spaces (i + length bs) (i + 1) rs' else beg
  end.

(** The token [part] joins the result: the subject first, then arguments. *)
Definition emit (part : bytes) (p : parser) : parser :=
  let '(sub, args) :=
    match p_subject p with
    | [] => (part, p_args p)
    | _ => (p_subject p, p_args p ++ [part])
    end in
  Parser [] (p_escaped p) (p_quote p) (p_brackets p) (p_envVar p) (p_missing p)
    (p_inEnvVar p) (p_expectingBrace p) sub args.

(** The closure [flush]. *)
Definition flush (quoted : bool) (p : parser) : parser :=
  let part := p_buf p in
  if quoted then emit part p
  else
    let beg := leading_spaces 0 0 (runes part) in
    if (beg =? length part)%nat then p else emit (drop beg part) p.

Section Parse.

Context (LookupEnv : bytes -> option bytes).

(** The part of an iteration after the escape and quote cases. *)
Definition step_plain (p : parser) (r : Z) : result parse_error parser :=
  if r =? rune "\" then Ok (set_escaped true p)
  else if r =? rune "$" then
    if p_expectingBrace p then Ok (set_brace false (write_rune r p))
    else Ok (set_brace true p)
  else if r =? rune "{" then
    if p_expectingBrace p then Ok (set_env [] true (set_brace false p))
    else Ok (write_rune r p)
  else if r =? rune "}" then
    if p_inEnvVar p then
      let p' := match LookupEnv (p_envVar p) with
                | None => add_missing (p_envVar p) p
                | Some v => write v p
                end in
      Ok (set_env (p_envVar p') false p')
    else Ok (write_rune r p)
  else if r =? rune "(" then
    Ok (write_rune r (set_brackets (p_brackets p + 1) p))
  else if r =? rune ")" then
    if p_brackets p =? 0 then Err ErrUnterminatedBrackets
    else Ok (write_rune r (set_brackets (p_brackets p - 1) p))
  else if r =? rune " " then
    if p_quote p =? 0 then Ok (flush false p) else Ok (write_rune r p)
  else
    let p := if p_expectingBrace p then set_brace false (write_rune (rune "$") p) else p in
    if p_inEnvVar p then Ok (set_env (p_envVar p ++ WriteRune r) true p)
    else Ok (write_rune r p).

(** One iteration of the loop over the runes of the line. *)
Definition step (p : parser) (r : Z) : result parse_error parser :=
  if p_escaped p then
    let p' := match escapedChars r with
              | Some ch => write_rune ch p
              | None => write (B "\" ++ WriteRune r) p
              end in
    Ok (set_escaped false p')
  else
    let p := if p_expectingBrace p && negb (r =? rune "{") && negb (r =? rune "$")
             then set_brace false (write_rune (rune "$") p) else p in
    q ← quoteChars r;
    if q : bool then
      if (p_quote p =? 0) && (p_brackets p =? 0) then Ok (flush false (set_quote r p))
      else if r =? p_quote p then Ok (flush true (set_quote 0 p))
      else Ok (write_rune r p)
    else step_plain p r.

(** After the loop. *)
Definition finish (p : parser) : parse_output :=
  let p := if p_expectingBrace p then write_rune (rune "$") p else p in
  if negb (p_quote p =? 0) then
    ParseOutput (p_subject p) (p_args p) (Some ErrUnterminatedQuotes) (p_missing p)
  else if negb (p_brackets p =? 0) then
    ParseOutput (p_subject p) (p_args p) (Some ErrUnterminatedBrackets) (p_missing p)
  else if p_inEnvVar p then
    ParseOutput (p_subject p) (p_args p) (Some ErrUnterminatedEnvVar) (p_missing p)
  else
    let p := flush false p in
    ParseOutput (p_subject p) (p_args p) None (p_missing p).

(** The loop; the early [return] on an unmatched ')' keeps the tokens found so
    far and does not report the missing variables. *)
Fixpoint parse_loop (p : parser) (rs : list Z) : result parse_error parse_output :=
  match rs with
  | [] => Ok (finish p)
  | r :: rs' =>
      match step p r with
      | Ok p' => parse_loop p' rs'
      | Err e => Ok (ParseOutput (p_subject p) (p_args p) (Some e) [])
      | Panic k => Panic k
      end
  end.

Definition parse (v : bytes) : result parse_error parse_output :=
  parse_loop init_parser (map fst (runes v)).

End Parse.

(** The returned [err] is nil. *)
Definition parse_succeeds (o : parse_output) : bool :=
  match po_err o, po_missing o with None, [] => true | _, _ => false end.

Definition no_env : bytes -> option bytes := fun _ => None.

Example parse_ex1 :
  parse no_env "error 403 'Forbidden `foo` `bar`' a\ b $$x"
  = Ok (ParseOutput "error" [B "403"; B "Forbidden `foo` `bar`"; B "a b"; B "$x"] None []).
Proof. vm_compute. reflexivity. Qed.

Example parse_ex2 :
  parse (fun k => if bool_decide (k = B "X") then Some (B "v") else None)
    "set ${X}y ${Z} glob(a b)"
  = Ok (ParseOutput "set" [B "vy"; B "glob(a"; B "b)"] None [B "Z"]).
Proof. vm_compute. reflexivity. Qed.

(** ** Writing an argument so that [parse] reads it back

    Words and arguments are lists of characters. *)

(** Inside double quotes, the characters with a meaning are escaped. *)
Definition escape_rune (r : Z) : list Z :=
  if r =? 34 then [92; 34] else if r =? 92 then [92; 92] else if r =? 36 then [36; 36] else [r].

Definition escape (a : list Z) : list Z := concat (map escape_rune a).

Definition quote_arg (a : list Z) : list Z := [34] ++ escape a ++ [34].

(** The line [w "a1" "a2" ...]. *)
Definition render (w : list Z) (args : list (list Z)) : list Z :=
  w ++ concat (map (fun a => [32] ++ quote_arg a) args).

(** The brackets of a text close what was opened, [depth] brackets being open
    before it. *)
Fixpoint balanced (depth : Z) (a : list Z) : bool :=
  match a with
  | [] => depth =? 0
  | r :: a => if r =? 40 then balanced (depth + 1) a
              else if r =? 41 then (0 <? depth) && balanced (depth - 1) a
              else balanced depth a
  end.

(** What a quoted argument may hold: characters up to U+00FF, with balanced
    brackets. *)
Definition quotable (a : list Z) : bool := forallb (within 0 255) a && balanced 0 a.

(** Characters [parse] copies as they are outside quotes. *)
Definition plain (r : Z) : bool :=
  within 0 255 r && negb (IsSpace r) && negb (existsb (Z.eqb r) [34; 39; 96; 92; 36; 40; 41]).

(** ** Lemmas *)

Ltac eval_runes :=
  repeat match goal with
  | |- context [rune ?c] => let v := eval vm_compute in (rune c) in change (rune c) with v
  | H : context [rune ?c] |- _ =>
      let v := eval vm_compute in (rune c) in change (rune c) with v in H
  end.

Lemma IsSpace_false_32 r : IsSpace r = false -> r <> 32.
Proof. intros H ->. done. Qed.

Lemma plain_spec r :
  plain r = true ->
  IsSpace r = false /\ 0 <= r < 256 /\
  r <> 32 /\ r <> 34 /\ r <> 39 /\ r <> 96 /\ r <> 92 /\ r <> 36 /\ r <> 40 /\ r <> 41.
Proof.
  unfold plain. intros [[Hw Hs]%andb_prop Hx]%andb_prop. apply negb_true_iff in Hs, Hx.
  apply within_spec in Hw. pose proof (IsSpace_false_32 _ Hs). cbn [existsb] in Hx. reflect.
  repeat split; try done; lia.
Qed.

Lemma narrow_valid r : 0 <= r < 256 -> valid_rune r = true.
Proof. intros. apply valid_rune_spec. lia. Qed.

Section ParseLemmas.

Context (LookupEnv : bytes -> option bytes).

Abbreviation step := (step LookupEnv).
Abbreviation parse_loop := (parse_loop LookupEnv).

Lemma parse_loop_foldM p rs rest p' :
  foldM step p rs = Ok p' -> parse_loop p (rs ++ rest) = parse_loop p' rest.
Proof.
  revert p; induction rs as [|r rs IH]; intros p H; simpl in *; [by simplify_eq|].
  destruct (step p r); simpl; try done. by apply IH.
Qed.

(** Outside any construct: not escaped, no pending [$], no variable. *)
Definition quiet (p : parser) : Prop :=
  p_escaped p = false /\ p_expectingBrace p = false /\ p_inEnvVar p = false.

Lemma quoteChars_lt256 r :
  0 <= r < 256 -> quoteChars r = Ok ((r =? 34) || (r =? 39) || (r =? 96)).
Proof. intros. unfold quoteChars. by rewrite (proj2 (within_spec _ _ _)) by lia. Qed.

Lemma step_copy p r :
  quiet p -> 0 <= r < 256 -> r <> 92 -> r <> 36 -> r <> 40 -> r <> 41 ->
  (p_quote p = 0 /\ r <> 32 /\ r <> 34 /\ r <> 39 /\ r <> 96 \/ p_quote p = 34 /\ r <> 34) ->
  step p r = Ok (write_rune r p).
Proof.
  intros (He & Hb & Hi) Hr H1 H2 H3 H4 Hq.
  unfold RulesParser.step. rewrite He, Hb. cbn [andb].
  rewrite quoteChars_lt256 by lia. unfold mbind, result_bind.
  unfold step_plain. rewrite Hb, Hi. eval_runes.
  destruct Hq as [(Hq & ? & ? & ? & ?) | [Hq ?]]; rewrite Hq;
    repeat case_match; reflect; try done; lia.
Qed.

Lemma write_app a b p : write b (write a p) = write (a ++ b) p.
Proof. destruct p. unfold write, set_buf. simpl. by rewrite <- app_assoc. Qed.

Lemma write_nil p : write [] p = p.
Proof. destruct p. unfold write, set_buf. simpl. by rewrite app_nil_r. Qed.

Lemma foldM_plain w : forall p,
  quiet p -> p_quote p = 0 -> forallb plain w = true ->
  foldM step p w = Ok (write (write_runes w) p).
Proof.
  induction w as [|r w IH]; intros p Hp Hq Hw; cbn [foldM].
  { unfold write_runes. simpl. by rewrite write_nil. }
  simpl in Hw. reflect. destruct (plain_spec r H) as (_ & ? & ?).
  rewrite step_copy by (intuition lia). rewrite IH by done.
  unfold write_rune. by rewrite write_app.
Qed.

(** A quoted character that is not a bracket, escaped if it must be, is read as
    itself. *)
Lemma foldM_escape_rune r p :
  quiet p -> p_quote p = 34 -> 0 <= r < 256 -> r <> 40 -> r <> 41 ->
  foldM step p (escape_rune r) = Ok (write_rune r p).
Proof.
  intros Hp Hq Hr H1 H2. unfold escape_rune.
  destruct p as [buf esc q br env mis ine eb sub args]. simpl in *.
  destruct Hp as (He & Hb & Hi). simpl in *. subst.
  destruct (Z.eqb_spec r 34) as [->|E1]; [reflexivity|].
  destruct (Z.eqb_spec r 92) as [->|E2]; [reflexivity|].
  destruct (Z.eqb_spec r 36) as [->|E3]; [reflexivity|].
  cbn [foldM]. rewrite step_copy; try done. by right.
Qed.

(** Brackets are copied and counted, in quotes too. *)
Lemma step_open p : quiet p -> step p 40 = Ok (set_brackets (p_brackets p + 1) (write_rune 40 p)).
Proof. destruct p. intros (He & Hb & Hi). cbn in He, Hb, Hi. by subst. Qed.

Lemma step_close p :
  quiet p -> 0 < p_brackets p -> step p 41 = Ok (set_brackets (p_brackets p - 1) (write_rune 41 p)).
Proof.
  destruct p as [buf esc q br env mis ine eb sub args]. intros (He & Hb & Hi) Hd. cbn in He, Hb, Hi, Hd. subst.
  unfold RulesParser.step. cbn. unfold step_plain. cbn. by rewrite (proj2 (Z.eqb_neq _ _)) by lia.
Qed.

Lemma foldM_escape a : forall p,
  quiet p -> p_quote p = 34 -> forallb (within 0 255) a = true -> balanced (p_brackets p) a = true ->
  foldM step p (escape a) = Ok (set_brackets 0 (write (write_runes a) p)).
Proof.
  induction a as [|r a IH]; intros p Hp Hq Ha Hb.
  { unfold write_runes. simpl in *. rewrite write_nil. reflect. destruct p. by simpl in *; subst. }
  cbn [forallb] in Ha. apply andb_prop in Ha as [Hr%within_spec Ha]. unfold escape. cbn [map concat].
  cbn [balanced] in Hb.
  assert (exists p', foldM step p (escape_rune r) = Ok p' /\ quiet p' /\ p_quote p' = 34
    /\ balanced (p_brackets p') a = true
    /\ forall x, set_brackets 0 (write x p') = set_brackets 0 (write (WriteRune r ++ x) p)) as (p' & E & Hp' & Hq' & Hb' & Hw).
  { destruct (Z.eqb_spec r 40) as [->|]; [|destruct (Z.eqb_spec r 41) as [->|]].
    - change (escape_rune 40) with [40]. cbn [foldM]. rewrite step_open by done. eexists. split; [done|].
      split; [done|]. split; [done|]. split; [done|]. intros x. destruct p. unfold write_rune, write, set_buf, set_brackets.
      cbn. by rewrite <- app_assoc.
    - reflect. change (escape_rune 41) with [41]. cbn [foldM]. rewrite step_close by done. eexists. split; [done|].
      split; [done|]. split; [done|]. split; [done|]. intros x. destruct p. unfold write_rune, write, set_buf, set_brackets.
      cbn. by rewrite <- app_assoc.
    - rewrite foldM_escape_rune by (done || lia). eexists. split; [done|].
      split; [by destruct p|]. split; [by destruct p|]. split; [by destruct p|]. intros x.
      unfold write_rune. by rewrite write_app. }
  rewrite (foldM_app_Ok _ _ p') by done. fold (escape a). rewrite IH by done. by rewrite Hw.
Qed.

(** Between two tokens: the buffer is empty and no quote or bracket is open. *)
Definition between (sub : bytes) (args : list bytes) : parser :=
  Parser [] false 0 0 [] [] false false sub args.

Lemma foldM_quoted sub args a :
  sub <> [] -> quotable a = true ->
  foldM step (between sub args) ([32] ++ quote_arg a) = Ok (between sub (args ++ [write_runes a])).
Proof.
  intros Hs Ha. unfold quotable in Ha. reflect. unfold quote_arg.
  rewrite (foldM_app_Ok _ _ (between sub args)) by reflexivity.
  rewrite (foldM_app_Ok _ _ (set_quote 34 (between sub args))) by reflexivity.
  rewrite (foldM_app_Ok _ _ (set_brackets 0 (write (write_runes a) (set_quote 34 (between sub args)))))
    by (by apply foldM_escape).
  destruct sub as [|c sub]; [done|]. reflexivity.
Qed.

Lemma parse_quoted_args args : forall sub done_args,
  sub <> [] -> Forall (fun a => quotable a = true) args ->
  foldM step (between sub done_args) (concat (map (fun a => [32] ++ quote_arg a) args))
  = Ok (between sub (done_args ++ map write_runes args)).
Proof.
  induction args as [|a args IH]; intros sub da Hs Ha; cbn [map concat].
  - simpl. by rewrite app_nil_r.
  - invert Ha. rewrite (foldM_app_Ok _ _ (between sub (da ++ [write_runes a]))) by (by apply foldM_quoted).
    rewrite IH by done. by rewrite <- app_assoc.
Qed.

(** Leaving a plain word at a space, or at the end of the line. *)
Lemma flush_plain w :
  w <> [] -> forallb plain w = true ->
  flush false (write (write_runes w) init_parser) = between (write_runes w) [].
Proof.
  intros Hw Hp. destruct w as [|r w]; [done|]. simpl in Hp. reflect.
  destruct (plain_spec r H) as (Hs & Hr & _). apply narrow_valid in Hr.
  unfold flush, write, set_buf. cbn [p_buf init_parser app].
  unfold write_runes. cbn [map concat]. rewrite runes_WriteRune by done. cbn [leading_spaces]. rewrite Hs.
  destruct (WriteRune r ++ concat (map WriteRune w)) eqn:E; [|done].
  exfalso. apply app_eq_nil in E as [E _]. pose proof (runes_WriteRune r [] Hr) as Hn. by rewrite E in Hn.
Qed.

Lemma finish_quiet p :
  quiet p -> p_quote p = 0 -> p_brackets p = 0 ->
  finish p = ParseOutput (p_subject (flush false p)) (p_args (flush false p)) None
               (p_missing (flush false p)).
Proof. intros (_ & Hb & Hi) Hq Hk. unfold finish. by rewrite Hb, Hq, Hk, Hi. Qed.

Lemma write_runes_not_nil w : w <> [] -> forallb plain w = true -> write_runes w <> [].
Proof.
  intros Hw Hp E. destruct w as [|r w]; [done|]. simpl in Hp. reflect.
  destruct (plain_spec r H) as (_ & Hr%narrow_valid & _).
  unfold write_runes in E. cbn [map concat] in E. apply app_eq_nil in E as [E _].
  pose proof (runes_WriteRune r [] Hr) as Hn. by rewrite E in Hn.
Qed.

Lemma foldM_first_space w x :
  w <> [] -> forallb plain w = true ->
  foldM step (write (write_runes w) init_parser) ([32] ++ x) = foldM step (between (write_runes w) []) ([32] ++ x).
Proof.
  intros Hw Hp. rewrite (foldM_app_Ok _ _ (between (write_runes w) [])); [done|].
  change (foldM step (write (write_runes w) init_parser) [32])
    with (@Ok parse_error _ (flush false (write (write_runes w) init_parser))).
  by rewrite flush_plain.
Qed.

Lemma render_narrow w args :
  forallb plain w = true -> Forall (fun a => quotable a = true) args ->
  Forall (fun r => valid_rune r = true) (render w args).
Proof.
  intros Hw Ha. rewrite forallb_Forall in Hw. unfold render. apply Forall_app. split.
  { eapply Forall_impl; [exact Hw|]. intros r Hr. apply narrow_valid. apply (plain_spec r Hr). }
  apply Forall_concat, Forall_map. eapply Forall_impl; [exact Ha|]. intros a Hq.
  unfold quote_arg. rewrite !Forall_app. split; [by repeat constructor|]. split; [by repeat constructor|].
  split; [|by repeat constructor]. unfold escape. apply Forall_concat, Forall_map.
  unfold quotable in Hq. apply andb_prop in Hq as [Hq _]. rewrite forallb_Forall in Hq.
  eapply Forall_impl; [exact Hq|].
  intros r Hr%within_spec. unfold escape_rune. repeat case_match; repeat constructor. apply narrow_valid. lia.
Qed.

Lemma flush_escaped q p : p_escaped (flush q p) = p_escaped p.
Proof. unfold flush, emit. repeat case_match; simplify_eq/=; done. Qed.

Lemma step_narrow p r :
  0 <= r < 256 -> r <> 92 -> r <> 41 -> p_escaped p = false ->
  exists p', step p r = Ok p' /\ p_escaped p' = false.
Proof.
  intros Hr H1 H2 He. unfold RulesParser.step, step_plain. rewrite He, quoteChars_lt256 by done.
  unfold mbind, result_bind. eval_runes.
  repeat case_match; simplify_eq; reflect; try lia; eexists; (split; [done|]);
    rewrite ?flush_escaped; done.
Qed.

Lemma step_wide p r :
  256 <= r -> p_escaped p = false -> step p r = Panic IndexOutOfRange.
Proof.
  intros Hr He. unfold RulesParser.step. rewrite He. unfold quoteChars.
  by rewrite (proj2 (within_false _ _ _)) by lia.
Qed.

Lemma parse_loop_panics rs : forall p,
  p_escaped p = false -> Forall (fun r => 0 <= r /\ r <> 92 /\ r <> 41) rs ->
  (parse_loop p rs = Panic IndexOutOfRange <-> Exists (fun r => 256 <= r) rs).
Proof.
  induction rs as [|r rs IH]; intros p He Hrs; simpl.
  { rewrite Exists_nil. done. }
  invert Hrs. destruct H1 as (? & ? & ?). rewrite Exists_cons.
  destruct (Z.le_gt_cases 256 r) as [Hw|Hn].
  - rewrite step_wide by done. tauto.
  - destruct (step_narrow p r) as (p' & -> & He'); try done; try lia.
    rewrite IH by done. intuition lia.
Qed.

End ParseLemmas.

(** ** Properties *)

(** C8: a line written as a plain word followed by double-quoted arguments
    (with the characters that have a meaning escaped) is read back as exactly
    that word and those arguments, without error, whatever the environment:
    quoting loses and invents nothing, for every list of arguments of characters
    up to U+00FF whose brackets are balanced.  (Brackets are counted in quotes
    too, so an unbalanced one is an error; a character above U+00FF panics.)  The
    word is not empty and holds no white space, quote, backslash, dollar sign or
    bracket. *)
Theorem parse_render LookupEnv w args :
  w <> [] -> forallb plain w = true ->
  Forall (fun a => quotable a = true) args ->
  parse LookupEnv (write_runes (render w args))
  = Ok (ParseOutput (write_runes w) (map write_runes args) None []).
Proof.
  intros Hw Hp Ha. unfold parse. rewrite <- (app_nil_r (write_runes _)).
  rewrite runes_write_runes by (by apply render_narrow). rewrite app_nil_r, map_map, map_id. unfold render.
  rewrite (parse_loop_foldM _ _ _ _ (write (write_runes w) init_parser)) by (by apply foldM_plain).
  destruct args as [|a args].
  { cbn [concat map parse_loop]. rewrite finish_quiet by done. by rewrite flush_plain. }
  rewrite <- (app_nil_r (concat _)).
  rewrite (parse_loop_foldM _ _ _ _ (between (write_runes w) (map write_runes (a :: args)))); [done|].
  pose proof (parse_quoted_args LookupEnv (a :: args) (write_runes w) []
    ltac:(by apply write_runes_not_nil) Ha) as Hq. cbn [map concat] in Hq |- *. rewrite <- app_assoc in Hq |- *.
  by rewrite foldM_first_space.
Qed.

(** The text [say $x to (Zoë's) "me"] as an argument. *)
Lemma parse_render_witness :
  parse no_env (write_runes (render (map fst (runes "error"))
    [map fst (runes "403"); map fst (runes "say $x to (Zo") ++ [0xEB] ++ map fst (runes "'s) ") ++ [34; 109; 101; 34]]))
  = Ok (ParseOutput "error" [B "403"; B "say $x to (Zo" ++ WriteRune 0xEB ++ B "'s) " ++ [zbyte 34] ++ B "me" ++ [zbyte 34]]
          None []).
Proof. apply (parse_render no_env); [done|reflexivity|repeat constructor]. Defined.

(** An unbalanced bracket is an error even in quotes. *)
Example quoted_bracket :
  parse no_env (write_runes (render (map fst (runes "error")) [[41]]))
  = Ok (ParseOutput "error" [] (Some ErrUnterminatedBrackets) []).
Proof. vm_compute. reflexivity. Qed.

(** on a line without backslashes and closing brackets, [parse] panics
    (index out of range in [quoteChars]) exactly when the line holds a
    character above U+00FF.  The first half is the tokenizer's safety on
    Latin-1 input; the second is a defect: a rule whose text holds, say,
    a CJK character or an emoji crashes the parser instead of being read. *)
Theorem parse_panics_iff LookupEnv v :
  "\"%char ∉ v -> ")"%char ∉ v ->
  (parse LookupEnv v = Panic IndexOutOfRange <->
   Exists (fun rb => 256 <= rb.1) (runes v)).
Proof.
  intros Hb Hp. unfold parse. rewrite parse_loop_panics; [by rewrite Exists_map|done|].
  apply Forall_map. rewrite Forall_forall. intros [r bs] Hin. simpl.
  pose proof (runes_valid v) as Hv. rewrite Forall_forall in Hv.
  specialize (Hv _ Hin). simpl in Hv. rewrite valid_rune_spec in Hv.
  split; [lia|].
  assert (Hb2 : forall c, c ∉ v -> is_ascii c = true -> r <> byteZ c).
  { intros c Hc Ha ->. apply Hc. rewrite <- (runes_concat v).
    pose proof (runes_chunks v) as Hk. rewrite Forall_forall in Hk.
    specialize (Hk _ Hin). simpl in Hk. unfold is_ascii in Ha. reflect.
    destruct Hk as [(b & -> & Hbc & _)|[? _]]; [|lia].
    apply byteZ_inj in Hbc as <-. apply list_elem_of_In, in_concat.
    exists [c]. split; [|by left]. apply in_map_iff. exists (byteZ c, [c]).
    split; [done|]. by apply list_elem_of_In. }
  split; [by apply (Hb2 "\"%char)|by apply (Hb2 ")"%char)].
Qed.

Lemma parse_panics_iff_witness :
  parse no_env (B "error 403 " ++ write_runes [0x7981]) = Panic IndexOutOfRange.
Proof.
  apply (parse_panics_iff no_env (B "error 403 " ++ write_runes [0x7981])).
  - apply (bool_decide_unpack _). vm_compute. exact I.
  - apply (bool_decide_unpack _). vm_compute. exact I.
  - apply (bool_decide_unpack _). vm_compute. exact I.
Defined.
