(* ===== verification/RulesSplit.v ===== *)
(** * Rule conditions: splitting into lines and alternatives

    Models [indexAnd], [countAnd], [splitAnd] and [splitPipe] of
    internal/route/rules/on.go: a condition is a conjunction of segments
    separated by '&' or newlines, each a disjunction of alternatives separated
    by '|' outside quotes and brackets. *)

From S2P Require Import Prelude GoStrings.

(** ** Definitions *)

(** [asciiSpace] and [andSeps], the two 256-entry tables. *)
Definition asciiSpace (c : ascii) : bool :=
  within 9 13 (byteZ c) || (byteZ c =? 32).

Definition andSeps (c : ascii) : bool := (byteZ c =? 38) || (byteZ c =? 10).

(** [for i := range s { if andSeps[s[i]] != 0 { return i } }]: [i] runs over
    the offsets where runes start. *)
Fixpoint index_and_from (i : nat) (rs : list (Z * bytes)) : option nat :=
  match rs with
  | [] => None
  | (_, bs) :: rs' =>
      match bs with
      | b :: _ => if andSeps b then Some i else index_and_from (i + length bs) rs'
      | [] => index_and_from i rs'
      end
  end.

Definition indexAnd (s : bytes) : option nat := index_and_from 0 (runes s).

Definition starts_and (rb : Z * bytes) : bool :=
  match rb.2 with b :: _ => andSeps b | [] => false end.

Definition countAnd (s : bytes) : nat := length (List.filter starts_and (runes s)).

Definition space_at (s : bytes) (i : nat) : bool :=
  match s !! i with Some c => asciiSpace c | None => false end.

(** [for beg < end && asciiSpace[s[beg]] != 0 { beg++ }]; [fuel] bounds
    [end - beg]. *)
Fixpoint skip_leading (fuel : nat) (s : bytes) (beg end_ : nat) : nat :=
  match fuel with
  | O => beg
  | S fuel' =>
      if (beg <? end_)%nat && space_at s beg
      then skip_leading fuel' s (S beg) end_ else beg
  end.

(** [for end-1 > beg && asciiSpace[s[end-1]] != 0 { end-- }]. *)
Fixpoint skip_trailing (s : bytes) (beg end_ : nat) : nat :=
  match end_ with
  | S e => if (beg <? e)%nat && space_at s e then skip_trailing s beg e else end_
  | O => O
  end.

(** The loop [for i < n]: [a] holds the segments stored so far ([i] of them);
    every iteration consumes at least one byte, so [S (length s)] is enough
    fuel. *)
Fixpoint split_and_loop (fuel n : nat) (a : list bytes) (s : bytes)
    : list bytes * bytes :=
  match fuel with
  | O => (a, s)
  | S fuel' =>
      if (length a <? n)%nat then
        match indexAnd s with
        | None => (a, s)
        | Some end_ =>
            let beg := skip_leading end_ s 0 end_ in
            let next := S end_ in
            let end_ := skip_trailing s beg end_ in
            let a := if (beg <? end_)%nat then a ++ [take (end_ - beg) (drop beg s)] else a in
            split_and_loop fuel' n a (drop next s)
        end
      else (a, s)
  end.

Definition splitAnd (s : bytes) : list bytes :=
  match s with
  | [] => []
  | _ =>
      let '(a, rest) := split_and_loop (S (length s)) (countAnd s) [] s in
      match TrimSpace rest with
      | [] => a
      | t => a ++ [t]
      end
  end.

(** The local variables of [splitPipe]. *)
Record pipe_state := PipeState {
  ps_result : list bytes;
  ps_current : bytes;
  ps_escaped : bool;
  ps_quote : Z;
  ps_brackets : Z
}.

Definition is_quote (r : Z) : bool := (r =? 34) || (r =? 39) || (r =? 96).

Definition pipe_step (st : pipe_state) (r : Z) : pipe_state :=
  let '(PipeState res cur esc q br) := st in
  let w := cur ++ WriteRune r in
  if esc then PipeState res w false q br
  else if r =? 92 then PipeState res w true q br
  else if is_quote r then
    let q' := if (q =? 0) && (br =? 0) then r else if r =? q then 0 else q in
    PipeState res w false q' br
  else if r =? 40 then PipeState res w false q (br + 1)
  else if r =? 41 then PipeState res w false q (if 0 <? br then br - 1 else br)
  else if r =? 124 then
    if (q =? 0) && (br =? 0) then PipeState (res ++ [TrimSpace cur]) [] false q br
    else PipeState res w false q br
  else PipeState res w false q br.

Definition splitPipe (s : bytes) : list bytes :=
  let st := fold_left pipe_step (map fst (runes s)) (PipeState [] [] false 0 0) in
  match ps_current st with
  | [] => ps_result st
  | cur => ps_result st ++ [TrimSpace cur]
  end.

Example splitAnd_ex :
  splitAnd "  method GET & path /a
   & & host b  " = [B "method GET"; B "path /a"; B "host b"].
Proof. vm_compute. reflexivity. Qed.

Example splitPipe_ex :
  splitPipe "method GET | path glob(a|b) | header X 'p|q' |"
  = [B "method GET"; B "path glob(a|b)"; B "header X 'p|q'"].
Proof. vm_compute. reflexivity. Qed.

(** ** Reference definitions *)

(** Split at every byte that satisfies [p]; always at least one segment. *)
Fixpoint split_by (p : ascii -> bool) (s : bytes) : bytes * list bytes :=
  match s with
  | [] => ([], [])
  | b :: s' =>
      let '(seg, segs) := split_by p s' in
      if p b then ([], seg :: segs) else (b :: seg, segs)
  end.

(** What [splitAnd] computes: the segments between separators, trimmed (the
    last one of all Unicode white space, the others of ASCII white space),
    without the empty ones. *)
Fixpoint trim_segments (seg : bytes) (segs : list bytes) : list bytes :=
  match segs with
  | [] => [TrimSpace seg]
  | seg' :: segs' => trim asciiSpace seg :: trim_segments seg' segs'
  end.

Definition nonempty (s : bytes) : Prop := s <> [].

#[export] Instance nonempty_dec s : Decision (nonempty s).
Proof. unfold nonempty. apply _. Defined.

Definition splitAnd_ref (s : bytes) : list bytes :=
  let '(seg, segs) := split_by andSeps s in
  filter nonempty (trim_segments seg segs).

(** ** Lemmas: [splitAnd] *)

Lemma drop_while_suffix {A} (p : A -> bool) l :
  drop (length l - length (drop_while p l)) l = drop_while p l
  /\ (length (drop_while p l) <= length l)%nat.
Proof.
  induction l as [|x l [IH Hle]]; [done|]. simpl. destruct (p x).
  - split; [|lia]. by rewrite Nat.sub_succ_l by done.
  - split; [|done]. simpl. by rewrite Nat.sub_diag.
Qed.

Lemma drop_while_head {A} (p : A -> bool) l x l' :
  drop_while p l = x :: l' -> p x = false.
Proof. induction l; simpl; [done|]. case_match; [done|]. by intros [= -> ->]. Qed.

Lemma drop_while_end_snoc {A} (p : A -> bool) l x :
  drop_while_end p (l ++ [x]) = if p x then drop_while_end p l else l ++ [x].
Proof.
  unfold drop_while_end. rewrite rev_unit. simpl. case_match; [done|].
  simpl. by rewrite rev_involutive.
Qed.

Lemma drop_while_end_prefix {A} (p : A -> bool) l :
  exists l', l = drop_while_end p l ++ l'.
Proof.
  induction l as [|x l [l' IH]] using rev_ind; [by exists []|].
  rewrite drop_while_end_snoc. destruct (p x).
  - exists (l' ++ [x]). by rewrite app_assoc, <- IH.
  - exists []. by rewrite app_nil_r.
Qed.

Lemma drop_while_end_nonempty {A} (p : A -> bool) c l :
  p c = false -> drop_while_end p (c :: l) <> [].
Proof.
  intros Hc. induction l as [|x l IH] using rev_ind.
  - unfold drop_while_end. simpl. by rewrite Hc.
  - change (c :: l ++ [x]) with ((c :: l) ++ [x]). rewrite drop_while_end_snoc.
    by destruct (p x).
Qed.

Lemma space_at_mid pre c rest : space_at (pre ++ c :: rest) (length pre) = asciiSpace c.
Proof. unfold space_at. by rewrite list_lookup_middle. Qed.

Lemma skip_leading_spec seg : forall fuel pre rest,
  (length seg <= fuel)%nat ->
  skip_leading fuel (pre ++ seg ++ rest) (length pre) (length pre + length seg)
  = (length pre + (length seg - length (drop_while asciiSpace seg)))%nat.
Proof.
  induction seg as [|c seg IH]; intros fuel pre rest Hf; simpl.
  - destruct fuel; simpl; [lia|]. rewrite (proj2 (Nat.ltb_ge _ _)) by lia. simpl. lia.
  - destruct fuel as [|fuel]; simpl in *; [lia|].
    rewrite (proj2 (Nat.ltb_lt _ _)) by lia. simpl. rewrite space_at_mid.
    destruct (asciiSpace c) eqn:E; [|simpl; lia].
    specialize (IH fuel (pre ++ [c]) rest ltac:(lia)).
    rewrite <- app_assoc, length_app, Nat.add_1_r in IH. cbn [app] in IH.
    replace (length pre + S (length seg))%nat with (S (length pre) + length seg)%nat by lia.
    rewrite IH. pose proof (drop_while_suffix asciiSpace seg). lia.
Qed.

Lemma skip_trailing_spec pre c seg rest :
  asciiSpace c = false ->
  skip_trailing (pre ++ (c :: seg) ++ rest) (length pre) (length pre + length (c :: seg))
  = (length pre + length (drop_while_end asciiSpace (c :: seg)))%nat.
Proof.
  intros Hc. revert rest. induction seg as [|x seg IH] using rev_ind; intros rest.
  - unfold drop_while_end. simpl. rewrite Hc. simpl.
    rewrite Nat.add_1_r. simpl. by rewrite Nat.ltb_irrefl.
  - change (c :: seg ++ [x]) with ((c :: seg) ++ [x]).
    rewrite drop_while_end_snoc, <- app_assoc, length_app.
    change (length [x]) with 1%nat.
    rewrite Nat.add_assoc, (Nat.add_1_r (length pre + _)). cbn [skip_trailing].
    rewrite (proj2 (Nat.ltb_lt _ _)) by (simpl; lia). cbn [andb].
    replace (space_at _ _) with (asciiSpace x).
    2:{ rewrite app_assoc, <- length_app. cbn [app]. by rewrite space_at_mid. }
    destruct (asciiSpace x); [apply IH|]. rewrite length_app. simpl. lia.
Qed.

(** One iteration of [splitAnd]: the offsets delimit the trimmed segment. *)
Lemma trim_slice seg rest :
  let beg := skip_leading (length seg) (seg ++ rest) 0 (length seg) in
  let end_ := skip_trailing (seg ++ rest) beg (length seg) in
  if (beg <? end_)%nat
  then take (end_ - beg) (drop beg (seg ++ rest)) = trim asciiSpace seg
       /\ trim asciiSpace seg <> []
  else trim asciiSpace seg = [].
Proof.
  pose proof (skip_leading_spec seg (length seg) [] rest ltac:(done)) as Hl.
  simpl in Hl. rewrite Hl. clear Hl. cbv zeta.
  destruct (drop_while_suffix asciiSpace seg) as [Hd Hle].
  set (k := (length seg - length (drop_while asciiSpace seg))%nat) in *.
  pose proof (take_drop k seg) as Hsplit. rewrite Hd in Hsplit.
  assert (Hk : length (take k seg) = k) by (rewrite length_take; unfold k; lia).
  unfold trim. destruct (drop_while asciiSpace seg) as [|c l] eqn:E.
  - replace (length seg) with k by (unfold k; simpl; lia).
    destruct k as [|k']; simpl; [done|].
    rewrite (proj2 (Nat.ltb_ge (S k') k')) by lia. simpl.
    by rewrite (proj2 (Nat.ltb_ge _ _)) by lia.
  - pose proof (drop_while_head _ _ _ _ E) as Hc.
    pose proof (skip_trailing_spec (take k seg) c l rest Hc) as Ht.
    rewrite app_assoc, <- length_app, Hsplit, Hk in Ht. rewrite Ht.
    destruct (drop_while_end_prefix asciiSpace (c :: l)) as [l' Hl'].
    assert (Hne : drop_while_end asciiSpace (c :: l) <> []).
    { by apply drop_while_end_nonempty. }
    rewrite (proj2 (Nat.ltb_lt _ _)).
    2:{ destruct (drop_while_end asciiSpace (c :: l)); [done|simpl; lia]. }
    split; [|done].
    rewrite drop_app_le by (rewrite <- Hsplit, length_app; lia). rewrite Hd.
    replace (k + length (drop_while_end asciiSpace (c :: l)) - k)%nat
      with (length (drop_while_end asciiSpace (c :: l))) by lia.
    rewrite Hl' at 2. by rewrite <- app_assoc, take_app_length.
Qed.

Lemma split_by_app_none p bs s :
  Forall (fun c => p c = false) bs ->
  split_by p (bs ++ s) = (bs ++ (split_by p s).1, (split_by p s).2).
Proof.
  induction 1 as [|c bs Hc _ IH]; simpl; [by destruct (split_by p s)|].
  by rewrite IH, Hc.
Qed.

Lemma split_by_cons p s seg seg' segs :
  split_by p s = (seg, seg' :: segs) ->
  exists c s', s = seg ++ c :: s' /\ split_by p s' = (seg', segs).
Proof.
  revert seg. induction s as [|b s IH]; intros seg; simpl; [done|].
  destruct (split_by p s) as [sg sgs] eqn:E. destruct (p b); intros [= <- H].
  - simplify_eq. by exists b, s.
  - subst. destruct (IH sg eq_refl) as (c & s' & -> & ?). by exists c, s'.
Qed.

Lemma split_by_last p s seg : split_by p s = (seg, []) -> s = seg.
Proof.
  revert seg. induction s as [|b s IH]; intros seg; simpl; [by intros [=]|].
  destruct (split_by p s) as [sg sgs] eqn:E. destruct (p b); intros [= <- ->].
  f_equal. by apply IH.
Qed.

Lemma andSeps_high bs :
  Forall (fun c => 0x80 <= byteZ c) bs -> Forall (fun c => andSeps c = false) bs.
Proof.
  intros H. eapply Forall_impl; [exact H|]. intros c Hc. simpl in Hc. unfold andSeps.
  by rewrite !(proj2 (Z.eqb_neq _ _)) by lia.
Qed.

(** Ranging over runes and testing the first byte of each finds the same
    separators as a search byte by byte: they are ASCII. *)
Lemma index_and_from_spec s : forall i,
  index_and_from i (runes s)
  = match (split_by andSeps s).2 with
    | [] => None
    | _ => Some (i + length (split_by andSeps s).1)%nat
    end.
Proof.
  pattern s, (runes s). apply runes_ind; [done|].
  intros r bs s' Hne _ Hc _ IH i. destruct Hc as [(b & -> & _ & _) | [_ Hhi]].
  - simpl. rewrite IH. destruct (split_by andSeps s') as [sg sgs].
    destruct (andSeps b); simpl; [by rewrite Nat.add_0_r|].
    destruct sgs; [done|]. f_equal. lia.
  - apply andSeps_high in Hhi. rewrite split_by_app_none by done.
    destruct bs as [|b bs]; [done|]. cbn [index_and_from].
    rewrite Forall_cons in Hhi. destruct Hhi as [-> _]. rewrite IH. cbn [fst snd].
    destruct (split_by andSeps s').2; [done|]. rewrite length_app. f_equal. lia.
Qed.

Lemma countAnd_spec s : countAnd s = length (split_by andSeps s).2.
Proof.
  unfold countAnd. pattern s, (runes s). apply runes_ind; [done|].
  intros r bs s' Hne _ Hc _ IH. destruct Hc as [(b & -> & _ & _) | [_ Hhi]].
  - simpl. unfold starts_and at 1. simpl. destruct (split_by andSeps s') as [sg sgs].
    destruct (andSeps b); simpl in *; lia.
  - apply andSeps_high in Hhi. rewrite split_by_app_none by done. simpl.
    destruct bs as [|b bs]; [done|]. rewrite Forall_cons in Hhi.
    unfold starts_and at 1. simpl. by rewrite (proj1 Hhi).
Qed.

Definition splitAnd_finish (ar : list bytes * bytes) : list bytes :=
  match TrimSpace ar.2 with [] => ar.1 | t => ar.1 ++ [t] end.

Lemma split_and_loop_spec segs : forall fuel n a s seg,
  split_by andSeps s = (seg, segs) ->
  (length s < fuel)%nat -> (length a + length segs <= n)%nat ->
  splitAnd_finish (split_and_loop fuel n a s)
  = a ++ filter nonempty (trim_segments seg segs).
Proof.
  induction segs as [|seg' segs IH]; intros fuel n a s seg Hs Hf Hn;
    (destruct fuel as [|fuel]; [lia|]); cbn [split_and_loop];
    unfold indexAnd; rewrite index_and_from_spec, Hs; cbn [fst snd length] in *.
  - assert (splitAnd_finish (a, s) = a ++ filter nonempty (trim_segments seg [])) as Hfin.
    { rewrite (split_by_last _ _ _ Hs). unfold splitAnd_finish. cbn [fst snd trim_segments].
      destruct (TrimSpace seg) as [|c l]; rewrite filter_cons.
      - by rewrite app_nil_r.
      - by rewrite decide_True by done. }
    by destruct (_ <? _)%nat.
  - rewrite (proj2 (Nat.ltb_lt _ _)) by lia.
    destruct (split_by_cons _ _ _ _ _ Hs) as (c & s' & -> & Hs').
    rewrite Nat.add_0_l. pose proof (trim_slice seg (c :: s')) as Ht. cbv zeta in Ht.
    replace (drop (S (length seg)) (seg ++ c :: s')) with s'.
    2:{ rewrite (cons_middle c), app_assoc.
        by rewrite drop_app_exact by (rewrite length_app; simpl; lia). }
    rewrite length_app in Hf. simpl in Hf. cbn [trim_segments]. rewrite filter_cons.
    destruct (_ <? _)%nat.
    + destruct Ht as [-> Hne]. rewrite decide_True by done.
      rewrite (IH _ _ _ _ _ Hs') by (rewrite ?length_app; simpl; lia).
      by rewrite <- app_assoc.
    + rewrite decide_False by (rewrite Ht; by intros []).
      by apply IH; [|lia..].
Qed.

Lemma splitAnd_eq s : splitAnd s = splitAnd_ref s.
Proof.
  unfold splitAnd, splitAnd_ref. destruct s as [|b s0]; [done|].
  set (s := b :: s0). destruct (split_by andSeps s) as [seg segs] eqn:Hs.
  pose proof (split_and_loop_spec segs (S (length s)) (countAnd s) [] s seg Hs) as H.
  rewrite <- (app_nil_l (filter _ _)), <- H; [|lia|rewrite countAnd_spec, Hs; simpl; lia].
  by destruct (split_and_loop _ _ _ _).
Qed.

(** C12: c12: [splitAnd] is the plain specification "cut at every '&' and newline,
    trim, drop what is empty": the counting pass, the preallocated slice and
    the offset arithmetic never lose, duplicate or misplace a segment. *)
Theorem splitAnd_correct s : splitAnd s = splitAnd_ref s.
Proof. apply splitAnd_eq. Qed.

(** ** Lemmas: [splitPipe] *)

(** What one rune does to the quoting state of [splitPipe]; [None] when it is
    a '|' that separates two alternatives. *)
Definition scan_step (st : bool * Z * Z) (r : Z) : option (bool * Z * Z) :=
  let '(esc, q, br) := st in
  if esc then Some (false, q, br)
  else if r =? 92 then Some (true, q, br)
  else if is_quote r then
    Some (false, if (q =? 0) && (br =? 0) then r else if r =? q then 0 else q, br)
  else if r =? 40 then Some (false, q, br + 1)
  else if r =? 41 then Some (false, q, if 0 <? br then br - 1 else br)
  else if (r =? 124) && ((q =? 0) && (br =? 0)) then None
  else Some (false, q, br).

Definition scan_init : bool * Z * Z := (false, 0, 0).

(** The quoting state after a sequence of runes without a separator. *)
Fixpoint scan (st : bool * Z * Z) (rs : list Z) : option (bool * Z * Z) :=
  match rs with
  | [] => Some st
  | r :: rs' => match scan_step st r with Some st' => scan st' rs' | None => None end
  end.

Lemma pipe_step_scan res cur esc q br r :
  pipe_step (PipeState res cur esc q br) r
  = match scan_step (esc, q, br) r with
    | Some (esc', q', br') => PipeState res (cur ++ WriteRune r) esc' q' br'
    | None => PipeState (res ++ [TrimSpace cur]) [] false 0 0
    end.
Proof.
  unfold pipe_step, scan_step. repeat case_match; simplify_eq/=; reflect; subst; try done;
    repeat match goal with H : (_ =? _) && _ = _ |- _ => revert H end;
    try lia; rewrite ?andb_true_iff, ?andb_false_iff, ?Z.eqb_eq, ?Z.eqb_neq; try lia;
    intuition (subst; try congruence; try lia).
Qed.

Lemma scan_app st rs1 rs2 :
  scan st (rs1 ++ rs2) = match scan st rs1 with Some st' => scan st' rs2 | None => None end.
Proof. revert st. induction rs1; intros st; simpl; [done|]. case_match; auto. Qed.

Lemma fold_pipe_scan rs : forall res cur esc q br esc' q' br',
  scan (esc, q, br) rs = Some (esc', q', br') ->
  fold_left pipe_step rs (PipeState res cur esc q br)
  = PipeState res (cur ++ write_runes rs) esc' q' br'.
Proof.
  induction rs as [|r rs IH]; intros res cur esc q br esc' q' br' Hs; cbn [scan fold_left] in *.
  - simplify_eq. by rewrite app_nil_r.
  - rewrite pipe_step_scan. destruct (scan_step _ r) as [[[e1 q1] b1]|]; [|done].
    rewrite (IH _ _ _ _ _ _ _ _ Hs). by rewrite <- app_assoc.
Qed.

Lemma drop_while_map {A C} (f : A -> C) p l :
  drop_while p (map f l) = map f (drop_while (fun x => p (f x)) l).
Proof. induction l; simpl; [done|]. by case_match. Qed.

Lemma trim_map {A C} (f : A -> C) p l : trim p (map f l) = map f (trim (fun x => p (f x)) l).
Proof.
  unfold trim, drop_while_end. by rewrite drop_while_map, <- map_rev, drop_while_map, map_rev.
Qed.

Lemma runes_of_write rs :
  Forall (fun r => valid_rune r = true) rs -> map fst (runes (write_runes rs)) = rs.
Proof.
  intros H. rewrite <- (app_nil_r (write_runes rs)), runes_write_runes by done.
  rewrite app_nil_r, map_map. apply map_id.
Qed.

Lemma TrimSpace_write rs :
  Forall (fun r => valid_rune r = true) rs ->
  TrimSpace (write_runes rs) = write_runes (trim IsSpace rs).
Proof.
  intros H. unfold TrimSpace. rewrite <- (app_nil_r (write_runes rs)), runes_write_runes by done.
  rewrite app_nil_r, trim_map, map_map. done.
Qed.

Lemma trim_infix {A} (p : A -> bool) l : exists l1 l2, l = l1 ++ trim p l ++ l2 /\ Forall (fun x => p x = true) l1.
Proof.
  unfold trim. destruct (drop_while_end_prefix p (drop_while p l)) as [l2 H2].
  assert (exists l1, l = l1 ++ drop_while p l /\ Forall (fun x => p x = true) l1) as (l1 & H1 & Hl1).
  { clear H2. induction l as [|x l (l1 & IH & Hl)]; [by exists []|]. simpl.
    destruct (p x) eqn:E; [|by exists []]. exists (x :: l1). rewrite IH at 1. by split; [|constructor]. }
  exists l1, l2. by rewrite <- H2.
Qed.

Lemma scan_step_space r : IsSpace r = true -> scan_step scan_init r = Some scan_init.
Proof.
  intros H. unfold scan_step, scan_init, is_quote.
  assert (Hr : r <> 92 /\ r <> 34 /\ r <> 39 /\ r <> 96 /\ r <> 40 /\ r <> 41 /\ r <> 124 /\ r <> 0).
  { repeat split; intros ->; discriminate. }
  by rewrite !(proj2 (Z.eqb_neq r _)) by lia.
Qed.

Lemma scan_spaces rs : Forall (fun r => IsSpace r = true) rs -> scan scan_init rs = Some scan_init.
Proof. induction 1; cbn [scan]; [done|]. by rewrite scan_step_space. Qed.

Lemma scan_trim rs : is_Some (scan scan_init rs) -> is_Some (scan scan_init (trim IsSpace rs)).
Proof.
  destruct (trim_infix IsSpace rs) as (l1 & l2 & Hl & Hsp).
  rewrite Hl at 1. rewrite scan_app, scan_spaces by done.
  rewrite scan_app. destruct (scan scan_init (trim IsSpace rs)); [done|]. by intros [? ?].
Qed.

(** A string without a separator outside quotes and brackets. *)
Definition alternative (p : bytes) : Prop :=
  exists rs, Forall (fun r => valid_rune r = true) rs /\ p = write_runes rs
             /\ is_Some (scan scan_init rs).

Lemma alternative_trim rs :
  Forall (fun r => valid_rune r = true) rs -> is_Some (scan scan_init rs) ->
  alternative (TrimSpace (write_runes rs)).
Proof.
  intros Hv Hs. exists (trim IsSpace rs). rewrite TrimSpace_write by done.
  split; [|split; [done|by apply scan_trim]].
  destruct (trim_infix IsSpace rs) as (l1 & l2 & Hl & _). rewrite Hl in Hv.
  rewrite !Forall_app in Hv. tauto.
Qed.

Lemma alternative_unsplit p : alternative p -> (length (splitPipe p) <= 1)%nat.
Proof.
  intros (rs & Hv & -> & [[[e q] b] Hs]). unfold splitPipe.
  rewrite runes_of_write by done. unfold scan_init in Hs.
  rewrite (fold_pipe_scan _ _ _ _ _ _ _ _ _ Hs). simpl. case_match; simpl; lia.
Qed.

Definition pipe_inv (st : pipe_state) : Prop :=
  Forall alternative (ps_result st) /\
  exists rs, Forall (fun r => valid_rune r = true) rs /\ ps_current st = write_runes rs
             /\ scan scan_init rs = Some (ps_escaped st, ps_quote st, ps_brackets st).

Lemma pipe_step_inv st r : valid_rune r = true -> pipe_inv st -> pipe_inv (pipe_step st r).
Proof.
  destruct st as [res cur esc q br]. intros Hr [Hres (rs & Hv & Hcur & Hs)].
  cbn [ps_result ps_current ps_escaped ps_quote ps_brackets] in *.
  rewrite pipe_step_scan. destruct (scan_step (esc, q, br) r) as [[[e1 q1] b1]|] eqn:E.
  - split; [done|]. exists (rs ++ [r]). split; [|split].
    + apply Forall_app. by split; [|constructor].
    + rewrite write_runes_app. cbn [ps_current]. rewrite Hcur. f_equal. unfold write_runes. simpl. by rewrite app_nil_r.
    + rewrite scan_app, Hs. cbn [scan]. by rewrite E.
  - split; [|by exists []]. simpl. apply Forall_app. split; [done|]. constructor; [|done].
    rewrite Hcur. apply alternative_trim; [done|]. rewrite Hs. eauto.
Qed.

Lemma splitPipe_alternatives s : Forall alternative (splitPipe s).
Proof.
  assert (Hinv : forall rs st, Forall (fun r => valid_rune r = true) rs ->
    pipe_inv st -> pipe_inv (fold_left pipe_step rs st)).
  { induction rs as [|r rs IH]; intros st Hv Hst; [done|]. simpl. invert Hv.
    apply IH; [done|]. by apply pipe_step_inv. }
  unfold splitPipe.
  destruct (Hinv (map fst (runes s)) (PipeState [] [] false 0 0)) as [Hres (rs & Hv & Hcur & Hs)].
  { rewrite Forall_map. apply runes_valid. }
  { split; [done|]. by exists []. }
  destruct (ps_current _) as [|c cur] eqn:E; [done|].
  apply Forall_app. split; [done|]. constructor; [|done].
  rewrite Hcur. apply alternative_trim; [done|]. rewrite Hs. eauto.
Qed.

(** an alternative returned by [splitPipe] is never split again.  So the
    recursive call of [parseOn] on it returns a plain [CheckFunc], and the
    assertion [curCheckers.(CheckFunc)] cannot fail. *)
Theorem splitPipe_unsplittable s :
  Forall (fun p => (length (splitPipe p) <= 1)%nat) (splitPipe s).
Proof.
  eapply Forall_impl; [apply splitPipe_alternatives|]. apply alternative_unsplit.
Qed.

(** The alternatives joined by " | ". *)
Fixpoint join_pipe (ps : list bytes) : bytes :=
  match ps with
  | [] => []
  | [p] => p
  | p :: ps' => p ++ " | " ++ join_pipe ps'
  end.

(** An alternative as a rule author writes it: trimmed, with balanced quotes
    and brackets. *)
Definition closed_alternative (p : bytes) : Prop :=
  exists rs, Forall (fun r => valid_rune r = true) rs /\ p = write_runes rs
             /\ scan scan_init rs = Some scan_init /\ trim IsSpace rs = rs.

Lemma trim_head {A} (p : A -> bool) a l : trim p (a :: l) = a :: l -> p a = false.
Proof.
  unfold trim. cbn [drop_while]. destruct (p a) eqn:E; [|done]. intros Hl.
  apply (f_equal length) in Hl.
  destruct (drop_while_end_prefix p (drop_while p l)) as [l' Hp].
  apply (f_equal length) in Hp. rewrite length_app in Hp.
  pose proof (proj2 (drop_while_suffix p l)). simpl in Hl. lia.
Qed.

Lemma drop_while_app_all {A} (p : A -> bool) l1 l2 :
  Forall (fun x => p x = true) l1 -> drop_while p (l1 ++ l2) = drop_while p l2.
Proof. induction 1 as [|x l1 Hx _ IH]; simpl; [done|]. by rewrite Hx. Qed.

Lemma drop_while_end_app_all {A} (p : A -> bool) l1 l2 :
  Forall (fun x => p x = true) l2 -> drop_while_end p (l1 ++ l2) = drop_while_end p l1.
Proof.
  intros H. unfold drop_while_end. rewrite rev_app_distr, drop_while_app_all; [done|].
  by apply Forall_rev.
Qed.

Lemma trim_around {A} (p : A -> bool) l1 l l2 :
  Forall (fun x => p x = true) l1 -> Forall (fun x => p x = true) l2 ->
  trim p l = l -> trim p (l1 ++ l ++ l2) = l.
Proof.
  intros H1 H2 Hl. unfold trim. rewrite drop_while_app_all by done.
  destruct l as [|a l].
  - rewrite app_nil_l, <- (app_nil_r l2), drop_while_app_all by done. done.
  - pose proof (trim_head _ _ _ Hl) as Ha. revert Hl. unfold trim.
    cbn [app drop_while]. rewrite Ha. rewrite app_comm_cons.
    by rewrite drop_while_end_app_all.
Qed.

Definition pipe_finish (st : pipe_state) : list bytes :=
  match ps_current st with
  | [] => ps_result st
  | cur => ps_result st ++ [TrimSpace cur]
  end.

Lemma write_runes_nil rs : write_runes rs = [] -> rs = [].
Proof.
  destruct rs as [|r rs]; [done|]. unfold write_runes. simpl. unfold WriteRune.
  by repeat case_match.
Qed.

Lemma pipe_separator res cur :
  fold_left pipe_step [32; 124; 32] (PipeState res cur false 0 0)
  = PipeState (res ++ [TrimSpace (cur ++ WriteRune 32)]) (write_runes [32]) false 0 0.
Proof. reflexivity. Qed.

Lemma fold_join_pipe ps : forall res pre,
  ps <> [] -> Forall (fun p => closed_alternative p /\ p <> []) ps ->
  pre = [] \/ pre = [32] ->
  pipe_finish (fold_left pipe_step (map fst (runes (join_pipe ps)))
    (PipeState res (write_runes pre) false 0 0)) = res ++ ps.
Proof.
  induction ps as [|p ps IH]; intros res pre Hne Hps Hpre; [done|]. clear Hne.
  inversion Hps as [|? ? [(rs & Hv & -> & Hs & Ht) Hp] Hps']; subst.
  assert (Hsp : Forall (fun r => IsSpace r = true) pre)
    by (destruct Hpre as [-> | ->]; by repeat constructor).
  assert (Hpv : Forall (fun r => valid_rune r = true) pre)
    by (destruct Hpre as [-> | ->]; by repeat constructor).
  destruct ps as [|p2 ps].
  - cbn [join_pipe]. rewrite runes_of_write by done.
    rewrite (fold_pipe_scan _ _ _ _ _ _ _ _ _ Hs), <- write_runes_app.
    unfold pipe_finish. cbn [ps_current ps_result].
    assert (Hw : TrimSpace (write_runes (pre ++ rs)) = write_runes rs).
    { rewrite TrimSpace_write by (by apply Forall_app). f_equal.
      rewrite <- (app_nil_r rs) at 1. by apply trim_around. }
    destruct (write_runes (pre ++ rs)) eqn:E; [|by rewrite Hw].
    apply write_runes_nil, app_eq_nil in E as [_ ->]. done.
  - change (join_pipe (write_runes rs :: p2 :: ps))
      with (write_runes rs ++ write_runes [32; 124; 32] ++ join_pipe (p2 :: ps)).
    rewrite !runes_write_runes by (done || by repeat constructor).
    rewrite !map_app, !fold_left_app, !map_map. cbn [fst]. rewrite !map_id.
    rewrite (fold_pipe_scan _ _ _ _ _ _ _ _ _ Hs), <- write_runes_app.
    rewrite pipe_separator.
    assert (Hw : TrimSpace (write_runes (pre ++ rs) ++ WriteRune 32) = write_runes rs).
    { replace (write_runes (pre ++ rs) ++ WriteRune 32)
        with (write_runes (pre ++ rs ++ [32]))
        by (by rewrite app_assoc, write_runes_app).
      rewrite TrimSpace_write by (rewrite !Forall_app; by repeat constructor). f_equal.
      apply trim_around; [done|by repeat constructor|done]. }
    rewrite Hw. rewrite (IH _ [32]) by (done || by right).
    by rewrite <- app_assoc.
Qed.

(** alternatives joined with " | " are recovered by [splitPipe], whatever
    '|' they hold inside quotes, brackets or escapes. *)
Theorem splitPipe_join ps :
  Forall (fun p => closed_alternative p /\ p <> []) ps ->
  splitPipe (join_pipe ps) = ps.
Proof.
  intros H. destruct ps as [|p ps]; [done|].
  by apply (fold_join_pipe (p :: ps) [] []); [| |left].
Qed.

Lemma splitPipe_join_witness :
  splitPipe (join_pipe [B "path glob(/a|/b)"; B "header X 'p|q'"])
  = [B "path glob(/a|/b)"; B "header X 'p|q'"].
Proof.
  apply splitPipe_join. repeat constructor; try done.
  - exists (map byteZ (B "path glob(/a|/b)")).
    split; [by repeat constructor|]. split; [reflexivity|]. split; reflexivity.
  - exists (map byteZ (B "header X 'p|q'")).
    split; [by repeat constructor|]. split; [reflexivity|]. split; reflexivity.
Defined.
