(* ===== verification/RulesHTTP.v ===== *)
(** * Rules: requests, response modifier and the per-request cache

    Models internal/route/rules/cache.go, crypto.go and response_modifier.go,
    and the accessors of internal/route/routes/context.go, over an explicit
    [world]: the request, the [ResponseModifier] wrapping the client's
    [http.ResponseWriter], and that writer.

    Parsers of net/http and net/url are the fields of the class [HTTPLib];
    no theorem restricts them beyond the documented laws it names. *)

From S2P Require Import Prelude GoStrings NetAddr.

(** ** Data *)

(** [http.Header] and [url.Values]. *)
Abbreviation Values := (gmap bytes (list bytes)).

Record URL := {
  u_Scheme : bytes;
  u_Host : bytes;
  u_Path : bytes;
  u_RawPath : bytes;
  u_RawQuery : bytes;
  u_Fragment : bytes
}.

Record Cookie := { ck_Name : bytes; ck_Value : bytes }.

(** What [ParseForm] and [ParseMultipartForm] fill in. *)
Record forms := {
  f_Form : option Values;
  f_PostForm : option Values;
  f_Multipart : bool
}.

(** The upstream route put into the request's context by the entrypoint. *)
Record upstream := { up_Name : bytes; up_URL : option URL }.

Record Request := {
  r_Method : bytes;
  r_URL : URL;
  r_Host : bytes;
  r_Header : Values;
  r_RemoteAddr : bytes;
  r_RequestURI : bytes;
  r_ContentLength : Z;
  r_TLS : bool;
  r_Body : option bytes;
  r_forms : forms;
  r_route : option upstream
}.

Record Credentials := { cr_Username : bytes; cr_Password : bytes }.

(** [Cache]: a map with one key per kind of value.  An entry that holds the
    nil interface is [Some None] for [basic_auth]. *)
Record Cache := {
  c_queries : option Values;
  c_cookies : option (list Cookie);
  c_remote_ip : option (option IP);
  c_basic_auth : option (option Credentials)
}.

Definition NewCache : Cache :=
  {| c_queries := None; c_cookies := None; c_remote_ip := None; c_basic_auth := None |}.

(** The client's side: response headers, and what was sent. *)
Record writer := {
  w_Header : Values;
  w_sent : option Z;           (* the status line, once written *)
  w_body : bytes
}.

(** [ResponseModifier]. *)
Record ResponseModifier := {
  rm_buf : option bytes;
  rm_statusCode : Z;
  rm_shared : option Cache;
  rm_hijacked : bool;
  rm_errs : list bytes          (* names of the rules that failed *)
}.

(** What leaves the process besides the response: lines of the [log] command
    (the level is set for /dev/stdout and /dev/stderr) and notifications. *)
Inductive effect :=
  | FxLog (path : bytes) (level : option Z) (line : bytes)
  | FxNotify (level : Z) (provider title body : bytes).

Record world := World {
  req : Request;
  rm : ResponseModifier;
  out : writer;
  fx : list effect
}.

#[export] Instance Cookie_eq_dec : EqDecision Cookie.
Proof. solve_decision. Defined.
#[export] Instance Credentials_eq_dec : EqDecision Credentials.
Proof. solve_decision. Defined.

(** ** The library interface *)

(** The functions of net/http and net/url that read structured values from a
    request. *)
Class HTTPLib := {
  url_Query : bytes -> Values;                  (* URL.Query on RawQuery *)
  url_Encode : Values -> bytes;                 (* Values.Encode *)
  url_String : URL -> bytes;
  url_EscapedPath : URL -> bytes;
  url_RequestURI : URL -> bytes;
  url_Hostname : URL -> bytes;
  url_Port : URL -> bytes;
  req_Cookies : Values -> list Cookie;          (* Request.Cookies on the header *)
  cookie_String : Cookie -> bytes;              (* what AddCookie appends *)
  req_BasicAuth : Values -> option (bytes * bytes);
  parse_multipart_form : Request -> forms * option bytes;
  parse_form : Request -> forms * option bytes * bool  (* false: ParseForm returned an error *)
}.

(** Parsing a form reads the body of the request: [ParseForm] and
    [ParseMultipartForm] give the values and what is left of the body (for other
    methods and content types than those of forms it is not read). *)
Definition set_forms (fb : forms * option bytes) (r : Request) : Request :=
  {| r_Method := r_Method r; r_URL := r_URL r; r_Host := r_Host r; r_Header := r_Header r;
     r_RemoteAddr := r_RemoteAddr r; r_RequestURI := r_RequestURI r;
     r_ContentLength := r_ContentLength r; r_TLS := r_TLS r; r_Body := fb.2;
     r_forms := fb.1; r_route := r_route r |}.

(** Documented: "After one call to ParseMultipartForm, subsequent calls have
    no effect." *)
Class HTTPLibLaws `{HTTPLib} := {
  parse_multipart_once r :
    parse_multipart_form (set_forms (parse_multipart_form r) r) = parse_multipart_form r
}.

(** ** Updates of the records *)

Definition set_URL (u : URL) (r : Request) : Request :=
  {| r_Method := r_Method r; r_URL := u; r_Host := r_Host r; r_Header := r_Header r;
     r_RemoteAddr := r_RemoteAddr r; r_RequestURI := r_RequestURI r;
     r_ContentLength := r_ContentLength r; r_TLS := r_TLS r; r_Body := r_Body r;
     r_forms := r_forms r; r_route := r_route r |}.

Definition set_RequestURI (s : bytes) (r : Request) : Request :=
  {| r_Method := r_Method r; r_URL := r_URL r; r_Host := r_Host r; r_Header := r_Header r;
     r_RemoteAddr := r_RemoteAddr r; r_RequestURI := s;
     r_ContentLength := r_ContentLength r; r_TLS := r_TLS r; r_Body := r_Body r;
     r_forms := r_forms r; r_route := r_route r |}.

Definition set_Header (h : Values) (r : Request) : Request :=
  {| r_Method := r_Method r; r_URL := r_URL r; r_Host := r_Host r; r_Header := h;
     r_RemoteAddr := r_RemoteAddr r; r_RequestURI := r_RequestURI r;
     r_ContentLength := r_ContentLength r; r_TLS := r_TLS r; r_Body := r_Body r;
     r_forms := r_forms r; r_route := r_route r |}.

Definition set_Body (b : option bytes) (r : Request) : Request :=
  {| r_Method := r_Method r; r_URL := r_URL r; r_Host := r_Host r; r_Header := r_Header r;
     r_RemoteAddr := r_RemoteAddr r; r_RequestURI := r_RequestURI r;
     r_ContentLength := r_ContentLength r; r_TLS := r_TLS r; r_Body := b;
     r_forms := r_forms r; r_route := r_route r |}.

Definition set_Path (p : bytes) (u : URL) : URL :=
  {| u_Scheme := u_Scheme u; u_Host := u_Host u; u_Path := p; u_RawPath := u_RawPath u;
     u_RawQuery := u_RawQuery u; u_Fragment := u_Fragment u |}.

Definition set_RawPath (p : bytes) (u : URL) : URL :=
  {| u_Scheme := u_Scheme u; u_Host := u_Host u; u_Path := u_Path u; u_RawPath := p;
     u_RawQuery := u_RawQuery u; u_Fragment := u_Fragment u |}.

Definition set_RawQuery (q : bytes) (u : URL) : URL :=
  {| u_Scheme := u_Scheme u; u_Host := u_Host u; u_Path := u_Path u; u_RawPath := u_RawPath u;
     u_RawQuery := q; u_Fragment := u_Fragment u |}.

Definition with_req (f : Request -> Request) (w : world) : world := World (f (req w)) (rm w) (out w) (fx w).

Definition with_rm (f : ResponseModifier -> ResponseModifier) (w : world) : world :=
  World (req w) (f (rm w)) (out w) (fx w).

Definition with_out (f : writer -> writer) (w : world) : world := World (req w) (rm w) (f (out w)) (fx w).

Definition add_fx (e : effect) (w : world) : world := World (req w) (rm w) (out w) (fx w ++ [e]).

Definition set_out_Header (h : Values) (o : writer) : writer :=
  {| w_Header := h; w_sent := w_sent o; w_body := w_body o |}.

Definition set_buf (b : option bytes) (m : ResponseModifier) : ResponseModifier :=
  {| rm_buf := b; rm_statusCode := rm_statusCode m; rm_shared := rm_shared m;
     rm_hijacked := rm_hijacked m; rm_errs := rm_errs m |}.

Definition set_statusCode (c : Z) (m : ResponseModifier) : ResponseModifier :=
  {| rm_buf := rm_buf m; rm_statusCode := c; rm_shared := rm_shared m;
     rm_hijacked := rm_hijacked m; rm_errs := rm_errs m |}.

Definition set_shared (c : option Cache) (m : ResponseModifier) : ResponseModifier :=
  {| rm_buf := rm_buf m; rm_statusCode := rm_statusCode m; rm_shared := c;
     rm_hijacked := rm_hijacked m; rm_errs := rm_errs m |}.

Definition add_err (e : bytes) (m : ResponseModifier) : ResponseModifier :=
  {| rm_buf := rm_buf m; rm_statusCode := rm_statusCode m; rm_shared := rm_shared m;
     rm_hijacked := rm_hijacked m; rm_errs := rm_errs m ++ [e] |}.

(** ** Headers *)

(** [Header.Get], [Set] and [Del] on keys in canonical form. *)
Definition hget (h : Values) (k : bytes) : bytes :=
  match h !! k with Some (v :: _) => v | _ => [] end.

Definition hset (h : Values) (k v : bytes) : Values := <[k := [v]]> h.

Definition values_at (h : Values) (k : bytes) : list bytes := default [] (h !! k).

Definition hadd (h : Values) (k v : bytes) : Values := <[k := values_at h k ++ [v]]> h.

(** ** crypto.go *)

(** [HashedCrendentials]: the user name and the comparison with the stored
    bcrypt hash. *)
Record HashedCrendentials := {
  hc_Username : bytes;
  hc_CheckMatch : bytes -> bool
}.

Definition HashedCrendentials_Match (hc : HashedCrendentials) (cred : option Credentials) : bool :=
  match cred with
  | None => false
  | Some c => bool_decide (hc_Username hc = cr_Username c) && hc_CheckMatch hc (cr_Password c)
  end.

(** ** response_modifier.go *)

Definition StatusCode (m : ResponseModifier) : Z :=
  if rm_statusCode m =? 0 then 200 else rm_statusCode m.

Definition Content (m : ResponseModifier) : bytes := default [] (rm_buf m).

Definition ContentLength (m : ResponseModifier) : Z := Z.of_nat (length (Content m)).

(** [ResponseModifier.Write]: appends to the buffer, created on first use. *)
Definition rm_Write (b : bytes) (w : world) : world :=
  with_rm (fun m => set_buf (Some (Content m ++ b)) m) w.

Definition rm_WriteHeader (code : Z) (w : world) : world := with_rm (set_statusCode code) w.

Definition ResetBody (w : world) : world :=
  with_rm (fun m => match rm_buf m with None => m | Some _ => set_buf (Some []) m end) w.

Definition AppendError (name : bytes) (w : world) : world := with_rm (add_err name) w.

(** [NewResponseModifier]: a fresh modifier over the same client writer. *)
Definition NewResponseModifier : ResponseModifier :=
  {| rm_buf := None; rm_statusCode := 0; rm_shared := None; rm_hijacked := false; rm_errs := [] |}.

(** [GetSharedData]. *)
Definition GetSharedData (w : world) : Cache * world :=
  match rm_shared (rm w) with
  | Some c => (c, w)
  | None => (NewCache, with_rm (set_shared (Some NewCache)) w)
  end.

Definition put_shared (c : Cache) (w : world) : world := with_rm (set_shared (Some c)) w.

Section FlushRelease.

(** The client's connection: how many bytes of a write arrive and whether it
    fails, and whether the flush fails. *)
Context (client_Write : bytes -> nat * bool) (client_Flush_fails : bool).

(** [http.ResponseWriter.WriteHeader]: only the first call counts. *)
Definition out_WriteHeader (code : Z) (o : writer) : writer :=
  {| w_Header := w_Header o;
     w_sent := match w_sent o with None => Some code | s => s end;
     w_body := w_body o |}.

Definition flush_headers (m : ResponseModifier) (h : Values) : Values :=
  delete (B "Trailer")
    (delete (B "Transfer-Encoding")
       (hset h "Content-Length" (Itoa (ContentLength m)))).

(** [FlushRelease]: the number of bytes written, the aggregated errors, and
    the state afterwards. *)
Definition FlushRelease (w : world) : nat * list bytes * world :=
  let m := rm w in
  let '(n, errs, o) :=
    if rm_hijacked m then (0%nat, rm_errs m, out w)
    else
      let o := out_WriteHeader (StatusCode m) (set_out_Header (flush_headers m (w_Header (out w))) (out w)) in
      if 0 <? ContentLength m then
        let '(nn, failed) := client_Write (Content m) in
        let o := {| w_Header := w_Header o; w_sent := w_sent o;
                    w_body := w_body o ++ take nn (Content m) |} in
        let errs := rm_errs m ++ (if failed then [B "write error"] else [])
                    ++ (if client_Flush_fails then [B "flush error"] else []) in
        (nn, errs, o)
      else (0%nat, rm_errs m, o) in
  (n, errs, World (req w)
     {| rm_buf := None; rm_statusCode := rm_statusCode m; rm_shared := None;
        rm_hijacked := rm_hijacked m; rm_errs := errs |} o (fx w)).

End FlushRelease.

(** ** cache.go *)

Section Cache.

Context `{HTTPLib}.

Definition GetQueries (w : world) : Values * world :=
  let '(c, w) := GetSharedData w in
  match c_queries c with
  | Some q => (q, w)
  | None =>
      let q := url_Query (u_RawQuery (r_URL (req w))) in
      (q, put_shared {| c_queries := Some q; c_cookies := c_cookies c;
                        c_remote_ip := c_remote_ip c; c_basic_auth := c_basic_auth c |} w)
  end.

(** The callback mutates the cached map in place. *)
Definition UpdateQueries (update : Values -> Values) (w : world) : world :=
  let '(q, w) := GetQueries w in
  let q' := update q in
  let c := default NewCache (rm_shared (rm w)) in
  let w := put_shared {| c_queries := Some q'; c_cookies := c_cookies c;
                         c_remote_ip := c_remote_ip c; c_basic_auth := c_basic_auth c |} w in
  with_req (fun r => set_URL (set_RawQuery (url_Encode q') (r_URL r)) r) w.

Definition GetCookies (w : world) : list Cookie * world :=
  let '(c, w) := GetSharedData w in
  match c_cookies c with
  | Some cs => (cs, w)
  | None =>
      let cs := req_Cookies (r_Header (req w)) in
      (cs, put_shared {| c_queries := c_queries c; c_cookies := Some cs;
                         c_remote_ip := c_remote_ip c; c_basic_auth := c_basic_auth c |} w)
  end.

(** [Request.AddCookie]. *)
Definition AddCookie (h : Values) (c : Cookie) : Values :=
  match hget h "Cookie" with
  | [] => hset h "Cookie" (cookie_String c)
  | old => hset h "Cookie" (old ++ "; " ++ cookie_String c)
  end.

Definition UpdateCookies (update : list Cookie -> list Cookie) (w : world) : world :=
  let '(cs, w) := GetCookies w in
  let cs' := update cs in
  let c := default NewCache (rm_shared (rm w)) in
  let w := put_shared {| c_queries := c_queries c; c_cookies := Some cs';
                         c_remote_ip := c_remote_ip c; c_basic_auth := c_basic_auth c |} w in
  with_req (fun r => set_Header (fold_left AddCookie cs' (delete (B "Cookie") (r_Header r))) r) w.

Definition remote_ip_of (r : Request) : option IP :=
  ParseIP (match SplitHostPort (r_RemoteAddr r) with
           | Some (host, _) => host
           | None => r_RemoteAddr r
           end).

Definition GetRemoteIP (w : world) : option IP * world :=
  let '(c, w) := GetSharedData w in
  match c_remote_ip c with
  | Some ip => (ip, w)
  | None =>
      let ip := remote_ip_of (req w) in
      (ip, put_shared {| c_queries := c_queries c; c_cookies := c_cookies c;
                         c_remote_ip := Some ip; c_basic_auth := c_basic_auth c |} w)
  end.

(** [GetBasicAuth]: a cached nil makes the assertion [v.( *Credentials)]
    panic. *)
Definition GetBasicAuth (w : world) : result unit (option Credentials * world) :=
  let '(c, w) := GetSharedData w in
  let put v := put_shared {| c_queries := c_queries c; c_cookies := c_cookies c;
                             c_remote_ip := c_remote_ip c; c_basic_auth := Some v |} w in
  match c_basic_auth c with
  | Some (Some cr) => Ok (Some cr, w)
  | Some None => Panic NilInterfaceConversion
  | None =>
      match req_BasicAuth (r_Header (req w)) with
      | Some (u, p) =>
          let cr := Some {| cr_Username := u; cr_Password := p |} in
          Ok (cr, put cr)
      | None => Ok (None, put None)
      end
  end.

(** [Request.FormValue] and [Request.PostFormValue]. *)
Definition ParseMultipartForm (w : world) : world :=
  if f_Multipart (r_forms (req w)) then w
  else with_req (fun r => set_forms (parse_multipart_form r) r) w.

Definition first_value (vs : option Values) (k : bytes) : bytes := hget (default ∅ vs) k.

Definition FormValue (k : bytes) (w : world) : bytes * world :=
  let w := ParseMultipartForm w in (first_value (f_Form (r_forms (req w))) k, w).

Definition PostFormValue (k : bytes) (w : world) : bytes * world :=
  let w := ParseMultipartForm w in (first_value (f_PostForm (r_forms (req w))) k, w).

End Cache.

(** ** routes/context.go *)

Section Upstream.

Context `{HTTPLib}.

Definition tryGetURL (r : Request) : option URL := r_route r ≫= up_URL.

Definition TryGetUpstreamName (r : Request) : bytes :=
  match r_route r with Some u => up_Name u | None => [] end.

Definition TryGetUpstreamScheme (r : Request) : bytes :=
  match tryGetURL r with Some u => u_Scheme u | None => [] end.

Definition TryGetUpstreamHost (r : Request) : bytes :=
  match tryGetURL r with Some u => url_Hostname u | None => [] end.

Definition TryGetUpstreamPort (r : Request) : bytes :=
  match tryGetURL r with Some u => url_Port u | None => [] end.

Definition TryGetUpstreamHostPort (r : Request) : bytes :=
  match tryGetURL r with Some u => u_Host u | None => [] end.

Definition TryGetUpstreamAddr (r : Request) : bytes :=
  match tryGetURL r with Some u => u_Host u | None => [] end.

Definition TryGetUpstreamURL (r : Request) : bytes :=
  match tryGetURL r with Some u => url_String u | None => [] end.

End Upstream.
