(* ===== verification/RulesOn.v ===== *)
(** * Rule conditions: matchers, validators, checkers and [RuleOn.Parse]

    Models internal/route/rules/matcher.go, check_on.go, the validators of
    validate.go used by conditions, and the table [checkers], [parseOn] and
    [RuleOn.Parse] of on.go.  Third-party code (glob, bcrypt, goutils) and the
    engines of regexp and unicode are the fields of the class [RuleLib]. *)

From S2P Require Import Prelude GoStrings NetAddr RulesParser RulesSplit RulesHTTP.

(** ** Errors *)

(** The error values of errors.go, without the texts attached to them. *)
Inductive rule_error :=
  | EUnterminatedQuotes
  | EUnterminatedBrackets
  | EUnterminatedParenthesis
  | EUnterminatedEnvVar
  | EUnknownDirective
  | EUnknownModField
  | EEnvVarNotFound
  | EInvalidArguments
  | EInvalidOnTarget
  | EInvalidCommandSequence
  | EUnexpectedVar
  | EExpectNoArg
  | EExpectOneArg
  | EExpectOneOrTwoArgs
  | EExpectTwoArgs
  | EExpectTwoOrThreeArgs
  | EExpectThreeArgs
  | EExpectFourArgs
  | EExpectKVOptionalV
  | EParseForm
  | EJoin (e1 : rule_error) (e2 : rule_error).

Definition of_parse_error (e : parse_error) : rule_error :=
  match e with
  | ErrUnterminatedQuotes => EUnterminatedQuotes
  | ErrUnterminatedBrackets => EUnterminatedBrackets
  | ErrUnterminatedEnvVar => EUnterminatedEnvVar
  end.

(** ** Library interface *)

Class RuleLib := {
  LookupEnv : bytes -> option bytes;                  (* goutils/env *)
  glob_Compile : bytes -> option (bytes -> bool);     (* gobwas/glob *)
  regexp_Compile : bytes -> option (bytes -> bool);   (* regexp *)
  bcrypt_Compare : bytes -> bytes -> bool;            (* x/crypto/bcrypt *)
  IsMethodValid : bytes -> bool;                      (* goutils/http *)
  IsStatusCodeValid : Z -> bool;                      (* goutils/http *)
  unicode_ToLower : Z -> Z;                           (* the non-ASCII part *)
  unicode_ToUpper : Z -> Z
}.

(** ** Definitions *)

Section On.

Context `{HL : HTTPLib} `{RL : RuleLib}.

(** [strings.ToLower] and [strings.ToUpper]. *)
Definition ToLower (s : bytes) : bytes := ToLowerWith unicode_ToLower s.

Definition ToUpper (s : bytes) : bytes :=
  if forallb is_ascii s then map upper_byte s
  else write_runes (map (fun rb => if rb.1 <? 0x80 then byteZ (upper_byte (zbyte rb.1))
                                   else unicode_ToUpper rb.1) (runes s)).

(** The slice expression [s[i:j]]. *)
Definition slice (s : bytes) (i j : Z) : result rule_error bytes :=
  if (0 <=? i) && (i <=? j) && (j <=? Z.of_nat (length s))
  then Ok (take (Z.to_nat (j - i)) (drop (Z.to_nat i) s))
  else Panic SliceOutOfBounds.

(** *** matcher.go *)

Abbreviation Matcher := (bytes -> bool).

Inductive MatcherType := MatcherTypeString | MatcherTypeGlob | MatcherTypeRegex.

Definition unquoteExpr (s : bytes) : result rule_error bytes :=
  match s with
  | [] => Ok []
  | c :: _ =>
      if is_quote (byteZ c) then
        if negb (bool_decide (last s = Some c)) then Err EUnterminatedQuotes
        else slice s 1 (Z.of_nat (length s) - 1)
      else Ok s
  end.

Definition ExtractExpr (s : bytes) : result rule_error (MatcherType * bytes) :=
  match IndexByte s "(" with
  | None => Ok (MatcherTypeString, s)
  | Some idx =>
      match LastIndexByte s ")" with
      | None => Err EUnterminatedBrackets
      | Some idxEnd =>
          inner ← slice s (Z.of_nat idx + 1) (Z.of_nat idxEnd);
          expr ← unquoteExpr inner;
          let t := ToLower (take idx s) in
          if bool_decide (t = B "glob") then Ok (MatcherTypeGlob, expr)
          else if bool_decide (t = B "regex") then Ok (MatcherTypeRegex, expr)
          else if bool_decide (t = B "string") then Ok (MatcherTypeString, expr)
          else Err EInvalidArguments
      end
  end.

Definition xor_negate (negate b : bool) : bool := if negate then negb b else b.

Definition StringMatcher (s : bytes) (negate : bool) : result rule_error Matcher :=
  if negate then Ok (fun s2 => negb (bool_decide (s = s2))) else Ok (fun s2 => bool_decide (s = s2)).

Definition GlobMatcher (expr : bytes) (negate : bool) : result rule_error Matcher :=
  match glob_Compile expr with
  | None => Err EInvalidArguments
  | Some g => if negate then Ok (fun s => negb (g s)) else Ok g
  end.

Definition RegexMatcher (expr : bytes) (negate : bool) : result rule_error Matcher :=
  match regexp_Compile expr with
  | None => Err EInvalidArguments
  | Some re => if negate then Ok (fun s => negb (re s)) else Ok re
  end.

Definition ParseMatcher (expr : bytes) : result rule_error Matcher :=
  let negate := HasPrefix expr "!" in
  let expr := if negate then drop 1 expr else expr in
  '(t, expr) ← ExtractExpr expr;
  match t with
  | MatcherTypeString => StringMatcher expr negate
  | MatcherTypeGlob => GlobMatcher expr negate
  | MatcherTypeRegex => RegexMatcher expr negate
  end.

(** *** validate.go: arguments of conditions *)

(** The dynamic types hidden behind [any]. *)
Inductive any :=
  | AMapValueMatcher (k : bytes) (m : option Matcher)
  | AString (s : bytes)
  | AMatcher (m : Matcher)
  | AIPNet (n : IPNet)
  | AHashed (c : HashedCrendentials)
  | AIntTuple (a b : Z).

Definition validateSingleMatcher (args : list bytes) : result rule_error any :=
  match args with
  | [a] => AMatcher <$> ParseMatcher a
  | _ => Err EExpectOneArg
  end.

Definition toKVOptionalVMatcher (args : list bytes) : result rule_error any :=
  match args with
  | [k] => Ok (AMapValueMatcher k None)
  | [k; v] => m ← ParseMatcher v; Ok (AMapValueMatcher k (Some m))
  | _ => Err EExpectKVOptionalV
  end.

Definition validateCIDR (args : list bytes) : result rule_error any :=
  match args with
  | [a] =>
      let a := match IndexByte a "/" with Some _ => a | None => a ++ "/32" end in
      match ParseCIDR a with
      | Some (_, ipnet) => Ok (AIPNet ipnet)
      | None => Err EInvalidArguments
      end
  | _ => Err EExpectOneArg
  end.

Definition validateURLPath (args : list bytes) : result rule_error bytes :=
  match args with
  | [p] =>
      let trailingSlash := (1 <? length p)%nat && bool_decide (last p = Some "/"%char) in
      let p := Clean (Cut p "#").1.1 in
      match p with
      | [] => Err EInvalidArguments
      | _ => Ok (if trailingSlash then p ++ "/" else p)
      end
  | _ => Err EExpectOneArg
  end.

Definition validateURLPathMatcher (args : list bytes) : result rule_error any :=
  p ← validateURLPath args; AMatcher <$> ParseMatcher p.

Definition validateMethod (args : list bytes) : result rule_error any :=
  match args with
  | [a] => let m := ToUpper a in if IsMethodValid m then Ok (AString m) else Err EInvalidArguments
  | _ => Err EExpectOneArg
  end.

Definition validateStatusCode (status : bytes) : result rule_error Z :=
  match Atoi status with
  | None => Err EInvalidArguments
  | Some c => if (c <? 100) || (599 <? c) then Err EInvalidArguments else Ok c
  end.

Definition validateStatusRange (args : list bytes) : result rule_error any :=
  match args with
  | [a] =>
      let '(beg, end_, ok) := Cut a "-" in
      let end_ := if ok : bool then end_ else beg in
      if bool_decide (beg = B "1xx") then Ok (AIntTuple 100 199)
      else if bool_decide (beg = B "2xx") then Ok (AIntTuple 200 299)
      else if bool_decide (beg = B "3xx") then Ok (AIntTuple 300 399)
      else if bool_decide (beg = B "4xx") then Ok (AIntTuple 400 499)
      else if bool_decide (beg = B "5xx") then Ok (AIntTuple 500 599)
      else match validateStatusCode beg, validateStatusCode end_ with
           | Ok b, Ok e => Ok (AIntTuple b e)
           | _, _ => Err EInvalidArguments
           end
  | _ => Err EExpectOneArg
  end.

Definition BCryptCrendentials (username hashedPassword : bytes) : HashedCrendentials :=
  {| hc_Username := username; hc_CheckMatch := bcrypt_Compare hashedPassword |}.

Definition validateUserBCryptPassword (args : list bytes) : result rule_error any :=
  match args with
  | [u; p] => Ok (AHashed (BCryptCrendentials u p))
  | _ => Err EExpectTwoArgs
  end.

(** *** check_on.go *)

(** A check reads the request and the response; it may fill the cache, parse
    the form, or panic. *)
Abbreviation check_fn := (world -> result unit (bool * world)).

Inductive Checker :=
  | CheckFunc (f : check_fn)
  | CheckMatchSingle (l : list Checker)
  | CheckMatchAll (l : list Checker).

Fixpoint Check (c : Checker) (w : world) : result unit (bool * world) :=
  match c with
  | CheckFunc f => f w
  | CheckMatchSingle l =>
      (fix any_of (l : list Checker) (w : world) : result unit (bool * world) :=
         match l with
         | [] => Ok (false, w)
         | c :: l' => '(b, w) ← Check c w; if b : bool then Ok (true, w) else any_of l' w
         end) l w
  | CheckMatchAll l =>
      (fix all_of (l : list Checker) (w : world) : result unit (bool * world) :=
         match l with
         | [] => Ok (true, w)
         | c :: l' => '(b, w) ← Check c w; if b : bool then all_of l' w else Ok (false, w)
         end) l w
  end.

(** *** on.go: the table of checkers *)

Record checker_entry := {
  validate : list bytes -> result rule_error any;
  builder : any -> result rule_error check_fn;
  isResponseChecker : bool
}.

(** [args.( *MapValueMatcher).Unpack()] followed by the check of a multi-valued
    field read by [get]. *)
Definition values_builder (get : world -> Values * world) (a : any) : result rule_error check_fn :=
  match a with
  | AMapValueMatcher k None =>
      Ok (fun w => let '(vs, w) := get w in
                   Ok ((0 <? length (values_at vs k))%nat, w))
  | AMapValueMatcher k (Some m) =>
      Ok (fun w => let '(vs, w) := get w in Ok (existsb m (values_at vs k), w))
  | _ => Panic InterfaceConversion
  end.

Definition builder_cookie (a : any) : result rule_error check_fn :=
  match a with
  | AMapValueMatcher k m =>
      Ok (fun w => let '(cs, w) := GetCookies w in
                   Ok (existsb (fun c => bool_decide (ck_Name c = k) &&
                                         match m with None => true | Some m => m (ck_Value c) end) cs, w))
  | _ => Panic InterfaceConversion
  end.

(** The form checkers, with [r.FormValue] or [r.PostFormValue]. *)
Definition form_builder (get : bytes -> world -> bytes * world) (a : any) : result rule_error check_fn :=
  match a with
  | AMapValueMatcher k m =>
      Ok (fun w => let '(v, w) := get k w in
                   Ok (match m with None => negb (bool_decide (v = [])) | Some m => m v end, w))
  | _ => Panic InterfaceConversion
  end.

Definition builder_method (a : any) : result rule_error check_fn :=
  match a with
  | AString method => Ok (fun w => Ok (bool_decide (r_Method (req w) = method), w))
  | _ => Panic InterfaceConversion
  end.

Definition matcher_builder (get : world -> bytes) (a : any) : result rule_error check_fn :=
  match a with
  | AMatcher m => Ok (fun w => Ok (m (get w), w))
  | _ => Panic InterfaceConversion
  end.

Definition rooted_path (p : bytes) : bytes :=
  match p with
  | [] => []
  | c :: _ => if Ascii.eqb c "/" then p else "/"%char :: p
  end.

Definition builder_remote (a : any) : result rule_error check_fn :=
  match a with
  | AIPNet n =>
      let single := mask_ones (net_Mask n) =? 8 * Z.of_nat (length (net_Mask n)) in
      Ok (fun w => let '(ip, w) := GetRemoteIP w in
                   match ip with
                   | None => Ok (false, w)
                   | Some ip => Ok (if single then Equal ip (net_IP n) else Contains n ip, w)
                   end)
  | _ => Panic InterfaceConversion
  end.

Definition builder_basic_auth (a : any) : result rule_error check_fn :=
  match a with
  | AHashed cred =>
      Ok (fun w => '(c, w) ← GetBasicAuth w; Ok (HashedCrendentials_Match cred c, w))
  | _ => Panic InterfaceConversion
  end.

Definition builder_status (a : any) : result rule_error check_fn :=
  match a with
  | AIntTuple beg end_ =>
      if beg =? end_ then Ok (fun w => Ok (StatusCode (rm w) =? beg, w))
      else Ok (fun w => Ok ((beg <=? StatusCode (rm w)) && (StatusCode (rm w) <=? end_), w))
  | _ => Panic InterfaceConversion
  end.

Definition entry v b r := {| validate := v; builder := b; isResponseChecker := r |}.

Definition checkers (subject : bytes) : option checker_entry :=
  if bool_decide (subject = B "header") then
    Some (entry toKVOptionalVMatcher (values_builder (fun w => (r_Header (req w), w))) false)
  else if bool_decide (subject = B "resp_header") then
    Some (entry toKVOptionalVMatcher (values_builder (fun w => (w_Header (out w), w))) true)
  else if bool_decide (subject = B "query") then
    Some (entry toKVOptionalVMatcher (values_builder GetQueries) false)
  else if bool_decide (subject = B "cookie") then
    Some (entry toKVOptionalVMatcher builder_cookie false)
  else if bool_decide (subject = B "form") then
    Some (entry toKVOptionalVMatcher (form_builder FormValue) false)
  else if bool_decide (subject = B "postform") then
    Some (entry toKVOptionalVMatcher (form_builder PostFormValue) false)
  else if bool_decide (subject = B "method") then
    Some (entry validateMethod builder_method false)
  else if bool_decide (subject = B "host") then
    Some (entry validateSingleMatcher (matcher_builder (fun w => r_Host (req w))) false)
  else if bool_decide (subject = B "path") then
    Some (entry validateURLPathMatcher
            (matcher_builder (fun w => rooted_path (u_Path (r_URL (req w))))) false)
  else if bool_decide (subject = B "remote") then Some (entry validateCIDR builder_remote false)
  else if bool_decide (subject = B "basic_auth") then
    Some (entry validateUserBCryptPassword builder_basic_auth false)
  else if bool_decide (subject = B "route") then
    Some (entry validateSingleMatcher (matcher_builder (fun w => TryGetUpstreamName (req w))) false)
  else if bool_decide (subject = B "status") then
    Some (entry validateStatusRange builder_status true)
  else None.

(** *** on.go: parsing conditions *)

(** A call [subject, args, err := parse(line)] whose error is returned. *)
Definition parse_line (line : bytes) : result rule_error (bytes * list bytes) :=
  match parse LookupEnv line with
  | Panic p => Panic p
  | Err e => Err (of_parse_error e)
  | Ok o =>
      match po_err o, po_missing o with
      | None, [] => Ok (po_subject o, po_args o)
      | None, _ :: _ => Err EEnvVarNotFound
      | Some e, [] => Err (of_parse_error e)
      | Some e, _ :: _ => Err (EJoin (of_parse_error e) EEnvVarNotFound)
      end
  end.

Definition negate_check (f : check_fn) : check_fn :=
  fun w => '(b, w) ← f w; Ok (negb b, w).

(** The part of [parseOn] for a line without alternatives. *)
Definition parseOn_single (line : bytes) : result rule_error (Checker * bool) :=
  '(subject, args) ← parse_line line;
  let negate := HasPrefix subject "!" in
  let subject := if negate then drop 1 subject else subject in
  match checkers subject with
  | None => Err EInvalidOnTarget
  | Some checker =>
      validArgs ← validate checker args;
      checkFunc ← builder checker validArgs;
      Ok (CheckFunc (if negate then negate_check checkFunc else checkFunc),
          isResponseChecker checker)
  end.

(** The assertion [curCheckers.(CheckFunc)]. *)
Definition as_CheckFunc (c : Checker) : result rule_error Checker :=
  match c with CheckFunc _ => Ok c | _ => Panic InterfaceConversion end.

(** The loop over the alternatives: checkers, whether one is a response
    checker, and the errors. *)
Fixpoint parse_ors (parse_one : bytes -> result rule_error (Checker * bool))
    (ors : list bytes) : result rule_error (list Checker * bool * list rule_error) :=
  match ors with
  | [] => Ok ([], false, [])
  | or :: ors' =>
      match parse_one or with
      | Panic p => Panic p
      | Err e => '(cs, r, es) ← parse_ors parse_one ors'; Ok (cs, r, e :: es)
      | Ok (c, isResp) =>
          c ← as_CheckFunc c;
          '(cs, r, es) ← parse_ors parse_one ors'; Ok (c :: cs, isResp || r, es)
      end
  end.

(** [parseOn] calls itself on every alternative; [fuel] bounds the nesting. *)
Fixpoint parseOn_fuel (fuel : nat) (line : bytes) : result rule_error (Checker * bool) :=
  match fuel with
  | O => Panic ExplicitPanic
  | S fuel' =>
      let ors := splitPipe line in
      if (1 <? length ors)%nat then
        '(cs, isResp, errs) ← parse_ors (parseOn_fuel fuel') ors;
        match errs with
        | [] => Ok (CheckMatchSingle cs, isResp)
        | e :: _ => Err e
        end
      else parseOn_single line
  end.

(** Alternatives are never split again, so two levels are enough
    ([parseOn_fuel_enough]). *)
Definition parseOn (line : bytes) : result rule_error (Checker * bool) := parseOn_fuel 2 line.

Record RuleOn := {
  on_raw : bytes;
  on_checker : option Checker;
  on_isResponseChecker : bool
}.

(** The loop of [RuleOn.Parse] over the lines. *)
Fixpoint parse_rules (rules : list bytes) : result rule_error (list Checker * bool * list rule_error) :=
  match rules with
  | [] => Ok ([], false, [])
  | rule :: rules' =>
      match rule with
      | [] => parse_rules rules'
      | _ =>
          match parseOn rule with
          | Panic p => Panic p
          | Err e => '(cs, r, es) ← parse_rules rules'; Ok (cs, r, e :: es)
          | Ok (c, isResp) => '(cs, r, es) ← parse_rules rules'; Ok (c :: cs, isResp || r, es)
          end
      end
  end.

(** [RuleOn.Parse]: the new value of [on] and the errors ([[]] is nil). *)
Definition RuleOn_Parse (v : bytes) : result rule_error (RuleOn * list rule_error) :=
  '(cs, isResp, errs) ← parse_rules (splitAnd v);
  Ok ({| on_raw := v; on_checker := Some (CheckMatchAll cs); on_isResponseChecker := isResp |}, errs).

(** [RuleOn.Check]. *)
Definition RuleOn_Check (on : RuleOn) (w : world) : result unit (bool * world) :=
  match on_checker on with
  | None => Panic NilDereference
  | Some c => Check c w
  end.

(** ** What a condition means *)

(** The request and response as the checks see them: the world with the form
    parsed (and its body read) and without the cache. *)
Abbreviation view := world.
Abbreviation v_req := req.

Definition v_status (v : view) : Z := StatusCode (rm v).

Definition v_resp_header (v : view) : Values := w_Header (out v).

Definition norm_req (r : Request) : Request :=
  if f_Multipart (r_forms r) then r else set_forms (parse_multipart_form r) r.

Definition view_of (w : world) : view :=
  World (norm_req (req w)) (set_shared None (rm w)) (out w) (fx w).

Definition values_pred (get : view -> Values) (a : any) (v : view) : bool :=
  match a with
  | AMapValueMatcher k None => negb (bool_decide (values_at (get v) k = []))
  | AMapValueMatcher k (Some m) => existsb m (values_at (get v) k)
  | _ => false
  end.

Definition text_pred (get : bytes -> view -> bytes) (a : any) (v : view) : bool :=
  match a with
  | AMapValueMatcher k None => negb (bool_decide (get k v = []))
  | AMapValueMatcher k (Some m) => m (get k v)
  | AMatcher m => m (get [] v)
  | AString s => bool_decide (get [] v = s)
  | _ => false
  end.

Definition cookie_pred (a : any) (v : view) : bool :=
  match a with
  | AMapValueMatcher k m =>
      existsb (fun c => bool_decide (ck_Name c = k) && match m with None => true | Some m => m (ck_Value c) end)
        (req_Cookies (r_Header (v_req v)))
  | _ => false
  end.

Definition remote_pred (a : any) (v : view) : bool :=
  match a, remote_ip_of (v_req v) with
  | AIPNet n, Some ip =>
      if mask_ones (net_Mask n) =? 8 * Z.of_nat (length (net_Mask n))
      then Equal ip (net_IP n) else Contains n ip
  | _, _ => false
  end.

Definition basic_auth_of (r : Request) : option Credentials :=
  match req_BasicAuth (r_Header r) with
  | Some (u, p) => Some {| cr_Username := u; cr_Password := p |}
  | None => None
  end.

Definition auth_pred (a : any) (v : view) : bool :=
  match a with
  | AHashed hc => HashedCrendentials_Match hc (basic_auth_of (v_req v))
  | _ => false
  end.

Definition status_pred (a : any) (v : view) : bool :=
  match a with
  | AIntTuple beg end_ => (beg <=? v_status v) && (v_status v <=? end_)
  | _ => false
  end.

(** The documented meaning of each condition, without caching. *)
Definition meaning (subject : bytes) : any -> view -> bool :=
  if bool_decide (subject = B "header") then values_pred (fun v => r_Header (v_req v))
  else if bool_decide (subject = B "resp_header") then values_pred v_resp_header
  else if bool_decide (subject = B "query")
    then values_pred (fun v => url_Query (u_RawQuery (r_URL (v_req v))))
  else if bool_decide (subject = B "cookie") then cookie_pred
  else if bool_decide (subject = B "form")
    then text_pred (fun k v => first_value (f_Form (r_forms (v_req v))) k)
  else if bool_decide (subject = B "postform")
    then text_pred (fun k v => first_value (f_PostForm (r_forms (v_req v))) k)
  else if bool_decide (subject = B "method") then text_pred (fun _ v => r_Method (v_req v))
  else if bool_decide (subject = B "host") then text_pred (fun _ v => r_Host (v_req v))
  else if bool_decide (subject = B "path")
    then text_pred (fun _ v => rooted_path (u_Path (r_URL (v_req v))))
  else if bool_decide (subject = B "remote") then remote_pred
  else if bool_decide (subject = B "basic_auth") then auth_pred
  else if bool_decide (subject = B "route")
    then text_pred (fun _ v => TryGetUpstreamName (v_req v))
  else if bool_decide (subject = B "status") then status_pred
  else fun _ _ => false.

(** One alternative: "[!]subject args...". *)
Definition alt_meaning (alt : bytes) (v : view) : bool :=
  match parse_line alt with
  | Ok (subject, args) =>
      let negate := HasPrefix subject "!" in
      let subject := if negate then drop 1 subject else subject in
      match checkers subject with
      | Some e => match validate e args with
                  | Ok a => xor_negate negate (meaning subject a v)
                  | _ => false
                  end
      | None => false
      end
  | _ => false
  end.

(** A line holds when one of its alternatives does. *)
Definition alternatives (line : bytes) : list bytes :=
  if (1 <? length (splitPipe line))%nat then splitPipe line else [line].

Definition line_meaning (line : bytes) (v : view) : bool :=
  existsb (fun alt => alt_meaning alt v) (alternatives line).

(** A condition holds when all its lines do. *)
Definition on_meaning (s : bytes) (v : view) : bool :=
  forallb (fun line => line_meaning line v) (splitAnd_ref s).

Definition alt_subject (alt : bytes) : option bytes :=
  match parse_line alt with
  | Ok (subject, _) => Some (if HasPrefix subject "!" then drop 1 subject else subject)
  | _ => None
  end.

Definition uses_basic_auth (s : bytes) : bool :=
  existsb (fun line => existsb (fun alt => bool_decide (alt_subject alt = Some (B "basic_auth")))
                         (alternatives line)) (splitAnd_ref s).

(** The cache holds what parsing the request again would give. *)
Definition cache_ok (r : Request) (c : Cache) : Prop :=
  (forall q, c_queries c = Some q -> q = url_Query (u_RawQuery (r_URL r))) /\
  (forall cs, c_cookies c = Some cs -> cs = req_Cookies (r_Header r)) /\
  (forall ip, c_remote_ip c = Some ip -> ip = remote_ip_of r) /\
  (forall a, c_basic_auth c = Some a -> a = basic_auth_of r).

Definition world_ok (w : world) : Prop :=
  forall c, rm_shared (rm w) = Some c -> cache_ok (req w) c.

(** ** Lemmas *)

(** *** The cache does not change what a check sees *)

Lemma norm_req_fields r :
  r_Method (norm_req r) = r_Method r /\ r_URL (norm_req r) = r_URL r /\
  r_Host (norm_req r) = r_Host r /\ r_Header (norm_req r) = r_Header r /\
  r_RemoteAddr (norm_req r) = r_RemoteAddr r /\ r_route (norm_req r) = r_route r.
Proof. unfold norm_req. by case_if. Qed.

(** A step that keeps the view and the coherence of the cache. *)
Definition transparent (w w' : world) : Prop := world_ok w' /\ view_of w' = view_of w.

Lemma transparent_refl w : world_ok w -> transparent w w.
Proof. by split. Qed.

Lemma put_shared_transparent w c :
  cache_ok (req w) c -> transparent w (put_shared c w).
Proof. intros Hc. split; [|done]. intros c'. simpl. by intros [= <-]. Qed.

Lemma shared_cache_ok w :
  world_ok w -> cache_ok (req w) (default NewCache (rm_shared (rm w))).
Proof.
  intros Hw. destruct (rm_shared (rm w)) as [c|] eqn:E; [by apply Hw|].
  by repeat split; intros ? [=].
Qed.

Lemma GetSharedData_put w :
  GetSharedData w = (default NewCache (rm_shared (rm w)), w) \/
  GetSharedData w = (default NewCache (rm_shared (rm w)), put_shared (default NewCache (rm_shared (rm w))) w).
Proof. unfold GetSharedData. destruct (rm_shared (rm w)) eqn:E; [by left|by right]. Qed.

Lemma put_shared_twice c1 c2 w : put_shared c2 (put_shared c1 w) = put_shared c2 w.
Proof. done. Qed.

Ltac open_cache w :=
  let E := fresh "E" in
  destruct (GetSharedData_put w) as [E|E]; rewrite E; clear E;
  cbn [fst snd req put_shared with_rm];
  change (with_rm (set_shared (Some (default NewCache (rm_shared (rm w))))) w)
    with (put_shared (default NewCache (rm_shared (rm w))) w).

(** The shape shared by the getters of [Cache]: a hit returns the cached value,
    a miss computes it and stores it. *)
Ltac cached_getter w Hw :=
  let Hc := fresh "Hc" in
  pose proof (shared_cache_ok w Hw) as Hc;
  open_cache w; destruct Hc as (?H1 & ?H2 & ?H3 & ?H4);
  match goal with |- context [match ?sel with Some _ => _ | None => _ end] => destruct sel eqn:?E end;
  (eexists; split;
   [ first [ reflexivity | repeat f_equal; eauto ]
   | rewrite ?put_shared_twice;
     first [ by apply transparent_refl
           | by apply put_shared_transparent, shared_cache_ok
           | apply put_shared_transparent; repeat split; simpl; eauto; by intros ? [=] ] ]).

Lemma GetQueries_ok w :
  world_ok w ->
  exists w', GetQueries w = (url_Query (u_RawQuery (r_URL (req w))), w') /\ transparent w w'.
Proof. intros Hw. unfold GetQueries. cached_getter w Hw. Qed.

Lemma GetCookies_ok w :
  world_ok w ->
  exists w', GetCookies w = (req_Cookies (r_Header (req w)), w') /\ transparent w w'.
Proof. intros Hw. unfold GetCookies. cached_getter w Hw. Qed.

Lemma GetRemoteIP_ok w :
  world_ok w -> exists w', GetRemoteIP w = (remote_ip_of (req w), w') /\ transparent w w'.
Proof. intros Hw. unfold GetRemoteIP. cached_getter w Hw. Qed.

Lemma GetBasicAuth_ok w :
  world_ok w -> is_Some (req_BasicAuth (r_Header (req w))) ->
  exists w', GetBasicAuth w = Ok (basic_auth_of (req w), w') /\ transparent w w'.
Proof.
  intros Hw [[u p] Ha]. unfold GetBasicAuth, basic_auth_of. rewrite Ha.
  pose proof (shared_cache_ok w Hw) as (H1 & H2 & H3 & H4).
  unfold basic_auth_of in H4. rewrite Ha in H4.
  open_cache w; (destruct (c_basic_auth _) as [a|] eqn:E;
    [specialize (H4 a eq_refl); subst a; eexists; (split; [done|]) |
     rewrite Ha; eexists; (split; [done|]); rewrite ?put_shared_twice]).
  - by apply transparent_refl.
  - apply put_shared_transparent. repeat split; simpl; try done.
    unfold basic_auth_of. rewrite Ha. by intros ? [=].
  - apply put_shared_transparent. repeat split; try done.
    unfold basic_auth_of. rewrite Ha, E. by intros ? [=].
  - apply put_shared_transparent. repeat split; simpl; try done.
    unfold basic_auth_of. rewrite Ha. by intros ? [=].
Qed.

Context `{LW : !HTTPLibLaws}.

Lemma ParseMultipartForm_ok w :
  world_ok w ->
  transparent w (ParseMultipartForm w) /\ req (ParseMultipartForm w) = norm_req (req w).
Proof.
  intros Hw. unfold ParseMultipartForm, norm_req. destruct (f_Multipart _) eqn:E.
  - split; [by apply transparent_refl|done].
  - split; [|done]. split.
    + intros c Hc. exact (Hw c Hc).
    + unfold view_of, norm_req. simpl. rewrite E. f_equal.
      case_if; [done|]. by rewrite parse_multipart_once.
Qed.

(** *** Every checker implements its meaning *)

(** [f] decides [p] on every world whose cache is coherent and whose view
    satisfies [ready], and leaves the view alone. *)
Definition implements (f : check_fn) (ready : view -> Prop) (p : view -> bool) : Prop :=
  forall w, world_ok w -> ready (view_of w) ->
  exists w', f w = Ok (p (view_of w), w') /\ transparent w w'.

Definition always (v : view) : Prop := True.

Definition has_auth (v : view) : Prop := is_Some (req_BasicAuth (r_Header (v_req v))).

Lemma kv_args args a :
  toKVOptionalVMatcher args = Ok a -> exists k m, a = AMapValueMatcher k m.
Proof.
  unfold toKVOptionalVMatcher. intros Hv. repeat case_match; try done.
  - simplify_eq. eauto.
  - destruct (ParseMatcher _); simplify_eq/=. eauto.
Qed.

Lemma values_builder_ok get getv args a :
  (forall w, world_ok w -> exists w', get w = (getv (view_of w), w') /\ transparent w w') ->
  toKVOptionalVMatcher args = Ok a ->
  exists f, values_builder get a = Ok f /\ implements f always (values_pred getv a).
Proof.
  intros Hg Ha. apply kv_args in Ha as (k & m & ->).
  destruct m as [m|]; eexists; (split; [done|]); intros w Hw _;
    destruct (Hg w Hw) as (w' & E & Ht); exists w'; rewrite E; (split; [|done]); simpl; [done|].
  do 2 f_equal. by destruct (values_at _ _).
Qed.

Lemma form_builder_ok get getv args a :
  (forall k w, world_ok w -> exists w', get k w = (getv k (view_of w), w') /\ transparent w w') ->
  toKVOptionalVMatcher args = Ok a ->
  exists f, form_builder get a = Ok f /\ implements f always (text_pred getv a).
Proof.
  intros Hg Ha. apply kv_args in Ha as (k & m & ->).
  eexists; (split; [done|]); intros w Hw _;
    destruct (Hg k w Hw) as (w' & E & Ht); exists w'; rewrite E; (split; [|done]).
  by destruct m.
Qed.

Lemma matcher_builder_ok get getv m :
  (forall w, get w = getv [] (view_of w)) ->
  exists f, matcher_builder get (AMatcher m) = Ok f
            /\ implements f always (text_pred getv (AMatcher m)).
Proof.
  intros Hg. eexists. split; [done|]. intros w Hw _. exists w. rewrite Hg.
  split; [done|by apply transparent_refl].
Qed.

Lemma builder_cookie_ok args a :
  toKVOptionalVMatcher args = Ok a ->
  exists f, builder_cookie a = Ok f /\ implements f always (cookie_pred a).
Proof.
  intros Ha. apply kv_args in Ha as (k & m & ->). eexists. split; [done|].
  intros w Hw _. destruct (GetCookies_ok w Hw) as (w' & E & Ht). exists w'. rewrite E.
  split; [|done]. simpl. by rewrite (proj1 (proj2 (proj2 (proj2 (norm_req_fields (req w)))))).
Qed.

Lemma builder_remote_ok n :
  exists f, builder_remote (AIPNet n) = Ok f /\ implements f always (remote_pred (AIPNet n)).
Proof.
  eexists. split; [done|]. intros w Hw _.
  destruct (GetRemoteIP_ok w Hw) as (w' & E & Ht). exists w'. rewrite E. split; [|done].
  assert (Hr : remote_ip_of (norm_req (req w)) = remote_ip_of (req w)).
  { unfold remote_ip_of. by destruct (norm_req_fields (req w)) as (_ & _ & _ & _ & -> & _). }
  unfold remote_pred. simpl. rewrite Hr. by destruct (remote_ip_of (req w)).
Qed.

Lemma builder_auth_ok hc :
  exists f, builder_basic_auth (AHashed hc) = Ok f
            /\ implements f has_auth (auth_pred (AHashed hc)).
Proof.
  eexists. split; [done|]. intros w Hw Ha. unfold has_auth, auth_pred in *. simpl in *.
  destruct (norm_req_fields (req w)) as (_ & _ & _ & Hh & _ & _). rewrite Hh in Ha.
  destruct (GetBasicAuth_ok w Hw Ha) as (w' & E & Ht). exists w'. rewrite E. split; [|done].
  simpl. unfold basic_auth_of. by rewrite Hh.
Qed.

Lemma builder_status_ok a b :
  exists f, builder_status (AIntTuple a b) = Ok f
            /\ implements f always (status_pred (AIntTuple a b)).
Proof.
  unfold builder_status. destruct (a =? b) eqn:E; eexists; (split; [done|]);
    intros w Hw _; exists w; (split; [|by apply transparent_refl]); [|done].
  reflect. subst. simpl. do 2 f_equal. change (v_status (view_of w)) with (StatusCode (rm w)).
  destruct (Z.eqb_spec (StatusCode (rm w)) b); symmetry.
  - subst. by rewrite Z.leb_refl.
  - apply andb_false_iff. rewrite !Z.leb_gt. lia.
Qed.

Lemma single_matcher args a :
  validateSingleMatcher args = Ok a -> exists m, a = AMatcher m.
Proof.
  unfold validateSingleMatcher. intros Hv. repeat case_match; try done.
  destruct (ParseMatcher _); simplify_eq/=. eauto.
Qed.

Lemma path_matcher args a :
  validateURLPathMatcher args = Ok a -> exists m, a = AMatcher m.
Proof.
  unfold validateURLPathMatcher. destruct (validateURLPath args); simpl; try done.
  destruct (ParseMatcher _); simpl; try done. intros [= <-]. eauto.
Qed.

Lemma method_args args a : validateMethod args = Ok a -> exists s, a = AString s.
Proof. unfold validateMethod. intros Hv. repeat case_match; simplify_eq; eauto. Qed.

Lemma cidr_args args a : validateCIDR args = Ok a -> exists n, a = AIPNet n.
Proof. unfold validateCIDR. intros Hv. repeat case_match; simplify_eq; eauto. Qed.

Lemma auth_args args a : validateUserBCryptPassword args = Ok a -> exists c, a = AHashed c.
Proof. unfold validateUserBCryptPassword. intros Hv. repeat case_match; simplify_eq; eauto. Qed.

Lemma status_args args a : validateStatusRange args = Ok a -> exists b e, a = AIntTuple b e.
Proof. unfold validateStatusRange. intros Hv. repeat case_match; simplify_eq; eauto. Qed.

Definition ready_for (subject : bytes) (v : view) : Prop :=
  subject = B "basic_auth" -> has_auth v.

Lemma implements_weaken f r1 r2 p :
  (forall v, r2 v -> r1 v) -> implements f r1 p -> implements f r2 p.
Proof. intros Hr Hf w Hw H2. apply Hf; auto. Qed.

Lemma checkers_ok subject e args a :
  checkers subject = Some e -> validate e args = Ok a ->
  exists f, builder e a = Ok f /\ implements f (ready_for subject) (meaning subject a).
Proof.
  assert (Hw1 : forall f p, implements f always p -> implements f (ready_for subject) p).
  { intros f p. apply implements_weaken. done. }
  unfold checkers, meaning.
  repeat match goal with
  | |- (if bool_decide ?P then _ else _) = _ -> _ =>
      let Hs := fresh "Hs" in destruct (bool_decide P) eqn:Hs;
      [apply bool_decide_eq_true in Hs; intros [= <-] Ha; cbn [validate builder entry] in *|]
  end;
    [| | | | | | | | | | | | |done].
  - destruct (values_builder_ok (fun w => (r_Header (req w), w)) (fun v => r_Header (v_req v)) args a)
      as (f & ? & ?); [|done|eauto].
    intros w Hw. exists w. split; [|by apply transparent_refl]. simpl.
    by destruct (norm_req_fields (req w)) as (_ & _ & _ & -> & _).
  - destruct (values_builder_ok (fun w => (w_Header (out w), w)) v_resp_header args a)
      as (f & ? & ?); [|done|eauto].
    intros w Hw. exists w. split; [done|by apply transparent_refl].
  - destruct (values_builder_ok GetQueries (fun v => url_Query (u_RawQuery (r_URL (v_req v)))) args a)
      as (f & ? & ?); [|done|eauto].
    intros w Hw. simpl. destruct (norm_req_fields (req w)) as (_ & -> & _). by apply GetQueries_ok.
  - destruct (builder_cookie_ok args a Ha) as (f & ? & ?); eauto.
  - destruct (form_builder_ok FormValue (fun k v => first_value (f_Form (r_forms (v_req v))) k) args a)
      as (f & ? & ?); [|done|eauto].
    intros k w Hw. destruct (ParseMultipartForm_ok w Hw) as [Ht Hr].
    eexists. split; [|exact Ht]. unfold FormValue. by rewrite Hr.
  - destruct (form_builder_ok PostFormValue (fun k v => first_value (f_PostForm (r_forms (v_req v))) k) args a)
      as (f & ? & ?); [|done|eauto].
    intros k w Hw. destruct (ParseMultipartForm_ok w Hw) as [Ht Hr].
    eexists. split; [|exact Ht]. unfold PostFormValue. by rewrite Hr.
  - apply method_args in Ha as (s & ->). eexists. split; [done|]. apply Hw1.
    intros w Hw _. exists w. split; [|by apply transparent_refl]. simpl.
    by destruct (norm_req_fields (req w)) as (-> & _).
  - apply single_matcher in Ha as (m & ->).
    destruct (matcher_builder_ok (fun w => r_Host (req w)) (fun _ v => r_Host (v_req v)) m) as (f & ? & ?); [|eauto].
    intros w. simpl. by destruct (norm_req_fields (req w)) as (_ & _ & -> & _).
  - apply path_matcher in Ha as (m & ->).
    destruct (matcher_builder_ok (fun w => rooted_path (u_Path (r_URL (req w))))
      (fun _ v => rooted_path (u_Path (r_URL (v_req v)))) m) as (f & ? & ?); [|eauto].
    intros w. simpl. by destruct (norm_req_fields (req w)) as (_ & -> & _).
  - apply cidr_args in Ha as (n & ->). destruct (builder_remote_ok n) as (f & ? & ?). eauto.
  - apply auth_args in Ha as (c & ->). destruct (builder_auth_ok c) as (f & ? & ?).
    exists f. split; [done|]. eapply implements_weaken; [|done]. by intros v Hv; apply Hv.
  - apply single_matcher in Ha as (m & ->).
    destruct (matcher_builder_ok (fun w => TryGetUpstreamName (req w))
      (fun _ v => TryGetUpstreamName (v_req v)) m) as (f & ? & ?); [|eauto].
    intros w. unfold TryGetUpstreamName. simpl.
    by destruct (norm_req_fields (req w)) as (_ & _ & _ & _ & _ & ->).
  - apply status_args in Ha as (b & e' & ->). destruct (builder_status_ok b e') as (f & ? & ?). eauto.
Qed.

(** *** Parsing builds the checkers of the meaning *)

Definition alt_ready (alt : bytes) (v : view) : Prop :=
  alt_subject alt = Some (B "basic_auth") -> has_auth v.

(** Whether a subject is read from the response. *)
Definition response_subject (s : bytes) : bool :=
  bool_decide (s = B "resp_header" \/ s = B "status").

Lemma checkers_response subject e :
  checkers subject = Some e -> isResponseChecker e = response_subject subject.
Proof.
  unfold checkers, response_subject.
  repeat match goal with
  | |- (if bool_decide ?P then _ else _) = _ -> _ =>
      let Hs := fresh "Hs" in destruct (bool_decide P) eqn:Hs;
      [apply bool_decide_eq_true in Hs; rewrite Hs; by intros [= <-]|]
  end. done.
Qed.

Lemma parseOn_single_ok alt c isResp :
  parseOn_single alt = Ok (c, isResp) ->
  exists f s, c = CheckFunc f /\ implements f (alt_ready alt) (alt_meaning alt)
              /\ alt_subject alt = Some s /\ isResp = response_subject s.
Proof.
  unfold parseOn_single, alt_meaning, alt_ready, alt_subject.
  destruct (parse_line alt) as [[subject args]| |]; try done. cbn [mbind result_bind].
  set (s := if HasPrefix subject "!" then drop 1 subject else subject).
  destruct (checkers s) as [e|] eqn:Ee; try done.
  destruct (validate e args) as [a| |] eqn:Ea; try done. cbn [mbind result_bind].
  destruct (checkers_ok s e args a Ee Ea) as (f & Hb & Hf). cbn [mbind result_bind]. rewrite Hb. cbn [mbind result_bind]. intros [= <- <-].
  eexists _, s. split; [done|]. split; [|split; [done|by apply checkers_response]].
  intros w Hw Hr. destruct (Hf w Hw) as (w' & E & Ht).
  { intros Hs. apply Hr. by rewrite Hs. }
  exists w'. split; [|done].
  change ["!"%char] with (B "!"). unfold negate_check, xor_negate.
  destruct (HasPrefix subject "!"); cbv beta; by rewrite E.
Qed.

Lemma alternatives_unsplit line alt :
  alt ∈ alternatives line -> (length (splitPipe alt) <= 1)%nat.
Proof.
  unfold alternatives. case_if; reflect.
  - intros Hin. pose proof (splitPipe_alternatives line) as Hall.
    rewrite Forall_forall in Hall. by apply alternative_unsplit, Hall.
  - intros ->%list_elem_of_singleton. apply Nat.ltb_ge in Heqb. lia.
Qed.

Lemma parse_ors_ext one1 one2 ors :
  (forall or, or ∈ ors -> one1 or = one2 or) -> parse_ors one1 ors = parse_ors one2 ors.
Proof.
  induction ors as [|or ors IH]; intros Hext; [done|]. cbn [parse_ors].
  rewrite (Hext or) by left. by rewrite IH by (intros; apply Hext; by right).
Qed.

(** The recursion of [parseOn] stops at the second level. *)
Lemma parse_ors_single n line :
  (1 <? length (splitPipe line))%nat = true ->
  parse_ors (parseOn_fuel (S n)) (splitPipe line) = parse_ors parseOn_single (splitPipe line).
Proof.
  intros Hl. apply parse_ors_ext. intros or Hin. cbn [parseOn_fuel].
  rewrite (proj2 (Nat.ltb_ge 1 (length (splitPipe or)))); [done|].
  apply (alternatives_unsplit line). unfold alternatives. by rewrite Hl.
Qed.

Lemma parseOn_fuel_enough n line : (2 <= n)%nat -> parseOn_fuel n line = parseOn line.
Proof.
  intros Hn. destruct n as [|[|n]]; [lia|lia|]. unfold parseOn.
  cbn [parseOn_fuel]. fold (parseOn_fuel (S n)). fold (parseOn_fuel 1).
  destruct (1 <? length (splitPipe line))%nat eqn:E; [|done].
  by rewrite (parse_ors_single n), (parse_ors_single 0) by done.
Qed.

Lemma parse_ors_ok one ors cs isResp :
  parse_ors one ors = Ok (cs, isResp, []) ->
  exists rs, Forall2 (fun c or => exists b, one or = Ok (c, b)) cs ors
  /\ Forall2 (fun b or => exists c, one or = Ok (c, b)) rs ors /\ isResp = existsb id rs.
Proof.
  revert cs isResp. induction ors as [|or ors IH]; intros cs isResp; simpl.
  { intros [= <- <-]. exists []. by repeat constructor. }
  destruct (one or) as [[c b]|e|p] eqn:E; [| |done].
  - destruct c; simpl; try done.
    destruct (parse_ors one ors) as [[[cs' r] es]| |]; simpl; try done.
    intros [= <- <- ->]. destruct (IH _ _ eq_refl) as (rs & Hc & Hb & ->).
    exists (b :: rs). split; [constructor; eauto|split; [constructor; eauto|done]].
  - destruct (parse_ors one ors) as [[[cs' r] es]| |]; simpl; try done.
Qed.

Lemma any_of_ok ready cs ps :
  Forall2 (fun c p => implements (Check c) ready p) cs ps ->
  implements (Check (CheckMatchSingle cs)) ready (fun v => existsb (fun p => p v) ps).
Proof.
  induction 1 as [|c p cs ps Hc _ IH]; intros w Hw Hr.
  { exists w. split; [done|by apply transparent_refl]. }
  destruct (Hc w Hw Hr) as (w1 & E1 & [Hw1 Hv1]). cbn [Check] in *. rewrite E1. simpl.
  destruct (p (view_of w)); simpl; [by exists w1|].
  rewrite <- Hv1 in Hr. destruct (IH w1 Hw1 Hr) as (w2 & E2 & [Hw2 Hv2]).
  rewrite Hv1 in *. exists w2. split; [exact E2|]. split; [done|congruence].
Qed.

Lemma all_of_ok ready cs ps :
  Forall2 (fun c p => implements (Check c) ready p) cs ps ->
  implements (Check (CheckMatchAll cs)) ready (fun v => forallb (fun p => p v) ps).
Proof.
  induction 1 as [|c p cs ps Hc _ IH]; intros w Hw Hr.
  { exists w. split; [done|by apply transparent_refl]. }
  destruct (Hc w Hw Hr) as (w1 & E1 & [Hw1 Hv1]). cbn [Check] in *. rewrite E1. simpl.
  destruct (p (view_of w)); simpl; [|by exists w1].
  rewrite <- Hv1 in Hr. destruct (IH w1 Hw1 Hr) as (w2 & E2 & [Hw2 Hv2]).
  rewrite Hv1 in *. exists w2. split; [exact E2|]. split; [done|congruence].
Qed.

Definition line_ready (line : bytes) (v : view) : Prop :=
  forall alt, alt ∈ alternatives line -> alt_ready alt v.

Definition line_response (line : bytes) : bool :=
  existsb (fun alt => match alt_subject alt with
                      | Some s => response_subject s
                      | None => false
                      end) (alternatives line).

Lemma parseOn_ok line c isResp :
  parseOn line = Ok (c, isResp) ->
  implements (Check c) (line_ready line) (line_meaning line) /\ isResp = line_response line.
Proof.
  unfold parseOn. change (parseOn_fuel 2 line) with
    (if (1 <? length (splitPipe line))%nat
     then '(cs, isResp, errs) ← parse_ors (parseOn_fuel 1) (splitPipe line);
          match errs with [] => Ok (CheckMatchSingle cs, isResp) | e :: _ => Err e end
     else parseOn_single line).
  unfold line_meaning, line_ready, line_response, alternatives.
  destruct (1 <? length (splitPipe line))%nat eqn:El.
  - rewrite parse_ors_single by done.
    destruct (parse_ors _ _) as [[[cs r] es]| |] eqn:Eo; simpl; try done.
    destruct es; [|done]. intros [= <- <-]. apply parse_ors_ok in Eo as (rs & H2 & H3 & ->).
    clear El. revert H2 H3. generalize (splitPipe line) as ors. intros ors H2 H3. split.
    + intros w Hw Hr. destruct (any_of_ok (fun v => forall alt, alt ∈ ors -> alt_ready alt v)
        cs (map alt_meaning ors)) with (w := w) as (w' & E & Ht); [|done|done|].
      * apply Forall2_fmap_r,  Forall2_same_length_lookup.
        pose proof (Forall2_length _ _ _ H2). split; [done|]. intros i c alt Hc Ha.
        destruct (Forall2_lookup_lr _ _ _ _ _ _ H2 Hc Ha) as [b Hb].
        apply parseOn_single_ok in Hb as (f & s & -> & Hf & _).
        eapply implements_weaken; [|exact Hf]. intros v Hv. apply Hv. by eapply list_elem_of_lookup_2.
      * exists w'. split; [|done]. rewrite E. do 2 f_equal. by rewrite existsb_map.
    + clear H2. induction H3 as [|b or rs ors [c Hb] _ IH]; [done|]. simpl.
      apply parseOn_single_ok in Hb as (f & s & _ & _ & -> & ->). by rewrite IH.
  - intros Hl. apply parseOn_single_ok in Hl as (f & s & -> & Hf & Hs & ->). simpl.
    rewrite Hs, orb_false_r. split; [|done].
    intros w Hw Hr. rewrite orb_false_r. apply Hf; [done|]. apply Hr. by apply list_elem_of_singleton.
Qed.

Lemma parse_rules_ok rules cs isResp :
  Forall nonempty rules -> parse_rules rules = Ok (cs, isResp, []) ->
  Forall2 (fun c line => implements (Check c) (line_ready line) (line_meaning line)) cs rules
  /\ isResp = existsb line_response rules.
Proof.
  intros Hne. revert cs isResp. induction Hne as [|line rules Hl _ IH]; intros cs isResp.
  { by intros [= <- <-]. }
  cbn [parse_rules]. destruct line as [|b line]; [by destruct Hl|].
  destruct (parseOn (b :: line)) as [[c r]|e|p] eqn:E; [| |done].
  - destruct (parse_rules rules) as [[[cs' r'] es]| |]; simpl; try done.
    intros [= <- <- ->]. apply parseOn_ok in E as [Hc ->].
    destruct (IH _ _ eq_refl) as [Hcs ->]. split; [by constructor|done].
  - destruct (parse_rules rules) as [[[cs' r'] es]| |]; simpl; done.
Qed.

Lemma splitAnd_ref_nonempty s : Forall nonempty (splitAnd_ref s).
Proof.
  unfold splitAnd_ref. destruct (split_by andSeps s).
  apply Forall_forall. intros x Hx. by apply list_elem_of_filter in Hx as [? _].
Qed.

Lemma uses_basic_auth_false s line alt :
  uses_basic_auth s = false -> line ∈ splitAnd_ref s -> alt ∈ alternatives line ->
  alt_subject alt <> Some (B "basic_auth").
Proof.
  unfold uses_basic_auth. intros Hu Hl Ha Hs.
  assert (existsb (fun line => existsb (fun alt => bool_decide (alt_subject alt = Some (B "basic_auth")))
    (alternatives line)) (splitAnd_ref s) = true); [|congruence].
  apply existsb_exists. exists line. split; [by apply list_elem_of_In|].
  apply existsb_exists. exists alt. split; [by apply list_elem_of_In|]. by apply bool_decide_eq_true.
Qed.

Lemma RuleOn_Check_spec v on w :
  RuleOn_Parse v = Ok (on, []) -> world_ok w ->
  (uses_basic_auth v = true -> has_auth (view_of w)) ->
  exists w', RuleOn_Check on w = Ok (on_meaning v (view_of w), w') /\ transparent w w'.
Proof.
  unfold RuleOn_Parse. rewrite splitAnd_eq.
  destruct (parse_rules (splitAnd_ref v)) as [[[cs r] es]| |] eqn:E; simpl; try done.
  intros [= <- ->] Hw Hauth. unfold RuleOn_Check, on_meaning. cbn [on_checker].
  apply parse_rules_ok in E as [Hcs _]; [|apply splitAnd_ref_nonempty].
  assert (Hcs' : Forall2 (fun c p => implements (Check c) (fun v' => v' = view_of w) p)
    cs (map line_meaning (splitAnd_ref v))).
  { apply Forall2_fmap_r, Forall2_same_length_lookup.
    split; [by eapply Forall2_length|]. intros i c line Hc Hl.
    pose proof (Forall2_lookup_lr _ _ _ _ _ _ Hcs Hc Hl) as Hi. simpl in Hi.
    eapply implements_weaken; [|exact Hi]. intros v' -> alt Ha Hs.
    apply Hauth. destruct (uses_basic_auth v) eqn:Eu; [done|]. exfalso.
    eapply uses_basic_auth_false; [done| |exact Ha|exact Hs]. by eapply list_elem_of_lookup_2. }
  destruct (all_of_ok _ _ _ Hcs' w Hw eq_refl) as (w' & Ew & Ht).
  exists w'. rewrite forallb_map in Ew. done.
Qed.

Lemma RuleOn_response_spec v on :
  RuleOn_Parse v = Ok (on, []) ->
  on_isResponseChecker on = existsb line_response (splitAnd_ref v) /\ is_Some (on_checker on).
Proof.
  unfold RuleOn_Parse. rewrite splitAnd_eq.
  destruct (parse_rules (splitAnd_ref v)) as [[[cs r] es]| |] eqn:E; simpl; try done.
  intros [= <- ->]. apply parse_rules_ok in E as [_ ->]; [|apply splitAnd_ref_nonempty].
  split; [done|]. by eexists.
Qed.

(** *** Conditions that do not test a form leave the request alone *)

Definition keeps_req (f : world -> result unit (bool * world)) : Prop :=
  forall w b w', f w = Ok (b, w') -> req w' = req w.

(** All the functions of a checker satisfy [P]. *)
Fixpoint leaves (P : check_fn -> Prop) (c : Checker) : Prop :=
  match c with
  | CheckFunc f => P f
  | CheckMatchSingle l | CheckMatchAll l =>
      (fix all (l : list Checker) : Prop := match l with [] => True | c :: l' => leaves P c /\ all l' end) l
  end.

Lemma GetSharedData_req w : req (GetSharedData w).2 = req w.
Proof. destruct (GetSharedData_put w) as [E|E]; by rewrite E. Qed.

Definition form_subject (s : bytes) : bool := bool_decide (s = B "form" \/ s = B "postform").

Lemma getters_req w :
  req (GetQueries w).2 = req w /\ req (GetCookies w).2 = req w /\ req (GetRemoteIP w).2 = req w
  /\ forall x w', GetBasicAuth w = Ok (x, w') -> req w' = req w.
Proof.
  pose proof (GetSharedData_req w) as Hs. unfold GetQueries, GetCookies, GetRemoteIP, GetBasicAuth.
  destruct (GetSharedData w) as [c w1]. cbn [snd] in Hs.
  split; [by destruct (c_queries c)|]. split; [by destruct (c_cookies c)|]. split; [by destruct (c_remote_ip c)|].
  intros x w' E. destruct (c_basic_auth c) as [[cr|]|]; [by simplify_eq|done|].
  destruct (req_BasicAuth (r_Header (req w1))) as [[u p]|]; by simplify_eq.
Qed.

Lemma values_builder_keep get a f :
  (forall w, req (get w).2 = req w) -> values_builder get a = Ok f -> keeps_req f.
Proof.
  intros Hg Hf. destruct a as [k m| | | | |]; try done.
  destruct m; injection Hf as <-; intros w r w'; specialize (Hg w); destruct (get w); by intros [= _ <-].
Qed.

Lemma checkers_keep subject e a f :
  checkers subject = Some e -> form_subject subject = false -> builder e a = Ok f -> keeps_req f.
Proof.
  unfold checkers, form_subject. intros He Hs. rewrite bool_decide_eq_false in Hs.
  repeat match type of He with
  | (if bool_decide ?P then _ else _) = _ => destruct (bool_decide P) eqn:?; [injection He as <-; cbn [builder entry]|]
  end; [| | | | | | | | | | | | |done].
  - by apply values_builder_keep.
  - by apply values_builder_keep.
  - apply values_builder_keep. intros w. apply getters_req.
  - intros Hf. unfold builder_cookie in Hf. destruct a; simplify_eq. intros w br w'.
    destruct (getters_req w) as (_ & Hc & _). destruct (GetCookies w). by intros [= _ <-].
  - exfalso. apply Hs. left. by eapply bool_decide_eq_true_1.
  - exfalso. apply Hs. right. by eapply bool_decide_eq_true_1.
  - intros Hf. unfold builder_method in Hf. destruct a; simplify_eq. by intros w br w' [= _ <-].
  - intros Hf. unfold matcher_builder in Hf. destruct a; simplify_eq. by intros w br w' [= _ <-].
  - intros Hf. unfold matcher_builder in Hf. destruct a; simplify_eq. by intros w br w' [= _ <-].
  - intros Hf. unfold builder_remote in Hf. destruct a; simplify_eq. intros w br w'.
    destruct (getters_req w) as (_ & _ & Hc & _). destruct (GetRemoteIP w) as [[ip|] w1]; by intros [= _ <-].
  - intros Hf. unfold builder_basic_auth in Hf. destruct a; simplify_eq. intros w br w'.
    destruct (getters_req w) as (_ & _ & _ & Hc). destruct (GetBasicAuth w) as [[x w1]| |]; cbn; try done.
    intros [= _ <-]. by eapply Hc.
  - intros Hf. unfold matcher_builder in Hf. destruct a; simplify_eq. by intros w br w' [= _ <-].
  - intros Hf. unfold builder_status in Hf. destruct a as [| | | | |beg end_]; try done.
    destruct (beg =? end_); simplify_eq; by intros w br w' [= _ <-].
Qed.

Lemma Check_keeps c : leaves keeps_req c -> keeps_req (Check c).
Proof.
  revert c. fix IH 1. intros [f|l|l]; [done|..]; cbn [leaves].
  - induction l as [|c l IHl]; intros Hl w b w'; cbn [Check]; [by intros [= _ <-]|].
    destruct Hl as [Hc Hl]. destruct (Check c w) as [[b1 w1]| |] eqn:E; cbn [mbind result_bind]; try done.
    apply (IH c Hc) in E. destruct b1; [by intros [= _ <-]|]. intros E2. rewrite <- E. by apply (IHl Hl w1 b).
  - induction l as [|c l IHl]; intros Hl w b w'; cbn [Check]; [by intros [= _ <-]|].
    destruct Hl as [Hc Hl]. destruct (Check c w) as [[b1 w1]| |] eqn:E; cbn [mbind result_bind]; try done.
    apply (IH c Hc) in E. destruct b1; [|by intros [= _ <-]]. intros E2. rewrite <- E. by apply (IHl Hl w1 b).
Qed.

Definition alt_form (alt : bytes) : bool :=
  match alt_subject alt with Some s => form_subject s | None => false end.

Definition uses_form (s : bytes) : bool :=
  existsb (fun line => existsb alt_form (alternatives line)) (splitAnd_ref s).

Lemma parseOn_single_keeps alt c isResp :
  parseOn_single alt = Ok (c, isResp) -> alt_form alt = false -> leaves keeps_req c.
Proof.
  unfold parseOn_single, alt_form, alt_subject.
  destruct (parse_line alt) as [[subject args]| |]; try done. cbn [mbind result_bind].
  set (s := if HasPrefix subject "!" then drop 1 subject else subject).
  destruct (checkers s) as [e|] eqn:Ee; try done.
  destruct (validate e args) as [a| |] eqn:Ea; try done. cbn [mbind result_bind].
  destruct (builder e a) as [f| |] eqn:Eb; try done. cbn [mbind result_bind]. intros [= <- <-] Hs.
  pose proof (checkers_keep s e a f Ee Hs Eb) as Hk. cbn [leaves].
  change ["!"%char] with (B "!"). clear -Hk. destruct (HasPrefix subject "!"); [|done].
  intros w b w'. unfold negate_check. destruct (f w) as [[b1 w1]| |] eqn:E; try done.
  intros [= _ <-]. by eapply Hk.
Qed.

Lemma leaves_list P l : Forall (leaves P) l -> leaves P (CheckMatchSingle l) /\ leaves P (CheckMatchAll l).
Proof. induction 1 as [|c l Hc _ IH]; [done|]. cbn [leaves] in *. tauto. Qed.

Lemma parseOn_keeps line c isResp :
  parseOn line = Ok (c, isResp) -> existsb alt_form (alternatives line) = false -> leaves keeps_req c.
Proof.
  unfold parseOn. change (parseOn_fuel 2 line) with
    (if (1 <? length (splitPipe line))%nat
     then '(cs, isResp, errs) ← parse_ors (parseOn_fuel 1) (splitPipe line);
          match errs with [] => Ok (CheckMatchSingle cs, isResp) | e :: _ => Err e end
     else parseOn_single line).
  unfold alternatives. destruct (1 <? length (splitPipe line))%nat eqn:El.
  - rewrite parse_ors_single by done.
    destruct (parse_ors _ _) as [[[cs r] es]| |] eqn:Eo; simpl; try done.
    destruct es; [|done]. intros [= <- <-] Hf. apply parse_ors_ok in Eo as (rs & H2 & _). apply leaves_list.
    clear El. revert Hf. induction H2 as [|c or cs ors [b Hb] _ IH]; intros Hf; [constructor|].
    cbn [existsb] in Hf. apply orb_false_iff in Hf as [Hf1 Hf2]. constructor; [|by apply IH].
    by eapply parseOn_single_keeps.
  - intros Hl Hf. cbn [existsb] in Hf. rewrite orb_false_r in Hf. by eapply parseOn_single_keeps.
Qed.

Lemma parse_rules_keep rules cs isResp :
  parse_rules rules = Ok (cs, isResp, []) ->
  existsb (fun line => existsb alt_form (alternatives line)) rules = false -> Forall (leaves keeps_req) cs.
Proof.
  revert cs isResp. induction rules as [|line rules IH]; intros cs isResp; cbn [parse_rules existsb].
  { by intros [= <- <-]. }
  intros Hp [Hf1 Hf2]%orb_false_iff. destruct line as [|b line]; [by eapply IH|].
  destruct (parseOn (b :: line)) as [[c r]|e|p] eqn:E; [| |done].
  - destruct (parse_rules rules) as [[[cs' r'] es]| |]; simpl in Hp; try done.
    simplify_eq. constructor; [by eapply parseOn_keeps|by eapply IH].
  - by destruct (parse_rules rules) as [[[cs' r'] es]| |].
Qed.

(** What the checker of a condition without a test of a form is made of. *)
Lemma RuleOn_leaves v on c :
  RuleOn_Parse v = Ok (on, []) -> uses_form v = false -> on_checker on = Some c -> leaves keeps_req c.
Proof.
  unfold RuleOn_Parse. rewrite splitAnd_eq.
  destruct (parse_rules (splitAnd_ref v)) as [[[cs r] es]| |] eqn:E; simpl; try done.
  intros [= <- ->] Hf. cbn [on_checker]. intros [= <-].
  pose proof (parse_rules_keep _ _ _ E Hf) as Hl. by apply leaves_list in Hl as [_ Hl].
Qed.

Lemma RuleOn_Check_keeps v on w b w' :
  RuleOn_Parse v = Ok (on, []) -> uses_form v = false -> RuleOn_Check on w = Ok (b, w') -> req w' = req w.
Proof.
  intros Hp Hf. unfold RuleOn_Check. destruct (on_checker on) as [c|] eqn:Ec; [|done].
  apply Check_keeps. by eapply RuleOn_leaves.
Qed.

(** C1: a condition that parses without errors means what its text says: every
    line (separated by '&' or newlines) must hold, a line holds when one of
    its alternatives (separated by '|') holds, and an alternative is the named
    check on the request, possibly negated.  The check never panics, and the
    per-request cache it fills is invisible. *)
Theorem RuleOn_Check_meaning v on w :
  RuleOn_Parse v = Ok (on, []) -> world_ok w ->
  (uses_basic_auth v = true -> has_auth (view_of w)) ->
  exists w', RuleOn_Check on w = Ok (on_meaning v (view_of w), w') /\ world_ok w'
             /\ view_of w' = view_of w.
Proof. intros Hp Hw Ha. destruct (RuleOn_Check_spec v on w Hp Hw Ha) as (w' & ? & []). eauto. Qed.

(** a condition is scheduled after the upstream exactly when one of its
    alternatives reads the response ([resp_header] or [status]). *)
Theorem RuleOn_response v on :
  RuleOn_Parse v = Ok (on, []) ->
  on_isResponseChecker on = existsb line_response (splitAnd_ref v).
Proof. intros Hp. apply (RuleOn_response_spec v on Hp). Qed.
End On.

(** ** A concrete library, for examples *)

(** Requests with empty forms and without escapes in queries: enough to run
    the definitions.  The body of a form is read to its end. *)
Definition read_body (r : Request) : option bytes :=
  if bool_decide (r_Method r = B "POST") then (fun _ => []) <$> r_Body r else r_Body r.

#[export] Instance plain_http : HTTPLib := {|
  url_Query q := list_to_map (map (fun kv => let '(k, v, _) := Cut kv "=" in (k, [v])) (Split q "&"));
  url_Encode vs := Join (map (fun kv => kv.1 ++ "=" ++ Join kv.2 ",") (map_to_list vs)) "&";
  url_String u := u_Scheme u ++ "://" ++ u_Host u ++ u_Path u;
  url_EscapedPath := u_Path;
  url_RequestURI := u_Path;
  url_Hostname u := (Cut (u_Host u) ":").1.1;
  url_Port u := (Cut (u_Host u) ":").1.2;
  req_Cookies h := [];
  cookie_String c := ck_Name c ++ "=" ++ ck_Value c;
  req_BasicAuth h := match h !! B "Authorization" with
                     | Some [a] => Some (Cut a ":").1
                     | _ => None
                     end;
  parse_multipart_form r := ({| f_Form := Some ∅; f_PostForm := Some ∅; f_Multipart := false |}, read_body r);
  parse_form r := ({| f_Form := Some ∅; f_PostForm := Some ∅; f_Multipart := false |}, read_body r, true)
|}.

#[export] Instance plain_http_laws : HTTPLibLaws.
Proof.
  constructor. intros r. cbn. f_equal. unfold read_body. cbn. case_bool_decide; [|done]. by destruct (r_Body r).
Qed.

#[export] Instance plain_rules : RuleLib := {|
  LookupEnv _ := None;
  glob_Compile p := Some (fun s => match IndexByte p "*" with
                                   | Some i => HasPrefix s (take i p)
                                   | None => bool_decide (s = p)
                                   end);
  regexp_Compile _ := None;
  bcrypt_Compare h p := bool_decide (h = p);
  IsMethodValid m := existsb (fun x => bool_decide (x = m)) [B "GET"; B "POST"; B "PUT"];
  IsStatusCodeValid c := within 100 599 c;
  unicode_ToLower r := r;
  unicode_ToUpper r := r
|}.

Definition example_request (method path : bytes) (h : Values) : Request :=
  {| r_Method := method;
     r_URL := {| u_Scheme := []; u_Host := []; u_Path := path; u_RawPath := []; u_RawQuery := [];
                 u_Fragment := [] |};
     r_Host := "example.com"; r_Header := h; r_RemoteAddr := "10.0.0.7:1234"; r_RequestURI := path;
     r_ContentLength := 0; r_TLS := true; r_Body := None;
     r_forms := {| f_Form := None; f_PostForm := None; f_Multipart := false |};
     r_route := None |}.

Definition example_world (method path : bytes) (h : Values) : world :=
  World (example_request method path h) NewResponseModifier
    {| w_Header := ∅; w_sent := None; w_body := [] |} [].

Definition example_on : bytes :=
  "path glob(/api/*) | header X-Api
   & !method GET & remote 10.0.0.0/8 & host example.com".

Definition parsed_example_on : RuleOn :=
  match RuleOn_Parse example_on with
  | Ok (on, _) => on
  | _ => {| on_raw := []; on_checker := None; on_isResponseChecker := false |}
  end.

Example parsed_example_ok : RuleOn_Parse example_on = Ok (parsed_example_on, []).
Proof. reflexivity. Qed.

Lemma example_world_ok method path h : world_ok (example_world method path h).
Proof. by intros c. Qed.

Lemma RuleOn_Check_meaning_witness :
  exists w', RuleOn_Check parsed_example_on (example_world "POST" "/api/x" ∅) = Ok (true, w')
             /\ world_ok w'.
Proof.
  destruct (RuleOn_Check_meaning example_on parsed_example_on (example_world "POST" "/api/x" ∅))
    as (w' & E & Hw & _); [reflexivity | apply example_world_ok | vm_compute; discriminate |].
  exists w'. split; [|exact Hw]. rewrite E. reflexivity.
Defined.

Lemma RuleOn_response_witness :
  match RuleOn_Parse "path /x & status 5xx" with
  | Ok (on, []) => on_isResponseChecker on = true
  | _ => False
  end.
Proof.
  assert (Hok : match RuleOn_Parse "path /x & status 5xx" with Ok (_, []) => true | _ => false end = true)
    by (vm_compute; reflexivity).
  destruct (RuleOn_Parse "path /x & status 5xx") as [[on [|]]| |] eqn:E; try discriminate Hok.
  rewrite (RuleOn_response _ _ E). vm_compute. reflexivity.
Defined.

(** Two [basic_auth] checks on one request without credentials panic: the
    first stores a nil interface in the cache, the second asserts it to be a
    credential. *)
Theorem basic_auth_twice_panics `{HTTPLib} hc1 hc2 f1 f2 w :
  builder_basic_auth (AHashed hc1) = Ok f1 -> builder_basic_auth (AHashed hc2) = Ok f2 ->
  req_BasicAuth (r_Header (req w)) = None -> rm_shared (rm w) = None ->
  Check (CheckMatchSingle [CheckFunc f1; CheckFunc f2]) w = Panic NilInterfaceConversion.
Proof.
  intros [= <-] [= <-] Ha Hs. simpl. unfold GetBasicAuth, GetSharedData.
  rewrite Hs. simpl. rewrite Ha. done.
Qed.

Lemma basic_auth_twice_panics_witness :
  match RuleOn_Parse "basic_auth a x | basic_auth b y" with
  | Ok (on, []) => RuleOn_Check on (example_world "GET" "/" ∅) = Panic NilInterfaceConversion
  | _ => False
  end /\
  Check (CheckMatchSingle
    [CheckFunc (fun w => '(c, w) ← GetBasicAuth w; Ok (HashedCrendentials_Match (BCryptCrendentials "a" "x") c, w));
     CheckFunc (fun w => '(c, w) ← GetBasicAuth w; Ok (HashedCrendentials_Match (BCryptCrendentials "b" "y") c, w))])
    (example_world "GET" "/" ∅) = Panic NilInterfaceConversion.
Proof.
  split; [vm_compute; reflexivity|].
  by apply (basic_auth_twice_panics (BCryptCrendentials "a" "x") (BCryptCrendentials "b" "y")).
Defined.

(** *** Matcher expressions *)

Lemma LastIndexByte_last s c : LastIndexByte (s ++ [c]) c = Some (length s).
Proof. induction s as [|b s IH]; simpl; [by rewrite Ascii.eqb_refl|]. by rewrite IH. Qed.

Lemma slice_mid {a b c : bytes} i j :
  i = Z.of_nat (length a) -> j = Z.of_nat (length a + length b) ->
  slice (a ++ b ++ c) i j = Ok b.
Proof.
  intros -> ->. unfold slice. rewrite !length_app.
  rewrite !(proj2 (Z.leb_le _ _)) by lia. simpl. f_equal.
  rewrite Nat2Z.id, drop_app_length.
  replace (Z.to_nat _) with (length b) by lia. by rewrite take_app_length.
Qed.

Definition matcher_name (t : MatcherType) : bytes :=
  match t with MatcherTypeString => "string" | MatcherTypeGlob => "glob" | MatcherTypeRegex => "regex" end.

(** [ExtractExpr] recovers the expression of "glob(...)", "regex(...)" and
    "string(...)" whatever brackets it holds, as long as it does not start
    with a quote. *)
Theorem ExtractExpr_roundtrip `{RuleLib} t c e :
  is_quote (byteZ c) = false ->
  ExtractExpr (matcher_name t ++ "(" ++ (c :: e) ++ ")") = Ok (t, c :: e).
Proof.
  intros Hc. unfold ExtractExpr.
  replace (IndexByte _ "(") with (Some (length (matcher_name t))).
  2:{ symmetry. apply IndexByte_first. rewrite list_elem_of_In.
      destruct t; vm_compute; intuition discriminate. }
  replace (LastIndexByte _ ")") with (Some (length (matcher_name t ++ "(" ++ c :: e))).
  2:{ rewrite <- (LastIndexByte_last _ ")"%char). f_equal. by rewrite <- !app_assoc. }
  rewrite app_assoc, (slice_mid (a := matcher_name t ++ "(")).
  - rewrite <- app_assoc, take_app_length. cbn [mbind result_bind].
    assert (Hu : unquoteExpr (c :: e) = Ok (c :: e)) by (cbn [unquoteExpr]; by rewrite Hc).
    rewrite Hu. by destruct t.
  - rewrite length_app. simpl. lia.
  - rewrite app_assoc, !length_app. done.
Qed.

Lemma ExtractExpr_roundtrip_witness :
  ExtractExpr "regex((a|b)+)" = Ok (MatcherTypeRegex, B "(a|b)+").
Proof. apply (ExtractExpr_roundtrip MatcherTypeRegex "(" "a|b)+"). reflexivity. Defined.

(** An expression that is a single quote character, as in glob('),
    crashes the configuration parser instead of being reported: the slice
    expression [s[1 : len(s)-1]] is out of range. *)
Theorem ParseMatcher_lone_quote_panics `{RuleLib} t q :
  is_quote (byteZ q) = true -> "("%char ∉ t -> HasPrefix (t ++ "(" ++ [q] ++ ")") "!" = false ->
  ParseMatcher (t ++ "(" ++ [q] ++ ")") = Panic SliceOutOfBounds.
Proof.
  intros Hq Ht Hn. unfold ParseMatcher. rewrite Hn. unfold ExtractExpr.
  replace (IndexByte _ "(") with (Some (length t)) by (symmetry; by apply IndexByte_first).
  replace (LastIndexByte _ ")") with (Some (length (t ++ "(" ++ [q]))).
  2:{ rewrite <- (LastIndexByte_last _ ")"%char). f_equal. by rewrite <- !app_assoc. }
  rewrite app_assoc, (slice_mid (a := t ++ "(")).
  - assert (Hu : unquoteExpr [q] = Panic SliceOutOfBounds).
    { unfold unquoteExpr. rewrite Hq. by rewrite bool_decide_eq_true_2. }
    cbn [mbind result_bind]. by rewrite Hu.
  - rewrite length_app. simpl. lia.
  - rewrite app_assoc, !length_app. done.
Qed.

Lemma ParseMatcher_lone_quote_panics_witness :
  ParseMatcher "glob(')" = Panic SliceOutOfBounds
  /\ RuleOn_Parse "path glob(')" = Panic SliceOutOfBounds.
Proof.
  split; [|vm_compute; reflexivity].
  apply (ParseMatcher_lone_quote_panics "glob" "'"); [reflexivity| |reflexivity].
  rewrite list_elem_of_In. vm_compute. intuition discriminate.
Defined.
