(* ===== verification/RulesVars.v ===== *)
(** * Templates: variable expansion

    Models internal/route/rules/vars.go, vars_static.go, vars_dynamic.go and
    template.go: [$name], [$name(args)], [$$] and [${...}] in the arguments of
    commands.  The destination writer is a buffer filled by the end of the
    call (goutils' [BufferedWriter] is closed on return); its errors are those
    of the connection or file behind it and are not modelled. *)

From S2P Require Import Prelude GoStrings NetAddr RulesParser RulesHTTP RulesOn.

(** ** Definitions *)

Definition is_letter (c : ascii) : bool := is_lower c || is_upper c.

(** [validVarNameCharset]. *)
Definition validVarNameCharset (c : ascii) : bool := is_letter c || Ascii.eqb c "_".

(** [NeedExpandVars]: the regular expression [\$[\w_]+] matches somewhere. *)
Definition word_char (c : ascii) : bool := is_letter c || is_digit c || Ascii.eqb c "_".

Fixpoint NeedExpandVars (s : bytes) : bool :=
  match s with
  | c :: ((d :: _) as s') => (Ascii.eqb c "$" && word_char d) || NeedExpandVars s'
  | _ => false
  end.

(** [stripFragment]. *)
Definition stripFragment (s : bytes) : bytes := (Cut s "#").1.1.

(** [getKeyAndIndex]. *)
Definition getKeyAndIndex (args : list bytes) : result rule_error (bytes * Z) :=
  match args with
  | [] => Err EExpectNoArg
  | [k] => Ok (k, 0)
  | [k; i] => match Atoi i with Some n => Ok (k, n) | None => Err EInvalidArguments end
  | _ => Err EExpectOneOrTwoArgs
  end.

(** [getValueByKeyAtIndex]: indexing with a negative number panics. *)
Definition getValueByKeyAtIndex (values : Values) (key : bytes) (index : Z) : result rule_error bytes :=
  match values !! key with
  | Some vs =>
      if index <? Z.of_nat (length vs) then
        if index <? 0 then Panic IndexOutOfRange
        else Ok (stripFragment (default [] (vs !! Z.to_nat index)))
      else Ok []
  | None => Ok []
  end.

Section Vars.

Context `{HL : HTTPLib} `{RL : RuleLib}.

(** A getter of [dynamicVarSubsMap]: [vals] reads the map, after [prep]
    (parsing the form) succeeded. *)
Definition dynamicVarGetter := list bytes -> world -> result rule_error bytes * world.

Definition key_getter (vals : world -> result rule_error Values * world) : dynamicVarGetter :=
  fun args w =>
    match getKeyAndIndex args with
    | Ok (key, index) =>
        let '(r, w) := vals w in
        (vs ← r; getValueByKeyAtIndex vs key index, w)
    | Err e => (Err e, w)
    | Panic p => (Panic p, w)
    end.

(** [if req.Form == nil { req.ParseForm() }]. *)
Definition ensure_form (w : world) : result rule_error unit * world :=
  match f_Form (r_forms (req w)) with
  | Some _ => (Ok tt, w)
  | None =>
      let '(fb, ok) := parse_form (req w) in
      (if ok : bool then Ok tt else Err EParseForm, with_req (set_forms fb) w)
  end.

Definition form_values (sel : forms -> option Values) (w : world) : result rule_error Values * world :=
  let '(r, w) := ensure_form w in
  (_ ← r; Ok (default ∅ (sel (r_forms (req w)))), w).

Definition dynamicVarSubsMap (name : bytes) : option dynamicVarGetter :=
  if bool_decide (name = B "header") then Some (key_getter (fun w => (Ok (r_Header (req w)), w)))
  else if bool_decide (name = B "resp_header") then Some (key_getter (fun w => (Ok (w_Header (out w)), w)))
  else if bool_decide (name = B "arg") then
    Some (key_getter (fun w => let '(q, w) := GetQueries w in (Ok q, w)))
  else if bool_decide (name = B "form") then Some (key_getter (form_values f_Form))
  else if bool_decide (name = B "postform") then Some (key_getter (form_values f_PostForm))
  else None.

Definition staticReqVarSubsMap (name : bytes) : option (Request -> bytes) :=
  if bool_decide (name = B "req_method") then Some r_Method
  else if bool_decide (name = B "req_scheme") then Some (fun r => if r_TLS r then B "https" else B "http")
  else if bool_decide (name = B "req_host") then
    Some (fun r => match SplitHostPort (r_Host r) with Some (h, _) => h | None => r_Host r end)
  else if bool_decide (name = B "req_port") then
    Some (fun r => match SplitHostPort (r_Host r) with Some (_, p) => p | None => [] end)
  else if bool_decide (name = B "req_addr") then Some r_Host
  else if bool_decide (name = B "req_path") then Some (fun r => u_Path (r_URL r))
  else if bool_decide (name = B "req_query") then Some (fun r => stripFragment (u_RawQuery (r_URL r)))
  else if bool_decide (name = B "req_url") then Some (fun r => url_String (r_URL r))
  else if bool_decide (name = B "req_uri") then Some (fun r => stripFragment (url_RequestURI (r_URL r)))
  else if bool_decide (name = B "req_content_type") then Some (fun r => hget (r_Header r) "Content-Type")
  else if bool_decide (name = B "req_content_length") then Some (fun r => Itoa (r_ContentLength r))
  else if bool_decide (name = B "remote_host") then
    Some (fun r => match SplitHostPort (r_RemoteAddr r) with Some (h, _) => h | None => [] end)
  else if bool_decide (name = B "remote_port") then
    Some (fun r => match SplitHostPort (r_RemoteAddr r) with Some (_, p) => p | None => [] end)
  else if bool_decide (name = B "remote_addr") then Some r_RemoteAddr
  else if bool_decide (name = B "upstream_name") then Some TryGetUpstreamName
  else if bool_decide (name = B "upstream_scheme") then Some TryGetUpstreamScheme
  else if bool_decide (name = B "upstream_host") then Some TryGetUpstreamHost
  else if bool_decide (name = B "upstream_port") then Some TryGetUpstreamPort
  else if bool_decide (name = B "upstream_addr") then Some TryGetUpstreamAddr
  else if bool_decide (name = B "upstream_url") then Some TryGetUpstreamURL
  else None.

Definition staticRespVarSubsMap (name : bytes) : option (world -> bytes) :=
  if bool_decide (name = B "resp_content_type") then Some (fun w => hget (w_Header (out w)) "Content-Type")
  else if bool_decide (name = B "resp_content_length") then Some (fun w => Itoa (ContentLength (rm w)))
  else if bool_decide (name = B "status_code") then Some (fun w => Itoa (StatusCode (rm w)))
  else None.

(** The loop of [extractArgs] after the opening parenthesis; [None] for
    [quote] is the byte 0.  The result holds the arguments and what follows
    the closing parenthesis. *)
Fixpoint extract_loop (s : bytes) (quote : option ascii) (arg : bytes) (args : list bytes)
    : result rule_error (list bytes * bytes) :=
  match s with
  | [] => match quote with Some _ => Err EUnterminatedQuotes | None => Err EUnterminatedParenthesis end
  | ch :: s' =>
      match quote with
      | Some q =>
          if Ascii.eqb ch q then extract_loop s' None [] (args ++ [arg])
          else extract_loop s' quote (arg ++ [ch]) args
      | None =>
          if (byteZ ch =? 34) || (byteZ ch =? 39) || (byteZ ch =? 96) then extract_loop s' (Some ch) arg args
          else if Ascii.eqb ch ")" then
            Ok (match arg with [] => args | _ => args ++ [arg] end, s')
          else if Ascii.eqb ch "," then
            match arg with
            | [] => extract_loop s' None [] args
            | _ => extract_loop s' None [] (args ++ [arg])
            end
          else if (byteZ ch =? 32) || (byteZ ch =? 9) || (byteZ ch =? 10) || (byteZ ch =? 13) then
            extract_loop s' None arg args
          else extract_loop s' None (arg ++ [ch]) args
      end
  end.

(** [extractArgs(src, j, name)] on [src[j:]]. *)
Definition extractArgs (s : bytes) : result rule_error (list bytes * bytes) :=
  match IndexByte s "(" with
  | None => Err EUnterminatedParenthesis
  | Some i => extract_loop (drop (S i) s) None [] []
  end.

Fixpoint span_name (s : bytes) : bytes * bytes :=
  match s with
  | c :: s' =>
      if validVarNameCharset c then let '(n, r) := span_name s' in (c :: n, r) else ([], s)
  | [] => ([], [])
  end.

(** What a call of [ExpandVars] leaves: the bytes written, the state and the
    error (nil is [None]). *)
Record expansion := Expansion {
  x_out : bytes;
  x_world : world;
  x_err : option rule_error
}.

(** One construct after '$' ([src] is what follows it): the text to write, the
    rest of the source and the state; or the error of [ExpandVars]. *)
Definition expand_var (src : bytes) (w : world) : result rule_error (bytes * bytes) * world :=
  match src with
  | [] => (Err EUnterminatedEnvVar, w)
  | c :: src' =>
      if Ascii.eqb c "$" then (Ok (B "$", src'), w)
      else if Ascii.eqb c "{" then (Ok (B "${", src'), w)
      else if validVarNameCharset c then
        let '(name, after) := span_name src in
        match dynamicVarSubsMap name with
        | Some getter =>
            match extractArgs src with
            | Ok (args, next) => let '(r, w) := getter args w in (v ← r; Ok (v, next), w)
            | Err e => (Err e, w)
            | Panic p => (Panic p, w)
            end
        | None =>
            match staticReqVarSubsMap name with
            | Some getter => (Ok (getter (req w), after), w)
            | None =>
                match staticRespVarSubsMap name with
                | Some getter => (Ok (getter w, after), w)
                | None => (Err EUnexpectedVar, w)
                end
            end
        end
      else (Err EUnterminatedEnvVar, w)
  end.

(** The loop of [ExpandVars].  Every iteration consumes source, so
    [S (length src)] is enough fuel. *)
Fixpoint expand (fuel : nat) (src : bytes) (w : world) (dst : bytes) : result rule_error expansion :=
  match fuel with
  | O => Panic ExplicitPanic
  | S fuel' =>
      match src with
      | [] => Ok (Expansion dst w None)
      | ch :: src' =>
          if Ascii.eqb ch "$" then
            match expand_var src' w with
            | (Ok (v, next), w) => expand fuel' next w (dst ++ v)
            | (Err e, w) => Ok (Expansion dst w (Some e))
            | (Panic p, _) => Panic p
            end
          else expand fuel' src' w (dst ++ [ch])
      end
  end.

Definition ExpandVars (w : world) (src : bytes) : result rule_error expansion :=
  expand (S (length src)) src w [].

(** [dummyRequest] with [voidResponseModifier]. *)
Definition dummyRequest : Request :=
  {| r_Method := "GET";
     r_URL := {| u_Scheme := []; u_Host := []; u_Path := "/"; u_RawPath := []; u_RawQuery := [];
                 u_Fragment := [] |};
     r_Host := []; r_Header := ∅; r_RemoteAddr := []; r_RequestURI := []; r_ContentLength := 0;
     r_TLS := false; r_Body := None;
     r_forms := {| f_Form := None; f_PostForm := None; f_Multipart := false |}; r_route := None |}.

Definition dummy_world : world :=
  World dummyRequest NewResponseModifier {| w_Header := ∅; w_sent := None; w_body := [] |} [].

(** [ValidateVars]: the error of an expansion against the dummy request. *)
Definition ValidateVars (s : bytes) : result rule_error (option rule_error) :=
  x ← ExpandVars dummy_world s; Ok (x_err x).

(** *** template.go and [validateTemplate] *)

Record templateString := { tmpl_string : bytes; isTemplate : bool }.

Definition newline : ascii := zbyte 10.

Definition validateTemplate (tmplStr : bytes) (nl : bool) : result rule_error templateString :=
  let tmplStr := if nl && negb (HasSuffix tmplStr [newline]) then tmplStr ++ [newline] else tmplStr in
  if negb (NeedExpandVars tmplStr) then Ok {| tmpl_string := tmplStr; isTemplate := false |}
  else
    e ← ValidateVars tmplStr;
    match e with
    | Some e => Err e
    | None => Ok {| tmpl_string := tmplStr; isTemplate := true |}
    end.

(** [templateString.ExpandVars]: what is written, the state, the error. *)
Definition tmpl_ExpandVars (t : templateString) (w : world) : result rule_error expansion :=
  if negb (isTemplate t) then Ok (Expansion (tmpl_string t) w None)
  else ExpandVars w (tmpl_string t).

(** [templateString.ExpandVarsToString]. *)
Definition ExpandVarsToString (t : templateString) (w : world) : result rule_error (result rule_error bytes * world) :=
  if negb (isTemplate t) then Ok (Ok (tmpl_string t), w)
  else
    x ← ExpandVars w (tmpl_string t);
    Ok (match x_err x with Some e => Err e | None => Ok (x_out x) end, x_world x).

End Vars.

Example ExpandVars_ex :
  x_out <$> ExpandVars (example_world "GET" "/a" {[ B "X" := [B "1"; B "2#f"] ]})
    "$req_method $req_path cost $$5 ${K} $header(X, 1)!"
  = Ok (B "GET /a cost $5 ${K} 2!").
Proof. vm_compute. reflexivity. Qed.

(** ** Lemmas *)

(** *** Escaping *)

Definition escape_dollar (s : bytes) : bytes :=
  concat (map (fun c => if Ascii.eqb c "$" then B "$$" else [c]) s).

Section Lemmas.

Context `{HL : HTTPLib} `{RL : RuleLib}.

Lemma escape_dollar_cons c s :
  escape_dollar (c :: s) = (if Ascii.eqb c "$" then B "$$" else [c]) ++ escape_dollar s.
Proof. done. Qed.

Lemma expand_escape s : forall fuel w dst,
  (length (escape_dollar s) < fuel)%nat ->
  expand fuel (escape_dollar s) w dst = Ok (Expansion (dst ++ s) w None).
Proof.
  induction s as [|c s IH]; intros fuel w dst Hf; (destruct fuel as [|fuel]; [lia|]).
  - simpl. by rewrite app_nil_r.
  - rewrite escape_dollar_cons in *. rewrite length_app in Hf.
    destruct (Ascii.eqb_spec c "$") as [->|Hc].
    + change (B "$$" ++ escape_dollar s) with ("$"%char :: "$"%char :: escape_dollar s).
      change (length (B "$$")) with 2%nat in Hf.
      cbn [expand expand_var].
      change (Ascii.eqb "$" "$") with true. cbv iota beta.
      rewrite IH by lia. by rewrite <- app_assoc.
    + cbn [app expand length] in *. rewrite (proj2 (Ascii.eqb_neq _ _) Hc).
      rewrite IH by lia. by rewrite <- app_assoc.
Qed.

(** doubling every '$' of a text makes it a template that expands to the
    text itself, whatever the request. *)
Theorem ExpandVars_escape w s :
  ExpandVars w (escape_dollar s) = Ok (Expansion s w None).
Proof. unfold ExpandVars. by rewrite expand_escape by lia. Qed.

(** *** What a template can fail with *)

(** The static part of [expand_var]: where the source continues, or the error
    it gives on every request. *)
Definition parse_var (src : bytes) : result rule_error bytes :=
  match src with
  | [] => Err EUnterminatedEnvVar
  | c :: src' =>
      if Ascii.eqb c "$" || Ascii.eqb c "{" then Ok src'
      else if validVarNameCharset c then
        let '(name, after) := span_name src in
        match dynamicVarSubsMap name with
        | Some _ =>
            '(args, next) ← extractArgs src;
            _ ← getKeyAndIndex args;
            Ok next
        | None =>
            match staticReqVarSubsMap name, staticRespVarSubsMap name with
            | None, None => Err EUnexpectedVar
            | _, _ => Ok after
            end
        end
      else Err EUnterminatedEnvVar
  end.

Definition nonneg (s : bytes) : Prop := "-"%char ∉ s.

(** Arguments are made of bytes of the source, and the rest is a suffix. *)
Lemma extract_loop_spec s : forall quote arg args r next,
  extract_loop s quote arg args = Ok (r, next) ->
  (length next < length s)%nat /\ (nonneg s -> nonneg next)
  /\ (nonneg s -> nonneg arg -> Forall nonneg args -> Forall nonneg r).
Proof.
  unfold nonneg. induction s as [|ch s IH]; intros quote arg args r next; [by destruct quote|].
  cbn [extract_loop]. rewrite not_elem_of_cons.
  assert (Hrec : forall quote' arg' args',
    extract_loop s quote' arg' args' = Ok (r, next) ->
    ("-"%char <> ch -> "-"%char ∉ arg -> "-"%char ∉ arg') ->
    ("-"%char ∉ arg -> Forall (fun s => "-"%char ∉ s) args -> Forall (fun s => "-"%char ∉ s) args') ->
    (length next < length (ch :: s))%nat /\ ("-"%char <> ch /\ "-"%char ∉ s -> "-"%char ∉ next)
    /\ ("-"%char <> ch /\ "-"%char ∉ s -> "-"%char ∉ arg ->
        Forall (fun s => "-"%char ∉ s) args -> Forall (fun s => "-"%char ∉ s) r)).
  { intros q' a' as' Hl Ha Has. apply IH in Hl as (H1 & H2 & H3). simpl.
    split; [lia|]. split; [tauto|]. intros [? ?] ? ?. apply H3; auto. }
  assert (Hnil : "-"%char ∉ ([] : bytes)) by apply not_elem_of_nil.
  assert (Hsnoc : "-"%char <> ch -> "-"%char ∉ arg -> "-"%char ∉ arg ++ [ch]).
  { intros ? ?. rewrite not_elem_of_app, list_elem_of_singleton. auto. }
  assert (Happ : "-"%char ∉ arg -> Forall (fun s => "-"%char ∉ s) args ->
    Forall (fun s => "-"%char ∉ s) (args ++ [arg])).
  { intros ? ?. apply Forall_app; auto. }
  destruct quote; repeat case_match; intros Hl;
    try (by eapply Hrec; [exact Hl| |]; auto);
    simplify_eq; (split; [simpl; lia|]); (split; [tauto|]); auto.
Qed.

Lemma extractArgs_spec s args next :
  extractArgs s = Ok (args, next) ->
  (length next < length s)%nat /\ (nonneg s -> nonneg next /\ Forall nonneg args).
Proof.
  unfold extractArgs. destruct (IndexByte s "(") as [i|]; [|done]. intros Hl.
  apply extract_loop_spec in Hl as (H1 & H2 & H3). rewrite length_drop in H1.
  split; [lia|]. intros Hs.
  assert (Hd : nonneg (drop (S i) s)).
  { intros Hin. apply Hs. rewrite <- (take_drop (S i) s). apply elem_of_app. by right. }
  split; [auto|]. apply H3; [done| |done]. apply not_elem_of_nil.
Qed.

Lemma span_name_spec s n r : span_name s = (n, r) -> s = n ++ r.
Proof.
  revert n r. induction s as [|c s IH]; intros n r; simpl; [by intros [= <- <-]|].
  destruct (validVarNameCharset c); [|by intros [= <- <-]].
  destruct (span_name s) as [n' r'] eqn:E. intros [= <- <-]. simpl. f_equal. by apply IH.
Qed.

Lemma parse_var_shorter src next : parse_var src = Ok next -> (length next < length src)%nat.
Proof.
  unfold parse_var. destruct src as [|c src]; [done|].
  destruct (_ || _); [intros [= <-]; simpl; lia|].
  destruct (validVarNameCharset c) eqn:Ec; [|done].
  destruct (span_name (c :: src)) as [name after] eqn:E.
  assert (Ha : (length after < length (c :: src))%nat).
  { pose proof (span_name_spec _ _ _ E) as Hs. simpl in E. rewrite Ec in E.
    destruct (span_name src). injection E as <- <-. rewrite Hs, length_app. simpl. lia. }
  destruct (dynamicVarSubsMap name).
  - destruct (extractArgs (c :: src)) as [[args nx]| |] eqn:Ea; simpl; try done.
    apply extractArgs_spec in Ea as [? _]. destruct (getKeyAndIndex args); simpl; try done.
    intros [= <-]. done.
  - repeat case_match; intros [=]; subst; done.
Qed.

(** The outcome of a getter whose arguments are well formed. *)
Definition getter_outcome (r : result rule_error bytes) (index : Z) : Prop :=
  match r with
  | Ok _ => True
  | Err e => e = EParseForm
  | Panic p => p = IndexOutOfRange /\ index < 0
  end.

Lemma getValue_outcome vs key index : getter_outcome (getValueByKeyAtIndex vs key index) index.
Proof.
  unfold getValueByKeyAtIndex. repeat case_match; simpl; try done.
  by reflect.
Qed.

Lemma key_getter_outcome vals args w :
  (forall w, match (vals w).1 with Ok _ => True | Err e => e = EParseForm | Panic _ => False end) ->
  match getKeyAndIndex args with
  | Ok (_, index) => getter_outcome (key_getter vals args w).1 index
  | Err e => key_getter vals args w = (Err e, w)
  | Panic _ => False
  end.
Proof.
  intros Hv. unfold key_getter.
  assert (Hp : is_Panic (getKeyAndIndex args) = false)
    by (unfold getKeyAndIndex; by repeat case_match).
  destruct (getKeyAndIndex args) as [[k i]| |]; [|done|done].
  specialize (Hv w). destruct (vals w) as [[vs|e|p] w']; simpl in *; [|done|done].
  apply getValue_outcome.
Qed.

Lemma form_values_outcome sel w :
  match (form_values sel w).1 with Ok _ => True | Err e => e = EParseForm | Panic _ => False end.
Proof.
  unfold form_values, ensure_form. destruct (f_Form _); [done|].
  destruct (parse_form (req w)) as [fb []]; done.
Qed.

Lemma dynamic_outcome name getter args w :
  dynamicVarSubsMap name = Some getter ->
  match getKeyAndIndex args with
  | Ok (_, index) => getter_outcome (getter args w).1 index
  | Err e => getter args w = (Err e, w)
  | Panic _ => False
  end.
Proof.
  unfold dynamicVarSubsMap.
  repeat match goal with |- (if ?b then _ else _) = _ -> _ => destruct b end;
    intros [= <-]; apply key_getter_outcome; intros w'; try done;
    try apply form_values_outcome.
  by destruct (GetQueries w').
Qed.

Lemma index_nonneg args k i :
  getKeyAndIndex args = Ok (k, i) -> Forall nonneg args -> 0 <= i.
Proof.
  unfold getKeyAndIndex. intros H Hn. repeat case_match; simplify_eq; [lia|].
  destruct (Z.lt_ge_cases i 0) as [Hi|]; [|done].
  exfalso. match goal with E : Atoi _ = Some _ |- _ => apply Atoi_negative in E; [|done] end.
  rewrite !Forall_cons in Hn. by apply Hn.
Qed.

(** A construct of the template: the static errors, and what else can happen
    on a request. *)
Lemma expand_var_spec src w :
  match parse_var src with
  | Ok next =>
      (nonneg src -> nonneg next) /\
      match (expand_var src w).1 with
      | Ok (_, next') => next' = next
      | Err e => e = EParseForm
      | Panic p => p = IndexOutOfRange /\ ~ nonneg src
      end
  | Err e => expand_var src w = (Err e, w)
  | Panic _ => False
  end.
Proof.
  unfold parse_var, expand_var. destruct src as [|c src]; [done|].
  assert (Htl : nonneg (c :: src) -> nonneg src).
  { intros Hs Hin. apply Hs. by right. }
  destruct (Ascii.eqb c "$"); [done|]. destruct (Ascii.eqb c "{"); [done|]. cbn [orb].
  destruct (validVarNameCharset c); [|done].
  destruct (span_name (c :: src)) as [name after] eqn:E. apply span_name_spec in E.
  assert (Haf : nonneg (c :: src) -> nonneg after).
  { intros Hs Hin. apply Hs. rewrite E. apply elem_of_app. by right. }
  destruct (dynamicVarSubsMap name) as [getter|] eqn:Ed.
  - destruct (extractArgs (c :: src)) as [[args nx]| |] eqn:Ea; simpl; [|done|].
    + apply extractArgs_spec in Ea as [_ Hn].
      pose proof (dynamic_outcome name getter args w Ed) as Ho.
      destruct (getKeyAndIndex args) as [[k i]| |] eqn:Ek; simpl; [|by rewrite Ho|done].
      split; [by intros [? _]%Hn|].
      destruct (getter args w) as [[v|e|p] w']; simpl in *; try done.
      destruct Ho as [-> Hi]. split; [done|]. intros [_ Hargs]%Hn.
      pose proof (index_nonneg _ _ _ Ek Hargs). lia.
    + revert Ea. unfold extractArgs. destruct (IndexByte _ _); [|done].
      clear. generalize (drop (S n) (c :: src)). intros s.
      generalize (@None ascii) ([] : bytes) ([] : list bytes).
      induction s as [|ch s IH]; intros q a l; simpl; [by destruct q|].
      repeat case_match; try done; try apply IH.
  - destruct (staticReqVarSubsMap name); [done|]. by destruct (staticRespVarSubsMap name).
Qed.

(** The error a template gives on every request, if any. *)
Fixpoint check_template (fuel : nat) (src : bytes) : option rule_error :=
  match fuel with
  | O => None
  | S fuel' =>
      match src with
      | [] => None
      | ch :: src' =>
          if Ascii.eqb ch "$" then
            match parse_var src' with
            | Ok next => check_template fuel' next
            | Err e => Some e
            | Panic _ => None
            end
          else check_template fuel' src'
      end
  end.

Lemma expand_spec fuel : forall src w dst,
  (length src < fuel)%nat ->
  match expand fuel src w dst with
  | Ok x => x_err x = check_template fuel src \/ x_err x = Some EParseForm
  | Err _ => False
  | Panic p => p = IndexOutOfRange /\ ~ nonneg src
  end.
Proof.
  induction fuel as [|fuel IH]; intros src w dst Hf; [lia|].
  destruct src as [|ch src]; cbn [expand check_template length] in *; [by left|].
  assert (Htl : ~ nonneg src -> ~ nonneg (ch :: src)).
  { intros Hs Hn. apply Hs. intros Hin. apply Hn. by right. }
  destruct (Ascii.eqb ch "$").
  - pose proof (expand_var_spec src w) as Hv.
    destruct (parse_var src) as [next|e|p] eqn:Ep; [| |done].
    + destruct Hv as [Hnn Hv]. apply parse_var_shorter in Ep.
      destruct (expand_var src w) as [[[v next']|e|p] w']; simpl in Hv.
      * subst. specialize (IH next w' (dst ++ v) ltac:(lia)).
        destruct (expand fuel _ _ _); [done|done|]. destruct IH as [-> Hn]. split; [done|].
        apply Htl. intros ?. by apply Hn, Hnn.
      * subst. by right.
      * destruct Hv as [-> Hn]. split; [done|]. by apply Htl.
    + rewrite Hv. by left.
  - specialize (IH src w (dst ++ [ch]) ltac:(lia)).
    destruct (expand fuel _ _ _); [done|done|]. destruct IH as [-> Hn]. split; [done|]. by apply Htl.
Qed.

(** a template accepted when the rules are loaded is expanded on every
    request: the only error left is a malformed form body, and there is no
    panic unless the template holds a '-' (a negative index). *)
Theorem ValidateVars_sound s w :
  ValidateVars s = Ok None -> nonneg s ->
  exists x, ExpandVars w s = Ok x /\ (x_err x = None \/ x_err x = Some EParseForm).
Proof.
  unfold ValidateVars, ExpandVars. intros Hd Hn.
  pose proof (expand_spec (S (length s)) s dummy_world [] ltac:(lia)) as Hdummy.
  pose proof (expand_spec (S (length s)) s w [] ltac:(lia)) as Hw.
  destruct (expand _ s dummy_world []) as [x| |]; simpl in Hd; try done. simplify_eq.
  destruct Hdummy as [Hc|]; [|congruence].
  destruct (expand _ s w []) as [x'| |]; [|done|].
  - exists x'. split; [done|]. destruct Hw as [Hw|Hw]; [left; congruence|by right].
  - by destruct Hw as [_ []].
Qed.
End Lemmas.

Lemma ValidateVars_sound_witness :
  exists x, ExpandVars (example_world "GET" "/a" ∅) "$req_method $header(X, 1)" = Ok x
            /\ (x_err x = None \/ x_err x = Some EParseForm).
Proof.
  apply ValidateVars_sound; [vm_compute; reflexivity|].
  unfold nonneg. rewrite list_elem_of_In. vm_compute. intuition discriminate.
Defined.

(** A negative index passes validation and panics on every request that
    carries the header. *)
Theorem negative_index_panics `{HTTPLib} `{RuleLib} w vs :
  r_Header (req w) !! B "X" = Some vs ->
  ValidateVars "$header(X, -1)" = Ok None
  /\ ExpandVars w "$header(X, -1)" = Panic IndexOutOfRange.
Proof.
  intros Hh. split; [reflexivity|].
  assert (Hv : expand_var "header(X, -1)" w = (Panic IndexOutOfRange, w)).
  { assert (Hx : expand_var "header(X, -1)" w =
      let '(r, w) := key_getter (fun w => (Ok (r_Header (req w)), w)) [B "X"; B "-1"] w in
      (v ← r; Ok (v, []), w)) by reflexivity.
    rewrite Hx. unfold key_getter.
    change (getKeyAndIndex [B "X"; B "-1"]) with (Ok (B "X", -1) : result rule_error (bytes * Z)).
    cbn [mbind result_bind]. unfold getValueByKeyAtIndex. rewrite Hh.
    by rewrite (proj2 (Z.ltb_lt _ _)) by lia. }
  unfold ExpandVars. change (B "$header(X, -1)") with ("$"%char :: B "header(X, -1)").
  cbn [expand]. change (Ascii.eqb "$" "$") with true. cbv iota. by rewrite Hv.
Qed.

Lemma negative_index_panics_witness :
  ExpandVars (example_world "GET" "/" {[ B "X" := [B "1"] ]}) "$header(X, -1)" = Panic IndexOutOfRange.
Proof.
  apply (negative_index_panics (example_world "GET" "/" {[ B "X" := [B "1"] ]}) [B "1"]).
  vm_compute. reflexivity.
Defined.
