(* ===== verification/RulesDo.v ===== *)
(** * Rule actions: commands and field modifiers

    Models internal/route/rules/command.go, do.go and do_set.go with the
    validators of validate.go they use: the table [commands], the table
    [modFields], [Command.Parse], [buildCmd] and [isBypass].  What happens
    outside the package (authentication, file serving, the reverse proxy,
    opening log files) is the class [DoLib]. *)

From S2P Require Import Prelude GoStrings NetAddr RulesParser RulesHTTP RulesOn RulesVars.

(** ** Handlers (command.go) *)

(** The [error] a handler returns: the sentinel [errTerminated], an error of
    the template engine, or another one. *)
Inductive handler_error :=
  | errTerminated
  | ETemplate (e : rule_error)
  | ENoUpstream.

(** [func(w http.ResponseWriter, r *http.Request) error]. *)
Abbreviation handlerFunc := (world -> result unit (option handler_error * world)).

Inductive CommandHandler :=
  | NonTerminatingCommand (f : handlerFunc)
  | TerminatingCommand (f : handlerFunc)
  | OnResponseCommand (f : handlerFunc)
  | BypassCommand
  | Commands (l : list CommandHandler).

Fixpoint Handle (c : CommandHandler) (w : world) : result unit (option handler_error * world) :=
  match c with
  | NonTerminatingCommand f => f w
  | TerminatingCommand f =>
      '(err, w) ← f w;
      Ok (match err with Some e => Some e | None => Some errTerminated end, w)
  | OnResponseCommand f => f w
  | BypassCommand => Ok (Some errTerminated, w)
  | Commands l =>
      (fix run (l : list CommandHandler) (w : world) : result unit (option handler_error * world) :=
         match l with
         | [] => Ok (None, w)
         | c :: l' =>
             '(err, w) ← Handle c w;
             match err with Some e => Ok (Some e, w) | None => run l' w end
         end) l w
  end.

Fixpoint IsResponseHandler (c : CommandHandler) : bool :=
  match c with
  | NonTerminatingCommand _ | TerminatingCommand _ | BypassCommand => false
  | OnResponseCommand _ => true
  | Commands l => existsb IsResponseHandler l
  end.

(** ** The world outside the package *)

Class DoLib := {
  AuthOrProceed : world -> bool * world;          (* internal/auth *)
  ServeFile : bytes -> world -> world;            (* http.ServeFile *)
  Redirect : bytes -> Z -> world -> world;        (* http.Redirect *)
  reverse_proxy : URL -> world -> world;          (* goutils/http/reverseproxy *)
  url_Parse : bytes -> option URL;                (* net/url *)
  os_Stat : bytes -> bool;
  ParseLevel : bytes -> option Z;                 (* zerolog *)
  NewFileIO : bytes -> bool                       (* whether the log file opens *)
}.

Section Do.

Context `{HL : HTTPLib} `{RL : RuleLib} `{DL : DoLib}.

(** ** Validators *)

(** [*keyValueTemplate]. *)
Definition toKeyValueTemplate (args : list bytes) : result rule_error (bytes * templateString) :=
  match args with
  | [k; v] => t ← validateTemplate v false; Ok (k, t)
  | _ => Err EExpectTwoArgs
  end.

Definition validateURL (args : list bytes) : result rule_error URL :=
  match args with
  | [a] =>
      match url_Parse a with
      | None => Err EInvalidArguments
      | Some u =>
          if bool_decide (u_Scheme u = []) && negb (HasPrefix (u_Path u) "/")
          then Err EInvalidArguments else Ok u
      end
  | _ => Err EExpectOneArg
  end.

Definition validateFSPath (args : list bytes) : result rule_error bytes :=
  match args with
  | [a] => let p := Clean a in if os_Stat p then Ok p else Err EInvalidArguments
  | _ => Err EExpectOneArg
  end.

Definition validateLevel (level : bytes) : result rule_error Z :=
  match ParseLevel level with Some l => Ok l | None => Err EInvalidArguments end.

Definition openFile (path : bytes) : result rule_error bytes :=
  if bool_decide (path = B "/dev/stdout" \/ path = B "/dev/stderr") then Ok path
  else if NewFileIO path then Ok path else Err EInvalidArguments.

(** ** Field modifiers (do_set.go) *)

Record FieldHandler := {
  fh_set : option CommandHandler;
  fh_add : option CommandHandler;
  fh_remove : option CommandHandler
}.

(** [v, err := tmpl.ExpandVarsToString(w, r); if err != nil { return err }]. *)
Definition with_expanded (t : templateString) (k : bytes -> world -> world) : handlerFunc :=
  fun w =>
    match ExpandVarsToString t w with
    | Ok (Ok v, w) => Ok (None, k v w)
    | Ok (Err e, w) => Ok (Some (ETemplate e), w)
    | Ok (Panic p, _) | Panic p => Panic p
    | Err e => Ok (Some (ETemplate e), w)
    end.

Definition run_update (f : world -> world) : handlerFunc := fun w => Ok (None, f w).

Definition field_header (k : bytes) (t : templateString) : FieldHandler :=
  {| fh_set := Some (NonTerminatingCommand (with_expanded t (fun v =>
                 with_req (fun r => set_Header (<[k := [v]]> (r_Header r)) r))));
     fh_add := Some (NonTerminatingCommand (with_expanded t (fun v =>
                 with_req (fun r => set_Header (hadd (r_Header r) k v) r))));
     fh_remove := Some (NonTerminatingCommand (run_update (
                 with_req (fun r => set_Header (delete k (r_Header r)) r)))) |}.

Definition field_resp_header (k : bytes) (t : templateString) : FieldHandler :=
  {| fh_set := Some (NonTerminatingCommand (with_expanded t (fun v =>
                 with_out (fun o => set_out_Header (<[k := [v]]> (w_Header o)) o))));
     fh_add := Some (NonTerminatingCommand (with_expanded t (fun v =>
                 with_out (fun o => set_out_Header (hadd (w_Header o) k v) o))));
     fh_remove := Some (NonTerminatingCommand (run_update (
                 with_out (fun o => set_out_Header (delete k (w_Header o)) o)))) |}.

Definition field_query (k : bytes) (t : templateString) : FieldHandler :=
  {| fh_set := Some (NonTerminatingCommand (with_expanded t (fun v =>
                 UpdateQueries (fun q => hset q k v))));
     fh_add := Some (NonTerminatingCommand (with_expanded t (fun v =>
                 UpdateQueries (fun q => hadd q k v))));
     fh_remove := Some (NonTerminatingCommand (run_update (
                 UpdateQueries (fun q => delete k q)))) |}.

(** The callbacks given to [UpdateCookies]. *)
Fixpoint set_cookie (k v : bytes) (cs : list Cookie) : list Cookie :=
  match cs with
  | [] => [{| ck_Name := k; ck_Value := v |}]
  | c :: cs' => if bool_decide (ck_Name c = k)
                then {| ck_Name := ck_Name c; ck_Value := v |} :: cs'
                else c :: set_cookie k v cs'
  end.

Definition append_cookie (k v : bytes) (cs : list Cookie) : list Cookie :=
  cs ++ [{| ck_Name := k; ck_Value := v |}].

Fixpoint remove_cookie (k : bytes) (cs : list Cookie) : list Cookie :=
  match cs with
  | [] => []
  | c :: cs' => if bool_decide (ck_Name c = k) then cs' else c :: remove_cookie k cs'
  end.

Definition field_cookie (k : bytes) (t : templateString) : FieldHandler :=
  {| fh_set := Some (NonTerminatingCommand (with_expanded t (fun v => UpdateCookies (set_cookie k v))));
     fh_add := Some (NonTerminatingCommand (with_expanded t (fun v => UpdateCookies (append_cookie k v))));
     fh_remove := Some (NonTerminatingCommand (run_update (UpdateCookies (remove_cookie k)))) |}.

(** [set body]: the old body is closed first, so an error leaves none. *)
Definition field_body (t : templateString) : FieldHandler :=
  {| fh_set := Some (NonTerminatingCommand (fun w =>
       let w := with_req (set_Body None) w in
       match tmpl_ExpandVars t w with
       | Ok x => match x_err x with
                 | Some e => Ok (Some (ETemplate e), x_world x)
                 | None => Ok (None, with_req (set_Body (Some (x_out x))) (x_world x))
                 end
       | Err e => Ok (Some (ETemplate e), w)
       | Panic p => Panic p
       end));
     fh_add := None; fh_remove := None |}.

(** [tmpl.ExpandVars(w, r, rm)]: what was expanded before an error is kept. *)
Definition expand_to_response (t : templateString) : handlerFunc :=
  fun w =>
    match tmpl_ExpandVars t w with
    | Ok x => Ok (ETemplate <$> x_err x, rm_Write (x_out x) (x_world x))
    | Err e => Ok (Some (ETemplate e), w)
    | Panic p => Panic p
    end.

Definition field_resp_body (t : templateString) : FieldHandler :=
  {| fh_set := Some (OnResponseCommand (fun w => expand_to_response t (ResetBody w)));
     fh_add := None; fh_remove := None |}.

Definition field_status (status : Z) : FieldHandler :=
  {| fh_set := Some (NonTerminatingCommand (run_update (rm_WriteHeader status)));
     fh_add := None; fh_remove := None |}.

Definition one_template (args : list bytes) : result rule_error templateString :=
  match args with [a] => validateTemplate a true | _ => Err EExpectOneArg end.

Definition one_status (args : list bytes) : result rule_error Z :=
  match args with
  | [a] => match Atoi a with
           | None => Err EInvalidArguments
           | Some s => if (s <? 100) || (599 <? s) then Err EInvalidArguments else Ok s
           end
  | _ => Err EExpectOneArg
  end.

(** [modFields]: validation and building of each field. *)
Definition modFields (field : bytes) : option (list bytes -> result rule_error FieldHandler) :=
  let kv build := Some (fun args => '(k, t) ← toKeyValueTemplate args; Ok (build k t)) in
  if bool_decide (field = B "header") then kv field_header
  else if bool_decide (field = B "resp_header") then kv field_resp_header
  else if bool_decide (field = B "query") then kv field_query
  else if bool_decide (field = B "cookie") then kv field_cookie
  else if bool_decide (field = B "body") then Some (fun args => t ← one_template args; Ok (field_body t))
  else if bool_decide (field = B "resp_body") then
    Some (fun args => t ← one_template args; Ok (field_resp_body t))
  else if bool_decide (field = B "status") then Some (fun args => s ← one_status args; Ok (field_status s))
  else None.

Inductive FieldModifier := ModFieldSet | ModFieldAdd | ModFieldRemove.

Definition validateModField (op : FieldModifier) (args : list bytes) : result rule_error CommandHandler :=
  match args with
  | [] => Err EExpectTwoOrThreeArgs
  | field :: rest =>
      match modFields field with
      | None => Err EUnknownModField
      | Some setField =>
          let '(bad, rest) :=
            match op with
            | ModFieldRemove => (negb (length args =? 2)%nat, rest ++ [[]])
            | _ => (false, rest)
            end in
          if bad : bool then Err EExpectTwoArgs
          else
            modder ← setField rest;
            match match op with
                  | ModFieldAdd => fh_add modder
                  | ModFieldRemove => fh_remove modder
                  | ModFieldSet => fh_set modder
                  end with
            | None => Err EInvalidArguments
            | Some h => Ok h
            end
      end
  end.

(** ** Commands (do.go) *)

Definition cmd_require_auth : CommandHandler :=
  NonTerminatingCommand (fun w =>
    let '(ok, w) := AuthOrProceed w in
    Ok (if ok : bool then None else Some errTerminated, w)).

(** The path part of [r.URL], with the derived fields recomputed. *)
Definition set_request_path (p : bytes) (w : world) : world :=
  with_req (fun r =>
    let u := set_Path p (r_URL r) in
    let u := set_RawPath (url_EscapedPath u) u in
    set_RequestURI (url_RequestURI u) (set_URL u r)) w.

Definition cmd_rewrite (orig repl : bytes) : CommandHandler :=
  NonTerminatingCommand (fun w =>
    let path := rooted_path (u_Path (r_URL (req w))) in
    if negb (HasPrefix path orig) then Ok (None, w)
    else Ok (None, set_request_path (repl ++ drop (length orig) path) w)).

Definition path_Join (a b : bytes) : bytes :=
  match a, b with
  | [], [] => []
  | [], _ => Clean b
  | _, [] => Clean a
  | _, _ => Clean (a ++ "/" ++ b)
  end.

Definition cmd_serve (root : bytes) : CommandHandler :=
  TerminatingCommand (fun w =>
    Ok (None, ServeFile (path_Join root (Clean (u_Path (r_URL (req w))))) w)).

Definition cmd_redirect (target : URL) : CommandHandler :=
  TerminatingCommand (fun w => Ok (None, Redirect (url_String target) 307 w)).

(** [http.Error]. *)
Definition http_Error (text : bytes) (code : Z) (w : world) : world :=
  let h := delete (B "Content-Length") (w_Header (out w)) in
  let h := hset h "Content-Type" "text/plain; charset=utf-8" in
  let h := hset h "X-Content-Type-Options" "nosniff" in
  rm_Write (text ++ [newline]) (rm_WriteHeader code (with_out (set_out_Header h) w)).

Definition cmd_error (code : Z) (text : templateString) : CommandHandler :=
  TerminatingCommand (fun w => expand_to_response text (rm_WriteHeader code (ResetBody w))).

Definition cmd_require_basic_auth (realm : bytes) : CommandHandler :=
  TerminatingCommand (fun w =>
    let w := with_out (fun o => set_out_Header
      (hset (w_Header o) (B "WWW-Authenticate")
         (B "Basic realm=" ++ [zbyte 34] ++ realm ++ [zbyte 34])) o) w in
    Ok (None, http_Error "Unauthorized" 401 w)).

Definition set_Host (h : bytes) (u : URL) : URL :=
  {| u_Scheme := u_Scheme u; u_Host := h; u_Path := u_Path u; u_RawPath := u_RawPath u;
     u_RawQuery := u_RawQuery u; u_Fragment := u_Fragment u |}.

Definition cmd_proxy (target : URL) : CommandHandler :=
  let target := match u_Scheme target with
                | [] => {| u_Scheme := "http"; u_Host := u_Host target; u_Path := u_Path target;
                           u_RawPath := u_RawPath target; u_RawQuery := u_RawQuery target;
                           u_Fragment := u_Fragment target |}
                | _ => target
                end in
  match u_Host target with
  | [] =>
      TerminatingCommand (fun w =>
        match TryGetUpstreamHostPort (req w) with
        | [] => Ok (Some ENoUpstream, w)
        | host => Ok (None, reverse_proxy (set_Host host target) (set_request_path (u_Path target) w))
        end)
  | _ => TerminatingCommand (fun w => Ok (None, reverse_proxy target w))
  end.

(** [log]: the template is written to the logger, including what precedes an
    error. *)
Definition cmd_log (level : Z) (file : bytes) (t : templateString) : CommandHandler :=
  let lv := if bool_decide (file = B "/dev/stdout" \/ file = B "/dev/stderr") then Some level else None in
  OnResponseCommand (fun w =>
    match tmpl_ExpandVars t w with
    | Ok x => Ok (ETemplate <$> x_err x, add_fx (FxLog file lv (x_out x)) (x_world x))
    | Err e => Ok (Some (ETemplate e), w)
    | Panic p => Panic p
    end).

Definition cmd_notify (level : Z) (provider : bytes) (title body : templateString) : CommandHandler :=
  OnResponseCommand (fun w =>
    match tmpl_ExpandVars title w with
    | Panic p => Panic p
    | Err e => Ok (Some (ETemplate e), w)
    | Ok xt =>
        match x_err xt with
        | Some e => Ok (Some (ETemplate e), x_world xt)
        | None =>
            match tmpl_ExpandVars body (x_world xt) with
            | Panic p => Panic p
            | Err e => Ok (Some (ETemplate e), w)
            | Ok xb =>
                match x_err xb with
                | Some e => Ok (Some (ETemplate e), x_world xb)
                | None => Ok (None, add_fx (FxNotify level provider (x_out xt) (x_out xb)) (x_world xb))
                end
            end
        end
    end).

(** The [validate] functions written inline in the table. *)
Definition validate_rewrite (args : list bytes) : result rule_error (bytes * bytes) :=
  match args with
  | [a; b] =>
      match validateURLPath [a], validateURLPath [b] with
      | Ok p1, Ok p2 => Ok (p1, p2)
      | Err e1, Err e2 => Err (EJoin e1 e2)
      | Err e, Ok _ | Ok _, Err e => Err e
      | Panic p, _ | _, Panic p => Panic p
      end
  | _ => Err EExpectTwoArgs
  end.

Definition validate_error (args : list bytes) : result rule_error (Z * templateString) :=
  match args with
  | [codeStr; text] =>
      match Atoi codeStr with
      | None => Err EInvalidArguments
      | Some code =>
          if negb (IsStatusCodeValid code) then Err EInvalidArguments
          else match validateTemplate text true with
               | Ok t => Ok (code, t)
               | Err _ => Err EInvalidArguments
               | Panic p => Panic p
               end
      end
  | _ => Err EExpectTwoArgs
  end.

Definition validate_log (args : list bytes) : result rule_error (Z * bytes * templateString) :=
  match args with
  | [lv; path; text] =>
      t ← validateTemplate text true;
      level ← validateLevel lv;
      f ← openFile path;
      Ok (level, f, t)
  | _ => Err EExpectThreeArgs
  end.

Definition validate_notify (args : list bytes)
    : result rule_error (Z * bytes * templateString * templateString) :=
  match args with
  | [lv; provider; title; body] =>
      t1 ← validateTemplate title false;
      t2 ← validateTemplate body false;
      level ← validateLevel lv;
      Ok (level, provider, t1, t2)
  | _ => Err EExpectFourArgs
  end.

(** The table [commands]: validation and building of a directive, and its
    [isResponseHandler] flag. *)
Definition commands (directive : bytes) : option ((list bytes -> result rule_error CommandHandler) * bool) :=
  if bool_decide (directive = B "require_auth") then
    Some (fun args => match args with [] => Ok cmd_require_auth | _ => Err EExpectNoArg end, false)
  else if bool_decide (directive = B "rewrite") then
    Some (fun args => '(a, b) ← validate_rewrite args; Ok (cmd_rewrite a b), false)
  else if bool_decide (directive = B "serve") then
    Some (fun args => root ← validateFSPath args; Ok (cmd_serve root), false)
  else if bool_decide (directive = B "redirect") then
    Some (fun args => u ← validateURL args; Ok (cmd_redirect u), false)
  else if bool_decide (directive = B "error") then
    Some (fun args => '(code, t) ← validate_error args; Ok (cmd_error code t), false)
  else if bool_decide (directive = B "require_basic_auth") then
    Some (fun args => match args with [realm] => Ok (cmd_require_basic_auth realm)
                                 | _ => Err EExpectOneArg end, false)
  else if bool_decide (directive = B "proxy") then
    Some (fun args => u ← validateURL args; Ok (cmd_proxy u), false)
  else if bool_decide (directive = B "set") then Some (validateModField ModFieldSet, false)
  else if bool_decide (directive = B "add") then Some (validateModField ModFieldAdd, false)
  else if bool_decide (directive = B "remove") then Some (validateModField ModFieldRemove, false)
  else if bool_decide (directive = B "log") then
    Some (fun args => '(level, f, t) ← validate_log args; Ok (cmd_log level f t), true)
  else if bool_decide (directive = B "notify") then
    Some (fun args => '(level, p, t1, t2) ← validate_notify args; Ok (cmd_notify level p t1 t2), true)
  else None.

Record Command := {
  cmd_raw : bytes;
  cmd_exec : option CommandHandler;
  cmd_isResponseHandler : bool
}.

(** One line of [Command.Parse]: the handler, whether it makes the command a
    response handler; [None] for an empty line. *)
Definition parse_command_line (line : bytes) : result rule_error (option (CommandHandler * bool)) :=
  match line with
  | [] => Ok None
  | _ =>
      '(directive, args) ← parse_line line;
      if bool_decide (directive = B "pass" \/ directive = B "bypass") then
        match args with
        | [] => Ok (Some (BypassCommand, false))
        | _ => Err EInvalidArguments
        end
      else match commands directive with
           | None => Err EUnknownDirective
           | Some (build, isResp) =>
               handler ← build args;
               Ok (Some (handler, isResp || IsResponseHandler handler))
           end
  end.

Fixpoint parse_command_lines (lines : list bytes) : result rule_error (list CommandHandler * bool) :=
  match lines with
  | [] => Ok ([], false)
  | line :: lines' =>
      h ← parse_command_line line;
      '(hs, r) ← parse_command_lines lines';
      Ok (match h with Some (c, b) => (c :: hs, b || r) | None => (hs, r) end)
  end.

(** [exec.(type)] is [TerminatingCommand] or [BypassCommand]. *)
Definition ends_sequence (c : CommandHandler) : bool :=
  match c with TerminatingCommand _ | BypassCommand => true | _ => false end.

(** The loop of [buildCmd]. *)
Fixpoint sequence_ok (executors : list CommandHandler) : bool :=
  match executors with
  | [] => true
  | c :: cs => match cs with
               | [] => true
               | _ => negb (ends_sequence c) && sequence_ok cs
               end
  end.

Definition buildCmd (executors : list CommandHandler) : result rule_error CommandHandler :=
  if sequence_ok executors then Ok (Commands executors) else Err EInvalidCommandSequence.

(** [Command.Parse]. *)
Definition Command_Parse (v : bytes) : result rule_error Command :=
  '(executors, isResp) ← parse_command_lines (Split v newline);
  match executors with
  | [] => Ok {| cmd_raw := v; cmd_exec := None; cmd_isResponseHandler := false |}
  | _ =>
      exec ← buildCmd executors;
      Ok {| cmd_raw := v; cmd_exec := Some exec;
            cmd_isResponseHandler := isResp || IsResponseHandler exec |}
  end.

(** [isBypass] of a non-nil command. *)
Definition isBypass (cmd : Command) : bool :=
  match cmd_exec cmd with
  | Some BypassCommand => true
  | Some (Commands l) => match last l with Some BypassCommand => true | _ => false end
  | _ => false
  end.

End Do.

(** ** A concrete outside world, for examples *)

#[export] Instance plain_do : DoLib := {|
  AuthOrProceed w := (bool_decide (is_Some (r_Header (req w) !! B "X-Auth")), w);
  ServeFile p w := rm_Write p w;
  Redirect target code w := with_out (fun o => set_out_Header (hset (w_Header o) "Location" target) o)
                              (rm_WriteHeader code w);
  reverse_proxy u w := rm_Write (u_Host u) w;
  url_Parse s := Some {| u_Scheme := []; u_Host := []; u_Path := s; u_RawPath := []; u_RawQuery := [];
                         u_Fragment := [] |};
  os_Stat _ := true;
  ParseLevel s := if bool_decide (s = B "info") then Some 1 else None;
  NewFileIO _ := true
|}.
