(* ===== verification/Rules.v ===== *)
(** * The rule engine: [Rules.BuildHandler]

    Models internal/route/rules/rules.go: the HTTP handler built from a list
    of rules around the upstream handler.  Rules whose condition or action
    looks at the response run after the upstream, the others before it; the
    rule named "default" runs first, last or as a fallback. *)

From S2P Require Import Prelude GoStrings NetAddr RulesParser RulesSplit RulesHTTP RulesOn RulesVars RulesDo.

Record Rule := {
  rule_Name : bytes;
  rule_On : RuleOn;
  rule_Do : Command
}.

Definition IsResponseRule (r : Rule) : bool :=
  on_isResponseChecker (rule_On r) || cmd_isResponseHandler (rule_Do r).

(** [Rule.Check]: a rule without a condition always matches. *)
Definition Rule_Check (r : Rule) (w : world) : result unit (bool * world) :=
  match on_checker (rule_On r) with
  | None => Ok (true, w)
  | Some c => Check c w
  end.

(** [Rule.Handle]: calling a method of a nil handler panics. *)
Definition Rule_Handle (r : Rule) (w : world) : result unit (option handler_error * world) :=
  match cmd_exec (rule_Do r) with
  | None => Panic NilDereference
  | Some c => Handle c w
  end.

Fixpoint isTerminatingHandler (c : CommandHandler) : bool :=
  match c with
  | TerminatingCommand _ => true
  | Commands l =>
      (fix last_terminates (l : list CommandHandler) : bool :=
         match l with
         | [] => false
         | [h] => isTerminatingHandler h
         | _ :: l' => last_terminates l'
         end) l
  | _ => false
  end.

Definition terminates (cmd : Command) : bool :=
  match cmd_exec cmd with Some c => isTerminatingHandler c | None => false end.

(** [if !errors.Is(err, errTerminated) { rm.AppendError(rule, err) }]. *)
Definition note_error (r : Rule) (e : handler_error) (w : world) : world :=
  match e with errTerminated => w | _ => AppendError (rule_Name r) w end.

Definition default_bypass : Rule :=
  {| rule_Name := "default";
     rule_On := {| on_raw := []; on_checker := None; on_isResponseChecker := false |};
     rule_Do := {| cmd_raw := "pass"; cmd_exec := Some BypassCommand; cmd_isResponseHandler := false |} |}.

Definition rename (r : Rule) (i : nat) : Rule :=
  match rule_Name r with
  | [] => {| rule_Name := "rule[" ++ Itoa (Z.of_nat i) ++ "]"; rule_On := rule_On r; rule_Do := rule_Do r |}
  | _ => r
  end.

(** The first loop: the last rule named "default" and the others, in order. *)
Fixpoint partition_rules (i : nat) (rules : list Rule) (dflt : option Rule) (others : list Rule)
    : option Rule * list Rule :=
  match rules with
  | [] => (dflt, others)
  | r :: rules' =>
      if bool_decide (rule_Name r = B "default")
      then partition_rules (S i) rules' (Some r) others
      else partition_rules (S i) rules' dflt (others ++ [rename r i])
  end.

Section Handler.

(** The client connection, and the upstream handler. *)
Context (client_Write : bytes -> nat * bool) (client_Flush_fails : bool).
Context (up : world -> result unit world).

(** [rm := NewResponseModifier(w)] ... [defer rm.FlushRelease()]. *)
Definition with_modifier (body : world -> result unit world) (w : world) : result unit world :=
  w' ← body (with_rm (fun _ => NewResponseModifier) w);
  Ok (FlushRelease client_Write client_Flush_fails w').2.

(** The loop over [preRules]: [shouldCallUpstream], [preMatched], state. *)
Fixpoint run_pre (rules : list Rule) (matched : bool) (w : world) : result unit (bool * bool * world) :=
  match rules with
  | [] => Ok (true, matched, w)
  | r :: rules' =>
      '(b, w) ← Rule_Check r w;
      if b : bool then
        if isBypass (rule_Do r) then Ok (true, true, w)
        else
          '(err, w) ← Rule_Handle r w;
          match err with
          | Some e => Ok (false, true, note_error r e w)
          | None => run_pre rules' true w
          end
      else run_pre rules' matched w
  end.

(** The loop over [postRules]; [false] after an early return. *)
Fixpoint run_post (rules : list Rule) (w : world) : result unit (bool * world) :=
  match rules with
  | [] => Ok (true, w)
  | r :: rules' =>
      '(b, w) ← Rule_Check r w;
      if b : bool then
        '(err, w) ← Rule_Handle r w;
        match err with
        | Some e => Ok (false, note_error r e w)
        | None => run_post rules' w
        end
      else run_post rules' w
  end.

(** The default rule when it is the only one. *)
Definition only_default (d : Rule) (w : world) : result unit world :=
  if isBypass (rule_Do d) then up w
  else if IsResponseRule d then
    with_modifier (fun w =>
      w ← up w;
      '(err, w) ← Rule_Handle d w;
      Ok (match err with Some e => note_error d e w | None => w end)) w
  else
    with_modifier (fun w =>
      '(err, w) ← Rule_Handle d w;
      match err with
      | None => up w
      | Some e => Ok (note_error d e w)
      end) w.

(** The default rule before the others: [shouldCallUpstream] and the state. *)
Definition run_default_first (d : Rule) (w : world) : result unit (bool * world) :=
  if isBypass (rule_Do d) then Ok (true, w)
  else
    '(err, w) ← Rule_Handle d w;
    Ok (match err with None => (true, w) | Some e => (false, note_error d e w) end).

(** The default rule as a fallback: whether to return at once, whether to call
    the upstream, and the state. *)
Definition run_default_fallback (d : Rule) (w : world) : result unit (bool * bool * world) :=
  if isBypass (rule_Do d) then Ok (false, true, w)
  else
    '(err, w) ← Rule_Handle d w;
    Ok (match err with
        | None => (false, true, w)
        | Some errTerminated => (false, false, w)
        | Some e => (true, false, note_error d e w)
        end).

(** The handler when there are rules besides the default. *)
Definition serve_rules (dflt : option Rule) (others : list Rule) (w : world) : result unit world :=
  let postRules := List.filter IsResponseRule others in
  let preRules := List.filter (fun r => negb (IsResponseRule r)) others in
  let d := default default_bypass dflt in
  let hasDefaultRule := match dflt with Some _ => true | None => false end in
  let isDefaultRulePost := hasDefaultRule && IsResponseRule d in
  let defaultTerminates := terminates (rule_Do d) in
  '(shouldCallUpstream, w) ←
    (if hasDefaultRule && negb isDefaultRulePost && negb defaultTerminates
     then run_default_first d w else Ok (true, w));
  '(shouldCallUpstream, preMatched, w) ←
    (if shouldCallUpstream : bool then run_pre preRules false w else Ok (false, false, w));
  '(stop, shouldCallUpstream, w) ←
    (if hasDefaultRule && negb isDefaultRulePost && defaultTerminates
        && shouldCallUpstream && negb preMatched
     then run_default_fallback d w else Ok (false, shouldCallUpstream, w));
  if stop : bool then Ok w
  else
    w ← (if shouldCallUpstream : bool then up w else Ok w);
    match postRules, isDefaultRulePost with
    | [], false => Ok w
    | _, _ =>
        '(continue, w) ← run_post postRules w;
        if (continue : bool) && isDefaultRulePost then
          '(err, w) ← Rule_Handle d w;
          Ok (match err with Some e => note_error d e w | None => w end)
        else Ok w
    end.

(** [Rules.BuildHandler]. *)
Definition BuildHandler (rules : list Rule) (w : world) : result unit world :=
  match rules with
  | [] => up w
  | _ =>
      let '(dflt, others) := partition_rules 0 rules None [] in
      match others with
      | [] => only_default (default default_bypass dflt) w
      | _ => with_modifier (serve_rules dflt others) w
      end
  end.

End Handler.

(** ** Flushing the response *)

(** [FlushRelease] sends the buffered response exactly once: unless the
    connection was hijacked, the status line is the modifier's, Content-Length
    is the length of the buffer, Transfer-Encoding and Trailer are gone, the
    bytes accepted by the client are a prefix of the buffer, and the buffer and
    the cache are released in any case. *)
Theorem FlushRelease_spec client_Write fails w :
  let '(n, errs, w') := FlushRelease client_Write fails w in
  rm_buf (rm w') = None /\ rm_shared (rm w') = None /\
  (exists tail, errs = rm_errs (rm w) ++ tail) /\
  if rm_hijacked (rm w) then out w' = out w /\ n = 0%nat
  else
    w_sent (out w') = Some (match w_sent (out w) with Some c => c | None => StatusCode (rm w) end) /\
    w_Header (out w') !! B "Content-Length" = Some [Itoa (Z.of_nat (length (Content (rm w))))] /\
    w_Header (out w') !! B "Transfer-Encoding" = None /\
    w_Header (out w') !! B "Trailer" = None /\
    w_body (out w') = w_body (out w) ++ take n (Content (rm w)).
Proof.
  unfold FlushRelease. destruct (rm_hijacked (rm w)).
  - repeat split. exists []. by rewrite app_nil_r.
  - assert (Hh : forall h : Values, flush_headers (rm w) h !! B "Content-Length"
        = Some [Itoa (Z.of_nat (length (Content (rm w))))]
      /\ flush_headers (rm w) h !! B "Transfer-Encoding" = None
      /\ flush_headers (rm w) h !! B "Trailer" = None).
    { intros h. unfold flush_headers, hset, ContentLength.
      rewrite !lookup_delete_ne by done. split; [by rewrite lookup_insert_eq|].
      split; [by rewrite lookup_delete_eq|by rewrite lookup_delete_eq]. }
    destruct (0 <? ContentLength (rm w)) eqn:E.
    + destruct (client_Write (Content (rm w))) as [nn failed]. simpl.
      split; [done|]. split; [done|]. split; [by eexists|].
      split; [by destruct (w_sent (out w))|]. destruct (Hh (w_Header (out w))) as (? & ? & ?). done.
    + simpl. split; [done|]. split; [done|]. split; [exists []; by rewrite app_nil_r|].
      split; [by destruct (w_sent (out w))|]. destruct (Hh (w_Header (out w))) as (? & ? & ?).
      repeat split; try done. by rewrite take_0, app_nil_r.
Qed.

(** ** Command sequences *)

(** Induction over handlers through the lists of [Commands]. *)
Lemma CommandHandler_rect' (P : CommandHandler -> Prop) :
  (forall f, P (NonTerminatingCommand f)) -> (forall f, P (TerminatingCommand f)) ->
  (forall f, P (OnResponseCommand f)) -> P BypassCommand ->
  (forall l, Forall P l -> P (Commands l)) -> forall c, P c.
Proof.
  intros H1 H2 H3 H4 H5. fix IH 1. intros [f|f|f| |l]; [apply H1|apply H2|apply H3|apply H4|].
  apply H5. induction l; constructor; [apply IH|done].
Qed.

(** a handler that [isTerminatingHandler] recognises never falls through:
    whenever it returns, it returns an error, so the upstream is not called
    after it. *)
Theorem terminating_never_falls_through c w err w' :
  isTerminatingHandler c = true -> Handle c w = Ok (err, w') -> err <> None.
Proof.
  revert w err w'. induction c as [f|f|f| |l Hl] using CommandHandler_rect'; intros w err w'; try done.
  - intros _. simpl. destruct (f w) as [[e w1]| |]; simpl; try done.
    by destruct e; intros [= <- <-].
  - revert w. induction Hl as [|c l Hc _ IH]; intros w Ht; [done|]. cbn [Handle].
    destruct (Handle c w) as [[e w1]| |] eqn:E; simpl; try done.
    destruct e as [e|]; [by intros [= <- <-]|]. intros Hr.
    destruct l as [|c' l]; [|by eapply IH].
    exfalso. eapply Hc; [exact Ht|exact E|done].
Qed.

Lemma terminating_never_falls_through_witness :
  isTerminatingHandler (Commands [NonTerminatingCommand (run_update id);
                                  cmd_error 403 {| tmpl_string := "no"; isTemplate := false |}]) = true
  /\ forall err w', Handle (Commands [NonTerminatingCommand (run_update id);
       cmd_error 403 {| tmpl_string := "no"; isTemplate := false |}]) (example_world "GET" "/" ∅)
     = Ok (err, w') -> err <> None.
Proof.
  split; [reflexivity|]. intros err w'. by apply terminating_never_falls_through.
Defined.

Section Sequences.

Context `{HL : HTTPLib} `{RL : RuleLib} `{DL : DoLib}.

Lemma sequence_ok_last l i c :
  sequence_ok l = true -> l !! i = Some c -> ends_sequence c = true -> S i = length l.
Proof.
  revert i. induction l as [|c' l IH]; intros i; [done|]. cbn [sequence_ok].
  destruct l as [|c'' l]; [by destruct i|]. intros Hs Hi He. reflect.
  destruct i as [|i]; simpl in Hi; [simplify_eq; congruence|].
  simpl. f_equal. by eapply IH.
Qed.

(** in a parsed command only the last action may end the request (a
    terminating command or a bypass), so no action is ever unreachable. *)
Theorem Command_Parse_sequence v cmd c :
  Command_Parse v = Ok cmd -> cmd_exec cmd = Some c ->
  exists l, c = Commands l /\ l <> [] /\
    forall i h, l !! i = Some h -> ends_sequence h = true -> S i = length l.
Proof.
  unfold Command_Parse, buildCmd.
  destruct (parse_command_lines _) as [[ex r]| |]; simpl; try done.
  destruct ex as [|h hs]; [by intros [= <-]|].
  destruct (sequence_ok (h :: hs)) eqn:E; simpl; [|done].
  intros [= <-] [= <-]. eexists. split; [done|]. split; [done|].
  intros i h'. by apply sequence_ok_last.
Qed.

End Sequences.

Definition example_do : bytes := "set header X-A 1" ++ [newline] ++ "rewrite / /index.html" ++ [newline] ++ "serve /var/www".

Lemma Command_Parse_sequence_witness :
  match Command_Parse example_do with
  | Ok cmd => match cmd_exec cmd with
              | Some c => exists l, c = Commands l /\ l <> []
              | None => False
              end
  | _ => False
  end.
Proof.
  assert (Hok : match Command_Parse example_do with
                | Ok cmd => match cmd_exec cmd with Some _ => true | None => false end
                | _ => false end = true) by (vm_compute; reflexivity).
  destruct (Command_Parse example_do) as [cmd| |] eqn:E; try discriminate Hok.
  destruct (cmd_exec cmd) as [c|] eqn:Ec; try discriminate Hok.
  destruct (Command_Parse_sequence _ _ _ E Ec) as (l & Hl & Hne & _). exists l. split; [exact Hl|exact Hne].
Defined.

(** ** What the handler does with a request *)

Section Flow.

Context `{HL : HTTPLib} `{RL : RuleLib} `{DL : DoLib} `{LW : !HTTPLibLaws}.
Context (client_Write : bytes -> nat * bool) (client_Flush_fails : bool).

Abbreviation handler := (BuildHandler client_Write client_Flush_fails).
Abbreviation flush := (fun w => (FlushRelease client_Write client_Flush_fails w).2).

(** The state seen by the rules: the request with a fresh modifier. *)
Definition fresh (w : world) : world := with_rm (fun _ => NewResponseModifier) w.

Lemma fresh_ok w : world_ok (fresh w).
Proof. by intros c. Qed.

(** A single rule that is not the default and runs before the upstream. *)
Lemma single_pre_rule up r w :
  rule_Name r <> B "default" -> rule_Name r <> [] -> IsResponseRule r = false ->
  handler up [r] w =
  ('(call, _, w1) ← run_pre [r] false (fresh w);
   w2 ← (if call : bool then up w1 else Ok w1);
   Ok (flush w2)).
Proof.
  intros Hd Hn Hr. unfold BuildHandler. cbn [partition_rules].
  rewrite bool_decide_eq_false_2 by done. cbn [app].
  assert (rename r 0 = r) as -> by (unfold rename; by destruct (rule_Name r)).
  unfold with_modifier, serve_rules. cbn [List.filter default andb]. rewrite Hr. cbn [negb].
  fold (fresh w). cbn [mbind result_bind].
  destruct (run_pre [r] false (fresh w)) as [[[call m] w1]| |]; cbn [mbind result_bind]; try done.
  destruct call; cbn [mbind result_bind]; [|done]. by destruct (up w1).
Qed.

(** A response accepted by the client in full. *)
Lemma flush_full w :
  rm_hijacked (rm w) = false -> Content (rm w) <> [] ->
  client_Write (Content (rm w)) = (length (Content (rm w)), false) ->
  w_sent (out (flush w)) = Some (default (StatusCode (rm w)) (w_sent (out w)))
  /\ w_body (out (flush w)) = w_body (out w) ++ Content (rm w).
Proof.
  intros Hh Hne Hw. unfold FlushRelease. rewrite Hh, Hw.
  rewrite (proj2 (Z.ltb_lt _ _)); [|unfold ContentLength; destruct (Content (rm w)); [done|simpl; lia]].
  simpl. split; [by destruct (w_sent (out w))|]. by rewrite firstn_all.
Qed.

(** The state after the [error] command. *)
Lemma error_response code text w :
  let w' := rm_Write text (rm_WriteHeader code (ResetBody w)) in
  Content (rm w') = text /\ rm_statusCode (rm w') = code
  /\ rm_hijacked (rm w') = rm_hijacked (rm w) /\ out w' = out w.
Proof.
  unfold ResetBody, Content. cbn. by destruct (rm_buf (rm w)) eqn:E; cbn; rewrite ?E.
Qed.

(** A rule that is neither the default nor a response rule, with a name. *)
Definition request_rule (r : Rule) : Prop :=
  rule_Name r <> B "default" /\ rule_Name r <> [] /\ IsResponseRule r = false.

Lemma partition_request_rules rules : forall i others,
  Forall request_rule rules -> partition_rules i rules None others = (None, others ++ rules).
Proof.
  induction rules as [|r rules IH]; intros i others Hr; cbn [partition_rules]; [by rewrite app_nil_r|].
  inversion Hr as [|? ? (Hd & Hn & _) Hr']; subst. rewrite bool_decide_eq_false_2 by done. rewrite IH by done.
  assert (rename r i = r) as -> by (unfold rename; by destruct (rule_Name r)). by rewrite <- app_assoc.
Qed.

(** Request rules only: they run before the upstream, in order. *)
Lemma request_rules_only up r rules w :
  Forall request_rule (r :: rules) ->
  handler up (r :: rules) w =
  ('(call, _, w1) ← run_pre (r :: rules) false (fresh w);
   w2 ← (if call : bool then up w1 else Ok w1);
   Ok (flush w2)).
Proof.
  intros Hr. unfold BuildHandler. rewrite partition_request_rules by done. cbn [app].
  assert (List.filter IsResponseRule (r :: rules) = []
    /\ List.filter (fun r => negb (IsResponseRule r)) (r :: rules) = r :: rules) as [Hpost Hpre].
  { clear w. induction Hr as [|x l (_ & _ & Hx) _ [IH1 IH2]]; [done|]. cbn [List.filter]. rewrite Hx. cbn [negb].
    by rewrite IH1, IH2. }
  unfold with_modifier, serve_rules. rewrite Hpost, Hpre. cbn [default andb mbind result_bind]. fold (fresh w).
  destruct (run_pre (r :: rules) false (fresh w)) as [[[call m] w1]| |]; cbn [mbind result_bind]; try done.
  destruct call; cbn [mbind result_bind]; [|done]. by destruct (up w1).
Qed.

(** C10: end to end, in a list of rules that starts with "on v do error code
    text" and has no default rule and no rule on responses, the first rule
    blocks exactly the requests its condition describes (one that parses and
    does not test credentials).  They never reach the upstream (the statement
    holds for every [up]) nor a later rule, and a client that takes the whole
    text receives the code and the text.  Every other request goes on to the
    later rules, then to the upstream; no condition can tell it from the
    original, and it is the original unless the condition tests a form, which
    reads the body. *)
Theorem error_rule_blocks up v on cmd name code text rules w :
  RuleOn_Parse v = Ok (on, []) ->
  existsb line_response (splitAnd_ref v) = false -> uses_basic_auth v = false ->
  cmd_exec cmd = Some (Commands [cmd_error code {| tmpl_string := text; isTemplate := false |}]) ->
  cmd_isResponseHandler cmd = false ->
  name <> B "default" -> name <> [] -> Forall request_rule rules ->
  code <> 0 -> text <> [] -> w_sent (out w) = None -> client_Write text = (length text, false) ->
  let r := {| rule_Name := name; rule_On := on; rule_Do := cmd |} in
  if on_meaning v (view_of (fresh w)) then
    exists w', handler up (r :: rules) w = Ok w' /\ w_sent (out w') = Some code
               /\ w_body (out w') = w_body (out w) ++ text
  else
    exists w1, view_of w1 = view_of (fresh w) /\ (uses_form v = false -> req w1 = req w)
               /\ handler up (r :: rules) w
                  = ('(call, _, w2) ← run_pre rules false w1;
                     w3 ← (if call : bool then up w2 else Ok w2); Ok (flush w3)).
Proof.
  intros Hon Hresp Hauth Hcmd Hcr Hnd Hnn Hrules Hcode Htext Hsent Hwrite r.
  destruct (RuleOn_response_spec v on Hon) as [Hisr [chk Hchk]].
  assert (Hirr : IsResponseRule r = false).
  { unfold IsResponseRule, r. simpl. by rewrite Hisr, Hresp, Hcr. }
  destruct (RuleOn_Check_spec v on (fresh w) Hon (fresh_ok w)) as (w1 & Hc & _ & Hv).
  { by rewrite Hauth. }
  assert (Hrc : Rule_Check r (fresh w) = Ok (on_meaning v (view_of (fresh w)), w1)).
  { unfold Rule_Check, r. simpl. unfold RuleOn_Check in Hc. by rewrite Hchk in *. }
  rewrite request_rules_only by (constructor; [by split_and!|done]).
  cbn [run_pre]. rewrite Hrc. cbn [mbind result_bind].
  destruct (on_meaning v (view_of (fresh w))).
  - assert (Hby : isBypass (rule_Do r) = false) by (unfold isBypass, r; simpl; by rewrite Hcmd).
    rewrite Hby. unfold Rule_Handle, r. simpl (cmd_exec _). rewrite Hcmd. simpl (Handle _ _).
    eexists. split; [reflexivity|].
    destruct (error_response code text w1) as (Hcont & Hst & Hhj & Hout).
    assert (Hhij : rm_hijacked (rm w1) = false) by exact (f_equal (fun v => rm_hijacked (rm v)) Hv).
    assert (Hout1 : out w1 = out w) by exact (f_equal out Hv).
    destruct (flush_full (rm_Write text (rm_WriteHeader code (ResetBody w1)))) as [Hs Hb];
      [by rewrite Hhj|by rewrite Hcont|by rewrite Hcont|].
    split.
    + assert (Hsc : StatusCode (rm (rm_Write text (rm_WriteHeader code (ResetBody w1)))) = code).
      { unfold StatusCode. rewrite Hst. by rewrite (proj2 (Z.eqb_neq _ _)). }
      etransitivity; [exact Hs|]. by rewrite Hout, Hout1, Hsent, Hsc.
    + etransitivity; [exact Hb|]. by rewrite Hout, Hout1, Hcont.
  - exists w1. split; [done|]. split; [|done]. intros Hf. by apply (RuleOn_Check_keeps v on _ _ _ Hon Hf Hc).
Qed.

Lemma terminating_not_bypass cmd : terminates cmd = true -> isBypass cmd = false.
Proof.
  unfold terminates, isBypass. destruct (cmd_exec cmd) as [[f|f|f| |l]|]; try done.
  induction l as [|c l IH]; [done|]. destruct l as [|c' l]; [by destruct c|].
  intros Ht. change (last (c :: c' :: l)) with (last (c' :: l)). by apply IH.
Qed.

(** The state after the conditions of the rules, when none of them holds. *)
Fixpoint no_match (rules : list Rule) (w : world) : option world :=
  match rules with
  | [] => Some w
  | r :: rules' => match Rule_Check r w with Ok (false, w') => no_match rules' w' | _ => None end
  end.

Lemma run_pre_matched rules : forall w call m w', run_pre rules true w = Ok (call, m, w') -> m = true.
Proof.
  induction rules as [|r rules IH]; intros w call m w'; cbn [run_pre]; [by intros [= _ <- _]|].
  destruct (Rule_Check r w) as [[[|] w1]| |]; cbn [mbind result_bind]; try done; [|apply IH].
  destruct (isBypass (rule_Do r)); [by intros [= _ <- _]|].
  destruct (Rule_Handle r w1) as [[[e|] w2]| |]; cbn [mbind result_bind]; try done; [by intros [= _ <- _]|apply IH].
Qed.

Lemma run_pre_no_match rules : forall w w1,
  run_pre rules false w = Ok (true, false, w1) <-> no_match rules w = Some w1.
Proof.
  induction rules as [|r rules IH]; intros w w1; cbn [run_pre no_match].
  { split; [by intros [= <-]|by intros [= <-]]. }
  destruct (Rule_Check r w) as [[[|] w2]| |]; cbn [mbind result_bind]; [|apply IH|done|done].
  split; [|done]. destruct (isBypass (rule_Do r)); [done|].
  destruct (Rule_Handle r w2) as [[[e|] w3]| |]; cbn [mbind result_bind]; try done.
  by intros H%run_pre_matched.
Qed.

(** The rules besides the default, as the handler names them. *)
Definition named (r : Rule) : Prop := rule_Name r <> B "default" /\ rule_Name r <> [].

Lemma partition_named rules : forall i d others d' others',
  Forall named others -> partition_rules i rules d others = (d', others') -> Forall named others'.
Proof.
  induction rules as [|r rules IH]; intros i d others d' others' Ho; cbn [partition_rules]; [by intros [= _ <-]|].
  case_bool_decide as Hd; [by apply IH|]. apply IH. apply Forall_app. split; [done|]. constructor; [|done].
  unfold named, rename. destruct (rule_Name r) eqn:E; cbn; [done|]. by rewrite E.
Qed.

Lemma partition_id rules : forall i others,
  Forall named rules -> partition_rules i rules None others = (None, others ++ rules).
Proof.
  induction rules as [|r rules IH]; intros i others Hr; cbn [partition_rules]; [by rewrite app_nil_r|].
  inversion Hr as [|? ? [Hd Hn] Hr']; subst. rewrite bool_decide_eq_false_2 by done. rewrite IH by done.
  assert (rename r i = r) as -> by (unfold rename; by destruct (rule_Name r)). by rewrite <- app_assoc.
Qed.

(** The response rules on the answer of the default rule. *)
Definition respond_default (d : Rule) (others : list Rule) (w1 : world) : result unit world :=
  '(err, w2) ← Rule_Handle d w1;
  match err with
  | Some errTerminated | None => '(_, w3) ← run_post (List.filter IsResponseRule others) w2; Ok w3
  | Some e => Ok (note_error d e w2)
  end.

(** C11: a default rule that ends the request and is not a rule on responses,
    among other rules of any kind, is a fallback.  When no condition of a rule
    on requests holds, the request never reaches the upstream: the default rule
    answers, and the rules on responses see its answer (unless it fails).  In
    every other case, also when a rule fails or panics, the default rule has no
    effect: the handler does what it does without it. *)
Theorem default_is_fallback up rules d others w :
  partition_rules 0 rules None [] = (Some d, others) -> others <> [] ->
  IsResponseRule d = false -> terminates (rule_Do d) = true ->
  match no_match (List.filter (fun r => negb (IsResponseRule r)) others) (fresh w) with
  | Some w1 => handler up rules w = (w2 ← respond_default d others w1; Ok (flush w2))
  | None => handler up rules w = handler up others w
  end.
Proof.
  intros Hp Ho Hd Ht. pose proof (partition_named rules 0 None [] _ _ ltac:(done) Hp) as Hn.
  unfold BuildHandler. destruct rules as [|r rules]; [done|]. rewrite Hp, (partition_id others 0 [] Hn).
  cbn [app]. destruct others as [|o others]; [done|]. unfold with_modifier, serve_rules. fold (fresh w).
  set (pre := List.filter (fun r => negb (IsResponseRule r)) (o :: others)).
  set (post := List.filter IsResponseRule (o :: others)). unfold respond_default. fold post.
  cbn [default from_option]. unfold id. rewrite Hd, Ht. cbn [andb negb].
  cbn [mbind result_bind]. pose proof (run_pre_no_match pre (fresh w)) as Hm.
  destruct (no_match pre (fresh w)) as [w1|].
  - rewrite (proj2 (Hm w1) eq_refl). cbn [mbind result_bind andb negb].
    unfold run_default_fallback. rewrite (terminating_not_bypass _ Ht).
    destruct (Rule_Handle d w1) as [[err w2]| |] eqn:Eh; cbn [mbind result_bind]; try done.
    assert (err <> None) as Herr.
    { unfold Rule_Handle in Eh. unfold terminates in Ht. destruct (cmd_exec (rule_Do d)) as [c|]; [|done].
      by apply (terminating_never_falls_through c w1 err w2). }
    destruct err as [[]|]; try done. all: cbn [mbind result_bind]; destruct post; [done|].
    all: destruct (run_post _ w2) as [[cont w3]| |]; cbn [mbind result_bind]; try done; by rewrite andb_false_r.
  - assert (forall w0, (match post with [] => Ok w0 | _ :: _ =>
      '(continue, w2) ← run_post post w0;
      if (continue : bool) && false then '(err, w3) ← Rule_Handle d w2;
        Ok (match err with Some e => note_error d e w3 | None => w3 end) else Ok w2 end)
      = (match post with [] => Ok w0 | _ :: _ =>
      '(continue, w2) ← run_post post w0;
      if (continue : bool) && false then '(err, w3) ← Rule_Handle default_bypass w2;
        Ok (match err with Some e => note_error default_bypass e w3 | None => w3 end) else Ok w2 end)) as Hpost.
    { intros w0. destruct post; [done|]. destruct (run_post _ w0) as [[cont w2]| |]; try done. cbn. by rewrite andb_false_r. }
    destruct (run_pre pre false (fresh w)) as [[[[|] [|]] w1]| |]; cbn [mbind result_bind andb negb]; try done;
      [| |by rewrite Hpost|by rewrite Hpost].
    + destruct (up w1); cbn [mbind result_bind]; try done. by rewrite Hpost.
    + specialize (Hm w1). by apply proj1 in Hm; discriminate (Hm eq_refl).
Qed.

(** the actions in front of a trailing [bypass] never run: a matching
    pre-rule whose last action is [bypass] goes straight to the upstream,
    whatever [l] holds. *)
Theorem bypass_skips_actions up r l w :
  cmd_exec (rule_Do r) = Some (Commands (l ++ [BypassCommand])) ->
  rule_Name r <> B "default" -> rule_Name r <> [] -> IsResponseRule r = false ->
  handler up [r] w =
  ('(_, w1) ← Rule_Check r (fresh w); w2 ← up w1; Ok (flush w2)).
Proof.
  intros Hc Hd Hn Hr. rewrite single_pre_rule by done. cbn [run_pre].
  destruct (Rule_Check r (fresh w)) as [[b w1]| |]; cbn [mbind result_bind]; try done.
  assert (Hb : isBypass (rule_Do r) = true).
  { unfold isBypass. rewrite Hc. by rewrite last_snoc. }
  rewrite Hb. destruct b; cbn [mbind result_bind]; by destruct (up w1).
Qed.

(** A rule with an empty [do] crashes the request it matches: the handler
    calls a method of a nil interface. *)
Theorem empty_do_panics up r w w1 :
  cmd_exec (rule_Do r) = None ->
  rule_Name r <> B "default" -> rule_Name r <> [] -> IsResponseRule r = false ->
  Rule_Check r (fresh w) = Ok (true, w1) ->
  handler up [r] w = Panic NilDereference.
Proof.
  intros Hc Hd Hn Hr Hm. rewrite single_pre_rule by done. cbn [run_pre].
  rewrite Hm. cbn [mbind result_bind]. unfold isBypass, Rule_Handle. by rewrite Hc.
Qed.

End Flow.

Definition whole_write (b : bytes) : nat * bool := (length b, false).

Definition forbidden : templateString :=
  {| tmpl_string := "Forbidden" ++ [newline]; isTemplate := false |}.

Definition forbidden_cmd : Command :=
  {| cmd_raw := "error 403 Forbidden"; cmd_exec := Some (Commands [cmd_error 403 forbidden]);
     cmd_isResponseHandler := false |}.

Example forbidden_cmd_parsed : Command_Parse "error 403 Forbidden" = Ok forbidden_cmd.
Proof. reflexivity. Qed.

Lemma error_rule_blocks_witness :
  exists w', BuildHandler whole_write false (fun w => Panic ExplicitPanic)
    [{| rule_Name := "block"; rule_On := parsed_example_on; rule_Do := forbidden_cmd |};
     {| rule_Name := "all"; rule_On := parsed_example_on; rule_Do := forbidden_cmd |}]
    (example_world "POST" "/api/x" ∅) = Ok w'
  /\ w_sent (out w') = Some 403 /\ w_body (out w') = B "Forbidden" ++ [newline].
Proof.
  assert (Hm : on_meaning example_on (view_of (fresh (example_world "POST" "/api/x" ∅))) = true)
    by (vm_compute; reflexivity).
  pose proof (error_rule_blocks whole_write false (fun w => Panic ExplicitPanic) example_on parsed_example_on
    forbidden_cmd "block" 403 (B "Forbidden" ++ [newline])
    [{| rule_Name := "all"; rule_On := parsed_example_on; rule_Do := forbidden_cmd |}]
    (example_world "POST" "/api/x" ∅)) as H.
  cbv zeta in H. rewrite Hm in H.
  apply H; [reflexivity|vm_compute; reflexivity|vm_compute; reflexivity|reflexivity|reflexivity
    |discriminate|discriminate| |discriminate|discriminate|reflexivity|reflexivity].
  constructor; [|constructor]. split; [discriminate|split; [discriminate|vm_compute; reflexivity]].
Defined.

Definition pass_up (w : world) : result unit world := Ok (rm_Write "upstream" w).

Definition mk_rule (name : bytes) (on do_ : bytes) : option Rule :=
  match RuleOn_Parse on, Command_Parse do_ with
  | Ok (o, []), Ok c => Some {| rule_Name := name; rule_On := o; rule_Do := c |}
  | _, _ => None
  end.

Definition get_rule (name on do_ : bytes) : Rule := default default_bypass (mk_rule name on do_).

(** A default rule, a rule on requests and one on responses. *)
Definition example_rules : list Rule :=
  [get_rule "default" "" "error 404 none"; get_rule "api" "path glob(/api/*)" "set header X-Api 1";
   get_rule "missing" "status 404" "set resp_header X-Missing 1"].

Definition fallback_world : world := example_world "GET" "/x" ∅.

Lemma default_is_fallback_witness :
  exists w1, no_match [get_rule "api" "path glob(/api/*)" "set header X-Api 1"] (fresh fallback_world) = Some w1
  /\ BuildHandler whole_write false (fun w => Panic ExplicitPanic) example_rules fallback_world
     = (w2 ← respond_default (get_rule "default" "" "error 404 none") (drop 1 example_rules) w1;
        Ok (FlushRelease whole_write false w2).2).
Proof.
  pose proof (default_is_fallback whole_write false (fun w => Panic ExplicitPanic) example_rules
    (get_rule "default" "" "error 404 none") (drop 1 example_rules) fallback_world
    ltac:(reflexivity) ltac:(discriminate) ltac:(vm_compute; reflexivity) ltac:(vm_compute; reflexivity)) as H.
  change (List.filter (fun r => negb (IsResponseRule r)) (drop 1 example_rules))
    with [get_rule "api" "path glob(/api/*)" "set header X-Api 1"] in H.
  destruct (no_match _ (fresh fallback_world)) as [w1|] eqn:E.
  - exists w1. split; [reflexivity|exact H].
  - exfalso. vm_compute in E. discriminate E.
Defined.

Definition set_seen : CommandHandler :=
  default BypassCommand (fh_set (field_header "X-Seen" {| tmpl_string := "1"; isTemplate := false |})).

Definition bypass_cmd : Command :=
  {| cmd_raw := "set header X-Seen 1" ++ [newline] ++ "bypass";
     cmd_exec := Some (Commands ([set_seen] ++ [BypassCommand])); cmd_isResponseHandler := false |}.

Example bypass_cmd_parsed : Command_Parse (cmd_raw bypass_cmd) = Ok bypass_cmd.
Proof. reflexivity. Qed.

Definition bypass_rule : Rule :=
  {| rule_Name := "ws"; rule_On := parsed_example_on; rule_Do := bypass_cmd |}.

Lemma bypass_skips_actions_witness :
  BuildHandler whole_write false pass_up [bypass_rule] (example_world "GET" "/" ∅)
  = ('(_, w1) ← Rule_Check bypass_rule (fresh (example_world "GET" "/" ∅));
     w2 ← pass_up w1; Ok (FlushRelease whole_write false w2).2).
Proof.
  apply (bypass_skips_actions whole_write false pass_up bypass_rule [set_seen]);
    [reflexivity|discriminate|discriminate|reflexivity].
Defined.

Definition noop_rule : Rule :=
  {| rule_Name := "noop"; rule_On := {| on_raw := []; on_checker := None; on_isResponseChecker := false |};
     rule_Do := {| cmd_raw := []; cmd_exec := None; cmd_isResponseHandler := false |} |}.

Lemma empty_do_panics_witness :
  Command_Parse [] = Ok (rule_Do noop_rule) /\
  BuildHandler whole_write false pass_up [noop_rule] (example_world "GET" "/" ∅) = Panic NilDereference.
Proof.
  split; [reflexivity|].
  apply (empty_do_panics whole_write false pass_up noop_rule _ (fresh (example_world "GET" "/" ∅)));
    [reflexivity|discriminate|discriminate|reflexivity|reflexivity].
Defined.
