(* ===== verification/LoadBalancer.v ===== *)
(** * The load balancer

    Models internal/net/gphttp/loadbalancer: the pool of servers, [AddServer],
    [RemoveServer] and [rebalance] (with the float64 scaling as the IEEE-754
    binary64 operations of SpecFloat), the three policies (round robin, least
    connections, IP hash), sticky sessions and [ServeHTTP].

    Servers are mutable objects shared by pointer: a server is its identity,
    and weights and statuses live in a store.  The order in which
    [xsync.Map.Range] visits the pool is unspecified: it is the parameter
    [order], a permutation of the pool that may
    differ from one traversal to the next. *)

From Stdlib Require Import SpecFloat.
From S2P Require Import Prelude GoStrings NetAddr Health.

(** ** Data *)

Record server := Server { sv_id : nat; sv_key : bytes }.

#[export] Instance server_eq_dec : EqDecision server.
Proof. solve_decision. Defined.

(** The objects that implement [impl]. *)
Inductive policy :=
  | RoundRobin (index : Z)                    (* atomic.Uint32 *)
  | LeastConn (nConn : gmap nat Z)            (* server id -> open requests *)
  | IPHash (pool : list server).

Record LoadBalancer := {
  lb_pool : list server;                      (* at most one per key *)
  lb_weight : gmap nat Z;                     (* srv.weight, by server id *)
  lb_sumWeight : Z;
  lb_impl : policy;
  lb_finished : bool                          (* the task was finished *)
}.

Definition maxWeight : Z := 100.

(** ** Weights *)

(** [float64(z)], and the conversion [int(f)] (truncation). *)
Definition float64 (z : Z) : spec_float := binary_normalize 53 1024 z 0 false.

Definition int_of_float (f : spec_float) : Z :=
  match f with
  | S754_finite s m e =>
      let a := if 0 <=? e then Zpos m * 2 ^ e else Zpos m / 2 ^ (- e) in
      if s then - a else a
  | _ => 0
  end.

(** [int(float64(w) * (float64(maxWeight) / float64(sum)))]. *)
Definition scale_weight (sum w : Z) : Z :=
  int_of_float (SFmul 53 1024 (float64 w) (SFdiv 53 1024 (float64 maxWeight) (float64 sum))).

Definition weight_of (ws : gmap nat Z) (s : server) : Z := default 0 (ws !! sv_id s).

Section Balance.

(** The order of the [i]-th traversal of the pool in a call. *)
Context (order : nat -> list server -> list server).

(** The loop that distributes [maxWeight] evenly: state is the store,
    [lb.sumWeight] and [remainder]. *)
Definition even_step (weightEach : Z) (st : gmap nat Z * Z * Z) (s : server) : gmap nat Z * Z * Z :=
  let '(ws, sum, remainder) := st in
  let '(w, remainder) := if 0 <? remainder then (weightEach + 1, remainder - 1) else (weightEach, remainder) in
  (<[sv_id s := w]> ws, sum + weightEach, remainder).

(** The loop that scales every weight. *)
Definition scale_step (oldSum : Z) (st : gmap nat Z * Z) (s : server) : gmap nat Z * Z :=
  let '(ws, sum) := st in
  let w := scale_weight oldSum (weight_of ws s) in
  (<[sv_id s := w]> ws, sum + w).

(** The loop that spreads the rounding difference. *)
Definition delta_step (st : gmap nat Z * Z * Z) (s : server) : gmap nat Z * Z * Z :=
  let '(ws, sum, delta) := st in
  if delta =? 0 then st
  else if 0 <? delta then (<[sv_id s := weight_of ws s + 1]> ws, sum + 1, delta - 1)
  else (<[sv_id s := weight_of ws s - 1]> ws, sum - 1, delta + 1).

Definition with_weights (ws : gmap nat Z) (sum : Z) (lb : LoadBalancer) : LoadBalancer :=
  {| lb_pool := lb_pool lb; lb_weight := ws; lb_sumWeight := sum; lb_impl := lb_impl lb;
     lb_finished := lb_finished lb |}.

Definition rebalance (lb : LoadBalancer) : LoadBalancer :=
  if lb_sumWeight lb =? maxWeight then lb
  else
    let poolSize := Z.of_nat (length (lb_pool lb)) in
    if poolSize =? 0 then lb
    else if lb_sumWeight lb =? 0 then
      let '(ws, sum, _) :=
        fold_left (even_step (maxWeight / poolSize)) (order 0 (lb_pool lb))
          (lb_weight lb, lb_sumWeight lb, maxWeight mod poolSize) in
      with_weights ws sum lb
    else
      let '(ws, sum) :=
        fold_left (scale_step (lb_sumWeight lb)) (order 0 (lb_pool lb)) (lb_weight lb, 0) in
      let delta := maxWeight - sum in
      if delta =? 0 then with_weights ws sum lb
      else
        let '(ws, sum, _) := fold_left delta_step (order 1 (lb_pool lb)) (ws, sum, delta) in
        with_weights ws sum lb.

(** ** Policies *)

(** [slices.Delete(l, i, j)]. *)
Definition slices_Delete (l : list server) (i j : nat) : result unit (list server) :=
  if (i <=? j)%nat && (j <=? length l)%nat then Ok (take i l ++ drop j l) else Panic SliceOutOfBounds.

Fixpoint index_of (s : server) (l : list server) : option nat :=
  match l with
  | [] => None
  | x :: l' => if bool_decide (x = s) then Some 0%nat else S <$> index_of s l'
  end.

Definition OnAddServer (p : policy) (s : server) : policy :=
  match p with
  | RoundRobin i => RoundRobin i
  | LeastConn n => LeastConn (<[sv_id s := 0]> n)
  | IPHash l => IPHash (l ++ [s])
  end.

(** The IP-hash policy deletes the range from [i] to 1. *)
Definition OnRemoveServer (p : policy) (s : server) : result unit policy :=
  match p with
  | RoundRobin i => Ok (RoundRobin i)
  | LeastConn n => Ok (LeastConn (delete (sv_id s) n))
  | IPHash l =>
      match index_of s l with
      | Some i => IPHash <$> slices_Delete l i 1
      | None => Ok (IPHash l)
      end
  end.

Definition set_impl (p : policy) (lb : LoadBalancer) : LoadBalancer :=
  {| lb_pool := lb_pool lb; lb_weight := lb_weight lb; lb_sumWeight := lb_sumWeight lb; lb_impl := p;
     lb_finished := lb_finished lb |}.

Definition set_pool (pl : list server) (sum : Z) (lb : LoadBalancer) : LoadBalancer :=
  {| lb_pool := pl; lb_weight := lb_weight lb; lb_sumWeight := sum; lb_impl := lb_impl lb;
     lb_finished := lb_finished lb |}.

Definition pool_Get (k : bytes) (l : list server) : option server :=
  List.find (fun s => bool_decide (sv_key s = k)) l.

Definition pool_Del (k : bytes) (l : list server) : list server :=
  List.filter (fun s => negb (bool_decide (sv_key s = k))) l.

(** [AddServer]: replaces a server with the same key. *)
Definition AddServer (s : server) (lb : LoadBalancer) : result unit LoadBalancer :=
  lb ← match pool_Get (sv_key s) (lb_pool lb) with
       | Some old =>
           p ← OnRemoveServer (lb_impl lb) old;
           Ok (set_impl p (set_pool (pool_Del (sv_key old) (lb_pool lb))
                             (lb_sumWeight lb - weight_of (lb_weight lb) old) lb))
       | None => Ok lb
       end;
  let lb := set_pool (lb_pool lb ++ [s]) (lb_sumWeight lb + weight_of (lb_weight lb) s) lb in
  let lb := rebalance lb in
  Ok (set_impl (OnAddServer (lb_impl lb) s) lb).

Definition RemoveServer (s : server) (lb : LoadBalancer) : result unit LoadBalancer :=
  match pool_Get (sv_key s) (lb_pool lb) with
  | None => Ok lb
  | Some _ =>
      let lb := set_pool (pool_Del (sv_key s) (lb_pool lb))
                  (lb_sumWeight lb - weight_of (lb_weight lb) s) lb in
      let lb := rebalance lb in
      p ← OnRemoveServer (lb_impl lb) s;
      let lb := set_impl p lb in
      Ok {| lb_pool := lb_pool lb; lb_weight := lb_weight lb; lb_sumWeight := lb_sumWeight lb;
            lb_impl := lb_impl lb;
            lb_finished := lb_finished lb || (length (lb_pool lb) =? 0)%nat |}
  end.

(** *** Choosing a server *)

(** [(lb.index.Add(1) - 1) % uint32(len(srvs))] on uint32. *)
Definition rr_ChooseServer (index : Z) (srvs : list server) : option server * Z :=
  match srvs with
  | [] => (None, index)
  | _ =>
      let added := (index + 1) mod 2 ^ 32 in
      let i := (added - 1) mod 2 ^ 32 mod Z.of_nat (length srvs) in
      (srvs !! Z.to_nat i, added)
  end.

(** The loop of [leastConn.ChooseServer]: the best server so far and its
    count. *)
Definition lc_step (nConn : gmap nat Z) (best : option (server * Z)) (s : server) : option (server * Z) :=
  match nConn !! sv_id s with
  | None => best
  | Some n =>
      match best with
      | None => Some (s, n)
      | Some (_, m) => if n <? m then Some (s, n) else best
      end
  end.

Definition lc_ChooseServer (nConn : gmap nat Z) (srvs : list server) : option server :=
  fst <$> fold_left (lc_step nConn) srvs None.

Section Hash.

(** [xxhash3.HashString], a 64-bit hash. *)
Context (hash : bytes -> Z).

Definition client_ip (remoteAddr : bytes) : bytes :=
  match SplitHostPort remoteAddr with Some (ip, _) => ip | None => remoteAddr end.

Definition iphash_ChooseServer (pool : list server) (remoteAddr : bytes) : option server :=
  match pool with
  | [] => None
  | _ => pool !! Z.to_nat (hash (client_ip remoteAddr) mod Z.of_nat (length pool))
  end.

(** [ChooseServer] of the policy, with its new state. *)
Definition ChooseServer (p : policy) (srvs : list server) (remoteAddr : bytes) : option server * policy :=
  match p with
  | RoundRobin i => let '(s, i) := rr_ChooseServer i srvs in (s, RoundRobin i)
  | LeastConn n => (lc_ChooseServer n srvs, p)
  | IPHash l => (iphash_ChooseServer l remoteAddr, p)
  end.

(** *** sticky.go *)

(** The eight bytes of the hash in memory order, in hexadecimal. *)
Definition hex_digit (d : Z) : ascii := zbyte (if d <? 10 then 48 + d else 87 + d).

Definition hex_byte (b : Z) : bytes := [hex_digit (b / 16); hex_digit (b mod 16)].

Definition hashServerKey (key : bytes) : bytes :=
  concat (map (fun i => hex_byte (hash key / 256 ^ i mod 256)) [0; 1; 2; 3; 4; 5; 6; 7]).

Definition getStickyServer (cookie : option bytes) (srvs : list server) : option server :=
  match cookie with
  | None => None
  | Some v => List.find (fun s => bool_decide (hashServerKey (sv_key s) = v)) srvs
  end.

(** *** ServeHTTP *)

(** What [ServeHTTP] reads of a request. *)
Record lb_request := {
  rq_path : bytes;
  rq_remote : bytes;
  rq_sticky : option bytes          (* the cookie godoxy_lb_sticky *)
}.

(** What [ServeHTTP] does: forward to a server (after setting the cookie, if
    any), or answer with an error code. *)
Inductive lb_action :=
  | Forward (s : server) (set_cookie : option bytes)
  | HTTPError (code : Z)
  | Answered.                       (* the real_ip middleware answered *)

Definition WakeEventsPath : bytes := "/$godoxy/wake-events".

Definition isIdlewatcherRequest (path : bytes) : bool :=
  bool_decide (path = WakeEventsPath) || bool_decide (path = B "/favicon.ico")
  || bool_decide (path = B "/$godoxy/style.css") || bool_decide (path = B "/$godoxy/loading.js").

Definition availServers (status : server -> Z) (lb : LoadBalancer) : list server :=
  List.filter (fun s => Good (status s)) (order 0 (lb_pool lb)).

(** The servers woken up by a request for the event stream. *)
Definition wake_targets (status : server -> Z) (lb : LoadBalancer) (r : lb_request) : list server :=
  if bool_decide (rq_path r = WakeEventsPath) then availServers status lb else [].

(** The middleware real_ip of the IP-hash policy: the request with the client
    address it resolved, or [None] when it does not proceed. *)
Context (realIP : lb_request -> option lb_request).

(** The part of [ServeHTTP] after the sticky-session part, with the
    [ServeHTTP] of the policies that have one. *)
Definition serve_plain (status : server -> Z) (lb : LoadBalancer) (srvs : list server)
    (r : lb_request) : lb_action * policy :=
  match lb_impl lb with
  | IPHash l =>
      match realIP r with
      | None => (Answered, IPHash l)
      | Some r =>
          match iphash_ChooseServer l (rq_remote r) with
          | None => (HTTPError 503, IPHash l)
          | Some s => (if Bad (status s) then HTTPError 503 else Forward s None, IPHash l)
          end
      end
  | LeastConn n =>
      match lc_ChooseServer n srvs with
      | None => (HTTPError 503, LeastConn n)
      | Some s => match n !! sv_id s with
                  | None => (HTTPError 500, LeastConn n)
                  | Some _ => (Forward s None, LeastConn n)
                  end
      end
  | RoundRobin i =>
      let '(s, i) := rr_ChooseServer i srvs in
      (match s with None => HTTPError 503 | Some s => Forward s None end, RoundRobin i)
  end.

Definition ServeHTTP (sticky : bool) (status : server -> Z) (lb : LoadBalancer) (r : lb_request)
    : lb_action * policy :=
  let srvs := availServers status lb in
  match srvs with
  | [] => (HTTPError 503, lb_impl lb)
  | _ =>
      if sticky || isIdlewatcherRequest (rq_path r) then
        match getStickyServer (rq_sticky r) srvs with
        | Some s => (Forward s None, lb_impl lb)
        | None =>
            match ChooseServer (lb_impl lb) srvs (rq_remote r) with
            | (Some s, p) => (Forward s (Some (hashServerKey (sv_key s))), p)
            | (None, p) => serve_plain status (set_impl p lb) srvs r
            end
        end
      else serve_plain status lb srvs r
  end.

End Hash.

(** *** Status *)

Definition lb_status (status : server -> Z) (lb : LoadBalancer) : Z * nat :=
  match lb_pool lb with
  | [] => (StatusUnknown, 0%nat)
  | _ =>
      let numHealthy := length (List.filter (fun s => Good (status s)) (order 0 (lb_pool lb))) in
      (if (numHealthy =? 0)%nat then StatusUnhealthy else StatusHealthy, numHealthy)
  end.

End Balance.

(** ** Lemmas: weights *)

Definition total (ws : gmap nat Z) (l : list server) : Z := sum_Z (map (weight_of ws) l).

Lemma total_perm ws l1 l2 : l1 ≡ₚ l2 -> total ws l1 = total ws l2.
Proof. unfold total, sum_Z. induction 1; simpl in *; lia. Qed.

Definition ids (l : list server) : list nat := map sv_id l.

Lemma ids_perm l1 l2 : l1 ≡ₚ l2 -> ids l1 ≡ₚ ids l2.
Proof. apply Permutation_map. Qed.

Lemma weight_of_insert_ne ws i w s : sv_id s <> i -> weight_of (<[i := w]> ws) s = weight_of ws s.
Proof. intros H. unfold weight_of. by rewrite lookup_insert_ne. Qed.

Lemma weight_of_insert ws s w : weight_of (<[sv_id s := w]> ws) s = w.
Proof. unfold weight_of. by rewrite lookup_insert_eq. Qed.

Lemma total_insert_ne ws i w l : i ∉ ids l -> total (<[i := w]> ws) l = total ws l.
Proof.
  unfold total, ids. induction l as [|s l IH]; simpl; [done|]. rewrite not_elem_of_cons.
  intros [Hs Hl]. rewrite weight_of_insert_ne by done. by rewrite IH.
Qed.

(** What a loop over [l] that writes one server per iteration leaves alone. *)
Definition frame (ws ws' : gmap nat Z) (l : list server) : Prop :=
  forall i, i ∉ ids l -> ws' !! i = ws !! i.

Lemma frame_weight ws ws' l s : frame ws ws' l -> sv_id s ∉ ids l -> weight_of ws' s = weight_of ws s.
Proof. intros Hf Hs. unfold weight_of. by rewrite Hf. Qed.

Lemma even_fold we l : forall ws sum r ws' sum' r',
  NoDup (ids l) -> 0 <= r ->
  fold_left (even_step we) l (ws, sum, r) = (ws', sum', r') ->
  frame ws ws' l /\ sum' = sum + Z.of_nat (length l) * we
  /\ total ws' l = Z.of_nat (length l) * we + Z.min r (Z.of_nat (length l))
  /\ Forall (fun s => we <= weight_of ws' s <= we + 1) l.
Proof.
  induction l as [|s l IH]; intros ws sum r ws' sum' r' Hnd Hr Hf; simpl in Hf.
  { simplify_eq. unfold total. simpl. repeat split; try done; lia. }
  inversion Hnd as [|? ? Hs Hnd']; subst.
  set (w := if 0 <? r then we + 1 else we). set (r1 := if 0 <? r then r - 1 else r).
  assert (Hf' : fold_left (even_step we) l (<[sv_id s := w]> ws, sum + we, r1) = (ws', sum', r')).
  { rewrite <- Hf. unfold w, r1. by destruct (0 <? r). }
  assert (Hr1 : 0 <= r1) by (unfold r1; destruct (Z.ltb_spec 0 r); lia).
  destruct (IH _ _ _ _ _ _ Hnd' Hr1 Hf') as (Hfr & -> & Ht & Hall).
  assert (Hw : weight_of ws' s = w).
  { rewrite (frame_weight _ _ _ _ Hfr Hs). apply weight_of_insert. }
  split; [|split; [|split]].
  - intros i Hi. simpl in Hi. rewrite not_elem_of_cons in Hi. destruct Hi as [Hi1 Hi2].
    rewrite Hfr by done. by rewrite lookup_insert_ne.
  - simpl length. lia.
  - unfold total in *. simpl. rewrite Hw, Ht. unfold w, r1. destruct (Z.ltb_spec 0 r); lia.
  - constructor; [|done]. rewrite Hw. unfold w. destruct (0 <? r); lia.
Qed.

Lemma scale_fold old l : forall ws sum ws' sum',
  NoDup (ids l) -> fold_left (scale_step old) l (ws, sum) = (ws', sum') ->
  frame ws ws' l /\ sum' = sum + total ws' l
  /\ Forall (fun s => weight_of ws' s = scale_weight old (weight_of ws s)) l.
Proof.
  induction l as [|s l IH]; intros ws sum ws' sum' Hnd Hf; simpl in Hf.
  { simplify_eq. repeat split; try done. unfold total. simpl. lia. }
  inversion Hnd as [|? ? Hs Hnd']; subst.
  destruct (IH _ _ _ _ Hnd' Hf) as (Hfr & -> & Hall).
  assert (Hw : weight_of ws' s = scale_weight old (weight_of ws s)).
  { rewrite (frame_weight _ _ _ _ Hfr Hs). apply weight_of_insert. }
  split; [|split].
  - intros i Hi. simpl in Hi. rewrite not_elem_of_cons in Hi. destruct Hi as [Hi1 Hi2].
    rewrite Hfr by done. by rewrite lookup_insert_ne.
  - unfold total. simpl. rewrite Hw. lia.
  - constructor; [done|]. apply Forall_forall. intros x Hx. rewrite Forall_forall in Hall.
    rewrite Hall by done. f_equal. apply weight_of_insert_ne.
    intros Heq. apply Hs. rewrite <- Heq. by apply list_elem_of_fmap_2.
Qed.

Lemma delta_fold l : forall ws sum d ws' sum' d',
  NoDup (ids l) -> 0 <= d <= Z.of_nat (length l) ->
  fold_left delta_step l (ws, sum, d) = (ws', sum', d') ->
  frame ws ws' l /\ sum' = sum + d /\ total ws' l = total ws l + d
  /\ Forall (fun s => weight_of ws s <= weight_of ws' s) l.
Proof.
  induction l as [|s l IH]; intros ws sum d ws' sum' d' Hnd Hd Hf; simpl in Hf, Hd.
  { simplify_eq. repeat split; try done; [lia|]. unfold total. simpl. lia. }
  inversion Hnd as [|? ? Hs Hnd']; subst.
  destruct (Z.eqb_spec d 0) as [->|Hd0].
  - destruct (IH _ _ 0 _ _ _ Hnd' ltac:(lia) Hf) as (Hfr & Hsum & Ht & Hall).
    assert (Hw : weight_of ws' s = weight_of ws s) by exact (frame_weight _ _ _ _ Hfr Hs).
    split; [|split; [done|split]].
    + intros i Hi. apply Hfr. simpl in Hi. rewrite not_elem_of_cons in Hi. tauto.
    + unfold total in *. simpl. rewrite Hw, Ht. lia.
    + constructor; [lia|done].
  - rewrite (proj2 (Z.ltb_lt 0 d)) in Hf by lia.
    destruct (IH _ _ (d - 1) _ _ _ Hnd' ltac:(lia) Hf) as (Hfr & Hsum & Ht & Hall).
    assert (Hw : weight_of ws' s = weight_of ws s + 1).
    { rewrite (frame_weight _ _ _ _ Hfr Hs). apply weight_of_insert. }
    rewrite total_insert_ne in Ht by done.
    split; [|split; [lia|split]].
    + intros i Hi. simpl in Hi. rewrite not_elem_of_cons in Hi. destruct Hi as [Hi1 Hi2].
      rewrite Hfr by done. by rewrite lookup_insert_ne.
    + unfold total in *. simpl. rewrite Hw. lia.
    + constructor; [lia|]. rewrite Forall_forall in Hall |- *. intros x Hx.
      rewrite <- (weight_of_insert_ne ws (sv_id s) (weight_of ws s + 1)); [by apply Hall|].
      intros Heq. apply Hs. rewrite <- Heq. by apply list_elem_of_fmap_2.
Qed.

(** The float64 computation is within its relative error of the exact
    quotient, and truncation takes off less than one. *)
Definition accurate (sum w : Z) : bool :=
  let q := scale_weight sum w in
  (0 <=? q) && (100 * w * (2 ^ 51 - 1) <? 2 ^ 51 * (sum * (q + 1)))
  && (2 ^ 51 * (sum * q) <=? 100 * w * (2 ^ 51 + 1)).

Lemma accurate_total sum ws ws' l :
  0 < sum -> l <> [] -> total ws l = sum ->
  Forall (fun s => weight_of ws' s = scale_weight sum (weight_of ws s)) l ->
  Forall (fun s => accurate sum (weight_of ws s) = true) l ->
  100 - Z.of_nat (length l) <= total ws' l <= 100.
Proof.
  intros Hs Hne Ht Hsc Hacc.
  assert (G : forall l, Forall (fun s => weight_of ws' s = scale_weight sum (weight_of ws s)) l ->
    Forall (fun s => accurate sum (weight_of ws s) = true) l ->
    100 * total ws l * (2 ^ 51 - 1) + Z.of_nat (length l)
      <= 2 ^ 51 * (sum * (total ws' l + Z.of_nat (length l)))
    /\ 2 ^ 51 * (sum * total ws' l) <= 100 * total ws l * (2 ^ 51 + 1)).
  { clear. intros l Hsc Hacc. induction l as [|s l IH]; [unfold total; simpl; lia|].
    inversion Hsc as [|? ? Hw Hsc']; inversion Hacc as [|? ? Ha Hacc']; subst.
    destruct (IH Hsc' Hacc') as [IH1 IH2]. unfold accurate in Ha. rewrite <- Hw in Ha. reflect.
    unfold total in *. cbn [map sum_Z foldr length] in *. fold (sum_Z (map (weight_of ws) l)) in *.
    fold (sum_Z (map (weight_of ws') l)) in *. rewrite Nat2Z.inj_succ. lia. }
  destruct (G l Hsc Hacc) as [G1 G2]. rewrite Ht in *.
  assert (0 < Z.of_nat (length l)) by (destruct l; [done|simpl; lia]). nia.
Qed.

Section Theorems.

Context (order : nat -> list server -> list server).
Hypothesis order_perm : forall i l, order i l ≡ₚ l.

Lemma order_ids i l : NoDup (ids l) -> NoDup (ids (order i l)).
Proof. intros H. by rewrite (ids_perm _ _ (order_perm i l)). Qed.

Lemma order_length i l : length (order i l) = length l.
Proof. apply Permutation_length, order_perm. Qed.

(** servers without weights share 100 evenly: the weights add up to 100
    and differ by at most one.  The recorded [sumWeight] does not count the
    remainder: it is [100 - 100 mod n]. *)
Theorem rebalance_even lb :
  NoDup (ids (lb_pool lb)) -> lb_pool lb <> [] -> lb_sumWeight lb = 0 ->
  let n := Z.of_nat (length (lb_pool lb)) in
  let lb' := rebalance order lb in
  total (lb_weight lb') (lb_pool lb) = 100
  /\ Forall (fun s => 100 / n <= weight_of (lb_weight lb') s <= 100 / n + 1) (lb_pool lb)
  /\ lb_sumWeight lb' = 100 - 100 mod n.
Proof.
  intros Hnd Hne Hs n lb'.
  assert (Hn : 0 < n) by (unfold n; destruct (lb_pool lb); [done|simpl; lia]).
  unfold lb', rebalance. rewrite Hs. simpl (0 =? maxWeight).
  rewrite (proj2 (Z.eqb_neq (Z.of_nat _) 0)) by (fold n; lia). simpl (0 =? 0). cbv iota.
  fold n. unfold maxWeight.
  destruct (fold_left _ _ _) as [[ws sum] r] eqn:E.
  pose proof (Z.mod_pos_bound 100 n Hn) as Hm. pose proof (Z.div_mod 100 n ltac:(lia)) as Hdm.
  apply even_fold in E as (_ & -> & Ht & Hall); [|by apply order_ids|lia].
  rewrite order_length in *. fold n in Ht. simpl. split; [|split].
  - rewrite (total_perm _ _ _ (symmetry (order_perm 0 (lb_pool lb)))), Ht. lia.
  - by rewrite (order_perm 0 (lb_pool lb)) in Hall.
  - fold n. lia.
Qed.

(** otherwise the weights are scaled so that they add up to exactly 100,
    and [sumWeight] records it: the rounding of the float64 computation loses
    at most one per server, which the second loop gives back. *)
Theorem rebalance_scales lb :
  NoDup (ids (lb_pool lb)) -> lb_pool lb <> [] ->
  lb_sumWeight lb = total (lb_weight lb) (lb_pool lb) -> 0 < lb_sumWeight lb ->
  Forall (fun s => accurate (lb_sumWeight lb) (weight_of (lb_weight lb) s) = true) (lb_pool lb) ->
  Forall (fun s => 0 <= weight_of (lb_weight lb) s) (lb_pool lb) ->
  let lb' := rebalance order lb in
  total (lb_weight lb') (lb_pool lb) = 100 /\ lb_sumWeight lb' = 100
  /\ Forall (fun s => 0 <= weight_of (lb_weight lb') s) (lb_pool lb).
Proof.
  intros Hnd Hne Hsum Hpos Hacc Hnn lb'. unfold lb', rebalance.
  destruct (Z.eqb_spec (lb_sumWeight lb) maxWeight) as [H100|H100].
  { rewrite <- Hsum. by rewrite H100. }
  assert (Hn : 0 < Z.of_nat (length (lb_pool lb))) by (destruct (lb_pool lb); [done|simpl; lia]).
  rewrite (proj2 (Z.eqb_neq (Z.of_nat _) 0)) by lia.
  rewrite (proj2 (Z.eqb_neq (lb_sumWeight lb) 0)) by lia.
  destruct (fold_left (scale_step _) _ _) as [ws sum] eqn:E.
  apply scale_fold in E as (_ & Hs & Hall); [|by apply order_ids].
  rewrite (total_perm _ _ _ (order_perm 0 (lb_pool lb))) in Hs.
  rewrite (order_perm 0 (lb_pool lb)) in Hall.
  pose proof (accurate_total _ _ _ _ Hpos Hne (eq_sym Hsum) Hall Hacc) as Hb.
  assert (Hq : Forall (fun s => 0 <= weight_of ws s) (lb_pool lb)).
  { apply Forall_forall. intros s Hin. rewrite Forall_forall in Hall, Hacc.
    rewrite (Hall s Hin). specialize (Hacc s Hin). unfold accurate in Hacc. by reflect. }
  unfold maxWeight. destruct (Z.eqb_spec (100 - sum) 0) as [Hd|Hd].
  { simpl. repeat split; [lia|lia|done]. }
  destruct (fold_left delta_step _ _) as [[ws2 sum2] d2] eqn:E2.
  apply delta_fold in E2 as (_ & -> & Ht & Hge);
    [|by apply order_ids|rewrite order_length; lia].
  rewrite !(total_perm _ _ _ (order_perm 1 (lb_pool lb))) in Ht.
  rewrite (order_perm 1 (lb_pool lb)) in Hge. simpl. repeat split; [lia|lia|].
  apply Forall_forall. intros s Hin. rewrite Forall_forall in Hge, Hq.
  specialize (Hge s Hin). specialize (Hq s Hin). simpl in *. lia.
Qed.

End Theorems.

(** The float64 scaling is accurate for every weight of a pool whose weights
    add up to at most 120. *)
Lemma accurate_upto_120 sum w : 0 < sum <= 120 -> 0 <= w <= sum -> accurate sum w = true.
Proof.
  intros Hs Hw.
  assert (Hall : forallb (fun s => forallb (fun w => accurate (Z.of_nat s) (Z.of_nat w)) (seq 0 (S s)))
    (seq 1 120) = true) by (vm_compute; reflexivity).
  rewrite forallb_forall in Hall. specialize (Hall (Z.to_nat sum)).
  rewrite in_seq, forallb_forall in Hall. specialize (Hall ltac:(lia) (Z.to_nat w)).
  rewrite in_seq, !Z2Nat.id in Hall by lia. apply Hall. lia.
Qed.

Definition pool3 : list server := [Server 1 "a:80"; Server 2 "b:80"; Server 3 "c:80"].

Definition lb3 (w1 w2 w3 : Z) : LoadBalancer :=
  {| lb_pool := pool3; lb_weight := {[1%nat := w1; 2%nat := w2; 3%nat := w3]};
     lb_sumWeight := w1 + w2 + w3; lb_impl := RoundRobin 0; lb_finished := false |}.

Definition id_order (_ : nat) (l : list server) : list server := l.

Lemma rebalance_even_witness :
  total (lb_weight (rebalance id_order (lb3 0 0 0))) pool3 = 100
  /\ lb_sumWeight (rebalance id_order (lb3 0 0 0)) = 99.
Proof.
  destruct (rebalance_even id_order (fun _ _ => reflexivity _) (lb3 0 0 0)) as (H1 & _ & H3).
  - by apply (bool_decide_eq_true_1 (NoDup [1; 2; 3]%nat)).
  - discriminate.
  - reflexivity.
  - split; [exact H1|exact H3].
Defined.

Lemma rebalance_scales_witness :
  total (lb_weight (rebalance id_order (lb3 7 13 50))) pool3 = 100
  /\ lb_sumWeight (rebalance id_order (lb3 7 13 50)) = 100.
Proof.
  destruct (rebalance_scales id_order (fun _ _ => reflexivity _) (lb3 7 13 50)) as (H1 & H2 & _).
  - by apply (bool_decide_eq_true_1 (NoDup [1; 2; 3]%nat)).
  - discriminate.
  - reflexivity.
  - simpl. lia.
  - repeat constructor; apply accurate_upto_120; vm_compute; intuition discriminate.
  - repeat constructor; vm_compute; discriminate.
  - split; [exact H1|exact H2].
Defined.

(** ** Round robin *)

(** [n] consecutive calls with the same list of available servers. *)
Fixpoint rr_run (n : nat) (index : Z) (srvs : list server) : list (option server) * Z :=
  match n with
  | O => ([], index)
  | S n' =>
      let '(s, index) := rr_ChooseServer index srvs in
      let '(l, index) := rr_run n' index srvs in (s :: l, index)
  end.

Lemma rr_choose index srvs :
  srvs <> [] -> 0 <= index < 2 ^ 32 ->
  rr_ChooseServer index srvs
  = (srvs !! Z.to_nat (index mod Z.of_nat (length srvs)), (index + 1) mod 2 ^ 32).
Proof.
  intros Hne Hi. unfold rr_ChooseServer. destruct srvs as [|s l]; [done|].
  rewrite Zminus_mod_idemp_l, Z.add_simpl_r, (Z.mod_small index) by lia. done.
Qed.

Lemma rr_run_spec n : forall index srvs,
  srvs <> [] -> 0 <= index -> index + Z.of_nat n <= 2 ^ 32 ->
  (rr_run n index srvs).1
  = map (fun k => srvs !! Z.to_nat ((index + Z.of_nat k) mod Z.of_nat (length srvs))) (seq 0 n).
Proof.
  induction n as [|n IH]; intros index srvs Hne H0 H1; [done|]. cbn [rr_run].
  rewrite rr_choose by (done || lia).
  destruct (decide (n = 0%nat)) as [->|Hn].
  { simpl. by rewrite Z.add_0_r. }
  rewrite Z.mod_small by lia.
  specialize (IH (index + 1) srvs Hne ltac:(lia) ltac:(lia)).
  destruct (rr_run n (index + 1) srvs) as [l i]. simpl in *. rewrite Z.add_0_r. f_equal.
  rewrite IH, <- seq_shift, map_map. apply map_ext. intros k.
  by replace (index + Z.of_nat (S k)) with (index + 1 + Z.of_nat k) by lia.
Qed.

(** round robin is fair: as many calls as there are servers choose each
    server exactly once, in rotation, for every start of the counter that does
    not overflow 32 bits on the way. *)
Theorem round_robin_fair index srvs :
  srvs <> [] -> 0 <= index -> index + Z.of_nat (length srvs) <= 2 ^ 32 ->
  let k := Z.to_nat (index mod Z.of_nat (length srvs)) in
  (rr_run (length srvs) index srvs).1 = map Some (drop k srvs ++ take k srvs).
Proof.
  intros Hne H0 H1 k. rewrite rr_run_spec by done.
  set (n := length srvs) in *. assert (Hn : (0 < n)%nat) by (unfold n; destruct srvs; [done|simpl; lia]).
  pose proof (Z.mod_pos_bound index (Z.of_nat n) ltac:(lia)) as Hk.
  assert (Hkn : (k < n)%nat) by (unfold k; lia).
  apply list_eq. intros i. rewrite !list_lookup_fmap.
  destruct (decide (i < n)%nat) as [Hi|Hi].
  - rewrite lookup_seq_lt by done. simpl.
    assert (Hmod : Z.to_nat ((index + Z.of_nat i) mod Z.of_nat n)
      = if decide (k + i < n)%nat then (k + i)%nat else (k + i - n)%nat).
    { rewrite Z.add_mod, (Z.mod_small (Z.of_nat i)) by lia. unfold k in *.
      case_decide.
      - rewrite Z.mod_small by lia. lia.
      - rewrite <- (Z.mod_add _ (-1)) by lia. rewrite Z.mod_small by lia. lia. }
    rewrite Hmod. case_decide as Hc.
    + rewrite lookup_app_l by (rewrite length_drop; fold n; lia). rewrite lookup_drop.
      destruct (lookup_lt_is_Some_2 srvs (k + i)) as [x Hx]; [fold n; lia|]. by rewrite Hx.
    + rewrite lookup_app_r by (rewrite length_drop; fold n; lia). rewrite length_drop. fold n.
      rewrite lookup_take_lt by lia. replace (i - (n - k))%nat with (k + i - n)%nat by lia.
      destruct (lookup_lt_is_Some_2 srvs (k + i - n)) as [x Hx]; [fold n; lia|]. by rewrite Hx.
  - rewrite lookup_seq_ge by lia. rewrite lookup_ge_None_2; [done|].
    rewrite length_app, length_drop, length_take. fold n. lia.
Qed.

Lemma round_robin_fair_witness :
  (rr_run 3 7 pool3).1 = map Some [Server 2 "b:80"; Server 3 "c:80"; Server 1 "a:80"].
Proof.
  apply (round_robin_fair 7 pool3); [discriminate|lia|vm_compute; discriminate].
Defined.

(** ** Least connections *)

Lemma lc_fold nConn srvs : forall best,
  (forall s n, best = Some (s, n) -> nConn !! sv_id s = Some n) ->
  match fold_left (lc_step nConn) srvs best with
  | Some (s, n) =>
      nConn !! sv_id s = Some n /\ (best = Some (s, n) \/ s ∈ srvs)
      /\ (forall s' n', best = Some (s', n') -> n <= n')
      /\ (forall s' n', s' ∈ srvs -> nConn !! sv_id s' = Some n' -> n <= n')
  | None => best = None /\ forall s', s' ∈ srvs -> nConn !! sv_id s' = None
  end.
Proof.
  induction srvs as [|x srvs IH]; intros best Hb; cbn [fold_left].
  { destruct best as [[s n]|].
    - split; [by apply Hb|]. split; [by left|]. split; [by intros ? ? [= -> ->]|].
      intros ? ? H. by apply not_elem_of_nil in H.
    - split; [done|]. intros ? H. by apply not_elem_of_nil in H. }
  assert (Hb' : forall s n, lc_step nConn best x = Some (s, n) -> nConn !! sv_id s = Some n).
  { unfold lc_step. intros s n. destruct (nConn !! sv_id x) eqn:E; [|apply Hb].
    destruct best as [[s0 m]|]; [|by intros [= <- <-]].
    destruct (_ <? m); [by intros [= <- <-]|apply Hb]. }
  specialize (IH (lc_step nConn best x) Hb').
  destruct (fold_left (lc_step nConn) srvs (lc_step nConn best x)) as [[s n]|].
  - destruct IH as (H1 & H2 & H3 & H4). unfold lc_step in H2, H3.
    destruct (nConn !! sv_id x) as [c|] eqn:Ex.
    + destruct best as [[s0 m]|].
      * destruct (Z.ltb_spec c m) as [Hc|Hc]; (split; [done|]); (split; [|split]).
        -- destruct H2 as [[= <- <-]|H2]; right; [left|by right].
        -- intros ? ? [= <- <-]. specialize (H3 _ _ eq_refl). lia.
        -- intros s' n' [->|Hin]%elem_of_cons Hn; [|by eapply H4].
           specialize (H3 _ _ eq_refl). simplify_eq. lia.
        -- destruct H2 as [H2|H2]; [by left|right; by right].
        -- by intros ? ? ?%H3.
        -- intros s' n' [->|Hin]%elem_of_cons Hn; [|by eapply H4].
           specialize (H3 _ _ eq_refl). simplify_eq. lia.
      * split; [done|]. split; [|split].
        -- destruct H2 as [[= <- <-]|H2]; right; [left|by right].
        -- done.
        -- intros s' n' [->|Hin]%elem_of_cons Hn; [|by eapply H4].
           specialize (H3 _ _ eq_refl). simplify_eq. lia.
    + split; [done|]. split; [destruct H2; [by left|right; by right]|]. split; [done|].
      intros s' n' [->|Hin]%elem_of_cons Hn; [congruence|by eapply H4].
  - destruct IH as [H1 H2]. unfold lc_step in H1.
    destruct (nConn !! sv_id x) as [c|] eqn:Ex.
    + destruct best as [[s0 m]|]; [by destruct (c <? m)|done].
    + split; [done|]. intros s' [->|Hin]%elem_of_cons; [done|by apply H2].
Qed.

(** the least-connections policy picks an available server with the
    fewest open requests, and fails only when no available server is
    registered. *)
Theorem least_conn_minimal nConn srvs :
  match lc_ChooseServer nConn srvs with
  | Some s => s ∈ srvs /\ exists n, nConn !! sv_id s = Some n /\
                forall s' n', s' ∈ srvs -> nConn !! sv_id s' = Some n' -> n <= n'
  | None => forall s', s' ∈ srvs -> nConn !! sv_id s' = None
  end.
Proof.
  unfold lc_ChooseServer. pose proof (lc_fold nConn srvs None ltac:(done)) as H.
  destruct (fold_left (lc_step nConn) srvs None) as [[s n]|]; simpl.
  - destruct H as (H1 & [?|H2] & _ & H4); [done|]. split; [done|]. by exists n.
  - apply H.
Qed.

(** *** Open requests under concurrency *)

(** The counters of the least-connections policy as shared objects: [nConn]
    maps a server to its counter, requests in flight hold the counter they
    incremented.  A step is one atomic operation of some goroutine. *)
Record lc_state := {
  lc_nConn : gmap nat nat;         (* server id -> counter *)
  lc_counter : gmap nat Z;         (* counter -> value *)
  lc_inflight : list nat           (* counters held by running requests *)
}.

Inductive lc_steps : lc_state -> lc_state -> Prop :=
  | lc_OnAddServer st s c :        (* nConn.Store(srv, new(atomic.Int64)) *)
      lc_counter st !! c = None ->
      lc_steps st {| lc_nConn := <[s := c]> (lc_nConn st); lc_counter := <[c := 0]> (lc_counter st);
                     lc_inflight := lc_inflight st |}
  | lc_OnRemoveServer st s :       (* nConn.Delete(srv) *)
      lc_steps st {| lc_nConn := delete s (lc_nConn st); lc_counter := lc_counter st;
                     lc_inflight := lc_inflight st |}
  | lc_begin st s c n :            (* minConn.Add(1) *)
      lc_nConn st !! s = Some c -> lc_counter st !! c = Some n ->
      lc_steps st {| lc_nConn := lc_nConn st; lc_counter := <[c := n + 1]> (lc_counter st);
                     lc_inflight := c :: lc_inflight st |}
  | lc_end st c n l1 l2 :          (* the deferred minConn.Add(-1) *)
      lc_inflight st = l1 ++ c :: l2 -> lc_counter st !! c = Some n ->
      lc_steps st {| lc_nConn := lc_nConn st; lc_counter := <[c := n - 1]> (lc_counter st);
                     lc_inflight := l1 ++ l2 |}.

Definition lc_initial : lc_state := {| lc_nConn := ∅; lc_counter := ∅; lc_inflight := [] |}.

Fixpoint count (c : nat) (l : list nat) : Z :=
  match l with
  | [] => 0
  | x :: l' => (if bool_decide (x = c) then 1 else 0) + count c l'
  end.

Lemma count_app c l1 l2 : count c (l1 ++ l2) = count c l1 + count c l2.
Proof. induction l1; simpl; lia. Qed.

Lemma count_nonneg c l : 0 <= count c l.
Proof. induction l; simpl; [lia|]. case_bool_decide; lia. Qed.

Definition lc_inv (st : lc_state) : Prop :=
  (forall c n, lc_counter st !! c = Some n -> n = count c (lc_inflight st)) /\
  (forall c, lc_counter st !! c = None -> count c (lc_inflight st) = 0).

Lemma lc_steps_inv st st' : lc_steps st st' -> lc_inv st -> lc_inv st'.
Proof.
  intros Hstep [H1 H2]. destruct Hstep as [st s c Hc|st s|st s c n Hs Hc|st c n l1 l2 Hl Hc];
    unfold lc_inv; simpl; [split|split; done|split|split]; intros c'.
  - intros n. rewrite lookup_insert_Some. intros [[<- <-]|[_ Hn]]; [|by apply H1].
    symmetry. by apply H2.
  - rewrite lookup_insert_None. intros [Hn _]. by apply H2.
  - intros m. rewrite lookup_insert_Some. intros [[<- <-]|[Hne Hn]].
    + rewrite bool_decide_eq_true_2 by done. rewrite (H1 _ _ Hc). lia.
    + rewrite bool_decide_eq_false_2 by done. rewrite (H1 _ _ Hn). lia.
  - rewrite lookup_insert_None. intros [Hn Hne].
    rewrite bool_decide_eq_false_2 by done. rewrite (H2 _ Hn). lia.
  - intros m. rewrite Hl in *. rewrite lookup_insert_Some. intros [[<- <-]|[Hne Hn]].
    + rewrite (H1 _ _ Hc), !count_app. simpl. rewrite bool_decide_eq_true_2 by done. lia.
    + rewrite (H1 _ _ Hn), !count_app. simpl. rewrite bool_decide_eq_false_2 by done. lia.
  - rewrite lookup_insert_None. intros [Hn Hne]. specialize (H2 _ Hn). rewrite Hl in H2.
    rewrite !count_app in *. simpl in H2. rewrite bool_decide_eq_false_2 in H2 by done. lia.
Qed.

(** whatever the interleaving of requests with servers coming and going,
    every counter equals the number of requests that hold it: it is never
    negative, and returns to zero when they are done. *)
Theorem least_conn_counts st c n :
  rtc lc_steps lc_initial st -> lc_counter st !! c = Some n ->
  n = count c (lc_inflight st) /\ 0 <= n.
Proof.
  intros Hrtc Hc.
  assert (Hinv : lc_inv st).
  { assert (H0 : lc_inv lc_initial).
    { split; simpl; intros ?; [intros ? H; by rewrite lookup_empty in H|done]. }
    clear Hc. induction Hrtc as [|x y z Hxy _ IH]; [done|]. apply IH.
    by eapply lc_steps_inv. }
  destruct Hinv as [H1 _]. rewrite (H1 _ _ Hc). split; [done|apply count_nonneg].
Qed.

Lemma least_conn_counts_witness :
  exists st, rtc lc_steps lc_initial st /\ lc_counter st !! 0%nat = Some 1 /\ 1 = count 0 (lc_inflight st).
Proof.
  eexists {| lc_nConn := <[5%nat := 0%nat]> ∅; lc_counter := <[0%nat := 0 + 1]> (<[0%nat := 0]> ∅);
             lc_inflight := [0%nat] |}.
  assert (H : rtc lc_steps lc_initial
    {| lc_nConn := <[5%nat := 0%nat]> ∅; lc_counter := <[0%nat := 0 + 1]> (<[0%nat := 0]> ∅);
       lc_inflight := [0%nat] |}).
  { eapply rtc_l; [by apply (lc_OnAddServer lc_initial 5 0)|].
    eapply rtc_l; [|apply rtc_refl]. 
    exact (lc_begin {| lc_nConn := <[5%nat := 0%nat]> ∅; lc_counter := <[0%nat := 0]> ∅;
                       lc_inflight := [] |} 5 0 0 eq_refl eq_refl). }
  split; [exact H|]. split; [reflexivity|].
  destruct (least_conn_counts _ 0 1 H eq_refl) as [Hc _]. exact Hc.
Defined.

(** ** Serving requests *)

Section Serve.

Context (order : nat -> list server -> list server).
Context (hash : bytes -> Z) (realIP : lb_request -> option lb_request).

Lemma rr_choose_in index srvs s i : rr_ChooseServer index srvs = (Some s, i) -> s ∈ srvs.
Proof.
  unfold rr_ChooseServer. destruct srvs as [|x l]; [done|]. intros [= H _].
  by eapply list_elem_of_lookup_2.
Qed.

Lemma lc_choose_in n srvs s : lc_ChooseServer n srvs = Some s -> s ∈ srvs.
Proof.
  unfold lc_ChooseServer. pose proof (lc_fold n srvs None ltac:(done)) as H.
  destruct (fold_left (lc_step n) srvs None) as [[x m]|]; simpl; [|done].
  intros [= <-]. by destruct H as (_ & [?|?] & _).
Qed.

Lemma find_in {A} (p : A -> bool) l x : List.find p l = Some x -> x ∈ l /\ p x = true.
Proof. intros H. apply find_some in H. by rewrite list_elem_of_In. Qed.

Lemma avail_good status lb s : s ∈ availServers order status lb -> Good (status s) = true.
Proof.
  unfold availServers. rewrite list_elem_of_In, filter_In. tauto.
Qed.

Lemma serve_plain_good status lb srvs r s c p :
  (forall s, s ∈ srvs -> Good (status s) = true) ->
  serve_plain hash realIP status lb srvs r = (Forward s c, p) -> Good (status s) = true.
Proof.
  intros Hg. unfold serve_plain. destruct (lb_impl lb) as [i|n|l].
  - destruct (rr_ChooseServer i srvs) as [[x|] i'] eqn:E; [|done]. intros [= <- _ _].
    by eapply Hg, rr_choose_in.
  - destruct (lc_ChooseServer n srvs) as [x|] eqn:E; [|done].
    destruct (n !! sv_id x); [|done]. intros [= <- _ _]. by eapply Hg, lc_choose_in.
  - destruct (realIP r); [|done]. destruct (iphash_ChooseServer _ _ _) as [x|]; [|done].
    destruct (Bad (status x)) eqn:E; [done|]. intros [= <- _ _].
    unfold Good. unfold Bad in E. by rewrite E.
Qed.

(** a request is never forwarded to an unhealthy server, except that the
    IP-hash policy skips the check for sticky sessions and idle-watcher
    paths. *)
Theorem ServeHTTP_healthy sticky status lb r s c p :
  (forall l, lb_impl lb = IPHash l -> sticky || isIdlewatcherRequest (rq_path r) = false) ->
  ServeHTTP order hash realIP sticky status lb r = (Forward s c, p) -> Good (status s) = true.
Proof.
  intros Hip. unfold ServeHTTP.
  destruct (availServers order status lb) as [|x l] eqn:Ea; [done|]. rewrite <- Ea in *. clear Ea x l.
  pose proof (avail_good status lb) as Hg.
  destruct (sticky || _) eqn:Es; [|by apply serve_plain_good].
  destruct (getStickyServer hash (rq_sticky r) _) as [x|] eqn:Eg.
  - intros [= <- _ _]. apply Hg. unfold getStickyServer in Eg. destruct (rq_sticky r); [|done].
    by apply find_in in Eg as [? _].
  - destruct (ChooseServer hash _ _ _) as [[x|] p'] eqn:Ec; [|by apply serve_plain_good].
    intros [= <- _ _]. unfold ChooseServer in Ec. destruct (lb_impl lb) as [i|n|l] eqn:Ei.
    + destruct (rr_ChooseServer i _) as [y i'] eqn:Er. simplify_eq. by eapply Hg, rr_choose_in.
    + injection Ec as Ec _. by eapply Hg, lc_choose_in.
    + specialize (Hip l eq_refl). congruence.
Qed.

(** a sticky session is honoured: the cookie set for a server brings the
    next request back to it as long as it is available, if no other available
    server's key has the same hash. *)
Theorem sticky_session status lb r s v p status' lb' r' :
  ServeHTTP order hash realIP true status lb r = (Forward s (Some v), p) ->
  s ∈ availServers order status' lb' -> rq_sticky r' = Some v ->
  (forall s', s' ∈ availServers order status' lb' ->
     hashServerKey hash (sv_key s') = hashServerKey hash (sv_key s) -> s' = s) ->
  ServeHTTP order hash realIP true status' lb' r' = (Forward s None, lb_impl lb').
Proof.
  intros Hfirst Hav Hck Hinj.
  assert (Hv : v = hashServerKey hash (sv_key s)).
  { revert Hfirst. unfold ServeHTTP. destruct (availServers order status lb) as [|x l]; [done|].
    cbn [orb]. destruct (getStickyServer _ _ _); [done|].
    destruct (ChooseServer _ _ _ _) as [[y|] p']; [by intros [= <- <- _]|].
    unfold serve_plain. repeat case_match; intros [=]. }
  unfold ServeHTTP. destruct (availServers order status' lb') as [|x l] eqn:Ea.
  { by apply not_elem_of_nil in Hav. }
  cbn [orb]. rewrite Hck. unfold getStickyServer. rewrite Hv.
  destruct (List.find _ _) as [y|] eqn:Ef.
  - apply find_in in Ef as [Hy Hb]. reflect. by rewrite (Hinj y Hy Hb).
  - exfalso. apply list_elem_of_In in Hav. eapply find_none in Ef; [|exact Hav].
    simpl in Ef. by rewrite bool_decide_eq_true_2 in Ef.
Qed.

End Serve.

(** removing a server from the IP-hash policy works only for the first
    one of its list: the second stays in the list, and from the third on the
    call panics. *)
Theorem iphash_remove_broken l s i :
  index_of s l = Some i ->
  OnRemoveServer (IPHash l) s
  = match i with
    | 0%nat => Ok (IPHash (drop 1 l))
    | 1%nat => Ok (IPHash l)
    | _ => Panic SliceOutOfBounds
    end.
Proof.
  intros Hi. simpl. rewrite Hi.
  assert (Hlen : (i < length l)%nat).
  { revert i Hi. induction l as [|x l IH]; intros i; simpl; [done|].
    case_bool_decide; [intros [= <-]; lia|]. destruct (index_of s l) as [j|]; simpl; [|done].
    intros [= <-]. specialize (IH j eq_refl). lia. }
  unfold slices_Delete. destruct l as [|a l]; [simpl in Hlen; lia|].
  by destruct i as [|[|i]]; simpl; rewrite ?take_0, ?drop_0.
Qed.

Lemma iphash_remove_broken_witness :
  OnRemoveServer (IPHash pool3) (Server 3 "c:80") = Panic SliceOutOfBounds
  /\ OnRemoveServer (IPHash pool3) (Server 2 "b:80") = Ok (IPHash pool3).
Proof.
  split; [apply (iphash_remove_broken pool3 _ 2)|apply (iphash_remove_broken pool3 _ 1)]; reflexivity.
Defined.

Definition all_healthy (_ : server) : Z := StatusHealthy.

Definition example_lb_request (ck : option bytes) : lb_request :=
  {| rq_path := "/"; rq_remote := "10.0.0.1:5000"; rq_sticky := ck |}.

(** A stand-in for the 64-bit hash: the length of the text. *)
Definition len_hash (s : bytes) : Z := Z.of_nat (length s).

Lemma ServeHTTP_healthy_witness :
  ServeHTTP id_order len_hash Some false all_healthy (lb3 0 0 0) (example_lb_request None)
  = (Forward (Server 1 "a:80") None, RoundRobin 1) /\ Good (all_healthy (Server 1 "a:80")) = true.
Proof.
  assert (H : ServeHTTP id_order len_hash Some false all_healthy (lb3 0 0 0) (example_lb_request None)
    = (Forward (Server 1 "a:80") None, RoundRobin 1)) by (vm_compute; reflexivity).
  split; [exact H|]. eapply ServeHTTP_healthy; [|exact H]. intros l. discriminate.
Defined.

Definition lb1 : LoadBalancer :=
  {| lb_pool := [Server 1 "a:80"]; lb_weight := ∅; lb_sumWeight := 0; lb_impl := RoundRobin 0;
     lb_finished := false |}.

Lemma sticky_session_witness :
  ServeHTTP id_order len_hash Some true all_healthy lb1
    (example_lb_request (Some (hashServerKey len_hash "a:80")))
  = (Forward (Server 1 "a:80") None, RoundRobin 0).
Proof.
  apply (sticky_session id_order len_hash Some all_healthy lb1 (example_lb_request None) (Server 1 "a:80")
    (hashServerKey len_hash "a:80") (RoundRobin 1)).
  - vm_compute. reflexivity.
  - left.
  - reflexivity.
  - intros s' H _. by apply list_elem_of_singleton in H.
Defined.
