(* ===== verification/BackScanner.v ===== *)
(** * Access log: reading a file backward

    Models internal/logging/accesslog/back_scanner.go: [BackScanner] reads a
    file from its end in chunks and returns its lines, last first. *)

From S2P Require Import Prelude GoStrings.

Definition NL : ascii := zbyte 10.

(** ** Files *)

(** A regular file: its bytes, and the offsets at which a read fails. *)
Record file := { contents : bytes; read_fails : nat -> bool }.

Definition file_of (b : bytes) : file := {| contents := b; read_fails _ := false |}.

Definition set_contents (f : file) (b : bytes) : file :=
  {| contents := b; read_fails := read_fails f |}.

(** [ReadAt] of [len] bytes; reading past the end is an error (io.EOF). *)
Definition ReadAt (f : file) (off len : nat) : option bytes :=
  if read_fails f off || (length (contents f) <? off + len)%nat then None
  else Some (take len (drop off (contents f))).

(** ** The scanner *)

Record BackScanner := {
  bs_offset : nat;
  bs_chunk : bytes;
  bs_line : bytes;
  bs_err : bool
}.

Definition NewBackScanner (fileSize : nat) : BackScanner :=
  {| bs_offset := fileSize; bs_chunk := []; bs_line := []; bs_err := false |}.

Section Scan.

Context (f : file) (chunkSize : nat).

(** The two nested loops of [Scan]: both look for the last newline of the
    buffer first, and read a chunk when there is none. *)
Fixpoint scan_loop (fuel : nat) (s : BackScanner) : bool * BackScanner :=
  match fuel with
  | O => (false, s)
  | S fuel' =>
      match LastIndexByte (bs_chunk s) NL with
      | Some idx =>
          let line := drop (S idx) (bs_chunk s) in
          let s' := {| bs_offset := bs_offset s; bs_chunk := take idx (bs_chunk s);
                       bs_line := line; bs_err := bs_err s |} in
          match line with
          | [] => scan_loop fuel' s'
          | _ => (true, s')
          end
      | None =>
          if (bs_offset s =? 0)%nat then
            match bs_chunk s with
            | [] => (false, s)
            | c => (true, {| bs_offset := bs_offset s; bs_chunk := []; bs_line := c; bs_err := bs_err s |})
            end
          else
            let newOffset := (bs_offset s - chunkSize)%nat in
            match ReadAt f newOffset (bs_offset s - newOffset) with
            | None => (false, {| bs_offset := bs_offset s; bs_chunk := bs_chunk s;
                                 bs_line := bs_line s; bs_err := read_fails f newOffset |})
            | Some [] => (false, s)
            | Some data =>
                scan_loop fuel' {| bs_offset := newOffset; bs_chunk := data ++ bs_chunk s;
                                   bs_line := bs_line s; bs_err := bs_err s |}
            end
      end
  end.

(** Every round moves bytes from the file to the buffer or shortens the
    buffer, so this is enough fuel. *)
Definition scan_measure (s : BackScanner) : nat := (2 * bs_offset s + length (bs_chunk s))%nat.

Definition Scan (s : BackScanner) : bool * BackScanner :=
  if bs_err s then (false, s) else scan_loop (S (scan_measure s)) s.

(** All the lines a scanner returns ([for s.Scan() { ... s.Bytes() ... }]). *)
Fixpoint scan_all (fuel : nat) (s : BackScanner) : list bytes :=
  match fuel with
  | O => []
  | S fuel' => match Scan s with
               | (true, s') => bs_line s' :: scan_all fuel' s'
               | (false, _) => []
               end
  end.

End Scan.

(** ** Specification *)

Definition nonblank (l : bytes) : bool := match l with [] => false | _ => true end.

(** The nonempty lines of a text. *)
Definition lines_of (b : bytes) : list bytes := List.filter nonblank (Split b NL).

(** ** Lemmas *)

Lemma Split_snoc r l : NL ∉ l -> Split (r ++ NL :: l) NL = Split r NL ++ [l].
Proof.
  intros Hl. induction r as [|b r IH]; simpl.
  - by rewrite Split_no_sep.
  - rewrite IH. destruct (Ascii.eqb b NL); [done|].
    destruct (Split r NL) eqn:E; [by apply Split_nonempty in E|done].
Qed.

Lemma lines_of_snoc r l :
  NL ∉ l -> lines_of (r ++ NL :: l) = lines_of r ++ (if nonblank l then [l] else []).
Proof.
  intros Hl. unfold lines_of. rewrite Split_snoc by done. rewrite List.filter_app. simpl.
  by destruct (nonblank l).
Qed.

Lemma LastIndexByte_Some s c i :
  LastIndexByte s c = Some i -> s = take i s ++ c :: drop (S i) s /\ c ∉ drop (S i) s.
Proof.
  revert i. induction s as [|b s IH]; intros i; simpl; [done|].
  destruct (LastIndexByte s c) as [j|] eqn:E.
  - intros [= <-]. destruct (IH j eq_refl) as [H1 H2]. simpl. split; [by f_equal|done].
  - destruct (Ascii.eqb_spec b c) as [->|]; [|done]. intros [= <-]. simpl. split; [by rewrite drop_0|].
    rewrite drop_0. clear IH. induction s as [|x s IH]; [apply not_elem_of_nil|]. simpl in E.
    destruct (LastIndexByte s c) eqn:E'; [done|]. destruct (Ascii.eqb_spec x c); [done|].
    apply not_elem_of_cons. split; [done|by apply IH].
Qed.

Lemma LastIndexByte_None s c : LastIndexByte s c = None -> c ∉ s.
Proof.
  induction s as [|x s IH]; intros E; [apply not_elem_of_nil|]. simpl in E.
  destruct (LastIndexByte s c) eqn:E'; [done|]. destruct (Ascii.eqb_spec x c); [done|].
  apply not_elem_of_cons. split; [done|by apply IH].
Qed.

Section Correct.

Context (f : file) (chunkSize : nat).
Hypothesis Hchunk : (0 < chunkSize)%nat.
Hypothesis Hread : forall i, read_fails f i = false.

(** What has not been returned yet. *)
Definition remaining (s : BackScanner) : bytes := take (bs_offset s) (contents f) ++ bs_chunk s.

Definition scanner_ok (s : BackScanner) : Prop :=
  (bs_offset s <= length (contents f))%nat /\ bs_err s = false.

Lemma scan_loop_spec fuel : forall s,
  (scan_measure s < fuel)%nat -> scanner_ok s ->
  match scan_loop f chunkSize fuel s with
  | (true, s') =>
      scanner_ok s' /\ (length (remaining s') < length (remaining s))%nat
      /\ nonblank (bs_line s') = true
      /\ lines_of (remaining s) = lines_of (remaining s') ++ [bs_line s']
  | (false, s') => scanner_ok s' /\ lines_of (remaining s) = []
  end.
Proof.
  induction fuel as [|fuel IH]; intros s Hf [Ho He]; [lia|]. cbn [scan_loop].
  destruct (LastIndexByte (bs_chunk s) NL) as [idx|] eqn:E.
  - destruct (LastIndexByte_Some _ _ _ E) as [Hsplit Hnl].
    assert (Hrem : remaining s = (take (bs_offset s) (contents f) ++ take idx (bs_chunk s))
      ++ NL :: drop (S idx) (bs_chunk s)).
    { unfold remaining. rewrite Hsplit at 1. by rewrite app_assoc. }
    assert (Hlen : (length (take idx (bs_chunk s)) < length (bs_chunk s))%nat).
    { pose proof (f_equal length Hsplit) as HL. rewrite length_app in HL. cbn [length] in HL. lia. }
    assert (Hlr : (length (take (bs_offset s) (contents f) ++ take idx (bs_chunk s)) < length (remaining s))%nat).
    { rewrite Hrem, (length_app _ (NL :: _)). cbn [length]. lia. }
    destruct (drop (S idx) (bs_chunk s)) as [|c l] eqn:El.
    + set (s' := {| bs_offset := bs_offset s; bs_chunk := take idx (bs_chunk s); bs_line := [];
                    bs_err := bs_err s |}).
      assert (Hs' : lines_of (remaining s) = lines_of (remaining s')).
      { rewrite Hrem, lines_of_snoc by done. by rewrite app_nil_r. }
      specialize (IH s'). unfold scan_measure in *. simpl in IH.
      specialize (IH ltac:(lia) (conj Ho He)).
      destruct (scan_loop f chunkSize fuel s') as [[] s''].
      * destruct IH as (? & ? & ? & ?). rewrite Hs'. split; [done|]. split; [|done].
        etransitivity; [eassumption|exact Hlr].
      * destruct IH as [? ?]. by rewrite Hs'.
    + split; [done|]. split; [done|]. split; [done|].
      rewrite Hrem, lines_of_snoc by done. done.
  - apply LastIndexByte_None in E. destruct (Nat.eqb_spec (bs_offset s) 0) as [H0|H0].
    + assert (Hrem : remaining s = bs_chunk s) by (unfold remaining; by rewrite H0).
      destruct (bs_chunk s) as [|c l] eqn:Ec.
      * split; [done|]. by rewrite Hrem.
      * set (s' := {| bs_offset := bs_offset s; bs_chunk := []; bs_line := c :: l; bs_err := bs_err s |}).
        assert (Hs' : remaining s' = []) by (unfold remaining, s'; cbn [bs_offset bs_chunk]; by rewrite H0).
        split; [done|]. rewrite Hs', Hrem. split; [simpl; lia|]. split; [done|].
        unfold lines_of. by rewrite Split_no_sep.
    + unfold ReadAt. rewrite Hread. set (o := (bs_offset s - chunkSize)%nat).
      rewrite (proj2 (Nat.ltb_ge _ _)) by (unfold o; lia). cbn [orb].
      assert (Hd : length (take (bs_offset s - o) (drop o (contents f))) = (bs_offset s - o)%nat).
      { rewrite length_take, length_drop. unfold o. lia. }
      destruct (take (bs_offset s - o) (drop o (contents f))) as [|c l] eqn:Et.
      { simpl in Hd. unfold o in Hd. lia. }
      set (s' := {| bs_offset := o; bs_chunk := (c :: l) ++ bs_chunk s; bs_line := bs_line s;
                    bs_err := bs_err s |}).
      assert (Hs' : remaining s' = remaining s).
      { unfold remaining, s'. cbn [bs_offset bs_chunk]. rewrite <- Et, app_assoc. f_equal.
        rewrite <- (take_drop o (take (bs_offset s) (contents f))). f_equal.
        - rewrite take_take. f_equal. unfold o. lia.
        - rewrite skipn_firstn_comm. done. }
      specialize (IH s'). rewrite Hs' in IH. apply IH.
      * unfold scan_measure in *. unfold s'. cbn [bs_offset bs_chunk]. rewrite length_app, Hd.
        unfold o in *. lia.
      * split; [|done]. simpl. unfold o. lia.
Qed.

Lemma Scan_spec s :
  scanner_ok s ->
  match Scan f chunkSize s with
  | (true, s') =>
      scanner_ok s' /\ (length (remaining s') < length (remaining s))%nat
      /\ nonblank (bs_line s') = true
      /\ lines_of (remaining s) = lines_of (remaining s') ++ [bs_line s']
  | (false, s') => scanner_ok s' /\ lines_of (remaining s) = []
  end.
Proof.
  intros Hs. unfold Scan. rewrite (proj2 Hs). apply scan_loop_spec; [lia|done].
Qed.

Lemma scan_all_spec fuel : forall s,
  scanner_ok s -> (length (remaining s) < fuel)%nat ->
  scan_all f chunkSize fuel s = rev (lines_of (remaining s)).
Proof.
  induction fuel as [|fuel IH]; intros s Hs Hf; [lia|]. cbn [scan_all].
  pose proof (Scan_spec s Hs) as H. destruct (Scan f chunkSize s) as [[] s'].
  - destruct H as (Hs' & Hlt & _ & ->). rewrite rev_app_distr. simpl. f_equal.
    apply IH; [done|lia].
  - destruct H as [_ ->]. done.
Qed.

(** whatever the chunk size, the scanner returns exactly the nonempty
    lines of the file, last line first. *)
Theorem BackScanner_lines :
  scan_all f chunkSize (S (length (contents f))) (NewBackScanner (length (contents f)))
  = rev (lines_of (contents f)).
Proof.
  rewrite scan_all_spec.
  - unfold remaining. simpl. by rewrite firstn_all, app_nil_r.
  - split; simpl; [lia|done].
  - unfold remaining. simpl. rewrite firstn_all, app_nil_r. lia.
Qed.

End Correct.

Lemma BackScanner_lines_witness :
  scan_all (file_of (B "one" ++ NL :: NL :: B "two" ++ NL :: B "three")) 3 15
    (NewBackScanner 14)
  = [B "three"; B "two"; B "one"].
Proof.
  apply (BackScanner_lines (file_of (B "one" ++ NL :: NL :: B "two" ++ NL :: B "three")) 3);
    [lia|reflexivity].
Defined.
