(* ===== verification/LogRotate.v ===== *)
(** * Access log: rotation

    Models internal/logging/accesslog/rotate.go and retention.go: which lines
    of a log file are kept, and the in-place rewriting of the file.  The clock
    and [time.Parse] are parameters.  Reads may fail; [Size], [WriteAt],
    [Truncate] to a size that is not negative, and [Seek] succeed. *)

From S2P Require Import Prelude GoStrings BackScanner.

(** ** Retention (retention.go) *)

Record Retention := { rt_Days : Z; rt_Last : Z; rt_KeepSize : Z }.

#[export] Instance Retention_eq_dec : EqDecision Retention.
Proof. solve_decision. Defined.

Definition uint64 (z : Z) : Z := z mod 2 ^ 64.

(** [int(u)] of a uint64. *)
Definition int64 (z : Z) : Z := if z <? 2 ^ 63 then z else z - 2 ^ 64.

Definition kilobyte : Z := 1024.
Definition megabyte : Z := 1024 * kilobyte.
Definition gigabyte : Z := 1024 * megabyte.
Definition kilobits : Z := 1000.
Definition megabits : Z := 1000 * kilobits.
Definition gigabits : Z := 1000 * megabits.

Inductive retention_error := ErrInvalidSyntax | ErrZeroValue | ErrNumber.

Definition Retention_IsValid (r : Retention) : bool :=
  (0 <? rt_Days r) || (0 <? rt_Last r) || (0 <? rt_KeepSize r).

(** The [switch split[1]] of [Retention.Parse]. *)
Definition unit_value (n : Z) (unit : bytes) (r : Retention) : option Retention :=
  let days d := Some {| rt_Days := uint64 d; rt_Last := rt_Last r; rt_KeepSize := rt_KeepSize r |} in
  let size s := Some {| rt_Days := rt_Days r; rt_Last := rt_Last r; rt_KeepSize := uint64 s |} in
  if bool_decide (unit = B "day" \/ unit = B "days") then days n
  else if bool_decide (unit = B "week" \/ unit = B "weeks") then days (n * 7)
  else if bool_decide (unit = B "month" \/ unit = B "months") then days (n * 30)
  else if bool_decide (unit = B "kb" \/ unit = B "Kb") then size (n * kilobits)
  else if bool_decide (unit = B "KB") then size (n * kilobyte)
  else if bool_decide (unit = B "mb" \/ unit = B "Mb") then size (n * megabits)
  else if bool_decide (unit = B "MB") then size (n * megabyte)
  else if bool_decide (unit = B "gb" \/ unit = B "Gb") then size (n * gigabits)
  else if bool_decide (unit = B "GB") then size (n * gigabyte)
  else None.

(** [strconv.ParseUint(s, 10, 64)] as the pair Go returns: the value is 0 on a
    syntax error and the largest one on a range error. *)
Definition ParseUint_pair (s : bytes) : Z * bool :=
  match parse_digits s with
  | None => (0, true)
  | Some n => if n <=? MaxUint64 then (n, false) else (MaxUint64, true)
  end.

Section RetentionText.

(** [strutils.SplitSpace] and [strutils.FormatByteSize]. *)
Context (SplitSpace : bytes -> list bytes) (FormatByteSize : Z -> bytes).

(** [Retention.Parse]. *)
Definition Retention_Parse (v : bytes) (r : Retention) : result retention_error Retention :=
  match SplitSpace v with
  | [a; b] =>
      if bool_decide (a = B "last") then
        let '(n, err) := ParseUint_pair b in
        let r := {| rt_Days := rt_Days r; rt_Last := n; rt_KeepSize := rt_KeepSize r |} in
        if negb (Retention_IsValid r) then Err ErrZeroValue
        else if err : bool then Err ErrNumber else Ok r
      else
        let '(n, err) := ParseUint_pair a in
        if err : bool then Err ErrNumber
        else match unit_value n b r with
             | None => Err ErrInvalidSyntax
             | Some r => if Retention_IsValid r then Ok r else Err ErrZeroValue
             end
  | _ => Err ErrInvalidSyntax
  end.

(** [Retention.String]. *)
Definition Retention_String (r : Retention) : bytes :=
  if 0 <? rt_Days r then format_uint (rt_Days r) ++ B " days"
  else if 0 <? rt_Last r then B "last " ++ format_uint (rt_Last r)
  else if 0 <? rt_KeepSize r then FormatByteSize (rt_KeepSize r)
  else B "<invalid>".

Definition no_retention : Retention := {| rt_Days := 0; rt_Last := 0; rt_KeepSize := 0 |}.

Lemma ParseUint_pair_format n :
  0 <= n <= MaxUint64 -> ParseUint_pair (format_uint n) = (n, false).
Proof.
  intros Hn. unfold ParseUint_pair. rewrite parse_format_uint by lia.
  by rewrite (proj2 (Z.leb_le _ _)) by lia.
Qed.

Lemma format_uint_no_space n : 0 <= n -> zbyte 32 ∉ format_uint n.
Proof.
  intros Hn H. pose proof (Itoa_no_sep n (zbyte 32) eq_refl ltac:(done)) as G.
  unfold Itoa in G. rewrite (proj2 (Z.ltb_ge _ _)) in G by lia. done.
Qed.

(** a retention that counts days or lines is read back from its text. *)
Theorem Retention_roundtrip r :
  (forall a b, a <> [] -> b <> [] -> zbyte 32 ∉ a -> zbyte 32 ∉ b -> SplitSpace (a ++ zbyte 32 :: b) = [a; b]) ->
  0 <= rt_Days r <= MaxUint64 -> 0 <= rt_Last r <= MaxUint64 ->
  0 < rt_Days r \/ 0 < rt_Last r ->
  Retention_Parse (Retention_String r) no_retention
  = Ok {| rt_Days := rt_Days r; rt_Last := if 0 <? rt_Days r then 0 else rt_Last r; rt_KeepSize := 0 |}.
Proof.
  intros Hs Hd Hl Hv. unfold Retention_Parse, Retention_String.
  destruct (Z.ltb_spec 0 (rt_Days r)) as [H|H].
  - destruct (format_uint_spec (rt_Days r)) as (Hdig & Hne & _); [lia|].
    change (B " days") with (zbyte 32 :: B "days").
    rewrite Hs by (done || (apply format_uint_no_space; lia) || by eapply bool_decide_unpack).
    rewrite bool_decide_eq_false_2.
    2: { intros E. rewrite E in Hdig. done. }
    rewrite ParseUint_pair_format by lia. unfold unit_value.
    rewrite bool_decide_eq_true_2 by (by right). unfold uint64. rewrite Z.mod_small by (unfold MaxUint64 in Hd; lia).
    unfold Retention_IsValid. cbn. by rewrite (proj2 (Z.ltb_lt _ _)) by lia.
  - rewrite (proj2 (Z.ltb_lt 0 (rt_Last r))) by lia.
    destruct (format_uint_spec (rt_Last r)) as (Hdig & Hne & _); [lia|].
    change (B "last " ++ format_uint (rt_Last r)) with (B "last" ++ zbyte 32 :: format_uint (rt_Last r)).
    rewrite Hs by (done || (apply format_uint_no_space; lia) || by eapply bool_decide_unpack).
    rewrite bool_decide_eq_true_2 by done. rewrite ParseUint_pair_format by lia.
    unfold Retention_IsValid. cbn [rt_Days rt_Last rt_KeepSize no_retention].
    rewrite (proj2 (Z.ltb_lt 0 (rt_Last r))) by lia. cbn. f_equal. f_equal. lia.
Qed.

End RetentionText.

(** ** Rotation (rotate.go) *)

Record RotateResult := {
  OriginalSize : Z;
  NumBytesRead : Z;
  NumBytesKeep : Z;
  NumLinesRead : Z;
  NumLinesKeep : Z;
  NumLinesInvalid : Z
}.

Record lineInfo := { li_Pos : Z; li_Size : Z }.

(** The local variables of the loop; [linesToKeep] last element first. *)
Record rotate_state := {
  rs_result : RotateResult;
  rs_linesToKeep : list lineInfo;
  rs_lastLineValid : bool
}.

Inductive rotate_error := ErrRead | ErrTruncate.

Definition WriteAt (f : file) (b : bytes) (off : nat) : file :=
  set_contents f (take off (contents f) ++ b ++ drop (off + length b) (contents f)).

Definition Truncate (f : file) (n : nat) : file := set_contents f (take n (contents f)).

Section Rotate.

(** [time.Parse(LogTimeFormat, s)]: [None] for the zero time; and the cutoff
    [TimeNow().AddDate(0, 0, -days+1)], as instants. *)
Context (time_Parse : bytes -> option Z) (cutoff : Z -> Z).
Context (defaultChunkSize : nat).

(** A byte slice of the pool as its length and capacity; [append_cap c n] is
    the capacity [append] gives a slice of capacity [c] that has to hold [n]
    elements. *)
Context (pool_Get : nat * nat) (append_cap : nat -> nat -> nat).

Definition timeJSON : bytes := [zbyte 34] ++ "time" ++ [zbyte 34; zbyte 58; zbyte 34].

Definition LogTimeFormat : bytes := "02/Jan/2006:15:04:05 -0700".

(** [ExtractTime] of a nonempty line. *)
Definition ExtractTime (line : bytes) : option bytes :=
  let n := length LogTimeFormat in
  match line with
  | "{"%char :: _ =>
      match Index line timeJSON with
      | Some i =>
          let jsonStart := (i + length timeJSON)%nat in
          if (length line <? jsonStart + n)%nat then None
          else Some (take n (drop jsonStart line))
      | None => None
      end
  | _ =>
      match IndexByte line "[" with
      | None => None
      | Some start =>
          if (length line <? start + 1 + n)%nat then None
          else Some (take n (drop (start + 1) line))
      end
  end.

Definition ParseLogTime (line : bytes) : option Z :=
  match line with
  | [] => None
  | _ => ExtractTime line ≫= time_Parse
  end.

(** [shouldStop] of the policy; [None] when there is none. *)
Definition stop_policy (config : Retention) : option (RotateResult -> Z -> bool) :=
  if 0 <? rt_Last config then
    Some (fun r _ => NumLinesKeep r - NumLinesInvalid r =? int64 (rt_Last config))
  else if 0 <? rt_Days config then Some (fun _ t => t <? cutoff (rt_Days config))
  else None.

Definition read_line (size : Z) (r : RotateResult) : RotateResult :=
  {| OriginalSize := OriginalSize r; NumBytesRead := NumBytesRead r + size;
     NumBytesKeep := NumBytesKeep r; NumLinesRead := NumLinesRead r + 1;
     NumLinesKeep := NumLinesKeep r; NumLinesInvalid := NumLinesInvalid r |}.

Definition invalid_line (r : RotateResult) : RotateResult :=
  {| OriginalSize := OriginalSize r; NumBytesRead := NumBytesRead r;
     NumBytesKeep := NumBytesKeep r; NumLinesRead := NumLinesRead r;
     NumLinesKeep := NumLinesKeep r; NumLinesInvalid := NumLinesInvalid r + 1 |}.

Definition keep_line (size : Z) (r : RotateResult) : RotateResult :=
  {| OriginalSize := OriginalSize r; NumBytesRead := NumBytesRead r;
     NumBytesKeep := NumBytesKeep r + size; NumLinesRead := NumLinesRead r;
     NumLinesKeep := NumLinesKeep r + 1; NumLinesInvalid := NumLinesInvalid r |}.

(** One iteration of the loop over the lines, newest first; the flag says
    whether the loop goes on. *)
Definition rotate_step (shouldStop : RotateResult -> Z -> bool) (line : bytes) (st : rotate_state)
    : bool * rotate_state :=
  let lineSize := Z.of_nat (length line) + 1 in
  let linePos := OriginalSize (rs_result st) - NumBytesRead (rs_result st) - lineSize in
  let res := read_line lineSize (rs_result st) in
  match ParseLogTime line with
  | None =>
      (true, {| rs_result := invalid_line res; rs_linesToKeep := rs_linesToKeep st;
                rs_lastLineValid := false |})
  | Some t =>
      if shouldStop res t then
        (false, {| rs_result := res; rs_linesToKeep := rs_linesToKeep st;
                   rs_lastLineValid := rs_lastLineValid st |})
      else
        let keep :=
          match rs_lastLineValid st, rs_linesToKeep st with
          | true, last :: keep =>
              {| li_Pos := li_Pos last - lineSize; li_Size := li_Size last + lineSize |} :: keep
          | _, keep => {| li_Pos := linePos; li_Size := lineSize |} :: keep
          end in
        (true, {| rs_result := keep_line lineSize res; rs_linesToKeep := keep; rs_lastLineValid := true |})
  end.

(** [for s.Scan() { ... }]. *)
Fixpoint rotate_loop (fuel : nat) (f : file) (shouldStop : RotateResult -> Z -> bool)
    (s : BackScanner) (st : rotate_state) : BackScanner * rotate_state :=
  match fuel with
  | O => (s, st)
  | S fuel' =>
      match Scan f defaultChunkSize s with
      | (false, s) => (s, st)
      | (true, s) =>
          match rotate_step shouldStop (bs_line s) st with
          | (true, st) => rotate_loop fuel' f shouldStop s st
          | (false, st) => (s, st)
          end
      end
  end.

(** [slices.Grow(s, n)]: room for [n] more elements behind the length. *)
Definition slices_Grow (s : nat * nat) (n : nat) : nat * nat :=
  let '(len, cap) := s in
  if (cap - len <? n)%nat then (len, append_cap cap (len + n)%nat) else s.

(** [if cap(buf) < n { buf = slices.Grow(buf, n-cap(buf)) }; buf = buf[:n]]:
    [None] when the slice expression is out of range. *)
Definition resize_buf (buf : nat * nat) (n : nat) : option (nat * nat) :=
  let buf := if (buf.2 <? n)%nat then slices_Grow buf (n - buf.2) else buf in
  if (n <=? buf.2)%nat then Some (n, buf.2) else None.

(** The loop that moves the kept blocks to the beginning of the file, oldest
    block first. *)
Fixpoint copy_blocks (f : file) (buf : nat * nat) (blocks : list lineInfo) (writePos : Z)
    : result rotate_error (file * Z) :=
  match blocks with
  | [] => Ok (f, writePos)
  | b :: blocks' =>
      match resize_buf buf (Z.to_nat (li_Size b)) with
      | None => Panic SliceOutOfBounds
      | Some buf =>
          if li_Pos b <? 0 then Err ErrRead
          else match ReadAt f (Z.to_nat (li_Pos b)) (Z.to_nat (li_Size b)) with
               | None => Err ErrRead
               | Some data =>
                   copy_blocks (WriteAt f data (Z.to_nat writePos)) buf blocks' (writePos + li_Size b)
               end
      end
  end.

Definition zero_result (size : Z) : RotateResult :=
  {| OriginalSize := size; NumBytesRead := 0; NumBytesKeep := 0; NumLinesRead := 0;
     NumLinesKeep := 0; NumLinesInvalid := 0 |}.

(** [rotateLogFileByPolicy] with a fresh result. *)
Definition rotateLogFileByPolicy (f : file) (config : Retention)
    : result rotate_error (bool * file * RotateResult) :=
  match stop_policy config with
  | None => Ok (false, f, zero_result 0)
  | Some shouldStop =>
      let fileSize := length (contents f) in
      if (fileSize =? 0)%nat then Ok (false, f, zero_result 0)
      else
        let '(s, st) :=
          rotate_loop (S fileSize) f shouldStop (NewBackScanner fileSize)
            {| rs_result := zero_result (Z.of_nat fileSize); rs_linesToKeep := [];
               rs_lastLineValid := false |} in
        if bs_err s then Err ErrRead
        else match rs_linesToKeep st with
             | [] => Ok (true, Truncate f 0, rs_result st)
             | blocks =>
                 if NumBytesKeep (rs_result st) =? OriginalSize (rs_result st)
                 then Ok (false, f, rs_result st)
                 else
                   '(f', writePos) ← copy_blocks f pool_Get blocks 0;
                   Ok (true, Truncate f' (Z.to_nat writePos), rs_result st)
             end
  end.

(** [rotateLogFileBySize]. *)
Definition rotateLogFileBySize (f : file) (config : Retention)
    : result rotate_error (bool * file * RotateResult) :=
  let filesize := Z.of_nat (length (contents f)) in
  let res n := {| OriginalSize := filesize; NumBytesRead := 0; NumBytesKeep := n; NumLinesRead := 0;
                  NumLinesKeep := 0; NumLinesInvalid := 0 |} in
  let keepSize := int64 (rt_KeepSize config) in
  if filesize <=? keepSize then Ok (false, f, res filesize)
  else if keepSize <? 0 then Err ErrTruncate
  else Ok (true, Truncate f (Z.to_nat keepSize), res keepSize).

Definition rotateLogFile (f : file) (config : Retention)
    : result rotate_error (bool * file * RotateResult) :=
  if 0 <? rt_KeepSize config then rotateLogFileBySize f config
  else rotateLogFileByPolicy f config.

(** ** Specification *)

(** A log file: every line ended by a newline. *)
Definition unlines (ls : list bytes) : bytes := concat (map (fun l => l ++ [NL]) ls).

(** The lines a policy keeps, newest first: valid lines up to the first one
    that must go, invalid ones skipped.  [k] and [i] count kept and invalid
    lines. *)
Fixpoint keep_rev (stop : Z -> Z -> Z -> bool) (lines : list bytes) (k i : Z) : list bytes :=
  match lines with
  | [] => []
  | l :: lines' =>
      match ParseLogTime l with
      | None => keep_rev stop lines' k (i + 1)
      | Some t => if stop k i t then [] else l :: keep_rev stop lines' (k + 1) i
      end
  end.

(** ** Lemmas *)

Definition line_ok (l : bytes) : Prop := l <> [] /\ NL ∉ l.

Definition blen (b : bytes) : Z := Z.of_nat (length b).

Lemma blen_app a b : blen (a ++ b) = blen a + blen b.
Proof. unfold blen. rewrite length_app. lia. Qed.

Lemma unlines_app l1 l2 : unlines (l1 ++ l2) = unlines l1 ++ unlines l2.
Proof. unfold unlines. by rewrite map_app, concat_app. Qed.

Lemma unlines_snoc ls l : unlines (ls ++ [l]) = unlines ls ++ l ++ [NL].
Proof. rewrite unlines_app. unfold unlines at 2. simpl. by rewrite app_nil_r. Qed.

Lemma lines_of_unlines ls : Forall line_ok ls -> lines_of (unlines ls) = ls.
Proof.
  induction 1 as [|l ls [Hne Hnl] _ IH]; [done|].
  change (unlines (l :: ls)) with ((l ++ [NL]) ++ unlines ls). rewrite <- app_assoc. cbn [app].
  unfold lines_of in *. rewrite Split_app by done. simpl. rewrite IH. by destruct l.
Qed.

(** The loop over the lines given as a list. *)
Fixpoint rotate_list (shouldStop : RotateResult -> Z -> bool) (lines : list bytes) (st : rotate_state)
    : rotate_state :=
  match lines with
  | [] => st
  | l :: lines' =>
      match rotate_step shouldStop l st with
      | (true, st) => rotate_list shouldStop lines' st
      | (false, st) => st
      end
  end.

Lemma rotate_loop_list f shouldStop fuel : forall s st,
  (0 < defaultChunkSize)%nat -> (forall i, read_fails f i = false) ->
  scanner_ok f s -> (length (remaining f s) < fuel)%nat ->
  let '(s', st') := rotate_loop fuel f shouldStop s st in
  bs_err s' = false /\ st' = rotate_list shouldStop (rev (lines_of (remaining f s))) st.
Proof.
  induction fuel as [|fuel IH]; intros s st Hc Hr Hs Hf; [lia|]. cbn [rotate_loop].
  pose proof (Scan_spec f defaultChunkSize Hc Hr s Hs) as H.
  destruct (Scan f defaultChunkSize s) as [[] s'].
  - destruct H as (Hs' & Hlt & _ & ->). rewrite rev_app_distr. cbn [rev app rotate_list].
    destruct (rotate_step shouldStop (bs_line s') st) as [[] st'].
    + apply IH; [done..|lia].
    + by split; [apply Hs'|].
  - destruct H as [Hs' ->]. by split; [apply Hs'|].
Qed.

(** Blocks in file order, disjoint, between [b] and [n]. *)
Fixpoint asc (b : Z) (blocks : list lineInfo) (n : Z) : Prop :=
  match blocks with
  | [] => b <= n
  | h :: t => b <= li_Pos h /\ 0 <= li_Size h /\ asc (li_Pos h + li_Size h) t n
  end.

Lemma asc_weaken b b' blocks n : b' <= b -> asc b blocks n -> asc b' blocks n.
Proof. destruct blocks; simpl; intros; [lia|]. intuition lia. Qed.

Definition block_bytes (F : bytes) (h : lineInfo) : bytes :=
  take (Z.to_nat (li_Size h)) (drop (Z.to_nat (li_Pos h)) F).

Definition extract (F : bytes) (blocks : list lineInfo) : bytes := concat (map (block_bytes F) blocks).

Lemma asc_le b blocks n : asc b blocks n -> b <= n.
Proof.
  revert b. induction blocks as [|h t IH]; intros b; simpl; [done|].
  intros (H1 & H2 & H3%IH). lia.
Qed.

Lemma resize_buf_fits buf n : (n <= buf.2)%nat -> resize_buf buf n = Some (n, buf.2).
Proof.
  intros H. unfold resize_buf. rewrite (proj2 (Nat.ltb_ge _ _)) by done.
  by rewrite (proj2 (Nat.leb_le _ _)).
Qed.

(** Moving the blocks one after the other to the beginning of the file never
    overwrites a block that is still to be read; it panics only when the file
    is larger than the buffer. *)
Lemma copy_blocks_spec F blocks : forall f buf E,
  (forall i, read_fails f i = false) ->
  contents f = E ++ drop (length E) F -> asc (blen E) blocks (blen F) ->
  ((buf.2 < length F)%nat /\ copy_blocks f buf blocks (blen E) = Panic SliceOutOfBounds)
  \/ exists f', copy_blocks f buf blocks (blen E) = Ok (f', blen (E ++ extract F blocks))
    /\ contents f' = (E ++ extract F blocks) ++ drop (length (E ++ extract F blocks)) F.
Proof.
  induction blocks as [|h t IH]; intros f buf E Hr Hf Ha.
  { right. exists f. unfold extract. simpl. by rewrite app_nil_r. }
  cbn [asc] in Ha. destruct Ha as (H1 & H2 & H3). cbn [copy_blocks].
  pose proof (asc_le _ _ _ H3) as Hend. unfold blen in H1, Hend.
  assert (Hfit : (length F <= buf.2)%nat ->
    resize_buf buf (Z.to_nat (li_Size h)) = Some (Z.to_nat (li_Size h), buf.2)) by (intros; apply resize_buf_fits; lia).
  destruct (resize_buf buf (Z.to_nat (li_Size h))) as [buf'|];
    [|left; split; [destruct (decide (length F <= buf.2)%nat) as [Hle|]; [by apply Hfit in Hle|lia]|done]].
  rewrite (proj2 (Z.ltb_ge _ 0)) by lia. unfold ReadAt. rewrite Hr. cbn [orb].
  assert (Hlen : length (contents f) = length F) by (rewrite Hf, length_app, length_drop; lia).
  rewrite (proj2 (Nat.ltb_ge _ _)) by lia.
  assert (Hbuf : take (Z.to_nat (li_Size h)) (drop (Z.to_nat (li_Pos h)) (contents f)) = block_bytes F h).
  { unfold block_bytes. f_equal. rewrite Hf, drop_app_ge by lia. rewrite drop_drop. f_equal. lia. }
  rewrite Hbuf. assert (Hbl : length (block_bytes F h) = Z.to_nat (li_Size h)).
  { unfold block_bytes. rewrite length_take, length_drop. lia. }
  replace (blen E + li_Size h) with (blen (E ++ block_bytes F h)) by (rewrite blen_app; unfold blen; lia).
  destruct (IH (WriteAt f (block_bytes F h) (Z.to_nat (blen E))) buf'
    (E ++ block_bytes F h)) as [[Hlt Hc]|(f' & Hc & Hf')].
  - done.
  - unfold WriteAt. cbn [contents set_contents]. unfold blen. rewrite Nat2Z.id, Hf.
    rewrite take_app_length, <- app_assoc. f_equal. f_equal.
    rewrite drop_app_ge by lia. rewrite drop_drop, length_app. f_equal. lia.
  - rewrite blen_app. unfold blen at 2. rewrite Hbl. rewrite Z2Nat.id by done.
    eapply asc_weaken; [|exact H3]. unfold blen. lia.
  - left. split; [|done]. destruct (decide (length F <= buf.2)%nat) as [Hle|]; [|lia].
    apply Hfit in Hle as Hb. injection Hb as ->. cbn in Hlt. lia.
  - right. exists f'. rewrite Hc. unfold extract in *. cbn [map concat]. by rewrite app_assoc.
Qed.

(** What the loop knows after reading the lines behind [r]: [F] is the file,
    [T] the part already read, [kept] the lines kept, newest first. *)
Record loop_inv (F : bytes) (r : list bytes) (kept : list bytes) (T : bytes) (st : rotate_state) : Prop := {
  inv_file : F = unlines (rev r) ++ T;
  inv_size : OriginalSize (rs_result st) = blen F;
  inv_read : NumBytesRead (rs_result st) = blen T;
  inv_keep : NumBytesKeep (rs_result st) = blen (unlines (rev kept));
  inv_count : NumLinesKeep (rs_result st) = Z.of_nat (length kept);
  inv_asc : asc (blen (unlines (rev r))) (rs_linesToKeep st) (blen F);
  inv_extract : extract F (rs_linesToKeep st) = unlines (rev kept);
  inv_last : rs_lastLineValid st = true ->
             exists h t, rs_linesToKeep st = h :: t /\ li_Pos h = blen (unlines (rev r))
}.

Lemma drop_blen a b : drop (Z.to_nat (blen a)) (a ++ b) = b.
Proof. unfold blen. by rewrite Nat2Z.id, drop_app_length. Qed.

(** Keeping a line extends the last block or starts a new one in front of it. *)
Lemma loop_inv_keep F l r kept T st :
  loop_inv F (l :: r) kept T st ->
  let lineSize := Z.of_nat (length l) + 1 in
  let linePos := OriginalSize (rs_result st) - NumBytesRead (rs_result st) - lineSize in
  loop_inv F r (kept ++ [l]) ((l ++ [NL]) ++ T)
    {| rs_result := keep_line lineSize (read_line lineSize (rs_result st));
       rs_linesToKeep :=
         match rs_lastLineValid st, rs_linesToKeep st with
         | true, last :: keep =>
             {| li_Pos := li_Pos last - lineSize; li_Size := li_Size last + lineSize |} :: keep
         | _, keep => {| li_Pos := linePos; li_Size := lineSize |} :: keep
         end;
       rs_lastLineValid := true |}.
Proof.
  intros [Hfile Hsize Hread Hkeep Hcount Hasc Hext Hlast] lineSize linePos.
  assert (HF : F = unlines (rev r) ++ (l ++ [NL]) ++ T).
  { rewrite Hfile. simpl. rewrite unlines_snoc. by rewrite <- !app_assoc. }
  set (b := blen (unlines (rev r))) in *.
  assert (Hb : blen (unlines (rev (l :: r))) = b + lineSize).
  { simpl. rewrite unlines_snoc, !blen_app. unfold b, lineSize, blen. simpl. lia. }
  assert (Hpos : linePos = b).
  { unfold linePos. rewrite Hsize, Hread, HF, !blen_app. unfold b, lineSize, blen. simpl. lia. }
  assert (Hls : blen (l ++ [NL]) = lineSize) by (rewrite blen_app; done).
  assert (Hl0 : 0 < lineSize) by (unfold lineSize; lia).
  assert (Hb0 : 0 <= b) by (unfold b, blen; lia).
  assert (Hline : forall n, 0 <= n ->
    take (Z.to_nat (lineSize + n)) (drop (Z.to_nat b) F)
    = (l ++ [NL]) ++ take (Z.to_nat n) (drop (Z.to_nat (b + lineSize)) F)).
  { intros n Hn.
    assert (Hd1 : drop (Z.to_nat b) F = (l ++ [NL]) ++ T) by (rewrite HF; apply drop_blen).
    assert (Hd2 : drop (Z.to_nat (b + lineSize)) F = T).
    { replace (b + lineSize) with (blen (unlines (rev r) ++ l ++ [NL])) by (rewrite blen_app, Hls; done).
      rewrite HF. replace (unlines (rev r) ++ (l ++ [NL]) ++ T) with ((unlines (rev r) ++ l ++ [NL]) ++ T)
        by (by rewrite <- !app_assoc). apply drop_blen. }
    rewrite Hd1, Hd2, Z2Nat.inj_add by lia. rewrite <- Hls. unfold blen. rewrite Nat2Z.id.
    by rewrite take_app_add. }
  rewrite Hb in *.
  assert (Hkept : unlines (rev (kept ++ [l])) = (l ++ [NL]) ++ unlines (rev kept)).
  { rewrite rev_app_distr. done. }
  constructor; cbn [rs_result rs_linesToKeep rs_lastLineValid keep_line read_line
      OriginalSize NumBytesRead NumBytesKeep NumLinesKeep NumLinesInvalid].
  - done.
  - done.
  - rewrite blen_app, Hls. lia.
  - rewrite Hkept, blen_app, Hls. lia.
  - rewrite length_app. simpl. lia.
  - fold b. destruct (rs_lastLineValid st) eqn:El.
    + destruct (Hlast eq_refl) as (h & t & Ht & Hp). rewrite Ht in *. cbn [asc li_Pos li_Size] in *.
      destruct Hasc as (? & ? & ?). repeat split; [lia|lia|].
      by replace (li_Pos h - lineSize + (li_Size h + lineSize)) with (li_Pos h + li_Size h) by lia.
    + cbn [asc li_Pos li_Size]. rewrite Hpos. repeat split; [lia|lia|done].
  - rewrite Hkept, <- Hext. destruct (rs_lastLineValid st) eqn:El.
    + destruct (Hlast eq_refl) as (h & t & Ht & Hp). rewrite Ht in *. cbn [asc] in Hasc.
      unfold extract. cbn [map concat]. rewrite app_assoc. f_equal. unfold block_bytes.
      cbn [li_Pos li_Size]. rewrite Hp. replace (b + lineSize - lineSize) with b by lia.
      rewrite (Z.add_comm (li_Size h)), Hline by lia. done.
    + unfold extract. cbn [map concat]. f_equal. unfold block_bytes. cbn [li_Pos li_Size].
      rewrite Hpos, <- (Z.add_0_r lineSize), Hline by lia. by rewrite app_nil_r.
  - intros _. fold b. destruct (rs_lastLineValid st) eqn:El.
    + destruct (Hlast eq_refl) as (h & t & Ht & Hp). rewrite Ht. eexists _, _. split; [done|].
      cbn [li_Pos]. lia.
    + eexists _, _. split; [done|]. done.
Qed.

(** A line without a time is left out. *)
Lemma loop_inv_skip F l r kept T st :
  loop_inv F (l :: r) kept T st ->
  loop_inv F r kept ((l ++ [NL]) ++ T)
    {| rs_result := invalid_line (read_line (Z.of_nat (length l) + 1) (rs_result st));
       rs_linesToKeep := rs_linesToKeep st; rs_lastLineValid := false |}.
Proof.
  intros [Hfile Hsize Hread Hkeep Hcount Hasc Hext Hlast].
  constructor; cbn [rs_result rs_linesToKeep rs_lastLineValid invalid_line read_line
      OriginalSize NumBytesRead NumBytesKeep NumLinesKeep]; try done.
  - rewrite Hfile. simpl. rewrite unlines_snoc. by rewrite <- !app_assoc.
  - rewrite !blen_app, Hread. unfold blen. simpl. lia.
  - eapply asc_weaken; [|exact Hasc]. simpl. rewrite unlines_snoc, blen_app. unfold blen. lia.
Qed.

Lemma rotate_list_spec F stop shouldStop :
  (forall r t, shouldStop r t = stop (NumLinesKeep r) (NumLinesInvalid r) t) ->
  forall r kept T st, loop_inv F r kept T st ->
  let st' := rotate_list shouldStop r st in
  let kept' := kept ++ keep_rev stop r (NumLinesKeep (rs_result st)) (NumLinesInvalid (rs_result st)) in
  asc 0 (rs_linesToKeep st') (blen F) /\ extract F (rs_linesToKeep st') = unlines (rev kept')
  /\ NumBytesKeep (rs_result st') = blen (unlines (rev kept')) /\ OriginalSize (rs_result st') = blen F.
Proof.
  intros Hstop r. induction r as [|l r IH]; intros kept T st Hinv.
  - cbn [rotate_list keep_rev]. rewrite app_nil_r. destruct Hinv. repeat split; try done.
  - cbn [rotate_list keep_rev]. unfold rotate_step. destruct (ParseLogTime l) as [t|] eqn:Et.
    + rewrite Hstop. cbn [read_line NumLinesKeep NumLinesInvalid].
      destruct (stop _ _ t) eqn:Es.
      * rewrite app_nil_r. destruct Hinv. cbn [rs_linesToKeep rs_result read_line NumBytesKeep OriginalSize].
        repeat split; try done. eapply asc_weaken; [|eassumption]. unfold blen. lia.
      * apply loop_inv_keep in Hinv. apply IH in Hinv.
        cbn [rs_result keep_line read_line NumLinesKeep NumLinesInvalid] in Hinv.
        rewrite <- app_assoc in Hinv. exact Hinv.
    + apply loop_inv_skip, IH in Hinv. exact Hinv.
Qed.

Lemma keep_rev_sublist stop lines : forall k i, keep_rev stop lines k i `sublist_of` lines.
Proof.
  induction lines as [|l lines IH]; intros k i; cbn [keep_rev]; [done|].
  destruct (ParseLogTime l); [|by apply sublist_cons].
  case_match; [apply sublist_nil_l|by apply sublist_skip].
Qed.

Lemma sublist_rev {A} (k l : list A) : k `sublist_of` l -> rev k `sublist_of` rev l.
Proof.
  induction 1; simpl; [done|by apply sublist_app|by apply sublist_inserts_r].
Qed.

Lemma sublist_same_length k l :
  k `sublist_of` l -> blen (unlines k) = blen (unlines l) -> k = l.
Proof.
  intros Hs.
  assert (Hle : forall k l, k `sublist_of` l -> blen (unlines k) <= blen (unlines l)).
  { clear. intros k l. induction 1; unfold unlines in *; cbn [map concat];
      rewrite ?blen_app; [lia|lia|]. unfold blen in *. lia. }
  induction Hs as [|x k l Hs IH|x k l Hs IH]; [done| |];
    unfold unlines in *; cbn [map concat]; rewrite ?blen_app; intros Hl.
  - f_equal. apply IH. lia.
  - specialize (Hle k l Hs). unfold unlines in Hle.
    change (blen [NL]) with 1 in Hl. unfold blen in *. lia.
Qed.

Definition start_state (size : Z) : rotate_state :=
  {| rs_result := zero_result size; rs_linesToKeep := []; rs_lastLineValid := false |}.

(** What the loop over a log file returns. *)
Lemma policy_loop f stop shouldStop lines :
  (0 < defaultChunkSize)%nat -> (forall i, read_fails f i = false) ->
  Forall line_ok lines -> contents f = unlines lines ->
  (forall r t, shouldStop r t = stop (NumLinesKeep r) (NumLinesInvalid r) t) ->
  let kept := rev (keep_rev stop (rev lines) 0 0) in
  let '(s, st) := rotate_loop (S (length (contents f))) f shouldStop
      (NewBackScanner (length (contents f))) (start_state (blen (contents f))) in
  bs_err s = false
  /\ st = rotate_list shouldStop (rev lines) (start_state (blen (contents f)))
  /\ asc 0 (rs_linesToKeep st) (blen (contents f))
  /\ extract (contents f) (rs_linesToKeep st) = unlines kept
  /\ NumBytesKeep (rs_result st) = blen (unlines kept)
  /\ OriginalSize (rs_result st) = blen (contents f).
Proof.
  intros Hc Hr Hok Hf Hstop kept. set (st0 := start_state _).
  pose proof (rotate_loop_list f shouldStop (S (length (contents f)))
    (NewBackScanner (length (contents f))) st0 Hc Hr) as Hloop.
  assert (Hrem : remaining f (NewBackScanner (length (contents f))) = unlines lines).
  { unfold remaining. simpl. by rewrite firstn_all, app_nil_r. }
  rewrite Hrem, lines_of_unlines in Hloop by done.
  destruct (rotate_loop _ _ _ _ _) as [s st].
  destruct Hloop as [Herr Hst]; [by split; simpl|rewrite <- Hf; lia|].
  assert (Hinv : loop_inv (contents f) (rev lines) [] [] st0).
  { constructor; simpl; rewrite ?rev_involutive, ?app_nil_r, ?Hf; try done. }
  destruct (rotate_list_spec (contents f) stop shouldStop Hstop _ _ _ _ Hinv) as (Ha & He & Hk & Ho).
  rewrite <- Hst in *. done.
Qed.

Lemma unlines_not_nil lines : lines <> [] -> length (unlines lines) <> 0%nat.
Proof.
  destruct lines as [|l lines]; [done|]. intros _. unfold unlines. simpl.
  rewrite !length_app. simpl. lia.
Qed.

Lemma kept_sublist stop lines : rev (keep_rev stop (rev lines) 0 0) `sublist_of` lines.
Proof. rewrite <- (rev_involutive lines) at 2. apply sublist_rev, keep_rev_sublist. Qed.

Lemma policy_spec f config stop shouldStop lines :
  (0 < defaultChunkSize)%nat -> (forall i, read_fails f i = false) ->
  Forall line_ok lines -> lines <> [] -> contents f = unlines lines ->
  stop_policy config = Some shouldStop ->
  (forall r t, shouldStop r t = stop (NumLinesKeep r) (NumLinesInvalid r) t) ->
  let kept := rev (keep_rev stop (rev lines) 0 0) in
  ((pool_Get.2 < length (contents f))%nat /\ rotateLogFileByPolicy f config = Panic SliceOutOfBounds)
  \/ exists f' res, rotateLogFileByPolicy f config = Ok (bool_decide (kept <> lines), f', res)
                 /\ contents f' = unlines kept.
Proof.
  intros Hc Hr Hok Hne Hf Hp Hstop kept. unfold rotateLogFileByPolicy. rewrite Hp.
  rewrite (proj2 (Nat.eqb_neq _ _)) by (rewrite Hf; by apply unlines_not_nil).
  pose proof (policy_loop f stop shouldStop lines Hc Hr Hok Hf Hstop) as Hl.
  change {| rs_result := _; rs_linesToKeep := []; rs_lastLineValid := false |}
    with (start_state (blen (contents f))).
  destruct (rotate_loop _ _ _ _ _) as [s st]. destruct Hl as (Herr & _ & Ha & He & Hk & Ho).
  rewrite Herr. fold kept in He, Hk. pose proof (kept_sublist stop lines) as Hsub. fold kept in Hsub.
  destruct (rs_linesToKeep st) as [|h t] eqn:El.
  - assert (Hnil : kept = []).
    { destruct kept as [|x kept']; [done|]. exfalso. apply (unlines_not_nil (x :: kept')); [done|].
      by rewrite <- He. }
    right. rewrite Hnil in *. eexists _, _. rewrite bool_decide_eq_true_2 by done. split; [done|]. done.
  - rewrite Hk, Ho. destruct (Z.eqb_spec (blen (unlines kept)) (blen (contents f))) as [Heq|Hneq].
    + assert (Hkl : kept = lines) by (apply sublist_same_length; [done|by rewrite Heq, Hf]).
      right. rewrite Hkl. eexists f, _. rewrite bool_decide_eq_false_2 by tauto. by split.
    + destruct (copy_blocks_spec (contents f) (h :: t) f pool_Get [] Hr) as [[Hlt Hcp]|(f' & Hcp & Hf')]; [done|done| |].
      { left. split; [done|]. change (blen []) with 0 in Hcp. by rewrite Hcp. }
      right. rewrite app_nil_l in Hcp, Hf'. change (blen []) with 0 in Hcp. rewrite Hcp. cbn [mbind result_bind].
      eexists _, _. rewrite bool_decide_eq_true_2 by congruence. split; [done|].
      unfold Truncate. cbn [contents set_contents]. rewrite Hf', He. unfold blen.
      by rewrite Nat2Z.id, take_app_length.
Qed.

(** The condition of a policy on the lines kept and skipped so far and the time
    of a line: the first line that meets it and all older ones are dropped. *)
Definition drops_from (config : Retention) (kept invalid t : Z) : bool :=
  if 0 <? rt_Last config then kept - invalid =? int64 (rt_Last config) else t <? cutoff (rt_Days config).

(** C5: rotation by a number of lines or of days (and not by size), of a
    readable file of nonblank lines that all end with a newline, rewrites the
    file in place to exactly the lines the policy keeps, in their order,
    complete with their newlines: the lines with a time, from the newest back to
    the first that meets the stop condition of the policy.  The file is reported
    as rotated when a line was dropped.  The only other outcome is a panic of
    the copy, and that only when the file is larger than the buffer the pool
    gives. *)
Theorem rotate_by_policy f config lines :
  (0 < defaultChunkSize)%nat -> (forall i, read_fails f i = false) ->
  Forall line_ok lines -> lines <> [] -> contents f = unlines lines ->
  rt_KeepSize config <= 0 -> (0 < rt_Last config \/ 0 < rt_Days config) ->
  let kept := rev (keep_rev (drops_from config) (rev lines) 0 0) in
  ((pool_Get.2 < length (contents f))%nat /\ rotateLogFile f config = Panic SliceOutOfBounds)
  \/ exists f' res, rotateLogFile f config = Ok (bool_decide (kept <> lines), f', res)
                 /\ contents f' = unlines kept.
Proof.
  intros Hc Hr Hok Hne Hf Hs Hp. unfold rotateLogFile. rewrite (proj2 (Z.ltb_ge _ _)) by done.
  unfold drops_from. destruct (Z.ltb_spec 0 (rt_Last config)) as [Hl|Hl].
  - eapply policy_spec; try done. unfold stop_policy. by rewrite (proj2 (Z.ltb_lt _ _)) by done.
  - eapply policy_spec; try done. unfold stop_policy.
    rewrite (proj2 (Z.ltb_ge _ _)), (proj2 (Z.ltb_lt _ _)) by (done || lia). done.
Qed.

Definition stop_last (n : Z) : Z -> Z -> Z -> bool := fun k i _ => k - i =? n.

Definition valid_line (l : bytes) : Prop := is_Some (ParseLogTime l).

Lemma keep_rev_last n lines : forall k i,
  Forall valid_line lines -> k - i <= n ->
  keep_rev (stop_last n) lines k i = take (Z.to_nat (n - (k - i))) lines.
Proof.
  induction lines as [|l lines IH]; intros k i Hv Hk; cbn [keep_rev]; [by rewrite take_nil|].
  inversion Hv as [|? ? [t Ht] Hv']; subst. rewrite Ht. unfold stop_last at 1.
  destruct (Z.eqb_spec (k - i) n) as [<-|Hn].
  - by rewrite Z.sub_diag.
  - rewrite IH by (done || lia).
    replace (Z.to_nat (n - (k - i))) with (S (Z.to_nat (n - (k + 1 - i)))) by lia. done.
Qed.

Lemma keep_rev_invalid stop inv lines : forall k i,
  Forall (fun l => ParseLogTime l = None) inv ->
  keep_rev stop (inv ++ lines) k i = keep_rev stop lines k (i + Z.of_nat (length inv)).
Proof.
  induction inv as [|l inv IH]; intros k i Hv; cbn [app keep_rev length].
  - by rewrite Z.add_0_r.
  - inversion Hv as [|? ? Ht Hv']; subst. rewrite Ht, IH by done. f_equal. lia.
Qed.

Lemma last_policy_kept n valid inv :
  0 <= n -> Forall valid_line valid -> Forall (fun l => ParseLogTime l = None) inv ->
  rev (keep_rev (stop_last n) (rev (valid ++ inv)) 0 0)
  = drop (length valid - Z.to_nat (n + Z.of_nat (length inv))) valid.
Proof.
  intros Hn Hv Hi. rewrite rev_app_distr, keep_rev_invalid by (by apply Forall_rev).
  rewrite length_rev, keep_rev_last by (by apply Forall_rev || lia).
  replace (n - (0 - (0 + Z.of_nat (length inv)))) with (n + Z.of_nat (length inv)) by lia.
  by rewrite firstn_rev, rev_involutive.
Qed.

Definition keep_last (n : Z) : Retention := {| rt_Days := 0; rt_Last := n; rt_KeepSize := 0 |}.

Lemma int64_small n : 0 <= n < 2 ^ 63 -> int64 n = n.
Proof. intros H. unfold int64. by rewrite (proj2 (Z.ltb_lt _ _)) by lia. Qed.

Lemma stop_policy_last n :
  0 < n < 2 ^ 63 ->
  stop_policy (keep_last n)
  = Some (fun r _ => NumLinesKeep r - NumLinesInvalid r =? int64 n).
Proof. intros H. unfold stop_policy. simpl. by rewrite (proj2 (Z.ltb_lt _ _)) by lia. Qed.

(** [last n] keeps the newest [n] lines of a log, plus one older line for
    every line without a time at its end (such lines themselves are dropped):
    the stop condition subtracts the invalid lines from the kept ones although
    they were never counted among them. *)
Theorem rotate_keeps_last f n valid inv :
  (0 < defaultChunkSize)%nat -> (forall i, read_fails f i = false) ->
  (length (contents f) <= pool_Get.2)%nat -> 0 < n < 2 ^ 63 ->
  contents f = unlines (valid ++ inv) -> valid ++ inv <> [] -> Forall line_ok (valid ++ inv) ->
  Forall valid_line valid -> Forall (fun l => ParseLogTime l = None) inv ->
  exists rotated f' res,
    rotateLogFile f (keep_last n) = Ok (rotated, f', res)
    /\ contents f' = unlines (drop (length valid - Z.to_nat (n + Z.of_nat (length inv))) valid).
Proof.
  intros Hc Hr Hbuf Hn Hf Hne Hok Hv Hi.
  destruct (policy_spec f (keep_last n) (stop_last n) _ (valid ++ inv) Hc Hr Hok Hne Hf
    (stop_policy_last n Hn)) as [[Hlt _]|(f' & res & H1 & H2)].
  { intros r t. unfold stop_last. by rewrite int64_small by lia. }
  { lia. }
  rewrite last_policy_kept in H2 by (done || lia). by eexists _, f', res.
Qed.

(** All lines valid: the kept lines form one block. *)
Lemma rotate_list_one_block shouldStop lines : forall st,
  Forall valid_line lines ->
  (rs_lastLineValid st = true /\ length (rs_linesToKeep st) = 1%nat \/ rs_linesToKeep st = []) ->
  (length (rs_linesToKeep (rotate_list shouldStop lines st)) <= 1)%nat.
Proof.
  induction lines as [|l lines IH]; intros st Hv Hst; cbn [rotate_list].
  { destruct Hst as [[_ ->]| ->]; simpl; lia. }
  inversion Hv as [|? ? [t Ht] Hv']; subst. unfold rotate_step. rewrite Ht.
  destruct (shouldStop _ t); cbn [rs_linesToKeep].
  { destruct Hst as [[_ ->]| ->]; simpl; lia. }
  apply IH; [done|]. left. cbn [rs_lastLineValid rs_linesToKeep]. split; [done|].
  destruct Hst as [[-> Hl]| ->]; [|by destruct (rs_lastLineValid st)].
  by destruct (rs_linesToKeep st) as [|? []].
Qed.

(** the copy buffer is grown by the wrong amount.  With an empty slice of
    capacity [c] from the pool, moving a kept block of more than [c] and at
    most [2c] bytes panics, so a log that outgrows the pool's buffers is not
    rotated. *)
Theorem rotate_buffer_panics f n lines c :
  (0 < defaultChunkSize)%nat -> (forall i, read_fails f i = false) ->
  0 < n < 2 ^ 63 -> contents f = unlines lines ->
  Forall line_ok lines -> Forall valid_line lines -> n < Z.of_nat (length lines) ->
  pool_Get = (0%nat, c) ->
  (c < length (unlines (drop (length lines - Z.to_nat n) lines)) <= 2 * c)%nat ->
  rotateLogFile f (keep_last n) = Panic SliceOutOfBounds.
Proof.
  intros Hc Hr Hn Hf Hok Hv Hlen Hpool Hsize.
  unfold rotateLogFile. cbn [keep_last rt_KeepSize]. change (0 <? 0) with false. cbn iota.
  unfold rotateLogFileByPolicy. rewrite stop_policy_last by done. set (shouldStop := fun _ _ => _).
  rewrite (proj2 (Nat.eqb_neq _ _)) by (rewrite Hf; apply unlines_not_nil; destruct lines; simpl in *; [lia|done]).
  assert (Hstop : forall r t, shouldStop r t = stop_last n (NumLinesKeep r) (NumLinesInvalid r) t).
  { intros r t. unfold shouldStop, stop_last. by rewrite int64_small by lia. }
  pose proof (policy_loop f (stop_last n) shouldStop lines Hc Hr Hok Hf Hstop) as Hl.
  change {| rs_result := _; rs_linesToKeep := []; rs_lastLineValid := false |}
    with (start_state (blen (contents f))).
  destruct (rotate_loop _ _ _ _ _) as [s st]. destruct Hl as (Herr & Hst & Ha & He & Hk & Ho).
  rewrite Herr. pose proof (last_policy_kept n lines [] ltac:(lia) Hv ltac:(done)) as Hlast.
  rewrite app_nil_r, Z.add_0_r in Hlast. rewrite Hlast in *. clear Hlast.
  set (kept := drop _ lines) in *.
  assert (Hone : (length (rs_linesToKeep st) <= 1)%nat).
  { rewrite Hst. apply rotate_list_one_block; [by apply Forall_rev|by right]. }
  destruct (rs_linesToKeep st) as [|h [|? ?]]; [|clear Hone|simpl in Hone; lia].
  { apply (f_equal length) in He. simpl in He. lia. }
  assert (Hneq : blen (unlines kept) <> blen (contents f)).
  { intros E. rewrite Hf in E. apply sublist_same_length in E.
    - apply (f_equal length) in E. unfold kept in E. rewrite length_drop in E. lia.
    - apply sublist_drop. }
  rewrite Hk, Ho, (proj2 (Z.eqb_neq _ _)) by done.
  assert (Hh : Z.to_nat (li_Size h) = length (unlines kept)).
  { unfold extract in He. simpl in He. rewrite app_nil_r in He. rewrite <- He.
    unfold block_bytes. rewrite length_take, length_drop. cbn [asc] in Ha. unfold blen in Ha. lia. }
  cbn [copy_blocks]. rewrite Hh, Hpool. unfold resize_buf. cbn [fst snd slices_Grow].
  rewrite (proj2 (Nat.ltb_lt _ _)) by lia. rewrite (proj2 (Nat.ltb_ge _ _)) by lia. cbn [snd].
  by rewrite (proj2 (Nat.leb_gt _ _)) by lia.
Qed.

End Rotate.

(** ** Concrete runs *)

(** A clock that knows only the day of the month. *)
Definition day_of (s : bytes) : option Z := parse_digits (take 2 s).

Definition example_line (day : string) : bytes :=
  B "host 10.0.0.1 - - [" ++ B day ++ B "/Jan/2006:15:04:05 -0700] x".

Definition example_log : list bytes :=
  [example_line "01"; B "oops"; example_line "02"; example_line "03"; example_line "04"].

Definition example_days : Retention := {| rt_Days := 3; rt_Last := 0; rt_KeepSize := 0 |}.

Lemma example_log_ok ls :
  forallb (fun l => negb (bool_decide (l = [])) && negb (bool_decide (NL ∈ l))) ls = true ->
  Forall line_ok ls.
Proof.
  intros H. apply Forall_forall. intros l Hl. rewrite list_elem_of_In in Hl.
  rewrite forallb_forall in H. specialize (H l Hl).
  destruct (bool_decide (l = [])) eqn:E1; [done|]. destruct (bool_decide (NL ∈ l)) eqn:E2; [done|].
  apply bool_decide_eq_false in E1, E2. done.
Qed.

Lemma rotate_by_policy_witness :
  exists f' res,
    rotateLogFile day_of (fun _ => 3) 16 (0%nat, 1000%nat) (fun _ n => n)
      (file_of (unlines example_log)) example_days = Ok (true, f', res)
    /\ contents f' = unlines [example_line "03"; example_line "04"].
Proof.
  destruct (rotate_by_policy day_of (fun _ => 3) 16 (0%nat, 1000%nat) (fun _ n => n)
    (file_of (unlines example_log)) example_days example_log) as [[Hlt _]|H].
  - lia.
  - done.
  - by apply example_log_ok.
  - done.
  - done.
  - done.
  - by right.
  - exfalso. apply Nat.ltb_lt in Hlt. vm_compute in Hlt. discriminate Hlt.
  - exact H.
Defined.

Lemma rotate_keeps_last_witness :
  exists rotated f' res,
    rotateLogFile day_of (fun _ => 3) 16 (0%nat, 1000%nat) (fun _ n => n)
      (file_of (unlines ([example_line "01"; example_line "02"; example_line "03"] ++ [B "oops"])))
      (keep_last 1) = Ok (rotated, f', res)
    /\ contents f' = unlines [example_line "02"; example_line "03"].
Proof.
  apply (rotate_keeps_last day_of (fun _ => 3) 16 (0%nat, 1000%nat) (fun _ n => n)
    (file_of (unlines ([example_line "01"; example_line "02"; example_line "03"] ++ [B "oops"])))
    1 [example_line "01"; example_line "02"; example_line "03"] [B "oops"]).
  - lia.
  - done.
  - apply Nat.leb_le. by vm_compute.
  - lia.
  - done.
  - done.
  - by apply example_log_ok.
  - repeat constructor; by eexists.
  - by repeat constructor.
Defined.

Lemma rotate_buffer_panics_witness :
  rotateLogFile day_of (fun _ => 3) 16 (0%nat, 64%nat) (fun _ n => n)
    (file_of (unlines [example_line "01"; example_line "02"; example_line "03"])) (keep_last 2)
  = Panic SliceOutOfBounds.
Proof.
  apply (rotate_buffer_panics day_of (fun _ => 3) 16 (0%nat, 64%nat) (fun _ n => n)
    (file_of (unlines [example_line "01"; example_line "02"; example_line "03"]))
    2 [example_line "01"; example_line "02"; example_line "03"] 64).
  - lia.
  - done.
  - lia.
  - done.
  - by apply example_log_ok.
  - repeat constructor; by eexists.
  - simpl. lia.
  - done.
  - vm_compute. lia.
Defined.

(** Splitting at the first space. *)
Definition split_space (v : bytes) : list bytes :=
  match IndexByte v (zbyte 32) with
  | Some i => [take i v; drop (S i) v]
  | None => [v]
  end.

Lemma Retention_roundtrip_witness :
  Retention_Parse split_space
    (Retention_String (fun _ => []) {| rt_Days := 30; rt_Last := 0; rt_KeepSize := 0 |}) no_retention
  = Ok {| rt_Days := 30; rt_Last := 0; rt_KeepSize := 0 |}.
Proof.
  apply (Retention_roundtrip split_space (fun _ => []) {| rt_Days := 30; rt_Last := 0; rt_KeepSize := 0 |}).
  - intros a b _ _ Ha _. unfold split_space.
    assert (E : IndexByte (a ++ zbyte 32 :: b) (zbyte 32) = Some (length a)).
    { induction a as [|x a IH]; [done|]. apply not_elem_of_cons in Ha as [Hx Ha].
      cbn [app IndexByte length]. rewrite (IH Ha). by destruct (Ascii.eqb_spec x (zbyte 32)); subst. }
    rewrite E, take_app_length. f_equal. f_equal.
    change (S (length a)) with (1 + length a)%nat. rewrite Nat.add_comm, <- drop_drop, drop_app_length. done.
  - unfold MaxUint64. simpl. lia.
  - unfold MaxUint64. simpl. lia.
  - left. simpl. lia.
Defined.
