(* ===== verification/AccessLog.v ===== *)
(** * Access log: filters, fields, line formats and the logger

    Models internal/logging/accesslog: status_code_range.go, filter.go,
    fields.go, formatter.go (common and combined formats) and
    access_logger.go.  The buffered writer and the rate limiter of
    access_logger.go belong to other packages and are parameters. *)

From S2P Require Import Prelude GoStrings NetAddr RulesHTTP RulesOn BackScanner LogRotate.

(** ** Status code ranges (status_code_range.go) *)

Record StatusCodeRange := { sc_Start : Z; sc_End : Z }.

Definition Includes (r : StatusCodeRange) (code : Z) : bool :=
  (sc_Start r <=? code) && (code <=? sc_End r).

Inductive log_error := ErrAtoi | ErrInvalidStatusCodeRange | ErrInvalidHTTPHeaderFilter | ErrNoTarget.

Section Split.

(** [strutils.SplitRune]. *)
Context (SplitRune : bytes -> ascii -> list bytes).

Definition StatusCodeRange_Parse (v : bytes) : result log_error StatusCodeRange :=
  match SplitRune v "-"%char with
  | [a] =>
      match Atoi a with
      | None => Err ErrAtoi
      | Some start => Ok {| sc_Start := start; sc_End := start |}
      end
  | [a; b] =>
      match Atoi a, Atoi b with
      | Some start, Some stop => Ok {| sc_Start := start; sc_End := stop |}
      | _, _ => Err ErrAtoi
      end
  | _ => Err ErrInvalidStatusCodeRange
  end.

End Split.

Definition StatusCodeRange_String (r : StatusCodeRange) : bytes :=
  if sc_Start r =? sc_End r then Itoa (sc_Start r)
  else Itoa (sc_Start r) ++ "-"%char :: Itoa (sc_End r).

(** ** Filters (filter.go) *)

(** The part of [http.Response] the logger reads. *)
Record Response := { rs_StatusCode : Z; rs_Status : bytes; rs_ContentLength : Z }.

(** The interface [Filterable]. *)
Class Filterable (T : Type) := Fulfill : T -> Request -> Response -> bool.

Record LogFilter (T : Type) := { lf_Negative : bool; lf_Values : list T }.
Arguments lf_Negative {T}. Arguments lf_Values {T}.

Definition CheckKeep `{Filterable T} (f : LogFilter T) (r : Request) (res : Response) : bool :=
  match lf_Values f with
  | [] => negb (lf_Negative f)
  | vs => if existsb (fun v => Fulfill v r res) vs then negb (lf_Negative f) else lf_Negative f
  end.

Record HTTPMethod := { hm_method : bytes }.
Record Host := { h_host : bytes }.
Record HTTPHeader := { hh_Key : bytes; hh_Value : bytes }.
Record CIDR := { cidr_net : IPNet }.

(** [HTTPHeader.Parse]. *)
Definition HTTPHeader_Parse (SplitRune : bytes -> ascii -> list bytes) (v : bytes)
    : result log_error HTTPHeader :=
  match SplitRune v "="%char with
  | [k] => Ok {| hh_Key := k; hh_Value := [] |}
  | [k; w] => Ok {| hh_Key := k; hh_Value := w |}
  | _ => Err ErrInvalidHTTPHeaderFilter
  end.

(** The client's address without its port. *)
Definition clientIP (r : Request) : bytes :=
  match SplitHostPort (r_RemoteAddr r) with
  | Some (ip, _) => ip
  | None => r_RemoteAddr r
  end.

Section Filters.

(** [strings.EqualFold]. *)
Context (EqualFold : bytes -> bytes -> bool).

#[export] Instance StatusCodeRange_Fulfill : Filterable StatusCodeRange :=
  fun r _ res => Includes r (rs_StatusCode res).

#[export] Instance HTTPMethod_Fulfill : Filterable HTTPMethod :=
  fun m r _ => bool_decide (r_Method r = hm_method m).

#[export] Instance Host_Fulfill : Filterable Host :=
  fun h r _ => bool_decide (r_Host r = h_host h).

Definition HTTPHeader_Fulfill : Filterable HTTPHeader := fun k r _ =>
  let got := r_Header r !! hh_Key k in
  match hh_Value k, got with
  | [], _ => bool_decide (is_Some got)
  | _, None => false
  | wanted, Some got => existsb (fun v => EqualFold v wanted) got
  end.

#[export] Instance CIDR_Fulfill : Filterable CIDR := fun c r _ =>
  match ParseIP (clientIP r) with
  | None => false
  | Some ip => Contains (cidr_net c) ip
  end.

Record Filters := {
  fl_StatusCodes : LogFilter StatusCodeRange;
  fl_Method : LogFilter HTTPMethod;
  fl_Host : LogFilter Host;
  fl_Headers : LogFilter HTTPHeader;
  fl_CIDR : LogFilter CIDR
}.

(** [accessLogger.shouldLog]. *)
Definition shouldLog (f : Filters) (r : Request) (res : Response) : bool :=
  if negb (CheckKeep (fl_StatusCodes f) r res)
     || negb (CheckKeep (fl_Method f) r res)
     || negb (CheckKeep (H := HTTPHeader_Fulfill) (fl_Headers f) r res)
     || negb (CheckKeep (fl_CIDR f) r res)
  then false else true.

End Filters.

(** ** Fields (fields.go) *)

Inductive FieldMode := FieldModeKeep | FieldModeDrop | FieldModeRedact | FieldModeOther.

#[export] Instance FieldMode_eq_dec : EqDecision FieldMode.
Proof. solve_decision. Defined.

Record FieldConfig := { fc_Default : FieldMode; fc_Config : gmap bytes FieldMode }.

Definition RedactedValue : bytes := B "REDACTED".

Definition field_mode (cfg : FieldConfig) (k : bytes) : FieldMode :=
  match fc_Config cfg !! k with
  | Some mode => mode
  | None => fc_Default cfg
  end.

(** The iterators as the list of what they yield, over the entries of the map
    in the order of the range loop. *)
Definition iter_slice (m : list (bytes * list bytes)) : list (bytes * list bytes) := m.

Definition iter_redacted (m : list (bytes * list bytes)) : list (bytes * list bytes) :=
  map (fun kv => (kv.1, [RedactedValue])) m.

Definition iter_with_config (cfg : FieldConfig) (m : list (bytes * list bytes))
    : list (bytes * list bytes) :=
  flat_map (fun kv => match field_mode cfg kv.1 with
                      | FieldModeKeep => [kv]
                      | FieldModeRedact => [(kv.1, [RedactedValue])]
                      | _ => []
                      end) m.

(** [mapIter]. *)
Definition mapIter (cfg : FieldConfig) (m : list (bytes * list bytes)) : list (bytes * list bytes) :=
  if bool_decide (fc_Config cfg = ∅) then
    match fc_Default cfg with
    | FieldModeKeep => iter_slice m
    | FieldModeDrop => []
    | FieldModeRedact => iter_redacted m
    | FieldModeOther => iter_with_config cfg m
    end
  else iter_with_config cfg m.

(** [iterSlice] on cookies ([IterCookies]). *)
Definition IterCookies (cfg : FieldConfig) (cookies : list Cookie) : list (bytes * bytes) :=
  match cookies with
  | [] => []
  | _ =>
      if bool_decide (fc_Config cfg = ∅) && bool_decide (fc_Default cfg = FieldModeDrop) then []
      else flat_map (fun c => match field_mode cfg (ck_Name c) with
                              | FieldModeKeep => [(ck_Name c, ck_Value c)]
                              | FieldModeRedact => [(ck_Name c, RedactedValue)]
                              | _ => []
                              end) cookies
  end.

Record Fields := { fd_Headers : FieldConfig; fd_Query : FieldConfig; fd_Cookies : FieldConfig }.

(** ** Formats (formatter.go) *)

Definition SP : ascii := zbyte 32.
Definition quote : ascii := zbyte 34.

(** [appendRequestURI]: what is appended to the line. *)
Definition appendRequestURI (path : bytes) (query : list (bytes * list bytes)) : bytes :=
  let entry kv := kv.1 ++ "="%char :: concat kv.2 in
  match query with
  | [] => path
  | kv :: query => path ++ "?"%char :: entry kv ++ concat (map (fun kv => "&"%char :: entry kv) query)
  end.

Section Format.

Context {HL : HTTPLib}.

(** [utils.TimeNow().Format(LogTimeFormat)], and the order of a range loop
    over a map. *)
Context (now_text : bytes) (order : Values -> list (bytes * list bytes)).
Context (r_Proto : Request -> bytes) (r_Referer r_UserAgent : Request -> bytes).

Definition CommonFormatter_AppendRequestLog (cfg : Fields) (r : Request) (res : Response) : bytes :=
  let query := mapIter (fd_Query cfg) (order (url_Query (u_RawQuery (r_URL r)))) in
  r_Host r ++ [SP] ++ clientIP r ++ B " - - [" ++ now_text ++ B "] " ++ [quote]
  ++ r_Method r ++ [SP] ++ appendRequestURI (url_EscapedPath (r_URL r)) query ++ [SP] ++ r_Proto r
  ++ [quote; SP] ++ Itoa (rs_StatusCode res) ++ [SP] ++ Itoa (rs_ContentLength res).

Definition CombinedFormatter_AppendRequestLog (cfg : Fields) (r : Request) (res : Response) : bytes :=
  CommonFormatter_AppendRequestLog cfg r res
  ++ [SP; quote] ++ r_Referer r ++ [quote; SP; quote] ++ r_UserAgent r ++ [quote].

End Format.

(** ** The logger (access_logger.go) *)

(** [BufferedWriter] with the underlying file: its state and what its methods
    return.  The integer of [bw_Write] is the number of bytes written; a
    [false] is an error. *)
Class BufferedWriter (W : Type) := {
  bw_Write : W -> bytes -> W * Z * bool;
  bw_Flush : W -> W;
  bw_Resize : W -> Z -> W * bool;
  bw_Close : W -> W
}.

Definition InitialBufferSize : Z := 4 * kilobyte.
Definition MaxBufferSize : Z := 8 * megabyte.
Definition bufferAdjustInterval_Seconds : Z := 5.

Section Logger.

Context {W : Type} {BW : BufferedWriter W}.

(** [errRateLimiter.Allow()] on the limiter's state. *)
Context {L : Type} (Allow : L -> bool * L).

Record accessLogger := {
  al_writer : W;
  al_closed : bool;
  al_writeCount : Z;
  al_bufSize : Z;
  al_limiter : L;
  al_errors : nat;           (* errors reported *)
  al_finished : bool         (* l.task.Finish was called *)
}.

Definition set_writer (l : accessLogger) (w : W) : accessLogger :=
  {| al_writer := w; al_closed := al_closed l; al_writeCount := al_writeCount l;
     al_bufSize := al_bufSize l; al_limiter := al_limiter l; al_errors := al_errors l;
     al_finished := al_finished l |}.

Definition handleErr (l : accessLogger) : accessLogger :=
  let '(ok, lim) := Allow (al_limiter l) in
  {| al_writer := al_writer l; al_closed := al_closed l; al_writeCount := al_writeCount l;
     al_bufSize := al_bufSize l; al_limiter := lim; al_errors := S (al_errors l);
     al_finished := if ok then al_finished l else true |}.

Definition add_writeCount (n : Z) (l : accessLogger) : accessLogger :=
  {| al_writer := al_writer l; al_closed := al_closed l; al_writeCount := al_writeCount l + n;
     al_bufSize := al_bufSize l; al_limiter := al_limiter l; al_errors := al_errors l;
     al_finished := al_finished l |}.

Definition al_write (l : accessLogger) (data : bytes) : accessLogger :=
  if al_closed l then l
  else
    let '(w, n, ok) := bw_Write (al_writer l) data in
    let l := set_writer l w in
    let l := if negb ok then handleErr l
             else if n <? blen data then handleErr l else l in
    add_writeCount n l.

Definition al_Flush (l : accessLogger) : accessLogger :=
  if al_closed l then l else set_writer l (bw_Flush (al_writer l)).

Definition al_Close (l : accessLogger) : accessLogger :=
  if al_closed l then l
  else
    {| al_writer := bw_Close (bw_Flush (al_writer l)); al_closed := true;
       al_writeCount := al_writeCount l; al_bufSize := al_bufSize l; al_limiter := al_limiter l;
       al_errors := al_errors l; al_finished := al_finished l |}.

(** The line with its newline ([Log], [LogACL]); the formatters never return
    an empty line, for which [line[len(line)-1]] would panic. *)
Definition end_line (line : bytes) : result log_error bytes :=
  match last line with
  | None => Panic IndexOutOfRange
  | Some c => if Ascii.eqb c NL then Ok line else Ok (line ++ [NL])
  end.

(** [Log] with the filters and the formatter of the configuration. *)
Definition al_Log (should : Request -> Response -> bool) (format : Request -> Response -> bytes)
    (l : accessLogger) (r : Request) (res : Response) : result log_error accessLogger :=
  if negb (should r res) then Ok l
  else line ← end_line (format r res); Ok (al_write l line).

(** [LogError]. *)
Definition al_LogError (should : Request -> Response -> bool) (format : Request -> Response -> bytes)
    (l : accessLogger) (r : Request) (err : bytes) : result log_error accessLogger :=
  al_Log should format l r {| rs_StatusCode := 500; rs_Status := err; rs_ContentLength := 0 |}.

(** The arithmetic of [adjustBuffer] (Go's integer division truncates). *)
Definition newBufSize (origBufSize wps : Z) : Z :=
  let halfDiff := Z.abs (Z.quot (wps - origBufSize) 2) in
  let step := Z.max halfDiff (Z.quot wps 2) in
  if origBufSize <? wps then Z.min (origBufSize + step) MaxBufferSize
  else if wps <? origBufSize then Z.max (origBufSize - step) InitialBufferSize
  else origBufSize.

Definition set_bufSize (l : accessLogger) (w : W) (count size : Z) : accessLogger :=
  {| al_writer := w; al_closed := al_closed l; al_writeCount := count;
     al_bufSize := size; al_limiter := al_limiter l; al_errors := al_errors l;
     al_finished := al_finished l |}.

Definition adjustBuffer (l : accessLogger) : accessLogger :=
  let wps := Z.quot (al_writeCount l) bufferAdjustInterval_Seconds in
  let orig := al_bufSize l in
  let l := set_bufSize l (al_writer l) 0 orig in
  let new := newBufSize orig wps in
  if new =? orig then l
  else if al_closed l then l
  else
    let '(w, ok) := bw_Resize (al_writer l) new in
    if ok : bool then set_bufSize l w 0 new
    else handleErr (set_writer l w).

(** The operations on a logger, by its users and by its own goroutine. *)
Inductive al_op :=
  | OpWrite (data : bytes)
  | OpFlush
  | OpAdjust
  | OpClose.

Definition al_step (l : accessLogger) (op : al_op) : accessLogger :=
  match op with
  | OpWrite data => al_write l data
  | OpFlush => al_Flush l
  | OpAdjust => adjustBuffer l
  | OpClose => al_Close l
  end.

Definition al_run (l : accessLogger) (ops : list al_op) : accessLogger := fold_left al_step ops l.

End Logger.

(** ** Filters: what is logged *)

Definition keeps `{Filterable T} (f : LogFilter T) (r : Request) (res : Response) : Prop :=
  if lf_Negative f
  then lf_Values f <> [] /\ Forall (fun v => Fulfill v r res = false) (lf_Values f)
  else lf_Values f = [] \/ Exists (fun v => Fulfill v r res = true) (lf_Values f).

Lemma CheckKeep_spec `{Filterable T} (f : LogFilter T) r res : CheckKeep f r res = true <-> keeps f r res.
Proof.
  unfold CheckKeep, keeps. destruct (lf_Values f) as [|v vs]; destruct (lf_Negative f); simpl negb.
  - split; [done|]. by intros [? _].
  - split; [by left|done].
  - destruct (existsb _ (v :: vs)) eqn:E; simpl negb; split; try done.
    + intros [_ G]. apply existsb_exists in E as (x & Hx & Hf). rewrite <- list_elem_of_In in Hx.
      rewrite Forall_forall in G. rewrite G in Hf by done. done.
    + intros _. split; [done|]. apply Forall_forall. intros x Hx.
      destruct (Fulfill x r res) eqn:Hf; [|done]. exfalso. apply not_true_iff_false in E. apply E.
      apply existsb_exists. exists x. by rewrite <- list_elem_of_In.
  - destruct (existsb _ (v :: vs)) eqn:E; simpl negb; split; try done.
    + intros _. right. apply existsb_exists in E as (x & Hx & Hf). apply Exists_exists.
      exists x. by rewrite list_elem_of_In.
    + intros [?|G]; [done|]. apply Exists_exists in G as (x & Hx & Hf).
      apply not_true_iff_false in E. exfalso. apply E. apply existsb_exists. exists x.
      by rewrite <- list_elem_of_In.
Qed.

Definition with_host (f : Filters) (h : LogFilter Host) : Filters :=
  {| fl_StatusCodes := fl_StatusCodes f; fl_Method := fl_Method f; fl_Host := h;
     fl_Headers := fl_Headers f; fl_CIDR := fl_CIDR f |}.

(** a request is logged when the status, method, header and CIDR filters
    all keep it; the host filter of the configuration has no influence, so a
    request from a host it excludes is logged all the same. *)
Theorem shouldLog_meaning EqualFold f r res :
  (shouldLog EqualFold f r res = true <->
     keeps (fl_StatusCodes f) r res /\ keeps (fl_Method f) r res
     /\ keeps (H := HTTPHeader_Fulfill EqualFold) (fl_Headers f) r res /\ keeps (fl_CIDR f) r res)
  /\ forall h, shouldLog EqualFold (with_host f h) r res = shouldLog EqualFold f r res.
Proof.
  split; [|done]. rewrite <- !CheckKeep_spec. unfold shouldLog.
  do 4 destruct (CheckKeep _ _ _); simpl; split; try done; by intros (? & ? & ? & ?).
Qed.

(** ** Fields: dropped and redacted values *)

(** The shortcuts of [mapIter] agree with the general iterator. *)
Lemma mapIter_general cfg m : mapIter cfg m = iter_with_config cfg m.
Proof.
  unfold mapIter. case_bool_decide as E; [|done].
  assert (Hm : forall k, field_mode cfg k = fc_Default cfg).
  { intros k. unfold field_mode. by rewrite E, lookup_empty. }
  unfold iter_with_config. destruct (fc_Default cfg) eqn:Ed; [| | |done];
    induction m as [|kv m IH]; cbn [flat_map]; rewrite ?Hm; try done.
  - unfold iter_slice in *. cbn [app]. f_equal. exact IH.
  - exact (f_equal (cons (kv.1, [RedactedValue])) IH).
Qed.

Lemma IterCookies_general cfg cookies :
  IterCookies cfg cookies
  = flat_map (fun c => match field_mode cfg (ck_Name c) with
                       | FieldModeKeep => [(ck_Name c, ck_Value c)]
                       | FieldModeRedact => [(ck_Name c, RedactedValue)]
                       | _ => []
                       end) cookies.
Proof.
  destruct cookies as [|c cs]; [done|]. unfold IterCookies.
  case_bool_decide as E1; [|done]. case_bool_decide as E2; [|done]. cbn [andb].
  assert (Hm : forall k, field_mode cfg k = FieldModeDrop).
  { intros k. unfold field_mode. by rewrite E1, lookup_empty. }
  generalize (c :: cs). intros l. induction l as [|d l IH]; [done|]. cbn [flat_map]. by rewrite Hm.
Qed.

(** what the iterators over headers, query and cookies yield is decided
    by the mode of each field alone, whichever shortcut is taken: a kept field
    with its values, a redacted one with a placeholder, any other not at all. *)
Theorem fields_policy cfg m cookies k v c :
  ((k, v) ∈ mapIter cfg m <->
     field_mode cfg k = FieldModeKeep /\ (k, v) ∈ m
     \/ field_mode cfg k = FieldModeRedact /\ v = [RedactedValue] /\ exists v', (k, v') ∈ m)
  /\ ((k, c) ∈ IterCookies cfg cookies <->
     field_mode cfg k = FieldModeKeep /\ {| ck_Name := k; ck_Value := c |} ∈ cookies
     \/ field_mode cfg k = FieldModeRedact /\ c = RedactedValue /\ exists v', {| ck_Name := k; ck_Value := v' |} ∈ cookies).
Proof.
  rewrite mapIter_general, IterCookies_general. unfold iter_with_config.
  setoid_rewrite list_elem_of_In. setoid_rewrite in_flat_map. split; split.
  - intros ([k' v'] & Hin & H). cbn [fst] in H.
    destruct (field_mode cfg k') eqn:E; [|destruct H| |destruct H]; destruct H as [H|[]];
      simplify_eq; [by left|right].
    repeat split; [done|]. by exists v'.
  - intros [[E Hin]|(E & -> & v' & Hin)]; [exists (k, v)|exists (k, v')]; (split; [done|]);
      cbn [fst]; rewrite E; by left.
  - intros ([k' v'] & Hin & H). cbn [ck_Name ck_Value] in H.
    destruct (field_mode cfg k') eqn:E; [|destruct H| |destruct H]; destruct H as [H|[]];
      simplify_eq; [by left|right].
    repeat split; [done|]. by exists v'.
  - intros [[E Hin]|(E & -> & v' & Hin)];
      [exists {| ck_Name := k; ck_Value := c |}|exists {| ck_Name := k; ck_Value := v' |}];
      (split; [done|]); cbn [ck_Name]; rewrite E; by left.
Qed.

(** ** Lines: time and newlines *)

Definition starts_json (l : bytes) : bool :=
  match l with c :: _ => Ascii.eqb c "{" | [] => false end.

(** The time of a line in brackets is what follows the first bracket. *)
Lemma ParseLogTime_bracket time_Parse pre t post :
  "["%char ∉ pre -> starts_json (pre ++ "["%char :: t ++ post) = false ->
  length t = length LogTimeFormat ->
  ParseLogTime time_Parse (pre ++ "["%char :: t ++ post) = time_Parse t.
Proof.
  intros Hp Hj Ht. set (l := pre ++ _) in *.
  assert (Hl : length l = (length pre + S (length t + length post))%nat).
  { unfold l. rewrite length_app. cbn [length]. by rewrite length_app. }
  assert (He : ExtractTime l = Some t).
  { assert (Hi : IndexByte l "[" = Some (length pre)) by (by apply IndexByte_first).
    unfold ExtractTime. rewrite Hi, (proj2 (Nat.ltb_ge _ _)) by lia.
    assert (Hd : take (length LogTimeFormat) (drop (length pre + 1) l) = t).
    { unfold l. rewrite <- drop_drop, drop_app_length. cbn [drop]. rewrite <- Ht. apply take_app_length. }
    rewrite Hd. destruct l as [|c l']; [simpl in Hl; lia|]. cbn [starts_json] in Hj.
    by destruct c as [[] [] [] [] [] [] [] []]. }
  unfold ParseLogTime. rewrite He. destruct l; [simpl in Hl; lia|done].
Qed.

Section Lines.

Context {HL : HTTPLib} (now_text : bytes) (order : Values -> list (bytes * list bytes)).
Context (r_Proto r_Referer r_UserAgent : Request -> bytes).

Abbreviation common := (CommonFormatter_AppendRequestLog now_text order r_Proto).
Abbreviation combined :=
  (CombinedFormatter_AppendRequestLog now_text order r_Proto r_Referer r_UserAgent).

(** The line up to the bracket and after it. *)
Definition line_prefix (r : Request) : bytes := r_Host r ++ [SP] ++ clientIP r ++ B " - - ".

Lemma common_shape cfg r res :
  exists post, common cfg r res = line_prefix r ++ "["%char :: now_text ++ post.
Proof.
  eexists. unfold CommonFormatter_AppendRequestLog, line_prefix.
  rewrite <- !app_assoc. by do 3 f_equal.
Qed.

Lemma starts_json_host r post :
  starts_json (r_Host r) = false -> starts_json (line_prefix r ++ post) = false.
Proof. unfold line_prefix. by destruct (r_Host r). Qed.

Lemma prefix_no_bracket r :
  "["%char ∉ r_Host r -> "["%char ∉ clientIP r -> "["%char ∉ line_prefix r.
Proof.
  intros H1 H2. unfold line_prefix. rewrite !elem_of_app.
  assert (H3 : "["%char ∉ [SP]) by decide_closed.
  assert (H4 : "["%char ∉ B " - - ") by decide_closed. tauto.
Qed.

(** the time that rotation reads from a line in the common or combined
    format is the time the logger wrote, for a host and a client address
    without brackets. *)
Theorem logged_time time_Parse cfg r res :
  "["%char ∉ r_Host r -> "["%char ∉ clientIP r -> starts_json (r_Host r) = false ->
  length now_text = length LogTimeFormat ->
  ParseLogTime time_Parse (common cfg r res) = time_Parse now_text
  /\ ParseLogTime time_Parse (combined cfg r res) = time_Parse now_text.
Proof.
  intros H1 H2 H3 H4. unfold CombinedFormatter_AppendRequestLog.
  destruct (common_shape cfg r res) as [post ->]. split.
  - apply ParseLogTime_bracket; [by apply prefix_no_bracket|by apply starts_json_host|done].
  - rewrite <- (app_assoc (line_prefix r)). cbn [app]. rewrite <- app_assoc.
    apply ParseLogTime_bracket; [by apply prefix_no_bracket|by apply starts_json_host|done].
Qed.

(** A request to an IPv6 literal is logged as a line without a time: the
    bracket of its Host is taken for the one before the time.  Rotation drops
    such lines. *)
Theorem ipv6_host_loses_time time_Parse cfg r res h :
  (forall s t, time_Parse s = Some t -> s !! 2%nat = Some "/"%char) ->
  length now_text = length LogTimeFormat ->
  r_Host r = "["%char :: h -> "/"%char ∉ h -> (3 <= length h)%nat ->
  ParseLogTime time_Parse (common cfg r res) = None.
Proof.
  intros Ht Hn Hh Hs Hl. destruct (common_shape cfg r res) as [post Hc].
  set (l := common cfg r res) in *. unfold line_prefix in Hc. rewrite Hh in Hc. cbn [app] in Hc.
  set (rest := _ ++ "["%char :: _) in Hc.
  assert (Hlen : (3 + length LogTimeFormat <= length l)%nat).
  { rewrite Hc. cbn [length]. unfold rest. rewrite !length_app. cbn [length]. rewrite !length_app. lia. }
  unfold ParseLogTime, ExtractTime. rewrite Hc at 1. rewrite Hc at 1.
  cbn [IndexByte]. rewrite Hc in Hlen.
  assert (Hd : IndexByte l "[" = Some 0%nat) by (by rewrite Hc).
  rewrite Hd. rewrite Hc. rewrite (proj2 (Nat.ltb_ge _ _)) by lia.
  cbn [option_bind mbind Nat.add drop]. rewrite drop_0.
  destruct (time_Parse _) as [t|] eqn:E; [|done]. exfalso. apply Ht in E.
  rewrite lookup_take in E. case_decide; [|done].
  unfold rest in E. rewrite lookup_app_l in E by (rewrite length_app; lia).
  rewrite lookup_app_l in E by lia. apply Hs. by eapply list_elem_of_lookup_2.
Qed.

Lemma Itoa_no_newline n : NL ∉ Itoa n.
Proof. by apply Itoa_no_sep. Qed.

Lemma uri_newline path query :
  NL ∉ path ->
  (NL ∈ appendRequestURI path query <-> exists k v, (k, v) ∈ query /\ (NL ∈ k \/ NL ∈ concat v)).
Proof.
  intros Hp.
  assert (He : forall kv, NL ∈ kv.1 ++ "="%char :: concat kv.2 <-> NL ∈ kv.1 \/ NL ∈ concat kv.2).
  { intros kv. rewrite elem_of_app, elem_of_cons. split; [intros [?|[?|?]]; [by left|done|by right]|tauto]. }
  assert (Hc : forall q, NL ∈ concat (map (fun kv => "&"%char :: kv.1 ++ "="%char :: concat kv.2) q) <->
    exists k v, (k, v) ∈ q /\ (NL ∈ k \/ NL ∈ concat v)).
  { induction q as [|[k v] q IH]; cbn [map concat].
    - split; [by intros ?%elem_of_nil|]. by intros (? & ? & ?%elem_of_nil & _).
    - rewrite elem_of_app, elem_of_cons, He, IH. cbn [fst snd]. split.
      + intros [[?|?]|(k' & v' & ? & ?)]; [done|exists k, v; split; [left|done]|].
        exists k', v'. split; [by right|done].
      + intros (k' & v' & [?|?]%elem_of_cons & ?); simplify_eq; [left; by right|right; eauto]. }
  destruct query as [|[k v] q]; unfold appendRequestURI.
  - split; [done|]. by intros (? & ? & ?%elem_of_nil & _).
  - rewrite elem_of_app, elem_of_cons, elem_of_app, He, Hc. cbn [fst snd]. split.
    + intros [?|[?|[?|(k' & v' & ? & ?)]]]; [done|done|exists k, v; split; [left|done]|].
      exists k', v'. split; [by right|done].
    + intros (k' & v' & [?|?]%elem_of_cons & ?); simplify_eq; [tauto|right; right; right; eauto].
Qed.

(** the query is logged decoded.  When the other parts of a request hold
    no newline, its line holds one exactly when a kept key or value of the
    query does: a client that sends an encoded newline ends the line and
    writes the next one. *)
Theorem newline_only_from_query cfg r res :
  NL ∉ r_Host r -> NL ∉ clientIP r -> NL ∉ now_text -> NL ∉ r_Method r ->
  NL ∉ url_EscapedPath (r_URL r) -> NL ∉ r_Proto r ->
  (NL ∈ common cfg r res <->
   exists k v, (k, v) ∈ mapIter (fd_Query cfg) (order (url_Query (u_RawQuery (r_URL r))))
               /\ (NL ∈ k \/ NL ∈ concat v)).
Proof.
  clear r_Referer r_UserAgent. intros H1 H2 H3 H4 H5 H6. rewrite <- (uri_newline (url_EscapedPath (r_URL r))) by done.
  unfold CommonFormatter_AppendRequestLog. rewrite !elem_of_app.
  assert (G1 : NL ∉ [SP]) by decide_closed.
  assert (G2 : NL ∉ B " - - [") by decide_closed.
  assert (G3 : NL ∉ B "] ") by decide_closed.
  assert (G4 : NL ∉ [quote]) by decide_closed.
  assert (G5 : NL ∉ [quote; SP]) by decide_closed.
  pose proof (Itoa_no_newline (rs_StatusCode res)). pose proof (Itoa_no_newline (rs_ContentLength res)).
  tauto.
Qed.

End Lines.

(** ** The logger's state *)

Lemma newBufSize_bounds orig wps :
  InitialBufferSize <= orig <= MaxBufferSize ->
  InitialBufferSize <= newBufSize orig wps <= MaxBufferSize.
Proof.
  unfold newBufSize, InitialBufferSize, MaxBufferSize, megabyte, kilobyte.
  cbv zeta. intros H. generalize (Z.quot (wps - orig) 2) (Z.quot wps 2). intros a b.
  destruct (Z.ltb_spec orig wps); [lia|]. destruct (Z.ltb_spec wps orig); lia.
Qed.

Section LoggerState.

Context {W : Type} {BW : BufferedWriter W} {L : Type} (Allow : L -> bool * L).

Definition buf_ok (l : accessLogger (W := W) (L := L)) : Prop :=
  InitialBufferSize <= al_bufSize l <= MaxBufferSize.

Lemma handleErr_same (l : accessLogger (W := W) (L := L)) :
  al_bufSize (handleErr Allow l) = al_bufSize l /\ al_closed (handleErr Allow l) = al_closed l
  /\ al_writer (handleErr Allow l) = al_writer l.
Proof. unfold handleErr. by destruct (Allow _). Qed.

Lemma al_step_ok (l : accessLogger (W := W) (L := L)) op :
  (buf_ok l -> buf_ok (al_step Allow l op))
  /\ (al_closed l = true -> al_closed (al_step Allow l op) = true
                            /\ al_writer (al_step Allow l op) = al_writer l).
Proof.
  unfold buf_ok. destruct op; cbn [al_step].
  - unfold al_write. destruct (al_closed l) eqn:E; [by rewrite E|]. split; [|done].
    destruct (bw_Write _ _) as [[w n] ok]. cbn [add_writeCount al_bufSize].
    destruct (handleErr_same (set_writer l w)) as (Hb & _).
    destruct (negb ok); [by rewrite Hb|]. destruct (n <? _); [by rewrite Hb|done].
  - unfold al_Flush. destruct (al_closed l) eqn:E; [by rewrite E|]. done.
  - unfold adjustBuffer. destruct (_ =? _); [done|]. cbn [set_bufSize al_closed].
    destruct (al_closed l) eqn:E; [done|]. split; [|done]. intros H.
    destruct (bw_Resize _ _) as [w []]; cbn [set_bufSize al_bufSize]; [by apply newBufSize_bounds|].
    by rewrite (proj1 (handleErr_same _)).
  - unfold al_Close. destruct (al_closed l) eqn:E; [by rewrite E|]. done.
Qed.

(** through any sequence of writes, flushes, buffer adjustments and closes
    the buffer size stays within its bounds, and once closed a logger stays
    closed and touches its writer no more. *)
Theorem logger_invariant (l : accessLogger (W := W) (L := L)) ops :
  (buf_ok l -> buf_ok (al_run Allow l ops))
  /\ (al_closed l = true -> al_closed (al_run Allow l ops) = true
                            /\ al_writer (al_run Allow l ops) = al_writer l).
Proof.
  revert l. induction ops as [|op ops IH]; intros l; [done|]. unfold al_run in *. cbn [fold_left].
  destruct (al_step_ok l op) as [H1 H2]. destruct (IH (al_step Allow l op)) as [G1 G2].
  split; [auto|]. intros Hc. destruct (H2 Hc) as [Hc' <-]. auto.
Qed.

End LoggerState.

(** the buffer size does not settle.  Under a constant load of [wps]
    bytes per second a size a little above it is lowered by half the load, and
    raised back to the same size by the next adjustment. *)
Theorem buffer_size_oscillates orig wps :
  wps < orig < wps + wps / 2 -> InitialBufferSize <= orig - wps / 2 -> orig <= MaxBufferSize ->
  newBufSize orig wps = orig - wps / 2 /\ newBufSize (orig - wps / 2) wps = orig.
Proof.
  unfold newBufSize, InitialBufferSize, MaxBufferSize, megabyte, kilobyte. cbv zeta. intros H1 H2 H3.
  assert (Hw : 0 <= wps) by dlia. rewrite (Z.quot_div_nonneg wps 2) by lia.
  rewrite (proj2 (Z.ltb_ge orig wps)), (proj2 (Z.ltb_lt wps orig)) by lia.
  rewrite (proj2 (Z.ltb_lt (orig - wps / 2) wps)) by lia.
  split.
  - assert (Z.abs (Z.quot (wps - orig) 2) <= wps / 2) by dlia. lia.
  - assert (Z.abs (Z.quot (wps - (orig - wps / 2)) 2) <= wps / 2)
      by dlia. lia.
Qed.

(** ** Concrete runs *)

Definition example_log_request (host query : bytes) : Request :=
  {| r_Method := B "GET";
     r_URL := {| u_Scheme := []; u_Host := []; u_Path := B "/x"; u_RawPath := []; u_RawQuery := query;
                 u_Fragment := [] |};
     r_Host := host; r_Header := ∅; r_RemoteAddr := B "10.0.0.7:1234"; r_RequestURI := B "/x";
     r_ContentLength := 0; r_TLS := true; r_Body := None;
     r_forms := {| f_Form := None; f_PostForm := None; f_Multipart := false |}; r_route := None |}.

Definition example_response : Response :=
  {| rs_StatusCode := 200; rs_Status := []; rs_ContentLength := 12 |}.

Definition example_fields : Fields :=
  let f m := {| fc_Default := m; fc_Config := ∅ |} in
  {| fd_Headers := f FieldModeDrop; fd_Query := f FieldModeKeep; fd_Cookies := f FieldModeDrop |}.

Definition example_now : bytes := B "07/Jan/2026:15:04:05 -0700".

Definition http11 (_ : Request) : bytes := B "HTTP/1.1".

(** The day of a text whose third byte is a slash. *)
Definition day_slash (s : bytes) : option Z :=
  if bool_decide (s !! 2%nat = Some "/"%char) then day_of s else None.

Lemma logged_time_witness :
  ParseLogTime day_slash
    (CommonFormatter_AppendRequestLog example_now map_to_list http11 example_fields
       (example_log_request "app.example.com" []) example_response) = Some 7
  /\ ParseLogTime day_slash
    (CombinedFormatter_AppendRequestLog example_now map_to_list http11 http11 http11 example_fields
       (example_log_request "app.example.com" []) example_response) = Some 7.
Proof.
  apply (logged_time example_now map_to_list http11 http11 http11 day_slash example_fields
    (example_log_request "app.example.com" []) example_response).
  - decide_closed.
  - decide_closed.
  - done.
  - done.
Defined.

Lemma ipv6_host_loses_time_witness :
  ParseLogTime day_slash
    (CommonFormatter_AppendRequestLog example_now map_to_list http11 example_fields
       (example_log_request "[::1]:8080" []) example_response) = None.
Proof.
  apply (ipv6_host_loses_time example_now map_to_list http11 day_slash example_fields
    (example_log_request "[::1]:8080" []) example_response (B "::1]:8080")).
  - intros s t. unfold day_slash. case_bool_decide; [done|done].
  - done.
  - done.
  - decide_closed.
  - simpl. lia.
Defined.

Lemma newline_only_from_query_witness :
  NL ∈ CommonFormatter_AppendRequestLog example_now map_to_list http11 example_fields
         (example_log_request "app" (B "a=x" ++ [NL] ++ B "forged")) example_response.
Proof.
  apply (newline_only_from_query example_now map_to_list http11 example_fields
    (example_log_request "app" (B "a=x" ++ [NL] ++ B "forged")) example_response).
  - decide_closed.
  - decide_closed.
  - decide_closed.
  - decide_closed.
  - decide_closed.
  - decide_closed.
  - exists (B "a"), [B "x" ++ [NL] ++ B "forged"]. split; [decide_closed|right].
    decide_closed.
Defined.

Lemma buffer_size_oscillates_witness :
  newBufSize 10000 9000 = 5500 /\ newBufSize 5500 9000 = 10000.
Proof.
  apply (buffer_size_oscillates 10000 9000).
  - split; vm_compute; reflexivity.
  - vm_compute. discriminate.
  - vm_compute. discriminate.
Defined.
