(* ===== verification/ACL.v ===== *)
(** * Access control by client address

    Models internal/acl: config.go ([Validate], [Start], [IPAllowed] with its
    cache, the log and notification loop), matcher.go, tcp_listener.go and
    udp_listener.go, and the city lookup of internal/maxmind.  The MaxMind
    database and [net.IP.String] are parameters. *)

From S2P Require Import Prelude GoStrings NetAddr.

(** ** Matchers (matcher.go, internal/maxmind/city_cache.go) *)

Record City := { ct_TimeZone : bytes; ct_IsoCode : bytes }.

Record IPInfo := { ii_IP : IP; ii_Str : bytes; ii_City : option City }.

(** The functions a [Matcher] can hold. *)
Inductive Matcher :=
  | matchIP (ip : IP)
  | matchCIDR (n : IPNet)
  | matchTimeZone (tz : bytes)
  | matchISOCode (iso : bytes).

Inductive acl_error :=
  | errSyntax | errInvalidIP | errInvalidCIDR
  | errInvalidDefault | errNoAllowRules | errLogger.

Definition Matcher_Parse (s : bytes) : result acl_error Matcher :=
  match Split s ":" with
  | [ty; v] =>
      if bool_decide (ty = B "ip") then
        match ParseIP v with
        | None => Err errInvalidIP
        | Some ip => Ok (matchIP ip)
        end
      else if bool_decide (ty = B "cidr") then
        match ParseCIDR v with
        | None => Err errInvalidCIDR
        | Some (_, n) => Ok (matchCIDR n)
        end
      else if bool_decide (ty = B "tz") then Ok (matchTimeZone v)
      else if bool_decide (ty = B "country") then Ok (matchISOCode v)
      else Err errSyntax
  | _ => Err errSyntax
  end.

(** A rule whose value holds a colon is refused, so an [ip] or [cidr] rule
    cannot name an IPv6 address. *)
Lemma Matcher_Parse_colon ty v :
  ":"%char ∉ ty -> ":"%char ∈ v -> Matcher_Parse (ty ++ ":"%char :: v) = Err errSyntax.
Proof.
  intros Ht Hv. unfold Matcher_Parse. rewrite Split_app by done.
  destruct (Split v ":") as [|p [|q ps]] eqn:E; [by apply Split_nonempty in E| |done].
  exfalso. pose proof (Join_Split v ":") as Hj. rewrite E in Hj. cbn [Join] in Hj. subst p.
  pose proof (Split_parts v ":") as Hp. rewrite E in Hp. by inversion Hp.
Qed.

Section ACL.

(** The MaxMind instance at a time: absent, without a database, or with one.
    The database is replaced by updates while the program runs, so what the
    instance holds depends on the time; one check sees one database. *)
Context (instance : Z -> option (option (IP -> option City))).

(** [net.IP.String], [common.ForceResolveCountry]. *)
Context (ip_String : IP -> bytes) (ForceResolveCountry : bool).

Abbreviation city_cache := (gmap bytes City).

Definition set_City (i : IPInfo) (c : City) : IPInfo :=
  {| ii_IP := ii_IP i; ii_Str := ii_Str i; ii_City := Some c |}.

(** [maxmind.LookupCity] at the time [now]; the info it is given may be
    completed.  The cache of cities is not touched by a database update, so a
    city it holds may be one of an earlier database. *)
Definition LookupCity (now : Z) (cc : city_cache) (i : IPInfo) : option City * city_cache * IPInfo :=
  match instance now with
  | None => (None, cc, i)
  | Some db =>
      match ii_City i, db with
      | Some c, _ => (Some c, cc, i)
      | None, None => (None, cc, i)
      | None, Some lookup =>
          match cc !! ii_Str i with
          | Some c => (Some c, cc, set_City i c)
          | None =>
              match lookup (ii_IP i) with
              | None => (None, cc, i)
              | Some c => (Some c, <[ii_Str i := c]> cc, set_City i c)
              end
          end
      end
  end.

Definition match_one (now : Z) (m : Matcher) (cc : city_cache) (i : IPInfo) : bool * city_cache * IPInfo :=
  match m with
  | matchIP ip => (Equal ip (ii_IP i), cc, i)
  | matchCIDR n => (Contains n (ii_IP i), cc, i)
  | matchTimeZone tz =>
      let '(c, cc, i) := LookupCity now cc i in
      (match c with Some c => bool_decide (ct_TimeZone c = tz) | None => false end, cc, i)
  | matchISOCode iso =>
      let '(c, cc, i) := LookupCity now cc i in
      (match c with Some c => bool_decide (ct_IsoCode c = iso) | None => false end, cc, i)
  end.

(** [Matchers.Match]. *)
Fixpoint Match (now : Z) (ms : list Matcher) (cc : city_cache) (i : IPInfo) : bool * city_cache * IPInfo :=
  match ms with
  | [] => (false, cc, i)
  | m :: ms' =>
      let '(ok, cc, i) := match_one now m cc i in
      if ok : bool then (true, cc, i) else Match now ms' cc i
  end.

(** ** Configuration (config.go) *)

Record Config := {
  a_Default : bytes;
  a_AllowLocal : option bool;
  a_Allow : list Matcher;
  a_Deny : list Matcher;
  a_Log : option bool;                 (* LogAllowed *)
  a_NotifyTo : list bytes;
  a_NotifyInterval : Z;
  a_IncludeAllowed : option bool
}.

(** The settings [Validate] computes. *)
Record settings := {
  defaultAllow : bool;
  allowLocal : bool;
  logAllowed : bool;
  notifyAllowed : bool;
  notifyInterval : Z
}.

Definition second : Z := 1000000000.
Definition defaultNotifyInterval : Z := 60 * second.

Definition Validate (c : Config) : result acl_error settings :=
  let local := match a_AllowLocal c with Some b => b | None => true end in
  let finish (allow : bool) :=
    if negb local && negb allow && bool_decide (length (a_Allow c) = 0%nat) then Err errNoAllowRules
    else Ok {| defaultAllow := allow; allowLocal := local;
               logAllowed := default false (a_Log c);
               notifyAllowed := default false (a_IncludeAllowed c);
               notifyInterval := if a_NotifyInterval c <? 0 then defaultNotifyInterval
                                 else a_NotifyInterval c |} in
  if bool_decide (a_Default c = [] \/ a_Default c = B "allow") then finish true
  else if bool_decide (a_Default c = B "deny") then finish false
  else Err errInvalidDefault.

Definition needNotify (c : Config) : bool := (0 <? length (a_NotifyTo c))%nat.

Definition needLogOrNotify (c : Config) : bool := bool_decide (is_Some (a_Log c)) || needNotify c.

Definition MaxDuration : Z := MaxInt64.

(** [Start]: the interval of the ticker.  The access logger is opened first,
    [logger_ok] says whether that succeeds; then the error of [Validate] is
    returned.  [time.NewTicker] panics for an interval that is not positive. *)
Definition Start (logger_ok : bool) (c : Config) : result acl_error Z :=
  if bool_decide (is_Some (a_Log c)) && negb logger_ok then Err errLogger
  else
    s ← Validate c;
    let interval := if needNotify c then notifyInterval s else MaxDuration in
    if interval <=? 0 then Panic ExplicitPanic else Ok interval.

(** ** Checking an address *)

Record checkCache := { cc_info : IPInfo; cc_allow : bool; cc_created : Z }.

Definition cacheTTL : Z := 60 * second.

Definition Expired (now : Z) (c : checkCache) : bool := cc_created c + cacheTTL <? now.

(** What is sent to the log and notification loop. *)
Record ipLog := { il_Str : bytes; il_allowed : bool }.

#[export] Instance ipLog_eq_dec : EqDecision ipLog.
Proof. solve_decision. Defined.

Record acl_state := {
  as_ipCache : gmap bytes checkCache;
  as_cities : city_cache;
  as_ch : list ipLog                   (* sent on logNotifyCh *)
}.

Section Check.

Context (c : Config) (s : settings).

Definition logAndNotify (i : IPInfo) (allowed : bool) (st : acl_state) : acl_state :=
  if needLogOrNotify c
  then {| as_ipCache := as_ipCache st; as_cities := as_cities st;
          as_ch := as_ch st ++ [{| il_Str := ii_Str i; il_allowed := allowed |}] |}
  else st.

Definition cacheRecord (now : Z) (i : IPInfo) (allow : bool) (st : acl_state) : acl_state :=
  let '(cities, i) :=
    if ForceResolveCountry && bool_decide (ii_City i = None)
    then let '(_, cities, i) := LookupCity now (as_cities st) i in (cities, i)
    else (as_cities st, i) in
  {| as_ipCache := <[ii_Str i := {| cc_info := i; cc_allow := allow; cc_created := now |}]> (as_ipCache st);
     as_cities := cities; as_ch := as_ch st |}.

Definition set_cities (cities : city_cache) (st : acl_state) : acl_state :=
  {| as_ipCache := as_ipCache st; as_cities := cities; as_ch := as_ch st |}.

(** The end of [IPAllowed]: notify, store, return. *)
Definition decide_ip (now : Z) (i : IPInfo) (allow : bool) (st : acl_state) : bool * acl_state :=
  (allow, cacheRecord now i allow (logAndNotify i allow st)).

(** [IPAllowed] at the time [now]. *)
Definition IPAllowed (now : Z) (ip : option IP) (st : acl_state) : bool * acl_state :=
  match ip with
  | None => (false, st)
  | Some ip =>
      if IsLoopback ip then (true, st)
      else
        let ipStr := ip_String ip in
        let i := {| ii_IP := ip; ii_Str := ipStr; ii_City := None |} in
        if allowLocal s && IsPrivate ip then (true, logAndNotify i true st)
        else
          let check :=
            let '(ok, cities, i) := Match now (a_Allow c) (as_cities st) i in
            if ok : bool then decide_ip now i true (set_cities cities st)
            else
              let '(ok, cities, i) := Match now (a_Deny c) cities i in
              if ok : bool then decide_ip now i false (set_cities cities st)
              else decide_ip now i (defaultAllow s) (set_cities cities st) in
          match as_ipCache st !! ipStr with
          | Some record =>
              if negb (Expired now record)
              then (cc_allow record, logAndNotify (cc_info record) (cc_allow record) st)
              else check
          | None => check
          end
  end.

(** ** Listeners (tcp_listener.go, udp_listener.go) *)

(** [TCPListener.Accept] of a connection from [addr] ([None]: not a TCP
    address): whether the connection is handed out, or closed. *)
Definition Accept (now : Z) (addr : option (option IP)) (st : acl_state) : bool * acl_state :=
  match addr with
  | None => (false, st)
  | Some ip => IPAllowed now ip st
  end.

(** [UDPListener.ReadFrom] over the packets that arrive, each with its time:
    the first packet it returns and the packets left, [None] while it waits
    for another. *)
Fixpoint ReadFrom {A} (packets : list (Z * option (option IP) * A)) (st : acl_state)
    : option (option IP * A * list (Z * option (option IP) * A)) * acl_state :=
  match packets with
  | [] => (None, st)
  | (_, None, _) :: packets' => ReadFrom packets' st
  | (now, Some ip, p) :: packets' =>
      match IPAllowed now ip st with
      | (true, st) => (Some (ip, p, packets'), st)
      | (false, st) => ReadFrom packets' st
      end
  end.

(** [UDPListener.WriteTo]: [write n] says whether the write after [n] packets
    sent succeeds, [now n] is the time then.  The result is [None] when the
    fuel runs out; the number counts the packets sent. *)
Fixpoint WriteTo (fuel : nat) (now : nat -> Z) (write : nat -> bool) (addr : option (option IP))
    (sent : nat) (st : acl_state) : option bool * nat * acl_state :=
  match fuel with
  | O => (None, sent, st)
  | S fuel' =>
      if negb (write sent) then (Some false, sent, st)
      else match addr with
           | None => WriteTo fuel' now write addr (S sent) st
           | Some ip =>
               match IPAllowed (now sent) ip st with
               | (true, st) => (Some true, S sent, st)
               | (false, st) => WriteTo fuel' now write addr (S sent) st
               end
           end
  end.

(** ** The log and notification loop *)

Record counters := {
  allowedCount : gmap bytes Z;
  blockedCount : gmap bytes Z;
  totalAllowedCount : Z;
  totalBlockedCount : Z
}.

Definition zero_counters : counters :=
  {| allowedCount := ∅; blockedCount := ∅; totalAllowedCount := 0; totalBlockedCount := 0 |}.

(** [m[k]++] on a map of uint32. *)
Definition inc32 (m : gmap bytes Z) (k : bytes) : gmap bytes Z :=
  <[k := (default 0 (m !! k) + 1) mod 2 ^ 32]> m.

(** What a round of the [select] receives. *)
Inductive loop_event := EvLog (l : ipLog) | EvTick.

(** What leaves the loop: a line for the access log or a summary. *)
Inductive loop_out := OutACL (str : bytes) (blocked : bool) | OutSummary (c : counters).

Definition count_log (l : ipLog) (k : counters) : counters :=
  if needNotify c then
    if il_allowed l then
      if notifyAllowed s then
        {| allowedCount := inc32 (allowedCount k) (il_Str l); blockedCount := blockedCount k;
           totalAllowedCount := (totalAllowedCount k + 1) mod 2 ^ 64;
           totalBlockedCount := totalBlockedCount k |}
      else k
    else
      {| allowedCount := allowedCount k; blockedCount := inc32 (blockedCount k) (il_Str l);
         totalAllowedCount := totalAllowedCount k;
         totalBlockedCount := (totalBlockedCount k + 1) mod 2 ^ 64 |}
  else k.

Definition loop_step (k : counters) (e : loop_event) : counters * list loop_out :=
  match e with
  | EvLog l =>
      (count_log l k,
       if bool_decide (is_Some (a_Log c)) && (negb (il_allowed l) || logAllowed s)
       then [OutACL (il_Str l) (negb (il_allowed l))] else [])
  | EvTick =>
      if (size (allowedCount k) + size (blockedCount k) =? 0)%nat then (k, [])
      else ({| allowedCount := ∅; blockedCount := ∅; totalAllowedCount := totalAllowedCount k;
               totalBlockedCount := totalBlockedCount k |}, [OutSummary k])
  end.

Fixpoint loop_run (k : counters) (es : list loop_event) : counters * list loop_out :=
  match es with
  | [] => (k, [])
  | e :: es' =>
      let '(k, o) := loop_step k e in
      let '(k, o') := loop_run k es' in
      (k, o ++ o')
  end.

End Check.

(** ** The policy *)

(** What the database says of an address at a time, whatever is cached. *)
Definition city_of (t : Z) (ip : IP) : option City :=
  match instance t with
  | Some (Some lookup) => lookup ip
  | _ => None
  end.

Definition matches (t : Z) (ip : IP) (m : Matcher) : bool :=
  match m with
  | matchIP x => Equal x ip
  | matchCIDR n => Contains n ip
  | matchTimeZone tz =>
      match city_of t ip with Some c => bool_decide (ct_TimeZone c = tz) | None => false end
  | matchISOCode iso =>
      match city_of t ip with Some c => bool_decide (ct_IsoCode c = iso) | None => false end
  end.

(** Allow rules win over deny rules, which win over the default; city rules
    are decided by the database of the time [t]. *)
Definition policy (t : Z) (c : Config) (s : settings) (ip : IP) : bool :=
  existsb (matches t ip) (a_Allow c)
  || negb (existsb (matches t ip) (a_Deny c)) && defaultAllow s.

Definition allowed (t : Z) (c : Config) (s : settings) (ip : IP) : bool :=
  IsLoopback ip || (allowLocal s && IsPrivate ip) || policy t c s ip.

Definition valid_ip (ip : IP) : Prop := length ip = 4%nat \/ length ip = 16%nat.

(** The short form of an address: equal for an IPv4 address and its IPv6 form. *)
Definition short (ip : IP) : IP := default ip (To4 ip).

(** Any sequence of checks, each with its time. *)
Fixpoint check_all (c : Config) (s : settings) (qs : list (Z * option IP)) (st : acl_state) : list bool :=
  match qs with
  | [] => []
  | (now, ip) :: qs' => let '(b, st) := IPAllowed c s now ip st in b :: check_all c s qs' st
  end.

Definition new_state : acl_state := {| as_ipCache := ∅; as_cities := ∅; as_ch := [] |}.

(** ** Addresses up to their short form *)

Lemma short_v4 ip : length ip = 4%nat -> short ip = ip.
Proof. intros H. unfold short, To4. by rewrite H. Qed.

Lemma short_v6 ip :
  length ip = 16%nat ->
  short ip = if bool_decide (take 12 ip = v4InV6Prefix) then drop 12 ip else ip.
Proof. intros H. unfold short, To4. rewrite H. simpl. by destruct (bool_decide _). Qed.

Lemma Equal_valid x a :
  valid_ip a -> Equal x a = bool_decide (valid_ip x /\ short x = short a).
Proof.
  intros Ha. assert (Hn : forall P Q, (P <-> Q) -> forall `{Decision P, Decision Q}, bool_decide P = bool_decide Q)
    by (intros; by apply bool_decide_ext).
  unfold Equal. destruct Ha as [Ha|Ha]; rewrite Ha.
  - destruct (Nat.eqb_spec (length x) 4) as [Hx|Hx].
    { apply Hn. rewrite !short_v4 by done. unfold valid_ip. intuition. }
    cbn [andb]. change ((4 =? 4)%nat) with true. rewrite andb_true_r.
    destruct (Nat.eqb_spec (length x) 16) as [Hx'|Hx'].
    + rewrite short_v6, (short_v4 a) by done. unfold valid_ip.
      destruct (bool_decide (take 12 x = v4InV6Prefix)) eqn:E; cbn [andb]; reflect.
      * apply Hn. intuition.
      * symmetry. apply bool_decide_eq_false_2. intros [_ ->]. lia.
    + symmetry. apply bool_decide_eq_false_2. unfold valid_ip. lia.
  - destruct (Nat.eqb_spec (length x) 16) as [Hx|Hx].
    + apply Hn. rewrite !short_v6 by done. unfold valid_ip. split; [intros ->; intuition|].
      intros [_ H]. do 2 case_bool_decide; try done.
      * rewrite <- (take_drop 12 x), <- (take_drop 12 a). congruence.
      * apply (f_equal length) in H. rewrite length_drop in H. lia.
      * apply (f_equal length) in H. rewrite length_drop in H. lia.
    + destruct (Nat.eqb_spec (length x) 4) as [Hx'|Hx']; cbn [andb].
      * rewrite (short_v4 x), short_v6 by done. unfold valid_ip.
        destruct (bool_decide (take 12 a = v4InV6Prefix)) eqn:E; cbn [andb]; reflect.
        -- apply Hn. intuition.
        -- change (16 =? 16)%nat with true. cbn. symmetry. apply bool_decide_eq_false_2.
           intros [_ ->]. lia.
      * symmetry. apply bool_decide_eq_false_2. unfold valid_ip. lia.
Qed.

Lemma matches_short t a b m :
  valid_ip a -> valid_ip b -> short a = short b -> city_of t a = city_of t b ->
  matches t a m = matches t b m.
Proof.
  intros Ha Hb H Hc. destruct m; cbn [matches]; rewrite ?Hc; try done.
  - by rewrite !Equal_valid, H.
  - unfold Contains. change (default a (To4 a)) with (short a).
    change (default b (To4 b)) with (short b). by rewrite H.
Qed.

Section Policy.

(** Two addresses with the same text are the same address, and a database
    knows an address, not its encoding. *)
Context (Hstr : forall a b, valid_ip a -> valid_ip b -> ip_String a = ip_String b -> short a = short b).
Context (Hdb : forall t a b, valid_ip a -> valid_ip b -> short a = short b -> city_of t a = city_of t b).
Context (c : Config) (s : settings).

(** The checks made so far, oldest first. *)
Abbreviation history := (list (Z * option IP)).

(** The check number [n] was of this address, at the time [t]. *)
Definition checked (h : history) (n : nat) (t : Z) (ip : IP) : Prop :=
  exists x, h !! n = Some (t, Some x) /\ valid_ip x /\ short x = short ip.

(** The time of the database that decides the check number [n]: its own, or
    the one of an earlier check of the address, which found a city. *)
Definition db_time (h : history) (n : nat) (ip : IP) (t : Z) : Prop :=
  exists k, (k <= n)%nat /\ checked h k t ip /\ (k = n \/ city_of t ip <> None).

Definition cities_ok (h : history) (cities : city_cache) : Prop :=
  forall ip, valid_ip ip -> forall ct, cities !! ip_String ip = Some ct ->
  exists k t, checked h k t ip /\ city_of t ip = Some ct.

(** A record of the cache of answers: what a check at its time of creation
    answered. *)
Definition cache_ok (h : history) (cache : gmap bytes checkCache) : Prop :=
  forall ip r, valid_ip ip -> cache !! ip_String ip = Some r ->
  exists j t, checked h j (cc_created r) ip /\ db_time h j ip t /\ cc_allow r = policy t c s ip.

Definition state_ok (h : history) (st : acl_state) : Prop :=
  cities_ok h (as_cities st) /\ cache_ok h (as_ipCache st).

Definition same_ip (i i' : IPInfo) : Prop := ii_IP i' = ii_IP i /\ ii_Str i' = ii_Str i.

Lemma same_text t a b : valid_ip a -> valid_ip b -> ip_String a = ip_String b -> city_of t a = city_of t b.
Proof. eauto. Qed.

Lemma policy_same_text t a b :
  valid_ip a -> valid_ip b -> ip_String a = ip_String b -> policy t c s a = policy t c s b.
Proof.
  intros Ha Hb H.
  assert (Hm : forall m, matches t a m = matches t b m)
    by (intros m; apply matches_short; [done|done|by apply Hstr|by apply same_text]).
  assert (He : forall ms, existsb (matches t a) ms = existsb (matches t b) ms).
  { induction ms as [|m ms IH]; [done|]. simpl. by rewrite Hm, IH. }
  unfold policy. by rewrite !He.
Qed.

(** The history only grows. *)
Lemma checked_app h q n t ip : checked h n t ip -> checked (h ++ q) n t ip.
Proof. intros (x & H & ?). exists x. split; [by apply lookup_app_l_Some|done]. Qed.

Lemma db_time_app h q n ip t : db_time h n ip t -> db_time (h ++ q) n ip t.
Proof. intros (k & ? & ? & ?). exists k. auto using checked_app. Qed.

Lemma state_ok_app h q st : state_ok h st -> state_ok (h ++ q) st.
Proof.
  intros [H1 H2]. split.
  - intros ip Hv ct H. destruct (H1 ip Hv ct H) as (k & t & ? & ?). eauto using checked_app.
  - intros ip r Hv H. destruct (H2 ip r Hv H) as (j & t & ? & ? & ?).
    exists j, t. auto using checked_app, db_time_app.
Qed.

Lemma checked_same_text h n t a b :
  valid_ip a -> valid_ip b -> ip_String a = ip_String b -> checked h n t a -> checked h n t b.
Proof.
  intros Ha Hb E (x & Hx & Hv & Hs). exists x. split; [done|]. split; [done|].
  rewrite Hs. by apply Hstr.
Qed.

Lemma db_time_same_text h n t a b :
  valid_ip a -> valid_ip b -> ip_String a = ip_String b -> db_time h n a t -> db_time h n b t.
Proof.
  intros Ha Hb E (k & Hk & Hc & Hn). exists k. split; [done|]. split; [exact (checked_same_text _ _ _ a b Ha Hb E Hc)|].
  by rewrite <- (same_text t a b).
Qed.

(** ** One check

    The check of the address [ip0] at the time [now], after the checks [h0]. *)
Section One.

Context (h0 : history) (now : Z) (ip0 : IP) (Hv0 : valid_ip ip0).

Abbreviation h := (h0 ++ [(now, Some ip0)]).
Abbreviation n := (length h0).

Lemma checked_now : checked h n now ip0.
Proof. exists ip0. split; [|done]. by rewrite lookup_app_r, Nat.sub_diag by lia. Qed.

Lemma checked_le k t : checked h k t ip0 -> (k <= n)%nat.
Proof. intros (x & H & _). apply lookup_lt_Some in H. rewrite length_app in H. simpl in H. lia. Qed.

(** The check sees the database of the time [d]: that is what a lookup
    answers, now and for the rest of the check. *)
Definition view (d : Z) (cities : city_cache) (i : IPInfo) : Prop :=
  ii_IP i = ip0 /\ ii_Str i = ip_String ip0
  /\ (forall ct, ii_City i = Some ct -> city_of d ip0 = Some ct)
  /\ (LookupCity now cities i).1.1 = city_of d ip0.

Lemma view_exists cities :
  cities_ok h cities ->
  exists d, db_time h n ip0 d /\ view d cities {| ii_IP := ip0; ii_Str := ip_String ip0; ii_City := None |}.
Proof.
  intros Hc. assert (Hnow : db_time h n ip0 now).
  { exists n. split; [lia|]. split; [apply checked_now|by left]. }
  unfold view, LookupCity. cbn [ii_IP ii_Str ii_City].
  destruct (instance now) as [[lookup|]|] eqn:Ei.
  2,3: exists now; split; [done|]; unfold city_of; by rewrite Ei.
  destruct (cities !! ip_String ip0) as [ct|] eqn:El.
  - destruct (Hc ip0 Hv0 ct El) as (k & t & Hk & Ht). exists t. split; [|by rewrite Ht].
    exists k. split; [by eapply checked_le|]. split; [done|]. right. by rewrite Ht.
  - exists now. split; [done|]. unfold city_of. rewrite Ei. by destruct (lookup ip0).
Qed.

Lemma cities_ok_insert cities ct :
  cities_ok h cities -> city_of now ip0 = Some ct -> cities_ok h (<[ip_String ip0 := ct]> cities).
Proof.
  intros Hc Hct ip Hip ct'. destruct (decide (ip_String ip0 = ip_String ip)) as [E|E].
  - rewrite E, lookup_insert_eq. intros [= <-]. exists n, now.
    split; [exact (checked_same_text _ _ _ ip0 ip Hv0 Hip E checked_now)|]. rewrite <- Hct. symmetry. by apply same_text.
  - rewrite lookup_insert_ne by done. by apply Hc.
Qed.

(** A lookup answers by the database of the check and keeps the caches right. *)
Lemma LookupCity_ok d cities i :
  cities_ok h cities -> view d cities i ->
  let '(r, cities', i') := LookupCity now cities i in
  r = city_of d ip0 /\ cities_ok h cities' /\ view d cities' i'.
Proof.
  intros Hc (H1 & H2 & H3 & H4). unfold LookupCity in H4. unfold view, LookupCity in *.
  destruct (instance now) as [db|] eqn:Ei; [|done].
  destruct (ii_City i) as [ct|] eqn:Ec; [rewrite Ec; repeat split; auto|].
  destruct db as [lookup|]; [|by rewrite Ec].
  destruct (cities !! ii_Str i) as [ct|] eqn:El; cbn [fst] in H4.
  { cbn. repeat split; try done. by intros ? [= <-]. }
  rewrite H1 in *. destruct (lookup ip0) as [ct|] eqn:Ek; cbn [fst] in H4.
  - cbn. rewrite H2. repeat split; try done; [|by intros ? [= <-]].
    apply cities_ok_insert; [done|]. unfold city_of. by rewrite Ei.
  - rewrite Ec, El, H1, Ek. done.
Qed.

Lemma match_one_ok d m cities i :
  cities_ok h cities -> view d cities i ->
  let '(r, cities', i') := match_one now m cities i in
  r = matches d ip0 m /\ cities_ok h cities' /\ view d cities' i'.
Proof.
  intros Hc Hi. pose proof Hi as (E & _). destruct m; cbn [match_one matches];
    [by rewrite E|by rewrite E| |];
    pose proof (LookupCity_ok d cities i Hc Hi) as H;
    destruct (LookupCity now cities i) as [[r cities'] i'];
    by destruct H as (-> & H).
Qed.

Lemma Match_ok d ms : forall cities i,
  cities_ok h cities -> view d cities i ->
  let '(r, cities', i') := Match now ms cities i in
  r = existsb (matches d ip0) ms /\ cities_ok h cities' /\ view d cities' i'.
Proof.
  induction ms as [|m ms IH]; intros cities i Hc Hi; cbn [Match existsb]; [done|].
  pose proof (match_one_ok d m cities i Hc Hi) as H. destruct (match_one now m cities i) as [[r cities1] i1].
  destruct H as (<- & H1 & H2). destruct r; [done|]. cbn [orb]. by apply IH.
Qed.

Lemma logAndNotify_ok i b st : state_ok h st -> state_ok h (logAndNotify c i b st).
Proof. unfold logAndNotify. by destruct (needLogOrNotify c). Qed.

Lemma cacheRecord_ok d i allow st :
  state_ok h st -> db_time h n ip0 d -> view d (as_cities st) i -> allow = policy d c s ip0 ->
  state_ok h (cacheRecord now i allow st).
Proof.
  intros [Hc Hk] Hd Hi ->. unfold cacheRecord.
  assert (H : let '(cities, i') := if ForceResolveCountry && bool_decide (ii_City i = None)
    then let '(_, cities, i) := LookupCity now (as_cities st) i in (cities, i) else (as_cities st, i) in
    cities_ok h cities /\ view d cities i').
  { pose proof (LookupCity_ok d (as_cities st) i Hc Hi) as H.
    destruct (ForceResolveCountry && _); [|done].
    destruct (LookupCity now (as_cities st) i) as [[r cities] i']. by destruct H as (_ & ? & ?). }
  destruct (if ForceResolveCountry && _ then _ else _) as [cities i']. destruct H as [H1 (_ & H2 & _)].
  split; [done|]. cbn [as_ipCache]. rewrite H2.
  intros ip r Hip. destruct (decide (ip_String ip0 = ip_String ip)) as [E|E].
  - rewrite E, lookup_insert_eq. intros [= <-]. cbn [cc_created cc_allow]. exists n, d.
    split; [exact (checked_same_text _ _ _ ip0 ip Hv0 Hip E checked_now)|].
    split; [exact (db_time_same_text _ _ _ ip0 ip Hv0 Hip E Hd)|by apply policy_same_text].
  - rewrite lookup_insert_ne by done. by apply Hk.
Qed.

(** The check answers by the database of a time [d], and by that of the check
    that made the record when it finds one that has not expired. *)
Lemma IPAllowed_ok st :
  state_ok h0 st ->
  let '(b, st') := IPAllowed c s now (Some ip0) st in
  state_ok h st'
  /\ exists j tj d, checked h j tj ip0 /\ db_time h j ip0 d
       /\ (j = n \/ now <= tj + cacheTTL) /\ b = allowed d c s ip0.
Proof.
  intros Hst%(state_ok_app _ [(now, Some ip0)]). destruct (view_exists (as_cities st)) as (d & Hd & Hw); [apply Hst|].
  pose proof checked_now as Hn.
  unfold IPAllowed, allowed. destruct (IsLoopback ip0); [split; [done|]; by exists n, now, d; auto|]. cbn [orb].
  destruct (allowLocal s && IsPrivate ip0).
  { split; [by apply logAndNotify_ok|]. exists n, now, d. auto. }
  cbn [orb].
  assert (Hcheck : let '(b, st') :=
    (let '(ok, cities, i) := Match now (a_Allow c) (as_cities st)
       {| ii_IP := ip0; ii_Str := ip_String ip0; ii_City := None |} in
     if ok : bool then decide_ip c now i true (set_cities cities st)
     else let '(ok, cities, i) := Match now (a_Deny c) cities i in
          if ok : bool then decide_ip c now i false (set_cities cities st)
          else decide_ip c now i (defaultAllow s) (set_cities cities st)) in
    b = policy d c s ip0 /\ state_ok h st').
  { destruct Hst as [Hc Hk]. unfold decide_ip.
    assert (Hok : forall cities i' b, cities_ok h cities -> view d cities i' -> b = policy d c s ip0 ->
      b = policy d c s ip0 /\ state_ok h (cacheRecord now i' b (logAndNotify c i' b (set_cities cities st)))).
    { intros cities i' b G1 G2 G3. split; [done|]. apply (cacheRecord_ok d); [|done| |done].
      - by apply logAndNotify_ok.
      - unfold logAndNotify. by destruct (needLogOrNotify c). }
    pose proof (Match_ok d (a_Allow c) (as_cities st) _ Hc Hw) as H.
    destruct (Match now (a_Allow c) _ _) as [[r1 cities1] i1]. destruct H as (E1 & H1 & H2).
    destruct r1; [apply Hok; try done; unfold policy; by rewrite <- E1|].
    pose proof (Match_ok d (a_Deny c) cities1 i1 H1 H2) as G.
    destruct (Match now (a_Deny c) cities1 i1) as [[r2 cities2] i2]. destruct G as (E2 & G1 & G2).
    destruct r2; (apply Hok; [done|done|]); unfold policy; by rewrite <- E1, <- E2. }
  destruct (as_ipCache st !! ip_String ip0) as [r|] eqn:Er.
  2: { destruct (let '(_, _) := Match now _ _ _ in _) as [b st']. destruct Hcheck as [-> ?].
       split; [done|]. exists n, now, d. auto. }
  destruct (Expired now r) eqn:Ex; cbn [negb].
  { destruct (let '(_, _) := Match now _ _ _ in _) as [b st']. destruct Hcheck as [-> ?].
    split; [done|]. exists n, now, d. auto. }
  split; [by apply logAndNotify_ok|]. destruct Hst as [_ Hk].
  destruct (Hk ip0 r Hv0 Er) as (j & t & Hj & Ht & ->). exists j, (cc_created r), t.
  unfold Expired in Ex. apply Z.ltb_ge in Ex. auto.
Qed.

End One.

(** What the code promises of the answer [b] to the check number [n] of a
    sequence: no address is refused; an address is answered by the policy
    under the database of a time [d], which is the time of this or an earlier
    check [k] of the same address.  Between the two lies a check [j], whose
    answer is reused for at most [cacheTTL]; an earlier database decides only
    when it knew a city for the address. *)
Definition answer_spec (h : history) (n : nat) (b : bool) : Prop :=
  match h !! n with
  | None => False
  | Some (_, None) => b = false
  | Some (now, Some ip) =>
      exists j tj d, (j <= n)%nat /\ checked h j tj ip /\ (j = n \/ now <= tj + cacheTTL)
        /\ db_time h j ip d /\ b = allowed d c s ip
  end.

Lemma checked_lt h n t ip : checked h n t ip -> (n < length h)%nat.
Proof. intros (x & H & _). by eapply lookup_lt_Some. Qed.

Lemma check_all_ok qs : forall h0 st,
  state_ok h0 st -> (forall now x, (now, Some x) ∈ qs -> valid_ip x) ->
  length (check_all c s qs st) = length qs
  /\ forall n b, check_all c s qs st !! n = Some b -> answer_spec (h0 ++ qs) (length h0 + n) b.
Proof.
  induction qs as [|[now ip] qs IH]; intros h0 st Hst Hv; cbn [check_all]; [done|].
  assert (Hone : let '(b, st') := IPAllowed c s now ip st in
    state_ok (h0 ++ [(now, ip)]) st' /\ answer_spec (h0 ++ (now, ip) :: qs) (length h0) b).
  { unfold answer_spec. rewrite lookup_app_r, Nat.sub_diag by lia. cbn [lookup list_lookup].
    destruct ip as [ip|]; [|split; [by apply state_ok_app|done]].
    pose proof (IPAllowed_ok h0 now ip (Hv now ip ltac:(by left)) st Hst) as H.
    destruct (IPAllowed c s now (Some ip) st) as [b st']. destruct H as [H (j & tj & d & H1 & H2 & H3 & H4)].
    split; [done|]. exists j, tj, d.
    assert (j <= length h0)%nat by (apply checked_lt in H1; rewrite length_app in H1; simpl in H1; lia).
    rewrite cons_middle, app_assoc. split_and!; auto using checked_app, db_time_app. }
  destruct (IPAllowed c s now ip st) as [b st']. destruct Hone as [Hst' Hb].
  destruct (IH (h0 ++ [(now, ip)]) st' Hst') as [IH1 IH2].
  { intros now' x Hx. eapply Hv. by right. }
  split; [simpl; by rewrite IH1|]. intros [|n] b' E.
  - injection E as <-. by rewrite Nat.add_0_r.
  - apply IH2 in E. rewrite <- app_assoc, length_app in E. cbn [app length] in E.
    by replace (length h0 + S n)%nat with (length h0 + 1 + n)%nat by lia.
Qed.

Lemma new_state_ok : state_ok [] new_state.
Proof.
  split.
  - intros ip _ ct. cbn [as_cities new_state]. by rewrite lookup_empty.
  - intros ip r _. cbn [as_ipCache new_state]. by rewrite lookup_empty.
Qed.


(** While the database does not change, or no rule asks for a city, the
    answers are the policy's. *)
Lemma ACL_policy_stable qs t :
  (forall now x, (now, Some x) ∈ qs -> valid_ip x) ->
  (forall t' x, allowed t' c s x = allowed t c s x) ->
  check_all c s qs new_state
  = map (fun q => match q.2 with Some ip => allowed t c s ip | None => false end) qs.
Proof.
  intros Hv Hs. destruct (check_all_ok qs [] new_state new_state_ok Hv) as [H1 H2].
  apply list_eq. intros n. destruct (check_all _ _ _ _ !! n) as [b|] eqn:E.
  - apply H2 in E. unfold answer_spec in E. cbn [app length Nat.add] in E.
    rewrite list_lookup_fmap. destruct (qs !! n) as [[now [ip|]]|]; [|by subst|done].
    destruct E as (j & tj & d & _ & _ & _ & _ & ->). cbn. by rewrite (Hs d).
  - apply lookup_ge_None in E. rewrite list_lookup_fmap, lookup_ge_None_2 by lia. done.
Qed.

(** writing to an address the policy refuses never returns while the
    socket accepts packets, and sends the packet again every time. *)
Theorem WriteTo_refused_floods fuel now write ip h st sent :
  state_ok h st -> valid_ip ip -> (forall t, allowed t c s ip = false) -> (forall n, write n = true) ->
  exists st', WriteTo c s fuel now write (Some (Some ip)) sent st = (None, (sent + fuel)%nat, st').
Proof.
  intros Hst Hv Hn Hw. revert sent h st Hst. induction fuel as [|fuel IH]; intros sent h st Hst.
  - exists st. cbn [WriteTo]. by rewrite Nat.add_0_r.
  - cbn [WriteTo]. rewrite Hw. cbn [negb].
    pose proof (IPAllowed_ok h (now sent) ip Hv st Hst) as H.
    destruct (IPAllowed c s (now sent) (Some ip) st) as [b st1].
    destruct H as [Hst1 (j & tj & d & _ & _ & _ & ->)]. rewrite Hn.
    destruct (IH (S sent) _ st1 Hst1) as [st' E]. exists st'. rewrite E. do 2 f_equal. lia.
Qed.

End Policy.

(** ** The loop's counters *)

Section Counters.

Context (c : Config) (s : settings).

Definition count_of (m : gmap bytes Z) (ip : bytes) : Z := default 0 (m !! ip).

Definition is_log (ip : bytes) (allowed : bool) (e : loop_event) : bool :=
  match e with
  | EvLog l => bool_decide (il_Str l = ip) && Bool.eqb (il_allowed l) allowed
  | EvTick => false
  end.

Definition events_of (ip : bytes) (allowed : bool) (es : list loop_event) : Z :=
  Z.of_nat (length (List.filter (is_log ip allowed) es)).

(** The counts of an address in the summaries that were sent. *)
Definition reported (f : counters -> gmap bytes Z) (ip : bytes) (o : list loop_out) : Z :=
  sum_Z (map (fun x => match x with OutSummary k => count_of (f k) ip | OutACL _ _ => 0 end) o).

Lemma reported_app f ip o1 o2 : reported f ip (o1 ++ o2) = reported f ip o1 + reported f ip o2.
Proof. unfold reported. by rewrite map_app, sum_Z_app. Qed.

Lemma count_inc32 m k ip :
  0 <= count_of m ip < 2 ^ 32 - 1 ->
  count_of (inc32 m k) ip = count_of m ip + if bool_decide (k = ip) then 1 else 0.
Proof.
  intros H. unfold inc32, count_of in *. case_bool_decide as E.
  - subst k. rewrite lookup_insert_eq. simpl. by rewrite Z.mod_small by lia.
  - rewrite lookup_insert_ne by done. lia.
Qed.

(** A round moves counts from the maps to a summary, and adds its event. *)
Lemma loop_step_counts k e ip :
  needNotify c = true -> notifyAllowed s = true ->
  0 <= count_of (allowedCount k) ip < 2 ^ 32 - 1 -> 0 <= count_of (blockedCount k) ip < 2 ^ 32 - 1 ->
  let '(k', o) := loop_step c s k e in
  reported allowedCount ip o + count_of (allowedCount k') ip
    = count_of (allowedCount k) ip + events_of ip true [e]
  /\ reported blockedCount ip o + count_of (blockedCount k') ip
    = count_of (blockedCount k) ip + events_of ip false [e]
  /\ 0 <= count_of (allowedCount k') ip <= count_of (allowedCount k) ip + 1
  /\ 0 <= count_of (blockedCount k') ip <= count_of (blockedCount k) ip + 1.
Proof.
  intros Hn Ha H1 H2. destruct e as [l|]; cbn [loop_step].
  - assert (Ho : forall f, reported f ip
      (if bool_decide (is_Some (a_Log c)) && (negb (il_allowed l) || logAllowed s)
       then [OutACL (il_Str l) (negb (il_allowed l))] else []) = 0).
    { intros f. by destruct (_ && _). }
    rewrite !Ho. unfold count_log, events_of. rewrite Hn, Ha. cbn [List.filter is_log].
    destruct (il_allowed l); cbn [allowedCount blockedCount Bool.eqb];
      rewrite count_inc32 by done; destruct (bool_decide (il_Str l = ip)); cbn; lia.
  - unfold events_of. cbn [List.filter is_log length]. destruct (Nat.eqb_spec (size (allowedCount k) + size (blockedCount k)) 0).
    + unfold reported. cbn. lia.
    + unfold reported, sum_Z. cbn [map foldr allowedCount blockedCount].
      assert (E : count_of ∅ ip = 0) by (unfold count_of; by rewrite lookup_empty). rewrite E. lia.
Qed.

Lemma events_of_cons ip a e es : events_of ip a (e :: es) = events_of ip a [e] + events_of ip a es.
Proof. unfold events_of. cbn [List.filter]. destruct (is_log ip a e); cbn; lia. Qed.

Lemma loop_run_counts es ip : forall k,
  needNotify c = true -> notifyAllowed s = true ->
  0 <= count_of (allowedCount k) ip -> 0 <= count_of (blockedCount k) ip ->
  count_of (allowedCount k) ip + Z.of_nat (length es) < 2 ^ 32 ->
  count_of (blockedCount k) ip + Z.of_nat (length es) < 2 ^ 32 ->
  let '(k', o) := loop_run c s k es in
  reported allowedCount ip o + count_of (allowedCount k') ip
    = count_of (allowedCount k) ip + events_of ip true es
  /\ reported blockedCount ip o + count_of (blockedCount k') ip
    = count_of (blockedCount k) ip + events_of ip false es.
Proof.
  induction es as [|e es IH]; intros k Hn Ha H1 H2 H3 H4; cbn [loop_run].
  { unfold reported, events_of. cbn. lia. }
  rewrite (events_of_cons ip true e es), (events_of_cons ip false e es). cbn [length] in H3, H4.
  pose proof (loop_step_counts k e ip Hn Ha ltac:(lia) ltac:(lia)) as Hs.
  destruct (loop_step c s k e) as [k1 o1]. destruct Hs as (G1 & G2 & G3 & G4).
  specialize (IH k1 Hn Ha ltac:(lia) ltac:(lia) ltac:(lia) ltac:(lia)).
  destruct (loop_run c s k1 es) as [k2 o2]. rewrite !reported_app. lia.
Qed.

(** no access is lost or counted twice by the notifications: over any
    sequence of accesses and ticks of fewer than [2^32] events, the counts of
    an address in the summaries sent and in the maps add up to the number of
    its accesses, allowed and blocked ones apart. *)
Theorem notify_counts_exact es ip :
  needNotify c = true -> notifyAllowed s = true -> Z.of_nat (length es) < 2 ^ 32 ->
  let '(k, o) := loop_run c s zero_counters es in
  reported allowedCount ip o + count_of (allowedCount k) ip = events_of ip true es
  /\ reported blockedCount ip o + count_of (blockedCount k) ip = events_of ip false es.
Proof.
  intros Hn Ha Hl. pose proof (loop_run_counts es ip zero_counters Hn Ha) as H.
  assert (E : count_of ∅ ip = 0) by (unfold count_of; by rewrite lookup_empty).
  cbn [zero_counters allowedCount blockedCount] in H. rewrite E in H. apply H; lia.
Qed.

End Counters.

(** Notifications without an interval stop the process: [Validate]
    replaces negative intervals only, and the ticker refuses zero. *)
Theorem zero_interval_panics c s :
  Validate c = Ok s -> a_NotifyTo c <> [] -> a_NotifyInterval c = 0 ->
  Start true c = Panic ExplicitPanic.
Proof.
  intros Hv Ht Hi. assert (E : notifyInterval s = 0).
  { unfold Validate in Hv. rewrite Hi in Hv. repeat case_match; simplify_eq; done. }
  unfold Start, needNotify. rewrite Hv, andb_false_r. destruct (a_NotifyTo c); [done|].
  cbn. by rewrite E.
Qed.

End ACL.

(** ** Concrete runs *)

(** A text that shows the short form of an address, in binary. *)
Fixpoint pos_text (p : positive) : bytes :=
  match p with
  | xH => []
  | xO p => "0"%char :: pos_text p
  | xI p => "1"%char :: pos_text p
  end.

Definition plain_String (ip : IP) : bytes := pos_text (encode (short ip)).

Lemma pos_text_inj p q : pos_text p = pos_text q -> p = q.
Proof.
  revert q. induction p as [p IH|p IH|]; intros [q|q|] H; simpl in H; try done;
    injection H as H; f_equal; auto.
Qed.

Definition deny_config : Config :=
  {| a_Default := B "deny"; a_AllowLocal := Some false;
     a_Allow := [matchCIDR {| net_IP := [203; 0; 113; 0]; net_Mask := [255; 255; 255; 0] |};
                 matchISOCode (B "GB")];
     a_Deny := [matchIP [8; 8; 8; 8]]; a_Log := None;
     a_NotifyTo := [B "ntfy"]; a_NotifyInterval := 0; a_IncludeAllowed := Some true |}.

Definition deny_settings : settings :=
  {| defaultAllow := false; allowLocal := false; logAllowed := false; notifyAllowed := true;
     notifyInterval := 0 |}.

Definition no_geo : Z -> option (option (IP -> option City)) := fun _ => None.

(** A database that is replaced at the time 10: an address moves from the
    United Kingdom to France. *)
Definition moved (t : Z) : option (option (IP -> option City)) :=
  Some (Some (fun ip => if bool_decide (short ip = [9; 9; 9; 9])
    then Some {| ct_TimeZone := B "Europe/London"; ct_IsoCode := if t <? 10 then B "GB" else B "FR" |}
    else None)).

Lemma zero_interval_panics_witness : Start true deny_config = Panic ExplicitPanic.
Proof.
  apply (zero_interval_panics deny_config deny_settings).
  - vm_compute. reflexivity.
  - discriminate.
  - reflexivity.
Defined.

Lemma notify_counts_exact_witness :
  let '(k, o) := loop_run deny_config deny_settings zero_counters
    [EvLog {| il_Str := B "a"; il_allowed := false |}; EvTick;
     EvLog {| il_Str := B "a"; il_allowed := false |}] in
  reported allowedCount (B "a") o + count_of (allowedCount k) (B "a") = 0
  /\ reported blockedCount (B "a") o + count_of (blockedCount k) (B "a") = 2.
Proof.
  apply (notify_counts_exact deny_config deny_settings
    [EvLog {| il_Str := B "a"; il_allowed := false |}; EvTick;
     EvLog {| il_Str := B "a"; il_allowed := false |}] (B "a")).
  - reflexivity.
  - reflexivity.
  - simpl. lia.
Defined.

(** The city of the old database is used long after the update: the address
    is still let in as one of the United Kingdom, to a program that was
    started after the update it would be refused. *)
Lemma city_outlives_update :
  let check := check_all moved plain_String false deny_config deny_settings in
  check [(0, Some [9; 9; 9; 9]); (1000 * second, Some [9; 9; 9; 9])] new_state = [true; true]
  /\ check [(1000 * second, Some [9; 9; 9; 9])] new_state = [false].
Proof. split; vm_compute; reflexivity. Qed.



Lemma WriteTo_refused_floods_witness :
  exists st', WriteTo no_geo plain_String false deny_config deny_settings 100 (fun n => Z.of_nat n)
    (fun _ => true) (Some (Some [8; 8; 8; 8])) 0 new_state = (None, 100%nat, st').
Proof.
  apply (WriteTo_refused_floods no_geo plain_String false) with (h := []).
  - intros a b _ _ H. by apply pos_text_inj, encode_inj in H.
  - done.
  - apply new_state_ok.
  - by left.
  - reflexivity.
  - done.
Defined.
