(* ===== verification/LogFile.v ===== *)
(** * Access log: shared log files

    Models internal/logging/accesslog/file_logger.go and
    internal/utils/ref_count.go: the table of open log files shared by the
    loggers, the reference counts, and the goroutine that closes a file when
    its count reaches zero, as interleaved steps. *)

From S2P Require Import Prelude GoStrings.

(** ** RefCount (ref_count.go) *)

(** The count (a uint32) and whether [zeroCh] is closed. *)
Record RefCount := { rc_count : Z; rc_zero : bool }.

Definition NewRefCounter : RefCount := {| rc_count := 1; rc_zero := false |}.

Definition rc_Add (r : RefCount) : result unit RefCount :=
  let newV := (rc_count r + 1) mod 2 ^ 32 in
  if newV =? 1 then Panic ExplicitPanic
  else Ok {| rc_count := newV; rc_zero := rc_zero r |}.

(** [Sub]: the round of the loop whose compare-and-swap succeeds.  Closing a
    closed channel panics. *)
Definition rc_Sub (r : RefCount) : result unit RefCount :=
  if rc_count r =? 0 then Ok r
  else if rc_count r =? 1 then
    if rc_zero r then Panic CloseOfClosedChannel
    else Ok {| rc_count := 0; rc_zero := true |}
  else Ok {| rc_count := rc_count r - 1; rc_zero := rc_zero r |}.

(** ** Files (file_logger.go) *)

(** Where the goroutine [closeOnZero] of a file is. *)
Inductive phase := Waiting | Removed | Closed.

#[export] Instance phase_eq_dec : EqDecision phase.
Proof. solve_decision. Defined.

Record File := { fl_path : bytes; fl_ref : RefCount; fl_phase : phase }.

(** The table [openedFiles] (paths to files) and all files, by number. *)
Record log_files := { openedFiles : gmap bytes nat; all_files : list File }.

Definition no_files : log_files := {| openedFiles := ∅; all_files := [] |}.

Definition set_file (s : log_files) (i : nat) (f : File) : log_files :=
  {| openedFiles := openedFiles s; all_files := <[i := f]> (all_files s) |}.

(** [NewFileIO] of an absolute path, under the lock of the table; [opens] says
    whether [os.OpenFile] and the [Seek] to the end succeed. *)
Definition NewFileIO (opens : bool) (path : bytes) (s : log_files) : result unit (nat * log_files) :=
  match openedFiles s !! path ≫= (fun i => pair i <$> all_files s !! i) with
  | Some (i, f) =>
      r ← rc_Add (fl_ref f);
      Ok (i, set_file s i {| fl_path := fl_path f; fl_ref := r; fl_phase := fl_phase f |})
  | None =>
      let i := length (all_files s) in
      if negb opens then Err tt
      else Ok (i, {| openedFiles := <[path := i]> (openedFiles s);
                     all_files := all_files s ++ [{| fl_path := path; fl_ref := NewRefCounter;
                                                     fl_phase := Waiting |}] |})
  end.

(** [File.Close]. *)
Definition File_Close (i : nat) (s : log_files) : option (result unit log_files) :=
  f ← all_files s !! i;
  Some (r ← rc_Sub (fl_ref f);
        Ok (set_file s i {| fl_path := fl_path f; fl_ref := r; fl_phase := fl_phase f |})).

(** [closeOnZero], first part: after the receive from [Zero()], the file
    leaves the table. *)
Definition close_remove (i : nat) (s : log_files) : option log_files :=
  f ← all_files s !! i;
  if rc_zero (fl_ref f) && bool_decide (fl_phase f = Waiting)
  then Some {| openedFiles := delete (fl_path f) (openedFiles s);
               all_files := <[i := {| fl_path := fl_path f; fl_ref := fl_ref f; fl_phase := Removed |}]>
                              (all_files s) |}
  else None.

(** [closeOnZero], second part: the descriptor is closed. *)
Definition close_os (i : nat) (s : log_files) : option log_files :=
  f ← all_files s !! i;
  if bool_decide (fl_phase f = Removed)
  then Some (set_file s i {| fl_path := fl_path f; fl_ref := fl_ref f; fl_phase := Closed |})
  else None.

(** ** Interleavings *)

Inductive step : log_files -> log_files -> Prop :=
  | step_open opens path s i s' : NewFileIO opens path s = Ok (i, s') -> step s s'
  | step_close i s s' : File_Close i s = Some (Ok s') -> step s s'
  | step_remove i s s' : close_remove i s = Some s' -> step s s'
  | step_os i s s' : close_os i s = Some s' -> step s s'.

(** Reached in [n] steps. *)
Inductive reached : nat -> log_files -> Prop :=
  | reached_start : reached 0 no_files
  | reached_step n s s' : reached n s -> step s s' -> reached (S n) s'.

(** A file's own state: the channel is closed exactly at zero, and the
    goroutine has moved on only then. *)
Record file_ok (n : nat) (f : File) : Prop := {
  ok_bound : 0 <= rc_count (fl_ref f) <= Z.of_nat n;
  ok_zero : rc_zero (fl_ref f) = true <-> rc_count (fl_ref f) = 0;
  ok_phase : fl_phase f <> Waiting -> rc_zero (fl_ref f) = true
}.

Record files_ok (n : nat) (s : log_files) : Prop := {
  ok_files : forall i f, all_files s !! i = Some f -> file_ok n f;
  ok_table : forall path i, openedFiles s !! path = Some i ->
             exists f, all_files s !! i = Some f /\ fl_path f = path /\ fl_phase f = Waiting
}.

Lemma file_ok_mono n m f : (n <= m)%nat -> file_ok n f -> file_ok m f.
Proof. intros H [H1 H2 H3]. constructor; [lia|done|done]. Qed.

(** Replacing a file that keeps its path and its place in the goroutine. *)
Lemma set_file_ok n s i f f' :
  files_ok n s -> all_files s !! i = Some f -> fl_path f' = fl_path f ->
  (fl_phase f = Waiting -> fl_phase f' = Waiting) -> file_ok (S n) f' ->
  files_ok (S n) (set_file s i f').
Proof.
  intros [Hf Ht] Hi Hp Hph Hok. constructor; cbn [openedFiles all_files set_file].
  - intros j g Hj. apply list_lookup_insert_Some in Hj as [(-> & -> & _)|[_ Hj]]; [done|].
    eapply file_ok_mono; [|by eapply Hf]. lia.
  - intros path j Hj. destruct (Ht path j Hj) as (g & Hg & Hgp & Hgw).
    destruct (decide (i = j)) as [->|Hne].
    + simplify_eq. exists f'. rewrite list_lookup_insert_eq by (by eapply lookup_lt_Some).
      repeat split; [congruence|auto].
    + exists g. by rewrite list_lookup_insert_ne.
Qed.

Lemma rc_Add_ok n f r :
  Z.of_nat n < 2 ^ 32 - 1 -> file_ok n f -> rc_Add (fl_ref f) = Ok r ->
  file_ok (S n) {| fl_path := fl_path f; fl_ref := r; fl_phase := fl_phase f |}.
Proof.
  intros Hn [H1 H2 H3]. unfold rc_Add. rewrite Z.mod_small by lia.
  destruct (Z.eqb_spec (rc_count (fl_ref f) + 1) 1) as [E|E]; [done|]. intros [= <-].
  constructor; cbn [fl_ref fl_phase rc_count rc_zero]; [lia| |done].
  split; [rewrite H2; lia|lia].
Qed.

Lemma rc_Sub_ok n f :
  file_ok n f ->
  exists r, rc_Sub (fl_ref f) = Ok r
  /\ file_ok (S n) {| fl_path := fl_path f; fl_ref := r; fl_phase := fl_phase f |}.
Proof.
  intros [H1 H2 H3]. unfold rc_Sub.
  destruct (Z.eqb_spec (rc_count (fl_ref f)) 0) as [E0|E0].
  { eexists. split; [done|]. constructor; cbn; [lia|done|done]. }
  destruct (Z.eqb_spec (rc_count (fl_ref f)) 1) as [E1|E1].
  - destruct (rc_zero (fl_ref f)) eqn:Ez; [apply H2 in Ez || destruct H2 as [H2 _]; try lia; by specialize (H2 eq_refl)|].
    eexists. split; [done|]. by constructor; cbn; [lia| |].
  - eexists. split; [done|]. constructor; cbn; [lia| |done]. split; [rewrite H2; lia|lia].
Qed.

Lemma remove_ok n s i f :
  files_ok n s -> all_files s !! i = Some f -> rc_zero (fl_ref f) = true ->
  files_ok (S n)
    {| openedFiles := delete (fl_path f) (openedFiles s);
       all_files := <[i := {| fl_path := fl_path f; fl_ref := fl_ref f; fl_phase := Removed |}]>
                      (all_files s) |}.
Proof.
  intros [Hf Ht] Hi Hz. constructor; cbn [openedFiles all_files].
  - intros j g Hj. apply list_lookup_insert_Some in Hj as [(-> & <- & _)|[_ Hj]].
    + destruct (Hf _ _ Hi) as [H1 H2 H3]. constructor; cbn; [lia|done|done].
    + eapply file_ok_mono; [|by eapply Hf]. lia.
  - intros path j Hj. apply lookup_delete_Some in Hj as [Hne Hj].
    destruct (Ht path j Hj) as (g & Hg & Hgp & Hgw). exists g.
    rewrite list_lookup_insert_ne; [done|]. intros ->. congruence.
Qed.

Lemma open_new_ok n s path :
  files_ok n s ->
  files_ok (S n)
    {| openedFiles := <[path := length (all_files s)]> (openedFiles s);
       all_files := all_files s ++ [{| fl_path := path; fl_ref := NewRefCounter; fl_phase := Waiting |}] |}.
Proof.
  intros [Hf Ht]. constructor; cbn [openedFiles all_files].
  - intros j g Hj. apply lookup_app_Some in Hj as [Hj|[_ Hj]].
    + eapply file_ok_mono; [|by eapply Hf]. lia.
    + apply list_lookup_singleton_Some in Hj as [_ <-]. by constructor; cbn; [lia| |].
  - intros path' j Hj. apply lookup_insert_Some in Hj as [[-> <-]|[Hne Hj]].
    + exists {| fl_path := path'; fl_ref := NewRefCounter; fl_phase := Waiting |}.
      by rewrite lookup_app_r, Nat.sub_diag.
    + destruct (Ht path' j Hj) as (g & Hg & H). exists g. by rewrite (lookup_app_l_Some _ _ _ _ Hg).
Qed.

Lemma step_files_ok n s s' :
  Z.of_nat n < 2 ^ 32 - 1 -> files_ok n s -> step s s' -> files_ok (S n) s'.
Proof.
  intros Hn Hok Hs. destruct Hs as [opens path s i s' H|i s s' H|i s s' H|i s s' H].
  - unfold NewFileIO in H. destruct (_ ≫= _) as [[j f]|] eqn:E.
    + apply bind_Some in E as (j' & Hj & E). apply fmap_Some in E as (f' & Hf & E). injection E as -> ->.
      destruct (rc_Add (fl_ref f')) as [r| |] eqn:Er; cbn in H; simplify_eq.
      eapply set_file_ok; [done|done|done|done|]. eapply rc_Add_ok; [done| |done]. by eapply ok_files.
    + destruct opens; cbn [negb] in H; simplify_eq. by apply open_new_ok.
  - unfold File_Close in H. destruct (all_files s !! i) as [f|] eqn:Ei; [|done]. cbn in H.
    destruct (rc_Sub_ok n f) as (r & Er & Hr); [by eapply ok_files|]. rewrite Er in H. cbn in H.
    simplify_eq. by eapply set_file_ok.
  - unfold close_remove in H. destruct (all_files s !! i) as [f|] eqn:Ei; [|done]. cbn in H.
    destruct (rc_zero (fl_ref f)) eqn:Ez; [|done]. cbn in H. case_bool_decide; simplify_eq.
    by apply remove_ok.
  - unfold close_os in H. destruct (all_files s !! i) as [f|] eqn:Ei; [|done]. cbn in H.
    case_bool_decide as Ep; simplify_eq.
    destruct (ok_files _ _ Hok _ _ Ei) as [H1 H2 H3].
    eapply set_file_ok; [done|done|done|cbn; congruence|].
    constructor; cbn; [lia|done|]. intros _. apply H3. congruence.
Qed.

Lemma reached_ok n s : reached n s -> Z.of_nat n < 2 ^ 32 -> files_ok n s.
Proof.
  induction 1 as [|n s s' _ IH Hs]; intros Hn.
  - constructor; cbn; [intros i f; by rewrite lookup_nil|intros path i; by rewrite lookup_empty].
  - eapply step_files_ok; [lia|apply IH; lia|done].
Qed.

(** in every interleaving of opens, closes and the closing goroutines
    (fewer than [2^32] steps) a file with references is in use: its descriptor
    is open; an entry of the table names a file of that path that is open; and
    closing a reference never closes the channel twice. *)
Theorem referenced_files_open n s i f :
  reached n s -> Z.of_nat n < 2 ^ 32 -> all_files s !! i = Some f ->
  (0 < rc_count (fl_ref f) -> fl_phase f = Waiting)
  /\ (forall path, openedFiles s !! path = Some i -> fl_path f = path /\ fl_phase f = Waiting)
  /\ (exists s', File_Close i s = Some (Ok s')).
Proof.
  intros Hr Hn Hi. apply reached_ok in Hr; [|done].
  destruct (ok_files _ _ Hr _ _ Hi) as [H1 H2 H3]. repeat split.
  - intros Hc. destruct (decide (fl_phase f = Waiting)) as [|Hp]; [done|]. apply H3, H2 in Hp. lia.
  - destruct (ok_table _ _ Hr _ _ H) as (g & Hg & ? & ?). congruence.
  - destruct (ok_table _ _ Hr _ _ H) as (g & Hg & ? & ?). congruence.
  - unfold File_Close. rewrite Hi. cbn. destruct (rc_Sub_ok n f) as (r & -> & _); [by eapply ok_files|].
    cbn. by eexists.
Qed.

(** between the last close of a log file and the goroutine taking it off
    the table, opening the same path panics: the count is raised from zero. *)
Theorem reopen_race_panics opens path :
  exists s, reached 2 s /\ NewFileIO opens path s = Panic ExplicitPanic.
Proof.
  set (f := {| fl_path := path; fl_ref := NewRefCounter; fl_phase := Waiting |}).
  set (s1 := {| openedFiles := <[path := 0%nat]> ∅; all_files := [f] |}).
  set (s2 := {| openedFiles := <[path := 0%nat]> ∅;
                all_files := [{| fl_path := path; fl_ref := {| rc_count := 0; rc_zero := true |};
                                 fl_phase := Waiting |}] |}).
  exists s2. split.
  - apply (reached_step 1 s1); [apply (reached_step 0 no_files); [apply reached_start|]|].
    + apply (step_open true path _ 0). unfold NewFileIO. cbn [openedFiles no_files].
      by rewrite lookup_empty.
    + by apply (step_close 0).
  - unfold NewFileIO. cbn [openedFiles s2]. by rewrite lookup_insert_eq.
Qed.

Lemma referenced_files_open_witness :
  let f := {| fl_path := B "/log"; fl_ref := NewRefCounter; fl_phase := Waiting |} in
  let s := {| openedFiles := <[B "/log" := 0%nat]> ∅; all_files := [f] |} in
  (0 < rc_count (fl_ref f) -> fl_phase f = Waiting)
  /\ (forall path, openedFiles s !! path = Some 0%nat -> fl_path f = path /\ fl_phase f = Waiting)
  /\ (exists s', File_Close 0 s = Some (Ok s')).
Proof.
  intros f s. apply (referenced_files_open 1 s 0 f).
  - apply (reached_step 0 no_files); [apply reached_start|].
    by apply (step_open true (B "/log") _ 0).
  - simpl. lia.
  - done.
Defined.
