(* ===== verification/Period.v ===== *)
(** * Metrics history: ring buffers, periods and the poller

    Models internal/metrics/period: [Entries] (entries.go) is a ring buffer of
    100 samples that takes one sample per interval; [Period] (period.go) keeps
    one ring per time span; [Poller] (poller.go) polls once a second, counts
    the errors and saves the periods to a file it reads back at the start.

    An abstract specification of a ring, [history], is a plain list of samples;
    the ring refines it.  Instants are nanoseconds.  The JSON library is the
    parameter [PeriodCodec]. *)

From S2P Require Import Prelude GoStrings.

Definition maxEntries : Z := 100.

Arguments maxEntries : simpl never.

(** ** The ring buffer *)

Section entries.
Context {T : Type}.
(** Go's zero value of the sample type. *)
Variable zero : T.

(** The zero value of [[maxEntries]T]. *)
Definition zeros : list T := replicate (Z.to_nat maxEntries) zero.

Arguments zeros : simpl never.

Record Entries := MkEntries {
  entries : list T;
  index : Z;
  count : Z;
  interval : Z;
  lastAdd : Z
}.

Definition expected_interval (duration : Z) : Z := Z.max (duration ÷ maxEntries) Second.

Definition newEntries (now duration : Z) : Entries :=
  {| entries := zeros; index := 0; count := 0;
     interval := expected_interval duration; lastAdd := now |}.

Definition addWithTime (e : Entries) (timestamp : Z) (info : T) : result Empty_set Entries :=
  if (0 <=? index e) && (index e <? Z.of_nat (length (entries e))) then
    Ok {| entries := <[Z.to_nat (index e) := info]> (entries e);
          index := Z.rem (index e + 1) maxEntries;
          count := if count e <? maxEntries then count e + 1 else count e;
          interval := interval e;
          lastAdd := timestamp |}
  else Panic IndexOutOfRange.

Definition Add (e : Entries) (now : Z) (info : T) : result Empty_set Entries :=
  if time_Sub now (lastAdd e) <? interval e then Ok e else addWithTime e now info.

Definition validateInterval (e : Entries) (expectedDuration : Z) : bool :=
  interval e =? expected_interval expectedDuration.

Definition fixInterval (e : Entries) (expectedDuration : Z) : Entries :=
  {| entries := entries e; index := index e; count := count e;
     interval := expected_interval expectedDuration; lastAdd := lastAdd e |}.

(** A slice expression [l[i:j]]. *)
Definition slice (l : list T) (i j : Z) : result Empty_set (list T) :=
  if (0 <=? i) && (i <=? j) && (j <=? Z.of_nat (length l))
  then Ok (drop (Z.to_nat i) (take (Z.to_nat j) l))
  else Panic SliceOutOfBounds.

Definition Get (e : Entries) : result Empty_set (list T) :=
  if count e <? maxEntries then slice (entries e) 0 (count e)
  else
    let res := zeros in
    if count e <=? index e then
      src ← slice (entries e) 0 (count e); Ok (go_copy res src)
    else
      src ← slice (entries e) (index e) (Z.of_nat (length (entries e)));
      let res := go_copy res src in
      let off := count e - index e in
      if (0 <=? off) && (off <=? maxEntries) then
        src ← slice (entries e) 0 (index e);
        Ok (take (Z.to_nat off) res ++ go_copy (drop (Z.to_nat off) res) src)
      else Panic SliceOutOfBounds.

(** The JSON representation. *)
Record entriesJSON := { ej_Entries : list T; ej_Interval : Z }.

Definition to_JSON (e : Entries) : result Empty_set entriesJSON :=
  l ← Get e; Ok {| ej_Entries := l; ej_Interval := interval e |}.

(** The receiver of [UnmarshalJSON]: a freshly allocated value, all fields
    zero. [zero_time] is the zero [time.Time]. *)
Variable zero_time : Z.

Definition fresh : Entries :=
  {| entries := zeros; index := 0; count := 0;
     interval := 0; lastAdd := zero_time |}.

(** The loop of [UnmarshalJSON]; [n] is the number of entries, [i] the
    position. *)
Fixpoint add_all (e : Entries) (now n i : Z) (l : list T) : result Empty_set Entries :=
  match l with
  | [] => Ok e
  | info :: l' =>
      e' ← addWithTime e (now + wrap64 (wrap64 (- (n - 1 - i)) * interval e)) info;
      add_all e' now n (i + 1) l'
  end.

Definition from_JSON (now : Z) (v : entriesJSON) (e : Entries) : result Empty_set Entries :=
  match ej_Entries v with
  | [] => Ok e
  | _ =>
      let l := if maxEntries <? Z.of_nat (length (ej_Entries v))
               then take (Z.to_nat maxEntries) (ej_Entries v) else ej_Entries v in
      let e := {| entries := entries e; index := index e; count := count e;
                  interval := ej_Interval v; lastAdd := lastAdd e |} in
      add_all e now (Z.of_nat (length l)) 0 l
  end.

(** ** The abstract ring: the last samples, in order *)

Record history := { samples : list T; last_time : Z; spacing : Z }.

Definition keep_last {A} (n : nat) (l : list A) : list A := drop (length l - n) l.

Definition spec_record (h : history) (now : Z) (info : T) : history :=
  {| samples := keep_last (Z.to_nat maxEntries) (samples h ++ [info]);
     last_time := now; spacing := spacing h |}.

Definition spec_add (h : history) (now : Z) (info : T) : history :=
  if time_Sub now (last_time h) <? spacing h then h else spec_record h now info.

(** The representation invariant. *)
Definition Entries_wf (e : Entries) : Prop :=
  length (entries e) = Z.to_nat maxEntries
  /\ 0 <= index e < maxEntries
  /\ 0 <= count e <= maxEntries
  /\ (count e < maxEntries -> index e = count e).

(** The samples a well-formed ring holds. *)
Definition ring_samples (e : Entries) : list T :=
  if count e <? maxEntries then take (Z.to_nat (count e)) (entries e)
  else drop (Z.to_nat (index e)) (entries e) ++ take (Z.to_nat (index e)) (entries e).

Definition refines (e : Entries) (h : history) : Prop :=
  Entries_wf e /\ ring_samples e = samples h
  /\ lastAdd e = last_time h /\ interval e = spacing h.

(** ** Lemmas *)

Lemma keep_last_short {A} n (l : list A) : (length l <= n)%nat -> keep_last n l = l.
Proof. intros H. unfold keep_last. by replace (length l - n)%nat with O by lia. Qed.

Lemma keep_last_length {A} n (l : list A) : (length (keep_last n l) <= n)%nat.
Proof. unfold keep_last. rewrite length_drop. lia. Qed.

Lemma keep_last_snoc {A} n (l : list A) x :
  (0 < n)%nat -> keep_last n (keep_last n l ++ [x]) = keep_last n (l ++ [x]).
Proof.
  intros Hn. unfold keep_last. rewrite !length_app, length_drop. simpl.
  destruct (decide (length l <= n)%nat) as [Hle|Hgt].
  - replace (length l - n)%nat with O by lia. rewrite drop_0.
    f_equal. lia.
  - rewrite <- (drop_app_le l [x] (length l - n)) by lia. rewrite drop_drop. f_equal. lia.
Qed.

Lemma slice_ok (l : list T) i j :
  0 <= i <= j -> j <= Z.of_nat (length l) ->
  slice l i j = Ok (drop (Z.to_nat i) (take (Z.to_nat j) l)).
Proof.
  intros Hi Hj. unfold slice.
  by rewrite (proj2 (Z.leb_le 0 i)), (proj2 (Z.leb_le i j)), (proj2 (Z.leb_le j _)) by lia.
Qed.

Lemma length_zeros : length zeros = Z.to_nat maxEntries.
Proof. apply length_replicate. Qed.

(** [Get] never panics on a well-formed ring and returns its samples. *)
Lemma Get_samples e : Entries_wf e -> Get e = Ok (ring_samples e).
Proof.
  intros (Hlen & Hi & Hc & Hic). unfold Get, ring_samples.
  destruct (count e <? maxEntries) eqn:E; reflect.
  - rewrite slice_ok by lia. by rewrite drop_0.
  - assert (count e = maxEntries) as Hm by lia. rewrite Hm.
    rewrite (proj2 (Z.leb_gt _ _)) by lia.
    rewrite !slice_ok by lia. simpl.
    rewrite (proj2 (Z.leb_le 0 _)), (proj2 (Z.leb_le _ maxEntries)) by lia. simpl.
    f_equal. rewrite Nat2Z.id, firstn_all, drop_0. unfold go_copy.
    set (d := drop (Z.to_nat (index e)) (entries e)).
    assert (length d = (Z.to_nat maxEntries - Z.to_nat (index e))%nat) as Hd
      by (unfold d; rewrite length_drop; lia).
    rewrite length_zeros, (take_ge d) by lia.
    rewrite take_app_exact by (rewrite Hd; lia).
    rewrite drop_app_exact by (rewrite Hd; lia). f_equal.
    rewrite length_drop, length_zeros, Hd.
    rewrite (take_ge (take _ _)) by (rewrite length_take; lia).
    rewrite drop_drop, drop_ge, app_nil_r; [done|].
    rewrite length_zeros, length_take. lia.
Qed.

Lemma rem_next i : 0 <= i < maxEntries ->
  Z.rem (i + 1) maxEntries = if i + 1 <? maxEntries then i + 1 else 0.
Proof.
  intros H. case_if; reflect.
  - apply Z.rem_small. lia.
  - replace (i + 1) with maxEntries by (unfold maxEntries in *; lia). done.
Qed.

(** One sample recorded, on the ring and on the abstract history. *)
Lemma addWithTime_refines e h t x :
  refines e h ->
  exists e', addWithTime e t x = Ok e' /\ refines e' (spec_record h t x).
Proof.
  intros ((Hlen & Hi & Hc & Hic) & Hs & Hl & Hv). unfold addWithTime.
  rewrite (proj2 (Z.leb_le 0 _)), (proj2 (Z.ltb_lt _ _)) by lia. simpl.
  eexists; split; [done|].
  assert (Hm : maxEntries = 100) by done.
  unfold refines, Entries_wf, ring_samples, spec_record in *; simpl.
  rewrite rem_next by lia. rewrite <- Hs.
  split; [|split; [|done]].
  { rewrite length_insert. split; [done|]. repeat case_if; reflect; lia. }
  destruct (count e <? maxEntries) eqn:E; reflect.
  - specialize (Hic E). rewrite Hic in *.
    assert (take (Z.to_nat (count e)) (<[Z.to_nat (count e):=x]> (entries e)) ++ [x]
            = take (S (Z.to_nat (count e))) (<[Z.to_nat (count e):=x]> (entries e))) as Ht.
    { symmetry. apply take_S_r. apply list_lookup_insert_eq. lia. }
    rewrite take_insert_ge in Ht by lia. rewrite Ht.
    rewrite keep_last_short by (rewrite length_take; lia).
    destruct (count e + 1 <? maxEntries) eqn:E2; reflect.
    + f_equal. lia.
    + rewrite drop_0, take_0, app_nil_r. symmetry. apply take_ge.
      rewrite length_insert. lia.
  - rewrite (proj2 (Z.ltb_ge (count e) _)) by lia.
    rewrite <- app_assoc.
    assert (exists y, drop (Z.to_nat (index e)) (entries e)
                      = y :: drop (S (Z.to_nat (index e))) (entries e)) as [y Hy].
    { destruct (lookup_lt_is_Some_2 (entries e) (Z.to_nat (index e))) as [y Hy]; [lia|].
      exists y. by apply drop_S. }
    assert (take (S (Z.to_nat (index e))) (<[Z.to_nat (index e):=x]> (entries e))
            = take (Z.to_nat (index e)) (entries e) ++ [x]) as Ht.
    { erewrite take_S_r by (apply list_lookup_insert_eq; lia). by rewrite take_insert_ge by lia. }
    rewrite Hy. unfold keep_last.
    replace (length _ - Z.to_nat maxEntries)%nat with 1%nat
      by (simpl length; rewrite !length_app, length_drop, length_take; simpl length; lia).
    simpl. rewrite drop_0. destruct (index e + 1 <? maxEntries) eqn:E2; reflect.
    + replace (Z.to_nat (index e + 1)) with (S (Z.to_nat (index e))) by lia.
      rewrite Ht, drop_insert_lt by lia. done.
    + rewrite drop_0, take_0, app_nil_r.
      rewrite (drop_ge _ (S _)) by lia. simpl. rewrite <- Ht.
      symmetry. apply take_ge. rewrite length_insert. lia.
Qed.

Lemma Add_refines e h t x :
  refines e h -> exists e', Add e t x = Ok e' /\ refines e' (spec_add h t x).
Proof.
  intros H. pose proof H as (Hwf & Hs & Hl & Hv). unfold Add, spec_add. rewrite <- Hl, <- Hv.
  case_if; [by eauto|]. by apply addWithTime_refines.
Qed.

Definition empty_history (now duration : Z) : history :=
  {| samples := []; last_time := now; spacing := expected_interval duration |}.

Lemma newEntries_refines now d : refines (newEntries now d) (empty_history now d).
Proof. by repeat split. Qed.

(** Polls of a ring: pairs of an instant and a sample. *)
Definition add_samples (e : Entries) (ps : list (Z * T)) : result Empty_set Entries :=
  foldM (fun e p => Add e p.1 p.2) e ps.

Definition spec_add_samples (h : history) (ps : list (Z * T)) : history :=
  fold_left (fun h p => spec_add h p.1 p.2) ps h.

Lemma add_samples_refines ps e h :
  refines e h ->
  exists e', add_samples e ps = Ok e' /\ refines e' (spec_add_samples h ps).
Proof.
  revert e h; induction ps as [|[t x] ps IH]; intros e h H; [by eauto|].
  destruct (Add_refines e h t x H) as (e1 & H1 & R1).
  unfold add_samples. cbn [foldM fst snd]. rewrite H1. by apply IH.
Qed.

(** The polls a ring takes: those at least one interval after the last one
    taken. *)
Fixpoint taken (last d : Z) (ps : list (Z * T)) : list (Z * T) :=
  match ps with
  | [] => []
  | p :: ps' =>
      if time_Sub p.1 last <? d then taken last d ps' else p :: taken p.1 d ps'
  end.

Lemma spec_add_samples_taken ps l t d :
  samples (spec_add_samples {| samples := keep_last (Z.to_nat maxEntries) l; last_time := t; spacing := d |} ps)
  = keep_last (Z.to_nat maxEntries) (l ++ (taken t d ps).*2).
Proof.
  revert l t; induction ps as [|[u x] ps IH]; intros l t; [simpl; by rewrite app_nil_r|].
  unfold spec_add_samples. cbn [fold_left fst snd taken].
  unfold spec_add at 2. cbn [last_time spacing]. case_if; [by apply IH|].
  unfold spec_record. cbn [samples spacing]. rewrite keep_last_snoc by (unfold maxEntries; lia).
  etrans; [apply IH|]. simpl. by rewrite <- app_assoc.
Qed.

(** Consecutive samples taken are at least one interval apart. *)
Lemma taken_spaced last d ps i j p q :
  taken last d ps !! i = Some p -> taken last d ps !! j = Some q -> (j = S i) ->
  d <= time_Sub q.1 p.1.
Proof.
  intros Hp Hq ->. revert last i p q Hp Hq. induction ps as [|r ps IH]; intros last i p q; simpl; [done|].
  case_if; [by apply IH|]. reflect.
  destruct i as [|i]; simpl; [|by apply IH].
  intros [= ->] Hq. clear IH.
  revert Hq. generalize (p.1) as u. clear. induction ps as [|r ps IH]; intros u; simpl; [done|].
  case_if; [by apply IH|]. reflect. by intros [= ->].
Qed.

(** Loading what was saved gives the same samples in a ring of the saved
    interval, whatever the clock. *)
Lemma add_all_refines l e h now n i :
  refines e h ->
  exists e', add_all e now n i l = Ok e'
    /\ Entries_wf e' /\ interval e' = interval e
    /\ ring_samples e' = fold_left (fun s x => keep_last (Z.to_nat maxEntries) (s ++ [x])) l (samples h)
    /\ (l = [] \/ lastAdd e' = now + wrap64 (wrap64 (- (n - 1 - (i + Z.of_nat (length l) - 1))) * interval e)).
Proof.
  revert e h i; induction l as [|x l IH]; intros e h i R; simpl.
  - destruct R as (Hwf & Hs & _). eauto 10.
  - destruct (addWithTime_refines e h (now + wrap64 (wrap64 (- (n - 1 - i)) * interval e)) x R)
      as (e1 & H1 & R1).
    assert (interval e1 = interval e) as Hi by (destruct R1 as (_ & _ & _ & ->), R as (_ & _ & _ & ->); done).
    rewrite H1. simpl. destruct (IH e1 _ (i + 1) R1) as (e' & Ha & Hwf & Hv & Hs & Hl).
    exists e'. rewrite Ha, Hv, Hs, Hi. split_and!; auto. right.
    destruct Hl as [-> | ->].
    + simpl in Ha. injection Ha as <-. destruct R1 as (_ & _ & -> & _). simpl.
      do 4 f_equal. lia.
    + rewrite Hi. do 4 f_equal. lia.
Qed.

Lemma fold_keep_last (l s : list T) :
  (length s + length l <= Z.to_nat maxEntries)%nat ->
  fold_left (fun s x => keep_last (Z.to_nat maxEntries) (s ++ [x])) l s = s ++ l.
Proof.
  revert s; induction l as [|x l IH]; intros s H; simpl in *; [by rewrite app_nil_r|].
  rewrite keep_last_short by (rewrite length_app; simpl; lia).
  rewrite IH by (rewrite length_app; simpl; lia). by rewrite <- app_assoc.
Qed.

Lemma fresh_refines : refines fresh {| samples := []; last_time := zero_time; spacing := 0 |}.
Proof. by repeat split. Qed.

Lemma refines_samples_length e : Entries_wf e -> (length (ring_samples e) <= Z.to_nat maxEntries)%nat.
Proof.
  intros (Hlen & Hi & Hc & Hic). unfold ring_samples. case_if; reflect.
  - rewrite length_take. lia.
  - rewrite length_app, length_take, length_drop. lia.
Qed.

End entries.

Arguments Entries : clear implicits.
Arguments entriesJSON : clear implicits.
Arguments history : clear implicits.

(** ** Periods: one ring per time span *)

Abbreviation Filter := bytes.

Definition MetricsPeriod5m : Filter := "5m".
Definition MetricsPeriod15m : Filter := "15m".
Definition MetricsPeriod1h : Filter := "1h".
Definition MetricsPeriod1d : Filter := "1d".
Definition MetricsPeriod1mo : Filter := "1mo".

Definition Duration5m : Z := 5 * Minute.
Definition Duration15m : Z := 15 * Minute.
Definition Duration1h : Z := 1 * Hour.
Definition Duration1d : Z := 24 * Hour.
Definition Duration30d : Z := 30 * 24 * Hour.

(** The map [durations]; [NewPeriod] creates its rings from the same pairs. *)
Definition durations : gmap Filter Z :=
  list_to_map [(MetricsPeriod5m, Duration5m); (MetricsPeriod15m, Duration15m);
               (MetricsPeriod1h, Duration1h); (MetricsPeriod1d, Duration1d);
               (MetricsPeriod1mo, Duration30d)].

#[local] Opaque durations.

(** A range over the map [src] that sets the key of every iteration in another
    map; it ends at the first panic. *)
Definition assign_all {A C} (f : Filter -> A -> result Empty_set C) (acc : gmap Filter C)
    (src : gmap Filter A) : result Empty_set (gmap Filter C) :=
  foldM (fun acc kv => v ← f kv.1 kv.2; Ok (<[kv.1 := v]> acc)) acc (map_to_list src).

(** A range whose body changes what the values of the map point to. *)
Definition for_each {A} (f : Filter -> A -> result Empty_set A) (m : gmap Filter A)
    : result Empty_set (gmap Filter A) :=
  assign_all f m m.

(** Access through a pointer that may be nil. *)
Definition deref {A C} (f : A -> result Empty_set C) (o : option A) : result Empty_set C :=
  match o with Some a => f a | None => Panic NilDereference end.

Section period.
Context {T : Type}.
Variables (zero : T) (zero_time : Z).

(** A nil [*Entries] arises when a file says [null]. *)
Abbreviation Period := (gmap Filter (option (Entries T))).

(** [now k] is the clock when the ring of [k] is created. *)
Definition NewPeriod (now : Filter -> Z) : Period :=
  map_imap (fun k d => Some (Some (newEntries zero (now k) d))) durations.

Definition Period_Add (p : Period) (now : Z) (info : T) : result Empty_set Period :=
  for_each (fun _ => deref (fun e => Some <$> Add e now info)) p.

Definition Period_Get (p : Period) (filter : Filter) : result Empty_set (list T * bool) :=
  match p !! filter with
  | None => Ok ([], false)
  | Some o => l ← deref (Get zero) o; Ok (l, true)
  end.

Definition Total (p : Period) : result Empty_set Z :=
  foldM (fun total kv => deref (fun e => Ok (total + count e)) kv.2) 0 (map_to_list p).

Definition ValidateAndFixIntervals (p : Period) : result Empty_set Period :=
  for_each (fun filter o =>
    match durations !! filter with
    | Some d => deref (fun e => Ok (Some (if negb (validateInterval e d) then fixInterval e d else e))) o
    | None => Ok o
    end) p.

(** The document of a period: a null map, or an object whose values may be
    null. Decoding returns what was decoded and whether it succeeded. *)
Definition periodJSON : Type := option (gmap Filter (option (entriesJSON T))).

Class PeriodCodec := {
  period_encode : gmap Filter (option (entriesJSON T)) -> bytes;
  period_decode : bytes -> periodJSON * option bytes
}.

Context `{PeriodCodec}.

(** What the encoder sees of a period: [MarshalJSON] of every ring. *)
Definition snapshot (p : Period) : result Empty_set (gmap Filter (option (entriesJSON T))) :=
  assign_all (fun _ o =>
    match o with None => Ok None | Some e => Some <$> to_JSON zero e end) ∅ p.

(** Decoding into a period: every key of the document gets a newly allocated
    ring; [now k] is the clock when the ring of [k] is read. *)
Definition decode_into (now : Filter -> Z) (doc : periodJSON) (p : Period) : result Empty_set Period :=
  match doc with
  | None => Ok ∅
  | Some m =>
      assign_all (fun k o =>
        match o with
        | None => Ok None
        | Some v => Some <$> from_JSON (now k) v (fresh zero zero_time)
        end) p m
  end.

(** [load]: [content] is the file, or the error of reading it. *)
Definition load (content : bytes + bytes) (now : Filter -> Z) (p : Period)
    : result Empty_set (Period * option bytes) :=
  match content with
  | inr err => Ok (p, Some err)
  | inl [] => Ok (p, None)
  | inl data =>
      let (doc, err) := period_decode data in
      p' ← decode_into now doc p;
      match err with
      | Some err => Ok (p', Some err)
      | None => p'' ← ValidateAndFixIntervals p'; Ok (p'', None)
      end
  end.

(** How writing the file may go: opening fails, encoding stops after some
    bytes, or the document is written. *)
Inductive save_outcome :=
  | OpenFails (err : bytes)
  | EncodeFails (written : nat) (err : bytes)
  | Saved.

(** The file after [save] and the error. *)
Definition save (p : Period) (disk : option bytes) (o : save_outcome)
    : result Empty_set (option bytes * option bytes) :=
  match o with
  | OpenFails err => Ok (disk, Some err)
  | EncodeFails n err => m ← snapshot p; Ok (Some (take n (period_encode m)), Some err)
  | Saved => m ← snapshot p; Ok (Some (period_encode m), None)
  end.

(** *** Lemmas *)

Lemma assign_list {A C} (f : Filter -> A -> result Empty_set C) (g : Filter -> A -> C)
    (l : list (Filter * A)) (acc : gmap Filter C) :
  NoDup l.*1 -> (forall k v, (k, v) ∈ l -> f k v = Ok (g k v)) ->
  exists m, foldM (fun acc kv => v ← f kv.1 kv.2; Ok (<[kv.1 := v]> acc)) acc l = Ok m
    /\ forall k, m !! k = match (list_to_map l : gmap Filter A) !! k with
                          | Some v => Some (g k v) | None => acc !! k end.
Proof.
  revert acc; induction l as [|[k v] l IH]; intros acc Hnd Hf; simpl.
  { exists acc. split; [done|]. intros k. by rewrite lookup_empty. }
  apply NoDup_cons in Hnd as [Hk Hnd].
  rewrite (Hf k v) by (apply elem_of_cons; by left). simpl.
  destruct (IH (<[k := g k v]> acc) Hnd) as (m & -> & Hm).
  { intros k' v' Hin. apply Hf. apply elem_of_cons. by right. }
  exists m. split; [done|]. intros k'. rewrite Hm.
  destruct (decide (k = k')) as [->|Hne].
  - rewrite lookup_insert_eq. rewrite (not_elem_of_list_to_map_1 l k') by done.
    by rewrite lookup_insert_eq.
  - by rewrite !lookup_insert_ne by done.
Qed.

(** A range loop whose body succeeds on every entry sets all of them. *)
Lemma assign_all_Ok {A C} (f : Filter -> A -> result Empty_set C) (g : Filter -> A -> C) acc m :
  (forall k v, m !! k = Some v -> f k v = Ok (g k v)) ->
  assign_all f acc m = Ok (map_imap (fun k v => Some (g k v)) m ∪ acc).
Proof.
  intros Hf. unfold assign_all.
  destruct (assign_list f g (map_to_list m) acc) as (m' & -> & Hm').
  - apply NoDup_fst_map_to_list.
  - intros k v Hin. apply Hf. by apply elem_of_map_to_list.
  - f_equal. apply map_eq. intros k.
    rewrite Hm', list_to_map_to_list, lookup_union, map_lookup_imap.
    destruct (m !! k); simpl; by destruct (acc !! k).
Qed.

Lemma for_each_Ok {A} (f : Filter -> A -> result Empty_set A) (g : Filter -> A -> A) m :
  (forall k v, m !! k = Some v -> f k v = Ok (g k v)) ->
  for_each f m = Ok (map_imap (fun k v => Some (g k v)) m).
Proof.
  intros Hf. unfold for_each. rewrite (assign_all_Ok f g) by done. f_equal.
  apply map_eq. intros k. rewrite lookup_union, map_lookup_imap.
  by destruct (m !! k).
Qed.

(** A period is sound when it has exactly the rings of [durations], each
    well-formed and with the interval of its span. *)
Definition Period_wf (p : Period) : Prop :=
  forall k, match durations !! k with
            | Some d => exists e, p !! k = Some (Some e) /\ Entries_wf e /\ interval e = expected_interval d
            | None => p !! k = None
            end.

Lemma NewPeriod_wf now : Period_wf (NewPeriod now).
Proof.
  intros k. unfold NewPeriod. rewrite map_lookup_imap.
  destruct (durations !! k) as [d|]; simpl; [|done].
  eexists; split; [done|]. split; [|done]. apply (newEntries_refines zero).
Qed.

Lemma Period_wf_lookup p k o :
  Period_wf p -> p !! k = Some o ->
  exists d e, durations !! k = Some d /\ o = Some e /\ Entries_wf e /\ interval e = expected_interval d.
Proof.
  intros Hwf Hk. specialize (Hwf k). destruct (durations !! k) as [d|]; [|congruence].
  destruct Hwf as (e & He & ? & ?). exists d, e. split; [done|]. split; [congruence|done].
Qed.

Lemma refines_self (e : Entries T) : Entries_wf e ->
  refines e {| samples := ring_samples e; last_time := lastAdd e; spacing := interval e |}.
Proof. done. Qed.

(** One poll of a sound period: no panic, and every ring takes the sample on
    its own. *)
Lemma Period_Add_spec p now x :
  Period_wf p ->
  exists p', Period_Add p now x = Ok p' /\ Period_wf p'
    /\ forall k e, p !! k = Some (Some e) -> exists e', p' !! k = Some (Some e') /\ Add e now x = Ok e'.
Proof.
  intros Hwf.
  set (g := fun (_ : Filter) (o : option (Entries T)) =>
              match o with
              | Some e => Some (match Add e now x with Ok e' => e' | _ => e end)
              | None => None end).
  assert (forall k o, p !! k = Some o -> exists d e e', durations !! k = Some d
            /\ o = Some e /\ Add e now x = Ok e' /\ Entries_wf e'
            /\ interval e' = expected_interval d) as Hstep.
  { intros k o Hk. destruct (Period_wf_lookup p k o Hwf Hk) as (d & e & Hd & -> & He & Hi).
    destruct (Add_refines e _ now x (refines_self e He)) as (e' & Ha & Hwf' & _ & _ & Hsp).
    exists d, e, e'. split_and!; try done. rewrite Hsp. unfold spec_add. by case_if. }
  unfold Period_Add. rewrite (for_each_Ok _ g).
  2:{ intros k o Hk. destruct (Hstep k o Hk) as (d & e & e' & _ & -> & Ha & _). simpl.
      by rewrite Ha. }
  eexists; split; [done|]. split.
  - intros k. rewrite map_lookup_imap. specialize (Hwf k).
    destruct (durations !! k) as [d|] eqn:Hd; [|by rewrite Hwf].
    destruct Hwf as (e & He & _).
    destruct (Hstep k _ He) as (d' & e0 & e' & Hd' & [= <-] & Ha & Hw & Hi).
    rewrite He. simpl. rewrite Ha. exists e'. naive_solver.
  - intros k e He. rewrite map_lookup_imap, He. simpl.
    destruct (Hstep k _ He) as (d' & e0 & e' & Hd' & [= <-] & Ha & _).
    rewrite Ha. by exists e'.
Qed.

Definition Period_adds (p : Period) (ps : list (Z * T)) : result Empty_set Period :=
  foldM (fun p q => Period_Add p q.1 q.2) p ps.

Lemma Period_adds_spec ps p :
  Period_wf p ->
  exists p', Period_adds p ps = Ok p' /\ Period_wf p'
    /\ forall k e, p !! k = Some (Some e) ->
         exists e', p' !! k = Some (Some e') /\ add_samples e ps = Ok e'.
Proof.
  revert p; induction ps as [|[t x] ps IH]; intros p Hwf.
  { exists p. split_and!; [done..|]. intros k e He. by exists e. }
  destruct (Period_Add_spec p t x Hwf) as (p1 & H1 & Hwf1 & Hk1).
  destruct (IH p1 Hwf1) as (p' & H2 & Hwf2 & Hk2).
  exists p'. unfold Period_adds, add_samples. cbn [foldM fst snd]. rewrite H1.
  split_and!; [done..|]. intros k e He.
  destruct (Hk1 k e He) as (e1 & He1 & Ha1). destruct (Hk2 k e1 He1) as (e' & He' & Ha').
  exists e'. by rewrite Ha1.
Qed.

Lemma Period_Get_wf p k e :
  p !! k = Some (Some e) -> Entries_wf e -> Period_Get p k = Ok (ring_samples e, true).
Proof. intros Hk He. unfold Period_Get. rewrite Hk. simpl. by rewrite Get_samples. Qed.

(** What a sound period looks like in its file. *)
Definition ring_JSON (e : Entries T) : entriesJSON T :=
  {| ej_Entries := ring_samples e; ej_Interval := interval e |}.

Definition saved_rings (p : Period) : gmap Filter (option (entriesJSON T)) :=
  fmap (M := gmap Filter) (option_map ring_JSON) p.

Lemma snapshot_wf p : Period_wf p -> snapshot p = Ok (saved_rings p).
Proof.
  intros Hwf. unfold snapshot.
  rewrite (assign_all_Ok _ (fun _ => option_map ring_JSON)).
  - f_equal. rewrite map_union_empty. apply map_eq. intros k. rewrite map_lookup_imap.
    unfold saved_rings. rewrite lookup_fmap. by destruct (p !! k).
  - intros k o Hk. destruct (Period_wf_lookup p k o Hwf Hk) as (d & e & _ & -> & He & _).
    unfold to_JSON. by rewrite Get_samples.
Qed.

(** Reading one ring back. *)
Lemma from_JSON_samples now e :
  Entries_wf e -> 
  exists e', from_JSON now (ring_JSON e)
               (fresh zero zero_time) = Ok e'
    /\ Entries_wf e' /\ ring_samples e' = ring_samples e.
Proof.
  intros He. unfold from_JSON. simpl. pose proof (refines_samples_length e He) as Hlen.
  destruct (ring_samples e) as [|x l] eqn:E.
  { eexists; split; [done|]. split; [|done]. apply (fresh_refines zero zero_time). }
  rewrite (proj2 (Z.ltb_ge _ _)) by (unfold maxEntries in *; lia). rewrite <- E in *. clear E.
  set (f := {| entries := zeros zero; index := 0; count := 0; interval := interval e; lastAdd := zero_time |}).
  destruct (add_all_refines (ring_samples e) f
              {| samples := []; last_time := zero_time; spacing := interval e |} now
              (Z.of_nat (length (ring_samples e))) 0) as (e' & Ha & Hw & _ & Hs & _).
  { by repeat split. }
  exists e'. split_and!; [done..|]. rewrite Hs. simpl. by rewrite fold_keep_last.
Qed.

(** The rings of a period without their intervals. *)
Definition has_rings (p : Period) (rings : Filter -> list T) : Prop :=
  forall k, match durations !! k with
            | Some _ => exists e, p !! k = Some (Some e) /\ Entries_wf e /\ ring_samples e = rings k
            | None => p !! k = None
            end.

Lemma has_rings_Get p q rings k :
  has_rings p rings -> has_rings q rings -> Period_Get p k = Period_Get q k.
Proof.
  intros Hp Hq. specialize (Hp k). specialize (Hq k).
  destruct (durations !! k) as [d|].
  - destruct Hp as (e & He & Hwe & Hr), Hq as (e' & He' & Hwe' & Hr').
    by rewrite (Period_Get_wf p k e), (Period_Get_wf q k e'), Hr, Hr'.
  - unfold Period_Get. by rewrite Hp, Hq.
Qed.

Definition rings_of (p : Period) (k : Filter) : list T :=
  match p !! k with Some (Some e) => ring_samples e | _ => [] end.

Lemma Period_wf_has_rings p : Period_wf p -> has_rings p (rings_of p).
Proof.
  intros Hwf k. specialize (Hwf k). destruct (durations !! k) as [d|]; [|done].
  destruct Hwf as (e & He & Hw & _). exists e. unfold rings_of. by rewrite He.
Qed.

(** Decoding the file of a sound period over any sound period. *)
Lemma decode_saved p q now :
  Period_wf p -> Period_wf q ->
  exists p1, decode_into now (Some (saved_rings p)) q = Ok p1 /\ has_rings p1 (rings_of p).
Proof.
  intros Hp Hq. cbn [decode_into].
  set (g := fun (k : Filter) (o : option (entriesJSON T)) =>
     match o with
     | Some v => match from_JSON (now k) v (fresh zero zero_time) with Ok e => Some e | _ => None end
     | None => None end).
  assert (forall k o, saved_rings p !! k = Some o -> exists e e', p !! k = Some (Some e)
     /\ o = Some (ring_JSON e) /\ from_JSON (now k) (ring_JSON e) (fresh zero zero_time) = Ok e'
     /\ Entries_wf e' /\ ring_samples e' = ring_samples e) as Hg.
  { intros k o Hk. unfold saved_rings in Hk. rewrite lookup_fmap in Hk.
    destruct (p !! k) as [o'|] eqn:Hpk; [|done]. simpl in Hk. injection Hk as <-.
    destruct (Period_wf_lookup p k o' Hp Hpk) as (d & e & Hd & -> & He & _).
    destruct (from_JSON_samples (now k) e He) as (e' & ? & ? & ?). by exists e, e'. }
  rewrite (assign_all_Ok _ g).
  2:{ intros k o Hk. destruct (Hg k o Hk) as (e & e' & _ & -> & Hf & _). simpl. by rewrite Hf. }
  eexists; split; [done|]. intros k. pose proof (Hp k) as Hpk. pose proof (Hq k) as Hqk.
  rewrite lookup_union, map_lookup_imap. destruct (durations !! k) as [d|].
  - destruct Hpk as (e & He & _).
    assert (saved_rings p !! k = Some (Some (ring_JSON e))) as Hs
      by (unfold saved_rings; by rewrite lookup_fmap, He).
    destruct (Hg k _ Hs) as (e0 & e' & He0 & Ho & Hf & Hw' & Hr').
    assert (e0 = e) as -> by congruence.
    exists e'. unfold rings_of. rewrite Hs, He. simpl. rewrite Hf. by destruct (q !! k).
  - unfold saved_rings. by rewrite lookup_fmap, Hpk, Hqk.
Qed.

(** [ValidateAndFixIntervals] repairs the intervals and nothing else. *)
Lemma ValidateAndFixIntervals_spec p rings :
  has_rings p rings ->
  exists p', ValidateAndFixIntervals p = Ok p' /\ Period_wf p' /\ has_rings p' rings.
Proof.
  intros Hp. unfold ValidateAndFixIntervals.
  set (fixed := fun (k : Filter) (o : option (Entries T)) =>
     match durations !! k, o with
     | Some d, Some e => Some (if negb (validateInterval e d) then fixInterval e d else e)
     | _, _ => o end).
  rewrite (for_each_Ok _ fixed).
  2:{ intros k o Hk. unfold fixed. specialize (Hp k). destruct (durations !! k) as [d|]; [|done].
      destruct Hp as (e & He & _). rewrite Hk in He. by injection He as ->. }
  eexists; split; [done|].
  assert (forall k d e, durations !! k = Some d -> p !! k = Some (Some e) -> Entries_wf e ->
     exists e', map_imap (fun k v => Some (fixed k v)) p !! k = Some (Some e')
     /\ Entries_wf e' /\ ring_samples e' = ring_samples e /\ interval e' = expected_interval d) as Hfix.
  { intros k d e Hd He Hwe. rewrite map_lookup_imap, He. simpl. unfold fixed. rewrite Hd.
    unfold validateInterval. destruct (interval e =? expected_interval d) eqn:Ei; reflect; simpl.
    - by exists e.
    - by exists (fixInterval e d). }
  split; intros k; specialize (Hp k); specialize (Hfix k);
    destruct (durations !! k) as [d|]; try (rewrite map_lookup_imap, Hp; done);
    destruct Hp as (e & He & Hwe & Hr); destruct (Hfix d e eq_refl He Hwe) as (e' & ? & ? & ? & ?);
    exists e'; by rewrite <- ?Hr.
Qed.

Lemma load_saved p q now :
  Period_wf p -> Period_wf q -> period_encode (saved_rings p) <> [] ->
  period_decode (period_encode (saved_rings p)) = (Some (saved_rings p), None) ->
  exists p', load (inl (period_encode (saved_rings p))) now q = Ok (p', None) /\ Period_wf p'
    /\ forall k, Period_Get p' k = Period_Get p k.
Proof.
  intros Hp Hq Hne Hcodec. unfold load.
  destruct (period_encode (saved_rings p)) as [|c data] eqn:E; [done|]. rewrite Hcodec.
  destruct (decode_saved p q now Hp Hq) as (p1 & -> & H1).
  cbn [mbind result_bind].
  destruct (ValidateAndFixIntervals_spec p1 _ H1) as (p2 & -> & Hw & H2).
  cbn [mbind result_bind]. exists p2. split_and!; [done..|]. intros k.
  eapply has_rings_Get; [done|]. by apply Period_wf_has_rings.
Qed.

(** ** The poller *)

Definition PollInterval : Z := 1 * Second.
Definition gatherErrsInterval : Z := 30 * Second.
Definition saveInterval : Z := 5 * Minute.
Definition gatherErrsTicks : Z := gatherErrsInterval ÷ PollInterval.
Definition saveTicks : Z := saveInterval ÷ PollInterval.

(** An error and how often it was seen; errors are told apart by their text. *)
Definition pollErr : Type := bytes * Z.

(** The poller, the file it saves to, the ticks so far and the reports logged. *)
Record Poller := {
  po_period : Period;
  po_lastResult : T;
  po_errs : list pollErr;
  po_tickCount : Z;
  po_disk : option bytes;
  po_reports : list (list pollErr)
}.

Fixpoint count_err (errs : list pollErr) (err : bytes) : option (list pollErr) :=
  match errs with
  | [] => None
  | (e, n) :: errs' =>
      if bool_decide (e = err) then Some ((e, n + 1) :: errs')
      else (fun l => (e, n) :: l) <$> count_err errs' err
  end.

Definition appendErr (errs : list pollErr) (err : bytes) : list pollErr :=
  match errs with
  | [] => [(err, 1)]
  | _ => match count_err errs err with
         | Some errs' => errs'
         | None => errs ++ [(err, 1)]
         end
  end.

Definition gatherErrs (errs : list pollErr) : option (list pollErr) :=
  match errs with [] => None | _ => Some errs end.

(** [pollWithTimeout] when the poll at [now] returns [r]. *)
Definition pollWithTimeout (p : Poller) (now : Z) (r : T + bytes) : result Empty_set Poller :=
  match r with
  | inr err =>
      Ok {| po_period := po_period p; po_lastResult := po_lastResult p;
            po_errs := appendErr (po_errs p) err; po_tickCount := po_tickCount p;
            po_disk := po_disk p; po_reports := po_reports p |}
  | inl data =>
      per ← Period_Add (po_period p) now data;
      Ok {| po_period := per; po_lastResult := data; po_errs := po_errs p;
            po_tickCount := po_tickCount p; po_disk := po_disk p; po_reports := po_reports p |}
  end.

(** What the environment does at one tick: the clock, the result of the poll
    and how a save would go. *)
Record tick_env := { te_now : Z; te_poll : T + bytes; te_save : save_outcome }.

Definition report (p : Poller) : Poller :=
  {| po_period := po_period p; po_lastResult := po_lastResult p; po_errs := [];
     po_tickCount := po_tickCount p; po_disk := po_disk p;
     po_reports := match gatherErrs (po_errs p) with
                   | Some errs => po_reports p ++ [errs]
                   | None => po_reports p end |}.

Definition save_poller (p : Poller) (o : save_outcome) : result Empty_set (Poller * option bytes) :=
  r ← save (po_period p) (po_disk p) o;
  Ok ({| po_period := po_period p; po_lastResult := po_lastResult p; po_errs := po_errs p;
         po_tickCount := po_tickCount p; po_disk := r.1; po_reports := po_reports p |}, r.2).

Definition note_err (p : Poller) (err : bytes) : Poller :=
  {| po_period := po_period p; po_lastResult := po_lastResult p; po_errs := appendErr (po_errs p) err;
     po_tickCount := po_tickCount p; po_disk := po_disk p; po_reports := po_reports p |}.

Definition count_tick (p : Poller) : Poller :=
  {| po_period := po_period p; po_lastResult := po_lastResult p; po_errs := po_errs p;
     po_tickCount := po_tickCount p + 1; po_disk := po_disk p; po_reports := po_reports p |}.

(** One iteration of the loop of [Start]. *)
Definition tick (p : Poller) (te : tick_env) : result Empty_set Poller :=
  p ← pollWithTimeout p (te_now te) (te_poll te);
  let p := count_tick p in
  let p := if Z.rem (po_tickCount p) gatherErrsTicks =? 0 then report p else p in
  if Z.rem (po_tickCount p) saveTicks =? 0 then
    r ← save_poller p (te_save te);
    Ok (match r.2 with Some err => note_err r.1 err | None => r.1 end)
  else Ok p.

(** [Start]: load the file, poll once, tick, and save when the task ends. *)
Definition Start (content : bytes + bytes) (load_clock : Filter -> Z) (first : tick_env)
    (ticks : list tick_env) (last : save_outcome) (p : Poller) : result Empty_set Poller :=
  l ← load content load_clock (po_period p);
  p ← pollWithTimeout {| po_period := l.1; po_lastResult := po_lastResult p; po_errs := po_errs p;
                         po_tickCount := 0; po_disk := po_disk p; po_reports := po_reports p |}
        (te_now first) (te_poll first);
  p ← foldM tick p ticks;
  r ← save_poller p last;
  Ok r.1.

(** *** What the poller reports *)

(** How often an error is counted in a report. *)
Definition reported (err : bytes) (errs : list pollErr) : Z :=
  sum_Z (map (fun e => if bool_decide (e.1 = err) then e.2 else 0) errs).

Definition reported_total (err : bytes) (p : Poller) : Z :=
  sum_Z (map (reported err) (po_reports p)) + reported err (po_errs p).

(** The errors of one tick, given the number of the tick. *)
Definition tick_errors (err : bytes) (n : Z) (te : tick_env) : Z :=
  (match te_poll te with inr e => if bool_decide (e = err) then 1 else 0 | inl _ => 0 end)
  + (if Z.rem n saveTicks =? 0 then
       match te_save te with
       | OpenFails e | EncodeFails _ e => if bool_decide (e = err) then 1 else 0
       | Saved => 0
       end
     else 0).

Fixpoint errors_seen (err : bytes) (n : Z) (ticks : list tick_env) : Z :=
  match ticks with
  | [] => 0
  | te :: ticks' => tick_errors err (n + 1) te + errors_seen err (n + 1) ticks'
  end.

Lemma count_err_reported errs e errs' err :
  count_err errs e = Some errs' ->
  reported err errs' = reported err errs + if bool_decide (e = err) then 1 else 0.
Proof.
  unfold reported. revert errs'; induction errs as [|[e1 n] errs IH]; intros errs'; simpl; [done|].
  destruct (bool_decide (e1 = e)) eqn:E; reflect.
  - intros [= <-]. subst. simpl. case_if; lia.
  - intros Hc. destruct (count_err errs e) as [l|]; [|done]. injection Hc as <-. simpl.
    rewrite (IH l eq_refl). lia.
Qed.

Lemma appendErr_reported errs e err :
  reported err (appendErr errs e) = reported err errs + if bool_decide (e = err) then 1 else 0.
Proof.
  unfold appendErr. destruct errs as [|x errs].
  { unfold reported, sum_Z. cbn [map foldr fst snd]. case_if; lia. }
  destruct (count_err (x :: errs) e) as [l|] eqn:E; [by apply count_err_reported|].
  unfold reported. rewrite map_app, sum_Z_app. f_equal.
  unfold sum_Z. cbn [map foldr fst snd]. case_if; lia.
Qed.

Lemma report_total err p : reported_total err (report p) = reported_total err p.
Proof.
  unfold reported_total, report, gatherErrs; simpl. destruct (po_errs p); simpl; [done|].
  rewrite map_app, sum_Z_app. simpl. unfold reported at 3. simpl. lia.
Qed.

Lemma tick_spec p te err :
  Period_wf (po_period p) ->
  exists p', tick p te = Ok p' /\ Period_wf (po_period p')
    /\ po_tickCount p' = po_tickCount p + 1
    /\ reported_total err p' = reported_total err p + tick_errors err (po_tickCount p + 1) te.
Proof.
  intros Hwf. unfold tick, pollWithTimeout, tick_errors.
  assert (exists p1, pollWithTimeout p (te_now te) (te_poll te) = Ok p1 /\ Period_wf (po_period p1)
    /\ po_tickCount p1 = po_tickCount p
    /\ reported_total err p1 = reported_total err p
         + match te_poll te with inr e => if bool_decide (e = err) then 1 else 0 | inl _ => 0 end)
    as (p1 & H1 & Hw1 & Hn1 & Hr1).
  { unfold pollWithTimeout. destruct (te_poll te) as [x|e].
    - destruct (Period_Add_spec (po_period p) (te_now te) x Hwf) as (per & -> & Hw & _).
      eexists; split; [done|]. split_and!; try done. unfold reported_total; simpl. lia.
    - eexists; split; [done|]. split_and!; try done. unfold reported_total; simpl.
      rewrite appendErr_reported. lia. }
  fold (pollWithTimeout p (te_now te) (te_poll te)). rewrite H1. cbn [mbind result_bind].
  set (p2 := if _ =? 0 then report (count_tick p1) else count_tick p1).
  assert (po_period p2 = po_period p1 /\ po_tickCount p2 = po_tickCount p + 1
          /\ reported_total err p2 = reported_total err p1) as (Hp2 & Hn2 & Hr2).
  { unfold p2. case_if; rewrite ?report_total; simpl; rewrite ?Hn1; done. }
  clearbody p2. rewrite Hn2.
  destruct (Z.rem (po_tickCount p + 1) saveTicks =? 0); [|exists p2; rewrite Hp2; split_and!; try done; lia].
  unfold save_poller, save. rewrite Hp2.
  destruct (te_save te); rewrite ?snapshot_wf by done; cbn [mbind result_bind fst snd];
    eexists; (split; [done|]); cbn [note_err po_period po_tickCount fst snd];
    (split_and!; [by rewrite ?Hp2|done|]);
    unfold reported_total in *; cbn [note_err po_reports po_errs]; rewrite ?appendErr_reported; lia.
Qed.

Lemma ticks_spec ticks p err :
  Period_wf (po_period p) ->
  exists p', foldM tick p ticks = Ok p' /\ Period_wf (po_period p')
    /\ po_tickCount p' = po_tickCount p + Z.of_nat (length ticks)
    /\ reported_total err p' = reported_total err p + errors_seen err (po_tickCount p) ticks.
Proof.
  revert p; induction ticks as [|te ticks IH]; intros p Hwf.
  { exists p. simpl. split_and!; try done; lia. }
  destruct (tick_spec p te err Hwf) as (p1 & H1 & Hw1 & Hn1 & Hr1).
  destruct (IH p1 Hw1) as (p' & H2 & Hw2 & Hn2 & Hr2).
  exists p'. cbn [foldM errors_seen length]. rewrite H1. rewrite Hn1 in *. split_and!; try done; lia.
Qed.

Definition NewPoller (now : Filter -> Z) : Poller :=
  {| po_period := NewPeriod now; po_lastResult := zero; po_errs := []; po_tickCount := 0;
     po_disk := None; po_reports := [] |}.

End period.

Arguments PeriodCodec : clear implicits.

(** ** Theorems *)

(** C7: A ring refines the abstract history: whatever is added and whenever,
    no access is out of range, the indices stay within bounds, and [Get]
    returns the last 100 of the samples that came at least one interval after
    the sample taken before, oldest first. *)
Theorem ring_refines {T} (zero : T) (now d : Z) (ps : list (Z * T)) :
  exists e, add_samples (newEntries zero now d) ps = Ok e
    /\ Get zero e = Ok (keep_last 100 (taken now (expected_interval d) ps).*2)
    /\ 0 <= index e < maxEntries /\ 0 <= count e <= maxEntries
    /\ forall i p q, taken now (expected_interval d) ps !! i = Some p ->
         taken now (expected_interval d) ps !! S i = Some q ->
         Second <= expected_interval d <= time_Sub q.1 p.1.
Proof.
  destruct (add_samples_refines ps _ _ (newEntries_refines zero now d)) as (e & He & Hwf & Hs & _).
  exists e. split; [done|]. rewrite Get_samples by done. rewrite Hs.
  unfold empty_history. rewrite (spec_add_samples_taken ps []). split; [done|].
  destruct Hwf as (_ & Hi & Hc & _). split_and!; try lia.
  intros i p q Hp Hq. pose proof (taken_spaced _ _ _ i (S i) p q Hp Hq eq_refl).
  unfold expected_interval in *. lia.
Qed.

(** What the poller saves it reads back: after any polls, loading the file
    written by [save] into a new period gives, for every time span, the same
    samples, with the intervals right, and no panic on the way.  The JSON
    library must decode the document it encoded. *)
Theorem save_load_roundtrip {T} (zero : T) (zero_time : Z) `{!PeriodCodec T} clk clk' clk'' ps disk :
  (forall p, Period_adds (NewPeriod zero clk) ps = Ok p ->
     period_encode (saved_rings p) <> []
     /\ period_decode (period_encode (saved_rings p)) = (Some (saved_rings p), None)) ->
  exists p data p', Period_adds (NewPeriod zero clk) ps = Ok p
    /\ save zero p disk Saved = Ok (Some data, None)
    /\ load zero zero_time (inl data) clk' (NewPeriod zero clk'') = Ok (p', None)
    /\ Period_wf p' /\ forall k, Period_Get zero p' k = Period_Get zero p k.
Proof.
  intros Hcodec.
  destruct (Period_adds_spec ps _ (NewPeriod_wf zero clk)) as (p & Hp & Hwf & _).
  destruct (Hcodec p Hp) as [Hne Hdec].
  destruct (load_saved zero zero_time p (NewPeriod zero clk'') clk' Hwf (NewPeriod_wf zero clk'') Hne Hdec)
    as (p' & Hl & Hw & Hg).
  exists p, (period_encode (saved_rings p)), p'. unfold save. rewrite snapshot_wf by done. done.
Qed.

(** Every failed poll and every failed save is reported exactly once:
    through any run of the poller, the counts in the reports logged and in the
    pending list add up to the failures seen, and the run never panics. *)
Theorem poller_counts {T} (zero : T) (zero_time : Z) `{!PeriodCodec T}
    clk clk' missing first ticks last err :
  exists p p', pollWithTimeout (NewPoller zero clk) (te_now first) (te_poll first) = Ok p
    /\ Start zero zero_time (inr missing) clk' first ticks last (NewPoller zero clk) = Ok p'
    /\ reported_total err p' = reported_total err p + errors_seen err 0 ticks
    /\ po_tickCount p' = Z.of_nat (length ticks).
Proof.
  assert (exists p, pollWithTimeout (NewPoller zero clk) (te_now first) (te_poll first) = Ok p
    /\ Period_wf (po_period p) /\ po_tickCount p = 0) as (p & Hp & Hwf & Hn).
  { unfold pollWithTimeout. destruct (te_poll first) as [x|e].
    - destruct (Period_Add_spec (NewPeriod zero clk) (te_now first) x (NewPeriod_wf zero clk))
        as (per & Ha & Hw & _).
      cbn [po_period NewPoller]. rewrite Ha.
      eexists; split; [reflexivity|]. split; [exact Hw|reflexivity].
    - eexists; split; [reflexivity|]. split; [exact (NewPeriod_wf zero clk)|reflexivity]. }
  destruct (ticks_spec zero ticks p err Hwf) as (p1 & H1 & Hw1 & Hn1 & Hr1).
  exists p. unfold Start. cbn [load mbind result_bind fst].
  change {| po_period := po_period _; po_lastResult := _; po_errs := _; po_tickCount := 0;
            po_disk := _; po_reports := _ |} with (NewPoller zero clk).
  rewrite Hp. cbn [mbind result_bind]. rewrite H1. cbn [mbind result_bind].
  unfold save_poller, save. rewrite Hn in *.
  destruct last; rewrite ?snapshot_wf by done; cbn [mbind result_bind fst];
    (eexists; split; [reflexivity|]; split; [reflexivity|]; split; [exact Hr1|exact Hn1]).
Qed.

(** Reading any document into a new ring succeeds. *)
Lemma from_JSON_Ok {T} (zero : T) zero_time now v :
  exists e, from_JSON now v (fresh zero zero_time) = Ok e.
Proof.
  unfold from_JSON. destruct (ej_Entries v) as [|x l]; [by eexists|]. cbv zeta.
  edestruct (add_all_refines (if maxEntries <? Z.of_nat (length (x :: l))
               then take (Z.to_nat maxEntries) (x :: l) else x :: l)
      {| entries := zeros zero; index := 0; count := 0; interval := ej_Interval v; lastAdd := zero_time |}
      {| samples := []; last_time := zero_time; spacing := ej_Interval v |}) as (e & He & _).
  - by repeat split.
  - by exists e.
Qed.

(** A file that says [null] for a known span makes loading panic: the nil ring
    is dereferenced when its interval is validated. *)
Lemma null_ring_panics {T} (zero : T) (zero_time : Z) `{!PeriodCodec T} data m k d clk p :
  data <> [] -> period_decode data = (Some m, None) ->
  m !! k = Some None -> durations !! k = Some d ->
  load zero zero_time (inl data) clk p = Panic NilDereference.
Proof.
  intros Hne Hdec Hm Hd. unfold load. destruct data; [done|]. rewrite Hdec. cbn [decode_into].
  rewrite (assign_all_Ok _ (fun k o => match o with
     | Some v => match from_JSON (clk k) v (fresh zero zero_time) with Ok e => Some e | _ => None end
     | None => None end)).
  2:{ intros k' [v|] _; [|done]. by destruct (from_JSON_Ok zero zero_time (clk k') v) as [e ->]. }
  cbn [mbind result_bind]. unfold ValidateAndFixIntervals, for_each, assign_all.
  set (p1 := _ ∪ p).
  assert ((k, None) ∈ map_to_list p1) as Hin.
  { apply elem_of_map_to_list. unfold p1. rewrite lookup_union, map_lookup_imap, Hm. simpl.
    by destruct (p !! k). }
  generalize dependent (map_to_list p1). intros l Hin. generalize p1 at 1 as acc.
  induction l as [|[k' o] l IH]; intros acc; [by apply elem_of_nil in Hin|].
  cbn [foldM fst snd]. apply elem_of_cons in Hin as [[= <- <-]|Hin].
  - by rewrite Hd.
  - destruct (durations !! k') as [d'|]; [|apply (IH Hin)].
    destruct o as [e|]; [|done]. apply (IH Hin).
Qed.

(** ** Witnesses *)

#[export] Instance entriesJSON_eq_dec {T} `{EqDecision T} : EqDecision (entriesJSON T).
Proof. solve_decision. Defined.

(** A codec for rings of characters: one `name:interval:samples;` per ring. *)
Definition demo_encode (m : gmap Filter (option (entriesJSON ascii))) : bytes :=
  concat (map (fun kv : Filter * option (entriesJSON ascii) =>
    match kv.2 with
    | Some v => kv.1 ++ B ":" ++ Itoa (ej_Interval v) ++ B ":" ++ ej_Entries v ++ B ";"
    | None => kv.1 ++ B ";"
    end) (map_to_list m)).

Definition demo_decode_ring (s : bytes) : Filter * option (entriesJSON ascii) :=
  match Split s ":" with
  | [k; i; l] => (k, (fun n => {| ej_Entries := l; ej_Interval := n |}) <$> Atoi i)
  | _ => (s, None)
  end.

#[export] Instance demo_codec : PeriodCodec ascii := {|
  period_encode := demo_encode;
  period_decode s := (Some (list_to_map (map demo_decode_ring (take (length (Split s ";") - 1) (Split s ";")))), None)
|}.

Lemma save_load_roundtrip_witness :
  exists p data p', Period_adds (NewPeriod "0"%char (fun _ => 0)) [(4 * Second, "a"%char); (6 * Second, "b"%char); (20 * Second, "c"%char)] = Ok p
    /\ save "0"%char p None Saved = Ok (Some data, None)
    /\ load "0"%char 0 (inl data) (fun _ => 7) (NewPeriod "0"%char (fun _ => 9)) = Ok (p', None)
    /\ Period_wf p' /\ forall k, Period_Get "0"%char p' k = Period_Get "0"%char p k.
Proof.
  apply (save_load_roundtrip "0"%char 0 (fun _ => 0) (fun _ => 7) (fun _ => 9)). intros p Hp.
  assert (match Period_adds (NewPeriod "0"%char (fun _ => 0))
                [(4 * Second, "a"%char); (6 * Second, "b"%char); (20 * Second, "c"%char)] with
          | Ok p => period_encode (saved_rings p) <> []
                    /\ period_decode (period_encode (saved_rings p)) = (Some (saved_rings p), None)
          | _ => False end) as H by decide_closed.
  by rewrite Hp in H.
Defined.

(** The 5-minute ring of that run holds the samples at 4 and 20 seconds. *)
Example ring_demo :
  (p ← Period_adds (NewPeriod "0"%char (fun _ => 0))
         [(4 * Second, "a"%char); (6 * Second, "b"%char); (20 * Second, "c"%char)];
   Period_Get "0"%char p MetricsPeriod5m) = Ok (B "ac", true).
Proof. vm_compute. reflexivity. Qed.
