(* ===== verification/EventQueue.v ===== *)
(** * Watchers and the event queue

    Models internal/watcher/events (events.go: actions as bits, their masks and
    names; event_queue.go: the loop that collects events and flushes them at
    ticks) and the translation of file system and Docker events
    (watcher/directory_watcher.go, docker_watcher.go).

    The loop's [select] is a step function on inputs; which case is taken when
    several are ready is the order of the inputs.  The callbacks transform a
    world and may panic; the queue is proved against any callbacks, so what is
    known of the world is what the callbacks were called with.  The handler of
    configuration changes is one instance (ConfigState). *)

From S2P Require Import Prelude GoStrings.

(** ** Events *)

(** Actions are the bits of a uint16. *)
Definition ActionFileWritten : Z := Z.shiftl 1 0.
Definition ActionFileCreated : Z := Z.shiftl 1 1.
Definition ActionFileDeleted : Z := Z.shiftl 1 2.
Definition ActionFileRenamed : Z := Z.shiftl 1 3.
Definition ActionContainerCreate : Z := Z.shiftl 1 4.
Definition ActionContainerStart : Z := Z.shiftl 1 5.
Definition ActionContainerUnpause : Z := Z.shiftl 1 6.
Definition ActionContainerKill : Z := Z.shiftl 1 7.
Definition ActionContainerStop : Z := Z.shiftl 1 8.
Definition ActionContainerPause : Z := Z.shiftl 1 9.
Definition ActionContainerDie : Z := Z.shiftl 1 10.
Definition ActionContainerDestroy : Z := Z.shiftl 1 11.
Definition ActionForceReload : Z := Z.shiftl 1 12.

Definition actionContainerStartMask : Z :=
  Z.lor (Z.lor ActionContainerCreate ActionContainerStart) ActionContainerUnpause.
Definition actionContainerStopMask : Z :=
  Z.lor (Z.lor ActionContainerKill ActionContainerStop) ActionContainerDie.

Inductive EventType := EventTypeDocker | EventTypeFile.

Record Event := MkEvent {
  ev_Type : EventType;
  ev_ActorName : bytes;
  ev_ActorID : bytes;
  ev_ActorAttributes : gmap bytes bytes;
  ev_Action : Z
}.

Definition IsContainerStart (a : Z) : bool := negb (Z.land a actionContainerStartMask =? 0).
Definition IsContainerStop (a : Z) : bool := negb (Z.land a actionContainerStopMask =? 0).
Definition IsContainerPause (a : Z) : bool := a =? ActionContainerPause.

(** The actions of the Docker API that the code names. *)
Inductive docker_Action :=
  | dockerActionCreate | dockerActionStart | dockerActionUnPause
  | dockerActionKill | dockerActionStop | dockerActionPause
  | dockerActionDie | dockerActionDestroy
  | dockerActionOther (name : bytes).

Definition DockerEventMap (a : docker_Action) : option Z :=
  match a with
  | dockerActionCreate => Some ActionContainerCreate
  | dockerActionStart => Some ActionContainerStart
  | dockerActionUnPause => Some ActionContainerUnpause
  | dockerActionKill => Some ActionContainerKill
  | dockerActionStop => Some ActionContainerStop
  | dockerActionPause => Some ActionContainerPause
  | dockerActionDie => Some ActionContainerDie
  | dockerActionDestroy => Some ActionContainerDestroy
  | dockerActionOther _ => None
  end.

Definition docker_actions : list docker_Action :=
  [dockerActionCreate; dockerActionStart; dockerActionUnPause; dockerActionKill;
   dockerActionStop; dockerActionPause; dockerActionDie; dockerActionDestroy].

Definition fileActionNameMap : list (Z * bytes) :=
  [(ActionFileWritten, B "written"); (ActionFileCreated, B "created");
   (ActionFileDeleted, B "deleted"); (ActionFileRenamed, B "renamed")].

Section names.
(** The texts of the Docker API's constants. *)
Variable docker_string : docker_Action -> bytes.

Definition actionNameMap : list (Z * bytes) :=
  omap (fun a => (fun v => (v, docker_string a)) <$> DockerEventMap a) docker_actions
  ++ fileActionNameMap.

(** A missing key gives the empty string. *)
Definition Action_String (a : Z) : bytes :=
  match list_find (fun p => p.1 = a) actionNameMap with
  | Some (_, p) => p.2
  | None => []
  end.

Definition Event_String (e : Event) : bytes :=
  Action_String (ev_Action e) ++ B " " ++ ev_ActorName e.
End names.

(** ** Where events come from *)

(** A message of the Docker event stream. *)
Record docker_Message := {
  msg_Action : docker_Action;
  msg_ActorID : bytes;
  msg_Attributes : gmap bytes bytes
}.

(** [handleEvent]: the event sent, if the action is known. *)
Definition handleEvent (m : docker_Message) : option Event :=
  action ← DockerEventMap (msg_Action m);
  Some {| ev_Type := EventTypeDocker; ev_ActorID := msg_ActorID m;
          ev_ActorAttributes := msg_Attributes m;
          ev_ActorName := default [] (msg_Attributes m !! B "name");
          ev_Action := action |}.

Definition reloadTrigger : Event :=
  {| ev_Type := EventTypeDocker; ev_Action := ActionForceReload; ev_ActorAttributes := ∅;
     ev_ActorName := []; ev_ActorID := [] |}.

Definition TrimPrefix (s p : bytes) : bytes :=
  if HasPrefix s p then drop (length p) s else s.

(** An event of the file system: a path and a set of operations. *)
Record fs_event := {
  fs_Name : bytes;
  fs_Write : bool; fs_Create : bool; fs_Remove : bool; fs_Rename : bool
}.

(** The event the directory watcher [dir] derives; none for hidden files and
    for other operations. *)
Definition translate (dir : bytes) (e : fs_event) : option Event :=
  let relPath := TrimPrefix (TrimPrefix (fs_Name e) dir) "/" in
  let msg a := Some {| ev_Type := EventTypeFile; ev_ActorName := relPath; ev_ActorID := [];
                       ev_ActorAttributes := ∅; ev_Action := a |} in
  if match relPath with c :: _ => Ascii.eqb c "." | [] => false end then None
  else if fs_Write e then msg ActionFileWritten
  else if fs_Create e then msg ActionFileCreated
  else if fs_Remove e then msg ActionFileDeleted
  else if fs_Rename e then msg ActionFileRenamed
  else None.

(** The sends are not blocking: an event goes to the directory's channel if
    somebody receives there, and to the channel of its file if the file is
    watched and somebody receives there.  [dir_ready] and [file_ready] say who
    receives; the result is what each of them gets. *)
Definition dispatch (dir : bytes) (watched : gset bytes) (dir_ready : bool) (file_ready : bytes -> bool)
    (e : fs_event) : option Event * option Event :=
  match translate dir e with
  | None => (None, None)
  | Some msg =>
      (if dir_ready then Some msg else None,
       if bool_decide (ev_ActorName msg ∈ watched) && file_ready (ev_ActorName msg) then Some msg else None)
  end.

(** ** The event queue *)

(** What a callback may panic with. *)
Inductive panic_value := PanicError (err : bytes) | PanicOther (v : bytes).

(** What the error callback is told. *)
Inductive queue_error :=
  | WatcherError (err : bytes)
  | FlushError (err : bytes)
  | FlushPanic (v : bytes).

Inductive loop_status := Running | Returned | Crashed.

#[export] Instance loop_status_eq_dec : EqDecision loop_status.
Proof. solve_decision. Defined.

(** The cases of the [select]; a channel delivers a value or is closed, and the
    error channel may deliver nil. *)
Inductive queue_input :=
  | TaskDone
  | TickerC
  | EventCh (o : option Event)
  | ErrCh (o : option (option bytes)).

(** The callbacks over a world [W]. *)
Class QueueHandler (W : Type) := {
  origOnFlush : list Event -> W -> W * option panic_value;
  onError : queue_error -> W -> W
}.

Section queue.
Context {W : Type} `{QueueHandler W}.
Variable IsDebug : bool.

(** The queue and the world of the callbacks. *)
Record EventQueue := {
  q_queue : list Event;
  q_world : W;
  q_status : loop_status
}.

Definition NewEventQueue (w : W) : EventQueue :=
  {| q_queue := []; q_world := w; q_status := Running |}.

(** The callback installed by [Start]: panics are reported to [onError]; in
    debug mode they go on. *)
Definition onFlush (events : list Event) (w : W) : W * bool :=
  let (w, p) := origOnFlush events w in
  match p with
  | None => (w, false)
  | Some (PanicError err) => (onError (FlushError err) w, IsDebug)
  | Some (PanicOther v) => (onError (FlushPanic v) w, IsDebug)
  end.

Definition stop (q : EventQueue) : EventQueue :=
  {| q_queue := q_queue q; q_world := q_world q; q_status := Returned |}.

(** One iteration of the loop. *)
Definition queue_step (q : EventQueue) (i : queue_input) : EventQueue :=
  match q_status q with
  | Running =>
      match i with
      | TaskDone => stop q
      | TickerC =>
          match q_queue q with
          | [] => q
          | _ =>
              let (w, crashed) := onFlush (q_queue q) (q_world q) in
              {| q_queue := []; q_world := w; q_status := if crashed then Crashed else Running |}
          end
      | EventCh None => stop q
      | EventCh (Some e) => {| q_queue := q_queue q ++ [e]; q_world := q_world q; q_status := Running |}
      | ErrCh None => stop q
      | ErrCh (Some None) => q
      | ErrCh (Some (Some err)) =>
          {| q_queue := q_queue q; q_world := onError (WatcherError err) (q_world q); q_status := Running |}
      end
  | _ => q
  end.

Definition run_queue (q : EventQueue) (l : list queue_input) : EventQueue :=
  fold_left queue_step l q.

(** The inputs that end the loop. *)
Definition ends (i : queue_input) : bool :=
  match i with TaskDone | EventCh None | ErrCh None => true | _ => false end.

(** The events received. *)
Definition received (l : list queue_input) : list Event :=
  omap (fun i => match i with EventCh o => o | _ => None end) l.

(** What the callbacks are called with. *)
Inductive call := Flushed (batch : list Event) | Reported (e : queue_error).

(** What one call does to the world: a panic of the handler is reported. *)
Definition deliver (w : W) (c : call) : W :=
  match c with
  | Flushed batch =>
      match origOnFlush batch w with
      | (w, None) => w
      | (w, Some (PanicError err)) => onError (FlushError err) w
      | (w, Some (PanicOther v)) => onError (FlushPanic v) w
      end
  | Reported e => onError e w
  end.

(** The calls an observer of the inputs expects: the events received, cut at
    the ticks, without empty batches, and the errors where they arrive. *)
Fixpoint expected_calls (pending : list Event) (l : list queue_input) : list call :=
  match l with
  | [] => []
  | TickerC :: l' =>
      match pending with [] => expected_calls [] l' | _ => Flushed pending :: expected_calls [] l' end
  | EventCh (Some e) :: l' => expected_calls (pending ++ [e]) l'
  | ErrCh (Some (Some err)) :: l' => Reported (WatcherError err) :: expected_calls pending l'
  | _ :: l' => expected_calls pending l'
  end.

Definition batches (cs : list call) : list (list Event) :=
  omap (fun c => match c with Flushed b => Some b | Reported _ => None end) cs.

(** The call that one iteration makes, if any. *)
Definition step_call (q : EventQueue) (i : queue_input) : list call :=
  match q_status q, i, q_queue q with
  | Running, TickerC, _ :: _ => [Flushed (q_queue q)]
  | Running, ErrCh (Some (Some err)), _ => [Reported (WatcherError err)]
  | _, _, _ => []
  end.

Lemma onFlush_deliver b w : (onFlush b w).1 = deliver w (Flushed b).
Proof. unfold onFlush. simpl. by destruct (origOnFlush b w) as [w' [[]|]]. Qed.

Lemma step_world q i : q_world (queue_step q i) = fold_left deliver (step_call q i) (q_world q).
Proof.
  unfold queue_step, step_call. destruct (q_status q); [|done..].
  destruct i as [| |[]|[[]|]]; try done. destruct (q_queue q) as [|x qs]; [done|].
  cbn [fold_left]. rewrite <- onFlush_deliver. by destruct (onFlush _ _).
Qed.

(** An iteration passes events on or keeps them. *)
Lemma step_events q i :
  concat (batches (step_call q i)) ++ q_queue (queue_step q i)
  = q_queue q ++ match q_status q, i with Running, EventCh (Some e) => [e] | _, _ => [] end.
Proof.
  unfold queue_step, step_call. destruct (q_status q); [|by rewrite app_nil_r..].
  destruct i as [| |[]|[[]|]]; cbn; rewrite ?app_nil_r; try done.
  destruct (q_queue q) as [|x qs] eqn:E; [by rewrite E|].
  destruct (onFlush _ _). cbn. by rewrite !app_nil_r.
Qed.

Lemma step_running q i :
  q_status q = Running -> ends i = false -> IsDebug = false ->
  q_status (queue_step q i) = Running.
Proof.
  intros Hs Hi Hd. unfold queue_step. rewrite Hs.
  destruct i as [| |[]|[[]|]]; try done.
  destruct (q_queue q) eqn:E; [done|]. unfold onFlush.
  destruct (origOnFlush _ _) as [w [[]|]]; rewrite ?Hd; done.
Qed.

Lemma expected_step q i l :
  q_status q = Running -> ends i = false ->
  expected_calls (q_queue q) (i :: l) = step_call q i ++ expected_calls (q_queue (queue_step q i)) l.
Proof.
  intros Hs Hi. unfold step_call, queue_step. rewrite Hs. destruct i as [| |[]|[[]|]]; try done. simpl.
  destruct (q_queue q) as [|x qs] eqn:E; [by rewrite E|]. by destruct (onFlush _ _).
Qed.

Lemma batches_app cs ds : batches (cs ++ ds) = batches cs ++ batches ds.
Proof. apply omap_app. Qed.

Lemma run_calls l q :
  q_status q = Running -> forallb (fun i => negb (ends i)) l = true -> IsDebug = false ->
  q_status (run_queue q l) = Running
  /\ q_world (run_queue q l) = fold_left deliver (expected_calls (q_queue q) l) (q_world q)
  /\ concat (batches (expected_calls (q_queue q) l)) ++ q_queue (run_queue q l) = q_queue q ++ received l.
Proof.
  revert q; induction l as [|i l IH]; intros q Hs Hl Hd; [by rewrite app_nil_r|].
  simpl in Hl. apply andb_prop in Hl as [Hi Hl]. apply negb_true_iff in Hi.
  pose proof (step_running q i Hs Hi Hd) as Hs'.
  destruct (IH (queue_step q i) Hs' Hl Hd) as (H1 & H2 & H3). cbn [run_queue fold_left]. fold (run_queue (queue_step q i) l).
  split; [done|]. rewrite (expected_step q i l Hs Hi). split.
  - rewrite H2, step_world. by rewrite fold_left_app.
  - rewrite batches_app, concat_app, <- app_assoc, H3, app_assoc, (step_events q i), <- app_assoc. f_equal. rewrite Hs.
    by destruct i as [| |[]|[[]|]].
Qed.

Lemma expected_nonempty l p : Forall (fun b => b <> []) (batches (expected_calls p l)).
Proof.
  revert p; induction l as [|[| |[e|]|[[]|]] l IH]; intros p; simpl; auto.
  destruct p; simpl; auto.
Qed.

Lemma expected_app l1 l2 q :
  q_status q = Running -> forallb (fun i => negb (ends i)) l1 = true -> IsDebug = false ->
  expected_calls (q_queue q) (l1 ++ l2) = expected_calls (q_queue q) l1 ++ expected_calls (q_queue (run_queue q l1)) l2.
Proof.
  revert q; induction l1 as [|i l1 IH]; intros q Hs Hl Hd; [done|].
  simpl in Hl. apply andb_prop in Hl as [Hi Hl]. apply negb_true_iff in Hi.
  cbn [app run_queue fold_left]. rewrite !(expected_step q i) by done. rewrite <- app_assoc. f_equal.
  apply IH; [by apply step_running|done|done].
Qed.

Lemma run_queue_app q l1 l2 : run_queue q (l1 ++ l2) = run_queue (run_queue q l1) l2.
Proof. apply fold_left_app. Qed.

Lemma run_stopped q l : q_status q <> Running -> run_queue q l = q.
Proof.
  revert q; induction l as [|i l IH]; intros q Hs; [done|].
  assert (queue_step q i = q) as Hq by (unfold queue_step; by destruct (q_status q)).
  cbn [run_queue fold_left]. rewrite Hq. by apply IH.
Qed.

End queue.

Arguments EventQueue : clear implicits.

(** ** Theorems *)

(** C31: in production mode, while neither the task nor a channel has ended, and
    whatever the callbacks do and however they panic: the loop keeps running; the
    callbacks are called with the events received, cut at the ticks, never with
    an empty batch, and with the errors, in the order of arrival, and with
    nothing else (the world is what these calls, panics reported, make of it);
    together with the pending events the batches are all the events received,
    each once and in order; and a tick delivers every event received before it. *)
Theorem queue_delivers {W} `{!QueueHandler W} (w : W) (l1 l2 : list queue_input) :
  forallb (fun i => negb (ends i)) (l1 ++ TickerC :: l2) = true ->
  let q := run_queue false (NewEventQueue w) (l1 ++ TickerC :: l2) in
  let cs := expected_calls [] (l1 ++ TickerC :: l2) in
  q_status q = Running
  /\ q_world q = fold_left deliver cs w
  /\ Forall (fun b => b <> []) (batches cs)
  /\ concat (batches cs) ++ q_queue q = received (l1 ++ TickerC :: l2)
  /\ exists rest, concat (batches cs) = received l1 ++ rest.
Proof.
  intros Hl q cs. destruct (run_calls false (l1 ++ TickerC :: l2) (NewEventQueue w) eq_refl Hl eq_refl) as (H1 & H2 & H3).
  split_and!; [done|done|apply expected_nonempty|done|].
  rewrite forallb_app in Hl. apply andb_prop in Hl as [Hl1 _].
  destruct (run_calls false l1 (NewEventQueue w) eq_refl Hl1 eq_refl) as (K1 & _ & K3). simpl in K3. unfold cs.
  pose proof (expected_app false l1 (TickerC :: l2) (NewEventQueue w) eq_refl Hl1 eq_refl) as Ha.
  cbn [q_queue NewEventQueue] in Ha. rewrite Ha, batches_app, concat_app, <- K3.
  destruct (q_queue (run_queue false (NewEventQueue w) l1)) as [|x p];
    exists (concat (batches (expected_calls [] l2))); rewrite <- app_assoc; done.
Qed.

(** An event that is pending when the task is cancelled is never delivered. *)
Lemma cancel_discards {W} `{!QueueHandler W} (w : W) (l1 l2 : list queue_input) :
  forallb (fun i => negb (ends i)) l1 = true ->
  q_world (run_queue false (NewEventQueue w) (l1 ++ TaskDone :: l2)) = fold_left deliver (expected_calls [] l1) w.
Proof.
  intros Hl. rewrite run_queue_app.
  destruct (run_calls false l1 (NewEventQueue w) eq_refl Hl eq_refl) as (H1 & H2 & _).
  change (TaskDone :: l2) with ([TaskDone] ++ l2). rewrite run_queue_app.
  set (q := run_queue _ _ l1) in *.
  assert (run_queue false q [TaskDone] = stop q) as ->
    by (cbn [run_queue fold_left]; unfold queue_step; by rewrite H1).
  rewrite run_stopped by done. done.
Qed.

(** A container action is in at most one of the two masks. *)
Lemma masks_disjoint : Z.land actionContainerStartMask actionContainerStopMask = 0.
Proof. reflexivity. Qed.

(** ** Witnesses *)

Definition file_event (name : string) (a : Z) : Event :=
  {| ev_Type := EventTypeFile; ev_ActorName := name; ev_ActorID := []; ev_ActorAttributes := ∅; ev_Action := a |}.

Definition demo_inputs : list queue_input :=
  [EventCh (Some (file_event "config.yml" ActionFileDeleted));
   EventCh (Some (file_event "config.yml" ActionFileWritten)); TickerC;
   ErrCh (Some (Some (B "watch failed"))); TickerC;
   EventCh (Some (file_event "config.yml" ActionFileWritten)); TickerC].

(** A handler that keeps what it is called with, and panics at every batch. *)
#[local] Instance recorder : QueueHandler (list call) := {|
  origOnFlush b w := (w ++ [Flushed b], Some (PanicOther (B "no")));
  onError e w := w ++ [Reported e]
|}.

Lemma queue_delivers_witness :
  q_world (run_queue false (NewEventQueue []) (take 2 demo_inputs ++ TickerC :: drop 3 demo_inputs))
  = [Flushed [file_event "config.yml" ActionFileDeleted; file_event "config.yml" ActionFileWritten];
     Reported (FlushPanic (B "no")); Reported (WatcherError (B "watch failed"));
     Flushed [file_event "config.yml" ActionFileWritten]; Reported (FlushPanic (B "no"))].
Proof.
  destruct (queue_delivers (@nil call) (take 2 demo_inputs) (drop 3 demo_inputs)) as (_ & -> & _); [reflexivity|].
  vm_compute. reflexivity.
Defined.
