(* ===== verification/Monitor.v ===== *)
(** * Health monitors

    Models internal/watcher/health/monitor: the monitor's state and its check
    ([newMonitor], [checkUpdateHealth]), the loop of [Start], and the checks of
    the HTTP, TCP/UDP, file server, agent and Docker monitors.  What a probe
    of the network, the file system or the Docker daemon returns is an input
    of the checks.  Notifications are recorded in order. *)

From S2P Require Import Prelude GoStrings Health.

(** ** Data *)

Definition HealthCheckIntervalDefault : Z := 5 * Second.
Definition HealthCheckTimeoutDefault : Z := 5 * Second.
Definition HealthCheckDownNotifyDelayDefault : Z := 15 * Second.

Record HealthCheckConfig := {
  hc_Disable : bool;
  hc_Path : bytes;
  hc_UseGet : bool;
  hc_Interval : Z;
  hc_Timeout : Z;
  hc_Retries : Z
}.

Definition DefaultHealthConfig : HealthCheckConfig :=
  {| hc_Disable := false; hc_Path := []; hc_UseGet := false;
     hc_Interval := HealthCheckIntervalDefault; hc_Timeout := HealthCheckTimeoutDefault;
     hc_Retries := HealthCheckDownNotifyDelayDefault ÷ HealthCheckIntervalDefault |}.

Record HealthCheckResult := {
  Healthy : bool;
  Detail : bytes;
  Latency : Z
}.

(** A check returns a result or an error. *)
Abbreviation check_result := (HealthCheckResult + bytes)%type.

Inductive notification := ServiceUp | ServiceDown.

#[export] Instance notification_eq_dec : EqDecision notification.
Proof. solve_decision. Defined.

Record monitor := {
  mon_config : HealthCheckConfig;
  mon_status : Z;
  mon_lastResult : HealthCheckResult;
  mon_isZeroPort : bool;
  mon_numConsecFailures : Z;
  mon_downNotificationSent : bool;
  mon_lastSeen : option Z;
  mon_notifications : list notification
}.

(** ** Construction *)

(** The retries are derived from the interval when they are not set. *)
Definition fix_config (c : HealthCheckConfig) : HealthCheckConfig :=
  if hc_Retries c =? 0 then
    let i := if hc_Interval c =? 0 then HealthCheckIntervalDefault else hc_Interval c in
    {| hc_Disable := hc_Disable c; hc_Path := hc_Path c; hc_UseGet := hc_UseGet c;
       hc_Interval := i; hc_Timeout := hc_Timeout c;
       hc_Retries := HealthCheckDownNotifyDelayDefault ÷ i |}
  else c.

(** [newMonitor] of a URL with the given port ([[]] for a nil URL). *)
Definition newMonitor (port : bytes) (c : HealthCheckConfig) : monitor :=
  let isZeroPort := bool_decide (port = []) || bool_decide (port = B "0") in
  {| mon_config := fix_config c;
     mon_status := if isZeroPort then StatusUnknown else StatusHealthy;
     mon_lastResult :=
       if isZeroPort then {| Healthy := false; Detail := "no port detected"; Latency := 0 |}
       else {| Healthy := true; Detail := "started"; Latency := 0 |};
     mon_isZeroPort := isZeroPort;
     mon_numConsecFailures := 0;
     mon_downNotificationSent := false;
     mon_lastSeen := None;
     mon_notifications := [] |}.

(** ** The check *)

(** The new status, the stored result and the last time the service was seen. *)
Definition store_result (m : monitor) (now : Z) (r : check_result) : monitor * HealthCheckResult :=
  let '(st, res, seen) :=
    match r with
    | inr err => (StatusError, {| Healthy := false; Detail := err; Latency := 0 |}, mon_lastSeen m)
    | inl res => if Healthy res then (StatusHealthy, res, Some now)
                 else (StatusUnhealthy, res, mon_lastSeen m)
    end in
  ({| mon_config := mon_config m; mon_status := st; mon_lastResult := res;
      mon_isZeroPort := mon_isZeroPort m; mon_numConsecFailures := mon_numConsecFailures m;
      mon_downNotificationSent := mon_downNotificationSent m; mon_lastSeen := seen;
      mon_notifications := mon_notifications m |}, res).

Definition set_notify (m : monitor) (failures : Z) (sent : bool) (n : list notification) : monitor :=
  {| mon_config := mon_config m; mon_status := mon_status m; mon_lastResult := mon_lastResult m;
     mon_isZeroPort := mon_isZeroPort m; mon_numConsecFailures := failures;
     mon_downNotificationSent := sent; mon_lastSeen := mon_lastSeen m;
     mon_notifications := mon_notifications m ++ n |}.

(** The first conditional: a change of status. *)
Definition on_change (m : monitor) (healthy : bool) : monitor :=
  if healthy then set_notify m 0 false [ServiceUp]
  else if hc_Retries (mon_config m) <? 0 then
    set_notify m (mon_numConsecFailures m) true [ServiceDown]
  else m.

(** The second conditional: the threshold of consecutive failures. *)
Definition on_failure (m : monitor) : monitor :=
  let failureCount := mon_numConsecFailures m + 1 in
  if (hc_Retries (mon_config m) <=? failureCount) && negb (mon_downNotificationSent m)
  then set_notify m failureCount true [ServiceDown]
  else set_notify m failureCount (mon_downNotificationSent m) [].

Definition checkUpdateHealth (m : monitor) (now : Z) (r : check_result) : monitor * option bytes :=
  let lastStatus := mon_status m in
  let (m, res) := store_result m now r in
  let m := if Bool.eqb (Healthy res) (lastStatus =? StatusHealthy) then m
           else on_change m (Healthy res) in
  let m := if negb (Healthy res) && (0 <=? hc_Retries (mon_config m)) then on_failure m else m in
  (m, match r with inr err => Some err | inl _ => None end).

(** ** The loop of [Start] *)

(** What happens to a monitor between two ticks. *)
Inductive tick_input :=
  | Cancelled
  | CheckTick (now : Z) (r : check_result).

Definition with_status (m : monitor) (st : Z) : monitor :=
  {| mon_config := mon_config m; mon_status := st; mon_lastResult := mon_lastResult m;
     mon_isZeroPort := mon_isZeroPort m; mon_numConsecFailures := mon_numConsecFailures m;
     mon_downNotificationSent := mon_downNotificationSent m; mon_lastSeen := mon_lastSeen m;
     mon_notifications := mon_notifications m |}.

(** The deferred function. *)
Definition finish (m : monitor) : monitor :=
  if mon_status m =? StatusError then m else with_status m StatusUnhealthy.

(** The loop; the boolean says whether it still runs. *)
Fixpoint monitor_loop (m : monitor) (failures : Z) (l : list tick_input) : monitor * bool :=
  match l with
  | [] => (m, true)
  | Cancelled :: _ => (finish m, false)
  | CheckTick now r :: l' =>
      let (m, err) := checkUpdateHealth m now r in
      let failures := match err with Some _ => failures + 1 | None => 0 end in
      if 5 <=? failures then (finish (with_status m StatusError), false)
      else monitor_loop m failures l'
  end.

(** [Start]: an error, nothing at all, or the goroutine, which checks once and
    then at every tick. *)
Inductive start_result :=
  | StartError
  | NotStarted (m : monitor)
  | Started (m : monitor) (running : bool).

Definition Start (m : monitor) (now : Z) (first : check_result) (l : list tick_input) : start_result :=
  if hc_Interval (mon_config m) <=? 0 then StartError
  else if mon_isZeroPort m then NotStarted m
  else
    let (m, err) := checkUpdateHealth m now first in
    let failures := match err with Some _ => 1 | None => 0 end in
    let (m, running) := monitor_loop m failures l in
    Started m running.

(** ** The checks *)

(** How an HTTP probe can end. *)
Inductive http_probe :=
  | ProbeTLSError (lat : Z)
  | ProbeError (err : bytes) (lat : Z)
  | ProbeStatus (code : Z) (message : bytes) (lat : Z).

Definition StatusServiceUnavailable : Z := 503.

Definition HTTP_CheckHealth (p : http_probe) : check_result :=
  match p with
  | ProbeTLSError lat => inl {| Healthy := true; Detail := []; Latency := lat |}
  | ProbeError err lat => inl {| Healthy := false; Detail := err; Latency := lat |}
  | ProbeStatus code msg lat =>
      if code =? StatusServiceUnavailable
      then inl {| Healthy := false; Detail := msg; Latency := lat |}
      else inl {| Healthy := true; Detail := []; Latency := lat |}
  end.

(** How dialing can end; the first five errors are expected of a stopped
    service. *)
Inductive dial_error := ErrClosed | ECONNREFUSED | ECONNRESET | ECONNABORTED | EPIPE | DialOther.

Definition Raw_CheckHealth (dial : option (dial_error * bytes)) (lat : Z) : check_result :=
  match dial with
  | Some (DialOther, err) => inr err
  | Some (_, err) => inl {| Healthy := false; Detail := err; Latency := lat |}
  | None => inl {| Healthy := true; Detail := []; Latency := lat |}
  end.

(** How [os.Stat] can end: the error and whether it says that the file does not
    exist. *)
Definition FileServer_CheckHealth (stat : option (bytes * bool)) (lat : Z) : check_result :=
  match stat with
  | Some (err, true) => inl {| Healthy := false; Detail := err; Latency := 0 |}
  | Some (err, false) => inr err
  | None => inl {| Healthy := true; Detail := []; Latency := lat |}
  end.

Definition NewFileServerHealthMonitor (c : HealthCheckConfig) : monitor := newMonitor [] c.

(** The agent's answer and its error. *)
Definition Agent_CheckHealth (resp : HealthCheckResult) (err : option bytes) : check_result :=
  match err with Some e => inr e | None => inl resp end.

(** What inspecting a container yields: a failure, or its status and, if it has
    a health check, whether it is healthy and its last log entry. *)
Inductive inspect_result :=
  | InspectFailed
  | InspectState (status : bytes) (health : option (bool * option (bytes * Z))).

Definition dockerFailuresThreshold : Z := 3.

(** [CheckHealth] of the Docker monitor: the new failure count, the result and
    whether the daemon was asked. [fallback] is the result of the fallback. *)
Definition Docker_CheckHealth (numDockerFailures : Z) (inspect : inspect_result) (fallback : check_result)
    : Z * check_result * bool :=
  if dockerFailuresThreshold <? numDockerFailures then (numDockerFailures, fallback, false)
  else
    match inspect with
    | InspectFailed => (numDockerFailures + 1, fallback, true)
    | InspectState status health =>
        if bool_decide (status ∈ [B "dead"; B "exited"; B "paused"; B "restarting"; B "removing"]) then
          (0, inl {| Healthy := false; Detail := "container is " ++ status; Latency := 0 |}, true)
        else if bool_decide (status = B "created") then
          (0, inl {| Healthy := false; Detail := "container is not started"; Latency := 0 |}, true)
        else
          match health with
          | None => (dockerFailuresThreshold + 1, fallback, true)
          | Some (ok, log) =>
              (0, inl (match log with
                       | Some (out, lat) => {| Healthy := ok; Detail := out; Latency := lat |}
                       | None => {| Healthy := ok; Detail := []; Latency := 0 |}
                       end), true)
          end
    end.

(** A sequence of Docker checks: the results and who was asked. *)
Fixpoint docker_checks (n : Z) (l : list (inspect_result * check_result)) : list (check_result * bool) :=
  match l with
  | [] => []
  | (i, f) :: l' =>
      let '(n, r, asked) := Docker_CheckHealth n i f in (r, asked) :: docker_checks n l'
  end.

(** ** What the notifications should be *)

Definition ok_result (r : check_result) : bool :=
  match r with inl res => Healthy res | inr _ => false end.

Definition run_checks (m : monitor) (l : list (Z * check_result)) : monitor :=
  fold_left (fun m c => (checkUpdateHealth m c.1 c.2).1) l m.

(** The number of failures at the end of a history. *)
Fixpoint trailing_failures (h : list bool) : Z :=
  match h with
  | [] => 0
  | false :: h' => 1 + trailing_failures h'
  | true :: _ => 0
  end.

(** The failure that is announced: the first one when the threshold is
    negative, otherwise the threshold-th. *)
Definition announced_failure (retries : Z) : Z := Z.max 1 retries.

(** The notification due after a history of checks, newest first: the service
    is up again after a failure, or has just failed for the announced time. *)
Definition due (retries : Z) (h : list bool) : list notification :=
  match h with
  | true :: false :: _ => [ServiceUp]
  | false :: _ => if trailing_failures h =? announced_failure retries then [ServiceDown] else []
  | _ => []
  end.

(** All notifications of a history, newest check first. *)
Fixpoint all_due (retries : Z) (h : list bool) : list notification :=
  match h with
  | [] => []
  | _ :: h' => all_due retries h' ++ due retries h
  end.

(** The state of a monitor after a history. *)
Definition after (retries : Z) (h : list bool) (m : monitor) : Prop :=
  hc_Retries (mon_config m) = retries
  /\ (mon_status m =? StatusHealthy) = match h with false :: _ => false | _ => true end
  /\ mon_notifications m = all_due retries h
  /\ mon_downNotificationSent m = (announced_failure retries <=? trailing_failures h)
  /\ (0 <= retries -> mon_numConsecFailures m = trailing_failures h).

Lemma trailing_nonneg h : 0 <= trailing_failures h.
Proof. induction h as [|[] h IH]; simpl; lia. Qed.

Lemma store_result_status m now r m' res :
  store_result m now r = (m', res) ->
  Healthy res = ok_result r
  /\ (mon_status m' =? StatusHealthy) = ok_result r
  /\ mon_status m' ∈ [StatusHealthy; StatusUnhealthy; StatusError]
  /\ mon_config m' = mon_config m /\ mon_notifications m' = mon_notifications m
  /\ mon_downNotificationSent m' = mon_downNotificationSent m
  /\ mon_numConsecFailures m' = mon_numConsecFailures m.
Proof.
  unfold store_result. destruct r as [res0|err].
  - destruct (Healthy res0) eqn:E; intros [= <- <-]; cbn [ok_result mon_status mon_config mon_notifications
      mon_downNotificationSent mon_numConsecFailures]; rewrite ?E; split_and!; try done; decide_closed.
  - intros [= <- <-]; simpl; split_and!; try done; decide_closed.
Qed.

(** A check in terms of the monitor whose status was just stored. *)
Lemma check_stored retries h m now r :
  after retries h m ->
  exists m1, (mon_status m1 =? StatusHealthy) = ok_result r /\ hc_Retries (mon_config m1) = retries
    /\ mon_notifications m1 = all_due retries h
    /\ mon_downNotificationSent m1 = (announced_failure retries <=? trailing_failures h)
    /\ (0 <= retries -> mon_numConsecFailures m1 = trailing_failures h)
    /\ (checkUpdateHealth m now r).1
       = let m2 := if Bool.eqb (ok_result r) match h with false :: _ => false | _ => true end then m1
                   else on_change m1 (ok_result r) in
         if negb (ok_result r) && (0 <=? hc_Retries (mon_config m2)) then on_failure m2 else m2.
Proof.
  intros (Hr & Hs & Hn & Hd & Hc). unfold checkUpdateHealth.
  destruct (store_result m now r) as [m1 res] eqn:E.
  destruct (store_result_status m now r m1 res E) as (K1 & K2 & _ & K3 & K4 & K5 & K6).
  exists m1. rewrite K1, K3, K4, K5, K6, Hs. done.
Qed.

Lemma due_fail retries h :
  due retries (false :: h)
  = if trailing_failures h + 1 =? announced_failure retries then [ServiceDown] else [].
Proof. cbn [due trailing_failures]. by rewrite Z.add_comm. Qed.

Lemma leb_of (a b : Z) (c : bool) : (if c then a <= b else b < a) -> c = (a <=? b).
Proof. destruct c; intros H; symmetry; [by apply Z.leb_le | by apply Z.leb_gt]. Qed.

Lemma last_ok_trailing h :
  match h with false :: _ => false | _ => true end = (trailing_failures h <? 1).
Proof.
  destruct h as [|[] h]; simpl; try done. symmetry. apply Z.ltb_ge.
  pose proof (trailing_nonneg h). lia.
Qed.

(** A failed check under a threshold. *)
Lemma on_failure_after retries h m1 :
  0 <= retries -> (mon_status m1 =? StatusHealthy) = false -> hc_Retries (mon_config m1) = retries ->
  mon_notifications m1 = all_due retries h ->
  mon_downNotificationSent m1 = (announced_failure retries <=? trailing_failures h) ->
  mon_numConsecFailures m1 = trailing_failures h ->
  after retries (false :: h) (on_failure m1).
Proof.
  intros H0 Hs Hr Hn Hd Hc. pose proof (trailing_nonneg h) as Hnn.
  unfold after, on_failure. rewrite Hr, Hc, Hd. cbn [all_due trailing_failures].
  rewrite due_fail. unfold announced_failure.
  destruct ((retries <=? trailing_failures h + 1) && negb (Z.max 1 retries <=? trailing_failures h)) eqn:E;
    cbn [set_notify mon_config mon_status mon_notifications mon_downNotificationSent mon_numConsecFailures];
    rewrite Hn; (split_and!; [done|done| |apply leb_of|intros; lia]).
  - reflect. by rewrite (proj2 (Z.eqb_eq _ _)) by lia.
  - reflect. lia.
  - rewrite (proj2 (Z.eqb_neq _ _)); [done|]. intros Heq. apply andb_false_iff in E as [E|E]; reflect; lia.
  - apply andb_false_iff in E as [E|E]; [|reflect].
    + reflect. destruct (Z.max 1 retries <=? trailing_failures h) eqn:E2; reflect; lia.
    + rewrite (proj2 (Z.leb_le _ _)) by lia. lia.
Qed.

Lemma check_after retries h m now r :
  after retries h m -> after retries (ok_result r :: h) (checkUpdateHealth m now r).1.
Proof.
  intros Ha. destruct (check_stored retries h m now r Ha) as (m1 & Hs & Hr & Hn & Hd & Hc & ->).
  pose proof (trailing_nonneg h) as Hnn. cbv zeta. destruct (ok_result r); cbn [negb andb].
  - unfold after. destruct h as [|[] h'];
      cbn [Bool.eqb on_change set_notify mon_config mon_status mon_notifications mon_downNotificationSent
           mon_numConsecFailures all_due due trailing_failures];
      rewrite ?Hn, ?app_nil_r; (split_and!; [done|done|done|apply leb_of|done]); unfold announced_failure in *;
      rewrite ?Hd; cbn [trailing_failures]; rewrite ?(proj2 (Z.leb_gt _ _)) by lia; lia.
  - destruct (Z.le_gt_cases 0 retries) as [E0|E0].
    + assert (on_change m1 false = m1) as Hch.
      { unfold on_change. by rewrite Hr, (proj2 (Z.ltb_ge _ _)) by lia. }
      rewrite Hch. rewrite Tauto.if_same, Hr, (proj2 (Z.leb_le _ _)) by lia.
      apply on_failure_after; auto.
    + assert (on_change m1 false = set_notify m1 (mon_numConsecFailures m1) true [ServiceDown]) as Hch
        by (unfold on_change; by rewrite Hr, (proj2 (Z.ltb_lt _ _))).
      rewrite Hch. rewrite last_ok_trailing.
      unfold after. cbn [all_due trailing_failures]. rewrite due_fail.
      unfold announced_failure in *. replace (Z.max 1 retries) with 1 in * by lia.
      destruct (Z.ltb_spec (trailing_failures h) 1); cbn [Bool.eqb set_notify mon_config mon_status mon_notifications
                        mon_downNotificationSent mon_numConsecFailures];
        rewrite Hr, (proj2 (Z.leb_gt 0 _)) by lia;
        cbn [set_notify mon_config mon_status mon_notifications mon_downNotificationSent mon_numConsecFailures];
        rewrite Hn, ?Hd; (split_and!; [done|done| |apply leb_of|intros; lia]).
      * by rewrite (proj2 (Z.eqb_eq _ _)) by lia.
      * lia.
      * by rewrite (proj2 (Z.eqb_neq _ _)), app_nil_r by lia.
      * rewrite (proj2 (Z.leb_le _ _)) by lia. lia.
Qed.

Lemma run_checks_after l retries h m :
  after retries h m -> after retries (rev (map (fun c => ok_result c.2) l) ++ h) (run_checks m l).
Proof.
  revert h m; induction l as [|[now r] l IH]; intros h m Ha; [done|].
  cbn [run_checks fold_left map rev]. rewrite <- app_assoc. apply IH. by apply check_after.
Qed.

(** ** Stopping after five errors *)

Definition is_error (r : check_result) : bool :=
  match r with inr _ => true | inl _ => false end.

(** Five checks in a row end in an error. *)
Definition five_errors (l : list check_result) : Prop :=
  exists pre mid post, l = pre ++ mid ++ post /\ length mid = 5%nat /\ Forall (fun r => is_error r = true) mid.

(** The errors at the end of the checks so far, newest first. *)
Fixpoint trailing_errors (l : list check_result) : Z :=
  match l with
  | r :: l' => if is_error r then 1 + trailing_errors l' else 0
  | [] => 0
  end.

Lemma check_error m now r :
  (checkUpdateHealth m now r).2 = match r with inr err => Some err | inl _ => None end.
Proof. unfold checkUpdateHealth. by destruct (store_result m now r). Qed.

(** The checks [seen] are newest first. *)
Lemma trailing_five seen :
  5 <= trailing_errors seen -> five_errors (rev seen).
Proof.
  intros H. exists (rev (drop 5 seen)), (rev (take 5 seen)), [].
  rewrite app_nil_r, <- rev_app_distr, take_drop. split; [done|].
  assert (forall n l, Z.of_nat n <= trailing_errors l ->
    length (take n l) = n /\ Forall (fun r => is_error r = true) (take n l)) as Haux.
  { clear. induction n as [|n IH]; intros l Hl; [done|]. destruct l as [|r l]; simpl in *; [lia|].
    destruct (is_error r) eqn:E; [|lia]. destruct (IH l) as [? ?]; [lia|]. split; [lia|]. by constructor. }
  destruct (Haux 5%nat seen) as [H1 H2]; [lia|]. rewrite length_rev. split; [done|].
  by apply Forall_rev.
Qed.

(** No five errors in a row so far, seen from the running count. *)
Definition below_five (seen : list check_result) : Prop :=
  ~ five_errors (rev seen) /\ trailing_errors seen < 5.

Lemma five_errors_snoc l r :
  five_errors (l ++ [r]) -> five_errors l \/ 5 <= trailing_errors (r :: rev l).
Proof.
  intros (pre & mid & post & E & Hm & Hf). destruct post as [|x post] using rev_ind.
  - right. rewrite app_nil_r in E. 
    assert (r :: rev l = rev mid ++ rev pre) as ->.
    { rewrite <- rev_app_distr, <- E, rev_app_distr. done. }
    apply Forall_rev in Hf. rewrite <- length_rev in Hm.
    destruct (rev mid) as [|a [|b [|c [|d [|e [|]]]]]]; try done.
    rewrite !Forall_cons in Hf. simpl. destruct Hf as (Ha & Hb & Hc & Hd & He & _). rewrite Ha, Hb, Hc, Hd, He.
    assert (0 <= trailing_errors (rev pre)) by (generalize (rev pre); clear; induction l as [|x l IH]; simpl; [lia|]; case_if; lia).
    lia.
  - left. rewrite !app_assoc in E. apply app_inj_tail in E as [E _].
    exists pre, mid, post. by rewrite E, app_assoc.
Qed.

Lemma monitor_loop_stops rs seen m failures nows :
  failures = trailing_errors seen -> ~ five_errors (rev seen) -> length nows = length rs ->
  let o := monitor_loop m failures (zip_with CheckTick nows rs) in
  (o.2 = false <-> five_errors (rev seen ++ rs)) /\ (o.2 = false -> mon_status o.1 = StatusError).
Proof.
  revert seen m failures nows; induction rs as [|r rs IH]; intros seen m failures nows Hf Hn Hlen;
    destruct nows as [|now nows]; try done; simpl in Hlen |- *.
  { rewrite app_nil_r. split; [split|]; done. }
  destruct (checkUpdateHealth m now r) as [m1 err] eqn:E.
  assert (err = match r with inr err => Some err | inl _ => None end) as ->.
  { rewrite <- (check_error m now r), E. done. }
  set (f := match _ with Some _ => _ | None => _ end).
  assert (f = trailing_errors (r :: seen)) as Hf1.
  { unfold f. simpl. rewrite Hf. destruct r; simpl; lia. }
  assert (rev seen ++ r :: rs = rev (r :: seen) ++ rs) as Happ
    by (simpl; by rewrite <- app_assoc).
  rewrite Happ. destruct (5 <=? f) eqn:E5; reflect.
  - split; [|done]. split; [intros _|done].
    destruct (trailing_five (r :: seen)) as (pre & mid & post & Heq & ? & ?); [lia|].
    exists pre, mid, (post ++ rs). rewrite Heq, <- !app_assoc. done.
  - apply IH; [done| |lia]. simpl. intros H5. apply five_errors_snoc in H5 as [H5|H5]; [done|].
    rewrite rev_involutive in H5. lia.
Qed.

(** ** Theorems *)

(** C30: The notifications of a monitor are a function of its checks alone: the
    service is announced up at the first good check after a bad one, and down
    exactly once per outage, at its first failed check when the retries are
    negative and at the check number [max 1 retries] otherwise; the status is
    healthy exactly when the last check was. *)
Theorem notifications_exact (port : bytes) (c : HealthCheckConfig) (l : list (Z * check_result)) :
  port <> [] -> port <> B "0" ->
  let h := rev (map (fun c => ok_result c.2) l) in
  let m := run_checks (newMonitor port c) l in
  mon_notifications m = all_due (hc_Retries (fix_config c)) h
  /\ (mon_status m =? StatusHealthy) = match h with false :: _ => false | _ => true end.
Proof.
  intros H1 H2 h m.
  assert (after (hc_Retries (fix_config c)) [] (newMonitor port c)) as H0.
  { unfold after, newMonitor. rewrite !bool_decide_eq_false_2 by done. simpl.
    split_and!; try done. symmetry. apply Z.leb_gt. unfold announced_failure. lia. }
  destruct (run_checks_after l _ _ _ H0) as (_ & Hs & Hn & _). rewrite app_nil_r in Hs, Hn.
  by split.
Qed.

(** A running monitor stops by itself exactly when five checks in a row
    end in an error, and then reports the status Error; otherwise it checks at
    every tick. *)
Theorem monitor_stops_iff (port : bytes) (c : HealthCheckConfig) now first nows rs :
  port <> [] -> port <> B "0" -> 0 < hc_Interval (fix_config c) -> length nows = length rs ->
  exists m running,
    Start (newMonitor port c) now first (zip_with CheckTick nows rs) = Started m running
    /\ (running = false <-> five_errors (first :: rs))
    /\ (running = false -> mon_status m = StatusError).
Proof.
  intros H1 H2 Hi Hlen. unfold Start. simpl mon_config. rewrite (proj2 (Z.leb_gt _ _)) by done.
  assert (mon_isZeroPort (newMonitor port c) = false) as ->
    by (simpl; by rewrite !bool_decide_eq_false_2).
  destruct (checkUpdateHealth _ now first) as [m1 err] eqn:E.
  assert (err = match first with inr err => Some err | inl _ => None end) as ->
    by (by rewrite <- (check_error (newMonitor port c) now first), E).
  destruct (monitor_loop_stops rs [first] m1
    (match match first with inr err => Some err | inl _ => None end with Some _ => 1 | None => 0 end) nows)
    as [Hs Ht]; [by destruct first| |done|].
  { intros (pre & mid & post & Heq & Hm & _). apply (f_equal length) in Heq.
    rewrite !length_app in Heq. simpl in Heq. lia. }
  destruct (monitor_loop _ _ _) as [m running]. exists m, running. done.
Qed.

(** A file server is never checked: its monitor has no URL, so that its
    port counts as missing, [Start] does nothing and the status stays Unknown. *)
Theorem fileserver_never_checked (c : HealthCheckConfig) now first l :
  0 < hc_Interval (fix_config c) ->
  Start (NewFileServerHealthMonitor c) now first l = NotStarted (NewFileServerHealthMonitor c)
  /\ mon_status (NewFileServerHealthMonitor c) = StatusUnknown.
Proof.
  intros Hi. unfold Start. simpl mon_config. by rewrite (proj2 (Z.leb_gt _ _)) by done.
Qed.

(** Once the Docker monitor uses its fallback without asking the daemon it
    never asks again. *)
Lemma docker_fallback_forever l n i :
  dockerFailuresThreshold < n -> (i < length l)%nat ->
  docker_checks n l !! i = (fun p => (p.2, false)) <$> l !! i.
Proof.
  revert i; induction l as [|[ins f] l IH]; intros i Hn Hi; simpl in *; [lia|].
  unfold Docker_CheckHealth. rewrite (proj2 (Z.ltb_lt _ _)) by done.
  destruct i as [|i]; simpl; [done|]. apply IH; [done|lia].
Qed.

(** It is asked until a container has no health check of its own or the daemon
    failed four times in a row. *)
Lemma docker_next_fallback n ins f n' r asked :
  0 <= n -> Docker_CheckHealth n ins f = (n', r, asked) ->
  (dockerFailuresThreshold < n' <->
     dockerFailuresThreshold < n
     \/ (n = dockerFailuresThreshold /\ ins = InspectFailed)
     \/ (exists st, ins = InspectState st None
         /\ st ∉ [B "dead"; B "exited"; B "paused"; B "restarting"; B "removing"; B "created"])) /\ 0 <= n'.
Proof.
  intros H0. unfold Docker_CheckHealth, dockerFailuresThreshold.
  destruct (3 <? n) eqn:E; reflect; [intros [= <- _ _]; split; [tauto|lia]|].
  destruct ins as [|st health].
  - intros [= <- _ _]. split; [|lia]. split; [intros; right; left; split; [lia|done]|].
    intros [?|[[? _]|(st & ? & _)]]; [lia|lia|done].
  - assert (forall P : Prop, ~ P -> (3 < 0 <-> 3 < n \/ (n = 3 /\ InspectState st health = InspectFailed) \/ P)) as Hno.
    { intros P HP. split; [lia|]. intros [?|[[_ ?]|?]]; [lia|done|done]. }
    case_if; [|case_if; [|destruct health as [[ok lg]|]]]; intros [= <- _ _]; (split; [|lia]).
    + apply Hno. intros (st' & [= <- _] & Hst). apply Hst. reflect.
      change [B "dead"; B "exited"; B "paused"; B "restarting"; B "removing"; B "created"]
        with ([B "dead"; B "exited"; B "paused"; B "restarting"; B "removing"] ++ [B "created"]).
      apply elem_of_app. by left.
    + apply Hno. intros (st' & [= <- _] & Hst). apply Hst. reflect. subst. decide_closed.
    + apply Hno. by intros (st' & [=] & _).
    + split; [|lia]. intros _. right; right. exists st. split; [done|]. reflect.
      change [B "dead"; B "exited"; B "paused"; B "restarting"; B "removing"; B "created"]
        with ([B "dead"; B "exited"; B "paused"; B "restarting"; B "removing"] ++ [B "created"]).
      rewrite elem_of_app, list_elem_of_singleton. tauto.
Qed.

(** ** Witnesses *)

Definition demo_check (ok : bool) : Z * check_result :=
  (0, inl {| Healthy := ok; Detail := []; Latency := 0 |}).

Definition demo_health_config (retries : Z) : HealthCheckConfig :=
  {| hc_Disable := false; hc_Path := []; hc_UseGet := false; hc_Interval := 5 * Second;
     hc_Timeout := 5 * Second; hc_Retries := retries |}.

Lemma notifications_exact_witness :
  let l := map demo_check [true; false; false; false; true; false; true] in
  let m := run_checks (newMonitor "80" (demo_health_config 2)) l in
  mon_notifications m = [ServiceDown; ServiceUp; ServiceUp]
  /\ mon_notifications m = all_due 2 (rev (map (fun c => ok_result c.2) l)).
Proof.
  intros l m. split; [reflexivity|].
  apply (notifications_exact "80" (demo_health_config 2) l); discriminate.
Defined.

Lemma monitor_stops_iff_witness :
  let rs := repeat (inr (B "timeout") : check_result) 4 in
  exists m running,
    Start (newMonitor "80" (demo_health_config 2)) 0 (inr (B "timeout"))
      (zip_with CheckTick [1; 2; 3; 4] rs) = Started m running
    /\ (running = false <-> five_errors (inr (B "timeout") :: rs))
    /\ (running = false -> mon_status m = StatusError).
Proof.
  intros rs. apply (monitor_stops_iff "80" (demo_health_config 2)); try discriminate; reflexivity.
Defined.

Lemma fileserver_never_checked_witness :
  Start (NewFileServerHealthMonitor DefaultHealthConfig) 0 (inr (B "x")) []
    = NotStarted (NewFileServerHealthMonitor DefaultHealthConfig)
  /\ mon_status (NewFileServerHealthMonitor DefaultHealthConfig) = StatusUnknown.
Proof. apply (fileserver_never_checked DefaultHealthConfig). reflexivity. Defined.
