(* ===== verification/Docker.v ===== *)
(** * Docker labels and containers

    Models internal/docker/label.go (wildcard labels and the nested map of
    labels), container_helper.go and container.go (what a container summary is
    turned into), image_blacklist.go, and routesFromContainerLabels of
    internal/route/provider/docker.go.

    A Go map that is ranged over is given as the list of its entries in the
    order of the range, so that the theorems hold for every order or name the
    order they need.  Other packages (goutils, the YAML decoder, net/url, the
    registry of agents, deserialization) are fields of [DockerLib]. *)

From S2P Require Import Prelude GoStrings.

(** A decoded YAML value: a mapping with string keys, a mapping with other keys
    (already printed) or a scalar as [fmt.Sprint] prints it. *)
Inductive yaml :=
  | YMap (m : list (bytes * yaml))
  | YAnyMap (m : list (bytes * yaml))
  | YScalar (text : bytes).

Class DockerLib := {
  SplitRune : bytes -> ascii -> list bytes;           (* goutils/strings *)
  CommaSeperatedList : bytes -> list bytes;           (* goutils/strings *)
  yaml_Unmarshal : bytes -> option (list (bytes * yaml));
  url_Hostname : bytes -> option bytes;               (* url.Parse, then Hostname *)
  ParseIP_local : bytes -> option bool;               (* net.ParseIP: loopback or unspecified *)
  EnvDockerHost : bytes;
  IsDockerHostAgent : bytes -> bool;                  (* agent *)
  GetAgent : bytes -> bool
}.

(** ** Constants *)

Definition WildcardAlias : bytes := "*".
Definition NSProxy : bytes := "proxy".
Definition ns (s : string) : bytes := NSProxy ++ B "." ++ B s.
Definition LabelAliases : bytes := ns "aliases".
Definition LabelExclude : bytes := ns "exclude".
Definition LabelIdleTimeout : bytes := ns "idle_timeout".
Definition LabelWakeTimeout : bytes := ns "wake_timeout".
Definition LabelStopMethod : bytes := ns "stop_method".
Definition LabelStopTimeout : bytes := ns "stop_timeout".
Definition LabelStopSignal : bytes := ns "stop_signal".
Definition LabelStartEndpoint : bytes := ns "start_endpoint".
Definition LabelDependsOn : bytes := ns "depends_on".
Definition LabelNetwork : bytes := ns "network".

(** ** Wildcard labels *)

(** [strings.SplitN] for a one-byte separator. *)
Definition SplitN (s : bytes) (c : ascii) (n : nat) : list bytes :=
  let ps := Split s c in
  if (length ps <=? n)%nat then ps else take (n - 1) ps ++ [Join (drop (n - 1) ps) c].

Definition newline : ascii := "010".
Definition tab : ascii := "009".

Definition count_byte (s : bytes) (c : ascii) : Z :=
  Z.of_nat (length (List.filter (fun b => Ascii.eqb b c) s)).

(** Tabs are replaced by four spaces before parsing. *)
Definition expand_tabs (s : bytes) : bytes :=
  concat (map (fun b => if Ascii.eqb b tab then B "    " else [b]) s).

Definition sub_key (prefix k : bytes) : bytes :=
  match prefix with [] => k | _ => prefix ++ B "." ++ k end.

Fixpoint flatten_value (key : bytes) (v : yaml) (dest : gmap bytes bytes) : gmap bytes bytes :=
  match v with
  | YScalar t => <[key := t]> dest
  | YMap m | YAnyMap m =>
      (fix go (l : list (bytes * yaml)) (dest : gmap bytes bytes) : gmap bytes bytes :=
         match l with
         | [] => dest
         | (k, v') :: l' => go l' (flatten_value (sub_key key k) v' dest)
         end) m dest
  end.

Definition flattenMap (prefix : bytes) (src : list (bytes * yaml)) (dest : gmap bytes bytes)
    : gmap bytes bytes :=
  flatten_value prefix (YMap src) dest.

Section labels.
Context `{DockerLib}.

Definition expandYamlWildcard (value : bytes) (dest : gmap bytes bytes) : gmap bytes bytes :=
  match yaml_Unmarshal (expand_tabs value) with
  | None => dest
  | Some raw => flattenMap [] raw dest
  end.

(** The loop over the labels: the labels left, the aliases with their index,
    and the wildcard labels by suffix. *)
Record expand_state := {
  ex_labels : gmap bytes bytes;
  ex_aliasSet : gmap bytes Z;
  ex_wildcard : gmap bytes bytes
}.

Definition expand_step (st : expand_state) (l : bytes * bytes) : result Empty_set expand_state :=
  let (lbl, value) := l in
  match SplitN lbl "." 3 with
  | p0 :: alias :: rest =>
      if negb (bool_decide (p0 = NSProxy)) then Ok st
      else if bool_decide (alias = WildcardAlias) then
        let labels := delete lbl (ex_labels st) in
        if 1 <? count_byte value newline then
          Ok {| ex_labels := labels; ex_aliasSet := ex_aliasSet st;
                ex_wildcard := expandYamlWildcard value (ex_wildcard st) |}
        else
          match rest with
          | suffix :: _ =>
              Ok {| ex_labels := labels; ex_aliasSet := ex_aliasSet st;
                    ex_wildcard := <[suffix := value]> (ex_wildcard st) |}
          | [] => Panic IndexOutOfRange
          end
      else if bool_decide (ex_aliasSet st !! alias = None) && negb (HasPrefix alias "#") then
        Ok {| ex_labels := ex_labels st;
              ex_aliasSet := <[alias := Z.of_nat (size (ex_aliasSet st))]> (ex_aliasSet st);
              ex_wildcard := ex_wildcard st |}
      else Ok st
  | _ => Ok st
  end.

Definition wildcard_key (i : Z) (suffix : bytes) : bytes :=
  match suffix with
  | [] => NSProxy ++ B "." ++ B "#" ++ Itoa (i + 1)
  | _ => NSProxy ++ B "." ++ B "#" ++ Itoa (i + 1) ++ B "." ++ suffix
  end.

(** The two nested loops that write the expanded labels. *)
Definition expand_write (aliasSet : gmap bytes Z) (wildcard labels : gmap bytes bytes) : gmap bytes bytes :=
  fold_left (fun labels sv =>
    fold_left (fun labels ai => <[wildcard_key ai.2 sv.1 := sv.2]> labels) (map_to_list aliasSet) labels)
    (map_to_list wildcard) labels.

(** [aliasSet[alias] = i] for every alias. *)
Definition init_aliases (aliases : list bytes) : gmap bytes Z :=
  fold_left (fun m ia => <[ia.2 := ia.1]> m) (imap (fun i a => (Z.of_nat i, a)) aliases) ∅.

(** [order] is the map [labels] in the order of the range. *)
Definition ExpandWildcard (order : list (bytes * bytes)) (aliases : list bytes)
    : result Empty_set (gmap bytes bytes) :=
  st ← foldM expand_step {| ex_labels := list_to_map order; ex_aliasSet := init_aliases aliases;
                            ex_wildcard := ∅ |} order;
  if bool_decide (ex_aliasSet st = ∅) || bool_decide (ex_wildcard st = ∅) then Ok (ex_labels st)
  else Ok (expand_write (ex_aliasSet st) (ex_wildcard st) (ex_labels st)).

(** ** The nested map of labels *)

(** A [types.LabelMap] value: a string or a map. *)
Inductive label_value :=
  | LStr (s : bytes)
  | LMap (m : list (bytes * label_value)).

Abbreviation LabelMap := (list (bytes * label_value)).

Fixpoint lm_get (m : LabelMap) (k : bytes) : option label_value :=
  match m with
  | [] => None
  | (k', v) :: m' => if bool_decide (k' = k) then Some v else lm_get m' k
  end.

Fixpoint lm_set (m : LabelMap) (k : bytes) (v : label_value) : LabelMap :=
  match m with
  | [] => [(k, v)]
  | (k', v') :: m' => if bool_decide (k' = k) then (k, v) :: m' else (k', v') :: lm_set m' k v
  end.

(** The inner loop over the parts of a label, and the number of errors.  After
    an error the loop goes on with the next part in the same map. *)
Fixpoint set_path (m : LabelMap) (parts : list bytes) (value : bytes) : LabelMap * nat :=
  match parts with
  | [] => (m, 0%nat)
  | [k] => (lm_set m k (LStr value), 0%nat)
  | k :: rest =>
      let deeper m0 := let (m', e) := set_path m0 rest value in (lm_set m k (LMap m'), e) in
      match lm_get m k with
      | None => deeper []
      | Some (LMap m0) => deeper m0
      | Some (LStr []) => deeper []
      | Some (LStr _) => let (m', e) := set_path m rest value in (m', S e)
      end
  end.

Definition parse_step (acc : LabelMap * nat) (l : bytes * bytes) : result Empty_set (LabelMap * nat) :=
  match SplitRune l.1 "." with
  | [] => Panic IndexOutOfRange
  | p0 :: parts =>
      if negb (bool_decide (p0 = NSProxy)) then Ok acc
      else
        match parts with
        | [] => Ok (acc.1, S acc.2)
        | _ => let (m, e) := set_path acc.1 parts l.2 in Ok (m, (e + acc.2)%nat)
        end
  end.

(** The loop of [ParseLabels] over the expanded labels. *)
Definition parse_order (order : list (bytes * bytes)) : result Empty_set (LabelMap * nat) :=
  foldM parse_step ([], 0%nat) order.

(** [ParseLabels]; [reorder] is the order in which the expanded map is ranged
    over. *)
Definition ParseLabels (reorder : gmap bytes bytes -> list (bytes * bytes))
    (order : list (bytes * bytes)) (aliases : list bytes) : result Empty_set (LabelMap * nat) :=
  labels ← ExpandWildcard order aliases; parse_order (reorder labels).

Fixpoint get_path (m : LabelMap) (parts : list bytes) : option bytes :=
  match parts with
  | [] => None
  | [k] => match lm_get m k with Some (LStr v) => Some v | _ => None end
  | k :: rest => match lm_get m k with Some (LMap m') => get_path m' rest | _ => None end
  end.

(** ** Lemmas on label maps *)

Lemma lm_get_set m k v k' :
  lm_get (lm_set m k v) k' = if bool_decide (k = k') then Some v else lm_get m k'.
Proof.
  induction m as [|[k0 v0] m IH]; simpl; [by case_if|].
  destruct (bool_decide (k0 = k)) eqn:E; reflect; simpl.
  - subst. by case_if.
  - rewrite IH. destruct (bool_decide (k0 = k')) eqn:E1, (bool_decide (k = k')) eqn:E2; reflect; congruence.
Qed.

Lemma get_path_deep m k x q :
  get_path m (k :: x :: q) = match lm_get m k with Some (LMap m') => get_path m' (x :: q) | _ => None end.
Proof. done. Qed.

(** One path is a proper prefix of another. *)
Fixpoint proper_prefix (p q : list bytes) : bool :=
  match p, q with
  | [], _ :: _ => true
  | x :: p', y :: q' => bool_decide (x = y) && proper_prefix p' q'
  | _, _ => false
  end.

(** No two paths of a list conflict. *)
Definition conflict_free (ps : list (list bytes)) : Prop :=
  forall p q, p ∈ ps -> q ∈ ps -> proper_prefix p q = false.

(** The strings of a label map lie on the given paths only. *)
Definition only_paths (m : LabelMap) (ps : list (list bytes)) : Prop :=
  forall q v, q <> [] -> get_path m q = Some v -> q ∈ ps.

(** Setting a path changes that path only, when no other value is in its way. *)
Lemma set_path_spec parts m v :
  parts <> [] ->
  (forall q w, q <> [] -> get_path m q = Some w -> proper_prefix q parts = false) ->
  exists m', set_path m parts v = (m', 0%nat) /\ get_path m' parts = Some v
    /\ (forall q, q <> parts -> proper_prefix parts q = false -> get_path m' q = get_path m q).
Proof.
  revert m; induction parts as [|k rest IH]; intros m Hne Hfree; [done|].
  destruct rest as [|k2 rest].
  - simpl. eexists; split; [done|]. rewrite lm_get_set, bool_decide_eq_true_2 by done. split; [done|].
    intros q Hq Hp. destruct q as [|k' q]; [done|]. destruct q as [|k2 q]; simpl.
    + rewrite lm_get_set, bool_decide_eq_false_2 by congruence. done.
    + simpl in Hp. rewrite andb_true_r in Hp. rewrite lm_get_set, Hp. done.
  - set (deeper_of m0 := forall q w, q <> [] -> get_path m0 q = Some w -> proper_prefix q (k2 :: rest) = false).
    assert (forall m0, deeper_of m0 ->
      (forall q, get_path m0 q = match lm_get m k with Some (LMap m1) => get_path m1 q | _ => None end) ->
      exists m', (let (m', e) := set_path m0 (k2 :: rest) v in (lm_set m k (LMap m'), e)) = (m', 0%nat)
        /\ get_path m' (k :: k2 :: rest) = Some v
        /\ (forall q, q <> k :: k2 :: rest -> proper_prefix (k :: k2 :: rest) q = false -> get_path m' q = get_path m q))
      as Hdeep.
    { intros m0 H0 Hsame. destruct (IH m0) as (m1 & E1 & G1 & O1); [done|done|].
      rewrite E1. eexists; split; [done|]. split.
      - rewrite get_path_deep, lm_get_set, bool_decide_eq_true_2 by done. done.
      - intros q Hq Hp. destruct q as [|k' q]; [done|]. destruct q as [|k3 q].
        + cbn [get_path]. rewrite lm_get_set. destruct (bool_decide (k = k')) eqn:E; [|done].
          reflect; subst. destruct (lm_get m k') as [[s|m2]|] eqn:Eg; try done.
          exfalso. specialize (Hfree [k'] s). cbn [get_path] in Hfree. rewrite Eg in Hfree.
          specialize (Hfree ltac:(done) eq_refl). simpl in Hfree.
          by rewrite bool_decide_eq_true_2 in Hfree by done.
        + rewrite !get_path_deep, lm_get_set. destruct (bool_decide (k = k')) eqn:E; [|done].
          cbn [proper_prefix] in Hp. rewrite E in Hp. reflect; subst. simpl in Hp.
          rewrite (O1 (k3 :: q)); [apply Hsame|congruence|done]. }
    cbn [set_path]. destruct (lm_get m k) as [[[|c s]|m0]|] eqn:Eg.
    + apply (Hdeep []).
      * by intros [|? [|]] w.
      * by intros [|? [|]].
    + exfalso. specialize (Hfree [k] (c :: s)). cbn [get_path] in Hfree. rewrite Eg in Hfree.
      specialize (Hfree ltac:(done) eq_refl). simpl in Hfree.
      by rewrite bool_decide_eq_true_2 in Hfree by done.
    + apply (Hdeep m0); [|done]. intros q w Hq Hw.
      destruct q as [|k3 q]; [done|]. specialize (Hfree (k :: k3 :: q) w ltac:(done)).
      rewrite get_path_deep in Hfree. rewrite Eg in Hfree. specialize (Hfree Hw).
      cbn [proper_prefix] in Hfree. by rewrite bool_decide_eq_true_2 in Hfree by done.
    + apply (Hdeep []).
      * by intros [|? [|]] w.
      * by intros [|? [|]].
Qed.

Lemma get_path_string m p v q :
  get_path m p = Some v -> proper_prefix p q = true -> get_path m q = None.
Proof.
  revert m q; induction p as [|k p IH]; intros m q Hp Hq; [done|].
  destruct q as [|k' q]; [done|]. cbn [proper_prefix] in Hq. reflect. subst k'.
  destruct p as [|k2 p].
  - destruct q as [|k3 q]; [done|]. rewrite get_path_deep. cbn [get_path] in Hp.
    by destruct (lm_get m k) as [[|]|].
  - destruct q as [|k3 q]; [done|]. rewrite get_path_deep in Hp |- *.
    destruct (lm_get m k) as [[|m']|]; try done. by apply (IH m').
Qed.

(** What the nested map holds after some labels. *)
Definition holds (m : LabelMap) (seen : list (bytes * bytes)) : Prop :=
  forall q v, q <> [] ->
    (get_path m q = Some v <-> exists lbl, (lbl, v) ∈ seen /\ Split lbl "." = NSProxy :: q).

(** The paths of the labels of the namespace. *)
Definition label_paths (l : list (bytes * bytes)) : list (list bytes) :=
  omap (fun lv => match Split lv.1 "." with
                  | p0 :: parts => if bool_decide (p0 = NSProxy) then Some parts else None
                  | [] => None
                  end) l.

Lemma elem_label_paths l q :
  q ∈ label_paths l <-> exists lbl v, (lbl, v) ∈ l /\ Split lbl "." = NSProxy :: q.
Proof.
  unfold label_paths. rewrite list_elem_of_omap. split.
  - intros ([lbl v] & Hin & Hs). simpl in Hs. exists lbl, v. split; [done|].
    destruct (Split lbl ".") as [|p0 parts]; [done|]. case_bool_decide; [|done].
    injection Hs as ->. by subst.
  - intros (lbl & v & Hin & Hs). exists (lbl, v). split; [done|]. simpl. rewrite Hs.
    by rewrite bool_decide_eq_true_2.
Qed.

Lemma Split_inj s t c : Split s c = Split t c -> s = t.
Proof. intros H1. by rewrite <- (Join_Split s c), H1, Join_Split. Qed.

Lemma holds_step m seen lbl v q :
  holds m seen -> Split lbl "." = NSProxy :: q -> q <> [] -> lbl ∉ seen.*1 ->
  conflict_free (label_paths (seen ++ [(lbl, v)])) ->
  exists m', set_path m q v = (m', 0%nat) /\ holds m' (seen ++ [(lbl, v)]).
Proof.
  intros Hm Hs Hq Hnew Hcf.
  assert (forall p, p ∈ label_paths (seen ++ [(lbl, v)]) ->
            proper_prefix p q = false /\ proper_prefix q p = false) as Hcfq.
  { assert (q ∈ label_paths (seen ++ [(lbl, v)])) as Hqin.
    { apply elem_label_paths. exists lbl, v. split; [|done]. apply elem_of_app. right. by apply list_elem_of_singleton. }
    intros p Hp. split; by apply Hcf. }
  assert (forall p w, p <> [] -> get_path m p = Some w -> p ∈ label_paths (seen ++ [(lbl, v)])) as Hin.
  { intros p w Hp Hw. apply Hm in Hw as (l' & Hl' & Hs'); [|done]. apply elem_label_paths.
    exists l', w. split; [|done]. apply elem_of_app. by left. }
  destruct (set_path_spec q m v Hq) as (m' & E & G & O).
  { intros p w Hp Hw. apply Hcfq. by eapply Hin. }
  exists m'. split; [done|]. intros p w Hp. setoid_rewrite elem_of_app. setoid_rewrite list_elem_of_singleton.
  destruct (decide (p = q)) as [->|Hne].
  - rewrite G. split.
    + intros [= ->]. exists lbl. auto.
    + intros (l' & [Hl'|[= _ ->]] & Hs'); [|done]. exfalso. apply Hnew.
      rewrite (Split_inj lbl l' ".") by congruence. apply list_elem_of_fmap. by exists (l', w).
  - destruct (proper_prefix q p) eqn:Epp.
    + rewrite (get_path_string m' q v p G Epp). split; [done|].
      intros (l' & Hl' & Hs'). exfalso.
      assert (p ∈ label_paths (seen ++ [(lbl, v)])) as Hpin.
      { apply elem_label_paths. exists l', w. split; [|done]. apply elem_of_app.
        destruct Hl' as [?|[= -> ->]]; [by left|right; by apply list_elem_of_singleton]. }
      destruct (Hcfq p Hpin). congruence.
    + rewrite (O p Hne Epp), (Hm p w Hp). split.
      * intros (l' & ? & ?). exists l'. auto.
      * intros (l' & [?|[= -> ->]] & Hs'); [by exists l'|congruence].
Qed.

(** The labels that have no path: exactly the text [proxy]. *)
Definition bare (l : list (bytes * bytes)) : nat :=
  length (filter (fun lv => Split lv.1 "." = [NSProxy]) l).

Lemma conflict_free_app l1 l2 : conflict_free (label_paths (l1 ++ l2)) -> conflict_free (label_paths l1).
Proof.
  intros Hcf p q Hp Hq. apply Hcf; unfold label_paths; rewrite omap_app; apply elem_of_app; by left.
Qed.

Lemma holds_skip m seen lv :
  holds m seen -> (forall q, q <> [] -> Split lv.1 "." <> NSProxy :: q) -> holds m (seen ++ [lv]).
Proof.
  intros Hm Hno q v Hq. rewrite (Hm q v Hq). setoid_rewrite elem_of_app. setoid_rewrite list_elem_of_singleton.
  split; [naive_solver|]. intros (lbl & [Hl|<-] & Hs); [eauto|]. exfalso. by apply (Hno q).
Qed.

Lemma bare_app l lv :
  bare (l ++ [lv]) = (bare l + if decide (Split lv.1 "." = [NSProxy]) then 1 else 0)%nat.
Proof.
  unfold bare. rewrite filter_app, length_app. f_equal. rewrite filter_cons. by case_decide.
Qed.

Lemma parse_fold l seen m n :
  (forall s c, SplitRune s c = Split s c) ->
  holds m seen -> n = bare seen -> NoDup (seen ++ l).*1 -> conflict_free (label_paths (seen ++ l)) ->
  exists m', foldM parse_step (m, n) l = Ok (m', bare (seen ++ l)) /\ holds m' (seen ++ l).
Proof.
  intros SplitRune_Split.
  revert seen m n; induction l as [|[lbl v] l IH]; intros seen m n Hm -> Hnd Hcf.
  { exists m. by rewrite !app_nil_r. }
  assert (exists m1, parse_step (m, bare seen) (lbl, v) = Ok (m1, bare (seen ++ [(lbl, v)]))
            /\ holds m1 (seen ++ [(lbl, v)])) as (m1 & E1 & H1).
  { unfold parse_step. rewrite SplitRune_Split, bare_app. simpl.
    pose proof (Split_nonempty lbl ".") as Hsne.
    destruct (Split lbl ".") as [|p0 parts] eqn:Es; [done|].
    destruct (bool_decide (p0 = NSProxy)) eqn:Ep; reflect; simpl.
    - subst p0. destruct parts as [|k parts].
      + rewrite decide_True by done. exists m. rewrite Nat.add_1_r. split; [done|].
        apply holds_skip; [done|]. intros q Hq. simpl. rewrite Es. congruence.
      + rewrite decide_False by congruence. rewrite Nat.add_0_r.
        destruct (holds_step m seen lbl v (k :: parts)) as (m1 & E & Hm1); try done.
        * rewrite fmap_app, fmap_cons in Hnd. simpl in Hnd. intros Hin.
          apply NoDup_app in Hnd as (_ & Hnd & _). apply (Hnd lbl Hin). apply elem_of_cons. by left.
        * apply conflict_free_app with l. rewrite <- app_assoc. done.
        * exists m1. rewrite E. done.
    - rewrite decide_False by congruence. rewrite Nat.add_0_r. exists m. split; [done|].
      apply holds_skip; [done|]. intros q Hq. simpl. rewrite Es. congruence. }
  destruct (IH (seen ++ [(lbl, v)]) m1 _ H1 eq_refl) as (m' & E' & H').
  { by rewrite <- app_assoc. }
  { by rewrite <- app_assoc. }
  rewrite <- app_assoc in E', H'. exists m'. cbn [foldM]. rewrite E1. done.
Qed.

(** *** Wildcards *)

Lemma expand_fold_panics l st value :
  (B "proxy.*", value) ∈ l -> count_byte value newline <= 1 ->
  foldM expand_step st l = Panic IndexOutOfRange.
Proof.
  revert st; induction l as [|[lbl v] l IH]; intros st Hin Hc; [by apply elem_of_nil in Hin|].
  cbn [foldM]. apply elem_of_cons in Hin as [[= <- <-]|Hin].
  - unfold expand_step. replace (SplitN _ "." 3) with [NSProxy; WildcardAlias] by reflexivity.
    rewrite !bool_decide_eq_true_2 by done. cbn [negb]. by rewrite (proj2 (Z.ltb_ge _ _)) by lia.
  - destruct (expand_step st (lbl, v)) as [st'|e|p] eqn:E; [by apply IH|by destruct e|].
    f_equal. unfold expand_step in E. destruct (SplitN lbl "." 3) as [|p0 [|a rest]]; try done.
    repeat case_if; try done. destruct rest; congruence.
Qed.

Lemma Join_app_Join ps1 ps2 c : ps2 <> [] -> Join (ps1 ++ [Join ps2 c]) c = Join (ps1 ++ ps2) c.
Proof.
  intros Hne. induction ps1 as [|p ps1 IH]; [done|]. cbn [app].
  rewrite !Join_cons by (by destruct ps1, ps2). by rewrite IH.
Qed.

Lemma SplitN_Join s c n : (1 <= n)%nat -> Join (SplitN s c n) c = s.
Proof.
  intros Hn. unfold SplitN. destruct (length (Split s c) <=? n)%nat eqn:E; [apply Join_Split|].
  apply Nat.leb_gt in E. rewrite Join_app_Join.
  - by rewrite take_drop, Join_Split.
  - intros Hd. apply (f_equal length) in Hd. rewrite length_drop in Hd. simpl in Hd. lia.
Qed.

Lemma expand_step_Ok st lbl v :
  (lbl = B "proxy.*" -> 1 < count_byte v newline) -> exists st1, expand_step st (lbl, v) = Ok st1.
Proof.
  intros Hall. unfold expand_step.
  destruct (SplitN lbl "." 3) as [|p0 [|a rest]] eqn:Es; [by eexists..|].
  destruct (bool_decide (p0 = NSProxy)) eqn:E0; cbn [negb]; [|by eexists].
  destruct (bool_decide (a = WildcardAlias)) eqn:Ea; [|case_if; by eexists].
  destruct (1 <? count_byte v newline) eqn:Ec; [by eexists|].
  destruct rest as [|suffix rest]; [|by eexists]. exfalso. reflect. subst.
  assert (lbl = B "proxy.*") as -> by (rewrite <- (SplitN_Join lbl "." 3), Es; [done|lia]).
  specialize (Hall eq_refl). lia.
Qed.

Lemma expand_fold_Ok l st :
  (forall value, (B "proxy.*", value) ∈ l -> 1 < count_byte value newline) ->
  exists st', foldM expand_step st l = Ok st'.
Proof.
  revert st; induction l as [|[lbl v] l IH]; intros st Hall; [by eexists|]. cbn [foldM].
  destruct (expand_step_Ok st lbl v) as [st1 ->].
  - intros ->. apply Hall. apply elem_of_cons. by left.
  - apply IH. intros value Hin. apply Hall. apply elem_of_cons. by right.
Qed.

(** The suffix of a wildcard label. *)
Definition wild_suffix (lbl : bytes) : option bytes :=
  match SplitN lbl "." 3 with
  | [p0; a; s] => if bool_decide (p0 = NSProxy) && bool_decide (a = WildcardAlias) then Some s else None
  | _ => None
  end.

Lemma wild_suffix_label lbl s : wild_suffix lbl = Some s -> lbl = B "proxy.*." ++ s.
Proof.
  unfold wild_suffix. intros Hs. rewrite <- (SplitN_Join lbl "." 3) by lia.
  destruct (SplitN lbl "." 3) as [|p0 [|a [|x [|]]]]; try done.
  case_if; [|done]. reflect. subst. by injection Hs as ->.
Qed.

(** The alias an explicit label names. *)
Definition explicit_alias (lbl : bytes) : option bytes :=
  match SplitN lbl "." 3 with
  | p0 :: a :: _ =>
      if bool_decide (p0 = NSProxy) && negb (bool_decide (a = WildcardAlias)) && negb (HasPrefix a "#")
      then Some a else None
  | _ => None
  end.

Definition explicit_aliases (l : list (bytes * bytes)) : gset bytes :=
  list_to_set (omap (fun lv => explicit_alias lv.1) l).

(** Every wildcard label has a suffix and a value that is not multi-line. *)
Definition plain_wildcards (l : list (bytes * bytes)) : Prop :=
  Forall (fun lv => match SplitN lv.1 "." 3 with
                    | p0 :: a :: rest =>
                        p0 = NSProxy -> a = WildcardAlias -> length rest = 1%nat /\ count_byte lv.2 newline <= 1
                    | _ => True
                    end) l.

(** The indices in use are the numbers below the size of the set. *)
Definition indexed (m : gmap bytes Z) : Prop :=
  forall i, (exists a, m !! a = Some i) <-> 0 <= i < Z.of_nat (size m).

Lemma indexed_insert m a :
  m !! a = None -> indexed m -> indexed (<[a := Z.of_nat (size m)]> m).
Proof.
  intros Ha Hm i. rewrite map_size_insert_None by done. split.
  - intros (b & Hb). destruct (decide (a = b)) as [->|Hne].
    + rewrite lookup_insert_eq in Hb. injection Hb as <-. lia.
    + rewrite lookup_insert_ne in Hb by done. assert (0 <= i < Z.of_nat (size m)) by (apply Hm; eauto). lia.
  - intros Hi. destruct (decide (i = Z.of_nat (size m))) as [->|Hne].
    + exists a. by rewrite lookup_insert_eq.
    + destruct (proj2 (Hm i)) as (b & Hb); [lia|]. exists b.
      rewrite lookup_insert_ne by congruence. done.
Qed.

Lemma init_aliases_snoc l a :
  init_aliases (l ++ [a]) = <[a := Z.of_nat (length l)]> (init_aliases l).
Proof.
  unfold init_aliases. rewrite imap_app, fold_left_app. simpl. by rewrite Nat.add_0_r.
Qed.

Lemma init_aliases_spec l :
  NoDup l -> indexed (init_aliases l) /\ dom (init_aliases l) = list_to_set l /\ size (init_aliases l) = length l.
Proof.
  induction l as [|a l IH] using rev_ind; intros Hnd.
  { split; [|done]. intros i. unfold init_aliases. simpl. rewrite map_size_empty. split; [|lia].
    intros (a & Ha). by rewrite lookup_empty in Ha. }
  apply NoDup_app in Hnd as (Hnd & Hdis & _). destruct (IH Hnd) as (H1 & H2 & H3).
  assert (init_aliases l !! a = None) as Ha.
  { apply not_elem_of_dom. rewrite H2, elem_of_list_to_set. intros Hin. apply (Hdis a Hin).
    by apply list_elem_of_singleton. }
  rewrite init_aliases_snoc, <- H3. split_and!.
  - by apply indexed_insert.
  - rewrite dom_insert_L, H2, list_to_set_app_L. simpl. set_solver.
  - rewrite map_size_insert_None, length_app by done. simpl. lia.
Qed.

(** The state after the labels [seen] of [order]. *)
Definition expanded (aliases : list bytes) (order seen : list (bytes * bytes)) (st : expand_state) : Prop :=
  indexed (ex_aliasSet st)
  /\ dom (ex_aliasSet st) = list_to_set aliases ∪ explicit_aliases seen
  /\ (forall s v, ex_wildcard st !! s = Some v <-> exists lbl, (lbl, v) ∈ seen /\ wild_suffix lbl = Some s)
  /\ (forall k, ex_labels st !! k
        = if bool_decide (k ∈ seen.*1) && bool_decide (is_Some (wild_suffix k)) then None
          else (list_to_map order : gmap bytes bytes) !! k).

Lemma explicit_aliases_snoc l lv :
  explicit_aliases (l ++ [lv])
  = explicit_aliases l ∪ match explicit_alias lv.1 with Some a => {[ a ]} | None => ∅ end.
Proof.
  unfold explicit_aliases. rewrite omap_app, list_to_set_app_L. f_equal. simpl.
  destruct (explicit_alias lv.1); simpl; set_solver.
Qed.

Lemma seen_snoc (seen : list (bytes * bytes)) lbl v k :
  lbl <> k -> bool_decide (k ∈ (seen ++ [(lbl, v)]).*1) = bool_decide (k ∈ seen.*1).
Proof.
  intros Hne. apply bool_decide_ext. rewrite fmap_app, elem_of_app. cbn [fmap list_fmap fst].
  rewrite list_elem_of_singleton. intuition congruence.
Qed.

(** A label that is not a wildcard leaves the wildcards and the labels alone. *)
Lemma expanded_explicit aliases order seen st lbl v m :
  wild_suffix lbl = None -> expanded aliases order seen st -> indexed m ->
  dom m = list_to_set aliases ∪ explicit_aliases (seen ++ [(lbl, v)]) ->
  expanded aliases order (seen ++ [(lbl, v)])
    {| ex_labels := ex_labels st; ex_aliasSet := m; ex_wildcard := ex_wildcard st |}.
Proof.
  intros Hw (H1 & H2 & H3 & H4) Hi Hd. split_and!; [done|done| |]; cbn [ex_wildcard ex_labels].
  - intros s w. rewrite (H3 s w). setoid_rewrite elem_of_app. setoid_rewrite list_elem_of_singleton.
    split; [intros (l & ? & ?); eauto|]. intros (l & [?|[= -> ->]] & ?); [eauto|congruence].
  - intros k. rewrite (H4 k). destruct (decide (lbl = k)) as [<-|Hne].
    + rewrite Hw. rewrite (bool_decide_eq_false_2 (is_Some None)) by (by intros [? ?]). by rewrite !andb_false_r.
    + by rewrite seen_snoc.
Qed.

Lemma expanded_same aliases order seen st lbl v :
  wild_suffix lbl = None -> expanded aliases order seen st ->
  match explicit_alias lbl with Some a => a ∈ dom (ex_aliasSet st) | None => True end ->
  expanded aliases order (seen ++ [(lbl, v)]) st.
Proof.
  intros Hw Hex Ha. pose proof Hex as (H1 & H2 & _).
  assert (dom (ex_aliasSet st) = list_to_set aliases ∪ explicit_aliases (seen ++ [(lbl, v)])) as Hd.
  { rewrite explicit_aliases_snoc. cbn [fst]. rewrite H2 in Ha |- *.
    destruct (explicit_alias lbl); set_solver. }
  pose proof (expanded_explicit aliases order seen st lbl v (ex_aliasSet st) Hw Hex H1 Hd) as He.
  by destruct st.
Qed.

Lemma expanded_wildcard aliases order seen st lbl v s :
  wild_suffix lbl = Some s -> expanded aliases order seen st -> explicit_alias lbl = None -> lbl ∉ seen.*1 ->
  expanded aliases order (seen ++ [(lbl, v)])
    {| ex_labels := delete lbl (ex_labels st); ex_aliasSet := ex_aliasSet st;
       ex_wildcard := <[s := v]> (ex_wildcard st) |}.
Proof.
  intros Hw (H1 & H2 & H3 & H4) He Hnew.
  split_and!; cbn [ex_labels ex_aliasSet ex_wildcard]; [done| | |].
  - rewrite H2, explicit_aliases_snoc. cbn [fst]. rewrite He. set_solver.
  - intros s' w. setoid_rewrite elem_of_app. setoid_rewrite list_elem_of_singleton.
    destruct (decide (s = s')) as [<-|Hne].
    + rewrite lookup_insert_eq. split; [intros [= ->]; eauto|].
      intros (l & [Hl|[= _ ->]] & Hs); [|done]. exfalso. apply Hnew.
      apply wild_suffix_label in Hs, Hw. rewrite Hw, <- Hs. apply list_elem_of_fmap. by exists (l, w).
    + rewrite lookup_insert_ne, (H3 s' w) by done. split; [intros (l & ? & ?); eauto|].
      intros (l & [?|[= -> ->]] & ?); [eauto|congruence].
  - intros k. destruct (decide (lbl = k)) as [<-|Hne].
    + rewrite lookup_delete_eq, Hw, fmap_app. rewrite bool_decide_eq_true_2.
      2:{ apply elem_of_app. right. by apply list_elem_of_singleton. }
      by rewrite bool_decide_eq_true_2.
    + by rewrite lookup_delete_ne, (H4 k), seen_snoc.
Qed.

Lemma expanded_step aliases order seen st lbl v :
  expanded aliases order seen st -> plain_wildcards [(lbl, v)] -> lbl ∉ seen.*1 ->
  exists st', expand_step st (lbl, v) = Ok st' /\ expanded aliases order (seen ++ [(lbl, v)]) st'.
Proof.
  intros Hex Hplain Hnew. pose proof Hex as (H1 & H2 & H3 & H4).
  apply Forall_inv in Hplain. cbn [fst snd] in Hplain. unfold expand_step.
  assert (wild_suffix lbl = None -> explicit_alias lbl = None ->
     expanded aliases order (seen ++ [(lbl, v)]) st) as Hskip.
  { intros Hw He. apply expanded_same; [done|done|]. by rewrite He. }
  unfold wild_suffix, explicit_alias in Hskip.
  destruct (SplitN lbl "." 3) as [|p0 [|a rest]] eqn:Es; [by eauto..|].
  destruct (bool_decide (p0 = NSProxy)) eqn:E0; cbn [negb andb] in *; reflect.
  2:{ exists st. split; [done|]. apply Hskip; [by destruct rest as [|? [|]]|done]. }
  destruct (bool_decide (a = WildcardAlias)) eqn:Ea; reflect.
  - subst. destruct (Hplain eq_refl eq_refl) as [Hr Hc].
    rewrite (proj2 (Z.ltb_ge _ _)) by lia. destruct rest as [|s [|]]; try done.
    assert (wild_suffix lbl = Some s) as Hw by (unfold wild_suffix; by rewrite Es, !bool_decide_eq_true_2).
    eexists; split; [done|]. apply expanded_wildcard; [done|done| |done].
    unfold explicit_alias. rewrite Es, !bool_decide_eq_true_2 by done. done.
  - assert (wild_suffix lbl = None) as Hw.
    { unfold wild_suffix. rewrite Es. destruct rest as [|s [|]]; try done.
      by rewrite (bool_decide_eq_false_2 (a = _)), andb_false_r. }
    assert (explicit_alias lbl = if HasPrefix a "#" then None else Some a) as He.
    { unfold explicit_alias. rewrite Es, bool_decide_eq_true_2, (bool_decide_eq_false_2 (a = _)) by done.
      cbn [negb andb]. by destruct (HasPrefix a "#"). }
    destruct (HasPrefix a "#") eqn:Eh; cbn [negb]; rewrite ?andb_false_r, ?andb_true_r.
    + exists st. split; [done|]. apply expanded_same; [done|done|]. by rewrite He.
    + destruct (bool_decide (ex_aliasSet st !! a = None)) eqn:En; reflect.
      * eexists; split; [done|]. apply expanded_explicit; [done|done|by apply indexed_insert|].
        rewrite dom_insert_L, H2, explicit_aliases_snoc. cbn [fst]. rewrite He. set_solver.
      * exists st. split; [done|]. apply expanded_same; [done|done|]. rewrite He.
        apply elem_of_dom. destruct (_ !! a); [by eexists|done].
Qed.

Lemma Itoa_inj i j : 0 <= i -> 0 <= j -> Itoa i = Itoa j -> i = j.
Proof.
  intros Hi Hj. unfold Itoa. rewrite !(proj2 (Z.ltb_ge _ _)) by lia. intros He.
  destruct (format_uint_spec i Hi) as (_ & _ & <-), (format_uint_spec j Hj) as (_ & _ & <-). by rewrite He.
Qed.

(** An expanded key tells its index and its suffix. *)
Lemma wildcard_key_inj i j s t :
  0 <= i -> 0 <= j -> wildcard_key i s = wildcard_key j t -> i = j /\ s = t.
Proof.
  intros Hi Hj He.
  assert (forall n, "."%char ∉ Itoa n) as Hno by (intros n; by apply Itoa_no_sep).
  set (tail n (u : bytes) := match u with [] => Itoa n | _ => Itoa n ++ "."%char :: u end).
  assert (forall n u, wildcard_key n u = B "proxy.#" ++ tail (n + 1) u) as Hk by (intros n [|c u]; done).
  rewrite !Hk in He. apply app_inv_head in He. apply (f_equal (fun x => Split x ".")) in He.
  assert (forall n c u, Split (tail n (c :: u)) "." = Itoa n :: Split (c :: u) ".") as Hcons.
  { intros n c u. unfold tail. by rewrite Split_app. }
  assert (forall n, Split (tail n []) "." = [Itoa n]) as Hnil by (intros n; by apply Split_no_sep).
  destruct s as [|c s], t as [|d t]; rewrite ?Hcons, ?Hnil in He.
  - injection He as He. split; [|done]. apply Itoa_inj in He; lia.
  - apply (f_equal (@List.tl bytes)) in He. cbn [List.tl] in He. symmetry in He. by apply Split_nonempty in He.
  - apply (f_equal (@List.tl bytes)) in He. cbn [List.tl] in He. by apply Split_nonempty in He.
  - pose proof (f_equal (@List.tl bytes) He) as He2. cbn [List.tl] in He2. apply Split_inj in He2.
    injection He as He1 _. apply Itoa_inj in He1; [|lia..]. split; [lia|done].
Qed.

Lemma write_suffix (ais : list (bytes * Z)) (s v : bytes) (labels : gmap bytes bytes) k :
  fold_left (fun labels ai => <[wildcard_key ai.2 s := v]> labels) ais labels !! k
  = if bool_decide (k ∈ map (fun ai => wildcard_key ai.2 s) ais) then Some v else labels !! k.
Proof.
  revert labels; induction ais as [|[a i] ais IH]; intros labels; cbn [fold_left map snd].
  { by rewrite bool_decide_eq_false_2 by (apply not_elem_of_nil). }
  rewrite IH. destruct (decide (k = wildcard_key i s)) as [->|Hne].
  - rewrite lookup_insert_eq, (bool_decide_eq_true_2 (_ ∈ _ :: _)) by (apply elem_of_cons; by left). by case_if.
  - rewrite lookup_insert_ne by congruence.
    rewrite (bool_decide_ext (k ∈ _ :: _) (k ∈ map (fun ai => wildcard_key ai.2 s) ais)); [done|].
    rewrite elem_of_cons. intuition.
Qed.

(** The expanded labels: one per index and wildcard, everything else as before. *)
Lemma expand_write_spec (aliasSet : gmap bytes Z) (wild labels : gmap bytes bytes) :
  indexed aliasSet ->
  let labels' := expand_write aliasSet wild labels in
  (forall s v i, wild !! s = Some v -> 0 <= i < Z.of_nat (size aliasSet) -> labels' !! wildcard_key i s = Some v)
  /\ (forall k, (forall s v i, wild !! s = Some v -> 0 <= i < Z.of_nat (size aliasSet) -> k <> wildcard_key i s) ->
        labels' !! k = labels !! k).
Proof.
  intros Hidx. unfold expand_write. cbv zeta.
  assert (forall k s, k ∈ map (fun ai => wildcard_key ai.2 s) (map_to_list aliasSet)
            <-> exists i, 0 <= i < Z.of_nat (size aliasSet) /\ k = wildcard_key i s) as Hkeys.
  { intros k s. change (map ?f ?l) with (f <$> l). rewrite list_elem_of_fmap. split.
    - intros ([a i] & -> & Hin). apply elem_of_map_to_list in Hin. exists i. split; [apply Hidx; eauto|done].
    - intros (i & Hi & ->). apply Hidx in Hi as (a & Ha). exists (a, i). split; [done|].
      by apply elem_of_map_to_list. }
  assert (forall l, NoDup l.*1 ->
    let res := fold_left (fun labels sv =>
      fold_left (fun labels ai => <[wildcard_key ai.2 sv.1 := sv.2]> labels) (map_to_list aliasSet) labels) l labels in
    (forall s v i, (s, v) ∈ l -> 0 <= i < Z.of_nat (size aliasSet) -> res !! wildcard_key i s = Some v)
    /\ (forall k, (forall s v i, (s, v) ∈ l -> 0 <= i < Z.of_nat (size aliasSet) -> k <> wildcard_key i s) ->
          res !! k = labels !! k)) as Hfold.
  { induction l as [|[s v] l IH] using rev_ind; intros Hnd.
    { split; [|done]. intros s v i Hin. by apply elem_of_nil in Hin. }
    rewrite fmap_app in Hnd. apply NoDup_app in Hnd as (Hnd & Hdis & _).
    destruct (IH Hnd) as [IHa IHb]. rewrite fold_left_app. cbn [fold_left fst snd].
    setoid_rewrite write_suffix. setoid_rewrite elem_of_app. setoid_rewrite list_elem_of_singleton. split.
    - intros s' v' i [Hin|[= -> ->]] Hi.
      + rewrite bool_decide_eq_false_2; [by apply IHa|]. rewrite Hkeys. intros (j & Hj & He).
        apply wildcard_key_inj in He as [_ ->]; [|lia..]. apply (Hdis s).
        * apply list_elem_of_fmap. by exists (s, v').
        * by apply list_elem_of_singleton.
      + rewrite bool_decide_eq_true_2; [done|]. apply Hkeys. eauto.
    - intros k Hk. rewrite bool_decide_eq_false_2.
      + apply IHb. intros s' v' i Hin. by apply (Hk s' v'); auto.
      + rewrite Hkeys. intros (j & Hj & ->). by apply (Hk s v j); auto. }
  destruct (Hfold (map_to_list wild) (NoDup_fst_map_to_list wild)) as [Ha Hb]. split.
  - intros s v i Hs. apply Ha. by apply elem_of_map_to_list.
  - intros k Hk. apply Hb. intros s v i Hin. apply (Hk s v). by apply elem_of_map_to_list.
Qed.

Lemma expanded_fold aliases l seen st :
  expanded aliases (seen ++ l) seen st -> plain_wildcards l -> NoDup (seen ++ l).*1 ->
  exists st', foldM expand_step st l = Ok st' /\ expanded aliases (seen ++ l) (seen ++ l) st'.
Proof.
  revert seen st; induction l as [|[lbl v] l IH]; intros seen st Hex Hp Hnd.
  { exists st. by rewrite !app_nil_r in *. }
  apply Forall_cons in Hp as [Hp Hps].
  destruct (expanded_step aliases (seen ++ (lbl, v) :: l) seen st lbl v Hex) as (st1 & E1 & H1).
  { by constructor. }
  { rewrite fmap_app, fmap_cons in Hnd. apply NoDup_app in Hnd as (_ & Hnd & _).
    intros Hin. apply (Hnd lbl Hin). apply elem_of_cons. by left. }
  cbn [foldM]. rewrite E1. specialize (IH (seen ++ [(lbl, v)]) st1). rewrite <- app_assoc in IH.
  by apply IH.
Qed.

End labels.

(** ** Theorems on labels *)

Section label_theorems.
Context `{DockerLib}.

(** C29: Labels without conflicts are parsed independently of the order of the
    map: every label of the namespace is found under its path with its value,
    nothing else is, and the only errors are labels that are the bare
    namespace. *)
Theorem parse_labels_correct (order : list (bytes * bytes)) :
  (forall s c, SplitRune s c = Split s c) ->
  NoDup order.*1 -> conflict_free (label_paths order) ->
  exists m, parse_order order = Ok (m, bare order)
    /\ forall q v, q <> [] ->
         (get_path m q = Some v <-> exists lbl, (lbl, v) ∈ order /\ Split lbl "." = NSProxy :: q).
Proof.
  intros Hsr Hnd Hcf. destruct (parse_fold order [] [] 0%nat Hsr) as (m & E & Hm); try done.
  - intros q v Hq. split; [by destruct q as [|? [|]]|]. intros (lbl & Hin & _). by apply elem_of_nil in Hin.
  - exists m. split; [done|]. intros q v Hq. by apply Hm.
Qed.

(** A wildcard label without a suffix makes the expansion of labels panic
    exactly when its value has fewer than two newlines. *)
Theorem wildcard_panics_iff (order : list (bytes * bytes)) (aliases : list bytes) :
  ExpandWildcard order aliases = Panic IndexOutOfRange
  <-> exists value, (B "proxy.*", value) ∈ order /\ count_byte value newline <= 1.
Proof.
  unfold ExpandWildcard. split.
  - intros Hp. destruct (decide (Exists (fun lv => lv.1 = B "proxy.*" /\ count_byte lv.2 newline <= 1) order)) as [He|Hne].
    + apply Exists_exists in He as ([lbl v] & Hin & Hl & Hc). simpl in *. subst. eauto.
    + destruct (expand_fold_Ok order {| ex_labels := list_to_map order; ex_aliasSet := init_aliases aliases;
                                        ex_wildcard := ∅ |}) as [st' E].
      { intros value Hin. rewrite Exists_exists in Hne. apply Z.nle_gt. intros Hle. apply Hne.
        by exists (B "proxy.*", value). }
      rewrite E in Hp. cbn [mbind result_bind] in Hp. by case_if.
  - intros (value & Hin & Hc). by rewrite (expand_fold_panics order _ value).
Qed.

(** Wildcard labels are expanded to alias references only: with [n] the
    number of the container's aliases and of the other aliases its labels name,
    every wildcard [proxy.*.s] gives the label [proxy.#i.s] for i from 1 to n,
    every wildcard disappears and no other label changes, whatever the order of
    the map.  The labels of an alias that is not one of the container's are not
    reached: its reference is out of range. *)
Theorem wildcard_expansion (order : list (bytes * bytes)) (aliases : list bytes) :
  NoDup order.*1 -> NoDup aliases -> plain_wildcards order ->
  exists labels, ExpandWildcard order aliases = Ok labels
    /\ let n := Z.of_nat (size (list_to_set aliases ∪ explicit_aliases order : gset bytes)) in
       (forall lbl s v i, (lbl, v) ∈ order -> wild_suffix lbl = Some s -> 0 <= i < n ->
          labels !! wildcard_key i s = Some v)
       /\ (forall k, (forall lbl s v i, (lbl, v) ∈ order -> wild_suffix lbl = Some s -> 0 <= i < n -> k <> wildcard_key i s) ->
            labels !! k = if bool_decide (is_Some (wild_suffix k)) then None
                          else (list_to_map order : gmap bytes bytes) !! k).
Proof.
  intros Hnd Hnda Hp. unfold ExpandWildcard.
  destruct (init_aliases_spec aliases Hnda) as (Hi & Hd & _).
  destruct (expanded_fold aliases order []
    {| ex_labels := list_to_map order; ex_aliasSet := init_aliases aliases; ex_wildcard := ∅ |})
    as (st & E & H1 & H2 & H3 & H4); [|done|done|].
  { split_and!; [done| | |done]; cbn [ex_aliasSet ex_wildcard].
    - rewrite Hd. unfold explicit_aliases. simpl. set_solver.
    - intros s v. rewrite lookup_empty. split; [done|]. intros (l & Hl & _). by apply elem_of_nil in Hl. }
  rewrite app_nil_l in *. rewrite E. cbn [mbind result_bind].
  assert (forall k, ex_labels st !! k = if bool_decide (is_Some (wild_suffix k)) then None
            else (list_to_map order : gmap bytes bytes) !! k) as Hl.
  { intros k. rewrite H4. destruct (decide (k ∈ order.*1)) as [Hk|Hk].
    - by rewrite (bool_decide_eq_true_2 (k ∈ _)).
    - rewrite (bool_decide_eq_false_2 (k ∈ _)) by done. simpl.
      rewrite (not_elem_of_list_to_map_1 order k) by done. by case_if. }
  rewrite <- H2, size_dom.
  destruct (expand_write_spec (ex_aliasSet st) (ex_wildcard st) (ex_labels st) H1) as [Ha Hb].
  destruct (bool_decide (ex_aliasSet st = ∅) || bool_decide (ex_wildcard st = ∅)) eqn:Eb.
  - exists (ex_labels st). split; [done|]. cbv zeta. split; [|done].
    intros lbl s v i Hin Hs Hr. exfalso. apply orb_true_iff in Eb as [Eb|Eb]; reflect.
    + rewrite Eb, map_size_empty in Hr. lia.
    + assert (ex_wildcard st !! s = Some v) as Hw by (apply H3; eauto). rewrite Eb, lookup_empty in Hw. done.
  - eexists; split; [done|]. cbv zeta. split.
    + intros lbl s v i Hin Hs Hr. apply Ha; [apply H3; eauto|done].
    + intros k Hk. rewrite Hb; [apply Hl|]. intros s v i Hw Hr. apply H3 in Hw as (lbl & Hin & Hs). eauto.
Qed.

End label_theorems.

(** A label below a label that has a value is an error, and its last part ends
    up in the map of the value, as if it were an alias of its own. *)
Lemma conflict_leaks a b c x v :
  a <> b ->
  set_path [(a, LStr (c :: x))] [a; b] v = ([(a, LStr (c :: x)); (b, LStr v)], 1%nat).
Proof.
  intros Hne. simpl. rewrite bool_decide_eq_true_2 by done. by rewrite bool_decide_eq_false_2.
Qed.

(** ** Witnesses *)

#[export] Instance demo_docker_lib : DockerLib := {|
  SplitRune := Split;
  CommaSeperatedList s := Split s ",";
  yaml_Unmarshal _ := None;
  url_Hostname _ := None;
  ParseIP_local _ := None;
  EnvDockerHost := [];
  IsDockerHostAgent _ := false;
  GetAgent _ := false
|}.

Definition demo_labels : list (bytes * bytes) :=
  [(B "proxy.a.host", B "localhost"); (B "proxy.b.port", B "4444"); (B "proxy.b.scheme", B "http");
   (B "proxy.*.port", B "5555"); (B "com.example", B "x")].

(** The conditions as boolean tests. *)
Definition conflict_freeb (ps : list (list bytes)) : bool :=
  forallb (fun p => forallb (fun q => negb (proper_prefix p q)) ps) ps.

Lemma conflict_freeb_spec ps : conflict_freeb ps = true -> conflict_free ps.
Proof.
  unfold conflict_freeb. intros H p q Hp Hq. rewrite forallb_forall in H.
  apply list_elem_of_In in Hp, Hq. specialize (H p Hp). rewrite forallb_forall in H.
  specialize (H q Hq). by apply negb_true_iff in H.
Qed.

Lemma parse_labels_correct_witness :
  exists m, parse_order demo_labels = Ok (m, bare demo_labels)
    /\ (get_path m [B "b"; B "port"] = Some (B "4444")
        <-> exists lbl, (lbl, B "4444") ∈ demo_labels /\ Split lbl "." = [NSProxy; B "b"; B "port"]).
Proof.
  destruct (parse_labels_correct demo_labels) as (m & E & Hm).
  - done.
  - decide_closed.
  - apply conflict_freeb_spec. reflexivity.
  - exists m. split; [exact E|]. apply (Hm [B "b"; B "port"] (B "4444")). discriminate.
Defined.

Lemma wildcard_expansion_witness :
  exists labels, ExpandWildcard demo_labels [B "c"] = Ok labels
    /\ labels !! B "proxy.#1.port" = Some (B "5555") /\ labels !! B "proxy.#3.port" = Some (B "5555")
    /\ labels !! B "proxy.a.port" = None.
Proof.
  destruct (wildcard_expansion demo_labels [B "c"]) as (labels & E & Ha & Hb).
  - decide_closed.
  - decide_closed.
  - unfold plain_wildcards, demo_labels. repeat (apply Forall_cons; split); [..|apply Forall_nil; exact I];
      vm_compute; intros H1 H2;
      first [discriminate H1 | discriminate H2 | split; [reflexivity | discriminate]].
  - exists labels. split; [exact E|].
    assert (Z.of_nat (size (list_to_set [B "c"] ∪ explicit_aliases demo_labels : gset bytes)) = 3) as Hn
      by (vm_compute; reflexivity).
    rewrite Hn in Ha, Hb. split_and!.
    + apply (Ha (B "proxy.*.port") (B "port") (B "5555") 0); [decide_closed|reflexivity|lia].
    + apply (Ha (B "proxy.*.port") (B "port") (B "5555") 2); [decide_closed|reflexivity|lia].
    + rewrite Hb; [vm_compute; reflexivity|].
      intros lbl s v i _ _ _ He. apply (f_equal (fun x => nth_error x 6)) in He.
      by destruct s.
Defined.

(** The test [TestExpandWildcard] expects [proxy.a.port] here; the code writes
    references, although the container has no alias. *)
Example expand_wildcard_test :
  ExpandWildcard (take 4 demo_labels) []
  = Ok (list_to_map [(B "proxy.a.host", B "localhost"); (B "proxy.b.port", B "4444");
                     (B "proxy.b.scheme", B "http"); (B "proxy.#1.port", B "5555");
                     (B "proxy.#2.port", B "5555")]).
Proof. decide_closed. Qed.

(** Two labels in conflict, in both orders of the map. *)
Example conflict_order :
  parse_order [(B "proxy.a", B "x"); (B "proxy.a.b", B "1")]
    = Ok ([(B "a", LStr (B "x")); (B "b", LStr (B "1"))], 1%nat)
  /\ parse_order [(B "proxy.a.b", B "1"); (B "proxy.a", B "x")] = Ok ([(B "a", LStr (B "x"))], 0%nat).
Proof. split; reflexivity. Qed.
