(* ===== verification/Container.v ===== *)
(** * Containers

    Models internal/docker/container.go, container_helper.go and
    image_blacklist.go: how a container summary of the Docker API becomes a
    [Container] (names, image, ports, network, hostnames, labels read and
    removed), and which containers are blacklisted.  The map of networks is
    given in the order of the range over it. *)

From S2P Require Import Prelude GoStrings EventQueue Docker.

(** ** Data *)

Record PortSummary := {
  ps_PublicPort : Z;
  ps_PrivatePort : Z;
  ps_Type : bytes
}.

Abbreviation PortMapping := (gmap Z PortSummary).

Record ContainerImage := {
  im_Author : bytes;
  im_Name : bytes;
  im_Tag : bytes;
  im_SHA256 : bytes;
  im_Version : bytes
}.

(** What the code reads of a [container.Summary]. A network has a valid address
    or none. *)
Record Summary := {
  su_ID : bytes;
  su_Names : list bytes;
  su_Image : bytes;
  su_ImageID : bytes;
  su_Labels : gmap bytes bytes;
  su_Mounts : list (bytes * bytes);
  su_Ports : list PortSummary;
  su_NetworkMode : bytes;
  su_Status : bytes;
  su_State : bytes;
  su_Networks : option (list (bytes * option bytes))
}.

(** The errors a container can carry. *)
Inductive container_error :=
  | AgentNotFound
  | NetworkNotFound (network : bytes)
  | IdlewatcherInvalid
  | ErrNoNetwork.

(** [Idw] is the type of idlewatcher configurations. *)
Record Container (Idw : Type) := MkContainer {
  co_DockerHost : bytes;
  co_Image : ContainerImage;
  co_ContainerName : bytes;
  co_ContainerID : bytes;
  co_State : bytes;
  co_HasAgent : bool;
  co_Labels : gmap bytes bytes;
  co_ActualLabels : gmap bytes bytes;
  co_Idlewatcher : option Idw;
  co_Mounts : gmap bytes bytes;
  co_Network : bytes;
  co_PublicPortMapping : PortMapping;
  co_PrivatePortMapping : PortMapping;
  co_PublicHostname : bytes;
  co_PrivateHostname : bytes;
  co_Aliases : list bytes;
  co_IsExcluded : bool;
  co_IsExplicit : bool;
  co_IsHostNetworkMode : bool;
  co_Running : bool;
  co_Errors : list container_error
}.

Arguments co_DockerHost {Idw} _.
Arguments co_Image {Idw} _.
Arguments co_ContainerName {Idw} _.
Arguments co_ContainerID {Idw} _.
Arguments co_State {Idw} _.
Arguments co_HasAgent {Idw} _.
Arguments co_Labels {Idw} _.
Arguments co_ActualLabels {Idw} _.
Arguments co_Idlewatcher {Idw} _.
Arguments co_Mounts {Idw} _.
Arguments co_Network {Idw} _.
Arguments co_PublicPortMapping {Idw} _.
Arguments co_PrivatePortMapping {Idw} _.
Arguments co_PublicHostname {Idw} _.
Arguments co_PrivateHostname {Idw} _.
Arguments co_Aliases {Idw} _.
Arguments co_IsExcluded {Idw} _.
Arguments co_IsExplicit {Idw} _.
Arguments co_IsHostNetworkMode {Idw} _.
Arguments co_Running {Idw} _.
Arguments co_Errors {Idw} _.

(** ** The helper *)

Section helper.
Context `{DockerLib}.

(** The value of a label and the labels without it. *)
Definition getDeleteLabel (labels : gmap bytes bytes) (label : bytes) : bytes * gmap bytes bytes :=
  match labels !! label with
  | Some l => (l, delete label labels)
  | None => ([], labels)
  end.

Definition getName (c : Summary) : result Empty_set bytes :=
  match su_Names c with
  | n :: _ => Ok (TrimPrefix n "/")
  | [] => Panic IndexOutOfRange
  end.

Definition getAliases (c : Summary) (labels : gmap bytes bytes) : result Empty_set (list bytes * gmap bytes bytes) :=
  let (l, labels) := getDeleteLabel labels LabelAliases in
  match l with
  | [] => n ← getName c; Ok ([n], labels)
  | _ => Ok (CommaSeperatedList l, labels)
  end.

Definition getMounts (c : Summary) : gmap bytes bytes :=
  fold_left (fun m v => <[v.1 := v.2]> m) (su_Mounts c) ∅.

Definition parseImage (c : Summary) (labels : gmap bytes bytes) : result Empty_set ContainerImage :=
  match SplitRune (su_Image c) ":" with
  | [] => Panic IndexOutOfRange
  | c0 :: crest =>
      let slashSep := SplitRune c0 "/" in
      let tag := match crest with t :: _ => t | [] => B "latest" end in
      let mk author name :=
        {| im_Author := author; im_Name := name; im_Tag := tag;
           im_SHA256 := (Cut (su_ImageID c) ":").1.2;
           im_Version := default [] (labels !! B "org.opencontainers.image.version") |} in
      if (1 <? length slashSep)%nat then
        match last slashSep with
        | Some name => Ok (mk (Join (take (length slashSep - 1) slashSep) "/") name)
        | None => Panic IndexOutOfRange
        end
      else match slashSep with
           | name :: _ => Ok (mk (B "library") name)
           | [] => Panic IndexOutOfRange
           end
  end.

Definition getPublicPortMapping (c : Summary) : PortMapping :=
  fold_left (fun m v => if ps_PublicPort v =? 0 then m else <[ps_PublicPort v := v]> m) (su_Ports c) ∅.

Definition getPrivatePortMapping (c : Summary) : PortMapping :=
  fold_left (fun m v => <[ps_PrivatePort v := v]> m) (su_Ports c) ∅.

(** ** The blacklist *)

Definition imageBlacklist : list bytes :=
  [B "postgres"; B "mysql"; B "mariadb"; B "redis"; B "memcached"; B "mongo"; B "rabbitmq";
   B "couchdb"; B "neo4j"; B "telegraf"; B "elasticsearch"; B "meilisearch"; B "kibana"; B "solr"].

Definition imageBlacklistFullname : list bytes :=
  [B "gcr.io/zenika-hub/alpine-chrome"; B "eu.gcr.io/zenika-hub/alpine-chrome";
   B "us.gcr.io/zenika-hub/alpine-chrome"; B "asia.gcr.io/zenika-hub/alpine-chrome";
   B "watchtower"; B "getwud/wud"].

Definition authorBlacklist : list bytes :=
  [B "selenium"; B "browserless"; B "zenika"; B "zabbix"; B "moby"; B "docker"].

Definition IsBlacklistedImage (image : ContainerImage) : bool :=
  if bool_decide (im_Name image ∈ imageBlacklist) then true
  else if bool_decide (im_Author image ++ B ":" ++ im_Name image ∈ imageBlacklistFullname) then true
  else bool_decide (im_Author image ∈ authorBlacklist).

Definition databaseMPs : list bytes :=
  [B "/var/lib/postgresql/data"; B "/var/lib/mysql"; B "/var/lib/mongodb"; B "/var/lib/mariadb";
   B "/var/lib/memcached"; B "/var/lib/rabbitmq"].

Definition databasePorts : list Z := [5432; 3306; 6379; 11211; 27017].

Definition isDatabase {Idw} (c : Container Idw) : bool :=
  existsb (fun kv => bool_decide (kv.2 ∈ databaseMPs)) (map_to_list (co_Mounts c))
  || existsb (fun kv => bool_decide (ps_PrivatePort kv.2 ∈ databasePorts)) (map_to_list (co_PrivatePortMapping c)).

Definition IsBlacklisted {Idw} (c : Container Idw) : bool :=
  IsBlacklistedImage (co_Image c) || isDatabase c.

(** ** Hostnames *)

Definition isLocal (dockerHost : bytes) : bool :=
  if HasPrefix dockerHost "unix://" then true
  else if bool_decide (dockerHost = EnvDockerHost) then true
  else
    match url_Hostname dockerHost with
    | None => false
    | Some hostname =>
        match ParseIP_local hostname with
        | Some loc => loc
        | None => bool_decide (hostname = B "localhost")
        end
    end.

Definition publicHostname (running : bool) (dockerHost : bytes) : bytes :=
  if negb running then []
  else if isLocal dockerHost then B "127.0.0.1"
  else match url_Hostname dockerHost with None => B "127.0.0.1" | Some h => h end.

Definition DockerComposeProject (labels : gmap bytes bytes) : bytes :=
  default [] (labels !! B "com.docker.compose.project").

Definition DockerComposeService (labels : gmap bytes bytes) : bytes :=
  default [] (labels !! B "com.docker.compose.service").

(** [Networks[name]] with a valid address. *)
Definition network_address (nets : list (bytes * option bytes)) (name : bytes) : option bytes :=
  match list_find (fun n => n.1 = name) nets with
  | Some (_, (_, ip)) => ip
  | None => None
  end.

(** [setPrivateHostname]: the network, the hostname and the error. *)
Definition privateHostname (host : bytes) (agent : bool) (labels : gmap bytes bytes)
    (networks : option (list (bytes * option bytes))) (network : bytes)
    : bytes * bytes * option container_error :=
  if negb (isLocal host) && negb agent then (network, [], None)
  else
    match networks with
    | None => (network, [], None)
    | Some nets =>
        match network with
        | [] =>
            match list_find (fun n => is_Some n.2) nets with
            | Some (_, (k, Some ip)) => (k, ip, None)
            | _ => ([], [], None)
            end
        | _ =>
            match network_address nets network with
            | Some ip => (network, ip, None)
            | None =>
                let proj := DockerComposeProject labels in
                let newNetwork := proj ++ B "_" ++ network in
                match (if bool_decide (proj <> []) then network_address nets newNetwork else None) with
                | Some ip => (newNetwork, ip, None)
                | None => (network, [], Some (NetworkNotFound network))
                end
            end
        end
    end.

Definition Dependencies (labels : gmap bytes bytes) : list bytes :=
  let deps := default [] (labels !! LabelDependsOn) in
  let deps := match deps with [] => default [] (labels !! B "com.docker.compose.depends_on") | _ => deps end in
  Split deps ",".

(** The idlewatcher settings read from labels. *)
Record idle_labels := {
  il_idle_timeout : bytes;
  il_wake_timeout : bytes;
  il_stop_method : bytes;
  il_stop_timeout : bytes;
  il_stop_signal : bytes;
  il_start_endpoint : bytes;
  il_depends_on : list bytes
}.

Definition read_idle_labels (labels : gmap bytes bytes) : idle_labels * gmap bytes bytes :=
  let (idle, labels) := getDeleteLabel labels LabelIdleTimeout in
  let (wake, labels) := getDeleteLabel labels LabelWakeTimeout in
  let (meth, labels) := getDeleteLabel labels LabelStopMethod in
  let (stop, labels) := getDeleteLabel labels LabelStopTimeout in
  let (signal, labels) := getDeleteLabel labels LabelStopSignal in
  let (endpoint, labels) := getDeleteLabel labels LabelStartEndpoint in
  let deps := Dependencies labels in
  let (_, labels) := getDeleteLabel labels LabelDependsOn in
  ({| il_idle_timeout := idle; il_wake_timeout := wake; il_stop_method := meth; il_stop_timeout := stop;
      il_stop_signal := signal; il_start_endpoint := endpoint; il_depends_on := deps |}, labels).

(** [strconv.ParseBool], errors as false. *)
Definition ParseBool_true (s : bytes) : bool :=
  bool_decide (s ∈ [B "1"; B "t"; B "T"; B "true"; B "TRUE"; B "True"]).

(** ** From a summary to a container *)

Context {Idw : Type}.
(** Deserialization and validation of the idlewatcher settings. *)
Variable unmarshal_idle : idle_labels -> option Idw.

(** A label of the namespace makes a container explicit. *)
Definition is_explicit (labels : gmap bytes bytes) : bool :=
  bool_decide (is_Some (labels !! LabelAliases))
  || existsb (fun kv => HasPrefix kv.1 (NSProxy ++ B ".")) (map_to_list labels).

Definition FromDocker (c : Summary) (dockerHost : bytes) : result Empty_set (Container Idw) :=
  let isExplicit := is_explicit (su_Labels c) in
  let (network, labels) := getDeleteLabel (su_Labels c) LabelNetwork in
  let (exclude, labels) := getDeleteLabel labels LabelExclude in
  image ← parseImage c labels;
  name ← getName c;
  al ← getAliases c labels;
  let labels := al.2 in
  let running := bool_decide (su_Status c = B "running") || bool_decide (su_State c = B "running") in
  let isAgent := IsDockerHostAgent dockerHost in
  let agent := isAgent && GetAgent dockerHost in
  let '(network, private, neterr) := privateHostname dockerHost agent labels (su_Networks c) network in
  let public := publicHostname running dockerHost in
  let (idle, labels) := read_idle_labels labels in
  let idw := match il_idle_timeout idle with [] => None | _ => Some (unmarshal_idle idle) end in
  Ok {| co_DockerHost := dockerHost; co_Image := image; co_ContainerName := name; co_ContainerID := su_ID c;
        co_State := su_State c; co_HasAgent := agent; co_Labels := labels; co_ActualLabels := su_Labels c;
        co_Idlewatcher := match idw with Some (Some cfg) => Some cfg | _ => None end;
        co_Mounts := getMounts c; co_Network := network;
        co_PublicPortMapping := getPublicPortMapping c; co_PrivatePortMapping := getPrivatePortMapping c;
        co_PublicHostname := public; co_PrivateHostname := private;
        co_Aliases := al.1; co_IsExcluded := ParseBool_true exclude; co_IsExplicit := isExplicit;
        co_IsHostNetworkMode := bool_decide (su_NetworkMode c = B "host"); co_Running := running;
        co_Errors :=
          (if isAgent && negb agent then [AgentNotFound] else [])
          ++ option_list neterr
          ++ (match idw with Some None => [IdlewatcherInvalid] | _ => [] end)
          ++ (if bool_decide (private = []) && bool_decide (public = []) && running then [ErrNoNetwork] else []) |}.

(** [UpdatePorts] with the exposed ports [(proto, port)] of the inspected
    container. *)
Definition UpdatePorts (ports : PortMapping) (exposed : list (bytes * Z)) : PortMapping :=
  fold_left (fun m p => if p.2 =? 0 then m else
    <[p.2 := {| ps_PublicPort := p.2 mod 2 ^ 16; ps_PrivatePort := p.2 mod 2 ^ 16; ps_Type := p.1 |}]> m) exposed ports.

End helper.

(** ** Lemmas *)

(** The labels that are settings of the container. *)
Definition setting_labels : list bytes :=
  [LabelNetwork; LabelExclude; LabelAliases; LabelIdleTimeout; LabelWakeTimeout; LabelStopMethod;
   LabelStopTimeout; LabelStopSignal; LabelStartEndpoint; LabelDependsOn].

Lemma getDeleteLabel_eq labels l :
  getDeleteLabel labels l = (default [] (labels !! l), delete l labels).
Proof.
  unfold getDeleteLabel. destruct (labels !! l) eqn:E; [done|]. by rewrite delete_id.
Qed.

Lemma read_idle_labels_rest labels :
  (read_idle_labels labels).2
  = delete LabelDependsOn (delete LabelStartEndpoint (delete LabelStopSignal (delete LabelStopTimeout
      (delete LabelStopMethod (delete LabelWakeTimeout (delete LabelIdleTimeout labels)))))).
Proof. unfold read_idle_labels. by rewrite !getDeleteLabel_eq. Qed.

Lemma delete_settings (labels : gmap bytes bytes) k :
  delete LabelDependsOn (delete LabelStartEndpoint (delete LabelStopSignal (delete LabelStopTimeout
      (delete LabelStopMethod (delete LabelWakeTimeout (delete LabelIdleTimeout
        (delete LabelAliases (delete LabelExclude (delete LabelNetwork labels))))))))) !! k
  = if bool_decide (k ∈ setting_labels) then None else labels !! k.
Proof.
  destruct (bool_decide (k ∈ setting_labels)) eqn:E; reflect; unfold setting_labels in E.
  - rewrite !lookup_delete. repeat case_decide; try done. exfalso.
    repeat (apply elem_of_cons in E as [E|E]; [congruence|]). by apply elem_of_nil in E.
  - repeat (apply not_elem_of_cons in E as [? E]). by rewrite !lookup_delete_ne by congruence.
Qed.

Section theorems.
Context `{DockerLib} {Idw : Type}.
Variable unmarshal_idle : idle_labels -> option Idw.
Hypothesis SplitRune_Split : forall s c, SplitRune s c = Split s c.

Lemma parseImage_Ok c labels : exists im, parseImage c labels = Ok im.
Proof.
  unfold parseImage. rewrite !SplitRune_Split.
  pose proof (Split_nonempty (su_Image c) ":") as H1. destruct (Split (su_Image c) ":") as [|c0 cr]; [done|].
  rewrite SplitRune_Split. pose proof (Split_nonempty c0 "/") as H2.
  destruct (1 <? length (Split c0 "/"))%nat; [|destruct (Split c0 "/"); [done|by eexists]].
  destruct (last (Split c0 "/")) eqn:El; [by eexists|]. by apply last_None in El.
Qed.

Lemma getAliases_eq c labels name :
  getName c = Ok name ->
  getAliases c labels
  = Ok (match labels !! LabelAliases with
        | Some (x :: l) => CommaSeperatedList (x :: l)
        | _ => [name] end, delete LabelAliases labels).
Proof.
  intros Hn. unfold getAliases. rewrite getDeleteLabel_eq, Hn.
  by destruct (labels !! LabelAliases) as [[|x l]|].
Qed.

(** A name without the separators of an image. *)
Definition image_part (s : bytes) : Prop := (":"%char ∉ s) /\ ("/"%char ∉ s).

Lemma Join_no_colon ps : Forall (fun p => ":"%char ∉ p) ps -> ":"%char ∉ Join ps "/".
Proof.
  induction 1 as [|p ps Hp Hps IH]; [apply not_elem_of_nil|].
  destruct ps as [|q ps]; [done|]. rewrite Join_cons by done.
  rewrite not_elem_of_app, not_elem_of_cons. done.
Qed.

Lemma Split_Join ps c : ps <> [] -> Forall (fun p => c ∉ p) ps -> Split (Join ps c) c = ps.
Proof.
  intros Hne Hps. induction Hps as [|p ps Hp Hps IH]; [done|].
  destruct ps as [|q ps]; [by apply Split_no_sep|]. rewrite Join_cons, Split_app by done. by rewrite IH.
Qed.

(** An image reference: path segments, a name and a tag. *)
Definition image_ref (author : list bytes) (name : bytes) (tag : option bytes) : bytes :=
  Join (author ++ [name]) "/" ++ match tag with Some t => ":"%char :: t | None => [] end.

(** An image reference is taken apart into author, name and tag: the path
    before the last slash (or [library]), the last segment, and the text after
    the colon (or [latest]). *)
Theorem parseImage_roundtrip c labels author name tag :
  Forall image_part (author ++ [name]) -> match tag with Some t => ":"%char ∉ t | None => True end ->
  su_Image c = image_ref author name tag ->
  exists im, parseImage c labels = Ok im
    /\ im_Author im = match author with [] => B "library" | _ => Join author "/" end
    /\ im_Name im = name /\ im_Tag im = default (B "latest") tag.
Proof.
  intros Hparts Htag Him. unfold parseImage. rewrite !SplitRune_Split, Him. unfold image_ref.
  set (path := Join (author ++ [name]) "/").
  assert (":"%char ∉ path) as Hpath.
  { apply Join_no_colon. eapply Forall_impl; [done|]. by intros p [? _]. }
  assert (Split (path ++ match tag with Some t => ":"%char :: t | None => [] end) ":"
          = path :: option_list tag) as ->.
  { destruct tag as [t|]; [by rewrite Split_app, Split_no_sep|]. by rewrite app_nil_r, Split_no_sep. }
  rewrite SplitRune_Split. unfold path. rewrite Split_Join.
  2:{ by destruct author. }
  2:{ eapply Forall_impl; [done|]. by intros p [_ ?]. }
  rewrite length_app, last_snoc. simpl length. destruct author as [|a author].
  - simpl. eexists; split; [done|]. by destruct tag.
  - rewrite (proj2 (Nat.ltb_lt _ _)) by (simpl; lia).
    replace (length (a :: author) + 1 - 1)%nat with (length (a :: author)) by lia.
    rewrite take_app_length. eexists; split; [done|]. by destruct tag.
Qed.

(** Turning a summary into a container panics only when it has no name;
    otherwise the labels that are settings are removed, all others kept, the
    original labels preserved, the aliases never read from what was removed,
    and a running container without errors has an address. *)
Theorem FromDocker_spec c host :
  su_Names c <> [] ->
  exists co, FromDocker unmarshal_idle c host = Ok co
    /\ co_ActualLabels co = su_Labels c
    /\ (forall k, co_Labels co !! k = if bool_decide (k ∈ setting_labels) then None else su_Labels c !! k)
    /\ (co_Aliases co = match su_Labels c !! LabelAliases with
                        | Some (x :: l) => CommaSeperatedList (x :: l)
                        | _ => [co_ContainerName co] end)
    /\ (co_Errors co = [] -> co_Running co = true -> co_PrivateHostname co <> [] \/ co_PublicHostname co <> []).
Proof.
  intros Hn. unfold FromDocker. rewrite !getDeleteLabel_eq.
  destruct (parseImage_Ok c (delete LabelExclude (delete LabelNetwork (su_Labels c)))) as [im ->].
  destruct (su_Names c) as [|n names] eqn:En; [done|].
  set (labels1 := delete LabelExclude (delete LabelNetwork (su_Labels c))).
  assert (getName c = Ok (TrimPrefix n "/")) as Hname by (unfold getName; by rewrite En).
  assert (labels1 !! LabelAliases = su_Labels c !! LabelAliases) as Hal.
  { unfold labels1. by rewrite !lookup_delete_ne by done. }
  cbn [mbind result_bind]. rewrite Hname. cbn [mbind result_bind].
  rewrite (getAliases_eq c labels1 _ Hname), Hal.
  cbn [mbind result_bind fst snd].
  destruct (privateHostname _ _ _ _ _) as [[network private] neterr].
  pose proof (read_idle_labels_rest (delete LabelAliases labels1)) as Hrest.
  destruct (read_idle_labels (delete LabelAliases labels1)) as [idle rest]. cbn [snd] in Hrest.
  eexists; split; [reflexivity|]. cbn [co_ActualLabels co_Labels co_Aliases co_ContainerName co_Errors co_Running
    co_PrivateHostname co_PublicHostname]. split_and!; [done| |done|].
  - intros k. rewrite Hrest. apply delete_settings.
  - intros He Hr. rewrite Hr, andb_true_r in He.
    apply app_nil in He as [_ He]. apply app_nil in He as [_ He]. apply app_nil in He as [_ He].
    destruct (bool_decide (private = [])) eqn:E1; reflect; [|by left].
    destruct (bool_decide (publicHostname _ _ = [])) eqn:E2; reflect; [done|]. right. congruence.
Qed.

End theorems.

(** The full names of the blacklist are never matched: the lookup joins author
    and name with a colon, and no entry has one. *)
Lemma blacklist_fullname_dead image :
  IsBlacklistedImage image
  = bool_decide (im_Name image ∈ imageBlacklist) || bool_decide (im_Author image ∈ authorBlacklist).
Proof.
  unfold IsBlacklistedImage. destruct (bool_decide (im_Name image ∈ imageBlacklist)); [done|].
  rewrite bool_decide_eq_false_2; [done|]. intros Hin.
  assert (Forall (fun s => ":"%char ∉ s) imageBlacklistFullname) as Hall by decide_closed.
  rewrite Forall_forall in Hall. apply (Hall _ Hin). apply elem_of_app. right. simpl.
  apply elem_of_cons. by left.
Qed.

(** ** Witnesses *)

Definition demo_summary (image : string) : Summary :=
  {| su_ID := "0123456789ab"; su_Names := [B "/web"]; su_Image := image; su_ImageID := "sha256:77";
     su_Labels := list_to_map [(LabelAliases, B "a,b"); (B "proxy.a.port", B "80"); (LabelIdleTimeout, B "1m")];
     su_Mounts := []; su_Ports := []; su_NetworkMode := "bridge"; su_Status := "Up 3 seconds";
     su_State := "running"; su_Networks := Some [(B "net", Some (B "172.18.0.2"))] |}.

Lemma parseImage_roundtrip_witness :
  exists im, parseImage (demo_summary "ghcr.io/acme/web:1.2") ∅ = Ok im
    /\ im_Author im = B "ghcr.io/acme" /\ im_Name im = B "web" /\ im_Tag im = B "1.2".
Proof.
  apply (@parseImage_roundtrip demo_docker_lib (fun _ _ => eq_refl) (demo_summary "ghcr.io/acme/web:1.2") ∅
           [B "ghcr.io"; B "acme"] (B "web") (Some (B "1.2"))).
  - unfold image_part. decide_closed.
  - decide_closed.
  - reflexivity.
Defined.

Lemma FromDocker_spec_witness :
  exists co, FromDocker (fun l => Some l) (demo_summary "web") "unix:///var/run/docker.sock" = Ok co
    /\ co_Labels co !! B "proxy.a.port" = Some (B "80") /\ co_Labels co !! LabelIdleTimeout = None
    /\ co_Aliases co = [B "a"; B "b"].
Proof.
  destruct (@FromDocker_spec demo_docker_lib _ (fun l => Some l) (fun _ _ => eq_refl) (demo_summary "web") "unix:///var/run/docker.sock")
    as (co & E & _ & Hl & Ha & _); [discriminate|].
  exists co. rewrite !Hl, Ha. split; [exact E|]. split_and!; vm_compute; reflexivity.
Defined.

(** The port of a registry is taken for the tag, and its host for the name. *)
Example registry_port_misparsed :
  (fun im => (im_Author im, im_Name im, im_Tag im))
    <$> parseImage (demo_summary "registry.local:5000/acme/web:1.2") ∅
  = Ok (B "library", B "registry.local", B "5000/acme/web").
Proof. reflexivity. Qed.

(** Watchtower and WUD are not blacklisted. *)
Example watchtower_not_blacklisted :
  (IsBlacklistedImage <$> parseImage (demo_summary "containrrr/watchtower") ∅) = Ok false
  /\ (IsBlacklistedImage <$> parseImage (demo_summary "getwud/wud") ∅) = Ok false.
Proof. split; reflexivity. Qed.
