(* ===== verification/IdleConfig.v ===== *)
(** * Settings of the idle watcher

    Models internal/types/idlewatcher.go: the configuration of a container that
    is stopped when idle, its validation with the defaults it sets, and the key
    and name of the container.  [url.ParseRequestURI] is a parameter. *)

From S2P Require Import Prelude GoStrings.

Record DockerConfig := {
  dc_DockerHost : bytes;
  dc_ContainerID : bytes;
  dc_ContainerName : bytes
}.

Record ProxmoxConfig := {
  px_Node : bytes;
  px_VMID : Z
}.

(** Why a configuration is invalid. *)
Inductive idle_error :=
  | MissingProvider
  | InvalidStopMethod (m : bytes)
  | InvalidStopSignal (s : bytes)
  | EmptyStartEndpoint
  | InvalidStartEndpoint (s : bytes).

Record IdlewatcherConfig := {
  iw_Proxmox : option ProxmoxConfig;
  iw_Docker : option DockerConfig;
  iw_IdleTimeout : Z;
  iw_WakeTimeout : Z;
  iw_StopTimeout : Z;
  iw_StopMethod : bytes;
  iw_StopSignal : bytes;
  iw_StartEndpoint : bytes;
  iw_DependsOn : list bytes;
  iw_valErr : list idle_error
}.

Definition ContainerWakeTimeoutDefault : Z := 30 * Second.
Definition ContainerStopTimeoutDefault : Z := 1 * Minute.
Definition ContainerStopMethodPause : bytes := "pause".
Definition ContainerStopMethodStop : bytes := "stop".
Definition ContainerStopMethodKill : bytes := "kill".

(** Without a Docker configuration the Proxmox one is dereferenced. *)
Definition Idle_Key (c : IdlewatcherConfig) : result Empty_set bytes :=
  match iw_Docker c, iw_Proxmox c with
  | Some d, _ => Ok (dc_ContainerID d)
  | None, Some p => Ok (px_Node p ++ B ":" ++ Itoa (px_VMID p))
  | None, None => Panic NilDereference
  end.

Definition Idle_ContainerName (c : IdlewatcherConfig) : result Empty_set bytes :=
  match iw_Docker c, iw_Proxmox c with
  | Some d, _ => Ok (dc_ContainerName d)
  | None, Some p => Ok (B "lxc-" ++ Itoa (px_VMID p))
  | None, None => Panic NilDereference
  end.

Definition validateProvider (c : IdlewatcherConfig) : list idle_error :=
  match iw_Docker c, iw_Proxmox c with None, None => [MissingProvider] | _, _ => [] end.

Definition default_Z (d x : Z) : Z := if x =? 0 then d else x.

Definition validateStopMethod (m : bytes) : bytes * list idle_error :=
  match m with
  | [] => (ContainerStopMethodStop, [])
  | _ => (m, if bool_decide (m ∈ [ContainerStopMethodPause; ContainerStopMethodStop; ContainerStopMethodKill])
             then [] else [InvalidStopMethod m])
  end.

Definition stop_signals : list bytes :=
  [[]; B "SIGINT"; B "SIGTERM"; B "SIGQUIT"; B "SIGHUP"; B "INT"; B "TERM"; B "QUIT"; B "HUP"].

Definition validateStopSignal (s : bytes) : list idle_error :=
  if bool_decide (s ∈ stop_signals) then [] else [InvalidStopSignal s].

Section validate.
Variable ParseRequestURI : bytes -> bool.

(** The fragment is cut off before the check. *)
Definition validateStartEndpoint (e : bytes) : bytes * list idle_error :=
  match e with
  | [] => ([], [])
  | _ =>
      let e := match IndexByte e "#" with Some i => take i e | None => e end in
      (e, match e with
          | [] => [EmptyStartEndpoint]
          | _ => if ParseRequestURI e then [] else [InvalidStartEndpoint e]
          end)
  end.

(** [Validate] stores its errors and changes the fields it fixes. *)
Definition Idle_Validate (c : IdlewatcherConfig) : IdlewatcherConfig :=
  if iw_IdleTimeout c =? 0 then
    {| iw_Proxmox := iw_Proxmox c; iw_Docker := iw_Docker c; iw_IdleTimeout := iw_IdleTimeout c;
       iw_WakeTimeout := iw_WakeTimeout c; iw_StopTimeout := iw_StopTimeout c; iw_StopMethod := iw_StopMethod c;
       iw_StopSignal := iw_StopSignal c; iw_StartEndpoint := iw_StartEndpoint c;
       iw_DependsOn := iw_DependsOn c; iw_valErr := [] |}
  else
    let (meth, e3) := validateStopMethod (iw_StopMethod c) in
    let (endpoint, e5) := validateStartEndpoint (iw_StartEndpoint c) in
    {| iw_Proxmox := iw_Proxmox c; iw_Docker := iw_Docker c; iw_IdleTimeout := iw_IdleTimeout c;
       iw_WakeTimeout := default_Z ContainerWakeTimeoutDefault (iw_WakeTimeout c);
       iw_StopTimeout := default_Z ContainerStopTimeoutDefault (iw_StopTimeout c);
       iw_StopMethod := meth; iw_StopSignal := iw_StopSignal c; iw_StartEndpoint := endpoint;
       iw_DependsOn := iw_DependsOn c;
       iw_valErr := validateProvider c ++ e3 ++ validateStopSignal (iw_StopSignal c) ++ e5 |}.

(** What a valid configuration guarantees to the watcher: a provider, a known
    stop method and signal, timeouts that are set, no fragment in the path. *)
Lemma Idle_Validate_sound c :
  let c' := Idle_Validate c in
  iw_IdleTimeout c <> 0 -> iw_valErr c' = [] ->
  (exists k, Idle_Key c' = Ok k) /\ (exists n, Idle_ContainerName c' = Ok n)
  /\ iw_StopMethod c' ∈ [ContainerStopMethodPause; ContainerStopMethodStop; ContainerStopMethodKill]
  /\ iw_StopSignal c' ∈ stop_signals
  /\ iw_WakeTimeout c' <> 0 /\ iw_StopTimeout c' <> 0
  /\ (iw_StartEndpoint c' = [] \/ ParseRequestURI (iw_StartEndpoint c') = true).
Proof.
  intros c' Hi. unfold c', Idle_Validate. rewrite (proj2 (Z.eqb_neq _ _)) by done. clear c'.
  destruct (validateStopMethod (iw_StopMethod c)) as [meth e3] eqn:Em.
  destruct (validateStartEndpoint (iw_StartEndpoint c)) as [ep e5] eqn:Ee. cbn.
  intros He. apply app_nil in He as [H1 He]. apply app_nil in He as [H2 He]. apply app_nil in He as [H3 H4].
  assert (default_Z ContainerWakeTimeoutDefault (iw_WakeTimeout c) <> 0
          /\ default_Z ContainerStopTimeoutDefault (iw_StopTimeout c) <> 0) as [H5 H6].
  { unfold default_Z. split; case_if; reflect; done. }
  split_and!; [| | | |done|done|].
  - unfold Idle_Key, validateProvider in *. cbn. destruct (iw_Docker c), (iw_Proxmox c); eauto; done.
  - unfold Idle_ContainerName, validateProvider in *. cbn. destruct (iw_Docker c), (iw_Proxmox c); eauto; done.
  - unfold validateStopMethod in Em. destruct (iw_StopMethod c); [injection Em as <- <-; decide_closed|].
    injection Em as <- Em. rewrite H2 in Em. case_bool_decide; done.
  - unfold validateStopSignal in H3. case_bool_decide; done.
  - unfold validateStartEndpoint in Ee. destruct (iw_StartEndpoint c) as [|x s]; [injection Ee as <- <-; by left|].
    injection Ee as E1 E2. rewrite E1 in E2. destruct ep; [by left|]. right. rewrite H4 in E2. by case_if.
Qed.

End validate.
