(* ===== verification/Route.v ===== *)
(** * Routes

    Models internal/route: schemes and ports (types/scheme.go, types/port.go),
    the ports known by image and alias (port_selection.go), and a route's
    finalization, validation, exclusion, identity and preference (route.go).

    The record [Route] has the fields the code reads or writes.  Agents,
    Proxmox nodes, rule presets, files and the constructors of the three kinds
    of routes are fields of [RouteLib]; the rules of a route are an abstract
    type.  A map that is ranged over is given in the order of the range. *)

From S2P Require Import Prelude GoStrings NetAddr Health Monitor Docker Container IdleConfig.

(** ** Schemes *)

Definition SchemeHTTP : Z := Z.shiftl 1 0.
Definition SchemeHTTPS : Z := Z.shiftl 1 1.
Definition SchemeTCP : Z := Z.shiftl 1 2.
Definition SchemeUDP : Z := Z.shiftl 1 3.
Definition SchemeFileServer : Z := Z.shiftl 1 4.
Definition SchemeNone : Z := 0.

Definition schemeReverseProxy : Z := Z.lor SchemeHTTP SchemeHTTPS.
Definition schemeStream : Z := Z.lor SchemeTCP SchemeUDP.

Definition schemes : list Z := [SchemeHTTP; SchemeHTTPS; SchemeTCP; SchemeUDP; SchemeFileServer].

Definition Scheme_String (s : Z) : bytes :=
  if s =? SchemeHTTP then "http"
  else if s =? SchemeHTTPS then "https"
  else if s =? SchemeTCP then "tcp"
  else if s =? SchemeUDP then "udp"
  else if s =? SchemeFileServer then "fileserver"
  else "unknown".

Definition Scheme_Parse (v : bytes) : option Z :=
  if bool_decide (v = B "http") then Some SchemeHTTP
  else if bool_decide (v = B "https") then Some SchemeHTTPS
  else if bool_decide (v = B "tcp") then Some SchemeTCP
  else if bool_decide (v = B "udp") then Some SchemeUDP
  else if bool_decide (v = B "fileserver") then Some SchemeFileServer
  else None.

Definition IsReverseProxy (s : Z) : bool := negb (Z.land s schemeReverseProxy =? 0).
Definition IsStream (s : Z) : bool := negb (Z.land s schemeStream =? 0).

(** ** Ports *)

Record Port := {
  Listening : Z;
  Proxy : Z
}.

Definition MinPort : Z := 0.
Definition MaxPort : Z := 65535.

Inductive port_error := ErrInvalidPortSyntax | ErrNotANumber | ErrPortOutOfRange (p : Z).

Definition out_of_range (p : Z) : bool := (p <? MinPort) || (MaxPort <? p).

Section port.
Variable SplitRune : bytes -> ascii -> list bytes.

Definition Port_Parse (v : bytes) : result port_error Port :=
  let check l p :=
    if out_of_range l then Err (ErrPortOutOfRange l)
    else if out_of_range p then Err (ErrPortOutOfRange p)
    else Ok {| Listening := l; Proxy := p |} in
  match SplitRune v ":" with
  | [_] => match Atoi v with Some p => check 0 p | None => Err ErrNotANumber end
  | [a; b] => match Atoi a, Atoi b with Some l, Some p => check l p | _, _ => Err ErrNotANumber end
  | _ => Err ErrInvalidPortSyntax
  end.
End port.

Definition Port_String (p : Port) : bytes :=
  if Listening p =? 0 then Itoa (Proxy p) else Itoa (Listening p) ++ B ":" ++ Itoa (Proxy p).

(** ** Ports by image and alias *)

Definition ImageNamePortMapTCP : gmap bytes Z := list_to_map
  [(B "mssql", 1433); (B "mysql", 3306); (B "mariadb", 3306); (B "postgres", 5432); (B "pgvecto-rs", 5432);
   (B "pgvector", 5432); (B "rabbitmq", 5672); (B "redis", 6379); (B "memcached", 11211); (B "mongo", 27017);
   (B "minecraft-server", 25565)].

Definition ImageNamePortMapHTTP : gmap bytes Z := list_to_map
  [(B "adguardhome", 3000); (B "bazarr", 6767); (B "calibre-web", 8083); (B "changedetection.io", 3000);
   (B "dockge", 5001); (B "gitea", 3000); (B "gogs", 3000); (B "grafana", 3000); (B "home-assistant", 8123);
   (B "homebridge", 8581); (B "httpd", 80); (B "immich", 3001); (B "jellyfin", 8096); (B "lidarr", 8686);
   (B "microbin", 8080); (B "nginx", 80); (B "nginx-proxy-manager", 81); (B "open-webui", 8080);
   (B "plex", 32400); (B "prometheus", 9090); (B "prowlarr", 9696); (B "radarr", 7878); (B "radarr-sma", 7878);
   (B "rsshub", 1200); (B "rss-bridge", 80); (B "sonarr", 8989); (B "sonarr-sma", 8989); (B "uptime-kuma", 3001);
   (B "whisparr", 6969)].

Definition ImageNamePortMapHTTPS : gmap bytes Z := list_to_map
  [(B "portainer-be", 9443); (B "portainer-ce", 9443)].

Definition AliasPortMapHTTP : gmap bytes Z := ∅.

Definition AliasPortMapHTTPS : gmap bytes Z := list_to_map
  [(B "portainer", 9443); (B "crafty", 8080)].

Definition getSchemePortByImageName (imageName : bytes) : option (Z * Z) :=
  match ImageNamePortMapHTTP !! imageName with
  | Some port => Some (SchemeHTTP, port)
  | None =>
      match ImageNamePortMapHTTPS !! imageName with
      | Some port => Some (SchemeHTTPS, port)
      | None =>
          match ImageNamePortMapTCP !! imageName with
          | Some port => Some (SchemeTCP, port)
          | None => None
          end
      end
  end.

Definition getSchemePortByAlias (alias : bytes) : option (Z * Z) :=
  match AliasPortMapHTTP !! alias with
  | Some port => Some (SchemeHTTP, port)
  | None =>
      match AliasPortMapHTTPS !! alias with
      | Some port => Some (SchemeHTTPS, port)
      | None => None
      end
  end.

Definition preferredPortOrder : list Z := [80; 8080; 3000; 8000; 443; 8443].

(** The fallback loop over the ports in the order of the range. *)
Definition lowest_port (order : list (Z * PortSummary)) : Z :=
  (fold_left (fun acc kv => if ps_PrivatePort kv.2 <? acc.1 then (ps_PrivatePort kv.2, kv.1) else acc)
             order (65535, 0)).2.

Definition preferredPort (order : list (Z * PortSummary)) : Z :=
  match List.find (fun port => bool_decide (port ∈ order.*1)) preferredPortOrder with
  | Some port => port
  | None => lowest_port order
  end.

(** ** The route *)

Record HomepageItem := { hp_Show : bool; hp_Name : bytes; hp_Category : bytes }.

Inductive excluded_reason :=
  | ExcludedReasonNone
  | ExcludedReasonError
  | ExcludedReasonManual
  | ExcludedReasonNoPortContainer
  | ExcludedReasonNoPortSpecified
  | ExcludedReasonBlacklisted
  | ExcludedReasonBuildx
  | ExcludedReasonOld.

#[export] Instance excluded_reason_eq_dec : EqDecision excluded_reason.
Proof. solve_decision. Defined.

Definition ExcludedReason_String (re : excluded_reason) : bytes :=
  match re with
  | ExcludedReasonNone => ""
  | ExcludedReasonError => "Error"
  | ExcludedReasonManual => "Manual exclusion"
  | ExcludedReasonNoPortContainer => "No port exposed in container"
  | ExcludedReasonNoPortSpecified => "No port specified"
  | ExcludedReasonBlacklisted => "Blacklisted (backend service or database)"
  | ExcludedReasonBuildx => "Buildx"
  | ExcludedReasonOld => "Container renaming intermediate state"
  end.

Inductive route_error :=
  | AgentNotAllowed
  | RouteAgentNotFound (name : bytes)
  | ProxmoxNodeRequired
  | ProxmoxVMIDRequired
  | ProxmoxNodeNotFound
  | ProxmoxIPsFailed
  | ProxmoxNoIPs
  | ProxmoxStateFailed
  | ProxmoxStartFailed
  | ProxmoxUnreachable
  | ReservedPort (port : Z)
  | RulePresetNotFound (name : bytes)
  | RuleFileAndRules
  | RuleFileInvalid (file : bytes)
  | UnexpectedListeningPort
  | InvalidURL (url : bytes)
  | HealthCheckRequired
  | ValidationErrors (l : list route_error)
  | ImplError (e : bytes)
  | NotInitialized
  | StartError (e : bytes)
  | RouteExists.

Section route.
Context {RuleT : Type}.

(** What identifies and addresses the upstream. *)
Record Route := MkRoute {
  rt_Alias : bytes;
  rt_Scheme : Z;
  rt_Host : bytes;
  rt_Port : Port;
  rt_Root : bytes;
  rt_Rules : list RuleT;
  rt_RuleFile : bytes;
  rt_HealthCheck : option HealthCheckConfig;
  rt_LoadBalanceLink : option bytes;
  rt_Homepage : option HomepageItem;
  rt_Agent : bytes;
  rt_Idlewatcher : option IdlewatcherConfig;
  rt_Container : option (Container IdlewatcherConfig);
  rt_Provider : bytes;
  rt_LisURL : option bytes;
  rt_ProxyURL : option bytes;
  rt_Excluded : bool;
  rt_ExcludedReason : excluded_reason;
  rt_impl : bool;
  rt_valErr : option route_error;
  rt_agent : bool
}.

(** *** Updates of groups of fields *)

Definition set_target (r : Route) (alias : bytes) (scheme : Z) (host : bytes) (port : Port)
    (hc : option HealthCheckConfig) : Route :=
  {| rt_Alias := alias; rt_Scheme := scheme; rt_Host := host; rt_Port := port; rt_Root := rt_Root r;
     rt_Rules := rt_Rules r; rt_RuleFile := rt_RuleFile r; rt_HealthCheck := hc;
     rt_LoadBalanceLink := rt_LoadBalanceLink r; rt_Homepage := rt_Homepage r; rt_Agent := rt_Agent r;
     rt_Idlewatcher := rt_Idlewatcher r; rt_Container := rt_Container r; rt_Provider := rt_Provider r;
     rt_LisURL := rt_LisURL r; rt_ProxyURL := rt_ProxyURL r; rt_Excluded := rt_Excluded r;
     rt_ExcludedReason := rt_ExcludedReason r; rt_impl := rt_impl r; rt_valErr := rt_valErr r;
     rt_agent := rt_agent r |}.

Definition set_meta (r : Route) (rules : list RuleT) (idle : option IdlewatcherConfig) (lis proxy : option bytes)
    (excl : bool) (reason : excluded_reason) (impl : bool) (err : option route_error) (agent : bool) : Route :=
  {| rt_Alias := rt_Alias r; rt_Scheme := rt_Scheme r; rt_Host := rt_Host r; rt_Port := rt_Port r;
     rt_Root := rt_Root r; rt_Rules := rules; rt_RuleFile := rt_RuleFile r; rt_HealthCheck := rt_HealthCheck r;
     rt_LoadBalanceLink := rt_LoadBalanceLink r; rt_Homepage := rt_Homepage r; rt_Agent := rt_Agent r;
     rt_Idlewatcher := idle; rt_Container := rt_Container r; rt_Provider := rt_Provider r;
     rt_LisURL := lis; rt_ProxyURL := proxy; rt_Excluded := excl; rt_ExcludedReason := reason;
     rt_impl := impl; rt_valErr := err; rt_agent := agent |}.

Definition set_host (r : Route) (host : bytes) : Route :=
  set_target r (rt_Alias r) (rt_Scheme r) host (rt_Port r) (rt_HealthCheck r).

Definition set_agent (r : Route) (b : bool) : Route :=
  set_meta r (rt_Rules r) (rt_Idlewatcher r) (rt_LisURL r) (rt_ProxyURL r) (rt_Excluded r)
    (rt_ExcludedReason r) (rt_impl r) (rt_valErr r) b.

Definition set_idle (r : Route) (i : option IdlewatcherConfig) : Route :=
  set_meta r (rt_Rules r) i (rt_LisURL r) (rt_ProxyURL r) (rt_Excluded r)
    (rt_ExcludedReason r) (rt_impl r) (rt_valErr r) (rt_agent r).

Definition set_rules (r : Route) (l : list RuleT) : Route :=
  set_meta r l (rt_Idlewatcher r) (rt_LisURL r) (rt_ProxyURL r) (rt_Excluded r)
    (rt_ExcludedReason r) (rt_impl r) (rt_valErr r) (rt_agent r).

Definition set_urls (r : Route) (lis proxy : option bytes) : Route :=
  set_meta r (rt_Rules r) (rt_Idlewatcher r) lis proxy (rt_Excluded r)
    (rt_ExcludedReason r) (rt_impl r) (rt_valErr r) (rt_agent r).

Definition set_valErr (r : Route) (e : option route_error) : Route :=
  set_meta r (rt_Rules r) (rt_Idlewatcher r) (rt_LisURL r) (rt_ProxyURL r) (rt_Excluded r)
    (rt_ExcludedReason r) (rt_impl r) e (rt_agent r).

(** *** Queries *)

Definition UseLoadBalance (r : Route) : bool :=
  match rt_LoadBalanceLink r with Some (_ :: _) => true | _ => false end.

Definition UseIdleWatcher (r : Route) : bool :=
  match rt_Idlewatcher r with
  | Some i => (0 <? iw_IdleTimeout i) && bool_decide (iw_valErr i = [])
  | None => false
  end.

(** [HealthCheck] is a pointer: nil before [Finalize]. *)
Definition UseHealthCheck (r : Route) : result Empty_set bool :=
  let off :=
    match rt_Container r with
    | Some c =>
        bool_decide (im_Name (co_Image c) = B "godoxy-agent")
        || (negb (co_Running c) && negb (UseIdleWatcher r))
        || HasPrefix (co_ContainerName c) "buildx_"
    | None => false
    end in
  if off then Ok false
  else match rt_HealthCheck r with
       | Some hc => Ok (negb (hc_Disable hc))
       | None => Panic NilDereference
       end.

Definition IsAgent (r : Route) : bool :=
  match rt_Container r with
  | Some c => if co_HasAgent c then true else rt_agent r
  | None => rt_agent r
  end.

Definition IsZeroPort (r : Route) : bool := Proxy (rt_Port r) =? 0.

Definition ShouldExclude (r : Route) : bool :=
  match rt_valErr r with
  | Some _ => true
  | None =>
      rt_Excluded r
      || (match rt_Container r with
          | Some c =>
              co_IsExcluded c
              || (IsZeroPort r && negb (UseIdleWatcher r))
              || (negb (co_IsExplicit c) && IsBlacklisted c)
              || HasPrefix (co_ContainerName c) "buildx_"
          | None => IsZeroPort r && negb (rt_Scheme r =? SchemeFileServer)
          end)
      || HasSuffix (rt_Alias r) "-old"
  end.

Definition old_reason (r : Route) : excluded_reason :=
  if HasSuffix (rt_Alias r) "-old" then ExcludedReasonOld else ExcludedReasonNone.

Definition findExcludedReason (r : Route) : excluded_reason :=
  match rt_valErr r with
  | Some _ => ExcludedReasonError
  | None =>
      if negb (bool_decide (rt_ExcludedReason r = ExcludedReasonNone)) then rt_ExcludedReason r
      else
        match rt_Container r with
        | Some c =>
            if co_IsExcluded c then ExcludedReasonManual
            else if IsZeroPort r && negb (UseIdleWatcher r) then ExcludedReasonNoPortContainer
            else if negb (co_IsExplicit c) && IsBlacklisted c then ExcludedReasonBlacklisted
            else if HasPrefix (co_ContainerName c) "buildx_" then ExcludedReasonBuildx
            else old_reason r
        | None =>
            if IsZeroPort r && negb (rt_Scheme r =? SchemeFileServer) then ExcludedReasonNoPortSpecified
            else old_reason r
        end
  end.

(** [Key]: a panic when the ID of the container has fewer than 8 bytes. *)
Definition Route_Key (r : Route) : result Empty_set bytes :=
  if UseLoadBalance r || ShouldExclude r then
    match rt_Container r with
    | Some c =>
        if (8 <=? length (co_ContainerID c))%nat
        then Ok (rt_Provider r ++ B ":" ++ rt_Alias r ++ B "-" ++ take 8 (co_ContainerID c))
        else Panic SliceOutOfBounds
    | None => Ok (rt_Provider r ++ B ":" ++ rt_Alias r)
    end
  else Ok (rt_Alias r).

Inductive RouteType := RouteTypeHTTP | RouteTypeStream.

Definition Route_Type (r : Route) : result Empty_set RouteType :=
  if bool_decide (rt_Scheme r ∈ [SchemeHTTP; SchemeHTTPS; SchemeFileServer]) then Ok RouteTypeHTTP
  else if bool_decide (rt_Scheme r ∈ [SchemeTCP; SchemeUDP]) then Ok RouteTypeStream
  else Panic ExplicitPanic.

Definition References (r : Route) : list bytes :=
  match rt_Container r with
  | Some c =>
      if negb (bool_decide (co_ContainerName c = rt_Alias r))
      then [co_ContainerName c; rt_Alias r; im_Name (co_Image c); im_Author (co_Image c)]
      else [im_Name (co_Image c); rt_Alias r; im_Author (co_Image c)]
  | None => [rt_Alias r]
  end.

(** [PreferOver] another route. *)
Definition PreferOver (r other : Route) : bool :=
  match rt_Rules r, rt_Rules other with
  | _ :: _, [] => true
  | [], _ :: _ => false
  | _, _ =>
      match rt_Container r, rt_Container other with
      | None, Some _ => true
      | Some _, None => false
      | _, _ => true
      end
  end.

End route.

Arguments Route : clear implicits.

(** ** Finalization and validation *)

Class RouteLib (RuleT : Type) := {
  rl_ToLower : Z -> Z;                                   (* unicode, outside ASCII *)
  rl_range : PortMapping -> list (Z * PortSummary);      (* the order of a range *)
  rl_agent_by_addr : bytes -> bool;
  rl_agent_by_name : bytes -> bool;
  rl_proxmox_node : bytes -> bool;
  rl_lxc_ips : bytes -> Z -> option (list bytes);
  rl_lxc_running : bytes -> Z -> option bool;
  rl_lxc_start : bytes -> Z -> bool;
  rl_ping : bytes -> Z -> bool;
  rl_preset : bytes -> option (list RuleT);
  rl_url_parse : bytes -> option (bytes * bytes * bytes); (* scheme, host, path *)
  rl_read_file : bytes -> option bytes;
  rl_convert_rules : bytes -> option (list RuleT);
  rl_new_impl : Route RuleT -> option bytes;             (* error of the constructor *)
  rl_ProxyHTTPPort : Z;
  rl_ProxyHTTPSPort : Z;
  rl_APIHTTPPort : Z;
  rl_homepage_meta : bytes -> option (bytes * bytes);
  rl_category : bytes -> option bytes;
  rl_use_default_categories : bool;
  rl_Title : bytes -> bytes
}.

Definition DefaultHost : bytes := "localhost".

Section validation.
Context {RuleT : Type} `{RouteLib RuleT}.
Abbreviation Route := (Route RuleT).

(** *** [Finalize] *)

Definition finalize_host (host : bytes) (cont : option (Container IdlewatcherConfig)) : bytes :=
  match host with
  | [] =>
      match cont with
      | None => B "localhost"
      | Some c =>
          if bool_decide (co_PrivateHostname c <> []) then co_PrivateHostname c
          else if bool_decide (co_PublicHostname c <> []) then co_PublicHostname c
          else []
      end
  | _ => host
  end.

(** A scheme and a port known by name fill in what is not set. *)
Definition known_target (known : option (Z * Z)) (sp : Z * Z) : Z * Z :=
  match known with
  | Some (scheme, port) =>
      (if sp.1 =? SchemeNone then scheme else sp.1, if sp.2 =? 0 then port else sp.2)
  | None => sp
  end.

Definition default_port (cont : option (Container IdlewatcherConfig)) (scheme pp : Z) : Z :=
  if pp =? 0 then
    match cont with
    | Some c => if co_IsHostNetworkMode c then preferredPort (rl_range (co_PublicPortMapping c))
                else preferredPort (rl_range (co_PrivatePortMapping c))
    | None => if scheme =? SchemeHTTPS then 443 else 80
    end
  else pp.

(** UDP is recognised by the type of the port. *)
Definition udp_scheme (c : Container IdlewatcherConfig) (scheme pp : Z) : Z :=
  if (scheme =? SchemeNone)
     && existsb (fun kv => (ps_PrivatePort kv.2 =? pp) && bool_decide (ps_Type kv.2 = B "udp"))
          (rl_range (co_PublicPortMapping c))
  then SchemeUDP else scheme.

(** The port that belongs to the address in use. *)
Definition translate_port (c : Container IdlewatcherConfig) (host : bytes) (pp : Z) : Z :=
  if bool_decide (host = co_PublicHostname c) then
    match co_PrivatePortMapping c !! pp with Some p => ps_PublicPort p | None => pp end
  else
    match co_PublicPortMapping c !! pp with Some p => ps_PrivatePort p | None => pp end.

Definition default_scheme (scheme lp pp : Z) : Z :=
  if scheme =? SchemeNone then
    if negb (lp =? 0) then SchemeTCP
    else if Z.rem pp 1000 =? 443 then SchemeHTTPS
    else SchemeHTTP
  else scheme.

Definition finalize_health (hc : option HealthCheckConfig) : HealthCheckConfig :=
  let c := default DefaultHealthConfig hc in
  {| hc_Disable := hc_Disable c; hc_Path := hc_Path c; hc_UseGet := hc_UseGet c;
     hc_Interval := if hc_Interval c =? 0 then HealthCheckIntervalDefault else hc_Interval c;
     hc_Timeout := if hc_Timeout c =? 0 then HealthCheckTimeoutDefault else hc_Timeout c;
     hc_Retries := hc_Retries c |}.

Definition Finalize (r : Route) : Route :=
  let alias := ToLowerWith rl_ToLower (TrimSpace (rt_Alias r)) in
  let host := ToLowerWith rl_ToLower (TrimSpace (rt_Host r)) in
  let cont := rt_Container r in
  let host := finalize_host host cont in
  let lp := Listening (rt_Port r) in
  let sp := (rt_Scheme r, Proxy (rt_Port r)) in
  let sp := match cont with
            | Some c => known_target (getSchemePortByImageName (im_Name (co_Image c))) sp
            | None => sp
            end in
  let sp := known_target (getSchemePortByAlias alias) sp in
  let scheme := sp.1 in
  let pp := default_port cont scheme sp.2 in
  let (scheme, pp) := match cont with
                      | Some c => (udp_scheme c scheme pp, translate_port c host pp)
                      | None => (scheme, pp)
                      end in
  let scheme := default_scheme scheme lp pp in
  set_target r alias scheme host {| Listening := lp; Proxy := pp |} (Some (finalize_health (rt_HealthCheck r))).

(** *** The steps of [validate] *)

Definition resolve_agent (r : Route) : Route + route_error :=
  match rt_Agent r with
  | [] => inl r
  | name =>
      match rt_Container r with
      | Some _ => inr AgentNotAllowed
      | None =>
          if rl_agent_by_addr name then inl (set_agent r true)
          else if rl_agent_by_name name then inl (set_agent r true)
          else inr (RouteAgentNotFound name)
      end
  end.

Definition validate_proxmox (r : Route) : Route + route_error :=
  match rt_Idlewatcher r with
  | Some i =>
      match iw_Proxmox i with
      | Some px =>
          let node := px_Node px in
          let vmid := px_VMID px in
          if bool_decide (node = []) then inr ProxmoxNodeRequired
          else if vmid <=? 0 then inr ProxmoxVMIDRequired
          else if negb (bool_decide (rt_Host r = DefaultHost)) then inl r
          else if negb (rl_proxmox_node node) then inr ProxmoxNodeNotFound
          else
            match rl_lxc_ips node vmid with
            | None => inr ProxmoxIPsFailed
            | Some [] => inr ProxmoxNoIPs
            | Some ips =>
                match rl_lxc_running node vmid with
                | None => inr ProxmoxStateFailed
                | Some running =>
                    if negb running && negb (rl_lxc_start node vmid) then inr ProxmoxStartFailed
                    else
                      let r := match List.find (fun ip => rl_ping ip (Proxy (rt_Port r))) ips with
                               | Some ip => set_host r ip
                               | None => r
                               end in
                      if bool_decide (rt_Host r = DefaultHost) then inr ProxmoxUnreachable else inl r
                end
            end
      | None => inl r
      end
  | None => inl r
  end.

Definition container_idle (r : Route) : Route :=
  match rt_Container r with
  | Some c => match co_Idlewatcher c with Some i => set_idle r (Some i) | None => r end
  | None => r
  end.

(** The addresses GoDoxy itself listens on. *)
Definition is_reserved (r : Route) : bool :=
  negb (IsAgent r)
  && bool_decide (rt_Host r ∈ [B "localhost"; B "127.0.0.1"])
  && bool_decide (Proxy (rt_Port r) ∈ [rl_ProxyHTTPPort; rl_ProxyHTTPSPort; rl_APIHTTPPort])
  && (IsReverseProxy (rt_Scheme r) || (rt_Scheme r =? SchemeTCP)).

(** [validateRules]: for a container it returns early. *)
Definition validateRules (r : Route) : Route * option route_error :=
  match rt_Container r with
  | Some c =>
      if bool_decide (im_Name (co_Image c) = B "godoxy-frontend") then
        match rl_preset "webui.yml" with
        | Some rules => (set_rules r rules, None)
        | None => (r, Some (RulePresetNotFound "webui.yml"))
        end
      else (r, None)
  | None =>
      match rt_RuleFile r, rt_Rules r with
      | [], _ => (r, None)
      | _ :: _, _ :: _ => (r, Some RuleFileAndRules)
      | file, [] =>
          match rl_url_parse file with
          | None => (r, Some (RuleFileInvalid file))
          | Some (scheme, host, path) =>
              if bool_decide (scheme = B "embed") then
                match rl_preset host with
                | Some rules => (set_rules r rules, None)
                | None => (r, Some (RulePresetNotFound host))
                end
              else if bool_decide (scheme = B "file") || bool_decide (scheme = []) then
                match rl_read_file path with
                | None => (r, Some (RuleFileInvalid path))
                | Some content =>
                    match rl_convert_rules content with
                    | Some rules => (set_rules r rules, None)
                    | None => (r, Some (RuleFileInvalid path))
                    end
                end
              else (r, Some (RuleFileInvalid file))
          end
      end
  end.

Definition collect_url (url : bytes) : list route_error :=
  match rl_url_parse url with Some _ => [] | None => [InvalidURL url] end.

Definition target_url (r : Route) : bytes :=
  Scheme_String (rt_Scheme r) ++ B "://" ++ rt_Host r ++ B ":" ++ Itoa (Proxy (rt_Port r)).

(** The first switch over the scheme. *)
Definition set_scheme_urls (r : Route) : Route * list route_error :=
  if rt_Scheme r =? SchemeFileServer then
    let url := B "file://" ++ rt_Root r in
    let r' := set_urls r (rt_LisURL r) (Some url) in
    (set_target r' (rt_Alias r) (rt_Scheme r) [] {| Listening := Listening (rt_Port r); Proxy := 0 |} (rt_HealthCheck r),
     collect_url url)
  else if (rt_Scheme r =? SchemeHTTP) || (rt_Scheme r =? SchemeHTTPS) then
    (set_urls r (rt_LisURL r) (Some (target_url r)),
     (if Listening (rt_Port r) =? 0 then [] else [UnexpectedListeningPort]) ++ collect_url (target_url r))
  else if (rt_Scheme r =? SchemeTCP) || (rt_Scheme r =? SchemeUDP) then
    let lurl := Scheme_String (rt_Scheme r) ++ B "://:" ++ Itoa (Listening (rt_Port r)) in
    if negb (ShouldExclude r) then
      (set_urls r (Some lurl) (Some (target_url r)), collect_url lurl ++ collect_url (target_url r))
    else (set_urls r (rt_LisURL r) (Some (target_url r)), collect_url (target_url r))
  else (r, []).

(** The constructors of the second switch. A file server cleans its root, which
    must be absolute. *)
Definition clean_root (r : Route) : Route :=
  if rt_Scheme r =? SchemeFileServer then
    {| rt_Alias := rt_Alias r; rt_Scheme := rt_Scheme r; rt_Host := rt_Host r; rt_Port := rt_Port r;
       rt_Root := Clean (rt_Root r); rt_Rules := rt_Rules r; rt_RuleFile := rt_RuleFile r;
       rt_HealthCheck := rt_HealthCheck r; rt_LoadBalanceLink := rt_LoadBalanceLink r;
       rt_Homepage := rt_Homepage r; rt_Agent := rt_Agent r; rt_Idlewatcher := rt_Idlewatcher r;
       rt_Container := rt_Container r; rt_Provider := rt_Provider r; rt_LisURL := rt_LisURL r;
       rt_ProxyURL := rt_ProxyURL r; rt_Excluded := rt_Excluded r; rt_ExcludedReason := rt_ExcludedReason r;
       rt_impl := rt_impl r; rt_valErr := rt_valErr r; rt_agent := rt_agent r |}
  else r.

Definition new_impl (r : Route) : option bytes :=
  if (rt_Scheme r =? SchemeFileServer) && negb (HasPrefix (rt_Root r) "/")
  then Some (B "`root` must be an absolute path")
  else rl_new_impl r.

Definition mark_validated (r : Route) : Route :=
  let ok := set_meta r (rt_Rules r) (rt_Idlewatcher r) (rt_LisURL r) (rt_ProxyURL r) (ShouldExclude r)
              (rt_ExcludedReason r) true (rt_valErr r) (rt_agent r) in
  if rt_Excluded ok then
    set_meta ok (rt_Rules ok) (rt_Idlewatcher ok) (rt_LisURL ok) (rt_ProxyURL ok) true
      (findExcludedReason ok) true (rt_valErr ok) (rt_agent ok)
  else ok.

Definition validate (r : Route) : result Empty_set (Route * option route_error) :=
  match resolve_agent r with
  | inr e => Ok (r, Some e)
  | inl r =>
      let r := Finalize r in
      match validate_proxmox r with
      | inr e => Ok (r, Some e)
      | inl r =>
          let r := container_idle r in
          if is_reserved r then Ok (r, Some (ReservedPort (Proxy (rt_Port r))))
          else
            let (r, e1) := validateRules r in
            let (r, e2) := set_scheme_urls r in
            useHealth ← UseHealthCheck r;
            let e3 := if negb useHealth && (UseLoadBalance r || UseIdleWatcher r) then [HealthCheckRequired] else [] in
            match option_list e1 ++ e2 ++ e3 with
            | [] =>
                if negb (bool_decide (rt_Scheme r ∈ schemes)) then Panic ExplicitPanic
                else
                     let r := clean_root r in
                     match new_impl r with
                     | Some e => Ok (r, Some (ImplError e))
                     | None => Ok (mark_validated r, None)
                     end
            | errs => Ok (r, Some (ValidationErrors errs))
            end
      end
  end.

(** [Validate], the first time it is called. *)
Definition Validate (r : Route) : result Empty_set (Route * option route_error) :=
  o ← validate r; Ok (set_valErr o.1 o.2, o.2).

(** *** Lemmas *)

Lemma getSchemePortByImageName_scheme n s p : getSchemePortByImageName n = Some (s, p) -> s ∈ schemes.
Proof.
  unfold getSchemePortByImageName. repeat case_match; intros [= <- _]; decide_closed.
Qed.

Lemma getSchemePortByAlias_scheme n s p : getSchemePortByAlias n = Some (s, p) -> s ∈ schemes.
Proof. unfold getSchemePortByAlias. repeat case_match; intros [= <- _]; decide_closed. Qed.

(** A scheme that is set is kept, one that is not is set by a known one. *)
Lemma known_target_scheme known sp :
  (forall s p, known = Some (s, p) -> s ∈ schemes) ->
  (sp.1 = SchemeNone \/ sp.1 ∈ schemes) ->
  ((known_target known sp).1 = SchemeNone \/ (known_target known sp).1 ∈ schemes)
  /\ (sp.1 <> SchemeNone -> (known_target known sp).1 = sp.1).
Proof.
  intros Hk Hs. unfold known_target. destruct known as [[s p]|]; simpl; [|done].
  destruct (sp.1 =? SchemeNone) eqn:E; reflect; [|tauto]. split; [right; eauto|done].
Qed.

Lemma udp_scheme_spec c s pp :
  (s = SchemeNone \/ s ∈ schemes) ->
  (udp_scheme c s pp = SchemeNone \/ udp_scheme c s pp ∈ schemes)
  /\ (s <> SchemeNone -> udp_scheme c s pp = s).
Proof.
  intros Hs. unfold udp_scheme. case_if; [|done]. split; [right; decide_closed|]. reflect. done.
Qed.

Lemma default_scheme_spec s lp pp :
  (s = SchemeNone \/ s ∈ schemes) ->
  default_scheme s lp pp ∈ schemes /\ (s <> SchemeNone -> default_scheme s lp pp = s).
Proof.
  intros Hs. unfold default_scheme. destruct (s =? SchemeNone) eqn:E; reflect; [|naive_solver].
  split; [|done]. repeat case_if; decide_closed.
Qed.

(** [Finalize] leaves a definite scheme. *)
Lemma Finalize_scheme r :
  (rt_Scheme r = SchemeNone \/ rt_Scheme r ∈ schemes) ->
  rt_Scheme (Finalize r) ∈ schemes
  /\ (rt_Scheme r <> SchemeNone -> rt_Scheme (Finalize r) = rt_Scheme r).
Proof.
  intros Hs. unfold Finalize.
  set (sp0 := match rt_Container r with Some c => known_target _ _ | None => _ end).
  assert ((sp0.1 = SchemeNone \/ sp0.1 ∈ schemes) /\ (rt_Scheme r <> SchemeNone -> sp0.1 = rt_Scheme r)) as [H0 K0].
  { unfold sp0. destruct (rt_Container r) as [c|]; [|done].
    apply (known_target_scheme _ (rt_Scheme r, Proxy (rt_Port r))); [apply getSchemePortByImageName_scheme|done]. }
  clearbody sp0. set (sp := known_target _ sp0).
  destruct (known_target_scheme (getSchemePortByAlias (ToLowerWith rl_ToLower (TrimSpace (rt_Alias r)))) sp0)
    as [H1 K1]; [apply getSchemePortByAlias_scheme|done|]. fold sp in H1, K1.
  clearbody sp. set (pp := default_port _ _ _). clearbody pp.
  destruct (match rt_Container r with Some c => _ | None => _ end) as [s2 p2] eqn:E2.
  assert ((s2 = SchemeNone \/ s2 ∈ schemes) /\ (rt_Scheme r <> SchemeNone -> s2 = rt_Scheme r)) as [H2 K2].
  { destruct (rt_Container r) as [c|]; injection E2 as <- _.
    - destruct (udp_scheme_spec c sp.1 pp H1) as [? K]. split; [done|]. intros Hne.
      rewrite K; rewrite K1, K0; auto; rewrite K0; auto.
    - split; [done|]. intros Hne. rewrite K1, K0; auto; rewrite K0; auto. }
  destruct (default_scheme_spec s2 (Listening (rt_Port r)) p2 H2) as [H3 K3]. cbn.
  split; [done|]. intros Hne. rewrite K3; rewrite K2; auto.
Qed.

(** Exclusion and its reason agree. *)
Lemma excluded_iff_reason (r : Route) :
  (rt_Excluded r = true <-> rt_ExcludedReason r <> ExcludedReasonNone) ->
  (ShouldExclude r = true <-> findExcludedReason r <> ExcludedReasonNone).
Proof.
  intros Hinv. unfold ShouldExclude, findExcludedReason, old_reason.
  destruct (rt_valErr r); [done|].
  destruct (bool_decide (rt_ExcludedReason r = ExcludedReasonNone)) eqn:E; reflect; cbn [negb].
  - assert (rt_Excluded r = false) as -> by (destruct (rt_Excluded r); [by apply Hinv in E|done]).
    cbn [orb]. destruct (rt_Container r) as [c|].
    + destruct (co_IsExcluded c), (IsZeroPort r && _), (negb (co_IsExplicit c) && _),
        (HasPrefix _ _), (HasSuffix _ _); done.
    + destruct (IsZeroPort r && _), (HasSuffix _ _); done.
  - rewrite (proj2 Hinv E). done.
Qed.

(** A route before its first validation. *)
Definition unvalidated (r : Route) : Prop :=
  rt_valErr r = None /\ rt_Excluded r = false /\ rt_ExcludedReason r = ExcludedReasonNone.

(** What the steps up to the addresses establish and keep. *)
Definition prepared (r : Route) : Prop :=
  unvalidated r /\ rt_Scheme r ∈ schemes /\ exists hc, rt_HealthCheck r = Some hc.

Lemma resolve_agent_keeps r r' :
  resolve_agent r = inl r' -> r' = r \/ r' = set_agent r true.
Proof. unfold resolve_agent. repeat case_match; intros [= <-]; auto. Qed.

Lemma prepared_Finalize r :
  (rt_Scheme r = SchemeNone \/ rt_Scheme r ∈ schemes) -> unvalidated r -> prepared (Finalize r).
Proof.
  intros Hs Hu. split; [|split; [by apply Finalize_scheme|]].
  - unfold Finalize. case_match; destruct (match rt_Container r with Some _ => _ | None => _ end); done.
  - unfold Finalize. case_match; eexists; reflexivity.
Qed.

Lemma prepared_proxmox r r' : prepared r -> validate_proxmox r = inl r' -> prepared r'.
Proof.
  intros Hp. unfold validate_proxmox. repeat case_match; intros [= <-]; done.
Qed.

Lemma prepared_idle r : prepared r -> prepared (container_idle r).
Proof. intros Hp. unfold container_idle. repeat case_match; done. Qed.

(** Rules change nothing else. *)
Lemma validateRules_keeps r r' e : validateRules r = (r', e) -> exists l, r' = set_rules r l.
Proof.
  unfold validateRules. destruct r. repeat case_match; intros [= <- _]; eexists; reflexivity.
Qed.

Lemma set_scheme_urls_spec r r' errs :
  set_scheme_urls r = (r', errs) -> rt_Scheme r ∈ schemes ->
  rt_Scheme r' = rt_Scheme r /\ rt_HealthCheck r' = rt_HealthCheck r
  /\ rt_valErr r' = rt_valErr r /\ rt_Excluded r' = rt_Excluded r /\ rt_ExcludedReason r' = rt_ExcludedReason r
  /\ rt_Rules r' = rt_Rules r /\ is_Some (rt_ProxyURL r')
  /\ (is_reserved r = false -> is_reserved r' = false)
  /\ (errs = [] -> rt_Scheme r = SchemeHTTP \/ rt_Scheme r = SchemeHTTPS -> Listening (rt_Port r') = 0).
Proof.
  intros E Hs. unfold set_scheme_urls in E.
  destruct (rt_Scheme r =? SchemeFileServer) eqn:E1.
  { injection E as <- <-. apply Z.eqb_eq in E1. cbn. rewrite E1. split_and!; try done; try (by eexists).
    - unfold is_reserved. cbn. rewrite E1. by rewrite !andb_false_r.
    - intros _ [?|?]; discriminate. }
  destruct ((rt_Scheme r =? SchemeHTTP) || (rt_Scheme r =? SchemeHTTPS)) eqn:E2.
  { injection E as <- <-. cbn. split_and!; try done; try (by eexists).
    intros He _. apply app_nil in He as [He _]. case_if; [by reflect|discriminate]. }
  destruct ((rt_Scheme r =? SchemeTCP) || (rt_Scheme r =? SchemeUDP)) eqn:E3.
  { apply orb_false_iff in E2 as [E2 E2']. apply Z.eqb_neq in E2, E2'.
    case_if; injection E as <- <-; cbn; (split_and!; try done; try (by eexists)); intros _ [?|?]; done. }
  exfalso. reflect. unfold schemes in Hs.
  repeat (apply elem_of_cons in Hs as [Hs|Hs]; [done|]). by apply elem_of_nil in Hs.
Qed.

Lemma clean_root_keeps r :
  rt_Scheme (clean_root r) = rt_Scheme r /\ rt_HealthCheck (clean_root r) = rt_HealthCheck r
  /\ rt_valErr (clean_root r) = rt_valErr r /\ rt_Excluded (clean_root r) = rt_Excluded r
  /\ rt_ExcludedReason (clean_root r) = rt_ExcludedReason r /\ rt_Rules (clean_root r) = rt_Rules r
  /\ rt_ProxyURL (clean_root r) = rt_ProxyURL r /\ is_reserved (clean_root r) = is_reserved r
  /\ rt_Port (clean_root r) = rt_Port r /\ UseHealthCheck (clean_root r) = UseHealthCheck r
  /\ UseLoadBalance (clean_root r) = UseLoadBalance r /\ UseIdleWatcher (clean_root r) = UseIdleWatcher r.
Proof. unfold clean_root. by destruct (rt_Scheme r =? SchemeFileServer). Qed.

Lemma mark_validated_spec r :
  unvalidated r ->
  rt_impl (mark_validated r) = true
  /\ rt_Excluded (mark_validated r) = ShouldExclude r
  /\ (rt_Excluded (mark_validated r) = true <-> rt_ExcludedReason (mark_validated r) <> ExcludedReasonNone)
  /\ rt_Scheme (mark_validated r) = rt_Scheme r /\ rt_Port (mark_validated r) = rt_Port r
  /\ rt_ProxyURL (mark_validated r) = rt_ProxyURL r /\ rt_Rules (mark_validated r) = rt_Rules r
  /\ is_reserved (mark_validated r) = is_reserved r
  /\ UseHealthCheck (mark_validated r) = UseHealthCheck r
  /\ UseLoadBalance (mark_validated r) = UseLoadBalance r /\ UseIdleWatcher (mark_validated r) = UseIdleWatcher r.
Proof.
  intros (Hv & He & Hr). unfold mark_validated. cbn [set_meta rt_Excluded].
  pose proof (excluded_iff_reason r) as Hx. rewrite He, Hr in Hx.
  destruct (ShouldExclude r) eqn:E; cbn [set_meta rt_Excluded rt_impl]; (split_and!; try done).
  - split; [intros _|done]. cbn [set_meta rt_ExcludedReason].
    assert (findExcludedReason r <> ExcludedReasonNone) as Hf by (apply Hx; done).
    unfold findExcludedReason in *. cbn [set_meta rt_valErr rt_ExcludedReason]. exact Hf.
Qed.

(** Validation does not panic, and what it accepts is usable. *)
Lemma validate_result (r : Route) :
  (rt_Scheme r = SchemeNone \/ rt_Scheme r ∈ schemes) -> unvalidated r ->
  exists r' e, validate r = Ok (r', e)
    /\ (e = None ->
        rt_impl r' = true /\ rt_Scheme r' ∈ schemes /\ is_Some (rt_ProxyURL r')
        /\ is_reserved r' = false
        /\ (rt_Scheme r' = SchemeHTTP \/ rt_Scheme r' = SchemeHTTPS -> Listening (rt_Port r') = 0)
        /\ (UseLoadBalance r' || UseIdleWatcher r' = true -> UseHealthCheck r' = Ok true)
        /\ (rt_Excluded r' = true <-> rt_ExcludedReason r' <> ExcludedReasonNone)).
Proof.
  intros Hs Hu. unfold validate.
  destruct (resolve_agent r) as [r1|e] eqn:E1; [|by do 2 eexists].
  assert (prepared (Finalize r1)) as P1.
  { apply prepared_Finalize; destruct (resolve_agent_keeps r r1 E1) as [-> | ->]; done. }
  destruct (validate_proxmox (Finalize r1)) as [r2|e] eqn:E2; [|by do 2 eexists].
  pose proof (prepared_idle r2 (prepared_proxmox _ _ P1 E2)) as P3.
  set (r3 := container_idle r2) in *. clearbody r3.
  destruct (is_reserved r3) eqn:Eres; [by do 2 eexists|].
  destruct (validateRules r3) as [r4 e1] eqn:E4. destruct (validateRules_keeps r3 r4 e1 E4) as [l ->].
  destruct P3 as (U3 & S3 & hc & H3).
  destruct (set_scheme_urls (set_rules r3 l)) as [r5 e2] eqn:E5.
  destruct (set_scheme_urls_spec _ _ _ E5 S3) as (K1 & K2 & K3 & K4 & K5 & _ & K6 & K7 & K8).
  assert (exists b, UseHealthCheck r5 = Ok b) as [b Hb].
  { unfold UseHealthCheck. rewrite K2. cbn [set_rules set_meta rt_HealthCheck]. rewrite H3. case_if; by eexists. }
  rewrite Hb. cbn [mbind result_bind].
  destruct (option_list e1 ++ e2 ++ _) as [|x errs] eqn:Ee; [|by do 2 eexists].
  apply app_nil in Ee as [_ Ee]. apply app_nil in Ee as [He2 He3].
  rewrite K1. rewrite bool_decide_eq_true_2 by done. cbn [negb].
  destruct (new_impl (clean_root r5)); [by do 2 eexists|].
  do 2 eexists; split; [done|]. intros _.
  destruct (clean_root_keeps r5) as (C1 & C2 & C3 & C4 & C5 & C6 & C7 & C8 & C9 & C10 & C11 & C12).
  assert (unvalidated (clean_root r5)) as U5.
  { unfold unvalidated. rewrite C3, C4, C5, K3, K4, K5. done. }
  destruct (mark_validated_spec _ U5) as (M1 & _ & M3 & M4 & M5 & M6 & _ & M8 & M9 & M10 & M11).
  rewrite M4, M5, M6, M8, M9, M10, M11, C1, C7, C8, C9, C10, C11, C12, K1.
  split_and!; try done.
  - by apply K7.
  - by apply K8.
  - intros Hl. rewrite Hl in He3. rewrite Hb. destruct b; [done|]. done.
Qed.

(** C6: Validation never panics on a route whose scheme is known or unset, and
    a route it accepts is fit to be started: its scheme is definite, it has a
    target URL, it does not lead back to GoDoxy's own ports on the local host,
    an HTTP route has no listening port, load balancing and idle watching come
    with health checks, and it is marked as excluded exactly when it has a
    reason to be. *)
Theorem validate_sound (r : Route) :
  (rt_Scheme r = SchemeNone \/ rt_Scheme r ∈ schemes) -> unvalidated r ->
  exists r' e, validate r = Ok (r', e)
    /\ (e = None ->
        rt_impl r' = true /\ rt_Scheme r' ∈ schemes /\ is_Some (rt_ProxyURL r')
        /\ (IsAgent r' = false -> rt_Host r' ∈ [B "localhost"; B "127.0.0.1"] ->
            Proxy (rt_Port r') ∈ [rl_ProxyHTTPPort; rl_ProxyHTTPSPort; rl_APIHTTPPort] ->
            rt_Scheme r' ∈ [SchemeUDP; SchemeFileServer])
        /\ (rt_Scheme r' = SchemeHTTP \/ rt_Scheme r' = SchemeHTTPS -> Listening (rt_Port r') = 0)
        /\ (UseLoadBalance r' || UseIdleWatcher r' = true -> UseHealthCheck r' = Ok true)
        /\ (rt_Excluded r' = true <-> rt_ExcludedReason r' <> ExcludedReasonNone)).
Proof.
  intros Hs Hu. destruct (validate_result r Hs Hu) as (r' & e & Hv & Hok). exists r', e. split; [done|].
  intros He. destruct (Hok He) as (H1 & H2 & H3 & Hres & H5). split_and!; try apply H5; try done.
  intros Ha Hh Hp. unfold is_reserved in Hres. rewrite Ha in Hres.
  rewrite (bool_decide_eq_true_2 (rt_Host r' ∈ _)), (bool_decide_eq_true_2 (Proxy (rt_Port r') ∈ _)) in Hres by done.
  cbn [negb andb] in Hres. unfold schemes in H2. revert Hres.
  repeat (apply elem_of_cons in H2 as [->|H2]; [vm_compute; (discriminate || (intros _; repeat constructor))|]).
  by apply elem_of_nil in H2.
Qed.

(** *** The homepage entry *)

Definition replace_byte (s : bytes) (a b : ascii) : bytes :=
  map (fun c => if Ascii.eqb c a then b else c) s.

Definition set_homepage (r : Route) (h : HomepageItem) : Route :=
  {| rt_Alias := rt_Alias r; rt_Scheme := rt_Scheme r; rt_Host := rt_Host r; rt_Port := rt_Port r;
     rt_Root := rt_Root r; rt_Rules := rt_Rules r; rt_RuleFile := rt_RuleFile r;
     rt_HealthCheck := rt_HealthCheck r; rt_LoadBalanceLink := rt_LoadBalanceLink r;
     rt_Homepage := Some h; rt_Agent := rt_Agent r; rt_Idlewatcher := rt_Idlewatcher r;
     rt_Container := rt_Container r; rt_Provider := rt_Provider r; rt_LisURL := rt_LisURL r;
     rt_ProxyURL := rt_ProxyURL r; rt_Excluded := rt_Excluded r; rt_ExcludedReason := rt_ExcludedReason r;
     rt_impl := rt_impl r; rt_valErr := rt_valErr r; rt_agent := rt_agent r |}.

Definition first_some {A C} (f : A -> option C) (l : list A) : option C := head (omap f l).

Definition homepage_name (hp : HomepageItem) (refs : list bytes) : bytes :=
  match hp_Name hp with
  | [] =>
      match first_some rl_homepage_meta refs with
      | Some ((_ :: _) as name, _) => name
      | _ => rl_Title (replace_byte (replace_byte (default [] (head refs)) "-" " ") "_" " ")
      end
  | name => name
  end.

Definition homepage_category (r : Route) (hp : HomepageItem) (refs : list bytes) : bytes :=
  let c := match hp_Category hp with
           | [] => match first_some rl_homepage_meta refs with Some (_, tag) => tag | None => [] end
           | c => c
           end in
  match c with
  | [] =>
      let d := if rl_use_default_categories then default [] (first_some rl_category refs) else [] in
      match d with
      | [] => if UseLoadBalance r then B "Load-balanced"
              else match rt_Container r with Some _ => B "Docker" | None => B "Others" end
      | d => d
      end
  | c => c
  end.

Definition FinalizeHomepageConfig (r : Route) : result Empty_set Route :=
  match rt_Alias r with
  | [] => Panic ExplicitPanic
  | _ =>
      let hp := default {| hp_Show := true; hp_Name := rt_Alias r; hp_Category := [] |} (rt_Homepage r) in
      match rt_Container r with
      | Some c =>
          if ShouldExclude r then
            Ok (set_homepage r {| hp_Show := false; hp_Name := co_ContainerName c; hp_Category := hp_Category hp |})
          else
            Ok (set_homepage r {| hp_Show := hp_Show hp; hp_Name := homepage_name hp (References r);
                                  hp_Category := homepage_category r hp (References r) |})
      | None =>
          Ok (set_homepage r {| hp_Show := hp_Show hp; hp_Name := homepage_name hp (References r);
                                hp_Category := homepage_category r hp (References r) |})
      end
  end.

(** *** Starting *)

(** The dynamic types that implement [types.Route], and which of them satisfy
    the interfaces of the type switch in [checkExists]. *)
Inductive route_kind := BaseRoute | ReverseProxyKind | FileServerKind | StreamKind.

Definition is_HTTPRoute (k : route_kind) : bool :=
  match k with ReverseProxyKind | FileServerKind => true | _ => false end.

Definition is_StreamRoute (k : route_kind) : bool :=
  match k with StreamKind => true | _ => false end.

(** [checkExists]; [http] and [stream] say whether a pool has a key. *)
Definition checkExists (k : route_kind) (r : Route) (http stream : bytes -> bool)
    : result Empty_set (option route_error) :=
  if UseLoadBalance r then Ok None
  else if is_HTTPRoute k then key ← Route_Key r; Ok (if http key then Some RouteExists else None)
  else if is_StreamRoute k then key ← Route_Key r; Ok (if stream key then Some RouteExists else None)
  else Ok None.

(** [start]: what prevents the route from being started. The route passed to
    [checkExists] is the base [*Route]. *)
Definition start (r : Route) (http stream : bytes -> bool) (impl_Start : option bytes)
    : result Empty_set (option route_error) :=
  if negb (rt_impl r) then Ok (Some NotInitialized)
  else
    e ← (if ShouldExclude r then Ok None else checkExists BaseRoute r http stream);
    match e with
    | Some e => Ok (Some e)
    | None => Ok (StartError <$> impl_Start)
    end.

End validation.

(** ** Ports *)

Lemma lowest_fold order c :
  c <= 65535 -> Forall (fun kv : Z * PortSummary => ps_PrivatePort kv.2 = kv.1) order ->
  (fold_left (fun acc kv => if ps_PrivatePort kv.2 <? acc.1 then (ps_PrivatePort kv.2, kv.1) else acc)
             order (c, if c <? 65535 then c else 0)).2
  = let m := foldr Z.min c order.*1 in if m <? 65535 then m else 0.
Proof.
  revert c; induction order as [|[k p] order IH]; intros c Hc Hall; [done|].
  apply Forall_cons in Hall as [Hk Hall]. cbn [fold_left fst snd] in Hk |- *. rewrite Hk.
  assert (forall l x y, foldr Z.min (Z.min x y) l = Z.min x (foldr Z.min y l)) as Hmin.
  { induction l as [|z l IHl]; intros x y; simpl; [done|]. rewrite IHl. lia. }
  cbn [fmap list_fmap foldr fst]. rewrite <- Hmin. destruct (k <? c) eqn:E; reflect.
  - specialize (IH k ltac:(lia) Hall). rewrite (proj2 (Z.ltb_lt k 65535)) in IH by lia.
    rewrite IH. by replace (Z.min k c) with k by lia.
  - rewrite IH by done. by replace (Z.min k c) with c by lia.
Qed.

Lemma foldr_min_le c l x : x ∈ l -> foldr Z.min c l <= x.
Proof. induction 1; simpl; lia. Qed.

Lemma foldr_min_in c l : foldr Z.min c l = c \/ foldr Z.min c l ∈ l.
Proof.
  induction l as [|x l IH]; simpl; [by left|].
  destruct (Z.min_spec x (foldr Z.min c l)) as [[_ ->]|[_ ->]]; [right; apply elem_of_cons; by left|].
  destruct IH as [IH|IH]; [by left|right; apply elem_of_cons; by right].
Qed.

Lemma foldr_min_perm c l l' : Permutation l l' -> foldr Z.min c l = foldr Z.min c l'.
Proof. induction 1; simpl; lia. Qed.

Lemma find_ext {A} (f g : A -> bool) l : (forall x, f x = g x) -> List.find f l = List.find g l.
Proof. intros Hfg. induction l as [|x l IH]; simpl; [done|]. by rewrite Hfg, IH. Qed.

(** The port of a container does not depend on the order of the map: a
    port of the preferred list if the container has one, else its lowest port;
    0 only when it has no port below 65535. *)
Theorem preferredPort_correct (order : list (Z * PortSummary)) :
  Forall (fun kv => ps_PrivatePort kv.2 = kv.1) order ->
  (forall order', Permutation order order' -> preferredPort order' = preferredPort order)
  /\ (preferredPort order ∈ order.*1 \/ preferredPort order = 0 /\ (forall k, k ∈ order.*1 -> 65535 <= k))
  /\ (if existsb (fun p => bool_decide (p ∈ order.*1)) preferredPortOrder
      then preferredPort order ∈ preferredPortOrder
      else forall k, k ∈ order.*1 -> preferredPort order <= k \/ 65535 <= k).
Proof.
  intros Hall.
  assert (forall o, Forall (fun kv : Z * PortSummary => ps_PrivatePort kv.2 = kv.1) o ->
    lowest_port o = let m := foldr Z.min 65535 o.*1 in if m <? 65535 then m else 0) as Hlow.
  { intros o Ho. apply (lowest_fold o 65535); [lia|done]. }
  unfold preferredPort. split_and!.
  - intros order' Hp. rewrite (Hlow order), (Hlow order') by (by rewrite <- Hp || done).
    assert (foldr Z.min 65535 order'.*1 = foldr Z.min 65535 order.*1) as ->.
    { apply foldr_min_perm. by rewrite Hp. }
    rewrite (find_ext _ (fun port : Z => bool_decide (port ∈ order.*1))); [done|].
    intros port. apply bool_decide_ext. by rewrite Hp.
  - destruct (List.find _ _) as [p|] eqn:E.
    + left. apply List.find_some in E as [_ E]. by reflect.
    + rewrite (Hlow order Hall). destruct (foldr_min_in 65535 order.*1) as [Hm|Hm]; cbv zeta.
      * right. rewrite Hm. split; [done|]. intros k Hk. rewrite <- Hm. by apply foldr_min_le.
      * destruct (_ <? 65535) eqn:El; reflect; [by left|]. right. split; [done|].
        intros k Hk. pose proof (foldr_min_le 65535 _ k Hk). lia.
  - destruct (existsb _ _) eqn:Ex.
    + destruct (List.find _ _) as [p|] eqn:E; [by apply List.find_some in E as [E _]; apply list_elem_of_In|].
      apply existsb_exists in Ex as (p & Hp & Hin). by rewrite (List.find_none _ _ E p Hp) in Hin.
    + destruct (List.find _ _) as [p|] eqn:E.
      * apply List.find_some in E as [Hp Hin]. assert (existsb (fun p => bool_decide (p ∈ order.*1)) preferredPortOrder = true) by (apply existsb_exists; eauto). congruence.
      * intros k Hk. rewrite (Hlow order Hall). cbv zeta. pose proof (foldr_min_le 65535 _ k Hk).
        case_if; reflect; [by left|right; lia].
Qed.

(** C35: ports are read back from their text, and a port that is read is within
    the range of ports. *)
Theorem port_text (SplitRune : bytes -> ascii -> list bytes) :
  (forall s c, SplitRune s c = Split s c) ->
  (forall p, 0 <= Listening p <= MaxPort -> 0 <= Proxy p <= MaxPort ->
     Port_Parse SplitRune (Port_String p) = Ok p)
  /\ (forall v p, Port_Parse SplitRune v = Ok p ->
       MinPort <= Listening p <= MaxPort /\ MinPort <= Proxy p <= MaxPort).
Proof.
  intros Hsr.
  assert (forall n, 0 <= n <= MaxPort -> out_of_range n = false /\ Atoi (Itoa n) = Some n /\ ":"%char ∉ Itoa n) as Hn.
  { unfold out_of_range, MaxPort, MinPort. intros n Hn. rewrite !(proj2 (Z.ltb_ge _ _)) by lia. split; [done|].
    split; [apply Atoi_Itoa; unfold MinInt64, MaxInt64; lia|by apply Itoa_no_sep]. }
  split.
  - intros [l p] Hl Hp. simpl in Hl, Hp. destruct (Hn l Hl) as (L1 & L2 & L3), (Hn p Hp) as (P1 & P2 & P3).
    unfold Port_Parse, Port_String. cbn [Listening Proxy]. rewrite Hsr. destruct (l =? 0) eqn:E; reflect.
    + rewrite Split_no_sep, P2, P1 by done. by subst.
    + change (B ":" ++ Itoa p) with (":"%char :: Itoa p).
      by rewrite Split_app, (Split_no_sep (Itoa p)), L2, P2, L1, P1.
  - intros v p. unfold Port_Parse.
    assert (forall l q, (if out_of_range l then Err (ErrPortOutOfRange l)
      else if out_of_range q then Err (ErrPortOutOfRange q)
      else Ok {| Listening := l; Proxy := q |}) = Ok p ->
      MinPort <= Listening p <= MaxPort /\ MinPort <= Proxy p <= MaxPort) as Hc.
    { unfold out_of_range. intros l q. case_if; [done|]. case_if; [done|]. intros [= <-]. cbn. reflect. lia. }
    destruct (SplitRune v ":"%char) as [|a [|b [|]]]; try done.
    + destruct (Atoi v); [apply Hc|done].
    + destruct (Atoi a), (Atoi b); try done. apply Hc.
Qed.

Lemma scheme_text s : s ∈ schemes -> Scheme_Parse (Scheme_String s) = Some s.
Proof.
  unfold schemes. intros Hs. repeat (apply elem_of_cons in Hs as [->|Hs]; [reflexivity|]).
  by apply elem_of_nil in Hs.
Qed.

(** ** What validation does not do *)

Section gaps.
Context {RuleT : Type} `{RouteLib RuleT}.

Lemma mark_validated_rules (r : Route RuleT) : rt_Rules (mark_validated r) = rt_Rules r.
Proof. unfold mark_validated. by case_if. Qed.

Lemma validate_rules_from (r r' : Route RuleT) c :
  validate r = Ok (r', None) -> rt_Container r = Some c -> im_Name (co_Image c) <> B "godoxy-frontend" ->
  rt_Rules r' = rt_Rules r.
Proof.
  unfold validate. intros Hv Hc Hn.
  destruct (resolve_agent r) as [r1|e] eqn:E1; [|done].
  destruct (validate_proxmox (Finalize r1)) as [r2|e] eqn:E2; [|done].
  assert (rt_Rules (container_idle r2) = rt_Rules r /\ rt_Container (container_idle r2) = Some c) as [Hr Hc'].
  { assert (rt_Rules r1 = rt_Rules r /\ rt_Container r1 = rt_Container r) as [<- Hc1]
      by (destruct (resolve_agent_keeps r r1 E1) as [-> | ->]; done).
    assert (rt_Rules (Finalize r1) = rt_Rules r1 /\ rt_Container (Finalize r1) = rt_Container r1) as [<- Hc2]
      by (unfold Finalize; case_match; destruct (match rt_Container r1 with Some _ => _ | None => _ end); done).
    assert (rt_Rules r2 = rt_Rules (Finalize r1) /\ rt_Container r2 = rt_Container (Finalize r1)) as [<- Hc3]
      by (unfold validate_proxmox in E2; repeat case_match; try discriminate E2; injection E2 as <-; done).
    unfold container_idle. rewrite Hc3, Hc2, Hc1, Hc. destruct (co_Idlewatcher c); cbn; by rewrite ?Hc3, ?Hc2, ?Hc1, ?Hc. }
  destruct (is_reserved _); [done|].
  unfold validateRules in Hv. rewrite Hc', bool_decide_eq_false_2 in Hv by done.
  destruct (set_scheme_urls (container_idle r2)) as [r5 e2] eqn:E5.
  destruct (UseHealthCheck r5); try done. cbn [mbind result_bind] in Hv.
  destruct (option_list None ++ e2 ++ _); [|done]. destruct (negb _); [done|].
  destruct (new_impl _); [done|]. injection Hv as <-. rewrite mark_validated_rules.
  destruct (clean_root_keeps r5) as (_ & _ & _ & _ & _ & -> & _).
  unfold set_scheme_urls in E5. rewrite <- Hr. repeat case_match; injection E5 as <- _; done.
Qed.

(** A validated route is named by its alias in lower case, without the space
    around it, and has its validation error unset. *)
Lemma validate_alias (r r' : Route RuleT) :
  validate r = Ok (r', None) -> rt_Alias r' = ToLowerWith rl_ToLower (TrimSpace (rt_Alias r)).
Proof.
  unfold validate. intros Hv.
  destruct (resolve_agent r) as [r1|e] eqn:E1; [|done].
  assert (rt_Alias r1 = rt_Alias r) as <- by (destruct (resolve_agent_keeps r r1 E1) as [-> | ->]; done).
  destruct (validate_proxmox (Finalize r1)) as [r2|e] eqn:E2; [|done].
  assert (rt_Alias (container_idle r2) = ToLowerWith rl_ToLower (TrimSpace (rt_Alias r1))) as <-.
  { transitivity (rt_Alias r2); [unfold container_idle; by repeat case_match|].
    transitivity (rt_Alias (Finalize r1)).
    - unfold validate_proxmox in E2. repeat case_match; try discriminate E2; injection E2 as <-; done.
    - unfold Finalize. case_match; by destruct (match rt_Container r1 with Some _ => _ | None => _ end). }
  destruct (is_reserved _); [done|].
  destruct (validateRules (container_idle r2)) as [r4 e1] eqn:E4.
  destruct (validateRules_keeps _ _ _ E4) as [l ->].
  destruct (set_scheme_urls (set_rules (container_idle r2) l)) as [r5 e2] eqn:E5.
  destruct (UseHealthCheck r5); try done. cbn [mbind result_bind] in Hv.
  destruct (option_list e1 ++ e2 ++ _); [|done]. destruct (negb _); [done|].
  destruct (new_impl _); [done|]. injection Hv as <-.
  transitivity (rt_Alias r5).
  - unfold mark_validated, clean_root. by repeat case_match.
  - unfold set_scheme_urls in E5. repeat case_match; injection E5 as <- _; done.
Qed.

(** The check for an existing route never fires: it is given the base route,
    which is neither an HTTP nor a stream route. *)
Lemma duplicate_check_dead (r : Route RuleT) http stream impl_Start :
  start r http stream impl_Start <> Ok (Some RouteExists).
Proof.
  unfold start, checkExists. destruct (rt_impl r); cbn; [|congruence].
  destruct (ShouldExclude r); [|destruct (UseLoadBalance r)]; cbn; destruct impl_Start; cbn; congruence.
Qed.

(** The key of an excluded or balanced container route panics on a short ID. *)
Lemma short_id_panics (r : Route RuleT) c :
  rt_Container r = Some c -> (length (co_ContainerID c) < 8)%nat -> UseLoadBalance r || ShouldExclude r = true ->
  Route_Key r = Panic SliceOutOfBounds.
Proof.
  intros Hc Hl Hx. unfold Route_Key. rewrite Hx, Hc. by rewrite (proj2 (Nat.leb_gt _ _)).
Qed.

End gaps.

(** ** Witnesses *)

#[export] Instance demo_route_lib : RouteLib unit := {|
  rl_ToLower r := r;
  rl_range := map_to_list;
  rl_agent_by_addr _ := false;
  rl_agent_by_name _ := false;
  rl_proxmox_node _ := false;
  rl_lxc_ips _ _ := None;
  rl_lxc_running _ _ := None;
  rl_lxc_start _ _ := false;
  rl_ping _ _ := false;
  rl_preset _ := None;
  rl_url_parse _ := Some ([], [], []);
  rl_read_file _ := None;
  rl_convert_rules _ := None;
  rl_new_impl _ := None;
  rl_ProxyHTTPPort := 80;
  rl_ProxyHTTPSPort := 443;
  rl_APIHTTPPort := 8888;
  rl_homepage_meta _ := None;
  rl_category _ := None;
  rl_use_default_categories := false;
  rl_Title s := s
|}.

Definition demo_route (alias host : string) (port : Z) : Route unit :=
  {| rt_Alias := alias; rt_Scheme := SchemeNone; rt_Host := host;
     rt_Port := {| Listening := 0; Proxy := port |}; rt_Root := []; rt_Rules := []; rt_RuleFile := [];
     rt_HealthCheck := None; rt_LoadBalanceLink := None; rt_Homepage := None; rt_Agent := [];
     rt_Idlewatcher := None; rt_Container := None; rt_Provider := "file"; rt_LisURL := None;
     rt_ProxyURL := None; rt_Excluded := false; rt_ExcludedReason := ExcludedReasonNone;
     rt_impl := false; rt_valErr := None; rt_agent := false |}.

Lemma validate_sound_witness :
  exists r' e, validate (demo_route " App " "10.0.0.2" 8443) = Ok (r', e)
    /\ (e = None -> rt_impl r' = true /\ is_Some (rt_ProxyURL r')).
Proof.
  destruct (validate_sound (demo_route " App " "10.0.0.2" 8443)) as (r' & e & E & Hs).
  - left. reflexivity.
  - split_and!; reflexivity.
  - exists r', e. split; [exact E|]. intros He. destruct (Hs He) as (? & ? & ? & _). split; assumption.
Defined.

(** The alias is trimmed and lowered, port 8443 means HTTPS. *)
Example validate_demo :
  match validate (demo_route " App " "10.0.0.2" 8443) with
  | Ok (r, None) => Some (rt_Alias r, rt_ProxyURL r, rt_Excluded r)
  | _ => None
  end = Some (B "app", Some (B "https://10.0.0.2:8443"), false).
Proof. vm_compute. reflexivity. Qed.

(** A route to GoDoxy's own port is refused, unless it names the loopback
    address differently. *)
Example reserved_demo :
  match validate (demo_route "a" "" 80), validate (demo_route "a" "127.0.0.2" 80) with
  | Ok (_, Some (ReservedPort 80)), Ok (_, None) => True
  | _, _ => False
  end.
Proof. vm_compute. exact I. Qed.

Definition demo_ports : list (Z * PortSummary) :=
  [(9000, {| ps_PublicPort := 0; ps_PrivatePort := 9000; ps_Type := "tcp" |});
   (5000, {| ps_PublicPort := 0; ps_PrivatePort := 5000; ps_Type := "tcp" |})].

Lemma preferredPort_correct_witness :
  preferredPort demo_ports = 5000 /\ preferredPort (rev demo_ports) = preferredPort demo_ports.
Proof.
  split; [reflexivity|].
  apply (preferredPort_correct demo_ports).
  - repeat constructor.
  - apply Permutation_rev.
Defined.

Lemma port_text_witness :
  Port_Parse Split (Port_String {| Listening := 8080; Proxy := 80 |}) = Ok {| Listening := 8080; Proxy := 80 |}.
Proof. apply (port_text Split (fun _ _ => eq_refl)); vm_compute; split; discriminate. Defined.
