(* ===== verification/Provider.v ===== *)
(** * Route providers

    Models internal/route/provider: which routes the labels of the containers
    define (docker.go: routesFromContainerLabels, loadRoutesImpl), how a
    provider keeps its routes (provider.go: startRoute, the locked map) and how
    it follows events (event_handler.go).

    Routes are shared objects: the map of a provider holds identifiers into a
    store.  Starting a route may fail, which is an input; ending a route runs
    its cancellation callbacks before [FinishAndWait] returns (goutils/task).
    Maps that are ranged over are given in the order of the range. *)

From S2P Require Import Prelude GoStrings NetAddr EventQueue Docker Container IdleConfig Route.

Abbreviation LabelMap := (list (bytes * label_value)).

(** ** Routes from labels *)

Section docker.
Context {RuleT : Type} `{DockerLib} `{RouteLib RuleT}.
Abbreviation Route := (Route RuleT).
Abbreviation Container := (Container IdlewatcherConfig).

(** Deserialization of a label map into a route (which it changes even when it
    fails), and of YAML text into a label map. *)
Variable MapUnmarshalValidate : LabelMap -> Route -> Route * bool.
Variable yaml_LabelMap : bytes -> option LabelMap.

Definition IsExplicitOnly (name : bytes) : result Empty_set bool :=
  match last name with
  | Some c => Ok (Ascii.eqb c "!")
  | None => Panic IndexOutOfRange
  end.

(** A route with an alias and a container, all other fields zero. *)
Definition new_route (alias : bytes) (c : Container) : Route :=
  {| rt_Alias := alias; rt_Scheme := SchemeNone; rt_Host := []; rt_Port := {| Listening := 0; Proxy := 0 |};
     rt_Root := []; rt_Rules := []; rt_RuleFile := []; rt_HealthCheck := None; rt_LoadBalanceLink := None;
     rt_Homepage := None; rt_Agent := []; rt_Idlewatcher := None; rt_Container := Some c; rt_Provider := [];
     rt_LisURL := None; rt_ProxyURL := None; rt_Excluded := false; rt_ExcludedReason := ExcludedReasonNone;
     rt_impl := false; rt_valErr := None; rt_agent := false |}.

(** An alias reference [#n] or [$n]; the boolean reports an error. A reference
    that is not a number or out of range is kept as it is. *)
Definition resolve_alias (aliases : list bytes) (alias : bytes) : bytes * bool :=
  match alias with
  | c :: rest =>
      if Ascii.eqb c "#" || Ascii.eqb c "$" then
        match Atoi rest with
        | None => (alias, true)
        | Some index =>
            if (index <? 1) || (Z.of_nat (length aliases) <? index) then (alias, true)
            else (default [] (aliases !! Z.to_nat (index - 1)), false)
        end
      else (alias, false)
  | [] => (alias, false)
  end.

Definition errs_add (b : bool) : nat := if b then 1 else 0.

(** One entry of the parsed labels. *)
Definition label_entry (c : Container) (acc : gmap bytes Route * nat) (e : bytes * label_value)
    : gmap bytes Route * nat :=
  let '(routes, errs) := acc in
  let '(alias, v) := e in
  match alias with
  | [] => (routes, S errs)
  | _ =>
      match (match v with LMap m => Some m | LStr s => yaml_LabelMap s end) with
      | None => (routes, S errs)
      | Some entryMap =>
          let (alias, bad) := resolve_alias (co_Aliases c) alias in
          let r := default (new_route alias c) (routes !! alias) in
          let (r, failed) := MapUnmarshalValidate entryMap r in
          (<[alias := r]> routes, errs + errs_add bad + errs_add failed)%nat
      end
  end.

(** [order] is the container's labels in the order of the range, [reorder] the
    order of the expanded labels. *)
Definition routesFromContainerLabels (name : bytes) (reorder : gmap bytes bytes -> list (bytes * bytes))
    (order : list (bytes * bytes)) (c : Container) : result Empty_set (gmap bytes Route * nat) :=
  explicitOnly ← (if negb (co_IsExplicit c) then IsExplicitOnly name else Ok false);
  if (explicitOnly : bool) then Ok (∅, 0%nat)
  else
    let routes := fold_left (fun (m : gmap bytes Route) a => <[a := new_route a c]> m) (co_Aliases c) ∅ in
    me ← ParseLabels reorder order (co_Aliases c);
    Ok (fold_left (label_entry c) me.1 (routes, me.2)).

(** ** All containers *)

(** A container as [loadRoutesImpl] sees it: its conversion, the ports of host
    networking and its labels in the order of the ranges. *)
Record listed := {
  li_container : Container;
  li_exposed : option (list (bytes * Z));
  li_order : list (bytes * bytes);
  li_reorder : gmap bytes bytes -> list (bytes * bytes);
  li_merge : gmap bytes Route -> list (bytes * Route)
}.

(** The new routes of one container join those before it; a conflict is an
    error unless one of the two is excluded. *)
Definition merge_entry (acc : gmap bytes Route * nat) (kv : bytes * Route) : gmap bytes Route * nat :=
  match acc.1 !! kv.1 with
  | Some conflict => (acc.1, (acc.2 + errs_add (negb (ShouldExclude conflict || ShouldExclude kv.2)))%nat)
  | None => (<[kv.1 := kv.2]> acc.1, acc.2)
  end.

Definition with_public_ports (c : Container) (m : PortMapping) : Container :=
  {| co_DockerHost := co_DockerHost c; co_Image := co_Image c; co_ContainerName := co_ContainerName c;
     co_ContainerID := co_ContainerID c; co_State := co_State c; co_HasAgent := co_HasAgent c;
     co_Labels := co_Labels c; co_ActualLabels := co_ActualLabels c; co_Idlewatcher := co_Idlewatcher c;
     co_Mounts := co_Mounts c; co_Network := co_Network c; co_PublicPortMapping := m;
     co_PrivatePortMapping := co_PrivatePortMapping c; co_PublicHostname := co_PublicHostname c;
     co_PrivateHostname := co_PrivateHostname c; co_Aliases := co_Aliases c; co_IsExcluded := co_IsExcluded c;
     co_IsExplicit := co_IsExplicit c; co_IsHostNetworkMode := co_IsHostNetworkMode c;
     co_Running := co_Running c; co_Errors := co_Errors c |}.

Definition load_container (name : bytes) (acc : gmap bytes Route * nat) (l : listed)
    : result Empty_set (gmap bytes Route * nat) :=
  let c := li_container l in
  match co_Errors c with
  | _ :: _ => Ok (acc.1, S acc.2)
  | [] =>
      let c' := if co_IsHostNetworkMode c
                then (fun e => with_public_ports c (UpdatePorts (co_PublicPortMapping c) e)) <$> li_exposed l
                else Some c in
      match c' with
      | None => Ok (acc.1, S acc.2)
      | Some c =>
          ne ← routesFromContainerLabels name (li_reorder l) (li_order l) c;
          Ok (fold_left merge_entry (li_merge l ne.1) (acc.1, (acc.2 + errs_add (negb (Nat.eqb ne.2 0)))%nat))
      end
  end.

Definition loadRoutesImpl (name : bytes) (containers : list listed) : result Empty_set (gmap bytes Route * nat) :=
  foldM (load_container name) (∅, 0%nat) containers.

(** ** Validation of the loaded routes *)

(** The alias and the provider a route gets before it is validated. *)
Definition SetProvider (alias shortName : bytes) (r : Route) : Route :=
  {| rt_Alias := alias; rt_Scheme := rt_Scheme r; rt_Host := rt_Host r; rt_Port := rt_Port r; rt_Root := rt_Root r;
     rt_Rules := rt_Rules r; rt_RuleFile := rt_RuleFile r; rt_HealthCheck := rt_HealthCheck r;
     rt_LoadBalanceLink := rt_LoadBalanceLink r; rt_Homepage := rt_Homepage r; rt_Agent := rt_Agent r;
     rt_Idlewatcher := rt_Idlewatcher r; rt_Container := rt_Container r; rt_Provider := shortName;
     rt_LisURL := rt_LisURL r; rt_ProxyURL := rt_ProxyURL r; rt_Excluded := rt_Excluded r;
     rt_ExcludedReason := rt_ExcludedReason r; rt_impl := rt_impl r; rt_valErr := rt_valErr r; rt_agent := rt_agent r |}.

(** One route: kept, or dropped with an error. *)
Definition load_one (shortName : bytes) (acc : list (bytes * Route) * nat) (kr : bytes * Route)
    : result Empty_set (list (bytes * Route) * nat) :=
  v ← Validate (SetProvider kr.1 shortName kr.2);
  match v.2 with
  | Some _ => Ok (acc.1, S acc.2)
  | None => r ← FinalizeHomepageConfig v.1; Ok (acc.1 ++ [(kr.1, r)], acc.2)
  end.

(** [loadRoutes] on the result of [loadRoutesImpl], ranged over in the order of
    the list; the number of errors is counted. *)
Definition loadRoutes (shortName : bytes) (routes : list (bytes * Route)) (err : bool)
    : result Empty_set (list (bytes * Route) * nat) :=
  if err && bool_decide (length routes = 0%nat) then Ok ([], 1%nat)
  else foldM (load_one shortName) ([], errs_add err) routes.

(** ** Lemmas *)

Lemma init_routes_dom (c : Container) (l : list bytes) (m : gmap bytes Route) (k : bytes) :
  is_Some (fold_left (fun (m : gmap bytes Route) a => <[a := new_route a c]> m) l m !! k) <-> k ∈ l \/ is_Some (m !! k).
Proof.
  revert m; induction l as [|a l IH]; intros m; simpl.
  { rewrite elem_of_nil. tauto. }
  rewrite IH, elem_of_cons. destruct (decide (a = k)) as [->|Hne].
  - rewrite lookup_insert_eq. split; [tauto|]. intros _. right. by eexists.
  - rewrite lookup_insert_ne by done. intuition congruence.
Qed.

(** The aliases the entries of the label map define. *)
Definition entry_alias (aliases : list bytes) (e : bytes * label_value) : option bytes :=
  match e.1 with
  | [] => None
  | _ => match (match e.2 with LMap m => Some m | LStr s => yaml_LabelMap s end) with
         | None => None
         | Some _ => Some (resolve_alias aliases e.1).1
         end
  end.

Lemma label_entries_dom (c : Container) l acc (k : bytes) :
  is_Some ((fold_left (label_entry c) l acc).1 !! k)
  <-> is_Some (acc.1 !! k) \/ k ∈ omap (entry_alias (co_Aliases c)) l.
Proof.
  revert acc; induction l as [|[a v] l IH]; intros [routes errs]; cbn [fold_left].
  { simpl. rewrite elem_of_nil. tauto. }
  rewrite IH. clear IH.
  assert (forall x, x ∈ omap (entry_alias (co_Aliases c)) ((a, v) :: l)
            <-> entry_alias (co_Aliases c) (a, v) = Some x \/ x ∈ omap (entry_alias (co_Aliases c)) l) as Hcons.
  { intros x. cbn [omap list_omap]. destruct (entry_alias (co_Aliases c) (a, v)) as [y|].
    - rewrite elem_of_cons. split; [intros [->|?]; auto|]. intros [[= ->]|?]; auto.
    - split; [auto|]. by intros [?|?]. }
  rewrite (Hcons k). unfold label_entry, entry_alias at 2. cbn [fst snd].
  destruct a as [|x a]; [intuition congruence|].
  destruct (match v with LMap m => Some m | LStr s => yaml_LabelMap s end) as [m|]; [|intuition congruence].
  destruct (resolve_alias (co_Aliases c) (x :: a)) as [alias bad].
  destruct (MapUnmarshalValidate m _) as [r failed]. cbn [fst].
  destruct (decide (alias = k)) as [->|Hne].
  - rewrite lookup_insert_eq. split; [tauto|]. intros _. left. by eexists.
  - rewrite lookup_insert_ne by done. intuition congruence.
Qed.

Lemma merge_first l acc (k : bytes) :
  (fold_left merge_entry l acc).1 !! k
  = match acc.1 !! k with Some r => Some r | None => (list_to_map l : gmap bytes Route) !! k end.
Proof.
  revert acc; induction l as [|[k' r] l IH]; intros acc; cbn [fold_left list_to_map foldr fst snd uncurry].
  { rewrite lookup_empty. by destruct (acc.1 !! k). }
  rewrite IH. unfold merge_entry. cbn [fst snd]. destruct (acc.1 !! k') eqn:E.
  - cbn [fst]. destruct (acc.1 !! k) eqn:E2; [done|]. rewrite lookup_insert_ne by congruence. done.
  - cbn [fst]. destruct (decide (k' = k)) as [->|Hne].
    + by rewrite !lookup_insert_eq, E.
    + by rewrite !lookup_insert_ne.
Qed.

(** The routes of a container are its aliases and the aliases its labels
    name, references resolved: a label without a resolvable reference defines
    a route under the text of the reference itself. *)
Theorem label_routes (name : bytes) (reorder : gmap bytes bytes -> list (bytes * bytes)) (order : list (bytes * bytes)) (c : Container) (routes : gmap bytes Route) (errs : nat) :
  routesFromContainerLabels name reorder order c = Ok (routes, errs) ->
  (co_IsExplicit c = false -> IsExplicitOnly name = Ok false) ->
  exists m n, ParseLabels reorder order (co_Aliases c) = Ok (m, n)
    /\ forall k, is_Some (routes !! k)
         <-> k ∈ co_Aliases c \/ k ∈ omap (entry_alias (co_Aliases c)) m.
Proof.
  intros Hr Hx. unfold routesFromContainerLabels in Hr.
  assert ((if negb (co_IsExplicit c) then IsExplicitOnly name else Ok false) = Ok false) as Hf
    by (destruct (co_IsExplicit c); auto).
  rewrite Hf in Hr. cbn [mbind result_bind] in Hr.
  destruct (ParseLabels reorder order (co_Aliases c)) as [[m n]|e|p] eqn:E; [|by destruct e|done].
  cbn [mbind result_bind fst snd] in Hr. exists m, n. split; [done|]. intros k.
  set (routes0 := fold_left (fun (m : gmap bytes Route) a => <[a := new_route a c]> m) (co_Aliases c) ∅) in Hr.
  injection Hr as Hr.
  pose proof (label_entries_dom c m (routes0, n) k) as Hd. rewrite Hr in Hd. cbn [fst] in Hd. rewrite Hd.
  unfold routes0. rewrite init_routes_dom, lookup_empty. split; [intros [[?|[? ?]]|?]; auto; done|intuition].
Qed.

(** A route that can be validated: its scheme is one of the known ones, it was
    not validated before, and something is left of its alias. *)
Definition loadable (kr : bytes * Route) : Prop :=
  (rt_Scheme kr.2 = SchemeNone \/ rt_Scheme kr.2 ∈ schemes) /\ unvalidated kr.2
  /\ ToLowerWith rl_ToLower (TrimSpace kr.1) <> [].

(** What becomes of it. *)
Definition validates (shortName : bytes) (kr : bytes * Route) : Prop :=
  exists r', validate (SetProvider kr.1 shortName kr.2) = Ok (r', None).

Lemma FinalizeHomepageConfig_keeps (r : Route) :
  rt_Alias r <> [] -> exists h, FinalizeHomepageConfig r = Ok (set_homepage r h).
Proof using Type.
  intros Ha. unfold FinalizeHomepageConfig. destruct (rt_Alias r) eqn:E; [done|].
  destruct (rt_Container r); [destruct (ShouldExclude r)|]; by eexists.
Qed.

Lemma load_one_spec (shortName : bytes) acc kr :
  loadable kr ->
  (exists r, load_one shortName acc kr = Ok (acc.1 ++ [(kr.1, r)], acc.2) /\ validates shortName kr
     /\ rt_impl r = true /\ rt_Alias r = ToLowerWith rl_ToLower (TrimSpace kr.1) /\ is_Some (rt_Homepage r)
     /\ is_Some (rt_ProxyURL r))
  \/ (load_one shortName acc kr = Ok (acc.1, S acc.2) /\ ~ validates shortName kr).
Proof using Type.
  intros (Hs & Hu & Ha). unfold load_one, Validate, validates.
  destruct (validate_result (SetProvider kr.1 shortName kr.2) Hs Hu) as (r' & e & Hv & Hok).
  rewrite Hv. cbn [mbind result_bind fst snd]. destruct e as [e|].
  { right. split; [done|]. by intros [r'' [=]]. }
  left. destruct (Hok eq_refl) as (Hi & _ & Hp & _).
  pose proof (validate_alias _ _ Hv) as Hal. change (rt_Alias (SetProvider kr.1 shortName kr.2)) with kr.1 in Hal.
  destruct (FinalizeHomepageConfig_keeps (set_valErr r' None)) as [h Hh]; [cbn; by rewrite Hal|].
  rewrite Hh. cbn [mbind result_bind]. eexists. split; [reflexivity|]. split; [by exists r'|].
  cbn. split_and!; try done.
Qed.

(** Loading keeps exactly the routes that pass validation, each with an
    implementation, a target, an entry for the homepage and its alias in lower
    case, and reports an error for every other one. *)
Theorem loadRoutes_sound (shortName : bytes) (routes : list (bytes * Route)) (err : bool) :
  Forall loadable routes -> routes <> [] ->
  exists l n, loadRoutes shortName routes err = Ok (l, n)
    /\ (forall k, k ∈ l.*1 <-> exists r, (k, r) ∈ routes /\ validates shortName (k, r))
    /\ (forall k r, (k, r) ∈ l -> rt_impl r = true /\ is_Some (rt_ProxyURL r) /\ is_Some (rt_Homepage r)
                                /\ rt_Alias r = ToLowerWith rl_ToLower (TrimSpace k))
    /\ (length l + n = length routes + errs_add err)%nat.
Proof using Type.
  clear MapUnmarshalValidate yaml_LabelMap. intros Hl Hne. unfold loadRoutes. rewrite bool_decide_eq_false_2 by (by destruct routes). rewrite andb_false_r. clear Hne.
  assert (forall acc, exists l n, foldM (load_one shortName) acc routes = Ok (acc.1 ++ l, n)
    /\ (forall k, k ∈ l.*1 <-> exists r, (k, r) ∈ routes /\ validates shortName (k, r))
    /\ (forall k r, (k, r) ∈ l -> rt_impl r = true /\ is_Some (rt_ProxyURL r) /\ is_Some (rt_Homepage r)
                                /\ rt_Alias r = ToLowerWith rl_ToLower (TrimSpace k))
    /\ (length l + n = length routes + acc.2)%nat) as Hfold.
  { induction routes as [|[k r] routes IH]; intros acc.
    { exists [], acc.2. rewrite app_nil_r. destruct acc. split_and!; try done.
      - intros k. split; [by intros ?%elem_of_nil|]. by intros (? & ?%elem_of_nil & _).
      - by intros k r ?%elem_of_nil. }
    apply Forall_cons in Hl as [Hk Hl]. cbn [foldM].
    assert (forall P : bytes * Route -> Prop, forall k', (exists r', (k', r') ∈ (k, r) :: routes /\ P (k', r'))
      <-> (k' = k /\ P (k, r)) \/ exists r', (k', r') ∈ routes /\ P (k', r')) as Hex.
    { intros P k'. setoid_rewrite elem_of_cons. split.
      - intros (r' & [[= -> ->]|Hin] & HP); [by left|right; by exists r'].
      - intros [[-> HP]|(r' & Hin & HP)]; [exists r|exists r']; tauto. }
    destruct (load_one_spec shortName acc (k, r) Hk) as [(r' & -> & Hv & Hi & Ha & Hh & Hp)|[-> Hv]];
      cbn [mbind result_bind fst].
    - destruct (IH Hl (acc.1 ++ [(k, r')], acc.2)) as (l & n & E & H1 & H2 & H3). cbn [fst snd] in *.
      exists ((k, r') :: l), n. rewrite E, <- app_assoc. split; [done|]. split_and!.
      + intros k'. rewrite Hex. cbn [fmap list_fmap fst]. rewrite elem_of_cons, H1. tauto.
      + intros k' r'' Hin. apply elem_of_cons in Hin as [[= -> ->]|Hin]; [done|by apply H2].
      + cbn [length]. lia.
    - destruct (IH Hl (acc.1, S acc.2)) as (l & n & E & H1 & H2 & H3). cbn [fst snd] in *.
      exists l, n. split; [done|]. split_and!; [|done|cbn [length]; lia].
      intros k'. rewrite Hex, H1. tauto. }
  destruct (Hfold ([], errs_add err)) as (l & n & E & Hl'). by exists l, n.
Qed.

(** A name of which nothing is left panics once it is validated. *)
Lemma blank_alias_panics (shortName : bytes) acc k (r : Route) :
  ToLowerWith rl_ToLower (TrimSpace k) = [] -> validates shortName (k, r) ->
  load_one shortName acc (k, r) = Panic ExplicitPanic.
Proof using Type.
  intros Hk [r' Hv]. unfold load_one, Validate. cbn [fst snd] in *. rewrite Hv. cbn [mbind result_bind fst snd].
  pose proof (validate_alias _ _ Hv) as Hal. cbn [SetProvider rt_Alias] in Hal.
  unfold FinalizeHomepageConfig. cbn [set_valErr set_meta rt_Alias]. by rewrite Hal, Hk.
Qed.

End docker.

(** ** The provider's map and its events *)

Inductive ProviderType := ProviderTypeDocker | ProviderTypeAgent | ProviderTypeFile.

(** What the handler reads of a route object, fixed once it is validated. *)
Record route_info := {
  ri_Alias : bytes;
  ri_ContainerID : bytes;
  ri_ContainerName : bytes
}.

Section handler.
(** The store: every route object has an identifier. *)
Variable info : nat -> route_info.
Variable t : ProviderType.

Definition alias_of (id : nat) : bytes := ri_Alias (info id).

(** The map [routes] and the routes that run. *)
Record provider_state := {
  pv_routes : gmap bytes nat;
  pv_running : gset nat
}.

(** [startRoute]; [ok] is whether [Start] succeeds. *)
Definition startRoute (ok : bool) (st : provider_state) (id : nat) : provider_state :=
  if ok then {| pv_routes := <[alias_of id := id]> (pv_routes st); pv_running := {[ id ]} ∪ pv_running st |}
  else {| pv_routes := delete (alias_of id) (pv_routes st); pv_running := pv_running st |}.

(** [FinishAndWait] of a route: its callback removes it from the map. *)
Definition FinishAndWait (st : provider_state) (id : nat) : provider_state :=
  if decide (id ∈ pv_running st) then
    {| pv_routes := delete (alias_of id) (pv_routes st); pv_running := pv_running st ∖ {[ id ]} |}
  else st.

(** [LoadRoutes] and [Start] of a provider, with the routes in the order they
    are started. *)
Definition Provider_Start (start_ok : nat -> bool) (loaded : list (bytes * nat)) : provider_state :=
  fold_left (fun st kid => startRoute (start_ok kid.2) st kid.2) loaded
    {| pv_routes := list_to_map loaded; pv_running := ∅ |}.

Definition match_event (e : Event) (id : nat) : bool :=
  match t with
  | ProviderTypeDocker | ProviderTypeAgent =>
      bool_decide (ri_ContainerID (info id) = ev_ActorID e)
      || bool_decide (ri_ContainerName (info id) = ev_ActorName e)
  | ProviderTypeFile => true
  end.

Definition matchAny (events : list Event) (id : nat) : bool := existsb (fun e => match_event e id) events.

Definition isForceReload (events : list Event) : bool :=
  existsb (fun e => ev_Action e =? ActionForceReload) events.

(** One old route in the first loop. *)
Definition handle_old (events : list Event) (newRoutes : list (bytes * nat)) (start_ok : nat -> bool)
    (st : provider_state) (k_old : bytes * nat) : provider_state :=
  match (list_to_map newRoutes : gmap bytes nat) !! k_old.1 with
  | None => FinishAndWait st k_old.2
  | Some newr =>
      if matchAny events newr then startRoute (start_ok newr) (FinishAndWait st k_old.2) newr else st
  end.

(** One new route in the second loop. *)
Definition handle_new (oldRoutes : gmap bytes nat) (start_ok : nat -> bool) (st : provider_state)
    (k_new : bytes * nat) : provider_state :=
  match oldRoutes !! k_new.1 with
  | Some _ => st
  | None => startRoute (start_ok k_new.2) st k_new.2
  end.

(** [Handle]: [newRoutes] and [load_failed] are what loading the routes gives,
    [order] is the clone of the map in the order of the range. *)
Definition Handle (events : list Event) (newRoutes : list (bytes * nat)) (load_failed : bool)
    (start_ok : nat -> bool) (order : list (bytes * nat)) (st : provider_state) : provider_state :=
  if load_failed && bool_decide (newRoutes = []) && negb (isForceReload events) then st
  else
    fold_left (handle_new (pv_routes st) start_ok) newRoutes
      (fold_left (handle_old events newRoutes start_ok) order st).

(** ** What the provider promises *)

(** The map lists exactly the running routes, under their aliases. *)
Definition consistent (st : provider_state) : Prop :=
  forall k id, pv_routes st !! k = Some id <-> id ∈ pv_running st /\ alias_of id = k.

(** The route an alias should have after an event. *)
Definition expected (events : list Event) (old : gmap bytes nat) (newRoutes : list (bytes * nat))
    (start_ok : nat -> bool) (k : bytes) : option nat :=
  match (list_to_map newRoutes : gmap bytes nat) !! k with
  | None => None
  | Some newr =>
      match old !! k with
      | Some oldr => if matchAny events newr then (if start_ok newr then Some newr else None) else Some oldr
      | None => if start_ok newr then Some newr else None
      end
  end.

(** The new routes are new objects under their own aliases. *)
Definition fresh_routes (st : provider_state) (l : list (bytes * nat)) : Prop :=
  NoDup l.*1 /\ Forall (fun kid => alias_of kid.2 = kid.1 /\ kid.2 ∉ pv_running st) l.

Lemma startRoute_consistent ok st id :
  consistent st -> pv_routes st !! alias_of id = None ->
  consistent (startRoute ok st id)
  /\ (forall k, pv_routes (startRoute ok st id) !! k
        = if decide (k = alias_of id) then (if ok then Some id else None) else pv_routes st !! k).
Proof.
  intros Hc Hn. split.
  - intros k i. unfold startRoute. destruct ok; cbn [pv_routes pv_running].
    + rewrite elem_of_union, elem_of_singleton. destruct (decide (alias_of id = k)) as [<-|Hne].
      * rewrite lookup_insert_eq. split; [intros [= <-]; auto|].
        intros [[->|Hi] Ha]; [done|]. assert (pv_routes st !! alias_of id = Some i) by (by apply Hc). congruence.
      * rewrite lookup_insert_ne by done. rewrite (Hc k i). split; [tauto|]. intros [[->|?] ?]; [done|auto].
    + rewrite delete_id by done. apply Hc.
  - intros k. unfold startRoute. destruct ok; cbn [pv_routes]; case_decide; subst.
    + by rewrite lookup_insert_eq.
    + by rewrite lookup_insert_ne.
    + by rewrite lookup_delete_eq.
    + by rewrite lookup_delete_ne.
Qed.

Lemma FinishAndWait_consistent st id k :
  consistent st -> pv_routes st !! k = Some id ->
  consistent (FinishAndWait st id)
  /\ (forall k', pv_routes (FinishAndWait st id) !! k' = if decide (k' = k) then None else pv_routes st !! k').
Proof.
  intros Hc Hk. apply Hc in Hk as [Hr Ha]. unfold FinishAndWait. rewrite decide_True by done. split.
  - intros k' i. cbn [pv_routes pv_running]. rewrite Ha. destruct (decide (k = k')) as [<-|Hne].
    + rewrite lookup_delete_eq. split; [done|]. intros [Hi Hai]. apply elem_of_difference in Hi as [Hi Hni].
      exfalso. apply Hni, elem_of_singleton.
      assert (pv_routes st !! k = Some i) by (by apply Hc).
      assert (pv_routes st !! k = Some id) by (by apply Hc). congruence.
    + rewrite lookup_delete_ne, (Hc k' i) by done. rewrite elem_of_difference, elem_of_singleton.
      split; [|tauto]. intros [? ?]. split; [|done]. split; [done|]. intros ->. congruence.
  - intros k'. cbn [pv_routes]. rewrite Ha. case_decide; subst; [by rewrite lookup_delete_eq|].
    by rewrite lookup_delete_ne.
Qed.

Lemma lookup_new_alias st newRoutes k id :
  fresh_routes st newRoutes -> (list_to_map newRoutes : gmap bytes nat) !! k = Some id -> alias_of id = k.
Proof.
  intros [_ Hf] Hk. apply elem_of_list_to_map_2 in Hk. rewrite Forall_forall in Hf.
  by destruct (Hf _ Hk).
Qed.

(** The first loop: the keys done are as expected, the others as before. *)
Lemma handle_old_fold events newRoutes start_ok l st0 st :
  fresh_routes st0 newRoutes -> consistent st -> NoDup l.*1 ->
  (forall k id, (k, id) ∈ l -> pv_routes st !! k = Some id) ->
  let st' := fold_left (handle_old events newRoutes start_ok) l st in
  consistent st'
  /\ (forall k, pv_routes st' !! k
        = if decide (k ∈ l.*1) then
            match (list_to_map newRoutes : gmap bytes nat) !! k with
            | None => None
            | Some newr => if matchAny events newr then (if start_ok newr then Some newr else None)
                           else pv_routes st !! k
            end
          else pv_routes st !! k).
Proof.
  intros Hf. revert st; induction l as [|[k id] l IH]; intros st Hc Hnd Hl; cbn [fold_left].
  { split; [done|]. intros k. rewrite decide_False by apply not_elem_of_nil. done. }
  apply NoDup_cons in Hnd as [Hk Hnd].
  assert (pv_routes st !! k = Some id) as Hkid by (apply Hl, elem_of_cons; by left).
  assert (consistent (handle_old events newRoutes start_ok st (k, id))
    /\ (forall k', pv_routes (handle_old events newRoutes start_ok st (k, id)) !! k'
         = if decide (k' = k) then
             match (list_to_map newRoutes : gmap bytes nat) !! k with
             | None => None
             | Some newr => if matchAny events newr then (if start_ok newr then Some newr else None)
                            else pv_routes st !! k
             end
           else pv_routes st !! k')) as [H1 H2].
  { unfold handle_old. cbn [fst snd].
    destruct ((list_to_map newRoutes : gmap bytes nat) !! k) as [newr|] eqn:En;
      [|by apply FinishAndWait_consistent].
    destruct (matchAny events newr); [|split; [done|]; intros k'; case_decide; by subst].
    destruct (FinishAndWait_consistent st id k Hc Hkid) as [F1 F2].
    pose proof (lookup_new_alias st0 newRoutes k newr Hf En) as Ha.
    destruct (startRoute_consistent (start_ok newr) (FinishAndWait st id) newr F1) as [S1 S2].
    { rewrite F2, Ha. by rewrite decide_True. }
    split; [done|]. intros k'. rewrite S2, F2, Ha. by case_decide. }
  destruct (IH (handle_old events newRoutes start_ok st (k, id)) H1 Hnd) as [I1 I2].
  { intros k' id' Hin. rewrite H2, decide_False.
    - apply Hl, elem_of_cons. by right.
    - intros ->. apply Hk, list_elem_of_fmap. by exists (k, id'). }
  split; [done|]. intros k'. rewrite I2, H2. cbn [fmap list_fmap fst].
  destruct (decide (k' = k)) as [->|Hne].
  - rewrite decide_False by done. rewrite decide_True by (apply elem_of_cons; by left). done.
  - destruct (decide (k' ∈ l.*1)) as [Hin|Hin].
    + rewrite decide_True by (apply elem_of_cons; by right). done.
    + rewrite decide_False; [done|]. by apply not_elem_of_cons.
Qed.

(** The second loop adds what is new. *)
Lemma handle_new_fold old start_ok l st0 st :
  fresh_routes st0 l -> consistent st ->
  (forall k id, (k, id) ∈ l -> old !! k = None -> pv_routes st !! k = None) ->
  let st' := fold_left (handle_new old start_ok) l st in
  consistent st'
  /\ (forall k, pv_routes st' !! k
        = match (list_to_map l : gmap bytes nat) !! k, old !! k with
          | Some newr, None => if start_ok newr then Some newr else None
          | _, _ => pv_routes st !! k
          end).
Proof.
  revert st; induction l as [|[k id] l IH]; intros st [Hnd Hf] Hc Hn; cbn [fold_left].
  { split; [done|]. intros k. simpl. by rewrite lookup_empty. }
  apply NoDup_cons in Hnd as [Hk Hnd]. apply Forall_cons in Hf as [[Ha Hr] Hf]. cbn [fst snd] in Ha.
  set (st1 := handle_new old start_ok st (k, id)).
  assert (consistent st1 /\ forall k', pv_routes st1 !! k'
    = if decide (k' = k) then match old !! k with None => if start_ok id then Some id else None
                              | Some _ => pv_routes st !! k end
      else pv_routes st !! k') as [H1 H2].
  { unfold st1, handle_new. cbn [fst snd]. destruct (old !! k) eqn:Eo.
    - split; [done|]. intros k'. case_decide; by subst.
    - destruct (startRoute_consistent (start_ok id) st id Hc) as [S1 S2].
      { rewrite Ha. apply (Hn k id); [apply elem_of_cons; by left|done]. }
      split; [done|]. intros k'. by rewrite S2, Ha. }
  destruct (IH st1) as [I1 I2]; [by split|done| |].
  { intros k' id' Hin Ho. rewrite H2, decide_False.
    - apply (Hn k' id'); [apply elem_of_cons; by right|done].
    - intros ->. apply Hk, list_elem_of_fmap. by exists (k, id'). }
  split; [done|]. intros k'. rewrite I2, H2. cbn [list_to_map foldr uncurry fst snd].
  destruct (decide (k' = k)) as [->|Hne].
  - rewrite lookup_insert_eq. rewrite (not_elem_of_list_to_map_1 l k) by done. done.
  - by rewrite lookup_insert_ne.
Qed.

Lemma Provider_Start_consistent start_ok loaded :
  NoDup loaded.*1 -> Forall (fun kid => alias_of kid.2 = kid.1) loaded ->
  let st := Provider_Start start_ok loaded in
  (forall k, pv_routes st !! k
     = match (list_to_map loaded : gmap bytes nat) !! k with
       | Some id => if start_ok id then Some id else None | None => None end)
  /\ (forall id, id ∈ pv_running st <-> start_ok id = true /\ id ∈ loaded.*2).
Proof.
  intros Hnd Hf. unfold Provider_Start.
  assert (forall l st, (forall k id, (k, id) ∈ l -> alias_of id = k) ->
    let st' := fold_left (fun st kid => startRoute (start_ok kid.2) st kid.2) l st in
    (NoDup l.*1 -> forall k, pv_routes st' !! k
       = match (list_to_map l : gmap bytes nat) !! k with
         | Some id => if start_ok id then Some id else None
         | None => pv_routes st !! k end)
    /\ (forall id, id ∈ pv_running st' <-> id ∈ pv_running st \/ start_ok id = true /\ id ∈ l.*2)) as Hfold.
  { induction l as [|[k id] l IH]; intros st Hal; cbn [fold_left].
    { split; [intros _ k; simpl; by rewrite lookup_empty|]. intros id. simpl. rewrite elem_of_nil. tauto. }
    destruct (IH (startRoute (start_ok id) st id)) as [I1 I2].
    { intros k' id' Hin. apply Hal, elem_of_cons. by right. }
    assert (alias_of id = k) as Ha by (apply (Hal k id), elem_of_cons; by left). cbn [snd]. split.
    - intros Hnd'. apply NoDup_cons in Hnd' as [Hk Hnd']. intros k'. rewrite (I1 Hnd').
      cbn [list_to_map foldr uncurry fst snd]. destruct (decide (k' = k)) as [->|Hne].
      + rewrite lookup_insert_eq, (not_elem_of_list_to_map_1 l k) by done.
        unfold startRoute. rewrite Ha. destruct (start_ok id); cbn [pv_routes];
          [by rewrite lookup_insert_eq | by rewrite lookup_delete_eq].
      + rewrite lookup_insert_ne by done. destruct (list_to_map l !! k'); [done|].
        unfold startRoute. rewrite Ha. destruct (start_ok id); cbn [pv_routes];
          [by rewrite lookup_insert_ne | by rewrite lookup_delete_ne].
    - intros i. rewrite I2. cbn [fmap list_fmap snd]. rewrite elem_of_cons.
      unfold startRoute. destruct (start_ok id) eqn:Eo; cbn [pv_running];
        rewrite ?elem_of_union, ?elem_of_singleton; intuition congruence. }
  destruct (Hfold loaded {| pv_routes := list_to_map loaded; pv_running := ∅ |}) as [H1 H2].
  { intros k id Hin. rewrite Forall_forall in Hf. by apply (Hf (k, id)). }
  split.
  - intros k. rewrite (H1 Hnd). cbn [pv_routes]. by destruct (list_to_map loaded !! k).
  - intros id. rewrite H2. cbn [pv_running]. set_solver.
Qed.

End handler.

(** ** Theorems *)

Section theorems.
Context {RuleT : Type} `{RouteLib RuleT}.
Variable info : nat -> route_info.
Variable t : ProviderType.

(** The alias a route gets from its key in the source ([Finalize]). *)
Definition alias_form (k : bytes) : bytes := ToLowerWith rl_ToLower (TrimSpace k).

(** What [loadRoutes] returns: one route per key, each a new object, whose
    alias is the form of its key. *)
Definition loaded_routes (running : gset nat) (l : list (bytes * nat)) : Prop :=
  NoDup l.*1 /\ Forall (fun kid => alias_of info kid.2 = alias_form kid.1 /\ kid.2 ∉ running) l.

(** The keys of a source that are their own aliases: lower case, without
    blanks around them. *)
Definition plain_keys (l : list (bytes * nat)) : Prop := Forall (fun kid => alias_form kid.1 = kid.1) l.

Lemma loaded_fresh st l : loaded_routes (pv_running st) l -> plain_keys l -> fresh_routes info st l.
Proof.
  intros [Hnd Hl] Hp. split; [done|]. unfold plain_keys in Hp. rewrite Forall_forall in *. intros kid Hin.
  destruct (Hl kid Hin) as [-> ?]. by rewrite (Hp kid Hin).
Qed.

(** The states of a provider: started with the routes it loaded, then any
    number of event batches, each with routes loaded anew, and routes that end
    by themselves.  The list holds all that was loaded. *)
Inductive provider_reachable : list (bytes * nat) -> provider_state -> Prop :=
  | reach_start start_ok loaded :
      loaded_routes ∅ loaded -> provider_reachable loaded (Provider_Start info start_ok loaded)
  | reach_event seen st events newRoutes load_failed start_ok order :
      provider_reachable seen st -> loaded_routes (pv_running st) newRoutes ->
      Permutation order (map_to_list (pv_routes st)) ->
      provider_reachable (seen ++ newRoutes) (Handle info t events newRoutes load_failed start_ok order st)
  | reach_end seen st id : provider_reachable seen st -> provider_reachable seen (FinishAndWait info st id).

Lemma Start_consistent start_ok loaded :
  NoDup loaded.*1 -> Forall (fun kid => alias_of info kid.2 = kid.1) loaded ->
  consistent info (Provider_Start info start_ok loaded).
Proof.
  intros Hnd Hf k id. destruct (Provider_Start_consistent info start_ok loaded Hnd Hf) as [H1 H2].
  rewrite H1, H2. rewrite Forall_forall in Hf. split.
  - destruct (list_to_map loaded !! k) as [i|] eqn:E; [|done]. destruct (start_ok i) eqn:Eo; [|done].
    intros [= <-]. apply elem_of_list_to_map_2 in E. split; [split; [done|]|by apply (Hf (k, i))].
    apply list_elem_of_fmap. by exists (k, i).
  - intros [[Ho Hin] Ha]. apply list_elem_of_fmap in Hin as ([k' i] & -> & Hin). cbn [snd] in *.
    assert (k' = k) as -> by (pose proof (Hf _ Hin); cbn in *; congruence).
    rewrite (elem_of_list_to_map_1 loaded k i Hnd Hin). by rewrite Ho.
Qed.

Lemma Handle_spec events newRoutes load_failed start_ok order st :
  consistent info st -> fresh_routes info st newRoutes -> Permutation order (map_to_list (pv_routes st)) ->
  let st' := Handle info t events newRoutes load_failed start_ok order st in
  consistent info st'
  /\ forall k, pv_routes st' !! k
       = if load_failed && bool_decide (newRoutes = []) && negb (isForceReload events) then pv_routes st !! k
         else expected info t events (pv_routes st) newRoutes start_ok k.
Proof.
  intros Hc Hf Ho st'. unfold st', Handle. clear st'.
  destruct (load_failed && bool_decide (newRoutes = []) && negb (isForceReload events)); [done|].
  assert (forall k id, (k, id) ∈ order <-> pv_routes st !! k = Some id) as Hord.
  { intros k id. rewrite Ho. apply elem_of_map_to_list. }
  destruct (handle_old_fold info t events newRoutes start_ok order st st Hf Hc) as [O1 O2].
  { rewrite Ho. apply NoDup_fst_map_to_list. }
  { intros k id. apply Hord. }
  set (st1 := fold_left (handle_old info t events newRoutes start_ok) order st) in *.
  assert (forall k, k ∈ order.*1 <-> is_Some (pv_routes st !! k)) as Hdom.
  { intros k. rewrite list_elem_of_fmap. split.
    - intros ([k' id] & -> & Hin). exists id. by apply Hord.
    - intros [id Hid]. exists (k, id). split; [done|]. by apply Hord. }
  destruct (handle_new_fold info (pv_routes st) start_ok newRoutes st st1 Hf O1) as [N1 N2].
  { intros k id _ Hn. rewrite O2, decide_False; [done|]. rewrite Hdom, Hn. by intros [? ?]. }
  split; [done|]. intros k. rewrite N2, O2. unfold expected.
  destruct (decide (k ∈ order.*1)) as [Hk|Hk]; rewrite Hdom in Hk.
  - destruct Hk as [oldr ->]. by destruct (list_to_map newRoutes !! k).
  - destruct (pv_routes st !! k) as [oldr|]; [destruct Hk; by eexists|].
    by destruct (list_to_map newRoutes !! k).
Qed.

Lemma reachable_consistent seen st : provider_reachable seen st -> plain_keys seen -> consistent info st.
Proof.
  induction 1 as [start_ok loaded Hl|seen st events newRoutes lf start_ok order _ IH Hl Ho|seen st id _ IH]; intros Hp.
  - destruct (loaded_fresh {| pv_routes := ∅; pv_running := ∅ |} loaded Hl Hp) as [Hnd Hf].
    apply Start_consistent; [done|]. rewrite Forall_forall in *. intros kid Hin. by destruct (Hf kid Hin).
  - apply Forall_app in Hp as [Hp1 Hp2]. apply Handle_spec; [by apply IH|by apply loaded_fresh|done].
  - specialize (IH Hp). destruct (decide (id ∈ pv_running st)) as [Hr|Hr].
    + eapply FinishAndWait_consistent; [done|]. by apply IH.
    + unfold FinishAndWait. by rewrite decide_False.
Qed.

(** C4: A provider follows its source, if the names of all routes the source
    ever had are lower case and without blanks around them (validation puts
    aliases in that form, the map is keyed by the name in the source): after a
    batch of events an alias has no route if the source has none, its old route
    if no event concerns it, and otherwise the newly loaded route if that
    starts; when loading fails altogether nothing changes, unless a reload is
    forced.  This holds for every order of the map and whatever routes ended by
    themselves before; batches are handled one at a time. *)
Theorem provider_follows seen events newRoutes load_failed start_ok order st :
  provider_reachable seen st -> loaded_routes (pv_running st) newRoutes -> plain_keys (seen ++ newRoutes) ->
  Permutation order (map_to_list (pv_routes st)) ->
  forall k, pv_routes (Handle info t events newRoutes load_failed start_ok order st) !! k
    = if load_failed && bool_decide (newRoutes = []) && negb (isForceReload events) then pv_routes st !! k
      else expected info t events (pv_routes st) newRoutes start_ok k.
Proof.
  intros Hr Hl [Hp1 Hp2]%Forall_app Ho. apply Handle_spec; [|by apply loaded_fresh|done].
  by eapply reachable_consistent.
Qed.

(** C14: In every reachable state of a provider whose source only ever had names
    in lower case and without blanks around them, the map lists exactly the
    routes that run, each under its own alias: no route runs unlisted, none is
    listed that does not run, and no alias has two. *)
Theorem provider_map_exact seen st :
  provider_reachable seen st -> plain_keys seen ->
  forall k id, pv_routes st !! k = Some id <-> id ∈ pv_running st /\ alias_of info id = k.
Proof. apply reachable_consistent. Qed.

End theorems.

(** ** Looking routes up *)

(** What the lookups read of a route: whether it has an implementation, and the
    compose project and service in the labels of its container. *)
Record service_info := { si_impl : bool; si_project : bytes; si_service : bytes }.

Section lookups.
Variable service : nat -> service_info.
Variable t : ProviderType.

Definition GetRoute (st : provider_state) (alias : bytes) : option nat := pv_routes st !! alias.

(** [IterRoutes]: the routes of a clone of the map, in the order of the range,
    until [yield] returns false; those it was called with. *)
Fixpoint IterRoutes (yield : bytes -> nat -> bool) (clone : list (bytes * nat)) : list (bytes * nat) :=
  match clone with
  | [] => []
  | (alias, r) :: clone' =>
      if negb (si_impl (service r)) then IterRoutes yield clone'
      else (alias, r) :: (if yield alias r then IterRoutes yield clone' else [])
  end.

Definition FindService (clone : list (bytes * nat)) (project svc : bytes) : option nat :=
  match t with
  | ProviderTypeFile => None
  | _ =>
      if bool_decide (project = []) || bool_decide (svc = []) then None
      else snd <$> List.find (fun '(_, r) => bool_decide (si_project (service r) = project) && bool_decide (si_service (service r) = svc)) clone
  end.

(** A service is found exactly if the provider has containers and one of its
    routes belongs to it; which one of several depends on the order. *)
Lemma FindService_spec clone project svc :
  (forall r, FindService clone project svc = Some r ->
     (exists alias, (alias, r) ∈ clone) /\ si_project (service r) = project /\ si_service (service r) = svc /\ project <> [] /\ svc <> [])
  /\ (t <> ProviderTypeFile -> project <> [] -> svc <> [] ->
      (exists alias r, (alias, r) ∈ clone /\ si_project (service r) = project /\ si_service (service r) = svc) ->
      is_Some (FindService clone project svc)).
Proof.
  unfold FindService. split.
  - intros r. destruct t; try discriminate;
      (repeat case_bool_decide; try discriminate; cbn [orb];
       destruct (List.find _ clone) as [[a r']|] eqn:Ef; [|discriminate]; intros [= <-];
       apply List.find_some in Ef as [Hin Hm]; reflect; split; [exists a; by apply list_elem_of_In|done]).
  - intros Ht Hp Hs (a & r & Hin & H1 & H2). rewrite !bool_decide_eq_false_2 by done. cbn [orb].
    destruct (List.find _ clone) as [x|] eqn:Ef; [destruct t; [by eexists|by eexists|done]|].
    pose proof (List.find_none _ _ Ef (a, r) ltac:(by apply list_elem_of_In)) as Hn. cbn in Hn.
    by rewrite H1, H2, !bool_decide_eq_true_2 in Hn.
Qed.

(** The range visits the routes with an implementation, each once, up to the
    first refusal. *)
Lemma IterRoutes_all clone :
  IterRoutes (fun _ _ => true) clone = List.filter (fun '(_, r) => si_impl (service r)) clone.
Proof. induction clone as [|[a r] clone IH]; [done|]. cbn. rewrite IH. by destruct (si_impl (service r)). Qed.

End lookups.

(** What becomes of other names: a route whose key is not its own alias (the alias is trimmed and put in
    lower case by validation, the key is not) is lost at the first batch of
    events that does not concern its container: the provider lists it under
    both names, finds its lower-case name gone from the source and ends it. *)
Theorem uppercase_alias_lost (info : nat -> route_info) (k : bytes) (id new : nat) events start_ok order :
  k <> alias_of info id -> alias_of info new = alias_of info id -> start_ok id = true ->
  matchAny info ProviderTypeDocker events new = false ->
  let st := Provider_Start info start_ok [(k, id)] in
  Permutation order (map_to_list (pv_routes st)) ->
  pv_running st = {[ id ]}
  /\ let st' := Handle info ProviderTypeDocker events [(k, new)] false start_ok order st in
     pv_running st' = ∅ /\ pv_routes st' = {[ k := id ]}.
Proof.
  intros Hk Ha Hs Hm st Ho.
  set (a := alias_of info id) in *.
  assert (st = {| pv_routes := <[a := id]> {[ k := id ]}; pv_running := {[ id ]} |}) as Hst.
  { unfold st, Provider_Start. cbn [fold_left snd]. unfold startRoute. rewrite Hs. cbn [pv_routes pv_running].
    f_equal. set_solver. }
  split; [by rewrite Hst|]. cbv zeta. unfold Handle. cbn [andb].
  assert (Permutation order [(a, id); (k, id)]) as Hord.
  { rewrite Ho, Hst. cbn [pv_routes]. rewrite map_to_list_insert.
    - by rewrite map_to_list_singleton.
    - by rewrite lookup_singleton_ne. }
  assert (fold_left (handle_old info ProviderTypeDocker events [(k, new)] start_ok) order st
          = {| pv_routes := {[ k := id ]}; pv_running := ∅ |}) as ->.
  { assert (forall s, handle_old info ProviderTypeDocker events [(k, new)] start_ok s (k, id) = s) as Hkk.
    { intros s. unfold handle_old. cbn [fst snd list_to_map foldr uncurry]. rewrite lookup_insert_eq.
      by rewrite Hm. }
    assert (handle_old info ProviderTypeDocker events [(k, new)] start_ok st (a, id)
            = {| pv_routes := {[ k := id ]}; pv_running := ∅ |}) as Haa.
    { unfold handle_old. cbn [fst snd list_to_map foldr uncurry]. rewrite lookup_insert_ne by done.
      rewrite lookup_empty. unfold FinishAndWait. rewrite Hst. cbn [pv_running pv_routes].
      rewrite decide_True by (by apply elem_of_singleton). fold a. f_equal.
      - apply delete_insert_id. by rewrite lookup_singleton_ne.
      - set_solver. }
    destruct order as [|x [|y [|]]]; try (apply Permutation_length in Hord; done).
    apply Permutation_length_2_inv in Hord.
    destruct Hord as [Hord|Hord]; injection Hord as <- <-; cbn [fold_left].
    - by rewrite Haa, Hkk.
    - by rewrite Hkk, Haa. }
  cbn [fold_left]. unfold handle_new. rewrite Hst. cbn [fst snd pv_routes].
  rewrite lookup_insert_ne by done. rewrite lookup_singleton_eq. done.
Qed.

(** ** Witnesses *)

Definition demo_container : Container IdlewatcherConfig :=
  {| co_DockerHost := "unix:///var/run/docker.sock"; co_Image := {| im_Author := "library"; im_Name := "web"; im_Tag := []; im_SHA256 := []; im_Version := [] |};
     co_ContainerName := "web"; co_ContainerID := "0123456789ab"; co_State := "running"; co_HasAgent := false;
     co_Labels := ∅; co_ActualLabels := ∅; co_Idlewatcher := None; co_Mounts := ∅; co_Network := [];
     co_PublicPortMapping := ∅; co_PrivatePortMapping := ∅; co_PublicHostname := []; co_PrivateHostname := [];
     co_Aliases := [B "a"; B "b"]; co_IsExcluded := false; co_IsExplicit := true; co_IsHostNetworkMode := false;
     co_Running := true; co_Errors := [] |}.

Definition demo_order : list (bytes * bytes) :=
  [(B "proxy.#1.port", B "80"); (B "proxy.#3.port", B "80"); (B "proxy.c.host", B "h")].

(** The third reference has no alias: its route is named by the reference. *)
Lemma label_routes_witness :
  exists routes errs,
    routesFromContainerLabels (RuleT := unit) (fun _ r => (r, false)) (fun _ => None) "docker" map_to_list demo_order
      demo_container = Ok (routes, errs)
    /\ is_Some (routes !! B "#3") /\ routes !! B "#1" = None.
Proof.
  destruct (routesFromContainerLabels (RuleT := unit) (fun _ r => (r, false)) (fun _ => None) "docker" map_to_list
              demo_order demo_container) as [[routes errs]|e|p] eqn:E;
    [|destruct e|exfalso; vm_compute in E; discriminate E].
  exists routes, errs. split; [reflexivity|].
  destruct (label_routes (RuleT := unit) (fun _ r => (r, false)) (fun _ => None) "docker" map_to_list demo_order
              demo_container routes errs E) as (m & n & Hm & Hk); [discriminate|].
  vm_compute in Hm. injection Hm as <- <-. split.
  - apply Hk. right. decide_closed.
  - destruct (routes !! B "#1") as [r|] eqn:Er; [|reflexivity]. exfalso.
    assert (is_Some (routes !! B "#1")) as Hs by (rewrite Er; by eexists).
    apply Hk in Hs. revert Hs. apply (bool_decide_unpack (~ _)). vm_compute. exact I.
Defined.

Definition demo_loaded : list (bytes * Route unit) :=
  [(B "App", demo_route "x" "10.0.0.2" 8080); (B "self", demo_route "y" "" 80)].

(** The second route names the proxy's own port and is refused. *)
Lemma loadRoutes_sound_witness :
  exists l n, loadRoutes "file" demo_loaded false = Ok (l, n) /\ (length l + n = 2)%nat
    /\ (B "App" ∈ l.*1 <-> exists r, (B "App", r) ∈ demo_loaded /\ validates "file" (B "App", r)).
Proof.
  destruct (loadRoutes_sound "file" demo_loaded false) as (l & n & E & H1 & _ & H2).
  - repeat constructor; cbn; try (left; reflexivity); vm_compute; discriminate.
  - discriminate.
  - exists l, n. split; [exact E|]. split; [exact H2|]. apply H1.
Defined.

(** Two containers, the second is replaced by a new one of the same name. *)
Definition demo_info (id : nat) : route_info :=
  match id with
  | 0%nat => {| ri_Alias := "app"; ri_ContainerID := "c0"; ri_ContainerName := "app" |}
  | 1%nat => {| ri_Alias := "db"; ri_ContainerID := "c1"; ri_ContainerName := "db" |}
  | 2%nat => {| ri_Alias := "app"; ri_ContainerID := "c0"; ri_ContainerName := "app" |}
  | _ => {| ri_Alias := "db"; ri_ContainerID := "c3"; ri_ContainerName := "db" |}
  end.

Definition demo_events : list Event := [MkEvent EventTypeDocker "db" "c3" ∅ ActionContainerStart].

Definition demo_start : provider_state :=
  Provider_Start demo_info (fun _ => true) [(B "app", 0%nat); (B "db", 1%nat)].

Lemma demo_start_reachable :
  provider_reachable (RuleT := unit) demo_info ProviderTypeDocker [(B "app", 0%nat); (B "db", 1%nat)] demo_start.
Proof. apply reach_start. split; decide_closed. Qed.

Lemma provider_follows_witness :
  let st := Handle demo_info ProviderTypeDocker demo_events [(B "app", 2%nat); (B "db", 3%nat)] false
              (fun _ => true) (map_to_list (pv_routes demo_start)) demo_start in
  pv_routes st !! B "app" = Some 0%nat /\ pv_routes st !! B "db" = Some 3%nat.
Proof.
  cbv zeta. rewrite !(provider_follows demo_info ProviderTypeDocker _ demo_events _ false (fun _ => true) _ demo_start
    demo_start_reachable); try reflexivity; try (split; decide_closed); try decide_closed.
Defined.

Lemma provider_map_exact_witness :
  pv_routes demo_start !! B "app" = Some 0%nat /\ (0%nat ∈ pv_running demo_start /\ alias_of demo_info 0 = B "app").
Proof.
  split; [decide_closed|].
  apply (proj1 (provider_map_exact demo_info ProviderTypeDocker _ demo_start demo_start_reachable
                  ltac:(decide_closed) (B "app") 0%nat)).
  decide_closed.
Defined.

Lemma uppercase_alias_lost_witness :
  let st := Provider_Start demo_info (fun _ => true) [(B "App", 0%nat)] in
  pv_running st = {[ 0%nat ]}
  /\ pv_running (Handle demo_info ProviderTypeDocker demo_events [(B "App", 2%nat)] false (fun _ => true)
       (map_to_list (pv_routes st)) st) = ∅.
Proof.
  destruct (uppercase_alias_lost demo_info (B "App") 0 2 demo_events (fun _ => true)
    (map_to_list (pv_routes (Provider_Start demo_info (fun _ => true) [(B "App", 0%nat)])))) as (H1 & H2 & _);
    try reflexivity; [discriminate|]. split; [exact H1|exact H2].
Defined.
