(* ===== verification/IdleWatcher.v ===== *)
(** * Idle watcher

    Models internal/idlewatcher: the state of a container that sleeps when
    nobody uses it (state.go, watcher.go), its health checks while it wakes
    (health.go), the requests and streams that wake it (handle_http.go,
    handle_stream.go), the events it reports (events.go), errors (errors.go)
    and the containers it depends on.

    Times are in nanoseconds.  The idle ticker is its next tick, if it runs;
    Go's [Ticker.Reset] and [Stop] also discard a tick not yet received.  The
    goroutine of [watchUntilDestroy] and the handlers of requests run in steps;
    answers of the container provider and of health checks are inputs. *)

From S2P Require Import Prelude GoStrings Health EventQueue Monitor IdleConfig.

(** ** Data *)

Inductive ContainerStatus :=
  | ContainerStatusError | ContainerStatusRunning | ContainerStatusPaused | ContainerStatusStopped.

#[export] Instance ContainerStatus_eq_dec : EqDecision ContainerStatus.
Proof. solve_decision. Defined.

(** Errors: those the code tests for, texts of other packages, and its own. *)
Inductive idle_err :=
  | ErrDeadlineExceeded
  | ErrCanceled
  | ErrReload
  | ErrText (s : bytes)
  | ErrStartup (startedAt healthTries : Z)
  | ErrUnexpectedStatus (s : ContainerStatus)
  | ErrProviderNotSet
  | ErrStopMethod (m : bytes)
  | watcherError (name : bytes) (err : idle_err)
  | depError (action name : bytes) (err : idle_err).

Record containerState := {
  cs_status : ContainerStatus;
  cs_ready : bool;
  cs_err : option idle_err;
  cs_startedAt : option Z;
  cs_healthTries : Z
}.

Inductive WakeEventType :=
  | WakeEventStarting | WakeEventWakingDep | WakeEventDepReady | WakeEventContainerWoke
  | WakeEventWaitingReady | WakeEventReady | WakeEventError.

Record WakeEvent := {
  we_Type : WakeEventType;
  we_Message : bytes;
  we_Timestamp : Z;
  we_Error : option idle_err
}.

(** What is asked of the container provider. *)
Inductive provider_call :=
  | CallStart | CallUnpause | CallPause
  | CallStop (signal : bytes) (timeout : Z)
  | CallKill (signal : bytes).

Definition is_stop_call (c : provider_call) : bool :=
  match c with CallPause | CallStop _ _ | CallKill _ => true | _ => false end.

(** [w_idle] is the next tick of the idle ticker, [w_health] whether the health
    ticker runs, [w_notify] whether the notification channel holds a token,
    [w_subs] the channels of the event streams, [w_calls] the calls made. *)
Record Watcher := {
  w_cfg : IdlewatcherConfig;
  w_provider : bool;
  w_state : containerState;
  w_lastReset : option Z;
  w_idle : option Z;
  w_health : bool;
  w_notify : bool;
  w_subs : gmap nat (list WakeEvent);
  w_history : list WakeEvent;
  w_calls : list (Z * provider_call);
  w_done : option idle_err
}.

Definition idleWakerCheckInterval : Z := 200 * Millisecond.
Definition idleWakerCheckTimeout : Z := Second.
Definition reqTimeout : Z := 3 * Second.
Definition neverTick : Z := Z.shiftl 1 63 - 1.
Definition eventChannelSize : nat := 10.

(** Records with a changed field. *)
Definition set_state (w : Watcher) (s : containerState) : Watcher :=
  {| w_cfg := w_cfg w; w_provider := w_provider w; w_state := s; w_lastReset := w_lastReset w; w_idle := w_idle w;
     w_health := w_health w; w_notify := w_notify w; w_subs := w_subs w; w_history := w_history w;
     w_calls := w_calls w; w_done := w_done w |}.

Definition set_events (w : Watcher) (subs : gmap nat (list WakeEvent)) (h : list WakeEvent) : Watcher :=
  {| w_cfg := w_cfg w; w_provider := w_provider w; w_state := w_state w; w_lastReset := w_lastReset w;
     w_idle := w_idle w; w_health := w_health w; w_notify := w_notify w; w_subs := subs; w_history := h;
     w_calls := w_calls w; w_done := w_done w |}.

Definition set_timers (w : Watcher) (reset idle : option Z) (health : bool) : Watcher :=
  {| w_cfg := w_cfg w; w_provider := w_provider w; w_state := w_state w; w_lastReset := reset; w_idle := idle;
     w_health := health; w_notify := w_notify w; w_subs := w_subs w; w_history := w_history w;
     w_calls := w_calls w; w_done := w_done w |}.

Definition set_notify_ch (w : Watcher) (b : bool) : Watcher :=
  {| w_cfg := w_cfg w; w_provider := w_provider w; w_state := w_state w; w_lastReset := w_lastReset w;
     w_idle := w_idle w; w_health := w_health w; w_notify := b; w_subs := w_subs w; w_history := w_history w;
     w_calls := w_calls w; w_done := w_done w |}.

Definition add_call (w : Watcher) (now : Z) (c : provider_call) : Watcher :=
  {| w_cfg := w_cfg w; w_provider := w_provider w; w_state := w_state w; w_lastReset := w_lastReset w;
     w_idle := w_idle w; w_health := w_health w; w_notify := w_notify w; w_subs := w_subs w;
     w_history := w_history w; w_calls := w_calls w ++ [(now, c)]; w_done := w_done w |}.

Definition set_done (w : Watcher) (cause : idle_err) : Watcher :=
  {| w_cfg := w_cfg w; w_provider := w_provider w; w_state := w_state w; w_lastReset := w_lastReset w;
     w_idle := None; w_health := false; w_notify := w_notify w; w_subs := w_subs w; w_history := w_history w;
     w_calls := w_calls w; w_done := Some cause |}.

Definition stop_health (w : Watcher) : Watcher := set_timers w (w_lastReset w) (w_idle w) false.
Definition stop_idle (w : Watcher) : Watcher := set_timers w (w_lastReset w) None (w_health w).

(** The name is known: [NewWatcher] asks for the key first. *)
Definition container_name (w : Watcher) : bytes :=
  match Idle_ContainerName (w_cfg w) with Ok n => n | _ => [] end.

(** ** Errors *)

Fixpoint errors_Is (e target : idle_err) : bool :=
  match e, target with
  | ErrDeadlineExceeded, ErrDeadlineExceeded | ErrCanceled, ErrCanceled | ErrReload, ErrReload => true
  | watcherError _ e, _ | depError _ _ e, _ => errors_Is e target
  | _, _ => false
  end.

Definition convertError (e : idle_err) : idle_err :=
  if errors_Is e ErrDeadlineExceeded then ErrText "timeout" else e.

Definition newWatcherError (w : Watcher) (e : idle_err) : option idle_err :=
  if errors_Is e ErrReload then None
  else match e with
       | watcherError _ _ => Some e
       | _ => Some (watcherError (container_name w) (convertError e))
       end.

Definition newDepError (action name : bytes) (e : idle_err) : option idle_err :=
  if errors_Is e ErrReload then None
  else match e with
       | depError _ _ _ => Some e
       | _ => Some (depError action name (convertError e))
       end.

(** ** Events for the loading page *)

Definition newWakeEvent (now : Z) (t : WakeEventType) (message : bytes) (err : option idle_err) : WakeEvent :=
  {| we_Type := t; we_Message := message; we_Timestamp := now; we_Error := err |}.

Definition clearEventHistory (w : Watcher) : Watcher := set_events w (w_subs w) [].

(** A full channel drops the event. *)
Definition push_event (e : WakeEvent) (ch : list WakeEvent) : list WakeEvent :=
  if (length ch <? eventChannelSize)%nat then ch ++ [e] else ch.

Definition sendEvent (now : Z) (t : WakeEventType) (message : bytes) (err : option idle_err) (w : Watcher) : Watcher :=
  let e := newWakeEvent now t message err in
  set_events w (push_event e <$> w_subs w) (w_history w ++ [e]).

(** ** The state of the container *)

Definition running (w : Watcher) : bool := bool_decide (cs_status (w_state w) = ContainerStatusRunning).
Definition ready (w : Watcher) : bool := cs_ready (w_state w).

Definition setReady (now : Z) (w : Watcher) : Watcher :=
  let w := set_state w {| cs_status := ContainerStatusRunning; cs_ready := true; cs_err := None;
                          cs_startedAt := None; cs_healthTries := 0 |} in
  set_notify_ch (sendEvent now WakeEventReady (container_name w ++ B " is ready!") None w) true.

Definition setStarting (now : Z) (w : Watcher) : Watcher :=
  set_state w {| cs_status := ContainerStatusRunning; cs_ready := false; cs_err := None;
                 cs_startedAt := Some now; cs_healthTries := 0 |}.

Definition setNapping (status : ContainerStatus) (w : Watcher) : Watcher :=
  set_state (clearEventHistory w)
    {| cs_status := status; cs_ready := false; cs_err := None; cs_startedAt := None; cs_healthTries := 0 |}.

Definition setError (now : Z) (err : idle_err) (w : Watcher) : Watcher :=
  set_state (sendEvent now WakeEventError "Container error" (Some err) w)
    {| cs_status := ContainerStatusError; cs_ready := false; cs_err := Some err; cs_startedAt := None;
       cs_healthTries := 0 |}.

Definition Watcher_Status (w : Watcher) : Z :=
  let state := w_state w in
  match cs_err state with
  | Some _ => StatusError
  | None =>
      if cs_ready state then StatusHealthy
      else if bool_decide (cs_status state = ContainerStatusRunning) then StatusStarting
      else StatusNapping
  end.

(** The text of [Detail]; the text of an error is the error here. *)
Definition Watcher_Detail (w : Watcher) : idle_err + bytes :=
  let state := w_state w in
  match cs_err state with
  | Some e => inl e
  | None =>
      inr (if negb (cs_ready state) then B "not ready"
           else if bool_decide (cs_status state = ContainerStatusRunning) then B "starting"
           else B "napping")
  end.

Definition resetIdleTimer (now : Z) (w : Watcher) : Watcher :=
  set_timers w (Some now) (Some (now + iw_IdleTimeout (w_cfg w))) (w_health w).

(** [None] is the zero time. *)
Definition expires (w : Watcher) : option Z :=
  if negb (running w) || (iw_IdleTimeout (w_cfg w) <=? 0) then None
  else Some (default 0 (w_lastReset w) + iw_IdleTimeout (w_cfg w)).

(** ** Health checks while waking *)

Definition startup_timeout (now : Z) (w : Watcher) : option idle_err :=
  match cs_startedAt (w_state w) with
  | Some s => if iw_WakeTimeout (w_cfg w) <? time_Sub now s
              then Some (ErrStartup s (cs_healthTries (w_state w))) else None
  | None => None
  end.

Definition count_health_try (w : Watcher) : Watcher :=
  let state := w_state w in
  set_state w {| cs_status := cs_status state; cs_ready := false; cs_err := cs_err state;
                 cs_startedAt := cs_startedAt state; cs_healthTries := cs_healthTries state + 1 |}.

(** [host_empty]: the URL has no host yet. *)
Definition checkUpdateState (now : Z) (host_empty : bool) (check : check_result) (w : Watcher)
    : Watcher * bool * option idle_err :=
  if host_empty then (w, false, None)
  else
    match startup_timeout now w with
    | Some err => (setError now err w, false, Some err)
    | None =>
        match check with
        | inr err => (setError now (ErrText err) w, false, Some (ErrText err))
        | inl res => if Healthy res then (setReady now w, true, None) else (count_health_try w, false, None)
        end
    end.

(** ** Waking and stopping *)

Definition wakeInProgress (w : Watcher) : bool :=
  match cs_startedAt (w_state w) with Some _ => true | None => false end.

(** [outcome] is the answer of the provider to the call, if one is made. *)
Definition wakeIfStopped (now : Z) (outcome : option idle_err) (w : Watcher) : Watcher * option idle_err :=
  match cs_status (w_state w) with
  | ContainerStatusRunning => (w, None)
  | st =>
      if negb (w_provider w) then (w, Some ErrProviderNotSet)
      else match st with
           | ContainerStatusStopped =>
               (add_call (sendEvent now WakeEventStarting (container_name w ++ B " is starting...") None w)
                  now CallStart, outcome)
           | ContainerStatusPaused =>
               (add_call (sendEvent now WakeEventStarting (container_name w ++ B " is unpausing...") None w)
                  now CallUnpause, outcome)
           | _ => (w, Some (ErrUnexpectedStatus st))
           end
  end.

(** [Wake] after [wakeDependencies] has returned [deps]; the events its
    goroutines sent are [dep_events]. *)
Definition Wake (now : Z) (dep_events : list (WakeEventType * bytes)) (deps outcome : option idle_err) (w : Watcher)
    : Watcher * option idle_err :=
  let w := fold_left (fun w ev => sendEvent now ev.1 ev.2 None w) dep_events w in
  match deps with
  | Some e => (sendEvent now WakeEventError "Failed to wake dependencies" (Some e) w, newWatcherError w e)
  | None =>
      if wakeInProgress w then (w, None)
      else
        let name := container_name w in
        match wakeIfStopped now outcome w with
        | (w, Some e) => (sendEvent now WakeEventError (B "Failed to start " ++ name) (Some e) w, newWatcherError w e)
        | (w, None) =>
            (sendEvent now WakeEventWaitingReady (B "Waiting for " ++ name ++ B " to be ready...") None
               (sendEvent now WakeEventContainerWoke (name ++ B " started successfully") None w), None)
        end
  end.

(** [math.Ceil(StopTimeout.Seconds())]. *)
Definition stop_seconds (c : IdlewatcherConfig) : Z := - ((- iw_StopTimeout c) / Second).

Definition stop_call (c : IdlewatcherConfig) : option provider_call :=
  if bool_decide (iw_StopMethod c = ContainerStopMethodPause) then Some CallPause
  else if bool_decide (iw_StopMethod c = ContainerStopMethodStop) then Some (CallStop (iw_StopSignal c) (stop_seconds c))
  else if bool_decide (iw_StopMethod c = ContainerStopMethodKill) then Some (CallKill (iw_StopSignal c))
  else None.

(** [outcome] is the provider's answer, [deps] the result of
    [stopDependencies]. *)
Definition stopByMethod (now : Z) (outcome deps : option idle_err) (w : Watcher) : Watcher * option idle_err :=
  let wrap (o : option idle_err) := o ≫= newWatcherError w in
  if negb (running w) then (w, wrap deps)
  else if negb (w_provider w) then (w, Some ErrProviderNotSet)
  else
    let '(w', err) := match stop_call (w_cfg w) with
                      | Some c => (add_call w now c, outcome)
                      | None => (w, newWatcherError w (ErrStopMethod (iw_StopMethod (w_cfg w))))
                      end in
    match err with
    | Some e => (w', newWatcherError w e)
    | None => (w', wrap deps)
    end.

(** ** The loop of the watcher *)

Inductive loop_input :=
  | TaskDone (cause : idle_err)
  | WatchError
  | ContainerEvent (action : Z)
  | HealthTick (host_empty : bool) (check : check_result)
  | IdleTick (outcome deps : option idle_err).

Definition causeContainerDestroy : idle_err := ErrText "container destroyed".

Definition on_container_event (now action : Z) (w : Watcher) : Watcher :=
  if action =? ActionContainerDestroy then set_done w causeContainerDestroy
  else if action =? ActionForceReload then w
  else
    let w := resetIdleTimer now w in
    if IsContainerStart action then
      let w := setStarting now w in set_timers w (w_lastReset w) (w_idle w) true
    else if IsContainerStop action then stop_health (stop_idle (setNapping ContainerStatusStopped w))
    else if IsContainerPause action then stop_health (stop_idle (setNapping ContainerStatusPaused w))
    else w.

Definition on_health_tick (now : Z) (host_empty : bool) (check : check_result) (w : Watcher) : Watcher :=
  if running w && negb (ready w) then
    match checkUpdateState now host_empty check w with
    | (w, _, Some _) => stop_health w
    | (w, true, None) => resetIdleTimer now (set_notify_ch (stop_health w) true)
    | (w, false, None) => w
    end
  else w.

Definition on_idle_tick (now : Z) (outcome deps : option idle_err) (w : Watcher) : Watcher :=
  let w := stop_idle w in
  if running w then (stopByMethod now outcome deps w).1 else w.

(** One round of [watchUntilDestroy]. *)
Definition loop_step (now : Z) (i : loop_input) (w : Watcher) : Watcher :=
  match i with
  | TaskDone cause => set_done w cause
  | WatchError => w
  | ContainerEvent action => on_container_event now action w
  | HealthTick host_empty check => on_health_tick now host_empty check w
  | IdleTick outcome deps => on_idle_tick now outcome deps w
  end.

(** ** HTTP requests *)

Record wake_request := {
  rq_Path : bytes;
  rq_Method : bytes;
  rq_RequestURI : bytes;
  rq_AcceptHTML : bool;
  rq_AcceptEmpty : bool
}.

Definition FavIconPath : bytes := "/favicon.ico".
Definition LoadingPageCSSPath : bytes := "/$godoxy/style.css".
Definition LoadingPageJSPath : bytes := "/$godoxy/loading.js".
Definition WakeEventsPath : bytes := "/$godoxy/wake-events".

Inductive wake_reply :=
  | ReplyFavIcon | ReplyCSS | ReplyJS | ReplyEvents
  | ReplyForbidden | ReplyFailed | ReplyWoken | ReplyLoadingPage
  | ReplyNext.

(** The files of the loading page. *)
Definition static_reply (path : bytes) : option wake_reply :=
  if bool_decide (path = FavIconPath) then Some ReplyFavIcon
  else if bool_decide (path = LoadingPageCSSPath) then Some ReplyCSS
  else if bool_decide (path = LoadingPageJSPath) then Some ReplyJS
  else if bool_decide (path = WakeEventsPath) then Some ReplyEvents
  else None.

Definition acceptHTML (r : wake_request) : bool :=
  (bool_decide (rq_Method r = B "GET") && rq_AcceptHTML r)
  || (bool_decide (rq_RequestURI r = B "/") && rq_AcceptEmpty r).

(** What the provider and the dependencies answer to a [Wake]. *)
Record wake_env := {
  wk_events : list (WakeEventType * bytes);
  wk_deps : option idle_err;
  wk_outcome : option idle_err
}.

Definition wakeFromHTTP (now : Z) (r : wake_request) (env : wake_env) (w : Watcher) : Watcher * wake_reply :=
  let w := resetIdleTimer now w in
  match static_reply (rq_Path r) with
  | Some reply => (w, reply)
  | None =>
      if ready w then (w, ReplyNext)
      else if negb (bool_decide (iw_StartEndpoint (w_cfg w) = [])) && negb (bool_decide (rq_Path r = iw_StartEndpoint (w_cfg w)))
      then (w, ReplyForbidden)
      else
        let '(w, err) := Wake now (wk_events env) (wk_deps env) (wk_outcome env) w in
        if negb (acceptHTML r) then (w, match err with Some _ => ReplyFailed | None => ReplyWoken end)
        else (w, ReplyLoadingPage)
  end.

Inductive served :=
  | Answered (r : wake_reply)
  | Canceled
  | Forwarded (expires : option Z).

(** [canceled]: the request is gone when the answer is known. *)
Definition Watcher_ServeHTTP (now : Z) (r : wake_request) (env : wake_env) (canceled : bool) (w : Watcher)
    : Watcher * served :=
  match wakeFromHTTP now r env w with
  | (w, ReplyNext) => (w, if canceled then Canceled else Forwarded (expires w))
  | (w, reply) => (w, Answered reply)
  end.

(** ** Streams *)

Inductive stream_wait :=
  | Dial (err : option idle_err)
  | WaitReady.

(** [wakeFromStream] up to the wait for readiness; [started]: the route has
    started before the connection was given up. *)
Definition wakeFromStream (now : Z) (env : wake_env) (started : bool) (w : Watcher) : Watcher * stream_wait :=
  let w := resetIdleTimer now w in
  if ready w then (w, Dial None)
  else
    match Wake now (wk_events env) (wk_deps env) (wk_outcome env) w with
    | (w, Some e) => (w, Dial (Some e))
    | (w, None) =>
        if negb started then (w, Dial None)
        else if ready w then (resetIdleTimer now w, Dial None)
        else (w, WaitReady)
    end.

(** The end of the wait: a token was received, or the connection given up.
    Either way the stream is dialled. *)
Definition waitForReady (now : Z) (w : Watcher) : Watcher * bool :=
  let w := set_notify_ch w false in
  if ready w then (resetIdleTimer now w, true) else (w, false).

(** [onRead] resets the timer before the hook of the stream. *)
Definition onRead (now : Z) (w : Watcher) : Watcher := resetIdleTimer now w.

(** ** Reload *)

(** The configuration a reload leaves. *)
Definition reload_config (old new : IdlewatcherConfig) : IdlewatcherConfig :=
  let deps := match iw_DependsOn new with [] => iw_DependsOn old | d => d end in
  let base := if 0 <? iw_IdleTimeout new then new else old in
  {| iw_Proxmox := iw_Proxmox old; iw_Docker := iw_Docker old; iw_IdleTimeout := iw_IdleTimeout base;
     iw_WakeTimeout := iw_WakeTimeout base; iw_StopTimeout := iw_StopTimeout base; iw_StopMethod := iw_StopMethod base;
     iw_StopSignal := iw_StopSignal base; iw_StartEndpoint := iw_StartEndpoint old; iw_DependsOn := deps;
     iw_valErr := iw_valErr old |}.

(** The beginning of [NewWatcher] on an existing watcher: the configuration and
    the idle timer are renewed.  A reload that fails afterwards leaves this. *)
Definition reload_begin (now : Z) (cfg : IdlewatcherConfig) (w : Watcher) : Watcher :=
  resetIdleTimer now
    {| w_cfg := reload_config (w_cfg w) cfg; w_provider := w_provider w; w_state := w_state w;
       w_lastReset := w_lastReset w; w_idle := w_idle w; w_health := w_health w; w_notify := w_notify w;
       w_subs := w_subs w; w_history := w_history w; w_calls := w_calls w; w_done := w_done w |}.

(** [NewWatcher] on an existing watcher; then the state is read from the
    container. *)
Definition NewWatcher_reload (now : Z) (cfg : IdlewatcherConfig) (status : ContainerStatus) (w : Watcher) : Watcher :=
  set_state (reload_begin now cfg w)
    {| cs_status := status; cs_ready := false; cs_err := None; cs_startedAt := None; cs_healthTries := 0 |}.

(** ** Everything that happens to a watcher

    Besides its loop, requests and streams: it is woken and stopped by watchers
    that depend on it ([wakeDependencies], [stopDependencies]), and reloaded;
    the status is [None] when a reload fails before the container was asked. *)

Inductive input :=
  | Loop (i : loop_input)
  | Request (r : wake_request) (env : wake_env)
  | Connect (env : wake_env) (started : bool)
  | Token
  | Read
  | DependentWake (env : wake_env)
  | DependentStop (outcome deps : option idle_err)
  | Reload (cfg : IdlewatcherConfig) (status : option ContainerStatus).

Definition step (now : Z) (i : input) (w : Watcher) : Watcher :=
  match i with
  | Loop i => loop_step now i w
  | Request r env => (wakeFromHTTP now r env w).1
  | Connect env started => (wakeFromStream now env started w).1
  | Token => (waitForReady now w).1
  | Read => onRead now w
  | DependentWake env => (Wake now (wk_events env) (wk_deps env) (wk_outcome env) w).1
  | DependentStop outcome deps => (stopByMethod now outcome deps w).1
  | Reload cfg (Some status) => NewWatcher_reload now cfg status w
  | Reload cfg None => reload_begin now cfg w
  end.

(** A ticker ticks when its time has come, a token must be there, after the
    end of the loop only other goroutines act, and a provider that answers
    without an error does not answer the error status. *)
Definition enabled (now : Z) (i : input) (w : Watcher) : Prop :=
  match i with
  | Loop i =>
      w_done w = None /\
      match i with
      | IdleTick _ _ => exists d, w_idle w = Some d /\ d <= now
      | HealthTick _ _ => w_health w = true
      | _ => True
      end
  | Token => w_notify w = true
  | Reload _ status => status <> Some ContainerStatusError
  | _ => True
  end.

(** ** Construction *)

(** [NewWatcher] when no watcher has the key, with the container in [status]. *)
Definition NewWatcher_fresh (now : Z) (cfg : IdlewatcherConfig) (status : ContainerStatus) : Watcher :=
  {| w_cfg := cfg; w_provider := true;
     w_state := {| cs_status := status; cs_ready := false; cs_err := None; cs_startedAt := None; cs_healthTries := 0 |};
     w_lastReset := None; w_idle := Some (now + iw_IdleTimeout cfg); w_health := true; w_notify := false;
     w_subs := ∅; w_history := []; w_calls := []; w_done := None |}.

(** ** Facts about single operations *)

(** What sending events and recording calls leaves alone. *)
Definition same_core (w w' : Watcher) : Prop :=
  w_cfg w' = w_cfg w /\ w_provider w' = w_provider w /\ w_state w' = w_state w /\ w_lastReset w' = w_lastReset w
  /\ w_idle w' = w_idle w /\ w_health w' = w_health w /\ w_notify w' = w_notify w /\ w_done w' = w_done w.

Lemma same_core_trans w1 w2 w3 : same_core w1 w2 -> same_core w2 w3 -> same_core w1 w3.
Proof. unfold same_core. intuition congruence. Qed.

Lemma same_core_name w w' : same_core w w' -> container_name w' = container_name w.
Proof. intros (Hc & _). unfold container_name. by rewrite Hc. Qed.

Lemma sendEvent_core now t m e w : same_core w (sendEvent now t m e w).
Proof. unfold same_core. by split_and!. Qed.

Lemma sendEvent_calls now t m e w : w_calls (sendEvent now t m e w) = w_calls w.
Proof. done. Qed.

Lemma dep_events_core now evs w :
  same_core w (fold_left (fun w ev => sendEvent now ev.1 ev.2 None w) evs w)
  /\ w_calls (fold_left (fun w ev => sendEvent now ev.1 ev.2 None w) evs w) = w_calls w.
Proof.
  revert w; induction evs as [|ev evs IH]; intros w; cbn [fold_left]; [by unfold same_core; split_and!|].
  destruct (IH (sendEvent now ev.1 ev.2 None w)) as [H1 H2]. rewrite H2.
  split; [|done]. eapply same_core_trans; [apply sendEvent_core|done].
Qed.

(** The call [Wake] makes in a state, if it gets to its own container. *)
Definition wake_call (s : containerState) : list provider_call :=
  match cs_startedAt s, cs_status s with
  | None, ContainerStatusStopped => [CallStart]
  | None, ContainerStatusPaused => [CallUnpause]
  | _, _ => []
  end.

Lemma wakeIfStopped_spec now outcome w :
  wakeInProgress w = false -> w_provider w = true ->
  same_core w (wakeIfStopped now outcome w).1
  /\ w_calls (wakeIfStopped now outcome w).1 = w_calls w ++ map (pair now) (wake_call (w_state w)).
Proof.
  unfold wakeIfStopped, wake_call, wakeInProgress. intros Hp Hw. rewrite Hw.
  destruct (cs_startedAt (w_state w)); [done|].
  destruct (cs_status (w_state w)); cbn; unfold same_core; cbn; split_and!; try done; by rewrite app_nil_r.
Qed.

Lemma Wake_spec now evs deps outcome w :
  w_provider w = true ->
  same_core w (Wake now evs deps outcome w).1
  /\ w_calls (Wake now evs deps outcome w).1
     = w_calls w ++ map (pair now) (match deps with None => wake_call (w_state w) | Some _ => [] end).
Proof.
  intros Hp. unfold Wake. destruct (dep_events_core now evs w) as [Hc Hl].
  set (w1 := fold_left _ evs w) in *. pose proof Hc as (_ & Hpr & Hs & _).
  destruct deps as [e|].
  { cbn [fst]. rewrite sendEvent_calls, Hl, app_nil_r. split; [|done].
    eapply same_core_trans; [exact Hc|apply sendEvent_core]. }
  destruct (wakeInProgress w1) eqn:Ew.
  { cbn [fst]. split; [done|]. rewrite Hl. unfold wakeInProgress in Ew. rewrite Hs in Ew. unfold wake_call.
    destruct (cs_startedAt (w_state w)); [|done]. by rewrite app_nil_r. }
  destruct (wakeIfStopped_spec now outcome w1 Ew) as [H1 H2]; [congruence|].
  destruct (wakeIfStopped now outcome w1) as [w2 [e|]]; cbn [fst] in *; rewrite !sendEvent_calls, H2, Hl, Hs; (split; [|done]).
  - eapply same_core_trans; [exact Hc|]. eapply same_core_trans; [exact H1|apply sendEvent_core].
  - eapply same_core_trans; [exact Hc|]. eapply same_core_trans; [exact H1|].
    eapply same_core_trans; apply sendEvent_core.
Qed.

(** A stopped watcher keeps its core; what it calls is its stop method. *)
Lemma stopByMethod_spec now outcome deps w :
  running w = true -> w_provider w = true ->
  same_core w (stopByMethod now outcome deps w).1
  /\ w_calls (stopByMethod now outcome deps w).1
     = w_calls w ++ map (pair now) (match stop_call (w_cfg w) with Some c => [c] | None => [] end).
Proof.
  unfold stopByMethod. intros Hr Hp. rewrite Hr, Hp. cbn [negb].
  destruct (stop_call (w_cfg w)) as [c|].
  - destruct outcome; cbn [fst]; unfold same_core; cbn; by split_and!.
  - destruct (newWatcherError w (ErrStopMethod (iw_StopMethod (w_cfg w)))); cbn [fst];
      unfold same_core; split_and!; try done; by rewrite app_nil_r.
Qed.

(** Whoever stops it: a container that runs is asked to stop, another is left
    alone. *)
Lemma stopByMethod_any now outcome deps w :
  w_provider w = true ->
  same_core w (stopByMethod now outcome deps w).1
  /\ w_calls (stopByMethod now outcome deps w).1
     = w_calls w ++ map (pair now) (if running w then match stop_call (w_cfg w) with Some c => [c] | None => [] end else []).
Proof.
  intros Hp. destruct (running w) eqn:Er; [by apply stopByMethod_spec|].
  unfold stopByMethod. rewrite Er. cbn. rewrite app_nil_r. split; [|done]. unfold same_core. by split_and!.
Qed.

Lemma checkUpdateState_cases now host_empty check w :
  (checkUpdateState now host_empty check w = (w, false, None) /\ host_empty = true)
  \/ (exists e, checkUpdateState now host_empty check w = (setError now e w, false, Some e))
  \/ checkUpdateState now host_empty check w = (setReady now w, true, None)
  \/ checkUpdateState now host_empty check w = (count_health_try w, false, None).
Proof.
  unfold checkUpdateState. destruct host_empty; [by left|right].
  destruct (startup_timeout now w) as [e|]; [left; by exists e|].
  destruct check as [res|e]; [|left; by exists (ErrText e)].
  destruct (Healthy res); auto.
Qed.

(** ** Runs *)

Section runs.
Variable cfg : IdlewatcherConfig.
Variables (t0 : Z) (status0 : ContainerStatus).

(** What happened since the watcher was made, and the time of the last step. *)
Inductive reaches : list (Z * input) -> Z -> Watcher -> Prop :=
  | reaches_new : status0 <> ContainerStatusError -> reaches [] t0 (NewWatcher_fresh t0 cfg status0)
  | reaches_step l t w t' i :
      reaches l t w -> t <= t' -> enabled t' i w -> reaches (l ++ [(t', i)]) t' (step t' i w).

(** Use of the container, which puts off its sleep; so does a reload. *)
Definition traffic (i : input) : bool :=
  match i with
  | Request _ _ | Connect _ _ | Read | Reload _ _ => true
  | Loop (ContainerEvent a) => negb ((a =? ActionContainerDestroy) || (a =? ActionForceReload))
  | _ => false
  end.

Definition all_before (l : list (Z * input)) (t : Z) : Prop :=
  forall t' i, (t', i) ∈ l -> traffic i = true -> t' <= t.

(** The state of a watcher. *)
Definition state_wf (w : Watcher) : Prop :=
  let s := w_state w in
  w_provider w = true
  /\ (cs_ready s = true -> cs_status s = ContainerStatusRunning /\ w_health w = false)
  /\ (is_Some (cs_err s) <-> cs_status s = ContainerStatusError)
  /\ (is_Some (cs_startedAt s) -> cs_status s = ContainerStatusRunning /\ cs_ready s = false)
  /\ (cs_status s = ContainerStatusError -> w_health w = false).

(** The idle timer: it is armed by the last use; when a container runs without
    it, its stop was requested since. *)
Definition idle_wf (l : list (Z * input)) (t : Z) (w : Watcher) : Prop :=
  all_before l t
  /\ (forall d, w_idle w = Some d -> all_before l (d - iw_IdleTimeout (w_cfg w)))
  /\ (is_Some (stop_call (w_cfg w)) -> w_done w = None -> running w = true -> w_idle w = None ->
      exists tc c, (tc, c) ∈ w_calls w /\ is_stop_call c = true /\ all_before l tc).

Lemma all_before_snoc l t i t1 :
  all_before l t1 -> (traffic i = true -> t <= t1) -> all_before (l ++ [(t, i)]) t1.
Proof.
  intros H Hi t' j Hin Ht. apply elem_of_app in Hin as [Hin|Hin]; [by apply (H t' j)|].
  apply list_elem_of_singleton in Hin. injection Hin as -> ->. auto.
Qed.

Lemma all_before_mono l t t1 : all_before l t -> t <= t1 -> all_before l t1.
Proof. intros H Hle t' j Hin Ht. specialize (H t' j Hin Ht). lia. Qed.

Lemma stop_call_is_stop (cfg' : IdlewatcherConfig) c : stop_call cfg' = Some c -> is_stop_call c = true.
Proof. unfold stop_call. repeat case_bool_decide; intros [= <-]; done. Qed.

(** Steps that leave the state alone, reset the timer or not. *)
Lemma state_wf_core w w' : state_wf w -> same_core w w' -> state_wf w'.
Proof.
  unfold state_wf. intros H (H1 & H2 & H3 & H4 & H5 & H6 & H7 & H8). rewrite H2, H3, H6. done.
Qed.

Lemma state_wf_reset now w : state_wf w -> state_wf (resetIdleTimer now w).
Proof. done. Qed.

Lemma state_wf_notify b w : state_wf w -> state_wf (set_notify_ch w b).
Proof. done. Qed.

(** The handlers of requests reset the timer; they call nothing but a wake. *)
Definition handled (now : Z) (w w' : Watcher) : Prop :=
  same_core (resetIdleTimer now w) w'
  /\ exists cs, w_calls w' = w_calls w ++ map (pair now) cs /\ Forall (fun c => is_stop_call c = false) cs.

Lemma wake_call_not_stop s : Forall (fun c => is_stop_call c = false) (wake_call s).
Proof. unfold wake_call. destruct (cs_startedAt s), (cs_status s); repeat constructor. Qed.

Lemma Wake_handled now evs deps outcome w :
  w_provider w = true -> handled now w (Wake now evs deps outcome (resetIdleTimer now w)).1.
Proof.
  intros Hp. destruct (Wake_spec now evs deps outcome (resetIdleTimer now w) Hp) as [H1 H2].
  split; [done|]. eexists. split; [exact H2|]. destruct deps; [constructor|apply wake_call_not_stop].
Qed.

Lemma reset_handled now w : handled now w (resetIdleTimer now w).
Proof.
  split; [unfold same_core; by split_and!|]. exists []. split; [|constructor]. cbn. by rewrite app_nil_r.
Qed.

Lemma wakeFromHTTP_handled now r env w : w_provider w = true -> handled now w (wakeFromHTTP now r env w).1.
Proof.
  intros Hp. unfold wakeFromHTTP. destruct (static_reply (rq_Path r)); [apply reset_handled|].
  destruct (ready (resetIdleTimer now w)); [apply reset_handled|]. case_match; [apply reset_handled|].
  pose proof (Wake_handled now (wk_events env) (wk_deps env) (wk_outcome env) w Hp) as Hw.
  destruct (Wake _ _ _ _ _) as [w' err]. by destruct (negb (acceptHTML r)).
Qed.

Lemma wakeFromStream_handled now env started w : w_provider w = true -> handled now w (wakeFromStream now env started w).1.
Proof.
  intros Hp. unfold wakeFromStream. destruct (ready (resetIdleTimer now w)); [apply reset_handled|].
  pose proof (Wake_handled now (wk_events env) (wk_deps env) (wk_outcome env) w Hp) as [Hw Hc].
  destruct (Wake _ _ _ _ _) as [w' [e|]]; [by split|]. destruct (negb started); [by split|].
  destruct (ready w'); [|by split]. cbn [fst]. split; [|exact Hc].
  destruct Hw as (H1 & H2 & H3 & H4 & H5 & H6 & H7 & H8). cbn [fst] in *. unfold same_core; cbn. rewrite H1. by split_and!.
Qed.

Lemma on_container_event_wf now a w : state_wf w -> state_wf (on_container_event now a w).
Proof.
  intros (H2 & H3 & H4 & H5 & H6). unfold on_container_event.
  destruct (a =? ActionContainerDestroy).
  { unfold state_wf; cbn. split_and!; try done. intros ?; by destruct H3. }
  destruct (a =? ActionForceReload); [done|].
  destruct (IsContainerStart a); [|destruct (IsContainerStop a); [|destruct (IsContainerPause a); [|done]]];
    unfold state_wf; cbn; split_and!; try done; try (split; [by intros [? ?]|done]); by intros [? ?].
Qed.

Lemma on_health_tick_wf now h c w : state_wf w -> state_wf (on_health_tick now h c w).
Proof.
  intros Hw. unfold on_health_tick. destruct (running w && negb (ready w)) eqn:E; [|done]. reflect.
  unfold running in H. apply bool_decide_eq_true in H. unfold ready in H0.
  destruct (checkUpdateState_cases now h c w) as [[Hck _]|[[e Hck]|[Hck|Hck]]]; rewrite Hck; [done|..];
    destruct Hw as (H2 & H3 & H4 & H5 & H6); unfold state_wf; cbn; split_and!; try done;
    try (split; [by intros [? ?]|done]); try (by intros [? ?]); auto.
Qed.

Lemma on_idle_tick_core now o d w :
  w_provider w = true -> same_core (stop_idle w) (on_idle_tick now o d w).
Proof.
  intros Hp. unfold on_idle_tick. destruct (running (stop_idle w)) eqn:E; [by apply stopByMethod_spec|].
  unfold same_core; by split_and!.
Qed.

(** The steps of other watchers that depend on this one keep the core. *)
Lemma dependent_core now i w :
  w_provider w = true -> (exists env, i = DependentWake env) \/ (exists o d, i = DependentStop o d) ->
  same_core w (step now i w).
Proof. intros Hp [(env & ->)|(o & d & ->)]; [by apply Wake_spec|by apply stopByMethod_any]. Qed.

Lemma step_wf now i w : state_wf w -> enabled now i w -> state_wf (step now i w).
Proof.
  intros Hw He. pose proof Hw as (Hp & _). destruct i as [i|r env|env started| | |env|o d|cfg' [st|]]; cbn [step].
  - destruct i as [cause| |a|h c|o d]; cbn [loop_step].
    + destruct Hw as (H2 & H3 & H4 & H5 & H6). unfold state_wf; cbn. split_and!; try done.
      intros ?; by destruct H3.
    + done.
    + by apply on_container_event_wf.
    + by apply on_health_tick_wf.
    + apply (state_wf_core (stop_idle w)); [done|]. by apply on_idle_tick_core.
  - apply (state_wf_core (resetIdleTimer now w)); [done|]. by apply wakeFromHTTP_handled.
  - apply (state_wf_core (resetIdleTimer now w)); [done|]. by apply wakeFromStream_handled.
  - unfold waitForReady. by destruct (ready (set_notify_ch w false)).
  - done.
  - apply (state_wf_core w); [done|]. apply (dependent_core now (DependentWake env)); eauto.
  - apply (state_wf_core w); [done|]. apply (dependent_core now (DependentStop o d)); eauto.
  - unfold state_wf; cbn. cbn in He.
    split_and!; try done; try (by intros [? ?]); [|intros ->; done]. split; [by intros [? ?]|intros ->; done].
  - done.
Qed.

Lemma reaches_wf l t w : reaches l t w -> state_wf w.
Proof.
  induction 1; [|by apply step_wf]. unfold state_wf; cbn. split_and!; try done; (split; [by intros [? ?]|done]) || by intros [? ?].
Qed.

Lemma idle_wf_reset l t w t' i :
  all_before l t -> t <= t' -> w_idle w = Some (t' + iw_IdleTimeout (w_cfg w)) -> idle_wf (l ++ [(t', i)]) t' w.
Proof.
  intros Hb Hle Hi. assert (all_before (l ++ [(t', i)]) t') as Hb'
    by (apply all_before_snoc; [by apply (all_before_mono l t)|lia]).
  split; [done|]. rewrite Hi. split; [|done]. intros d [= <-].
  by replace (t' + iw_IdleTimeout (w_cfg w) - iw_IdleTimeout (w_cfg w)) with t' by lia.
Qed.

Lemma idle_wf_same l t w t' i w' cs :
  idle_wf l t w -> t <= t' -> traffic i = false -> w_cfg w' = w_cfg w -> w_idle w' = w_idle w ->
  w_calls w' = w_calls w ++ cs -> (w_done w' = None -> w_done w = None) ->
  (running w' = true -> running w = true) -> idle_wf (l ++ [(t', i)]) t' w'.
Proof.
  intros (Hb & Hd & Hs) Hle Ht Hcfg Hi Hc Hdone Hr. unfold idle_wf. rewrite Hcfg. split; [|split].
  - apply all_before_snoc; [by apply (all_before_mono l t)|congruence].
  - intros d Hd'. rewrite Hi in Hd'. apply all_before_snoc; [by apply Hd|congruence].
  - intros Hm H1 H2 H3. rewrite Hi in H3. destruct (Hs Hm (Hdone H1) (Hr H2) H3) as (tc & c & Hin & Hst & Hbc).
    exists tc, c. rewrite Hc. split; [apply elem_of_app; by left|]. split; [done|].
    apply all_before_snoc; [done|congruence].
Qed.

(** A step that calls nothing and leaves the timer alone. *)
Lemma idle_wf_quiet l t w t' i w' :
  idle_wf l t w -> t <= t' -> traffic i = false -> w_cfg w' = w_cfg w -> w_idle w' = w_idle w -> w_calls w' = w_calls w ->
  (w_done w' = None -> w_done w = None) -> (running w' = true -> running w = true) -> idle_wf (l ++ [(t', i)]) t' w'.
Proof. intros. eapply (idle_wf_same l t w _ _ _ []); eauto. by rewrite app_nil_r. Qed.

(** A step that keeps the core. *)
Lemma idle_wf_core l t w t' i w' cs :
  idle_wf l t w -> t <= t' -> traffic i = false -> same_core w w' -> w_calls w' = w_calls w ++ cs ->
  idle_wf (l ++ [(t', i)]) t' w'.
Proof.
  intros Hi Hle Ht (H1 & _ & H2 & _ & H3 & _ & _ & H4) Hc. apply (idle_wf_same l t w _ _ _ cs); auto; [congruence|].
  unfold running. by rewrite H2.
Qed.

Lemma idle_wf_handled l t w t' i w' :
  idle_wf l t w -> t <= t' -> handled t' w w' -> idle_wf (l ++ [(t', i)]) t' w'.
Proof.
  intros (Hb & _) Hle [(Hc & _ & _ & _ & Hi & _) _]. apply (idle_wf_reset l t); [done|done|].
  by rewrite Hi, Hc.
Qed.

Lemma idle_wf_event l t w t' a :
  idle_wf l t w -> t <= t' ->
  idle_wf (l ++ [(t', Loop (ContainerEvent a))]) t' (on_container_event t' a w).
Proof.
  intros Hi Hle. pose proof Hi as (Hb & _).
  assert (all_before (l ++ [(t', Loop (ContainerEvent a))]) t') as Hb'
    by (apply all_before_snoc; [by apply (all_before_mono l t)|lia]).
  unfold on_container_event. destruct (a =? ActionContainerDestroy) eqn:Ed; [split; [done|split; done]|].
  destruct (a =? ActionForceReload) eqn:Ef.
  { apply (idle_wf_quiet l t w); auto. cbn. by rewrite Ef, orb_true_r. }
  destruct (IsContainerStart a); [by apply (idle_wf_reset l t)|].
  destruct (IsContainerStop a); [split; [done|split; done]|].
  destruct (IsContainerPause a); [split; [done|split; done]|].
  by apply (idle_wf_reset l t).
Qed.

Lemma idle_wf_health l t w t' h c :
  idle_wf l t w -> t <= t' ->
  idle_wf (l ++ [(t', Loop (HealthTick h c))]) t' (on_health_tick t' h c w).
Proof.
  intros Hi Hle. unfold on_health_tick.
  destruct (running w && negb (ready w)) eqn:E; [|by apply (idle_wf_quiet l t w)]. reflect.
  destruct (checkUpdateState_cases t' h c w) as [[Hck _]|[[e Hck]|[Hck|Hck]]]; rewrite Hck;
    try by apply (idle_wf_quiet l t w).
  apply (idle_wf_reset l t); [by destruct Hi|done|done].
Qed.

Lemma idle_wf_tick l t w t' o d :
  state_wf w -> idle_wf l t w -> t <= t' ->
  idle_wf (l ++ [(t', Loop (IdleTick o d))]) t' (on_idle_tick t' o d w).
Proof.
  intros (Hp & _) (Hb & _) Hle.
  assert (all_before (l ++ [(t', Loop (IdleTick o d))]) t') as Hb'
    by (apply all_before_snoc; [by apply (all_before_mono l t)|lia]).
  destruct (on_idle_tick_core t' o d w Hp) as (Hcfg & _ & Hst & _ & Hi & _).
  split; [done|]. split; [rewrite Hi; done|]. rewrite Hcfg. intros [c Hc] _ Hr _.
  unfold running in Hr. rewrite Hst in Hr.
  unfold on_idle_tick. change (running (stop_idle w) = true) in Hr. rewrite Hr.
  destruct (stopByMethod_spec t' o d (stop_idle w) Hr Hp) as [_ ->]. rewrite Hc. exists t', c.
  split; [apply elem_of_app; right; by apply list_elem_of_singleton|].
  split; [by eapply stop_call_is_stop|done].
Qed.

Lemma reaches_idle l t w : reaches l t w -> idle_wf l t w.
Proof.
  induction 1 as [Hs|l t w t' i Hr IH Hle He].
  { split; [by intros ? ? ?%elem_of_nil|]. split; [by intros d _ ? ? ?%elem_of_nil|done]. }
  pose proof (reaches_wf _ _ _ Hr) as Hw. pose proof Hw as (Hp & _).
  destruct i as [i|r env|env started| | |env|o d|cfg' [st|]]; cbn [step].
  - destruct i as [cause| |a|h c|o d]; cbn [loop_step].
    + destruct IH as (Hb & _). split; [|done]. apply all_before_snoc; [by apply (all_before_mono l t)|done].
    + by apply (idle_wf_quiet l t w).
    + by apply (idle_wf_event l t).
    + by apply (idle_wf_health l t).
    + by apply (idle_wf_tick l t).
  - apply (idle_wf_handled l t w); [done..|]. by apply wakeFromHTTP_handled.
  - apply (idle_wf_handled l t w); [done..|]. by apply wakeFromStream_handled.
  - unfold waitForReady. destruct (ready (set_notify_ch w false)); [|by apply (idle_wf_quiet l t w)].
    apply (idle_wf_reset l t); [by destruct IH|done|done].
  - apply (idle_wf_handled l t w); [done..|]. apply reset_handled.
  - eapply (idle_wf_core l t w); try done; by apply Wake_spec.
  - eapply (idle_wf_core l t w); try done; by apply stopByMethod_any.
  - apply (idle_wf_reset l t); [by destruct IH|done|done].
  - apply (idle_wf_reset l t); [by destruct IH|done|done].
Qed.

(** A step that stops: an idle tick, or the stop by a dependent. *)
Definition is_stopping (i : input) : bool :=
  match i with Loop (IdleTick _ _) | DependentStop _ _ => true | _ => false end.

(** The calls of a step: a stop call is the configured one, of a container
    that runs. *)
Lemma step_calls now i w :
  state_wf w ->
  exists cs, w_calls (step now i w) = w_calls w ++ map (pair now) cs
    /\ forall c, c ∈ cs -> is_stop_call c = true ->
         running w = true /\ stop_call (w_cfg w) = Some c /\ is_stopping i = true.
Proof.
  intros (Hp & _). set (ok c := running w = true /\ stop_call (w_cfg w) = Some c /\ is_stopping i = true).
  assert (forall w' cs, w_calls w' = w_calls w ++ map (pair now) cs -> Forall (fun c => is_stop_call c = false) cs ->
    exists cs, w_calls w' = w_calls w ++ map (pair now) cs /\ forall c, c ∈ cs -> is_stop_call c = true -> ok c) as Hno.
  { intros w' cs Hcs Hns. exists cs. split; [done|]. rewrite Forall_forall in Hns. intros c Hc. by rewrite (Hns c Hc). }
  assert (forall w', handled now w w' -> exists cs, w_calls w' = w_calls w ++ map (pair now) cs
    /\ forall c, c ∈ cs -> is_stop_call c = true -> ok c) as Hh.
  { intros w' [_ (cs & Hcs & Hns)]. eauto. }
  assert (forall w', w_calls w' = w_calls w -> exists cs, w_calls w' = w_calls w ++ map (pair now) cs
    /\ forall c, c ∈ cs -> is_stop_call c = true -> ok c) as Hn.
  { intros w' Hw'. apply (Hno w' []); [by rewrite app_nil_r|constructor]. }
  assert (forall w0 o d, is_stopping i = true -> running w0 = running w -> w_cfg w0 = w_cfg w -> w_provider w0 = true ->
    w_calls w0 = w_calls w ->
    exists cs, w_calls (stopByMethod now o d w0).1 = w_calls w ++ map (pair now) cs
    /\ forall c, c ∈ cs -> is_stop_call c = true -> ok c) as Hstop.
  { intros w0 o d Hi Hr Hcfg Hp0 Hc0. destruct (stopByMethod_any now o d w0 Hp0) as [_ Hcs].
    rewrite Hc0, Hr, Hcfg in Hcs. eexists. split; [exact Hcs|]. intros c Hc _.
    destruct (running w) eqn:Er; [|by apply elem_of_nil in Hc].
    destruct (stop_call (w_cfg w)) as [c'|] eqn:Ec; [|by apply elem_of_nil in Hc].
    apply list_elem_of_singleton in Hc as ->. by split_and!. }
  destruct i as [i|r env|env started| | |env|o d|cfg' [st|]]; cbn [step].
  - destruct i as [cause| |a|h c|o d]; cbn [loop_step]; [by apply Hn|by apply Hn|..].
    + apply Hn. unfold on_container_event. by repeat case_match.
    + apply Hn. unfold on_health_tick. case_match; [|done].
      by destruct (checkUpdateState_cases now h c w) as [[Hck _]|[[e Hck]|[Hck|Hck]]]; rewrite Hck.
    + unfold on_idle_tick. destruct (running (stop_idle w)); [by apply Hstop|by apply Hn].
  - apply Hh. by apply wakeFromHTTP_handled.
  - apply Hh. by apply wakeFromStream_handled.
  - apply Hn. unfold waitForReady. by destruct (ready (set_notify_ch w false)).
  - apply Hn. done.
  - destruct (Wake_spec now (wk_events env) (wk_deps env) (wk_outcome env) w Hp) as [_ Hc].
    eapply Hno; [exact Hc|]. destruct (wk_deps env); [constructor|apply wake_call_not_stop].
  - by apply Hstop.
  - by apply Hn.
  - by apply Hn.
Qed.

(** A watcher that is not ready and does not check health waits for an event of
    its container, or a reload. *)
Definition stuck (w : Watcher) : Prop :=
  ready w = false /\ w_health w = false
  /\ (cs_status (w_state w) = ContainerStatusRunning \/ cs_status (w_state w) = ContainerStatusError).

Definition is_container_event (i : input) : bool :=
  match i with Loop (ContainerEvent _) | Reload _ _ => true | _ => false end.

Lemma same_core_stuck w w' : same_core w w' -> stuck w -> stuck w'.
Proof. intros (_ & _ & Hs & _ & _ & Hh & _). unfold stuck, ready. by rewrite Hs, Hh. Qed.

Lemma stuck_step now i w :
  w_provider w = true -> stuck w -> enabled now i w -> is_container_event i = false ->
  stuck (step now i w) /\ w_provider (step now i w) = true /\ cs_status (w_state (step now i w)) = cs_status (w_state w).
Proof.
  intros Hp Hs He Hi. pose proof Hs as (Hr & Hh & Hst).
  assert (forall w', same_core w w' \/ handled now w w' \/ same_core (stop_idle w) w' ->
    stuck w' /\ w_provider w' = true /\ cs_status (w_state w') = cs_status (w_state w)) as Hcore.
  { intros w' [Hc|[[Hc _]|Hc]]; pose proof Hc as (_ & Hp' & Hs' & _);
      (split; [by apply (same_core_stuck _ _ Hc)|]); rewrite Hp', Hs'; done. }
  destruct i as [i|r env|env started| | |env|o d|cfg' st]; cbn [step].
  - destruct i as [cause| |a|h c|o d]; cbn [loop_step]; try done.
    + destruct He as [_ Ht]. congruence.
    + apply Hcore. right. right. by apply on_idle_tick_core.
  - apply Hcore. right. left. by apply wakeFromHTTP_handled.
  - apply Hcore. right. left. by apply wakeFromStream_handled.
  - unfold waitForReady. by destruct (ready (set_notify_ch w false)).
  - done.
  - apply Hcore. left. by apply Wake_spec.
  - apply Hcore. left. by apply stopByMethod_any.
  - done.
Qed.

End runs.

(** ** Theorems *)

Section theorems.
Variable cfg : IdlewatcherConfig.
Variables (t0 : Z) (status0 : ContainerStatus).
Abbreviation reaches := (reaches cfg t0 status0).

(** A stop call is the configured one, is made while the container runs, by an
    idle tick or for a watcher that depends on it; before an idle tick nothing
    has used the container for the idle timeout. *)
Lemma stop_call_origin l t w t' i cs c :
  reaches l t w -> t <= t' -> enabled t' i w ->
  w_calls (step t' i w) = w_calls w ++ cs -> c ∈ cs -> is_stop_call c.2 = true ->
  c.1 = t' /\ running w = true /\ stop_call (w_cfg w) = Some c.2 /\ is_stopping i = true
  /\ ((exists o d, i = Loop (IdleTick o d)) ->
      forall t'' j, (t'', j) ∈ l -> traffic j = true -> t'' + iw_IdleTimeout (w_cfg w) <= t').
Proof.
  intros Hr Hle He Hcs Hc Hst. destruct (step_calls t' i w (reaches_wf _ _ _ _ _ _ Hr)) as (cs' & Hcs' & Hall).
  rewrite Hcs in Hcs'. apply app_inv_head in Hcs' as ->.
  apply list_elem_of_fmap in Hc as (c' & -> & Hc'). cbn [fst snd] in *.
  destruct (Hall c' Hc' Hst) as (Hrun & Hcall & Hi). do 4 (split; [done|]). intros (o & d & ->).
  destruct He as [_ (dl & Hdl & Hnow)]. destruct (reaches_idle _ _ _ _ _ _ Hr) as (_ & Hd & _).
  intros t'' j Hin Ht. specialize (Hd dl Hdl t'' j Hin Ht). lia.
Qed.

(** C13: A container that runs is put to sleep: unless a stop was requested
    since its last use, the idle timer is armed, and its tick makes the
    configured stop call.  The configuration is the one in force: a reload may
    have replaced the first. *)
Theorem idle_container_sleeps l t w :
  is_Some (stop_call (w_cfg w)) -> reaches l t w -> w_done w = None -> running w = true ->
  (exists tc c, (tc, c) ∈ w_calls w /\ is_stop_call c = true /\ all_before l tc)
  \/ exists d, w_idle w = Some d
       /\ forall t' o deps, d <= t' ->
            enabled t' (Loop (IdleTick o deps)) w
            /\ exists c, stop_call (w_cfg w) = Some c
                 /\ w_calls (step t' (Loop (IdleTick o deps)) w) = w_calls w ++ [(t', c)].
Proof.
  intros Hm Hr Hdone Hrun. destruct (reaches_idle _ _ _ _ _ _ Hr) as (_ & _ & Hs).
  destruct (reaches_wf _ _ _ _ _ _ Hr) as (Hp & _).
  destruct (w_idle w) as [d|] eqn:Ed; [|left; by apply Hs]. right. exists d. split; [done|].
  intros t' o deps Hle. split; [split; [done|]; by exists d|]. destruct Hm as [c Hc]. exists c. split; [done|].
  cbn [step loop_step]. unfold on_idle_tick. change (running (stop_idle w)) with (running w). rewrite Hrun.
  destruct (stopByMethod_spec t' o deps (stop_idle w) Hrun Hp) as [_ ->].
  cbn [w_cfg stop_idle set_timers]. by rewrite Hc.
Qed.

(** Steps without an event of the container and without a reload. *)
Inductive quiet (w : Watcher) : Watcher -> Prop :=
  | quiet_refl : quiet w w
  | quiet_step w' t i : quiet w w' -> enabled t i w' -> is_container_event i = false -> quiet w (step t i w').

Lemma quiet_stuck w w' :
  quiet w w' -> w_provider w = true -> stuck w ->
  stuck w' /\ w_provider w' = true /\ cs_status (w_state w') = cs_status (w_state w).
Proof.
  intros Hq Hp Hs. induction Hq as [|w' t i Hq IH He Hi]; [done|].
  destruct IH as (Hs' & Hp' & Hst). destruct (stuck_step t i w' Hp' Hs' He Hi) as (H1 & H2 & H3).
  split; [done|]. split; [done|]. congruence.
Qed.

Lemma forwarded_only_ready now r env canceled w e :
  (Watcher_ServeHTTP now r env canceled w).2 = Forwarded e -> ready w = true.
Proof.
  unfold Watcher_ServeHTTP, wakeFromHTTP.
  destruct (static_reply (rq_Path r)) as [reply|] eqn:Es.
  { unfold static_reply in Es. repeat case_bool_decide; simplify_eq; done. }
  change (ready (resetIdleTimer now w)) with (ready w). destruct (ready w); [done|].
  match goal with |- context [if ?b && ?c then _ else _] => destruct (b && c) end; [done|].
  destruct (Wake _ _ _ _ _) as [w' err]. by destruct (negb (acceptHTML r)), err.
Qed.

(** When a watcher is reloaded while its container runs and is ready, it
    forgets the readiness and nothing checks it again: no request is forwarded
    until the container itself is started, stopped or paused. *)
Theorem reload_loses_ready l t w now cfg' w' t' r env canceled e :
  reaches l t w -> ready w = true ->
  quiet (NewWatcher_reload now cfg' ContainerStatusRunning w) w' ->
  running (NewWatcher_reload now cfg' ContainerStatusRunning w) = true
  /\ (Watcher_ServeHTTP t' r env canceled w').2 <> Forwarded e.
Proof.
  intros Hr Hready Hq. split; [done|]. destruct (reaches_wf _ _ _ _ _ _ Hr) as (Hp & Hh & _).
  destruct (Hh Hready) as [_ Hhealth]. destruct (quiet_stuck _ _ Hq) as ((Hn & _) & _); [done|by split; auto|].
  intros Hf. apply forwarded_only_ready in Hf. congruence.
Qed.

Lemma error_no_calls now i w :
  w_provider w = true -> cs_status (w_state w) = ContainerStatusError -> is_container_event i = false ->
  w_calls (step now i w) = w_calls w.
Proof.
  intros Hp He Hi.
  assert (forall s, cs_status s = ContainerStatusError -> wake_call s = []) as Hwc.
  { intros s Hs. unfold wake_call. rewrite Hs. by destruct (cs_startedAt s). }
  assert (forall evs deps o w1, w_provider w1 = true -> w_state w1 = w_state w ->
    w_calls (Wake now evs deps o w1).1 = w_calls w1) as Hwake.
  { intros evs deps o w1 Hp1 Hs1. destruct (Wake_spec now evs deps o w1 Hp1) as [_ ->].
    rewrite Hs1, (Hwc _ He). destruct deps; by rewrite app_nil_r. }
  assert (running w = false) as Hrun by (unfold running; by rewrite He).
  destruct i as [i|r env|env started| | |env|o d|cfg' st]; cbn [step].
  - destruct i as [cause| |a|h c|o d]; cbn [loop_step]; try done.
    + unfold on_health_tick. by rewrite Hrun.
    + unfold on_idle_tick. change (running (stop_idle w)) with (running w). by rewrite Hrun.
  - unfold wakeFromHTTP. destruct (static_reply (rq_Path r)); [done|].
    destruct (ready (resetIdleTimer now w)); [done|]. case_match; [done|].
    specialize (Hwake (wk_events env) (wk_deps env) (wk_outcome env) (resetIdleTimer now w) Hp eq_refl).
    destruct (Wake _ _ _ _ _) as [w' err]. by destruct (negb (acceptHTML r)).
  - unfold wakeFromStream. destruct (ready (resetIdleTimer now w)); [done|].
    specialize (Hwake (wk_events env) (wk_deps env) (wk_outcome env) (resetIdleTimer now w) Hp eq_refl).
    destruct (Wake _ _ _ _ _) as [w' [err|]]; [done|]. destruct (negb started); [done|]. by destruct (ready w').
  - unfold waitForReady. by destruct (ready (set_notify_ch w false)).
  - done.
  - by apply Hwake.
  - unfold stopByMethod. by rewrite Hrun.
  - done.
Qed.

(** One failed health check, or a start that takes too long, is final: the
    container keeps running but until its next event or a reload it is neither
    started nor stopped by anything that happens to the watcher, and no request reaches
    it. *)
Theorem health_error_final l t w t1 check e w' t' r env canceled ex :
  reaches l t w -> running w = true -> ready w = false ->
  checkUpdateState t1 false check w = (setError t1 e w, false, Some e) ->
  quiet (step t1 (Loop (HealthTick false check)) w) w' ->
  w_calls w' = w_calls w /\ Watcher_Status w' = StatusError
  /\ (Watcher_ServeHTTP t' r env canceled w').2 <> Forwarded ex.
Proof.
  intros Hr Hrun Hready Hck Hq. destruct (reaches_wf _ _ _ _ _ _ Hr) as (Hp & _).
  cbn [step loop_step] in Hq. unfold on_health_tick in Hq. rewrite Hrun, Hready, Hck in Hq. cbn [andb negb] in Hq.
  set (w1 := stop_health (setError t1 e w)) in Hq.
  assert (stuck w1) as Hs by (split_and!; auto).
  assert (w_calls w' = w_calls w /\ Watcher_Status w' = StatusError) as [Hc Hst].
  { induction Hq as [|w' t2 i Hq IH He Hi]; [done|]. destruct IH as [IH1 IH2].
    destruct (quiet_stuck _ _ Hq Hp Hs) as (Hs' & Hp' & Hst').
    split; [rewrite <- IH1; by apply error_no_calls|].
    assert (forall w2, cs_err (w_state w2) = cs_err (w_state w') -> Watcher_Status w2 = StatusError) as Herr.
    { intros w2 H2. unfold Watcher_Status in *. rewrite H2. destruct (cs_err (w_state w')); [done|].
      exfalso. destruct Hs' as (Hn & _). unfold ready in Hn. rewrite Hn in IH2. by case_bool_decide. }
    apply Herr. clear Herr.
    destruct i as [i|r' env'|env' started| | |env'|o d|cfg' st]; cbn [step].
    - destruct i as [cause| |a|h c|o d]; cbn [loop_step]; try done.
      + destruct He as [_ Ht]. destruct Hs' as (_ & Hh & _). congruence.
      + destruct (on_idle_tick_core t2 o d w' Hp') as (_ & _ & -> & _). done.
    - destruct (wakeFromHTTP_handled t2 r' env' w' Hp') as [(_ & _ & -> & _) _]. done.
    - destruct (wakeFromStream_handled t2 env' started w' Hp') as [(_ & _ & -> & _) _]. done.
    - unfold waitForReady. by destruct (ready (set_notify_ch w' false)).
    - done.
    - destruct (dependent_core t2 (DependentWake env') w' Hp' ltac:(eauto)) as (_ & _ & Hd & _).
      cbn [step] in Hd. by rewrite Hd.
    - destruct (dependent_core t2 (DependentStop o d) w' Hp' ltac:(eauto)) as (_ & _ & Hd & _).
      cbn [step] in Hd. by rewrite Hd.
    - done. }
  split; [done|]. split; [done|]. destruct (quiet_stuck _ _ Hq Hp Hs) as ((Hn & _) & _).
  intros Hf. apply forwarded_only_ready in Hf. congruence.
Qed.

End theorems.

(** ** Watchers together

    All watchers of the program, by the identity of the object, each with what
    happened to it.  [sy_pending] holds the goroutines of [stopDependencies]
    that have not run yet: the watcher to stop, and the watcher and the time of
    the idle tick they come from.  [deps now k] is what the watcher [k] depends
    on at a time. *)

Record system := {
  sy_watchers : gmap nat (list (Z * input) * Watcher);
  sy_pending : list (nat * (nat * Z))
}.

(** [stopByMethod] gets to [stopDependencies]. *)
Definition stop_reaches_deps (outcome : option idle_err) (w : Watcher) : bool :=
  if running w
  then w_provider w && match stop_call (w_cfg w), outcome with Some _, None => true | _, _ => false end
  else true.

Section together.
Variable deps : Z -> nat -> list nat.

(** The goroutines [stopDependencies] of the watcher [k] starts. *)
Definition stopDependencies (now : Z) (k : nat) (origin : nat * Z) : list (nat * (nat * Z)) :=
  map (fun k' => (k', origin)) (deps now k).

Inductive system_step (now : Z) : system -> system -> Prop :=
  | sys_new s k cfg status :
      sy_watchers s !! k = None -> status <> ContainerStatusError ->
      system_step now s
        {| sy_watchers := <[k := ([], NewWatcher_fresh now cfg status)]> (sy_watchers s);
           sy_pending := sy_pending s |}
  | sys_input s k l w i :
      sy_watchers s !! k = Some (l, w) -> is_stopping i = false -> enabled now i w ->
      system_step now s
        {| sy_watchers := <[k := (l ++ [(now, i)], step now i w)]> (sy_watchers s);
           sy_pending := sy_pending s |}
  | sys_idle s k l w o d :
      sy_watchers s !! k = Some (l, w) -> enabled now (Loop (IdleTick o d)) w ->
      system_step now s
        {| sy_watchers := <[k := (l ++ [(now, Loop (IdleTick o d))], step now (Loop (IdleTick o d)) w)]> (sy_watchers s);
           sy_pending := sy_pending s ++
             if running w && stop_reaches_deps o w then stopDependencies now k (k, now) else [] |}
  | sys_stop s p1 p2 k origin l w o d :
      sy_pending s = p1 ++ (k, origin) :: p2 -> sy_watchers s !! k = Some (l, w) ->
      system_step now s
        {| sy_watchers := <[k := (l ++ [(now, DependentStop o d)], step now (DependentStop o d) w)]> (sy_watchers s);
           sy_pending := p1 ++ p2 ++ if stop_reaches_deps o w then stopDependencies now k origin else [] |}.

Inductive system_reaches : Z -> system -> Prop :=
  | sys_start t : system_reaches t {| sy_watchers := ∅; sy_pending := [] |}
  | sys_more t s t' s' : system_reaches t s -> t <= t' -> system_step t' s s' -> system_reaches t' s'.

(** What [k] is for [a]: itself, or what it depends on, at any depth. *)
Inductive chain (a : nat) : nat -> Prop :=
  | chain_self : chain a a
  | chain_dep k t k' : chain a k -> k' ∈ deps t k -> chain a k'.

Definition run_of (l : list (Z * input)) (t : Z) (w : Watcher) : Prop :=
  exists cfg t0 status0, reaches cfg t0 status0 l t w.

(** At the time [ta] the idle ticker of a watcher ticked, while its container
    ran, and nothing had used it for the idle timeout then configured. *)
Definition went_idle (h : list (Z * input)) (ta : Z) : Prop :=
  exists l t w o d rest, h = l ++ (ta, Loop (IdleTick o d)) :: rest /\ run_of l t w /\ t <= ta /\ running w = true
    /\ forall t'' j, (t'', j) ∈ l -> traffic j = true -> t'' + iw_IdleTimeout (w_cfg w) <= ta.

(** A call was made by a step at its time, of a container that ran, with the
    stop method then configured. *)
Definition as_configured (h : list (Z * input)) (tc : Z) (c : provider_call) : Prop :=
  exists l t w i rest, h = l ++ (tc, i) :: rest /\ run_of l t w /\ t <= tc /\ running w = true
    /\ stop_call (w_cfg w) = Some c.

(** A stop of [k] at the time [tc] is due to a watcher that went idle. *)
Definition justified (s : system) (k : nat) (tc : Z) : Prop :=
  exists a la wa ta, sy_watchers s !! a = Some (la, wa) /\ went_idle la ta /\ ta <= tc /\ chain a k.

Definition system_wf (t : Z) (s : system) : Prop :=
  (forall k l w, sy_watchers s !! k = Some (l, w) -> exists t1, t1 <= t /\ run_of l t1 w)
  /\ (forall k a ta, (k, (a, ta)) ∈ sy_pending s -> chain a k /\ ta <= t
        /\ exists la wa, sy_watchers s !! a = Some (la, wa) /\ went_idle la ta)
  /\ (forall k l w tc c, sy_watchers s !! k = Some (l, w) -> (tc, c) ∈ w_calls w -> is_stop_call c = true ->
        as_configured l tc c /\ justified s k tc).

Lemma run_of_step l t w t' i :
  run_of l t w -> t <= t' -> enabled t' i w -> run_of (l ++ [(t', i)]) t' (step t' i w).
Proof. intros (cfg & t0 & st & H) ? ?. exists cfg, t0, st. by eapply reaches_step. Qed.

Lemma went_idle_app h h' ta : went_idle h ta -> went_idle (h ++ h') ta.
Proof.
  intros (l & t & w & o & d & rest & -> & H). exists l, t, w, o, d, (rest ++ h'). split; [|done].
  by rewrite <- app_assoc.
Qed.

Lemma as_configured_app h h' tc c : as_configured h tc c -> as_configured (h ++ h') tc c.
Proof.
  intros (l & t & w & i & rest & -> & H). exists l, t, w, i, (rest ++ h'). split; [|done].
  by rewrite <- app_assoc.
Qed.

(** A step of one watcher: the histories of all grow. *)
Definition grows (s s' : system) : Prop :=
  forall a la wa, sy_watchers s !! a = Some (la, wa) -> exists la' wa', sy_watchers s' !! a = Some (la ++ la', wa').

Lemma grows_insert s k l w x y p :
  sy_watchers s !! k = Some (l, w) ->
  grows s {| sy_watchers := <[k := (l ++ x, y)]> (sy_watchers s); sy_pending := p |}.
Proof.
  intros Hk a la wa Ha. cbn. destruct (decide (a = k)) as [->|Hne].
  - rewrite lookup_insert_eq. rewrite Hk in Ha. injection Ha as -> ->. eauto.
  - rewrite lookup_insert_ne by done. exists [], wa. by rewrite app_nil_r.
Qed.

Lemma justified_grows s s' k tc : grows s s' -> justified s k tc -> justified s' k tc.
Proof.
  intros Hg (a & la & wa & ta & Ha & Hi & H). destruct (Hg a la wa Ha) as (la' & wa' & Ha').
  exists a, (la ++ la'), wa', ta. split; [done|]. split; [by apply went_idle_app|done].
Qed.

(** The invariant after a step of the watcher [k]: what is left to show is
    about the new goroutines and the new calls. *)
Lemma system_wf_insert t t' s k l w i pend :
  system_wf t s -> t <= t' -> sy_watchers s !! k = Some (l, w) -> enabled t' i w ->
  let s' := {| sy_watchers := <[k := (l ++ [(t', i)], step t' i w)]> (sy_watchers s); sy_pending := pend |} in
  (forall k' a ta, (k', (a, ta)) ∈ pend -> (k', (a, ta)) ∈ sy_pending s
     \/ chain a k' /\ ta <= t' /\ exists la wa, sy_watchers s' !! a = Some (la, wa) /\ went_idle la ta) ->
  (is_stopping i = true -> running w = true -> justified s' k t') ->
  system_wf t' s'.
Proof.
  intros (H1 & H2 & H3) Hle Hk He s' Hpend Hj. pose proof (grows_insert s k l w [(t', i)] (step t' i w) pend Hk) as Hg.
  fold s' in Hg. destruct (H1 k l w Hk) as (t1 & Ht1 & Hrun). pose proof (run_of_step l t1 w t' i Hrun ltac:(lia) He) as Hrun'.
  split; [|split].
  - intros k' l' w' Hk'. cbn in Hk'. apply lookup_insert_Some in Hk' as [[<- [= <- <-]]|[_ Hk']].
    + exists t'. split; [lia|done].
    + destruct (H1 k' l' w' Hk') as (t2 & ? & ?). exists t2. split; [lia|done].
  - intros k' a ta Hin. destruct (Hpend k' a ta Hin) as [Hold|Hnew]; [|done].
    destruct (H2 k' a ta Hold) as (Hc & Hta & la & wa & Ha & Hi). split; [done|]. split; [lia|].
    destruct (Hg a la wa Ha) as (la' & wa' & Ha'). exists (la ++ la'), wa'. split; [done|by apply went_idle_app].
  - intros k' l' w' tc c Hk' Hc Hs. cbn in Hk'. apply lookup_insert_Some in Hk' as [[<- [= <- <-]]|[_ Hk']].
    2: { destruct (H3 k' l' w' tc c Hk' Hc Hs). split; [done|by eapply justified_grows]. }
    destruct Hrun as (cfg & t0 & st & Hr).
    destruct (step_calls t' i w (reaches_wf _ _ _ _ _ _ Hr)) as (cs & Hcs & _).
    rewrite Hcs in Hc. apply elem_of_app in Hc as [Hc|Hc].
    { destruct (H3 k l w tc c Hk Hc Hs). split; [by apply as_configured_app|by eapply justified_grows]. }
    destruct (stop_call_origin _ _ _ l t1 w t' i _ _ Hr ltac:(lia) He Hcs Hc Hs) as (Et & Hrn & Hcall & Hi & _).
    cbn [fst snd] in Et, Hcall. subst tc. split; [|by apply Hj].
    exists l, t1, w, i, []. split; [done|]. split; [by exists cfg, t0, st|]. split_and!; try done; lia.
Qed.

Lemma went_idle_now l t w t' o d :
  run_of l t w -> t <= t' -> enabled t' (Loop (IdleTick o d)) w -> running w = true ->
  went_idle (l ++ [(t', Loop (IdleTick o d))]) t'.
Proof.
  intros Hrun Hle He Hr. exists l, t, w, o, d, []. do 4 (split; [done|]).
  destruct Hrun as (cfg & t0 & st & Hrun). destruct He as [_ (dl & Hdl & Hnow)].
  destruct (reaches_idle _ _ _ _ _ _ Hrun) as (_ & Hd & _).
  intros t'' j Hin Ht. specialize (Hd dl Hdl t'' j Hin Ht). lia.
Qed.

Lemma system_wf_step t t' s s' : system_wf t s -> t <= t' -> system_step t' s s' -> system_wf t' s'.
Proof.
  intros Hw Hle Hst. pose proof Hw as (H1 & H2 & H3).
  destruct Hst as [s k cfg status Hk Hs|s k l w i Hk Hi He|s k l w o d Hk He|s p1 p2 k [a ta] l w o d Hp Hk].
  - assert (grows s {| sy_watchers := <[k := ([], NewWatcher_fresh t' cfg status)]> (sy_watchers s); sy_pending := sy_pending s |}) as Hg.
    { intros a la wa Ha. cbn. exists [], wa. rewrite app_nil_r, lookup_insert_ne; [done|congruence]. }
    split; [|split]; cbn.
    + intros k' l' w' [[<- [= <- <-]]|[_ Hk']]%lookup_insert_Some.
      * exists t'. split; [lia|]. exists cfg, t', status. by constructor.
      * destruct (H1 k' l' w' Hk') as (t2 & ? & ?). exists t2. split; [lia|done].
    + intros k' a ta Hin. destruct (H2 k' a ta Hin) as (Hc & Hta & la & wa & Ha & Hi). split; [done|]. split; [lia|].
      destruct (Hg a la wa Ha) as (la' & wa' & Ha'). exists (la ++ la'), wa'. split; [done|by apply went_idle_app].
    + intros k' l' w' tc c [[<- [= <- <-]]|[_ Hk']]%lookup_insert_Some Hc Hs'; [by apply elem_of_nil in Hc|].
      destruct (H3 k' l' w' tc c Hk' Hc Hs'). split; [done|by eapply justified_grows].
  - apply (system_wf_insert t t' s k l w i); try done; [by intros; left|congruence].
  - destruct (H1 k l w Hk) as (t1 & Ht1 & Hrun).
    assert (running w = true -> went_idle (l ++ [(t', Loop (IdleTick o d))]) t') as Hidle
      by (intros Hr; apply (went_idle_now l t1 w); [done|lia|done|done]).
    apply (system_wf_insert t t' s k l w); try done.
    + intros k' a ta [Hin|Hin]%elem_of_app; [by left|right].
      destruct (running w && stop_reaches_deps o w) eqn:E; [|by apply elem_of_nil in Hin]. reflect.
      apply list_elem_of_fmap in Hin as (k2 & [= -> -> ->] & Hin). split; [by eapply chain_dep; [constructor|]|].
      split; [lia|]. cbn. rewrite lookup_insert_eq. eauto.
    + intros _ Hr. eexists k, _, _, t'. cbn. rewrite lookup_insert_eq. split; [done|]. split; [by apply Hidle|].
      split; [lia|constructor].
  - destruct (H2 k a ta) as (Hc & Hta & la & wa & Ha & Hi).
    { rewrite Hp. apply elem_of_app. right. by left. }
    destruct (grows_insert s k l w [(t', DependentStop o d)] (step t' (DependentStop o d) w)
      (p1 ++ p2 ++ if stop_reaches_deps o w then stopDependencies t' k (a, ta) else []) Hk a la wa Ha) as (la' & wa' & Ha').
    apply (went_idle_app _ la') in Hi.
    apply (system_wf_insert t t' s k l w); try done.
    + intros k' a' ta' Hin. rewrite Hp. apply elem_of_app in Hin as [Hin|[Hin|Hin]%elem_of_app].
      * left. apply elem_of_app. by left.
      * left. apply elem_of_app. right. by right.
      * right. destruct (stop_reaches_deps o w); [|by apply elem_of_nil in Hin].
        apply list_elem_of_fmap in Hin as (k2 & [= -> -> ->] & Hin). split; [by eapply chain_dep|].
        split; [lia|]. eauto.
    + intros _ _. exists a, (la ++ la'), wa', ta. split; [done|]. split; [done|]. split; [lia|done].
Qed.

Lemma system_reaches_wf t s : system_reaches t s -> system_wf t s.
Proof.
  induction 1 as [t|t s t' s' _ IH Hle Hst]; [|by eapply system_wf_step].
  split; [|split]; cbn.
  - intros k l w. by rewrite lookup_empty.
  - by intros k a ta ?%elem_of_nil.
  - intros k l w tc c. by rewrite lookup_empty.
Qed.

(** C3: A container is only stopped when it is idle, or when one that depends
    on it is.  In every interleaving of watchers, the requests, streams and
    container events they see, reloads, and the goroutines that stop
    dependencies, a call that pauses, stops or kills a container is the
    configured one and is made while the container runs; and there is a watcher,
    its own or one that depends on it at some depth, whose idle ticker ticked
    before, while its container ran, when every request, connection, read of a
    stream, event of the container and reload it had seen lay at least its idle
    timeout back. *)
Theorem stopped_only_when_idle t s k l w tc c :
  system_reaches t s -> sy_watchers s !! k = Some (l, w) -> (tc, c) ∈ w_calls w -> is_stop_call c = true ->
  as_configured l tc c
  /\ exists a la wa ta, sy_watchers s !! a = Some (la, wa) /\ went_idle la ta /\ ta <= tc /\ chain a k.
Proof. intros (_ & _ & H)%system_reaches_wf. apply H. Qed.

End together.

(** ** Startup *)

Inductive startup := StillStarting | BecameReady | StartFailed (e : idle_err).

(** A tick of the health ticker: its time, whether the URL has no host yet, and
    what the check answers if one is made. *)
Definition health_tick : Type := Z * (bool * check_result).

(** What the ticks since the start of a container decide; a tick without a host
    decides nothing, not even the timeout. *)
Fixpoint startup_outcome (timeout s tries : Z) (l : list health_tick) : startup :=
  match l with
  | [] => StillStarting
  | (_, (true, _)) :: l => startup_outcome timeout s tries l
  | (t, (false, check)) :: l =>
      if timeout <? t - s then StartFailed (ErrStartup s tries)
      else match check with
           | inr e => StartFailed (ErrText e)
           | inl res => if Healthy res then BecameReady else startup_outcome timeout s (tries + 1) l
           end
  end.

(** The ticks of the health ticker as long as it runs. *)
Definition health_ticks (w : Watcher) (l : list health_tick) : Watcher :=
  fold_left (fun w tc => if w_health w then step tc.1 (Loop (HealthTick tc.2.1 tc.2.2)) w else w) l w.

Lemma health_ticks_off w l : w_health w = false -> health_ticks w l = w.
Proof. intros Hh. induction l as [|x l IH]; [done|]. unfold health_ticks in *. cbn [fold_left]. by rewrite Hh. Qed.

Definition starting (s tries : Z) (w : Watcher) : Prop :=
  w_health w = true
  /\ w_state w = {| cs_status := ContainerStatusRunning; cs_ready := false; cs_err := None;
                    cs_startedAt := Some s; cs_healthTries := tries |}.

(** One tick of a starting container. *)
Lemma health_tick_starting s tries w t c :
  starting s tries w -> 0 <= t - s < 2 ^ 63 ->
  step t (Loop (HealthTick false c)) w
  = if iw_WakeTimeout (w_cfg w) <? t - s then stop_health (setError t (ErrStartup s tries) w)
    else match c with
         | inr e => stop_health (setError t (ErrText e) w)
         | inl res => if Healthy res then resetIdleTimer t (set_notify_ch (stop_health (setReady t w)) true)
                      else count_health_try w
         end.
Proof.
  intros [Hh Hs] Ht. cbn [step loop_step]. unfold on_health_tick.
  assert (running w = true) as -> by (unfold running; by rewrite Hs).
  assert (ready w = false) as -> by (unfold ready; by rewrite Hs). cbn [andb negb].
  unfold checkUpdateState, startup_timeout. rewrite Hs. cbn [cs_startedAt cs_healthTries].
  assert (time_Sub t s = t - s) as -> by (unfold time_Sub; lia).
  destruct (iw_WakeTimeout (w_cfg w) <? t - s); [done|]. destruct c as [res|e]; [|done]. by destruct (Healthy res).
Qed.

Lemma health_tick_no_host t c w : step t (Loop (HealthTick true c)) w = w.
Proof. cbn [step loop_step]. unfold on_health_tick. by destruct (running w && negb (ready w)). Qed.

Lemma health_ticks_cons w t h c l :
  w_health w = true -> health_ticks w ((t, (h, c)) :: l) = health_ticks (step t (Loop (HealthTick h c)) w) l.
Proof. intros Hh. unfold health_ticks. cbn [fold_left fst snd]. by rewrite Hh. Qed.

(** C33: A start is decided within the wake timeout once the URL of the
    container has a host: the health ticks that see a host make the container
    ready at the first healthy check, fail it at the first error or at the first
    tick after the timeout, and a tick with a host after the timeout always
    decides.  Ticks while the URL has no host change nothing and count no try. *)
Theorem wake_decided s tries w l :
  starting s tries w -> Forall (fun tc => 0 <= tc.1 - s < 2 ^ 63) l ->
  match startup_outcome (iw_WakeTimeout (w_cfg w)) s tries l with
  | StillStarting => running (health_ticks w l) = true /\ ready (health_ticks w l) = false
                     /\ w_health (health_ticks w l) = true
                     /\ Forall (fun tc => tc.2.1 = true \/ tc.1 - s <= iw_WakeTimeout (w_cfg w)) l
  | BecameReady => ready (health_ticks w l) = true /\ w_notify (health_ticks w l) = true
                   /\ is_Some (w_idle (health_ticks w l))
  | StartFailed e => cs_err (w_state (health_ticks w l)) = Some e /\ ready (health_ticks w l) = false
  end.
Proof.
  revert tries w; induction l as [|[t [h c]] l IH]; intros tries w Hst Hl.
  { destruct Hst as [Hh Hs]. cbn. unfold running, ready. rewrite Hs. by split_and!. }
  apply Forall_cons in Hl as [Ht Hl]. cbn [fst] in Ht. rewrite health_ticks_cons by apply Hst.
  destruct h; cbn [startup_outcome].
  { rewrite health_tick_no_host. specialize (IH tries w Hst Hl).
    destruct (startup_outcome (iw_WakeTimeout (w_cfg w)) s tries l); try done.
    destruct IH as (H1 & H2 & H3 & H4). split_and!; try done. constructor; [by left|done]. }
  rewrite (health_tick_starting s tries w t c Hst Ht).
  destruct (iw_WakeTimeout (w_cfg w) <? t - s) eqn:E; [by rewrite health_ticks_off|].
  destruct c as [res|e]; [|by rewrite health_ticks_off].
  destruct (Healthy res); [rewrite health_ticks_off by done; by split_and!|].
  specialize (IH (tries + 1) (count_health_try w)). cbn [w_cfg count_health_try set_state] in IH.
  specialize (IH ltac:(destruct Hst as [Hh Hs]; unfold starting; cbn; by rewrite Hs) Hl).
  destruct (startup_outcome (iw_WakeTimeout (w_cfg w)) s (tries + 1) l); try done.
  destruct IH as (H1 & H2 & H3 & H4). split_and!; try done. constructor; [|done]. right. cbn. reflect. lia.
Qed.

(** What a request gets: the files of the loading page always, the
    container when it is ready, and otherwise it wakes the container, unless a
    start endpoint is set and the request is for another path. *)
Theorem request_answer now r env canceled w :
  (Watcher_ServeHTTP now r env canceled w).2
  = match static_reply (rq_Path r) with
    | Some reply => Answered reply
    | None =>
        if ready w then
          if canceled then Canceled
          else Forwarded (if running w && (0 <? iw_IdleTimeout (w_cfg w))
                          then Some (now + iw_IdleTimeout (w_cfg w)) else None)
        else if bool_decide (iw_StartEndpoint (w_cfg w) = []) || bool_decide (rq_Path r = iw_StartEndpoint (w_cfg w)) then
          Answered (if acceptHTML r then ReplyLoadingPage
                    else match (Wake now (wk_events env) (wk_deps env) (wk_outcome env) (resetIdleTimer now w)).2 with
                         | Some _ => ReplyFailed | None => ReplyWoken end)
        else Answered ReplyForbidden
    end.
Proof.
  unfold Watcher_ServeHTTP, wakeFromHTTP.
  destruct (static_reply (rq_Path r)) as [reply|] eqn:Es.
  { unfold static_reply in Es. repeat case_bool_decide; simplify_eq; done. }
  change (ready (resetIdleTimer now w)) with (ready w). destruct (ready w) eqn:Er.
  { cbn [snd]. destruct canceled; [done|]. f_equal. unfold expires.
    change (running (resetIdleTimer now w)) with (running w). cbn [w_cfg w_lastReset resetIdleTimer set_timers default].
    destruct (running w); [|done]. cbn [negb orb andb]. by rewrite Z.leb_antisym, if_negb. }
  cbn [w_cfg resetIdleTimer set_timers]. rewrite <- negb_orb.
  destruct (bool_decide (iw_StartEndpoint (w_cfg w) = []) || bool_decide (rq_Path r = iw_StartEndpoint (w_cfg w)));
    cbn [negb]; [|done].
  destruct (Wake _ _ _ _ _) as [w' err]. cbn [snd]. by destruct (acceptHTML r), err.
Qed.

(** ** Gaps *)

(** The advice to raise the stop timeout is never given: an error that
    [stopByMethod] returns has lost its cause. *)
Lemma stop_deadline_lost now outcome deps w e :
  (forall n e', outcome <> Some (watcherError n e')) -> (forall n e', deps <> Some (watcherError n e')) ->
  (stopByMethod now outcome deps w).2 = Some e -> errors_Is e ErrDeadlineExceeded = false.
Proof.
  assert (forall x, (forall n e', x <> watcherError n e') -> newWatcherError w x = Some e ->
            errors_Is e ErrDeadlineExceeded = false) as Hlost.
  { intros x Hx. unfold newWatcherError, convertError. destruct (errors_Is x ErrReload); [done|].
    destruct x; try (by exfalso; eapply Hx);
      match goal with |- context [if ?b then _ else _] => destruct b eqn:E end; intros [= <-]; done. }
  assert (forall o, (forall n e', o <> Some (watcherError n e')) -> o ≫= newWatcherError w = Some e ->
            errors_Is e ErrDeadlineExceeded = false) as Hopt.
  { intros [x|] Hx; [|done]. cbn. apply Hlost. intros n e' ->. by apply (Hx n e'). }
  intros Ho Hd. unfold stopByMethod. destruct (negb (running w)); [by apply Hopt|].
  destruct (negb (w_provider w)); [by intros [= <-]|].
  destruct (stop_call (w_cfg w)) as [c|].
  - destruct outcome as [x|]; [|by apply Hopt]. cbn [snd]. apply Hlost. intros n e' ->. by apply (Ho n e').
  - cbn. by intros [= <-].
Qed.

(** The channel of a provider that is closed delivers the zero event for ever;
    each puts off the sleep of the container. *)
Lemma closed_channel_resets now w :
  w_idle (step now (Loop (ContainerEvent 0)) w) = Some (now + iw_IdleTimeout (w_cfg w)).
Proof. done. Qed.

(** ** Witnesses *)

Definition demo_cfg : IdlewatcherConfig :=
  {| iw_Proxmox := None;
     iw_Docker := Some {| dc_DockerHost := "unix:///var/run/docker.sock"; dc_ContainerID := "c0"; dc_ContainerName := "app" |};
     iw_IdleTimeout := 60 * Second; iw_WakeTimeout := 30 * Second; iw_StopTimeout := 10 * Second; iw_StopMethod := "stop";
     iw_StopSignal := []; iw_StartEndpoint := []; iw_DependsOn := []; iw_valErr := [] |}.

Definition demo_request : wake_request :=
  {| rq_Path := "/"; rq_Method := "GET"; rq_RequestURI := "/"; rq_AcceptHTML := true; rq_AcceptEmpty := false |}.

Definition demo_env : wake_env := {| wk_events := []; wk_deps := None; wk_outcome := None |}.

Definition ok_check : check_result := inl {| Healthy := true; Detail := []; Latency := 0 |}.

(** A request wakes the stopped container, it starts and becomes ready. *)
Definition demo_run : list (Z * input) :=
  [(1 * Second, Request demo_request demo_env);
   (2 * Second, Loop (ContainerEvent ActionContainerStart));
   (3 * Second, Loop (HealthTick false ok_check))].

Definition run_inputs (w : Watcher) (l : list (Z * input)) : Watcher :=
  fold_left (fun w ti => step ti.1 ti.2 w) l w.

Definition demo_new : Watcher := NewWatcher_fresh 0 demo_cfg ContainerStatusStopped.
Definition demo_ready : Watcher := run_inputs demo_new demo_run.

Lemma demo_reaches : reaches demo_cfg 0 ContainerStatusStopped demo_run (3 * Second) demo_ready.
Proof.
  change demo_run with ((([] ++ [(1 * Second, Request demo_request demo_env)])
    ++ [(2 * Second, Loop (ContainerEvent ActionContainerStart))]) ++ [(3 * Second, Loop (HealthTick false ok_check))]).
  unfold demo_ready, run_inputs, demo_run. cbn [fold_left fst snd].
  eapply reaches_step; [eapply reaches_step; [eapply reaches_step; [by apply reaches_new|..]|..]|..]; done.
Qed.

(** Two watchers, the first depends on the second, whose idle timer never
    ticks; when the first has been idle for its timeout, both are stopped. *)
Definition demo_deps (t : Z) (k : nat) : list nat := if (k =? 0)%nat then [1%nat] else [].

Definition demo_dep_cfg : IdlewatcherConfig :=
  {| iw_Proxmox := None;
     iw_Docker := Some {| dc_DockerHost := "unix:///var/run/docker.sock"; dc_ContainerID := "c1"; dc_ContainerName := "db" |};
     iw_IdleTimeout := neverTick; iw_WakeTimeout := 30 * Second; iw_StopTimeout := 10 * Second; iw_StopMethod := "pause";
     iw_StopSignal := []; iw_StartEndpoint := []; iw_DependsOn := []; iw_valErr := [] |}.

Definition demo_dep : Watcher := NewWatcher_fresh 0 demo_dep_cfg ContainerStatusRunning.

Definition demo_first : Watcher := NewWatcher_fresh 0 demo_cfg ContainerStatusRunning.

Definition demo_asked : list (Z * input) := [(Second, Request demo_request demo_env)].

Definition demo_one : system := {| sy_watchers := <[0%nat := ([], demo_first)]> ∅; sy_pending := [] |}.

Definition demo_two : system :=
  {| sy_watchers := <[1%nat := ([], demo_dep)]> (sy_watchers demo_one); sy_pending := [] |}.

Definition demo_used : system :=
  {| sy_watchers := <[0%nat := (demo_asked, run_inputs demo_first demo_asked)]> (sy_watchers demo_two);
     sy_pending := [] |}.

Definition demo_idle : system :=
  {| sy_watchers := <[0%nat := (demo_asked ++ [(61 * Second, Loop (IdleTick None None))],
                        step (61 * Second) (Loop (IdleTick None None)) (run_inputs demo_first demo_asked))]>
       (sy_watchers demo_used);
     sy_pending := [(1%nat, (0%nat, 61 * Second))] |}.

Definition demo_slept : system :=
  {| sy_watchers := <[1%nat := ([(62 * Second, DependentStop None None)],
                        step (62 * Second) (DependentStop None None) demo_dep)]> (sy_watchers demo_idle);
     sy_pending := [] |}.

Lemma demo_slept_reaches : system_reaches demo_deps (62 * Second) demo_slept.
Proof.
  apply (sys_more demo_deps (61 * Second) demo_idle); [|done|].
  2: by apply (sys_stop demo_deps (62 * Second) demo_idle [] [] 1%nat (0%nat, 61 * Second) [] demo_dep None None).
  apply (sys_more demo_deps Second demo_used); [|done|].
  2: { apply (sys_idle demo_deps (61 * Second) demo_used 0%nat demo_asked (run_inputs demo_first demo_asked) None None);
         [reflexivity|]. split; [reflexivity|]. by exists (61 * Second). }
  apply (sys_more demo_deps 0 demo_two); [|done|].
  2: by apply (sys_input demo_deps Second demo_two 0%nat [] demo_first (Request demo_request demo_env)).
  apply (sys_more demo_deps 0 demo_one); [|done|].
  2: by apply (sys_new demo_deps 0 demo_one 1%nat demo_dep_cfg ContainerStatusRunning).
  eapply sys_more; [apply (sys_start demo_deps 0)|done|].
  by apply (sys_new demo_deps 0 {| sy_watchers := ∅; sy_pending := [] |} 0%nat demo_cfg ContainerStatusRunning).
Qed.

Lemma stopped_only_when_idle_witness :
  exists a la wa ta, sy_watchers demo_slept !! a = Some (la, wa) /\ went_idle la ta /\ ta <= 62 * Second
    /\ chain demo_deps a 1.
Proof.
  destruct (stopped_only_when_idle demo_deps (62 * Second) demo_slept 1%nat [(62 * Second, DependentStop None None)]
    (step (62 * Second) (DependentStop None None) demo_dep) (62 * Second) CallPause) as [_ H];
    [exact demo_slept_reaches|reflexivity|by apply list_elem_of_singleton|reflexivity|exact H].
Defined.

Lemma idle_container_sleeps_witness :
  exists d, w_idle demo_ready = Some d
    /\ w_calls (step d (Loop (IdleTick None None)) demo_ready) = w_calls demo_ready ++ [(d, CallStop [] 10)].
Proof.
  destruct (idle_container_sleeps demo_cfg 0 ContainerStatusStopped demo_run (3 * Second) demo_ready)
    as [(tc & c & Hin & Hst & _)|(d & Hd & Htick)];
    [by eexists|exact demo_reaches|reflexivity|reflexivity|..].
  - exfalso. vm_compute in Hin. apply list_elem_of_singleton in Hin. injection Hin as -> ->. discriminate Hst.
  - exists d. split; [exact Hd|]. destruct (Htick d None None) as (_ & c & Hc & Hcalls); [reflexivity|].
    vm_compute in Hc. injection Hc as <-. exact Hcalls.
Defined.

Lemma reload_loses_ready_witness :
  ready demo_ready = true
  /\ (Watcher_ServeHTTP (5 * Second) demo_request demo_env false
       (NewWatcher_reload (4 * Second) demo_cfg ContainerStatusRunning demo_ready)).2 <> Forwarded None.
Proof.
  split; [reflexivity|].
  apply (reload_loses_ready demo_cfg 0 ContainerStatusStopped demo_run (3 * Second) demo_ready (4 * Second) demo_cfg);
    [exact demo_reaches|reflexivity|apply quiet_refl].
Defined.

(** The start of the demonstration without its last tick. *)
Lemma demo_starting_reaches :
  reaches demo_cfg 0 ContainerStatusStopped (take 2 demo_run) (2 * Second) (run_inputs demo_new (take 2 demo_run)).
Proof.
  change (run_inputs demo_new (take 2 demo_run)) with
    (step (2 * Second) (Loop (ContainerEvent ActionContainerStart))
       (step (1 * Second) (Request demo_request demo_env) demo_new)).
  change (take 2 demo_run) with (([] ++ [(1 * Second, Request demo_request demo_env)])
    ++ [(2 * Second, Loop (ContainerEvent ActionContainerStart))]).
  eapply reaches_step; [eapply reaches_step; [by apply reaches_new|..]|..]; done.
Qed.

Lemma health_error_final_witness :
  let w := run_inputs demo_new (take 2 demo_run) in
  Watcher_Status (step (3 * Second) (Loop (HealthTick false (inr (B "refused")))) w) = StatusError
  /\ w_calls (step (3 * Second) (Loop (HealthTick false (inr (B "refused")))) w) = w_calls w.
Proof.
  cbv zeta.
  destruct (health_error_final demo_cfg 0 ContainerStatusStopped (take 2 demo_run) (2 * Second)
              (run_inputs demo_new (take 2 demo_run)) (3 * Second) (inr (B "refused")) (ErrText "refused")
              (step (3 * Second) (Loop (HealthTick false (inr (B "refused")))) (run_inputs demo_new (take 2 demo_run)))
              (4 * Second) demo_request demo_env false None) as (H1 & H2 & _);
    [exact demo_starting_reaches|vm_compute; reflexivity|vm_compute; reflexivity|vm_compute; reflexivity|apply quiet_refl|].
  split; [exact H2|exact H1].
Defined.

Definition demo_checks : list health_tick :=
  [(3 * Second, (true, ok_check)); (4 * Second, (false, inl {| Healthy := false; Detail := []; Latency := 0 |}));
   (40 * Second, (true, ok_check)); (41 * Second, (false, ok_check))].

Lemma wake_decided_witness :
  let w := run_inputs demo_new (take 2 demo_run) in
  cs_err (w_state (health_ticks w demo_checks)) = Some (ErrStartup (2 * Second) 1).
Proof.
  cbv zeta.
  assert (startup_outcome (iw_WakeTimeout (w_cfg (run_inputs demo_new (take 2 demo_run)))) (2 * Second) 0 demo_checks
          = StartFailed (ErrStartup (2 * Second) 1)) as Ho by (vm_compute; reflexivity).
  assert (starting (2 * Second) 0 (run_inputs demo_new (take 2 demo_run))) as Hs by (split; vm_compute; reflexivity).
  assert (Forall (fun tc => 0 <= tc.1 - 2 * Second < 2 ^ 63) demo_checks) as Hf
    by (repeat constructor; vm_compute; (done || discriminate)).
  pose proof (wake_decided (2 * Second) 0 (run_inputs demo_new (take 2 demo_run)) demo_checks Hs Hf) as H.
  rewrite Ho in H. exact (proj1 H).
Defined.

(** The token of the last start is still there when the container has slept: a
    connection that wakes it again takes the token and is dialled at once,
    before the container is ready. *)
Example stale_token :
  let w := run_inputs demo_ready [(64 * Second, Loop (ContainerEvent ActionContainerDie))] in
  let (w1, wait) := wakeFromStream (65 * Second) demo_env true w in
  wait = WaitReady /\ w_notify w1 = true /\ (waitForReady (65 * Second) w1).2 = false.
Proof. by vm_compute. Qed.
