(* ===== verification/Entrypoint.v ===== *)
(** * Route pools and the entrypoint

    Models internal/utils/pool (the shared maps of routes and which of two
    routes under one key stays), internal/route/routes, the registration of
    HTTP routes and their load balancers (internal/route/reverse_proxy.go,
    fileserver.go) and the lookup of a route by host
    (internal/entrypoint/entrypoint.go).

    Routes are shared objects: pools hold identifiers.  Handlers that serve a
    request are outcomes here. *)

From S2P Require Import Prelude GoStrings NetAddr EventQueue Docker Container IdleConfig Route.

(** ** Pools *)

Section pool.
Context {T : Type}.
(** The key of an object, and whether a new object replaces an old one. *)
Variable Key : T -> bytes.
Variable PreferOver : T -> T -> bool.

Abbreviation Pool := (gmap bytes T).

Definition AddKey (p : Pool) (key : bytes) (obj : T) : Pool :=
  match p !! key with
  | Some cur => if PreferOver obj cur then <[key := obj]> p else p
  | None => <[key := obj]> p
  end.

Definition Pool_Add (p : Pool) (obj : T) : Pool := AddKey p (Key obj) obj.

Definition AddIfNotExists (p : Pool) (obj : T) : Pool * T * bool :=
  match p !! Key obj with
  | Some actual => (p, actual, false)
  | None => (<[Key obj := obj]> p, obj, true)
  end.

Definition Del (p : Pool) (obj : T) : Pool := delete (Key obj) p.
Definition DelKey (p : Pool) (key : bytes) : Pool := delete key p.
Definition Pool_Get (p : Pool) (key : bytes) : option T := p !! key.
Definition Pool_Size (p : Pool) : nat := size p.

(** The objects added under one key, in order. *)
Definition add_same (key : bytes) (p : Pool) (objs : list T) : Pool :=
  fold_left (fun p obj => AddKey p key obj) objs p.

End pool.

(** ** Which route stays *)

Section preference.
Context {RuleT : Type}.
Abbreviation Route := (Route RuleT).

(** Rules first, then routes that are not from Docker. *)
Definition rank (r : Route) : Z :=
  (if bool_decide (rt_Rules r = []) then 0 else 2) + (match rt_Container r with None => 1 | Some _ => 0 end).

Lemma PreferOver_rank (r other : Route) : PreferOver r other = (rank other <=? rank r).
Proof.
  unfold PreferOver, rank. destruct (rt_Rules r), (rt_Rules other), (rt_Container r), (rt_Container other); done.
Qed.

(** The last of the best routes of a list. *)
Fixpoint best (cur : Route) (l : list Route) : Route :=
  match l with
  | [] => cur
  | r :: l => best (if rank cur <=? rank r then r else cur) l
  end.

Lemma best_spec cur l :
  (best cur l = cur \/ best cur l ∈ l) /\ rank cur <= rank (best cur l)
  /\ Forall (fun r => rank r <= rank (best cur l)) l.
Proof.
  revert cur; induction l as [|r l IH]; intros cur; cbn [best]; [split_and!; [by left|lia|done]|].
  destruct (IH (if rank cur <=? rank r then r else cur)) as (H1 & H2 & H3).
  destruct (rank cur <=? rank r) eqn:E; reflect.
  - split_and!; [right; apply elem_of_cons; tauto|lia|constructor; [lia|done]].
  - split_and!; [rewrite elem_of_cons; tauto|lia|constructor; [lia|done]].
Qed.

Lemma add_same_best (key : bytes) (p : gmap bytes Route) cur l :
  p !! key = Some cur -> add_same PreferOver key p l !! key = Some (best cur l).
Proof.
  revert p cur; induction l as [|r l IH]; intros p cur Hp; cbn [add_same fold_left best]; [done|].
  apply IH. unfold AddKey. rewrite Hp, PreferOver_rank. destruct (rank cur <=? rank r); [|done].
  by rewrite lookup_insert_eq.
Qed.

(** Of the routes added under one key the pool keeps a best one: no other
    has rules where it has none, nor, with equal rules, comes from the
    configuration where it comes from Docker.  The class of the winner does
    not depend on the order of the additions. *)
Theorem pool_keeps_best (key : bytes) (p : gmap bytes Route) (l l' : list Route) :
  p !! key = None -> l <> [] -> Permutation l l' ->
  exists r r', add_same PreferOver key p l !! key = Some r /\ add_same PreferOver key p l' !! key = Some r'
    /\ r ∈ l /\ Forall (fun x => rank x <= rank r) l /\ rank r' = rank r.
Proof.
  intros Hp Hne Hperm.
  assert (forall l, l <> [] -> exists r, add_same PreferOver key p l !! key = Some r
            /\ r ∈ l /\ Forall (fun x => rank x <= rank r) l) as Hbest.
  { clear l l' Hne Hperm. intros [|r l] Hne; [done|]. cbn [add_same fold_left].
    exists (best r l). split.
    - apply add_same_best. unfold AddKey. rewrite Hp. by rewrite lookup_insert_eq.
    - destruct (best_spec r l) as (H1 & H2 & H3). split; [apply elem_of_cons; tauto|by constructor]. }
  destruct (Hbest l Hne) as (r & Hr & Hin & Hall).
  destruct (Hbest l') as (r' & Hr' & Hin' & Hall'); [intros ->; by apply Permutation_nil_r in Hperm|].
  exists r, r'. split_and!; try done. rewrite Forall_forall in Hall, Hall'.
  assert (rank r' <= rank r) by (apply Hall; by rewrite Hperm).
  assert (rank r <= rank r') by (apply Hall'; by rewrite <- Hperm). lia.
Qed.

(** The route that lost takes the winner with it: ending it deletes its key,
    whichever route is listed there. *)
Lemma loser_removes_winner (key : Route -> bytes) (p : gmap bytes Route) winner loser :
  key loser = key winner -> p !! key winner = Some winner -> PreferOver loser winner = false ->
  Pool_Add key PreferOver p loser !! key winner = Some winner
  /\ Del key (Pool_Add key PreferOver p loser) loser !! key winner = None.
Proof.
  intros Hk Hp Hl. unfold Pool_Add, AddKey, Del. rewrite Hk, Hp, Hl. split; [done|]. by rewrite lookup_delete_eq.
Qed.

End preference.

(** ** Lookup by host *)

Section lookup.
Context {T : Type}.
Variable pool : gmap bytes T.

Definition findRouteAnyDomain (host : bytes) : option T :=
  match IndexByte host "." with
  | Some idx =>
      match pool !! take idx host with
      | Some r => Some r
      | None => pool !! host
      end
  | None => pool !! host
  end.

Fixpoint find_in_domains (domains : list bytes) (host : bytes) : option T :=
  match domains with
  | [] => None
  | d :: domains =>
      match CutSuffix host d ≫= fun target => pool !! target with
      | Some r => Some r
      | None => find_in_domains domains host
      end
  end.

Definition findRouteByDomains (domains : list bytes) (host : bytes) : option T :=
  match find_in_domains domains host with
  | Some r => Some r
  | None => pool !! host
  end.

Definition dotted (domain : bytes) : bytes := if HasPrefix domain "." then domain else B "." ++ domain.

(** [SetFindRouteDomains], as the lookup it installs. *)
Definition SetFindRouteDomains (domains : list bytes) : bytes -> option T :=
  match domains with
  | [] => findRouteAnyDomain
  | _ => findRouteByDomains (map dotted domains)
  end.

Definition GetHTTPRouteOrExact (alias host : bytes) : option T :=
  match pool !! alias with Some r => Some r | None => pool !! host end.

(** ** Serving *)

Inductive served_by :=
  | ByMiddleware (r : T)
  | ByRoute (r : T)
  | ByNotFoundRules
  | ByNotFoundPage.

Definition Entrypoint_ServeHTTP (findRoute : bytes -> option T) (has_middleware has_notFound : bool) (host : bytes)
    : served_by :=
  match findRoute host with
  | Some r => if has_middleware then ByMiddleware r else ByRoute r
  | None => if has_notFound then ByNotFoundRules else ByNotFoundPage
  end.

(** ** Theorems on lookup *)

(** The keys a host may name: without domains its first label, with domains
    what is left of a domain; and the host itself. *)
Definition names (domains : list bytes) (host k : bytes) : Prop :=
  k = host
  \/ match domains with
     | [] => exists rest, host = k ++ "."%char :: rest /\ "."%char ∉ k
     | _ => exists d, d ∈ domains /\ host = k ++ dotted d
     end.

Lemma find_in_domains_spec ds host :
  match find_in_domains (map dotted ds) host with
  | Some r => exists k d, d ∈ ds /\ host = k ++ dotted d /\ pool !! k = Some r
  | None => forall k d, d ∈ ds -> host = k ++ dotted d -> pool !! k = None
  end.
Proof.
  induction ds as [|d ds IH]; cbn [map find_in_domains]; [by intros k d ?%elem_of_nil|].
  destruct (CutSuffix host (dotted d)) as [t|] eqn:Ec.
  - apply CutSuffix_Some in Ec. cbn [mbind option_bind]. destruct (pool !! t) as [r|] eqn:Ep.
    + exists t, d. split; [apply elem_of_cons; by left|done].
    + destruct (find_in_domains (map dotted ds) host) as [r|].
      * destruct IH as (k & d' & Hd & Hk & Hp). exists k, d'. split; [apply elem_of_cons; by right|done].
      * intros k d' Hd Hk. apply elem_of_cons in Hd as [->|Hd]; [|by apply (IH k d')].
        rewrite Ec in Hk. apply app_inv_tail in Hk. congruence.
  - cbn [mbind option_bind]. destruct (find_in_domains (map dotted ds) host) as [r|].
    + destruct IH as (k & d' & Hd & Hk & Hp). exists k, d'. split; [apply elem_of_cons; by right|done].
    + intros k d' Hd Hk. apply elem_of_cons in Hd as [->|Hd]; [|by apply (IH k d')].
      apply CutSuffix_Some in Hk. congruence.
Qed.

Lemma first_label (host k : bytes) i :
  IndexByte host "." = Some i -> (exists rest, host = k ++ "."%char :: rest /\ "."%char ∉ k) <-> k = take i host.
Proof.
  intros Hi. split.
  - intros (rest & -> & Hk). rewrite IndexByte_first in Hi by done. injection Hi as <-. by rewrite take_app_length.
  - intros ->. apply IndexByte_Some in Hi as [Eh Hn]. by eexists.
Qed.

(** C9: The entrypoint finds a route exactly when the pool lists one under a
    key the host names: the part before a configured domain, or without
    domains the first label, or the whole host; a name before a domain wins
    over the whole host. *)
Theorem find_route_correct domains host :
  match SetFindRouteDomains domains host with
  | Some r => exists k, names domains host k /\ pool !! k = Some r
                /\ (k = host -> forall k', names domains host k' -> k' <> host -> pool !! k' = None)
  | None => forall k, names domains host k -> pool !! k = None
  end.
Proof.
  unfold SetFindRouteDomains, names. destruct domains as [|d0 ds0].
  - unfold findRouteAnyDomain. destruct (IndexByte host ".") as [i|] eqn:Ei.
    + pose proof (fun k => first_label host k i Ei) as Hlab.
      destruct (pool !! take i host) as [r|] eqn:Ep.
      { exists (take i host). split; [right; by apply Hlab|]. split; [done|]. intros Heq k' [?|Hk'] Hne; [done|].
        apply Hlab in Hk'. congruence. }
      destruct (pool !! host) as [r|] eqn:Eh.
      * exists host. split; [by left|]. split; [done|]. intros _ k' [?|Hk'] Hne; [done|].
        apply Hlab in Hk' as ->. done.
      * intros k [->|Hk]; [done|]. by apply Hlab in Hk as ->.
    + apply IndexByte_None in Ei.
      assert (forall k, ~ exists rest, host = k ++ "."%char :: rest /\ "."%char ∉ k) as Hno.
      { intros k (rest & -> & _). apply Ei, elem_of_app. right. apply elem_of_cons. by left. }
      destruct (pool !! host) as [r|] eqn:Eh.
      * exists host. split; [by left|]. split; [done|]. intros _ k' [?|Hk'] Hne; [done|]. by apply Hno in Hk'.
      * intros k [->|Hk]; [done|]. by apply Hno in Hk.
  - unfold findRouteByDomains. pose proof (find_in_domains_spec (d0 :: ds0) host) as Hspec.
    destruct (find_in_domains (map dotted (d0 :: ds0)) host) as [r|].
    + destruct Hspec as (k & d & Hd & Hk & Hp). exists k. split; [right; by exists d|]. split; [done|].
      intros ->. exfalso. apply (f_equal length) in Hk. rewrite length_app in Hk.
      assert (length (dotted d) <> 0%nat); [|lia]. unfold dotted, HasPrefix.
      destruct d; cbn; [done|]. by case_bool_decide.
    + destruct (pool !! host) as [r|] eqn:Eh.
      * exists host. split; [by left|]. split; [done|]. intros _ k' [?|(d & Hd & Hk')] Hne; [done|].
        by apply (Hspec k' d).
      * intros k [->|(d & Hd & Hk)]; [done|]. by apply (Hspec k d).
Qed.

(** With domains a host that carries a port names no route: the port is part of
    what is compared. *)
Lemma domain_lookup_with_port domains h port :
  domains <> [] -> Forall (fun d => ":"%char ∉ d) domains -> "."%char ∉ port ->
  (forall k, is_Some (pool !! k) -> ":"%char ∉ k) ->
  SetFindRouteDomains domains (h ++ ":"%char :: port) = None.
Proof.
  intros Hne Hd Hp Hpool. unfold SetFindRouteDomains. destruct domains as [|d0 ds0]; [done|].
  unfold findRouteByDomains. pose proof (find_in_domains_spec (d0 :: ds0) (h ++ ":"%char :: port)) as Hspec.
  assert (pool !! (h ++ ":"%char :: port) = None) as ->.
  { destruct (pool !! (h ++ ":"%char :: port)) eqn:E; [|done]. exfalso. apply (Hpool (h ++ ":"%char :: port)).
    - rewrite E. by eexists.
    - apply elem_of_app. right. apply elem_of_cons. by left. }
  destruct (find_in_domains (map dotted (d0 :: ds0)) (h ++ ":"%char :: port)) as [r|]; [|done].
  exfalso. destruct Hspec as (k & d & Hin & Hk & _). rewrite Forall_forall in Hd. specialize (Hd d Hin).
  assert (exists d', dotted d = "."%char :: d' /\ ":"%char ∉ d') as (d' & Hdot & Hn).
  { unfold dotted, HasPrefix. destruct d as [|x d]; [by exists []; split; [|apply not_elem_of_nil]|].
    cbn. case_bool_decide as E.
    - injection E as ->. exists d. split; [done|]. by apply not_elem_of_cons in Hd as [_ Hd].
    - by exists (x :: d). }
  rewrite Hdot in Hk. apply app_eq_inv in Hk as [(l & _ & Hk)|(l & _ & Hk)].
  - destruct l as [|y l]; [discriminate Hk|]. injection Hk as _ Hk. apply Hn. rewrite Hk.
    apply elem_of_app. right. apply elem_of_cons. by left.
  - destruct l as [|y l]; [discriminate Hk|]. injection Hk as _ Hk. apply Hp. rewrite Hk.
    apply elem_of_app. right. apply elem_of_cons. by left.
Qed.

End lookup.

(** ** Registration of HTTP routes *)

Section registration.
Context {RuleT : Type}.
Abbreviation Route := (Route RuleT).
(** The store of route objects. *)
Variable info : nat -> Route.

(** What the pool lists: a reverse proxy or file server, or the route of a load
    balancer. *)
Inductive http_entry :=
  | EntryRoute (id : nat) (file_server : bool)
  | EntryBalancer (link : bytes) (lb : nat).

(** The route made for a balancer has an alias and the homepage of its first
    member. *)
Definition balancer_route (link : bytes) (first : Route) : Route :=
  {| rt_Alias := link; rt_Scheme := SchemeNone; rt_Host := []; rt_Port := {| Listening := 0; Proxy := 0 |};
     rt_Root := []; rt_Rules := []; rt_RuleFile := []; rt_HealthCheck := None; rt_LoadBalanceLink := None;
     rt_Homepage := rt_Homepage first; rt_Agent := []; rt_Idlewatcher := None; rt_Container := None; rt_Provider := [];
     rt_LisURL := None; rt_ProxyURL := None; rt_Excluded := false; rt_ExcludedReason := ExcludedReasonNone;
     rt_impl := false; rt_valErr := None; rt_agent := false |}.

(** [rg_lbs]: the servers of each balancer; [rg_owner]: the routes whose end
    removes the route of a balancer; [rg_member]: the balancer of a route. *)
Record registry := {
  rg_http : gmap bytes http_entry;
  rg_first : gmap nat Route;
  rg_lbs : gmap nat (list nat);
  rg_next : nat;
  rg_owner : gmap nat bytes;
  rg_member : gmap nat nat
}.

Definition entry_route (st : registry) (e : http_entry) : Route :=
  match e with
  | EntryRoute id _ => info id
  | EntryBalancer link lb => balancer_route link (default (info 0%nat) (rg_first st !! lb))
  end.

Definition entry_PreferOver (st : registry) (new old : http_entry) : bool :=
  PreferOver (entry_route st new) (entry_route st old).

Definition set_http (st : registry) (p : gmap bytes http_entry) : registry :=
  {| rg_http := p; rg_first := rg_first st; rg_lbs := rg_lbs st; rg_next := rg_next st; rg_owner := rg_owner st;
     rg_member := rg_member st |}.

(** [lb.AddServer] and the callback that removes the server. *)
Definition join_balancer (st : registry) (id lb : nat) : registry :=
  {| rg_http := rg_http st; rg_first := rg_first st; rg_lbs := <[lb := default [] (rg_lbs st !! lb) ++ [id]]> (rg_lbs st);
     rg_next := rg_next st; rg_owner := rg_owner st; rg_member := <[id := lb]> (rg_member st) |}.

Definition new_balancer (st : registry) (id : nat) (link : bytes) : registry :=
  let lb := rg_next st in
  let st' := {| rg_http := rg_http st; rg_first := <[lb := info id]> (rg_first st); rg_lbs := <[lb := []]> (rg_lbs st);
                rg_next := S lb; rg_owner := <[id := link]> (rg_owner st); rg_member := rg_member st |} in
  set_http st' (AddKey (entry_PreferOver st') (rg_http st') link (EntryBalancer link lb)).

(** The listed route must be that of a balancer: another kind of route fails
    the type assertion, a plain reverse proxy has no balancer. *)
Definition addToLoadBalancer (st : registry) (id : nat) : result Empty_set registry :=
  let link := default [] (rt_LoadBalanceLink (info id)) in
  match rg_http st !! link with
  | Some (EntryBalancer _ lb) => Ok (join_balancer st id lb)
  | Some (EntryRoute _ true) => Panic InterfaceConversion
  | Some (EntryRoute _ false) => Panic NilDereference
  | None => Ok (join_balancer (new_balancer st id link) id (rg_next st))
  end.

(** The end of [Start] of a reverse proxy or file server. *)
Definition register (st : registry) (id : nat) (file_server : bool) : result Empty_set registry :=
  let r := info id in
  if ShouldExclude r then Ok st
  else if UseLoadBalance r && negb file_server then addToLoadBalancer st id
  else
    key ← Route_Key r;
    Ok (set_http st (AddKey (entry_PreferOver st) (rg_http st) key (EntryRoute id file_server))).

(** The callbacks of the end of a route. *)
Definition unregister (st : registry) (id : nat) (file_server : bool) : result Empty_set registry :=
  let r := info id in
  if ShouldExclude r then Ok st
  else if UseLoadBalance r && negb file_server then
    let st' := {| rg_http := rg_http st; rg_first := rg_first st;
                  rg_lbs := match rg_member st !! id with
                            | Some lb => alter (filter (fun x => x <> id)) lb (rg_lbs st)
                            | None => rg_lbs st
                            end;
                  rg_next := rg_next st; rg_owner := delete id (rg_owner st); rg_member := delete id (rg_member st) |} in
    Ok (match rg_owner st !! id with
        | Some link => set_http st' (DelKey (rg_http st') link)
        | None => st'
        end)
  else
    key ← Route_Key r;
    Ok (set_http st (delete key (rg_http st))).

Definition empty_registry : registry :=
  {| rg_http := ∅; rg_first := ∅; rg_lbs := ∅; rg_next := 0; rg_owner := ∅; rg_member := ∅ |}.

Definition balanced (link : bytes) (id : nat) : Prop :=
  rt_LoadBalanceLink (info id) = Some link /\ link <> [] /\ ShouldExclude (info id) = false.

Lemma register_balanced st link id :
  balanced link id -> register st id false = addToLoadBalancer st id.
Proof.
  intros (Hl & Hne & Hx). unfold register, UseLoadBalance. rewrite Hx, Hl. by destruct link.
Qed.

Definition register_all (st : registry) (ids : list nat) : result Empty_set registry :=
  foldM (fun st id => register st id false) st ids.

Lemma join_all st link lb ids l :
  Forall (balanced link) ids -> rg_http st !! link = Some (EntryBalancer link lb) -> rg_lbs st !! lb = Some l ->
  exists st', register_all st ids = Ok st' /\ rg_http st' = rg_http st /\ rg_lbs st' !! lb = Some (l ++ ids)
    /\ rg_owner st' = rg_owner st /\ (forall id, rg_member st' !! id = if decide (id ∈ ids) then Some lb else rg_member st !! id).
Proof.
  revert st l; induction ids as [|id ids IH]; intros st l Hb Hh Hl.
  { exists st. cbn. rewrite app_nil_r. by split_and!. }
  apply Forall_cons in Hb as [Hid Hb]. unfold register_all. cbn [foldM].
  rewrite (register_balanced st link id Hid). unfold addToLoadBalancer. destruct Hid as (Hlink & Hne & _).
  rewrite Hlink. change (default [] (Some link)) with link. rewrite Hh. cbn [mbind result_bind].
  destruct (IH (join_balancer st id lb) (l ++ [id])) as (st' & E & H1 & H2 & H3 & H4); [done|done| |].
  { cbn. by rewrite lookup_insert_eq, Hl. }
  exists st'. split; [exact E|]. split; [done|]. rewrite <- app_assoc in H2. split; [done|]. split; [done|].
  intros x. rewrite H4. cbn [rg_member join_balancer]. destruct (decide (x ∈ ids)) as [Hin|Hin].
  - rewrite decide_True by (apply elem_of_cons; by right). done.
  - destruct (decide (id = x)) as [->|Hx].
    + rewrite lookup_insert_eq, decide_True by (apply elem_of_cons; by left). done.
    + rewrite lookup_insert_ne by done. rewrite decide_False; [done|]. rewrite elem_of_cons. intros [?|?]; congruence.
Qed.

(** Routes that name the same link share one balancer: whatever their
    number, the pool lists one route under the link, and its balancer has all
    of them as servers, in the order they started. *)
Theorem balancer_has_all st link id ids :
  Forall (balanced link) (id :: ids) -> rg_http st !! link = None ->
  exists st', register_all st (id :: ids) = Ok st'
    /\ rg_http st' !! link = Some (EntryBalancer link (rg_next st))
    /\ rg_lbs st' !! rg_next st = Some (id :: ids)
    /\ (forall k, k <> link -> rg_http st' !! k = rg_http st !! k).
Proof.
  intros Hb Hh. apply Forall_cons in Hb as [Hid Hb]. unfold register_all. cbn [foldM].
  rewrite (register_balanced st link id Hid). unfold addToLoadBalancer. destruct Hid as (Hlink & Hne & _).
  rewrite Hlink. change (default [] (Some link)) with link. rewrite Hh. cbn [mbind result_bind].
  set (st1 := join_balancer (new_balancer st id link) id (rg_next st)).
  assert (rg_http st1 = <[link := EntryBalancer link (rg_next st)]> (rg_http st)) as Hst1.
  { unfold st1. cbn. unfold AddKey. by rewrite Hh. }
  destruct (join_all st1 link (rg_next st) ids [id]) as (st' & E & H1 & H2 & _); [done| | |].
  { rewrite Hst1. by rewrite lookup_insert_eq. }
  { unfold st1. cbn. by rewrite !lookup_insert_eq. }
  exists st'. split; [exact E|]. rewrite H1, Hst1. split; [by rewrite lookup_insert_eq|]. split; [done|].
  intros k Hk. by rewrite lookup_insert_ne.
Qed.

(** When the route that made the balancer ends, the route of the balancer
    goes with it, although the other members still run and are still its
    servers. *)
Theorem balancer_lost st link id ids st1 :
  Forall (balanced link) (id :: ids) -> id ∉ ids -> rg_http st !! link = None ->
  register_all st (id :: ids) = Ok st1 ->
  exists st2, unregister st1 id false = Ok st2
    /\ rg_http st2 !! link = None /\ rg_lbs st2 !! rg_next st = Some ids.
Proof.
  intros Hb Hni Hh Hreg. apply Forall_cons in Hb as [Hid Hb]. unfold register_all in Hreg. cbn [foldM] in Hreg.
  rewrite (register_balanced st link id Hid) in Hreg. unfold addToLoadBalancer in Hreg.
  pose proof Hid as (Hlink & Hne & Hx).
  rewrite Hlink in Hreg. change (default [] (Some link)) with link in Hreg. rewrite Hh in Hreg. cbn [mbind result_bind] in Hreg.
  set (st0 := join_balancer (new_balancer st id link) id (rg_next st)) in Hreg.
  destruct (join_all st0 link (rg_next st) ids [id]) as (st' & E & H1 & H2 & H3 & H4); [done| | |].
  { unfold st0. cbn. unfold AddKey. rewrite Hh. by rewrite lookup_insert_eq. }
  { unfold st0. cbn. by rewrite !lookup_insert_eq. }
  unfold register_all in E. rewrite E in Hreg. injection Hreg as <-.
  unfold unregister, UseLoadBalance. rewrite Hx, Hlink. destruct link as [|x link]; [done|]. cbn [andb negb].
  assert (rg_owner st' !! id = Some (x :: link)) as -> by (rewrite H3; unfold st0; cbn; by rewrite lookup_insert_eq).
  assert (rg_member st' !! id = Some (rg_next st)) as ->.
  { rewrite H4, decide_False by done. unfold st0. cbn. by rewrite lookup_insert_eq. }
  eexists. split; [reflexivity|]. cbn. unfold DelKey. split; [by rewrite lookup_delete_eq|].
  rewrite lookup_alter_eq, H2. cbn. f_equal. rewrite decide_False by (intros Hf; by apply Hf).
  clear - Hni. induction ids as [|y ids IH]; [done|]. apply not_elem_of_cons in Hni as [Hy Hni].
  cbn. rewrite decide_True by congruence. f_equal. by apply IH.
Qed.

End registration.

(** ** Witnesses *)

Definition demo_rule_route : Route unit :=
  let r := demo_route "app" "10.0.0.2" 80 in set_rules r [tt].

Lemma pool_keeps_best_witness :
  exists r r', add_same PreferOver (B "app") ∅ [demo_rule_route; demo_route "app" "h" 80] !! B "app" = Some r
    /\ add_same PreferOver (B "app") ∅ [demo_route "app" "h" 80; demo_rule_route] !! B "app" = Some r'
    /\ rank r' = rank r.
Proof.
  destruct (pool_keeps_best (B "app") ∅ [demo_rule_route; demo_route "app" "h" 80]
              [demo_route "app" "h" 80; demo_rule_route]) as (r & r' & H1 & H2 & _ & _ & H3);
    [reflexivity|discriminate|apply Permutation_swap|].
  exists r, r'. split; [exact H1|]. split; [exact H2|exact H3].
Defined.

(** Three routes of one balancer. *)
Definition demo_balanced (id : nat) : Route unit :=
  let r := demo_route "app" "10.0.0.2" 80 in
  {| rt_Alias := rt_Alias r; rt_Scheme := rt_Scheme r; rt_Host := rt_Host r; rt_Port := rt_Port r; rt_Root := rt_Root r;
     rt_Rules := []; rt_RuleFile := []; rt_HealthCheck := None; rt_LoadBalanceLink := Some (B "web");
     rt_Homepage := None; rt_Agent := []; rt_Idlewatcher := None; rt_Container := None; rt_Provider := "file";
     rt_LisURL := None; rt_ProxyURL := None; rt_Excluded := false; rt_ExcludedReason := ExcludedReasonNone;
     rt_impl := true; rt_valErr := None; rt_agent := false |}.

Lemma demo_all_balanced ids : Forall (balanced demo_balanced (B "web")) ids.
Proof. apply Forall_forall. intros id _. by split_and!. Qed.

Lemma balancer_has_all_witness :
  exists st', register_all demo_balanced empty_registry [1; 2; 3]%nat = Ok st'
    /\ rg_lbs st' !! 0%nat = Some [1; 2; 3]%nat.
Proof.
  destruct (balancer_has_all demo_balanced empty_registry (B "web") 1 [2; 3]%nat) as (st' & E & _ & H & _);
    [apply demo_all_balanced|reflexivity|]. exists st'. split; [exact E|exact H].
Defined.

Lemma balancer_lost_witness :
  exists st1 st2, register_all demo_balanced empty_registry [1; 2; 3]%nat = Ok st1
    /\ unregister demo_balanced st1 1 false = Ok st2
    /\ rg_http st2 !! B "web" = None /\ rg_lbs st2 !! 0%nat = Some [2; 3]%nat.
Proof.
  destruct (register_all demo_balanced empty_registry [1; 2; 3]%nat) as [st1|e|p] eqn:E;
    [|destruct e|exfalso; vm_compute in E; discriminate E].
  destruct (balancer_lost demo_balanced empty_registry (B "web") 1 [2; 3]%nat st1) as (st2 & H1 & H2 & H3);
    [apply demo_all_balanced|decide_closed|reflexivity|exact E|].
  exists st1, st2. split; [reflexivity|]. split; [exact H1|]. split; [exact H2|exact H3].
Defined.

(** The name before the domain, and a host with a port. *)
Example lookup_demo :
  let pool : gmap bytes nat := list_to_map [(B "app", 1%nat); (B "app.example.com", 2%nat)] in
  SetFindRouteDomains pool [B "example.com"] (B "app.example.com") = Some 1%nat
  /\ SetFindRouteDomains pool [B "example.org"] (B "app.example.com") = Some 2%nat
  /\ SetFindRouteDomains pool [B "example.com"] (B "app.example.com:8443") = None
  /\ SetFindRouteDomains pool [] (B "app.example.com:8443") = Some 1%nat.
Proof. split_and!; decide_closed. Qed.
