(* ===== verification/MiddlewareVars.v ===== *)
(** * Middlewares: header modification and its variables

    Models internal/net/gphttp/middleware/vars.go, modify_request.go and
    modify_response.go: the four substitution passes of [varReplace], the
    two header loops with their deferred assignments of [req.Host], and the
    path prefix.

    A Go map is ranged over in an unspecified order.  The maps of the options
    are lists of entries in the order of one execution; the order in which
    [varReplace] ranges over the query is the field [range_query] of
    [MwLib]. *)

From S2P Require Import Prelude GoStrings NetAddr RulesHTTP.

(** ** Library interface *)

(** [EqualFold_unicode] is [strings.EqualFold] on strings that are not both
    ASCII; the constants come from goutils/http/httpheaders. *)
Class MwLib := {
  EqualFold_unicode : bytes -> bytes -> bool;
  range_query : Values -> list (bytes * list bytes);
  HeaderXRealIP : bytes;
  HeaderXForwardedFor : bytes
}.

(** Ranging over a map visits every entry once. *)
Class MwLibLaws `{MwLib} := {
  range_query_perm q : Permutation (range_query q) (map_to_list q)
}.

(** ** Standard library *)

(** The bytes of a header field name (RFC 7230 tokens). *)
Definition validHeaderFieldByte (c : ascii) : bool :=
  is_upper c || is_lower c || is_digit c || bool_decide (c ∈ B "!#$%&'*+-.^_`|~").

Fixpoint canonical_bytes (upper : bool) (s : bytes) : bytes :=
  match s with
  | [] => []
  | c :: s' =>
      (if upper then upper_byte c else lower_byte c) :: canonical_bytes (Ascii.eqb c "-") s'
  end.

(** [http.CanonicalHeaderKey]. *)
Definition CanonicalHeaderKey (s : bytes) : bytes :=
  if forallb validHeaderFieldByte s then canonical_bytes true s else s.

(** [Header.Get], [Values], [Set] and [Del] with any key. *)
Definition Header_Values (h : Values) (k : bytes) : list bytes := values_at h (CanonicalHeaderKey k).
Definition Header_Get (h : Values) (k : bytes) : bytes := hget h (CanonicalHeaderKey k).
Definition Header_Set (h : Values) (k v : bytes) : Values := hset h (CanonicalHeaderKey k) v.
Definition Header_Del (h : Values) (k : bytes) : Values := delete (CanonicalHeaderKey k) h.

(** [filepath.Join] of two elements, with the separator '/'. *)
Definition filepath_Join (a b : bytes) : bytes :=
  match a, b with
  | [], [] => []
  | [], _ => Clean b
  | _, [] => Clean a
  | _, _ => Clean (a ++ "/"%char :: b)
  end.

(** ** Responses *)

(** [http.Response] as the modifiers use it; [rs_replaced] says that [Body]
    is no longer the reader the response came with. *)
Record Response := {
  rs_StatusCode : Z;
  rs_Header : Values;
  rs_ContentLength : Z;
  rs_Body : bytes;
  rs_replaced : bool
}.

Definition set_rs_Header (h : Values) (r : Response) : Response :=
  {| rs_StatusCode := rs_StatusCode r; rs_Header := h; rs_ContentLength := rs_ContentLength r;
     rs_Body := rs_Body r; rs_replaced := rs_replaced r |}.

Definition set_Host (h : bytes) (r : Request) : Request :=
  {| r_Method := r_Method r; r_URL := r_URL r; r_Host := h; r_Header := r_Header r;
     r_RemoteAddr := r_RemoteAddr r; r_RequestURI := r_RequestURI r;
     r_ContentLength := r_ContentLength r; r_TLS := r_TLS r; r_Body := r_Body r;
     r_forms := r_forms r; r_route := r_route r |}.

Definition set_RemoteAddr (a : bytes) (r : Request) : Request :=
  {| r_Method := r_Method r; r_URL := r_URL r; r_Host := r_Host r; r_Header := r_Header r;
     r_RemoteAddr := a; r_RequestURI := r_RequestURI r;
     r_ContentLength := r_ContentLength r; r_TLS := r_TLS r; r_Body := r_Body r;
     r_forms := r_forms r; r_route := r_route r |}.

(** ** vars.go *)

(** The character classes [\w] and [[\w-]]. *)
Definition is_word (c : ascii) : bool := is_upper c || is_lower c || is_digit c || Ascii.eqb c "_".
Definition is_word_dash (c : ascii) : bool := is_word c || Ascii.eqb c "-".

Fixpoint span {A} (p : A -> bool) (l : list A) : list A :=
  match l with
  | [] => []
  | x :: l' => if p x then x :: span p l' else []
  end.

(** [Regexp.ReplaceAllStringFunc]: [m] is the anchored match at a position,
    giving its length and the replacement. *)
Fixpoint replace_from (skip : nat) (m : bytes -> option (nat * bytes)) (s : bytes) : bytes :=
  match s with
  | [] => []
  | c :: s' =>
      match skip with
      | S k => replace_from k m s'
      | O =>
          match m s with
          | Some (n, r) => r ++ replace_from (n - 1) m s'
          | None => c :: replace_from 0 m s'
          end
      end
  end.

Abbreviation ReplaceAllStringFunc := (replace_from 0).

(** A match of [\$name\([\w-]+\)]: the text between the parentheses. *)
Definition match_call (name : bytes) (s : bytes) : option (nat * bytes) :=
  let prefix := "$"%char :: name ++ ["("%char] in
  if HasPrefix s prefix then
    let arg := span is_word_dash (drop (length prefix) s) in
    match arg, drop (length prefix + length arg) s with
    | _ :: _, c :: _ => if Ascii.eqb c ")" then Some (length prefix + length arg + 1, arg)%nat else None
    | _, _ => None
    end
  else None.

Definition reArg : bytes -> option (nat * bytes) := match_call "arg".
Definition reReqHeader : bytes -> option (nat * bytes) := match_call "header".
Definition reRespHeader : bytes -> option (nat * bytes) := match_call "resp_header".

(** A match of [\$[\w_]+]: the whole match. *)
Definition reStatic (s : bytes) : option (nat * bytes) :=
  match s with
  | c :: s' =>
      if Ascii.eqb c "$" then
        match span is_word s' with
        | [] => None
        | w => Some (S (length w), c :: w)
        end
      else None
  | [] => None
  end.

Definition replacing (m : bytes -> option (nat * bytes)) (f : bytes -> bytes) (s : bytes)
    : option (nat * bytes) :=
  '(n, x) ← m s; Some (n, f x).

Section Vars.

Context `{HL : HTTPLib} `{ML : MwLib}.

(** [strings.EqualFold]. *)
Definition EqualFold (s t : bytes) : bool :=
  if forallb is_ascii s && forallb is_ascii t
  then bool_decide (map lower_byte s = map lower_byte t)
  else EqualFold_unicode s t.

Definition staticReqVarSubsMap (name : bytes) : option (Request -> bytes) :=
  let eqs s := bool_decide (name = B s) in
  if eqs "$req_method" then Some r_Method
  else if eqs "$req_scheme" then Some (fun req => if r_TLS req then B "https" else B "http")
  else if eqs "$req_host" then
    Some (fun req => match SplitHostPort (r_Host req) with Some (h, _) => h | None => r_Host req end)
  else if eqs "$req_port" then
    Some (fun req => match SplitHostPort (r_Host req) with Some (_, p) => p | None => [] end)
  else if eqs "$req_addr" then Some r_Host
  else if eqs "$req_path" then Some (fun req => u_Path (r_URL req))
  else if eqs "$req_query" then Some (fun req => u_RawQuery (r_URL req))
  else if eqs "$req_url" then Some (fun req => url_String (r_URL req))
  else if eqs "$req_uri" then Some (fun req => url_RequestURI (r_URL req))
  else if eqs "$req_content_type" then Some (fun req => Header_Get (r_Header req) "Content-Type")
  else if eqs "$req_content_length" then Some (fun req => Itoa (r_ContentLength req))
  else if eqs "$remote_host" then
    Some (fun req => match SplitHostPort (r_RemoteAddr req) with Some (h, _) => h | None => [] end)
  else if eqs "$remote_port" then
    Some (fun req => match SplitHostPort (r_RemoteAddr req) with Some (_, p) => p | None => [] end)
  else if eqs "$remote_addr" then Some r_RemoteAddr
  else if eqs "$upstream_name" then Some TryGetUpstreamName
  else if eqs "$upstream_scheme" then Some TryGetUpstreamScheme
  else if eqs "$upstream_host" then Some TryGetUpstreamHost
  else if eqs "$upstream_port" then Some TryGetUpstreamPort
  else if eqs "$upstream_addr" then Some TryGetUpstreamAddr
  else if eqs "$upstream_url" then Some TryGetUpstreamURL
  else None.

Definition staticRespVarSubsMap (name : bytes) : option (Response -> bytes) :=
  let eqs s := bool_decide (name = B s) in
  if eqs "$resp_content_type" then Some (fun resp => Header_Get (rs_Header resp) "Content-Type")
  else if eqs "$resp_content_length" then Some (fun resp => Itoa (rs_ContentLength resp))
  else if eqs "$status_code" then Some (fun resp => Itoa (rs_StatusCode resp))
  else None.

(** The first ranged key equal to [name] up to case; [v[0]] of an entry
    without values panics in the source, and [URL.Query] builds none. *)
Definition query_value (q : Values) (name : bytes) : bytes :=
  match list_find (fun kv => EqualFold kv.1 name = true) (range_query q) with
  | Some (_, (_, v :: _)) => v
  | _ => []
  end.

Definition static_value {A} (table : bytes -> option (A -> bytes)) (a : A) (name : bytes) : bytes :=
  match table name with Some fn => fn a | None => name end.

Definition varReplace (req : option Request) (resp : option Response) (s : bytes) : bytes :=
  let s := match req with
    | None => s
    | Some r =>
        let s := ReplaceAllStringFunc
          (replacing reArg (query_value (url_Query (u_RawQuery (r_URL r))))) s in
        ReplaceAllStringFunc
          (replacing reReqHeader (fun k => Header_Get (r_Header r) (CanonicalHeaderKey k))) s
    end in
  let s := match resp with
    | None => s
    | Some p => ReplaceAllStringFunc
        (replacing reRespHeader (fun k => Header_Get (rs_Header p) (CanonicalHeaderKey k))) s
    end in
  let s := match req with
    | None => s
    | Some r => ReplaceAllStringFunc (replacing reStatic (static_value staticReqVarSubsMap r)) s
    end in
  match resp with
  | None => s
  | Some p => ReplaceAllStringFunc (replacing reStatic (static_value staticRespVarSubsMap p)) s
  end.

(** ** modify_request.go, modify_response.go *)

Record ModifyRequestOpts := {
  SetHeaders : list (bytes * bytes);
  AddHeaders : list (bytes * bytes);
  HideHeaders : list bytes;
  AddPrefix : bytes;
  needVarSubstitution : bool
}.

Definition checkVarSubstitution (mr : ModifyRequestOpts) : bool :=
  existsb (fun kv => bool_decide ("$"%char ∈ kv.2)) (SetHeaders mr ++ AddHeaders mr).

(** [finalize]. *)
Definition ModifyRequestOpts_finalize (mr : ModifyRequestOpts) : ModifyRequestOpts :=
  {| SetHeaders := SetHeaders mr; AddHeaders := AddHeaders mr; HideHeaders := HideHeaders mr;
     AddPrefix := AddPrefix mr;
     needVarSubstitution := if checkVarSubstitution mr then true else needVarSubstitution mr |}.

(** The request, and the response when there is one.  The headers under
    modification are those of the response if there is one: the map is
    shared, so a later substitution reads what an earlier one wrote. *)
Record message := { m_req : option Request; m_resp : option Response }.

Definition headers (m : message) : Values :=
  match m_resp m, m_req m with
  | Some p, _ => rs_Header p
  | None, Some r => r_Header r
  | None, None => ∅
  end.

Definition put_headers (h : Values) (m : message) : message :=
  match m_resp m with
  | Some p => {| m_req := m_req m; m_resp := Some (set_rs_Header h p) |}
  | None => {| m_req := set_Header h <$> m_req m; m_resp := None |}
  end.

Definition put_Host (v : bytes) (m : message) : message :=
  {| m_req := set_Host v <$> m_req m; m_resp := m_resp m |}.

(** The values the deferred functions assign to [req.Host], in the order of
    the [defer] statements. *)
Definition deferred_hosts (mr : ModifyRequestOpts) (m : message) : list bytes :=
  match m_req m with
  | None => []
  | Some _ => map snd (filter (fun kv => EqualFold kv.1 "host" = true) (SetHeaders mr))
  end.

(** The loop bodies, with [val] the value to write. *)
Definition set_step (val : message -> bytes -> bytes) (m : message) (kv : bytes * bytes) : message :=
  put_headers (hset (headers m) kv.1 (val m kv.2)) m.

Definition add_step (val : message -> bytes -> bytes) (m : message) (kv : bytes * bytes) : message :=
  put_headers (hadd (headers m) kv.1 (val m kv.2)) m.

Definition hide_step (m : message) (k : bytes) : message := put_headers (delete k (headers m)) m.

Definition host_step (val : message -> bytes -> bytes) (m : message) (v : bytes) : message :=
  put_Host (val m v) m.

(** The loops; deferred calls run last in, first out. *)
Definition modify_loops (val : message -> bytes -> bytes) (mr : ModifyRequestOpts) (m : message) : message :=
  let m' := fold_left (set_step val) (SetHeaders mr) m in
  let m' := fold_left (add_step val) (AddHeaders mr) m' in
  let m' := fold_left hide_step (HideHeaders mr) m' in
  fold_left (host_step val) (rev (deferred_hosts mr m)) m'.

Definition modifyHeaders : ModifyRequestOpts -> message -> message := modify_loops (fun _ v => v).

Definition modifyHeadersWithVarSubstitution : ModifyRequestOpts -> message -> message :=
  modify_loops (fun m v => varReplace (m_req m) (m_resp m) v).

Definition modify_headers_of (mr : ModifyRequestOpts) : message -> message :=
  if needVarSubstitution mr then modifyHeadersWithVarSubstitution mr else modifyHeaders mr.

Definition addPrefix (mr : ModifyRequestOpts) (r : Request) : Request :=
  set_URL (set_Path (filepath_Join (AddPrefix mr) (u_Path (r_URL r))) (r_URL r)) r.

(** [modifyRequest.before]. *)
Definition modifyRequest_before (mr : ModifyRequestOpts) (r : Request) : Request :=
  let r := match AddPrefix mr with [] => r | _ => addPrefix mr r end in
  default r (m_req (modify_headers_of mr {| m_req := Some r; m_resp := None |})).

(** [modifyResponse.modifyResponse]. *)
Definition modifyResponse_modify (mr : ModifyRequestOpts) (r : Request) (p : Response) : Request * Response :=
  let m := modify_headers_of mr {| m_req := Some r; m_resp := Some p |} in
  (default r (m_req m), default p (m_resp m)).

End Vars.

(** ** Lemmas: substitution *)

Lemma fold_left_ext_in {S X} (f g : S -> X -> S) l : forall s,
  (forall s x, x ∈ l -> f s x = g s x) -> fold_left f l s = fold_left g l s.
Proof.
  induction l as [|x l IH]; intros s Hfg; simpl; [done|].
  rewrite Hfg by set_solver. apply IH. set_solver.
Qed.

Lemma replace_from_skip k m s : replace_from k m s = replace_from 0 m (drop k s).
Proof. revert k. induction s as [|c s IH]; intros [|k]; simpl; auto. Qed.

(** A pattern whose matches begin with a dollar sign. *)
Definition dollar_pattern (m : bytes -> option (nat * bytes)) : Prop :=
  forall c s, c <> "$"%char -> m (c :: s) = None.

Lemma match_call_dollar name : dollar_pattern (match_call name).
Proof.
  intros c s Hc. unfold match_call, HasPrefix. simpl.
  rewrite bool_decide_eq_false_2; [done|]. congruence.
Qed.

Lemma reStatic_dollar : dollar_pattern reStatic.
Proof. intros c s Hc. simpl. destruct (Ascii.eqb_spec c "$"); done. Qed.

Lemma replacing_dollar m f : dollar_pattern m -> dollar_pattern (replacing m f).
Proof. intros Hm c s Hc. unfold replacing. by rewrite Hm. Qed.

Lemma replace_no_dollar m s : dollar_pattern m -> "$"%char ∉ s -> ReplaceAllStringFunc m s = s.
Proof.
  intros Hm. induction s as [|c s IH]; intros Hs; simpl; [done|].
  rewrite Hm by set_solver. rewrite IH by set_solver. done.
Qed.

(** A match of the whole text. *)
Lemma replace_whole m s n r :
  m s = Some (n, r) -> (length s <= n)%nat -> s <> [] -> ReplaceAllStringFunc m s = r.
Proof.
  intros Hm Hn Hs. destruct s as [|c s]; [done|]. simpl in *. rewrite Hm, replace_from_skip.
  rewrite drop_ge by lia. simpl. by rewrite app_nil_r.
Qed.

#[export] Hint Resolve match_call_dollar reStatic_dollar replacing_dollar : godoxy.

Lemma span_app {A} (p : A -> bool) l c l' :
  forallb p l = true -> p c = false -> span p (l ++ c :: l') = l.
Proof.
  intros Hl Hc. induction l as [|x l IH]; simpl in *; [by rewrite Hc|].
  apply andb_true_iff in Hl as [-> Hl]. by rewrite IH.
Qed.

Lemma match_call_whole name arg :
  arg <> [] -> forallb is_word_dash arg = true ->
  match_call name ("$"%char :: name ++ "("%char :: arg ++ [")"%char])
    = Some (length ("$"%char :: name ++ "("%char :: arg ++ [")"%char]), arg).
Proof.
  intros Hne Harg. set (prefix := "$"%char :: name ++ ["("%char]).
  assert (E : "$"%char :: name ++ "("%char :: arg ++ [")"%char] = prefix ++ arg ++ [")"%char]).
  { unfold prefix. simpl. by rewrite <- app_assoc. }
  rewrite E. unfold match_call. fold prefix. unfold HasPrefix.
  rewrite (take_app_exact prefix) by done. rewrite bool_decide_eq_true_2 by done.
  rewrite (drop_app_exact prefix) by done. rewrite span_app by done.
  destruct arg as [|a arg]; [done|]. clearbody prefix.
  rewrite <- drop_drop, (drop_app_exact prefix), (drop_app_exact (a :: arg)) by done.
  simpl. f_equal. f_equal. rewrite !length_app. simpl. rewrite length_app. simpl. lia.
Qed.

Section VarLemmas.

Context `{HL : HTTPLib} `{ML : MwLib}.

Lemma varReplace_no_dollar q p s : "$"%char ∉ s -> varReplace q p s = s.
Proof.
  intros Hs. unfold varReplace.
  destruct q, p; rewrite ?(replace_no_dollar _ s) by (unfold reArg, reReqHeader, reRespHeader; auto with godoxy);
    done.
Qed.

Lemma static_name_matches name get :
  staticReqVarSubsMap name = Some get -> reStatic name = Some (length name, name) /\ name <> [].
Proof.
  unfold staticReqVarSubsMap.
  repeat (case_bool_decide as Hn; [intros _; rewrite Hn; vm_compute; done|clear Hn]). done.
Qed.

(** ** Lemmas: the header loops *)

Lemma modify_loops_ext val val' mr m :
  (forall m v, v ∈ map snd (SetHeaders mr ++ AddHeaders mr) -> val m v = val' m v) ->
  modify_loops val mr m = modify_loops val' mr m.
Proof.
  intros Hv.
  assert (Hin : forall l kv, l = SetHeaders mr \/ l = AddHeaders mr -> kv ∈ l ->
    kv.2 ∈ map snd (SetHeaders mr ++ AddHeaders mr)).
  { intros l kv Hl Hkv. apply list_elem_of_fmap. exists kv. set_solver. }
  unfold modify_loops.
  rewrite (fold_left_ext_in (set_step val) (set_step val')).
  2:{ intros s kv Hkv. unfold set_step. by rewrite Hv by eauto. }
  rewrite (fold_left_ext_in (add_step val) (add_step val')).
  2:{ intros s kv Hkv. unfold add_step. by rewrite Hv by eauto. }
  apply fold_left_ext_in. intros s v Hd. unfold host_step. rewrite Hv; [done|].
  apply list_elem_of_In, in_rev, list_elem_of_In in Hd. unfold deferred_hosts in Hd.
  destruct (m_req m); [|set_solver]. apply list_elem_of_fmap in Hd as (kv & -> & Hd).
  apply list_elem_of_filter in Hd as [_ Hd]. eauto.
Qed.

Lemma no_vars mr v :
  checkVarSubstitution mr = false -> v ∈ map snd (SetHeaders mr ++ AddHeaders mr) -> "$"%char ∉ v.
Proof.
  unfold checkVarSubstitution. intros Hc Hin Hd.
  apply list_elem_of_fmap in Hin as (kv & -> & Hin).
  assert (existsb (fun kv => bool_decide ("$"%char ∈ kv.2)) (SetHeaders mr ++ AddHeaders mr) = true) as He.
  { apply existsb_exists. exists kv. split; [by apply list_elem_of_In|]. by apply bool_decide_eq_true. }
  congruence.
Qed.

(** A message with a header map to modify. *)
Definition has_headers (m : message) : Prop := is_Some (m_req m) \/ is_Some (m_resp m).

Lemma headers_put h m : has_headers m -> headers (put_headers h m) = h /\ has_headers (put_headers h m).
Proof.
  unfold has_headers, headers, put_headers. destruct m as [[r|] [p|]]; simpl; intros Hm; split; eauto.
  all: destruct Hm as [[? Hm]|[? Hm]]; discriminate.
Qed.

Lemma headers_put_Host v m : headers (put_Host v m) = headers m.
Proof. by destruct m as [[r|] [p|]]. Qed.

Lemma headers_fold {X} (f : Values -> X -> Values) l : forall m, has_headers m ->
  headers (fold_left (fun m x => put_headers (f (headers m) x) m) l m) = fold_left f l (headers m)
  /\ has_headers (fold_left (fun m x => put_headers (f (headers m) x) m) l m).
Proof.
  induction l as [|x l IH]; intros m Hm; simpl; [done|].
  destruct (headers_put (f (headers m) x) m Hm) as [E Hm']. destruct (IH _ Hm') as [-> ?].
  by rewrite E.
Qed.

Lemma fold_host_headers val (vs : list bytes) : forall m,
  headers (fold_left (host_step val) vs m) = headers m.
Proof. induction vs as [|v vs IH]; intros m; simpl; [done|]. rewrite IH. apply headers_put_Host. Qed.

Lemma headers_modify mr m : has_headers m ->
  headers (modifyHeaders mr m)
  = fold_left (fun h k => delete k h) (HideHeaders mr)
      (fold_left (fun h kv => hadd h kv.1 kv.2) (AddHeaders mr)
         (fold_left (fun h kv => hset h kv.1 kv.2) (SetHeaders mr) (headers m))).
Proof.
  intros Hm. unfold modifyHeaders, modify_loops. rewrite fold_host_headers.
  pose proof (headers_fold (fun h (kv : bytes * bytes) => hset h kv.1 kv.2) (SetHeaders mr) m Hm) as [E1 H1].
  pose proof (headers_fold (fun h (kv : bytes * bytes) => hadd h kv.1 kv.2) (AddHeaders mr) _ H1) as [E2 H2].
  pose proof (headers_fold (fun h k => delete k h) (HideHeaders mr) _ H2) as [E3 _].
  rewrite E2, E1 in E3. exact E3.
Qed.

Lemma lookup_fold_set (l : list (bytes * bytes)) (h : Values) (k : bytes) : NoDup l.*1 ->
  fold_left (fun h (kv : bytes * bytes) => hset h kv.1 kv.2) l h !! k
  = match (list_to_map l : gmap bytes bytes) !! k with Some v => Some [v] | None => h !! k end.
Proof.
  revert h. induction l as [|[k' v] l IH]; intros h Hnd; simpl; [done|].
  apply NoDup_cons in Hnd as [Hk Hnd]. rewrite IH by done. unfold hset. simpl in *.
  destruct (decide (k = k')) as [->|Hne].
  - rewrite lookup_insert_eq. rewrite not_elem_of_list_to_map_1 by done. by rewrite lookup_insert_eq.
  - by rewrite !lookup_insert_ne by done.
Qed.

Lemma lookup_fold_add (l : list (bytes * bytes)) (h : Values) (k : bytes) : NoDup l.*1 ->
  fold_left (fun h (kv : bytes * bytes) => hadd h kv.1 kv.2) l h !! k
  = match (list_to_map l : gmap bytes bytes) !! k with Some v => Some (values_at h k ++ [v]) | None => h !! k end.
Proof.
  revert h. induction l as [|[k' v] l IH]; intros h Hnd; simpl; [done|].
  apply NoDup_cons in Hnd as [Hk Hnd]. rewrite IH by done. unfold hadd, values_at. simpl in *.
  destruct (decide (k = k')) as [->|Hne].
  - rewrite lookup_insert_eq. rewrite not_elem_of_list_to_map_1 by done. by rewrite lookup_insert_eq.
  - by rewrite !lookup_insert_ne by done.
Qed.

Lemma lookup_fold_delete (l : list bytes) (h : Values) (k : bytes) :
  fold_left (fun h k => delete k h) l h !! k = if bool_decide (k ∈ l) then None else h !! k.
Proof.
  revert h. induction l as [|k' l IH]; intros h; simpl; [done|].
  rewrite IH. destruct (decide (k = k')) as [->|Hne].
  - rewrite lookup_delete_eq. rewrite (bool_decide_eq_true_2 (k' ∈ k' :: l)) by set_solver. by case_bool_decide.
  - rewrite lookup_delete_ne by done. by rewrite (bool_decide_ext (k ∈ k' :: l) (k ∈ l)) by set_solver.
Qed.

Lemma lookup_fold_Del (l : list bytes) (h : Values) (k : bytes) :
  fold_left Header_Del l h !! k = if bool_decide (k ∈ map CanonicalHeaderKey l) then None else h !! k.
Proof.
  rewrite <- lookup_fold_delete. revert h. induction l as [|k' l IH]; intros h; [done|]. apply IH.
Qed.

End VarLemmas.

(** ** Properties *)

Section VarProperties.

Context `{HL : HTTPLib} `{ML : MwLib}.

(** skipping the substitution is only an optimisation: after [finalize] the
    middleware behaves, on every message, as the loops that substitute in
    every value. *)
Theorem finalize_equiv mr m :
  modify_headers_of (ModifyRequestOpts_finalize mr) m = modifyHeadersWithVarSubstitution mr m.
Proof.
  unfold modify_headers_of, ModifyRequestOpts_finalize. cbn [needVarSubstitution].
  destruct (checkVarSubstitution mr) eqn:Ec; [done|].
  destruct (needVarSubstitution mr); [done|].
  change (modifyHeaders mr m = modifyHeadersWithVarSubstitution mr m).
  symmetry. apply modify_loops_ext. intros m' v Hv. apply varReplace_no_dollar. eapply no_vars; eauto.
Qed.

(** Without variables the headers afterwards are exactly: nothing for a hidden
    key, otherwise the value of [set_headers] (or what was there) followed by
    that of [add_headers]; every other header is untouched.  In particular
    the order in which Go ranges over the two maps does not matter. *)
Theorem modifyHeaders_result mr m k :
  has_headers m -> NoDup (SetHeaders mr).*1 -> NoDup (AddHeaders mr).*1 ->
  headers (modifyHeaders mr m) !! k =
    if bool_decide (k ∈ HideHeaders mr) then None
    else
      let base := match (list_to_map (SetHeaders mr) : gmap bytes bytes) !! k with
                  | Some v => Some [v] | None => headers m !! k end in
      match (list_to_map (AddHeaders mr) : gmap bytes bytes) !! k with
      | Some v => Some (default [] base ++ [v])
      | None => base
      end.
Proof.
  intros Hm Hs Ha. rewrite headers_modify by done. rewrite lookup_fold_delete.
  case_bool_decide; [done|]. rewrite lookup_fold_add by done. unfold values_at.
  rewrite lookup_fold_set by done. done.
Qed.

Lemma no_dollar_word (k : bytes) : forallb is_word_dash k = true -> "$"%char ∉ k.
Proof.
  intros Hk Hin. apply forallb_Forall in Hk. rewrite Forall_forall in Hk. by specialize (Hk _ Hin).
Qed.

Lemma header_call_skips_arg f (k : bytes) : forallb is_word_dash k = true ->
  ReplaceAllStringFunc (replacing reArg f) (B "$header(" ++ k ++ [")"%char])
  = B "$header(" ++ k ++ [")"%char].
Proof.
  intros Hk. cbn -[replacing]. unfold replacing at 1. cbn [reArg match_call].
  unfold reArg at 1, match_call at 1, HasPrefix. simpl (bool_decide _). cbn [mbind option_bind].
  do 8 f_equal. apply (replace_no_dollar _ (k ++ [")"%char])).
  - unfold reArg. auto with godoxy.
  - pose proof (no_dollar_word _ Hk). set_solver.
Qed.

(** A client's header is substituted before the static variables are, so a
    value that is itself the name of a variable is expanded in turn: a request
    that carries [X: $upstream_url] makes [$header(X)] the upstream's URL. *)
Theorem header_value_reexpanded r (k name : bytes) get :
  k <> [] -> forallb is_word_dash k = true -> staticReqVarSubsMap name = Some get ->
  Header_Get (r_Header r) (CanonicalHeaderKey k) = name ->
  varReplace (Some r) None (B "$header(" ++ k ++ [")"%char]) = get r.
Proof.
  intros Hne Hk Hget Hval. unfold varReplace. rewrite header_call_skips_arg by done.
  rewrite (replace_whole (replacing reReqHeader _) _ (length (B "$header(" ++ k ++ [")"%char])) name).
  - destruct (static_name_matches _ _ Hget) as [Hm Hn].
    rewrite (replace_whole _ name (length name) (get r)); [done| |lia|done].
    unfold replacing. rewrite Hm. cbn [mbind option_bind]. unfold static_value. by rewrite Hget.
  - unfold replacing, reReqHeader. pose proof (match_call_whole "header" k Hne Hk) as Hw.
    cbn [app B String.list_ascii_of_string] in Hw |- *. rewrite Hw. cbn [mbind option_bind].
    by rewrite Hval.
  - lia.
  - done.
Qed.

End VarProperties.

(** ** Witnesses *)

(** A library for examples: ASCII names, queries ranged over in map order. *)
#[export] Instance plain_mw : MwLib := {|
  EqualFold_unicode s t := bool_decide (s = t);
  range_query := map_to_list;
  HeaderXRealIP := B "X-Real-IP";
  HeaderXForwardedFor := B "X-Forwarded-For"
|}.

#[export] Instance plain_mw_laws : MwLibLaws.
Proof. by constructor. Qed.
