(* ===== verification/Middleware.v ===== *)
(** * Middlewares: the request and response modifiers and their chains

    Models internal/net/gphttp/middleware: middleware.go ([ModifyRequest],
    [ModifyResponse], [ServeHTTP], [patchReverseProxy]), middleware_chain.go,
    bypass.go, rate_limit.go, cidr_whitelist.go, real_ip.go,
    cloudflare_real_ip.go, x_forwarded.go, redirect_http.go, forwardauth.go,
    custom_error_page.go (with errorpage/error_page.go), and
    internal/net/types/cidr.go.

    The state that outlives a request (caches, limiters, networks) is in a
    [store], by the number of the instance that owns it: an instance that is
    used by two routes shares it.  Handlers are one step each on the store;
    the clock, the answers of other servers and the route table are the
    [ext] of a request.  OIDC, HTML and captcha middlewares are the
    constructor [Other], with any behaviour. *)

From Stdlib Require Import Sorted.
From S2P Require Import Prelude GoStrings NetAddr RulesSplit RulesHTTP RulesOn RulesDo MiddlewareVars.

(** ** cidr.go *)

(** [CIDR.Parse]. *)
Definition CIDR_Parse (v : bytes) : option IPNet :=
  let v := if bool_decide ("/"%char ∈ v) then v else v ++ B "/32" in
  snd <$> ParseCIDR v.

(** [CIDR.Contains] of the nil address of a text that is not one. *)
Definition CIDR_Contains (n : IPNet) (ip : option IP) : bool := Contains n (default [] ip).

(** The address part of [RemoteAddr], or all of it. *)
Definition remote_host (addr : bytes) : bytes :=
  match SplitHostPort addr with Some (host, _) => host | None => addr end.

(** ** Library interface *)

(** x/time/rate, the constants of internal/common read from the environment,
    and the helpers of goutils/http. *)
Class MidLib := {
  Limiter : Type;
  rate_NewLimiter : Z -> Z -> Z -> Limiter;     (* average, period, burst *)
  Allow : Z -> Limiter -> bool * Limiter;       (* at a time *)
  ProxyHTTPSPort : Z;
  NewRequest_ok : bytes -> bool;                (* http.NewRequest on a URL *)
  CopyHeader : Values -> Values -> Values;
  RemoveHopByHopHeaders : Values -> Values;
  IsSuccess : Z -> bool;
  IsHTMLOrPlainText : Values -> bool            (* GetContentType of the header *)
}.

(** ** State *)

Section Middleware.

Context `{HL : HTTPLib} `{RL : RuleLib} `{DL : DoLib} `{ML : MwLib} `{MD : MidLib}.

Record store := {
  st_cachedAddr : gmap nat (gmap bytes bool);       (* cidrWhitelist *)
  st_requestMap : gmap nat (gmap bytes Limiter);    (* rateLimiter *)
  st_cf_From : gmap nat (list IPNet);               (* cloudflareRealIP.realIP.From *)
  st_cf_last : option Z;                            (* cfCIDRsLastUpdate, None when never set *)
  st_files : gmap bytes bytes                       (* errorpage.fileContentMap *)
}.

(** [resp.Location()] of the authentication server's answer. *)
Inductive location := NoLocation | BadLocation | Location (url : bytes).

Record AuthResponse := {
  ar_StatusCode : Z;
  ar_Header : Values;
  ar_Body : option bytes;           (* None: reading the body failed *)
  ar_Location : location
}.

(** What a handler reads of the outside: the clock at the first check, once
    the lock is taken and after a download, the answers of cloudflare.com and
    of the authentication server, and the routes. *)
Record ext := {
  x_now : Z;
  x_locked : Z;
  x_done : Z;
  x_cf : bytes -> option bytes;
  x_auth : bytes -> Values -> option AuthResponse;
  x_route : bytes -> option URL
}.

(** The [http.ResponseWriter] is the connection's, or a [ResponseModifier]. *)
Inductive rw := Raw | Modifier.

Record state := State { s_w : world; s_st : store }.

Definition with_w (f : world -> world) (s : state) : state := State (f (s_w s)) (s_st s).

Definition s_req (s : state) : Request := req (s_w s).

Definition map_req (f : Request -> Request) : state -> state := with_w (with_req f).

(** What a [ResponseModifier] collected, sent to a plain writer. *)
Definition emit (m : ResponseModifier) (o : writer) : writer :=
  if (rm_statusCode m =? 0) && bool_decide (rm_buf m = None) then o
  else let o := out_WriteHeader (StatusCode m) o in
       {| w_Header := w_Header o; w_sent := w_sent o; w_body := w_body o ++ Content m |}.

(** Code that writes its headers, then a status, then a body. *)
Definition on_writer (k : rw) (f : world -> world) (w : world) : world :=
  match k with
  | Modifier => f w
  | Raw =>
      let w' := f (World (req w) NewResponseModifier (out w) (fx w)) in
      World (req w') (rm w) (emit (rm w') (out w')) (fx w')
  end.

Definition respond_error (k : rw) (text : bytes) (code : Z) : state -> state :=
  with_w (on_writer k (http_Error text code)).

Definition respond_status (k : rw) (code : Z) : state -> state :=
  with_w (on_writer k (rm_WriteHeader code)).

(** ** Conditions on a plain writer *)

(** [GetInitResponseModifier] makes a new modifier, with an empty cache and
    status 200, at every use of a plain writer. *)
Fixpoint CheckRaw (c : Checker) (w : world) : result unit (bool * world) :=
  match c with
  | CheckFunc f =>
      '(b, w') ← f (World (req w) NewResponseModifier (out w) (fx w));
      Ok (b, World (req w') (rm w) (out w') (fx w'))
  | CheckMatchSingle l =>
      (fix any_of (l : list Checker) (w : world) : result unit (bool * world) :=
         match l with
         | [] => Ok (false, w)
         | c :: l' => '(b, w) ← CheckRaw c w; if b : bool then Ok (true, w) else any_of l' w
         end) l w
  | CheckMatchAll l =>
      (fix all_of (l : list Checker) (w : world) : result unit (bool * world) :=
         match l with
         | [] => Ok (true, w)
         | c :: l' => '(b, w) ← CheckRaw c w; if b : bool then all_of l' w else Ok (false, w)
         end) l w
  end.

Definition check_rule (k : rw) (on : RuleOn) (w : world) : result unit (bool * world) :=
  match k with
  | Modifier => RuleOn_Check on w
  | Raw => match on_checker on with None => Panic NilDereference | Some c => CheckRaw c w end
  end.

(** [Bypass.ShouldBypass]. *)
Fixpoint ShouldBypass (k : rw) (b : list RuleOn) (w : world) : result unit (bool * world) :=
  match b with
  | [] => Ok (false, w)
  | rule :: b' => '(m, w) ← check_rule k rule w; if m : bool then Ok (true, w) else ShouldBypass k b' w
  end.

(** ** Options of the middlewares *)

Record CIDRWhitelistOpts := { wl_Allow : list IPNet; wl_StatusCode : Z; wl_Message : bytes }.

Definition cidrWhitelistDefaults : CIDRWhitelistOpts :=
  {| wl_Allow := []; wl_StatusCode := 403; wl_Message := B "IP not allowed" |}.

Record RateLimiterOpts := { rl_Average : Z; rl_Burst : Z; rl_Period : Z }.

Definition rateLimiterOptsDefault : RateLimiterOpts :=
  {| rl_Average := 0; rl_Burst := 0; rl_Period := Second |}.

Record RealIPOpts := { ri_Header : bytes; ri_From : list IPNet; ri_Recursive : bool }.

Definition realIPOptsDefault : RealIPOpts :=
  {| ri_Header := B "X-Real-IP"; ri_From := []; ri_Recursive := false |}.

Record ForwardAuthMiddlewareOpts := {
  fa_Route : bytes; fa_AuthEndpoint : bytes; fa_AuthResponseHeaders : list bytes }.

Definition forwardAuth_setup : ForwardAuthMiddlewareOpts :=
  {| fa_Route := B "tinyauth"; fa_AuthEndpoint := B "/api/auth/traefik";
     fa_AuthResponseHeaders := [B "Remote-User"; B "Remote-Name"; B "Remote-Email"; B "Remote-Groups"] |}.

(** ** real_ip.go *)

Definition isInCIDRList (from : list IPNet) (ip : option IP) : bool :=
  existsb (fun c => CIDR_Contains c ip) from.

(** The last value that is not the address of a trusted proxy. *)
Definition lastNonTrusted (from : list IPNet) (ips : list bytes) : bytes :=
  fold_left (fun acc r => if isInCIDRList from (ParseIP r) then acc else r) ips [].

Definition realIP_values (ri : RealIPOpts) (h : Values) : list bytes :=
  match Header_Values h (ri_Header ri) with
  | [] => values_at h (ri_Header ri)      (* the key as written *)
  | vs => vs
  end.

Definition setRealIP (ri : RealIPOpts) (r : Request) : Request :=
  match realIP_values ri (r_Header r) with
  | [] => r
  | realIPs =>
      if negb (isInCIDRList (ri_From ri) (ParseIP (remote_host (r_RemoteAddr r)))) then r
      else
        match (if ri_Recursive ri then lastNonTrusted (ri_From ri) realIPs else List.last realIPs []) with
        | [] => r
        | ip => set_RemoteAddr ip
                  (set_Header (Header_Set (Header_Set (r_Header r) (ri_Header ri) ip) HeaderXRealIP ip) r)
        end
  end.

(** ** cloudflare_real_ip.go *)

Definition cfIPv4CIDRsEndpoint : bytes := "https://www.cloudflare.com/ips-v4".
Definition cfIPv6CIDRsEndpoint : bytes := "https://www.cloudflare.com/ips-v6".
Definition cfCIDRsUpdateInterval : Z := Hour.
Definition cfCIDRsUpdateRetryInterval : Z := 3 * Second.

(** [net.IPv4] gives the 16-byte form. *)
Definition localCIDRs : list IPNet :=
  [ {| net_IP := v4InV6Prefix ++ [127; 0; 0; 1]; net_Mask := [255; 255; 255; 255] |};
    {| net_IP := v4InV6Prefix ++ [10; 0; 0; 0]; net_Mask := [255; 0; 0; 0] |};
    {| net_IP := v4InV6Prefix ++ [172; 16; 0; 0]; net_Mask := [255; 240; 0; 0] |};
    {| net_IP := v4InV6Prefix ++ [192; 168; 0; 0]; net_Mask := [255; 255; 0; 0] |} ].

(** The lines of a download; [None] is an invalid one.  What was parsed before
    it stays appended, but both downloads are dropped then. *)
Fixpoint parse_cidr_lines (lines : list bytes) : option (list IPNet) :=
  match lines with
  | [] => Some []
  | l :: lines' =>
      match TrimSpace l with
      | [] => parse_cidr_lines lines'
      | t => c ← snd <$> ParseCIDR t; cs ← parse_cidr_lines lines'; Some (c :: cs)
      end
  end.

Definition fetchUpdateCFIPRange (x : ext) (endpoint : bytes) : option (list IPNet) :=
  body ← x_cf x endpoint; cs ← parse_cidr_lines (Split body (zbyte 10)); Some (cs ++ localCIDRs).

(** [time.Since(cfCIDRsLastUpdate.Load()) < cfCIDRsUpdateInterval]. *)
Definition cf_fresh (now : Z) (last : option Z) : bool :=
  match last with None => false | Some t => time_Sub now t <? cfCIDRsUpdateInterval end.

Definition set_cf_last (t : Z) (st : store) : store :=
  {| st_cachedAddr := st_cachedAddr st; st_requestMap := st_requestMap st;
     st_cf_From := st_cf_From st; st_cf_last := Some t; st_files := st_files st |}.

(** [tryFetchCFCIDR] outside tests; [None] is the nil slice. *)
Definition tryFetchCFCIDR (x : ext) (st : store) : option (list IPNet) * store :=
  if cf_fresh (x_now x) (st_cf_last st) then (None, st)
  else if cf_fresh (x_locked x) (st_cf_last st) then (None, st)
  else
    match fetchUpdateCFIPRange x cfIPv4CIDRsEndpoint, fetchUpdateCFIPRange x cfIPv6CIDRsEndpoint with
    | Some c4, Some c6 => (Some (c4 ++ c6), set_cf_last (x_done x) st)
    | _, _ => (None, set_cf_last (x_done x - cfCIDRsUpdateRetryInterval - cfCIDRsUpdateInterval) st)
    end.

Definition set_cf_From (id : nat) (cs : list IPNet) (st : store) : store :=
  {| st_cachedAddr := st_cachedAddr st; st_requestMap := st_requestMap st;
     st_cf_From := <[id := cs]> (st_cf_From st); st_cf_last := st_cf_last st; st_files := st_files st |}.

Definition cloudflare_opts (id : nat) (st : store) : RealIPOpts :=
  {| ri_Header := B "CF-Connecting-IP"; ri_From := default [] (st_cf_From st !! id); ri_Recursive := true |}.

(** [cloudflareRealIP.before]. *)
Definition cloudflare_before (x : ext) (id : nat) (s : state) : bool * state :=
  let '(cidrs, st) := tryFetchCFCIDR x (s_st s) in
  let st := match cidrs with Some cs => set_cf_From id cs st | None => st end in
  (true, State (with_req (setRealIP (cloudflare_opts id st)) (s_w s)) st).

(** ** cidr_whitelist.go *)

Definition put_cachedAddr (id : nat) (addr : bytes) (allow : bool) (st : store) : store :=
  {| st_cachedAddr := <[id := <[addr := allow]> (default ∅ (st_cachedAddr st !! id))]> (st_cachedAddr st);
     st_requestMap := st_requestMap st; st_cf_From := st_cf_From st;
     st_cf_last := st_cf_last st; st_files := st_files st |}.

(** [checkIP]. *)
Definition checkIP (k : rw) (wl : CIDRWhitelistOpts) (id : nat) (s : state) : bool * state :=
  let addr := r_RemoteAddr (s_req s) in
  let '(allow, s) :=
    match default ∅ (st_cachedAddr (s_st s) !! id) !! addr with
    | Some allow => (allow, s)
    | None =>
        let allow := existsb (fun c => CIDR_Contains c (ParseIP (remote_host addr))) (wl_Allow wl) in
        (allow, State (s_w s) (put_cachedAddr id addr allow (s_st s)))
    end in
  if allow then (true, s) else (false, respond_error k (wl_Message wl) (wl_StatusCode wl) s).

(** ** rate_limit.go *)

Definition newLimiter (rl : RateLimiterOpts) : Limiter :=
  rate_NewLimiter (rl_Average rl) (rl_Period rl) (rl_Burst rl).

Definition put_limiter (id : nat) (host : bytes) (l : Limiter) (st : store) : store :=
  {| st_cachedAddr := st_cachedAddr st;
     st_requestMap := <[id := <[host := l]> (default ∅ (st_requestMap st !! id))]> (st_requestMap st);
     st_cf_From := st_cf_From st; st_cf_last := st_cf_last st; st_files := st_files st |}.

Definition limit (k : rw) (x : ext) (rl : RateLimiterOpts) (id : nat) (s : state) : bool * state :=
  match SplitHostPort (r_RemoteAddr (s_req s)) with
  | None => (false, respond_error k "Internal error" 500 s)
  | Some (host, _) =>
      let limiter := default (newLimiter rl) (default ∅ (st_requestMap (s_st s) !! id) !! host) in
      let '(allowed, limiter) := Allow (x_now x) limiter in
      let s := State (s_w s) (put_limiter id host limiter (s_st s)) in
      if allowed then (true, s) else (false, respond_error k "rate limit exceeded" 429 s)
  end.

(** ** x_forwarded.go *)

Definition setXForwarded_before (r : Request) : Request :=
  let h := Header_Del (r_Header r) HeaderXForwardedFor in
  set_Header (match SplitHostPort (r_RemoteAddr r) with
              | Some (clientIP, _) => Header_Set h HeaderXForwardedFor clientIP
              | None => h
              end) r.

Definition hideXForwarded_before (r : Request) : Request :=
  let toDelete := filter (fun k => HasPrefix k "X-Forwarded-" = true) (map_to_list (r_Header r)).*1 in
  set_Header (fold_left Header_Del toDelete (r_Header r)) r.

(** ** redirect_http.go *)

Definition is_https (r : Request) : bool :=
  r_TLS r || EqualFold (Header_Get (r_Header r) "X-Forwarded-Proto") "https".

Definition set_u_host (scheme host : bytes) (u : URL) : URL :=
  {| u_Scheme := scheme; u_Host := host; u_Path := u_Path u; u_RawPath := u_RawPath u;
     u_RawQuery := u_RawQuery u; u_Fragment := u_Fragment u |}.

Definition redirect_url (r : Request) : URL :=
  let host := remote_host (r_Host r) in
  let host := if ProxyHTTPSPort =? 443 then host else host ++ ":"%char :: Itoa ProxyHTTPSPort in
  set_u_host "https" host (r_URL r).

Definition redirectHTTP_before (k : rw) (userAgents : list bytes) (s : state) : bool * state :=
  let r := s_req s in
  if is_https r then (true, s)
  else if existsb (fun ua => bool_decide (is_Some (Index (Header_Get (r_Header r) "User-Agent") ua))) userAgents
  then (true, s)
  else
    let s := map_req (set_URL (redirect_url r)) s in
    (false, with_w (on_writer k (Redirect (url_String (redirect_url r)) 308)) s).

(** ** forwardauth.go *)

Definition auth_url (fa : ForwardAuthMiddlewareOpts) (target : URL) : bytes :=
  url_String (set_Path (fa_AuthEndpoint fa) target).

Definition auth_headers (r : Request) : Values :=
  let h := Header_Set (r_Header r) "X-Forwarded-For" (remote_host (r_RemoteAddr r)) in
  let h := Header_Set h "X-Forwarded-Proto" (if is_https r then B "https" else B "http") in
  let h := Header_Set h "X-Forwarded-Host" (r_Host r) in
  Header_Set h "X-Forwarded-Uri" (url_RequestURI (r_URL r)).

(** The headers of an accepted request the upstream sees. *)
Definition forward_headers (fa : ForwardAuthMiddlewareOpts) (resp : Values) (h : Values) : Values :=
  fold_left (fun h k => match Header_Get resp k with [] => h | v => Header_Set h k v end)
    (fa_AuthResponseHeaders fa) h.

(** The answer passed on when the server refuses.  [Location] is set on the
    request. *)
Definition auth_refused (k : rw) (resp : AuthResponse) (s : state) : state :=
  match ar_Body resp with
  | None => respond_status k 500 s
  | Some body =>
      let s := with_w (with_out (fun o => set_out_Header
        (RemoveHopByHopHeaders (CopyHeader (w_Header o) (ar_Header resp))) o)) s in
      match ar_Location resp with
      | BadLocation => respond_status k 500 s
      | loc =>
          let s := match loc with
                   | Location (c :: l) =>
                       map_req (fun r => set_Header (Header_Set (r_Header r) "Location" (c :: l)) r) s
                   | _ => s
                   end in
          with_w (on_writer k (fun w => rm_Write body (rm_WriteHeader (ar_StatusCode resp) w))) s
      end
  end.

Definition forwardAuth_before (k : rw) (x : ext) (fa : ForwardAuthMiddlewareOpts) (s : state) : bool * state :=
  match x_route x (fa_Route fa) with
  | None => (false, respond_status k 500 s)
  | Some target =>
      let url := auth_url fa target in
      if negb (NewRequest_ok url) then (false, respond_status k 500 s)
      else
        match x_auth x url (auth_headers (s_req s)) with
        | None => (false, respond_status k 500 s)
        | Some resp =>
            if (ar_StatusCode resp <? 200) || (300 <=? ar_StatusCode resp)
            then (false, auth_refused k resp s)
            else (true, map_req (fun r => set_Header (forward_headers fa (ar_Header resp) (r_Header r)) r) s)
        end
  end.

(** ** custom_error_page.go, errorpage/error_page.go *)

Definition StaticFilePathPrefix : bytes := "/$gperrorpage/".

(** [filepath.Ext]: from the last dot of the last element. *)
Definition filepath_Ext (name : bytes) : bytes :=
  let base := match LastIndexByte name "/" with Some i => drop (S i) name | None => name end in
  match LastIndexByte base "." with Some i => drop i base | None => [] end.

Definition content_type_of (ext : bytes) : option bytes :=
  if bool_decide (ext = B ".html") then Some (B "text/html; charset=utf-8")
  else if bool_decide (ext = B ".js") then Some (B "application/javascript; charset=utf-8")
  else if bool_decide (ext = B ".css") then Some (B "text/css; charset=utf-8")
  else None.

(** [ServeStaticErrorPageFile], when writing to the client succeeds. *)
Definition ServeStaticErrorPageFile (k : rw) (s : state) : bool * state :=
  let path := rooted_path (u_Path (r_URL (s_req s))) in
  if HasPrefix path StaticFilePathPrefix then
    let filename := drop (length StaticFilePathPrefix) path in
    match st_files (s_st s) !! filename with
    | None => (false, s)
    | Some file =>
        (true, with_w (on_writer k (fun w =>
           let w := match content_type_of (filepath_Ext filename) with
                    | Some ct => with_out (fun o => set_out_Header (hset (w_Header o) "Content-Type" ct) o) w
                    | None => w
                    end in
           rm_Write file w)) s)
    end
  else (false, s).

(** [GetErrorPageByStatus]. *)
Definition GetErrorPageByStatus (files : gmap bytes bytes) (code : Z) : option bytes :=
  match files !! (Itoa code ++ B ".html") with
  | Some c => Some c
  | None => if code =? 404 then None else files !! B "404.html"
  end.

(** [customErrorPage.modifyResponse]. *)
Definition customErrorPage_modify (files : gmap bytes bytes) (p : Response) : Response :=
  if negb (IsSuccess (rs_StatusCode p)) && IsHTMLOrPlainText (rs_Header p) then
    match GetErrorPageByStatus files (rs_StatusCode p) with
    | Some page =>
        {| rs_StatusCode := rs_StatusCode p;
           rs_Header := hset (hset (rs_Header p) "Content-Length" (Itoa (Z.of_nat (length page))))
                          "Content-Type" "text/html; charset=utf-8";
           rs_ContentLength := Z.of_nat (length page); rs_Body := page; rs_replaced := true |}
    | None => p
    end
  else p.

(** ** Implementations *)

(** The request, the response and the store while a response is modified. *)
Record rstate := RState { rs_req : Request; rs_resp : Response; rs_st : store }.

(** [error]s of [modifyResponse]: the indices of the enclosing chains and a
    text. *)
Record mod_error := { me_path : list nat; me_text : bytes }.

Definition before_fn : Type := rw -> ext -> state -> result unit (bool * state).
Definition modify_fn : Type := rstate -> result unit (option mod_error * rstate).

(** [m.impl].  [Other] stands for the implementations that are not modelled
    (oidc, hcaptcha, modify_html, themed): each of the two interfaces may be
    implemented; the first flag is the type switch on [*oidcMiddleware].
    [CheckBypass] holds the implementation that [modReq] and [modRes] are
    assertions of. *)
Inductive impl :=
  | RedirectHTTP (userAgents : list bytes)
  | SetXForwarded
  | HideXForwarded
  | ModifyRequest (o : ModifyRequestOpts)
  | ModifyResponse (o : ModifyRequestOpts)
  | RealIP (o : RealIPOpts)
  | CloudflareRealIP (id : nat)
  | CIDRWhiteList (o : CIDRWhitelistOpts) (id : nat)
  | RateLimiter (o : RateLimiterOpts) (id : nat)
  | ForwardAuth (o : ForwardAuthMiddlewareOpts)
  | CustomErrorPage
  | Other (oidc : bool) (b : option before_fn) (m : option modify_fn)
  | CheckBypass (bypass : list RuleOn) (enforced : list bytes) (i : impl)
  | Chain (befores modResps : list impl).

Definition is_RequestModifier (i : impl) : bool :=
  match i with
  | ModifyResponse _ => false
  | Other _ b _ => bool_decide (is_Some b)
  | _ => true
  end.

Definition is_ResponseModifier (i : impl) : bool :=
  match i with
  | ModifyResponse _ | CustomErrorPage | CheckBypass _ _ _ | Chain _ _ => true
  | Other _ _ m => bool_decide (is_Some m)
  | _ => false
  end.

(** [isEnforced]. *)
Definition isEnforced (prefixes : list bytes) (r : Request) : bool :=
  existsb (HasPrefix (u_Path (r_URL r))) prefixes.

Definition total (r : bool * state) : result unit (bool * state) := Ok r.

Definition lift_check (k : rw) (b : list RuleOn) (s : state) : result unit (bool * state) :=
  '(m, w) ← ShouldBypass k b (s_w s); Ok (m, State w (s_st s)).

(** [before]; for an implementation without the interface it is not called. *)
Fixpoint before (k : rw) (x : ext) (i : impl) (s : state) : result unit (bool * state) :=
  match i with
  | RedirectHTTP uas => total (redirectHTTP_before k uas s)
  | SetXForwarded => total (true, map_req setXForwarded_before s)
  | HideXForwarded => total (true, map_req hideXForwarded_before s)
  | ModifyRequest o => total (true, map_req (modifyRequest_before o) s)
  | ModifyResponse _ => total (true, s)
  | RealIP o => total (true, map_req (setRealIP o) s)
  | CloudflareRealIP id => total (cloudflare_before x id s)
  | CIDRWhiteList o id => total (checkIP k o id s)
  | RateLimiter o id => total (limit k x o id s)
  | ForwardAuth o => total (forwardAuth_before k x o s)
  | CustomErrorPage => let '(served, s) := ServeStaticErrorPageFile k s in total (negb served, s)
  | Other _ b _ => match b with Some f => f k x s | None => total (true, s) end
  | CheckBypass bypass enforced i =>
      if negb (is_RequestModifier i) then total (true, s)
      else if isEnforced enforced (s_req s) then before k x i s
      else '(skip, s) ← lift_check k bypass s; if skip : bool then total (true, s) else before k x i s
  | Chain bs _ =>
      (fix run (l : list impl) (s : state) : result unit (bool * state) :=
         match l with
         | [] => total (true, s)
         | b :: l' => '(proceed, s) ← before k x b s; if proceed : bool then run l' s else total (false, s)
         end) bs s
  end.

(** [rules.ResponseAsRW]. *)
Definition ResponseAsRW (r : Request) (p : Response) : world :=
  World r (set_statusCode (rs_StatusCode p) NewResponseModifier)
    {| w_Header := rs_Header p; w_sent := None; w_body := [] |} [].

Definition wrap_index (i : nat) (e : mod_error) : mod_error :=
  {| me_path := i :: me_path e; me_text := me_text e |}.

(** [modifyResponse]. *)
Fixpoint modifyResponse (i : impl) (s : rstate) : result unit (option mod_error * rstate) :=
  match i with
  | ModifyResponse o =>
      let '(r, p) := modifyResponse_modify o (rs_req s) (rs_resp s) in Ok (None, RState r p (rs_st s))
  | CustomErrorPage =>
      Ok (None, RState (rs_req s) (customErrorPage_modify (st_files (rs_st s)) (rs_resp s)) (rs_st s))
  | Other _ _ (Some f) => f s
  | CheckBypass bypass enforced i =>
      if negb (is_ResponseModifier i) then Ok (None, s)
      else if isEnforced enforced (rs_req s) then modifyResponse i s
      else
        '(skip, w) ← ShouldBypass Modifier bypass (ResponseAsRW (rs_req s) (rs_resp s));
        let s := RState (req w) (rs_resp s) (rs_st s) in
        if skip : bool then Ok (None, s) else modifyResponse i s
  | Chain _ ms =>
      (fix run (n : nat) (l : list impl) (s : rstate) : result unit (option mod_error * rstate) :=
         match l with
         | [] => Ok (None, s)
         | m :: l' =>
             '(e, s) ← modifyResponse m s;
             match e with Some e => Ok (Some (wrap_index n e), s) | None => run (S n) l' s end
         end) 0%nat ms s
  | _ => Ok (None, s)
  end.

(** ** middleware.go *)

Record Middleware := { mw_name : bytes; mw_Priority : Z; mw_Bypass : list RuleOn; mw_impl : impl }.

Definition OIDCAuthBasePath : bytes := "/auth".

(** [getEnforcedPathPrefixes]. *)
Definition getEnforcedPathPrefixes (i : impl) : list bytes :=
  match i with
  | Other true (Some _) _ => [OIDCAuthBasePath]
  | _ => []
  end.

Definition withCheckBypass (m : Middleware) : impl :=
  match mw_Bypass m with
  | [] => mw_impl m
  | b => CheckBypass b (getEnforcedPathPrefixes (mw_impl m)) (mw_impl m)
  end.

(** [NewMiddlewareChain]. *)
Definition NewMiddlewareChain (name : bytes) (chain : list Middleware) : Middleware :=
  {| mw_name := name; mw_Priority := 0; mw_Bypass := [];
     mw_impl := Chain (filter (fun i => is_RequestModifier i = true) (map mw_impl chain))
                      (filter (fun i => is_ResponseModifier i = true) (map mw_impl chain)) |}.

(** A handler: an [http.HandlerFunc]. *)
Definition handler : Type := rw -> state -> result unit state.

(** [TryModifyRequest]. *)
Definition TryModifyRequest (m : Middleware) (k : rw) (x : ext) (s : state) : result unit (bool * state) :=
  if is_RequestModifier (mw_impl m) then before k x (mw_impl m) s else Ok (true, s).

(** [Middleware.ModifyRequest]. *)
Definition Middleware_ModifyRequest (m : Middleware) (next : handler) (k : rw) (x : ext) (s : state)
    : result unit state :=
  '(proceed, s) ← TryModifyRequest m k x s;
  if proceed : bool then next k s else Ok s.

(** [Middleware.ModifyResponse]. *)
Definition Middleware_ModifyResponse (m : Middleware) (s : rstate) : result unit (option mod_error * rstate) :=
  if is_ResponseModifier (mw_impl m) then modifyResponse (mw_impl m) s else Ok (None, s).

Section ServeHTTP.

Context (client_Write : bytes -> nat * bool) (client_Flush_fails : bool).

(** [FlushRelease] of a modifier over the connection, or over another
    modifier. *)
Definition flush_to (k : rw) (outer : ResponseModifier) (w : world) : world :=
  match k with
  | Raw => let w' := (FlushRelease client_Write client_Flush_fails w).2 in
           World (req w') outer (out w') (fx w')
  | Modifier =>
      let m := rm w in
      if rm_hijacked m then
        World (req w) {| rm_buf := rm_buf outer; rm_statusCode := rm_statusCode outer;
                         rm_shared := rm_shared outer; rm_hijacked := true; rm_errs := rm_errs outer |}
          (out w) (fx w)
      else
        let o := set_out_Header (flush_headers m (w_Header (out w))) (out w) in
        let outer := set_statusCode (StatusCode m) outer in
        let outer := if 0 <? ContentLength m then set_buf (Some (Content outer ++ Content m)) outer else outer in
        World (req w) outer o (fx w)
  end.

(** The response [ServeHTTP] shows to the modifier. *)
Definition currentResp (w : world) : Response :=
  {| rs_StatusCode := StatusCode (rm w); rs_Header := w_Header (out w);
     rs_ContentLength := ContentLength (rm w); rs_Body := Content (rm w); rs_replaced := false |}.

(** Its status, headers and body written back. *)
Definition write_back (p : Response) (w : world) : world :=
  let w := with_out (set_out_Header (rs_Header p)) (rm_WriteHeader (rs_StatusCode p) w) in
  if rs_replaced p then with_rm (set_buf (Some (rs_Body p))) w else w.

(** [ServeHTTP]. *)
Definition ServeHTTP (m : Middleware) (next : handler) (k : rw) (x : ext) (s : state) : result unit state :=
  '(proceed, s) ← TryModifyRequest m k x s;
  if negb proceed then Ok s
  else if is_ResponseModifier (mw_impl m) then
    let outer := rm (s_w s) in
    let w := s_w s in
    s ← next Modifier (State (World (req w) NewResponseModifier (out w) (fx w)) (s_st s));
    '(_, r) ← modifyResponse (mw_impl m) (RState (req (s_w s)) (currentResp (s_w s)) (s_st s));
    let w := with_req (fun _ => rs_req r) (s_w s) in
    Ok (State (flush_to k outer (write_back (rs_resp r) w)) (rs_st r))
  else next k s.

End ServeHTTP.

(** [ReverseProxy]: the fields that are patched. *)
Record ReverseProxy := {
  rp_HandlerFunc : ext -> handler;
  rp_ModifyResponse : option modify_fn
}.

(** [patchReverseProxy] after sorting. *)
Definition patchReverseProxy (rp : ReverseProxy) (name : bytes) (sorted : list Middleware) : ReverseProxy :=
  let mid := mw_impl (NewMiddlewareChain name sorted) in
  {| rp_HandlerFunc := fun x k s =>
       '(proceed, s) ← before k x mid s;
       if proceed : bool then rp_HandlerFunc rp x k s else Ok s;
     rp_ModifyResponse := Some (
       match rp_ModifyResponse rp with
       | Some ori => fun s => '(e, s) ← modifyResponse mid s;
                              match e with Some e => Ok (Some e, s) | None => ori s end
       | None => modifyResponse mid
       end) |}.

(** [sort.Sort(ByPriority(ms))]: a permutation in the order of [Less]; the
    order of equal priorities is not specified. *)
Definition sorted_by_priority (ms : list Middleware) : Prop :=
  StronglySorted (fun a b => mw_Priority a <= mw_Priority b) ms.

Definition sort_Sort (ms ms' : list Middleware) : Prop :=
  Permutation ms ms' /\ sorted_by_priority ms'.

End Middleware.

(** ** Lemmas: chains *)

Section ChainLemmas.

Context `{HL : HTTPLib} `{RL : RuleLib} `{DL : DoLib} `{ML : MwLib} `{MD : MidLib}.

(** The loop of [middlewareChain.before]. *)
Fixpoint run_before (k : rw) (x : ext) (l : list impl) (s : state) : result unit (bool * state) :=
  match l with
  | [] => Ok (true, s)
  | b :: l' => '(proceed, s) ← before k x b s; if proceed : bool then run_before k x l' s else Ok (false, s)
  end.

Lemma before_Chain k x bs ms s : before k x (Chain bs ms) s = run_before k x bs s.
Proof.
  cbn [before]. revert s. induction bs as [|b bs IH]; intros s; [done|]. cbn [run_before].
  destruct (before k x b s) as [[[|] s1]| |]; simpl; auto.
Qed.

Lemma run_before_app k x l1 l2 s :
  run_before k x (l1 ++ l2) s =
    '(proceed, s1) ← run_before k x l1 s; if proceed : bool then run_before k x l2 s1 else Ok (false, s1).
Proof.
  revert s. induction l1 as [|b l1 IH]; intros s; [done|]. simpl.
  destruct (before k x b s) as [[[|] s1]| |]; simpl; auto.
Qed.

(** The loop of [middlewareChain.modifyResponse]. *)
Fixpoint run_modify (n : nat) (l : list impl) (s : rstate) : result unit (option mod_error * rstate) :=
  match l with
  | [] => Ok (None, s)
  | m :: l' =>
      '(e, s) ← modifyResponse m s;
      match e with Some e => Ok (Some (wrap_index n e), s) | None => run_modify (S n) l' s end
  end.

Lemma modifyResponse_Chain bs ms s : modifyResponse (Chain bs ms) s = run_modify 0 ms s.
Proof.
  cbn [modifyResponse]. generalize 0%nat as n. revert s.
  induction ms as [|m ms IH]; intros s n; [done|]. cbn [run_modify].
  destruct (modifyResponse m s) as [[[e|] s1]| |]; simpl; auto.
Qed.

(** An implementation without the interface would not have acted. *)
Lemma not_RequestModifier k x i s : is_RequestModifier i = false -> before k x i s = Ok (true, s).
Proof. destruct i as [| | | | | | | | | | |? [?|] ?| |]; simpl; done. Qed.

Lemma not_ResponseModifier i s : is_ResponseModifier i = false -> modifyResponse i s = Ok (None, s).
Proof. destruct i as [| | | | | | | | | | |? ? [?|]| |]; simpl; done. Qed.

Lemma run_before_filter k x l : forall s,
  run_before k x (filter (fun i => is_RequestModifier i = true) l) s = run_before k x l s.
Proof.
  induction l as [|i l IH]; intros s; [done|]. rewrite filter_cons. case_decide as Hi.
  - cbn [run_before]. destruct (before k x i s) as [[[|] s1]| |]; simpl; auto.
  - cbn [run_before]. rewrite not_RequestModifier by (by destruct (is_RequestModifier i)). apply IH.
Qed.

Lemma before_NewMiddlewareChain k x name ms s :
  before k x (mw_impl (NewMiddlewareChain name ms)) s = run_before k x (map mw_impl ms) s.
Proof. unfold NewMiddlewareChain. cbn [mw_impl]. rewrite before_Chain. apply run_before_filter. Qed.

(** ** Lemmas: conditions on a plain writer *)

Definition raw_world (w : world) : world := World (req w) NewResponseModifier (out w) (fx w).

Definition raw_view (w : world) : world := view_of (raw_world w).

(** What a condition sees of the writer it is given. *)
Definition writer_view (k : rw) (w : world) : world :=
  match k with Raw => raw_view w | Modifier => view_of w end.

(** A condition that does not test a form leaves the request alone. *)
Lemma CheckRaw_keeps c : leaves keeps_req c -> keeps_req (CheckRaw c).
Proof.
  revert c. fix IH 1. intros [f|l|l]; cbn [leaves].
  - intros Hf w b w'. cbn [CheckRaw].
    destruct (f (World (req w) NewResponseModifier (out w) (fx w))) as [[b1 w1]| |] eqn:E; cbn [mbind result_bind]; try done.
    intros [= _ <-]. by apply Hf in E.
  - induction l as [|c l IHl]; intros Hl w b w'; cbn [CheckRaw]; [by intros [= _ <-]|].
    destruct Hl as [Hc Hl]. destruct (CheckRaw c w) as [[b1 w1]| |] eqn:E; cbn [mbind result_bind]; try done.
    apply (IH c Hc) in E. destruct b1; [by intros [= _ <-]|]. intros E2. rewrite <- E. by apply (IHl Hl w1 b).
  - induction l as [|c l IHl]; intros Hl w b w'; cbn [CheckRaw]; [by intros [= _ <-]|].
    destruct Hl as [Hc Hl]. destruct (CheckRaw c w) as [[b1 w1]| |] eqn:E; cbn [mbind result_bind]; try done.
    apply (IH c Hc) in E. destruct b1; [|by intros [= _ <-]]. intros E2. rewrite <- E. by apply (IHl Hl w1 b).
Qed.

Lemma ShouldBypass_keeps k vs ons : forall w b w',
  Forall2 (fun v on => RuleOn_Parse v = Ok (on, [])) vs ons -> existsb uses_form vs = false ->
  ShouldBypass k ons w = Ok (b, w') -> req w' = req w.
Proof.
  intros w b w' Hp. revert w b w'. induction Hp as [|v on vs ons Hv _ IH]; intros w b w'; cbn [ShouldBypass existsb].
  { by intros _ [= _ <-]. }
  intros [Hf1 Hf2]%orb_false_iff. destruct (check_rule k on w) as [[m w1]| |] eqn:E; cbn [mbind result_bind]; try done.
  assert (req w1 = req w) as <-.
  { destruct k; cbn [check_rule] in E; [|by eapply RuleOn_Check_keeps].
    destruct (on_checker on) as [c|] eqn:Ec; [|done]. eapply CheckRaw_keeps; [|exact E]. by eapply RuleOn_leaves. }
  destruct m; [by intros [= _ <-]|]. by apply IH.
Qed.

Definition implements_raw (c : Checker) (ready : world -> Prop) (p : world -> bool) : Prop :=
  forall w, ready (raw_view w) ->
  exists w', CheckRaw c w = Ok (p (raw_view w), w') /\ raw_view w' = raw_view w /\ rm w' = rm w.

Lemma raw_world_ok w : world_ok (raw_world w).
Proof. by intros c. Qed.

Lemma leaf_raw f ready p : implements f ready p -> implements_raw (CheckFunc f) ready p.
Proof.
  intros Hf w Hr. destruct (Hf (raw_world w) (raw_world_ok w) Hr) as (w1 & E & _ & Hv).
  cbn [CheckRaw]. unfold raw_world in E at 1. rewrite E. cbn [mbind result_bind].
  eexists. split; [done|]. split; [|done].
  unfold raw_view in *. unfold view_of, raw_world in *. simpl in *. congruence.
Qed.

Lemma any_raw ready cs ps :
  Forall2 (fun c p => implements_raw c ready p) cs ps ->
  implements_raw (CheckMatchSingle cs) ready (fun v => existsb (fun p => p v) ps).
Proof.
  induction 1 as [|c p cs ps Hc _ IH]; intros w Hr; [by exists w|].
  destruct (Hc w Hr) as (w1 & E1 & Hv1 & Hm1). cbn [CheckRaw] in *. rewrite E1. simpl.
  destruct (p (raw_view w)); simpl; [by exists w1|].
  rewrite <- Hv1 in Hr. destruct (IH w1 Hr) as (w2 & E2 & Hv2 & Hm2).
  rewrite Hv1 in *. exists w2. split; [exact E2|]. split; congruence.
Qed.

Lemma all_raw ready cs ps :
  Forall2 (fun c p => implements_raw c ready p) cs ps ->
  implements_raw (CheckMatchAll cs) ready (fun v => forallb (fun p => p v) ps).
Proof.
  induction 1 as [|c p cs ps Hc _ IH]; intros w Hr; [by exists w|].
  destruct (Hc w Hr) as (w1 & E1 & Hv1 & Hm1). cbn [CheckRaw] in *. rewrite E1. simpl.
  destruct (p (raw_view w)); simpl; [|by exists w1].
  rewrite <- Hv1 in Hr. destruct (IH w1 Hr) as (w2 & E2 & Hv2 & Hm2).
  rewrite Hv1 in *. exists w2. split; [exact E2|]. split; congruence.
Qed.

Lemma implements_raw_weaken c r1 r2 p :
  (forall v, r2 v -> r1 v) -> implements_raw c r1 p -> implements_raw c r2 p.
Proof. intros Hr Hc w Hw. apply Hc; auto. Qed.

Context `{LW : !HTTPLibLaws}.

Lemma alt_raw alt c isResp :
  parseOn_single alt = Ok (c, isResp) -> implements_raw c (alt_ready alt) (alt_meaning alt).
Proof. intros Hp. apply parseOn_single_ok in Hp as (f & s & -> & Hf & _). by apply leaf_raw. Qed.

Lemma parseOn_raw line c isResp :
  parseOn line = Ok (c, isResp) -> implements_raw c (line_ready line) (line_meaning line).
Proof.
  unfold parseOn. change (parseOn_fuel 2 line) with
    (if (1 <? length (splitPipe line))%nat
     then '(cs, isResp, errs) ← parse_ors (parseOn_fuel 1) (splitPipe line);
          match errs with [] => Ok (CheckMatchSingle cs, isResp) | e :: _ => Err e end
     else parseOn_single line).
  unfold line_meaning, line_ready, alternatives.
  destruct (1 <? length (splitPipe line))%nat eqn:El.
  - rewrite parse_ors_single by done.
    destruct (parse_ors _ _) as [[[cs r] es]| |] eqn:Eo; simpl; try done.
    destruct es; [|done]. intros [= <- <-]. apply parse_ors_ok in Eo as (rs & H2 & _ & _).
    clear El. revert H2. generalize (splitPipe line) as ors. intros ors H2 w Hr.
    destruct (any_raw (fun v => forall alt, alt ∈ ors -> alt_ready alt v) cs (map alt_meaning ors))
      with (w := w) as (w' & E & Ht); [|done|].
    + apply Forall2_fmap_r, Forall2_same_length_lookup.
      pose proof (Forall2_length _ _ _ H2). split; [done|]. intros i c' alt Hc Ha.
      destruct (Forall2_lookup_lr _ _ _ _ _ _ H2 Hc Ha) as [b Hb].
      eapply implements_raw_weaken; [|by eapply alt_raw]. intros v Hv. apply Hv. by eapply list_elem_of_lookup_2.
    + exists w'. split; [|done]. rewrite E. do 2 f_equal. by rewrite existsb_map.
  - intros Hl w Hr. simpl. rewrite orb_false_r. eapply alt_raw; [done|].
    apply Hr. by apply list_elem_of_singleton.
Qed.

Lemma parse_rules_raw rules cs isResp :
  Forall nonempty rules -> parse_rules rules = Ok (cs, isResp, []) ->
  Forall2 (fun c line => implements_raw c (line_ready line) (line_meaning line)) cs rules.
Proof.
  intros Hne. revert cs isResp. induction Hne as [|line rules Hl _ IH]; intros cs isResp.
  { by intros [= <- <-]. }
  cbn [parse_rules]. destruct line as [|b line]; [by destruct Hl|].
  destruct (parseOn (b :: line)) as [[c r]|e|p] eqn:E; [| |done].
  - destruct (parse_rules rules) as [[[cs' r'] es]| |]; simpl; try done.
    intros [= <- <- ->]. constructor; [by eapply parseOn_raw|eauto].
  - destruct (parse_rules rules) as [[[cs' r'] es]| |]; simpl; done.
Qed.

Lemma check_raw_spec v on w :
  RuleOn_Parse v = Ok (on, []) -> (uses_basic_auth v = true -> has_auth (raw_view w)) ->
  exists w', check_rule Raw on w = Ok (on_meaning v (raw_view w), w') /\ raw_view w' = raw_view w
             /\ rm w' = rm w.
Proof.
  unfold RuleOn_Parse. rewrite splitAnd_eq.
  destruct (parse_rules (splitAnd_ref v)) as [[[cs r] es]| |] eqn:E; simpl; try done.
  intros [= <- ->] Hauth. cbn [on_checker]. unfold on_meaning.
  apply parse_rules_raw in E; [|apply splitAnd_ref_nonempty].
  assert (Hcs : Forall2 (fun c p => implements_raw c (fun v' => v' = raw_view w) p)
    cs (map line_meaning (splitAnd_ref v))).
  { apply Forall2_fmap_r, Forall2_same_length_lookup.
    split; [by eapply Forall2_length|]. intros i c line Hc Hl.
    pose proof (Forall2_lookup_lr _ _ _ _ _ _ E Hc Hl) as Hi. simpl in Hi.
    eapply implements_raw_weaken; [|exact Hi]. intros v' -> alt Ha Hs.
    apply Hauth. destruct (uses_basic_auth v) eqn:Eu; [done|]. exfalso.
    eapply uses_basic_auth_false; [done| |exact Ha|exact Hs]. by eapply list_elem_of_lookup_2. }
  destruct (all_raw _ _ _ Hcs w eq_refl) as (w' & Ew & Ht).
  exists w'. rewrite forallb_map in Ew. done.
Qed.

(** A rule's decision, for either writer. *)
Lemma check_rule_spec k v on w :
  RuleOn_Parse v = Ok (on, []) -> (k = Modifier -> world_ok w) ->
  (uses_basic_auth v = true -> has_auth (writer_view k w)) ->
  exists w', check_rule k on w = Ok (on_meaning v (writer_view k w), w')
             /\ writer_view k w' = writer_view k w /\ (k = Modifier -> world_ok w')
             /\ (k = Raw -> rm w' = rm w).
Proof.
  intros Hp Hw Ha. destruct k; simpl in *.
  - destruct (check_raw_spec v on w Hp Ha) as (w' & ? & ? & ?). exists w'. by repeat split.
  - destruct (RuleOn_Check_spec v on w Hp (Hw eq_refl) Ha) as (w' & ? & [? ?]). exists w'. split_and!; intros; done.
Qed.

End ChainLemmas.

(** ** A library for examples *)

(** A limiter that counts down from its burst and never refills. *)
#[export] Instance plain_mid : MidLib := {|
  Limiter := Z;
  rate_NewLimiter _ _ burst := burst;
  Allow _ l := (0 <? l, l - 1);
  ProxyHTTPSPort := 443;
  NewRequest_ok _ := true;
  CopyHeader dst src := src ∪ dst;
  RemoveHopByHopHeaders h := delete (B "Connection") h;
  IsSuccess c := within 200 299 c;
  IsHTMLOrPlainText h := HasPrefix (hget h "Content-Type") "text/"
|}.

Definition empty_store : store :=
  {| st_cachedAddr := ∅; st_requestMap := ∅; st_cf_From := ∅; st_cf_last := None; st_files := ∅ |}.

Definition quiet (now : Z) : ext :=
  {| x_now := now; x_locked := now; x_done := now; x_cf _ := None; x_auth _ _ := None; x_route _ := None |}.

(** A request for [path] from [addr]. *)
Definition from_addr (addr path : bytes) (h : Values) : world :=
  with_req (set_RemoteAddr addr) (example_world "GET" path h).
