(* ===== verification/MiddlewareSpec.v ===== *)
(** * Middlewares: what they promise

    Properties of the handlers of Middleware.v: the order of a chain and where
    it stops, what a bypass rule decides, the caches and limiters over any
    history of requests, who may change the client's address, and which
    headers reach the upstream. *)

From Stdlib Require Import Sorted.
From S2P Require Import Prelude GoStrings NetAddr RulesSplit RulesHTTP RulesOn RulesDo.
From S2P Require Import MiddlewareVars Middleware.

Section Spec.

Context `{HL : HTTPLib} `{RL : RuleLib} `{DL : DoLib} `{ML : MwLib} `{MD : MidLib}.

(** ** Chains *)

Lemma sorted_before (ms : list Middleware) a b :
  sorted_by_priority ms -> a ∈ ms -> b ∈ ms -> mw_Priority a < mw_Priority b ->
  exists l1 l2 l3, ms = l1 ++ a :: l2 ++ b :: l3.
Proof.
  intros Hs Ha Hb Hlt. apply list_elem_of_split in Ha as (l1 & l2 & ->).
  apply elem_of_app in Hb as [Hb|Hb].
  - apply list_elem_of_split in Hb as (l3 & l4 & ->). exfalso.
    rewrite <- app_assoc in Hs. unfold sorted_by_priority in Hs. clear -Hs Hlt.
    induction l3 as [|c l3 IH]; simpl in Hs; apply StronglySorted_inv in Hs as [Hs Hf]; [|auto].
    rewrite Forall_forall in Hf. assert (mw_Priority b <= mw_Priority a) by (apply Hf; set_solver). lia.
  - apply elem_of_cons in Hb as [->|Hb]; [lia|].
    apply list_elem_of_split in Hb as (l3 & l4 & ->). eauto.
Qed.

(** C16: a patched proxy runs its middlewares by priority.  The first that does
    not proceed ends the request: nothing after it and not the upstream see
    it.  If all proceed, the upstream gets the request they leave. *)
Theorem chain_stops_at_first rp name ms ms' x k s :
  sort_Sort ms ms' ->
  (forall a b, a ∈ ms -> b ∈ ms -> mw_Priority a < mw_Priority b ->
     exists l1 l2 l3, ms' = l1 ++ a :: l2 ++ b :: l3)
  /\ (forall l1 b l2 s1 s2, ms' = l1 ++ b :: l2 ->
       run_before k x (map mw_impl l1) s = Ok (true, s1) ->
       before k x (mw_impl b) s1 = Ok (false, s2) ->
       rp_HandlerFunc (patchReverseProxy rp name ms') x k s = Ok s2)
  /\ (forall s1, run_before k x (map mw_impl ms') s = Ok (true, s1) ->
       rp_HandlerFunc (patchReverseProxy rp name ms') x k s = rp_HandlerFunc rp x k s1).
Proof.
  intros [Hp Hs]. split_and!.
  - intros a b Ha Hb. apply sorted_before; [done|by rewrite <- Hp|by rewrite <- Hp].
  - intros l1 b l2 s1 s2 -> H1 H2. cbn [patchReverseProxy rp_HandlerFunc].
    rewrite before_NewMiddlewareChain, map_app, run_before_app, H1. simpl. by rewrite H2.
  - intros s1 H1. cbn [patchReverseProxy rp_HandlerFunc]. by rewrite before_NewMiddlewareChain, H1.
Qed.

(** ** Bypass *)

Context `{LW : !HTTPLibLaws}.

Lemma ShouldBypass_spec k vs ons : forall w,
  Forall2 (fun v on => RuleOn_Parse v = Ok (on, [])) vs ons ->
  (k = Modifier -> world_ok w) ->
  (forall v, v ∈ vs -> uses_basic_auth v = true -> has_auth (writer_view k w)) ->
  exists w', ShouldBypass k ons w = Ok (existsb (fun v => on_meaning v (writer_view k w)) vs, w')
             /\ writer_view k w' = writer_view k w.
Proof.
  intros w Hvs. revert w. induction Hvs as [|v on vs ons Hp _ IH]; intros w Hw Ha; [by exists w|].
  destruct (check_rule_spec k v on w Hp Hw) as (w1 & E & Hv & Hw1 & _); [apply Ha; by left|].
  cbn [ShouldBypass existsb]. rewrite E. cbn [mbind result_bind].
  destruct (on_meaning v (writer_view k w)); simpl; [by exists w1|].
  destruct (IH w1 Hw1) as (w2 & E2 & Hv2); [intros; rewrite Hv; eapply Ha; [by right|done]|].
  exists w2. rewrite Hv in *. split; [exact E2|congruence].
Qed.

(** C15: a middleware with bypass rules (that parse, and are given credentials
    if they test them) is skipped exactly when one of the rules holds for the
    request and its path has no enforced prefix; otherwise it runs on a request
    that no rule can tell from the original.  The request is the original when
    the path is enforced or no rule tests a form; testing a form reads the body
    of the request. *)
Theorem bypass_exact k x vs ons enforced i s :
  Forall2 (fun v on => RuleOn_Parse v = Ok (on, [])) vs ons ->
  (k = Modifier -> world_ok (s_w s)) ->
  (forall v, v ∈ vs -> uses_basic_auth v = true -> has_auth (writer_view k (s_w s))) ->
  is_RequestModifier i = true ->
  exists w', writer_view k w' = writer_view k (s_w s) /\
  (existsb uses_form vs = false -> req w' = s_req s) /\
  before k x (CheckBypass ons enforced i) s =
    if isEnforced enforced (s_req s) then before k x i s
    else if existsb (fun v => on_meaning v (writer_view k (s_w s))) vs then Ok (true, State w' (s_st s))
    else before k x i (State w' (s_st s)).
Proof.
  intros Hvs Hw Ha Hi. destruct (ShouldBypass_spec k vs ons (s_w s) Hvs Hw Ha) as (w' & E & Hv).
  exists w'. split; [done|]. split; [intros Hf; by apply (ShouldBypass_keeps k vs ons _ _ _ Hvs Hf E)|].
  cbn [before]. rewrite Hi. cbn [negb].
  destruct (isEnforced enforced (s_req s)); [done|]. unfold lift_check. rewrite E.
  cbn [mbind result_bind]. by destruct (existsb _ vs).
Qed.

(** ** cidr_whitelist *)

(** The decision without the cache. *)
Definition allowed (wl : CIDRWhitelistOpts) (addr : bytes) : bool :=
  existsb (fun c => CIDR_Contains c (ParseIP (remote_host addr))) (wl_Allow wl).

Definition cached (id : nat) (st : store) : gmap bytes bool := default ∅ (st_cachedAddr st !! id).

Definition cached_ok (wl : CIDRWhitelistOpts) (id : nat) (st : store) : Prop :=
  forall addr b, cached id st !! addr = Some b -> b = allowed wl addr.

Lemma checkIP_step k wl id s :
  cached_ok wl id (s_st s) ->
  exists st', cached_ok wl id st' /\
    checkIP k wl id s =
      if allowed wl (r_RemoteAddr (s_req s)) then (true, State (s_w s) st')
      else (false, respond_error k (wl_Message wl) (wl_StatusCode wl) (State (s_w s) st')).
Proof.
  intros Hc. unfold checkIP. fold (cached id (s_st s)).
  destruct (cached id (s_st s) !! r_RemoteAddr (s_req s)) as [b|] eqn:E.
  - exists (s_st s). split; [done|]. rewrite (Hc _ _ E). by destruct s.
  - fold (allowed wl (r_RemoteAddr (s_req s))).
    exists (put_cachedAddr id (r_RemoteAddr (s_req s)) (allowed wl (r_RemoteAddr (s_req s))) (s_st s)).
    split; [|done]. intros addr b. unfold cached. simpl. rewrite lookup_insert_eq. simpl.
    destruct (decide (r_RemoteAddr (s_req s) = addr)) as [->|Hne].
    + rewrite lookup_insert_eq. by intros [= <-].
    + rewrite lookup_insert_ne by done. apply Hc.
Qed.

(** The answers to a sequence of requests. *)
Fixpoint whitelist_run (wl : CIDRWhitelistOpts) (id : nat) (reqs : list (rw * world)) (st : store) : list bool :=
  match reqs with
  | [] => []
  | (k, w) :: reqs' => let '(b, s) := checkIP k wl id (State w st) in b :: whitelist_run wl id reqs' (s_st s)
  end.

Lemma whitelist_run_spec wl id reqs : forall st,
  cached_ok wl id st ->
  whitelist_run wl id reqs st = map (fun kw => allowed wl (r_RemoteAddr (req kw.2))) reqs.
Proof.
  induction reqs as [|[k w] reqs IH]; intros st Hst; [done|]. cbn [whitelist_run map].
  destruct (checkIP_step k wl id (State w st) Hst) as (st' & Hst' & ->). unfold s_req. cbn [s_w snd].
  by destruct (allowed wl (r_RemoteAddr (req w))); rewrite IH.
Qed.

(** the cache of the IP list is invisible: starting without entries, every
    request of any sequence is let through exactly when its address is in one
    of the allowed networks (a text that is not an address is in none). *)
Theorem whitelist_exact wl id reqs st :
  st_cachedAddr st !! id = None ->
  whitelist_run wl id reqs st = map (fun kw => allowed wl (r_RemoteAddr (req kw.2))) reqs.
Proof.
  intros Hn. apply whitelist_run_spec. intros addr b. unfold cached. rewrite Hn. simpl. by rewrite lookup_empty.
Qed.

(** ** rate_limit *)

(** One limiter by itself. *)
Fixpoint limiter_run (l : Limiter) (times : list Z) : list bool :=
  match times with
  | [] => []
  | t :: ts => let '(b, l) := Allow t l in b :: limiter_run l ts
  end.

Definition limiter_of (rl : RateLimiterOpts) (id : nat) (host : bytes) (st : store) : Limiter :=
  default (newLimiter rl) (default ∅ (st_requestMap st !! id) !! host).

Definition host_of (w : world) : option bytes := fst <$> SplitHostPort (r_RemoteAddr (req w)).

(** The answers to a sequence of requests, with their hosts. *)
Fixpoint rate_run (rl : RateLimiterOpts) (id : nat) (reqs : list (rw * ext * world)) (st : store)
    : list (option bytes * bool) :=
  match reqs with
  | [] => []
  | (k, x, w) :: reqs' =>
      let '(b, s) := limit k x rl id (State w st) in (host_of w, b) :: rate_run rl id reqs' (s_st s)
  end.

Lemma limit_step k x rl id w st h :
  host_of w = Some h ->
  (limit k x rl id (State w st)).1 = (Allow (x_now x) (limiter_of rl id h st)).1
  /\ s_st (limit k x rl id (State w st)).2 = put_limiter id h (Allow (x_now x) (limiter_of rl id h st)).2 st.
Proof.
  unfold host_of, limit, limiter_of, s_req. cbn [s_w s_st].
  destruct (SplitHostPort (r_RemoteAddr (req w))) as [[h' p]|]; intros [= ->].
  destruct (Allow _ _) as [[|] l]; done.
Qed.

Lemma limit_no_host k x rl id w st :
  host_of w = None -> s_st (limit k x rl id (State w st)).2 = st /\ (limit k x rl id (State w st)).1 = false.
Proof.
  unfold host_of, limit, s_req. cbn [s_w s_st].
  by destruct (SplitHostPort (r_RemoteAddr (req w))) as [[h' p]|]; intros [=].
Qed.

Lemma limiter_put rl id h h' l st :
  limiter_of rl id h (put_limiter id h' l st) = if bool_decide (h = h') then l else limiter_of rl id h st.
Proof.
  unfold limiter_of, put_limiter. cbn [st_requestMap]. rewrite lookup_insert_eq. simpl.
  case_bool_decide as E; [subst; by rewrite lookup_insert_eq|by rewrite lookup_insert_ne by done].
Qed.

Lemma rate_run_spec rl id h reqs : forall st,
  map snd (filter (fun a => a.1 = Some h) (rate_run rl id reqs st))
  = limiter_run (limiter_of rl id h st)
      (map (fun r => x_now r.1.2) (filter (fun r => host_of r.2 = Some h) reqs)).
Proof.
  induction reqs as [|[[k x] w] reqs IH]; intros st; [done|]. cbn [rate_run].
  destruct (limit k x rl id (State w st)) as [b s] eqn:El. rewrite !filter_cons. cbn [fst snd].
  destruct (host_of w) as [h'|] eqn:Eh.
  - destruct (limit_step k x rl id w st h' Eh) as [Hb Hs]. rewrite El in Hb, Hs. cbn [fst snd] in Hb, Hs.
    case_decide as Hd; [injection Hd as ->|]; cbn [map limiter_run snd fst].
    + rewrite IH, Hs, limiter_put, bool_decide_eq_true_2 by done.
      destruct (Allow (x_now x) (limiter_of rl id h st)) as [b' l]. simpl in *. by rewrite Hb.
    + rewrite IH, Hs, limiter_put, bool_decide_eq_false_2 by congruence. done.
  - destruct (limit_no_host k x rl id w st Eh) as [Hs _]. rewrite El in Hs. cbn [snd] in Hs.
    case_decide; [done|]. by rewrite IH, Hs.
Qed.

(** clients do not affect each other: whatever the interleaving, the answers
    one address gets are those of a limiter of its own, fed with the times
    of that address's requests only. *)
Theorem rate_limit_per_host rl id reqs st h :
  st_requestMap st !! id = None ->
  map snd (filter (fun a => a.1 = Some h) (rate_run rl id reqs st))
  = limiter_run (newLimiter rl)
      (map (fun r => x_now r.1.2) (filter (fun r => host_of r.2 = Some h) reqs)).
Proof.
  intros Hn. rewrite rate_run_spec. unfold limiter_of. rewrite Hn. simpl. by rewrite lookup_empty.
Qed.

(** ** real_ip *)

(** The value [setRealIP] takes: the last one, or with [recursive] the last
    one that is not a trusted proxy. *)
Definition chosen (ri : RealIPOpts) (l1 : list bytes) (v : bytes) (l2 : list bytes) : Prop :=
  if ri_Recursive ri
  then isInCIDRList (ri_From ri) (ParseIP v) = false
       /\ Forall (fun u => isInCIDRList (ri_From ri) (ParseIP u) = true) l2
  else l2 = [].

Definition trusted_peer (ri : RealIPOpts) (r : Request) : bool :=
  isInCIDRList (ri_From ri) (ParseIP (remote_host (r_RemoteAddr r))).

Definition replaced_by (ri : RealIPOpts) (v : bytes) (r : Request) : Request :=
  set_RemoteAddr v (set_Header (Header_Set (Header_Set (r_Header r) (ri_Header ri) v) HeaderXRealIP v) r).

Lemma lastNonTrusted_snoc from l v :
  lastNonTrusted from (l ++ [v]) = if isInCIDRList from (ParseIP v) then lastNonTrusted from l else v.
Proof. unfold lastNonTrusted. by rewrite fold_left_app. Qed.

Lemma lastNonTrusted_chosen from l1 v l2 :
  isInCIDRList from (ParseIP v) = false ->
  Forall (fun u => isInCIDRList from (ParseIP u) = true) l2 ->
  lastNonTrusted from (l1 ++ v :: l2) = v.
Proof.
  intros Hv. induction l2 as [|u l2 IH] using rev_ind; intros Hl.
  - rewrite lastNonTrusted_snoc. by rewrite Hv.
  - apply Forall_app in Hl as [Hl Hu]. rewrite Forall_singleton in Hu.
    change (l1 ++ v :: l2 ++ [u]) with (l1 ++ (v :: l2) ++ [u]).
    rewrite app_assoc, lastNonTrusted_snoc, Hu. auto.
Qed.

Lemma lastNonTrusted_inv from l :
  lastNonTrusted from l <> [] ->
  exists l1 l2, l = l1 ++ lastNonTrusted from l :: l2
    /\ isInCIDRList from (ParseIP (lastNonTrusted from l)) = false
    /\ Forall (fun u => isInCIDRList from (ParseIP u) = true) l2.
Proof.
  induction l as [|u l IH] using rev_ind; [done|]. rewrite lastNonTrusted_snoc.
  destruct (isInCIDRList from (ParseIP u)) eqn:Eu; intros Hne.
  - destruct (IH Hne) as (l1 & l2 & E & Hv & Hl). exists l1, (l2 ++ [u]). split_and!; [|done|].
    + rewrite E at 1. by rewrite <- app_assoc.
    + apply Forall_app. by rewrite Forall_singleton.
  - by exists l, [].
Qed.

Lemma last_snoc (l : list bytes) v : List.last (l ++ [v]) [] = v.
Proof. apply List.last_last. Qed.

Lemma setRealIP_chosen ri r l1 v l2 :
  realIP_values ri (r_Header r) = l1 ++ v :: l2 -> v <> [] ->
  trusted_peer ri r = true -> chosen ri l1 v l2 -> setRealIP ri r = replaced_by ri v r.
Proof.
  unfold setRealIP, chosen. fold (trusted_peer ri r). intros Ev Hv Ht Hc. rewrite Ht.
  assert (E : (if ri_Recursive ri then lastNonTrusted (ri_From ri) (l1 ++ v :: l2)
               else List.last (l1 ++ v :: l2) []) = v).
  { destruct (ri_Recursive ri); [by destruct Hc; apply lastNonTrusted_chosen|].
    rewrite Hc. apply last_snoc. }
  rewrite Ev. destruct (l1 ++ v :: l2) as [|i ips] eqn:El; [by destruct l1|].
  cbn [negb]. rewrite E. by destruct v.
Qed.

(** C17: the client's address changes only for a connection from a trusted
    network that carries the header, and then to the text of one whole header
    line: the last line, or in recursive mode the last line that is not, as a
    whole, an address in a trusted network.  A client outside the trusted
    networks keeps its own address.  Lines are not split at commas: a line that
    holds a list of addresses, the usual form of such headers and the one the
    nginx module named in the comment reads, is taken as a whole
    ([real_ip_takes_whole_line]). *)
Theorem real_ip_trusted_only ri r :
  (forall l1 v l2, realIP_values ri (r_Header r) = l1 ++ v :: l2 -> v <> [] ->
     trusted_peer ri r = true -> chosen ri l1 v l2 -> setRealIP ri r = replaced_by ri v r)
  /\ (setRealIP ri r <> r ->
      trusted_peer ri r = true /\
      exists l1 v l2, realIP_values ri (r_Header r) = l1 ++ v :: l2 /\ v <> []
        /\ chosen ri l1 v l2 /\ setRealIP ri r = replaced_by ri v r).
Proof.
  split; [apply setRealIP_chosen|].
  unfold setRealIP, chosen. fold (trusted_peer ri r).
  destruct (realIP_values ri (r_Header r)) as [|i ips] eqn:Ev; [done|].
  destruct (trusted_peer ri r); [|done]. cbn [negb]. set (l := i :: ips) in *. clearbody l. clear Ev.
  destruct (if ri_Recursive ri then _ else _) as [|c v] eqn:E; [done|]. intros _. split; [done|].
  destruct (ri_Recursive ri).
  - destruct (lastNonTrusted_inv (ri_From ri) l) as (l1 & l2 & El & Hn & Hl); [by rewrite E|].
    rewrite E in *. by exists l1, (c :: v), l2.
  - destruct l as [|u l' _] using rev_ind; [done|]. rewrite last_snoc in E. subst u.
    by exists l', (c :: v), [].
Qed.

Lemma no_colon_no_port v : ":"%char ∉ v -> SplitHostPort v = None.
Proof.
  intros Hv. unfold SplitHostPort.
  assert (E : LastIndexByte v ":" = None); [|by rewrite E].
  induction v as [|c v IH]; [done|]. cbn [LastIndexByte].
  rewrite IH by set_solver. destruct (Ascii.eqb_spec c ":"); [set_solver|done].
Qed.

Lemma parse_octet_digits s z : parse_octet s = Some z -> forallb is_digit s = true.
Proof.
  unfold parse_octet. destruct s as [|c [|d s]]; [done| |].
  - simpl. by destruct (is_digit c).
  - by destruct (forallb is_digit (c :: d :: s)).
Qed.

Lemma mapM_octets c l zs :
  is_digit c = false -> mapM parse_octet l = Some zs -> Forall (fun p => c ∉ p) l.
Proof.
  intros Hc Hl. apply mapM_Some in Hl. eapply Forall2_Forall_l; [exact Hl|].
  apply Forall_true. intros z p Hp Hin.
  apply parse_octet_digits, forallb_Forall in Hp. rewrite Forall_forall in Hp.
  specialize (Hp _ Hin). simpl in Hp. congruence.
Qed.

Lemma Join_no_char (c : ascii) l : c <> "."%char -> Forall (fun p => c ∉ p) l -> c ∉ Join l ".".
Proof.
  intros Hc. induction 1 as [|p l Hp Hl IH]; [set_solver|]. destruct l as [|q l]; [done|].
  rewrite Join_cons by done. set_solver.
Qed.

(** Dotted decimal has digits and dots only. *)
Lemma ipv4_chars v ip c : parseIPv4 v = Some ip -> is_digit c = false -> c <> "."%char -> c ∉ v.
Proof.
  unfold parseIPv4. destruct (mapM parse_octet (Split v ".")) as [zs|] eqn:E; [|done]. intros _ Hd Hc.
  rewrite <- (Join_Split v "."). apply Join_no_char; [done|]. by eapply mapM_octets.
Qed.

Lemma ipv4_no_port v ip : parseIPv4 v = Some ip -> SplitHostPort v = None.
Proof. intros Hv. apply no_colon_no_port. by eapply ipv4_chars. Qed.

(** the address taken from a header has no port, and the rate limiter needs
    one: behind [real_ip], every request whose IPv4 address was replaced is
    answered with 500 and never reaches the upstream. *)
Theorem real_ip_then_rate_limit k x ri rl id s l1 (v : bytes) l2 ip :
  realIP_values ri (r_Header (s_req s)) = l1 ++ v :: l2 -> parseIPv4 v = Some ip ->
  trusted_peer ri (s_req s) = true -> chosen ri l1 v l2 ->
  before k x (Chain [RealIP ri; RateLimiter rl id] []) s
  = Ok (false, respond_error k "Internal error" 500 (map_req (replaced_by ri v) s)).
Proof.
  intros Hv Hip Ht Hc. assert (v <> []) as Hne by (by intros ->).
  pose proof (setRealIP_chosen ri (s_req s) _ _ _ Hv Hne Ht Hc) as Hr.
  rewrite before_Chain. cbn [run_before before total mbind result_bind].
  assert (E : map_req (setRealIP ri) s = map_req (replaced_by ri v) s).
  { unfold map_req, with_w, with_req. f_equal. unfold s_req in Hr. by rewrite Hr. }
  rewrite E. unfold limit, s_req, map_req, with_w, with_req. cbn [s_w s_st req].
  change (r_RemoteAddr (replaced_by ri v (req (s_w s)))) with v.
  by rewrite (ipv4_no_port _ _ Hip).
Qed.

(** ** x_forwarded *)

(** On a request from the wire (canonical keys), exactly the headers with the
    prefix X-Forwarded- are removed. *)
Theorem hide_x_forwarded_exact r (k : bytes) :
  (forall k, is_Some (r_Header r !! k) -> CanonicalHeaderKey k = k) ->
  r_Header (hideXForwarded_before r) !! k
  = if HasPrefix k "X-Forwarded-" then None else r_Header r !! k.
Proof.
  intros Hcan. unfold hideXForwarded_before. cbn [set_Header r_Header]. rewrite lookup_fold_Del.
  destruct (r_Header r !! k) as [vs|] eqn:E; [|by destruct (bool_decide _), (HasPrefix k _)].
  case_bool_decide as Hin.
  - apply list_elem_of_fmap in Hin as (k' & Ek & [Hp Hk']%list_elem_of_filter).
    apply list_elem_of_fmap in Hk' as ([k'' vs'] & -> & Hk''). apply elem_of_map_to_list in Hk''.
    simpl in *. rewrite Hcan in Ek by eauto. subst. by rewrite Hp.
  - destruct (HasPrefix k "X-Forwarded-") eqn:Hp; [|done]. destruct Hin.
    apply list_elem_of_fmap. exists k. split; [symmetry; apply Hcan; eauto|].
    apply list_elem_of_filter. split; [done|]. apply list_elem_of_fmap. exists (k, vs).
    split; [done|]. by apply elem_of_map_to_list.
Qed.

(** ** forwardauth *)

Lemma lookup_forward_headers (fa : ForwardAuthMiddlewareOpts) (resp h : Values) (q : bytes) :
  forward_headers fa resp h !! q
  = if bool_decide (q ∈ map CanonicalHeaderKey (fa_AuthResponseHeaders fa)) && negb (bool_decide (hget resp q = []))
    then Some [hget resp q] else h !! q.
Proof.
  unfold forward_headers. generalize (fa_AuthResponseHeaders fa) as l. intros l. revert h.
  induction l as [|k l IH]; intros h; [done|]. cbn [fold_left map].
  unfold Header_Get at 2. destruct (decide (q = CanonicalHeaderKey k)) as [->|Hne].
  - rewrite (bool_decide_eq_true_2 (_ ∈ _ :: _)) by set_solver. cbn [andb].
    destruct (hget resp (CanonicalHeaderKey k)) as [|c v] eqn:E.
    + rewrite IH. by rewrite andb_false_r.
    + rewrite IH. destruct (bool_decide (_ ∈ _)); cbn [andb]; [done|]. unfold Header_Set, hset. by rewrite lookup_insert_eq.
  - rewrite (bool_decide_ext (q ∈ CanonicalHeaderKey k :: _) (q ∈ map CanonicalHeaderKey l)) by set_solver.
    destruct (hget resp (CanonicalHeaderKey k)) as [|c v]; rewrite IH; [done|].
    unfold Header_Set, hset. by rewrite lookup_insert_ne by congruence.
Qed.

(** C18: a request passes exactly when the authentication server's route exists
    and it answers with a 2xx status; then every listed header the answer has
    is set to its value, and every other header is the client's.  In
    particular a listed header (such as Remote-User) that the answer lacks is
    forwarded as the client sent it. *)
Theorem forward_auth_exact k x (fa : ForwardAuthMiddlewareOpts) s s' :
  forwardAuth_before k x fa s = (true, s') <->
  exists target resp,
    x_route x (fa_Route fa) = Some target /\ NewRequest_ok (auth_url fa target) = true
    /\ x_auth x (auth_url fa target) (auth_headers (s_req s)) = Some resp
    /\ 200 <= ar_StatusCode resp < 300
    /\ s_st s' = s_st s /\ s_w s' = with_req (set_Header (r_Header (s_req s'))) (s_w s)
    /\ forall q, r_Header (s_req s') !! q =
         if bool_decide (q ∈ map CanonicalHeaderKey (fa_AuthResponseHeaders fa))
            && negb (bool_decide (hget (ar_Header resp) q = []))
         then Some [hget (ar_Header resp) q] else r_Header (s_req s) !! q.
Proof.
  unfold forwardAuth_before. split.
  - destruct (x_route x (fa_Route fa)) as [target|]; [|by intros [=]].
    destruct (NewRequest_ok (auth_url fa target)) eqn:En; [|by intros [=]]. cbn [negb].
    destruct (x_auth x _ _) as [resp|] eqn:Ea; [|by intros [=]].
    destruct ((ar_StatusCode resp <? 200) || (300 <=? ar_StatusCode resp)) eqn:Ec; [by intros [=]|].
    intros [= <-]. exists target, resp. split_and!; try done; [lia|lia|].
    intros q. apply lookup_forward_headers.
  - intros (target & resp & -> & -> & -> & Hc & Hst & Hw & Hh). cbn [negb].
    replace ((ar_StatusCode resp <? 200) || (300 <=? ar_StatusCode resp)) with false by lia.
    f_equal. destruct s as [w st], s' as [w' st']. cbn [s_st s_w] in *. subst st'.
    unfold map_req, with_w, with_req, s_req in *. cbn [s_st s_w] in *. f_equal. rewrite Hw. f_equal.
    f_equal. apply map_eq. intros q. rewrite lookup_forward_headers. by rewrite Hh.
Qed.

(** ** cloudflare_real_ip *)

Lemma setRealIP_no_networks ri r : ri_From ri = [] -> setRealIP ri r = r.
Proof.
  intros Hf. unfold setRealIP. destruct (realIP_values ri (r_Header r)); [done|]. by rewrite Hf.
Qed.

Lemma with_req_id w f : f (req w) = req w -> with_req f w = w.
Proof. intros Hf. unfold with_req. rewrite Hf. by destruct w. Qed.

(** The time of the last download is shared by all instances, the networks
    are not: once one instance has downloaded them, another one does not
    trust any network for the following hour, so it leaves the address of
    every request as it is. *)
Theorem cloudflare_second_instance x x' id id' s s' c4 c6 :
  id' <> id -> st_cf_From (s_st s) !! id' = None ->
  cf_fresh (x_now x) (st_cf_last (s_st s)) = false -> cf_fresh (x_locked x) (st_cf_last (s_st s)) = false ->
  fetchUpdateCFIPRange x cfIPv4CIDRsEndpoint = Some c4 -> fetchUpdateCFIPRange x cfIPv6CIDRsEndpoint = Some c6 ->
  s_st s' = s_st (cloudflare_before x id s).2 ->
  0 <= x_now x' - x_done x < cfCIDRsUpdateInterval ->
  cloudflare_before x' id' s' = (true, s').
Proof.
  intros Hid Hn H1 H2 E4 E6 Hs' Ht. unfold cloudflare_before, tryFetchCFCIDR in Hs'.
  rewrite H1, H2, E4, E6 in Hs'. cbn [snd s_st] in Hs'.
  unfold cloudflare_before, tryFetchCFCIDR. rewrite Hs'. cbn [set_cf_From set_cf_last st_cf_last cf_fresh].
  replace (time_Sub (x_now x') (x_done x) <? cfCIDRsUpdateInterval) with true.
  2:{ unfold time_Sub, cfCIDRsUpdateInterval, Hour, Minute, Second, Millisecond in *. lia. }
  rewrite with_req_id.
  - destruct s' as [w' st']. cbn [s_st] in Hs'. by rewrite <- Hs'.
  - apply setRealIP_no_networks. unfold cloudflare_opts. cbn [ri_From set_cf_From st_cf_From set_cf_last].
    rewrite lookup_insert_ne by done. by rewrite Hn.
Qed.

(** A failed download is retried by the very next request, not three seconds
    later: whenever that is, the last update counts as too old. *)
Theorem cloudflare_failure_retries_at_once x x' st :
  cf_fresh (x_now x) (st_cf_last st) = false -> cf_fresh (x_locked x) (st_cf_last st) = false ->
  fetchUpdateCFIPRange x cfIPv4CIDRsEndpoint = None -> x_done x <= x_now x' ->
  cf_fresh (x_now x') (st_cf_last (tryFetchCFCIDR x st).2) = false.
Proof.
  intros H1 H2 E4 Ht. unfold tryFetchCFCIDR. rewrite H1, H2, E4. simpl.
  unfold time_Sub, cfCIDRsUpdateInterval, cfCIDRsUpdateRetryInterval, Hour, Minute, Second, Millisecond. lia.
Qed.

(** ** cidr.go *)

Lemma land_ones8 z : 0 <= z < 256 -> Z.land z 255 = z.
Proof. intros Hz. change 255 with (Z.ones 8). rewrite Z.land_ones by lia. apply Z.mod_small. lia. Qed.

Lemma parse_octet_range s z : parse_octet s = Some z -> 0 <= z < 256.
Proof.
  unfold parse_octet. destruct s as [|c [|d s]]; [done| |].
  - destruct (is_digit c) eqn:Ed; [|done]. intros [= <-]. unfold digit_val.
    pose proof (is_digit_range c Ed). lia.
  - destruct (forallb is_digit (c :: d :: s)) eqn:Ed; [|done]. cbn [andb].
    destruct (negb _); [|done]. cbn [andb]. destruct (digits_val (c :: d :: s) <=? 255) eqn:El; [|done].
    intros [= <-]. assert (Hp : parse_digits (c :: d :: s) = Some (digits_val (c :: d :: s))).
    { unfold parse_digits. by rewrite Ed. }
    apply parse_digits_nonneg in Hp. lia.
Qed.

Lemma parseIPv4_bytes v ip : parseIPv4 v = Some ip -> exists a b c d, ip = [a; b; c; d]
  /\ 0 <= a < 256 /\ 0 <= b < 256 /\ 0 <= c < 256 /\ 0 <= d < 256.
Proof.
  unfold parseIPv4. destruct (mapM parse_octet (Split v ".")) as [zs|] eqn:E; [|done].
  destruct zs as [|a [|b [|c [|d [|]]]]]; try done. intros [= <-]. exists a, b, c, d.
  split; [done|]. apply mapM_Some in E. apply (Forall2_Forall_r _ (fun z => 0 <= z < 256)) in E.
  - by rewrite !Forall_cons in E; destruct E as (? & ? & ? & ? & _).
  - apply Forall_true. intros p z. apply parse_octet_range.
Qed.

Definition byte_range (z : Z) : Prop := 0 <= z < 256.

Lemma and_full (l : list Z) : Forall byte_range l -> length l = 4%nat -> and_bytes l [255; 255; 255; 255] = l.
Proof.
  intros Hl. destruct l as [|a [|b [|c [|d [|]]]]]; try done. intros _.
  rewrite !Forall_cons in Hl. destruct Hl as (? & ? & ? & ? & _).
  unfold and_bytes. simpl. by rewrite !land_ones8.
Qed.

Lemma To4_Some (ip x : IP) :
  Forall byte_range ip -> To4 ip = Some x -> Forall byte_range x /\ length x = 4%nat.
Proof.
  unfold To4. intros Hip. destruct (length ip =? 4)%nat eqn:E4; [apply Nat.eqb_eq in E4; by intros [= <-]|].
  destruct (length ip =? 16)%nat eqn:E16; [|done]. cbn [andb]. case_bool_decide; [|done]. intros [= <-].
  apply Nat.eqb_eq in E16. split; [by apply Forall_drop|]. rewrite length_drop. lia.
Qed.

Lemma Contains_single (a ip : IP) :
  Forall byte_range a -> length a = 4%nat -> Forall byte_range ip ->
  Contains {| net_IP := a; net_Mask := [255; 255; 255; 255] |} ip = true <-> To4 ip = Some a.
Proof.
  intros Ha Hl Hip. unfold Contains. cbn [net_IP net_Mask].
  assert (E : To4 a = Some a) by (unfold To4; by rewrite Hl). rewrite E. simpl (default a (Some a)).
  rewrite Hl, andb_false_r, and_full by done.
  destruct (To4 ip) as [x|] eqn:Ex; simpl (default ip _).
  - destruct (To4_Some ip x Hip Ex) as [Hx Hlx]. rewrite Hlx, and_full by done. cbn [Nat.eqb andb].
    rewrite bool_decide_eq_true. split; congruence.
  - destruct (length ip =? 4)%nat eqn:E4; [|done]. unfold To4 in Ex. by rewrite E4 in Ex.
Qed.

(** A network given as a bare IPv4 address contains that address only. *)
Theorem single_address_exact v a ip :
  addr_kind v = Some "."%char -> parseIPv4 v = Some a -> Forall byte_range ip ->
  exists n, CIDR_Parse v = Some n /\ (Contains n ip = true <-> To4 ip = Some a).
Proof.
  intros Hk Ha Hip. assert ("/"%char ∉ v) as Hs by (by eapply ipv4_chars).
  unfold CIDR_Parse. rewrite bool_decide_eq_false_2 by done.
  unfold ParseCIDR, Cut. change (v ++ B "/32") with (v ++ "/"%char :: B "32").
  rewrite IndexByte_first by done. rewrite take_app_exact by done.
  replace (drop (S (length v)) (v ++ "/"%char :: B "32")) with (B "32").
  2:{ rewrite <- Nat.add_1_r, <- drop_drop. by rewrite drop_app_exact. }
  unfold ParseAddr. rewrite Hk, Ha. cbn [mbind option_bind].
  destruct (parseIPv4_bytes _ _ Ha) as (a1 & a2 & a3 & a4 & -> & H1 & H2 & H3 & H4).
  assert (Hr : Forall byte_range [a1; a2; a3; a4]) by (repeat (apply Forall_cons_2; [assumption|]); constructor).
  change (CIDRMask _ _) with [255; 255; 255; 255].
  change (Mask (As16 [a1; a2; a3; a4]) [255; 255; 255; 255])
    with (and_bytes [a1; a2; a3; a4] [255; 255; 255; 255]).
  rewrite and_full by done. eexists. split; [reflexivity|]. by apply Contains_single.
Qed.

(** ** ServeHTTP *)

Lemma StatusCode_stable m : StatusCode (set_statusCode (StatusCode m) m) = StatusCode m.
Proof.
  unfold StatusCode. simpl. destruct (rm_statusCode m =? 0) eqn:E; [done|]. by rewrite E.
Qed.

(** When the requests proceed and no response modifier is configured, the
    client receives the status and the body that the next handler wrote,
    although the whole response was buffered in between. *)
Theorem ServeHTTP_passes_response cw cf name bs next x s s0 s1 :
  run_before Raw x bs s = Ok (true, s0) ->
  next Modifier (State (raw_world (s_w s0)) (s_st s0)) = Ok s1 ->
  rm_hijacked (rm (s_w s1)) = false -> w_sent (out (s_w s1)) = None ->
  (forall b, (cw b).1 = length b) ->
  exists s', ServeHTTP cw cf {| mw_name := name; mw_Priority := 0; mw_Bypass := []; mw_impl := Chain bs [] |}
               next Raw x s = Ok s'
  /\ w_sent (out (s_w s')) = Some (StatusCode (rm (s_w s1)))
  /\ w_body (out (s_w s')) = w_body (out (s_w s1)) ++ Content (rm (s_w s1)).
Proof.
  intros Hb Hn Hh Hs Hcw. unfold ServeHTTP, TryModifyRequest. cbn [mw_impl is_RequestModifier is_ResponseModifier].
  rewrite before_Chain, Hb. cbn [mbind result_bind negb]. unfold raw_world in Hn. rewrite Hn.
  cbn [mbind result_bind]. rewrite modifyResponse_Chain. cbn [run_modify mbind result_bind].
  eexists. split; [reflexivity|]. cbn [s_w flush_to rs_req rs_resp].
  set (w := write_back _ _). assert (Ew : rm w = set_statusCode (StatusCode (rm (s_w s1))) (rm (s_w s1))) by done.
  assert (Es : w_sent (out w) = None) by (exact Hs).
  assert (Eb : w_body (out w) = w_body (out (s_w s1))) by done. clearbody w.
  unfold FlushRelease. rewrite Ew. cbn [rm_hijacked set_statusCode]. rewrite Hh, StatusCode_stable.
  unfold ContentLength, Content. cbn [rm_buf set_statusCode].
  destruct (default [] (rm_buf (rm (s_w s1)))) as [|c l] eqn:Ec; simpl length.
  - simpl. rewrite Es, Eb. by rewrite app_nil_r.
  - destruct (0 <? Z.of_nat (S (length l))) eqn:E0; [|apply Z.ltb_ge in E0; lia].
    pose proof (Hcw (c :: l)) as Hl. destruct (cw (c :: l)) as [n e]. simpl in Hl. subst n. simpl.
    rewrite Es, Eb. by rewrite firstn_all.
Qed.

End Spec.

(** ** Examples and witnesses *)

Definition local_net : IPNet := {| net_IP := [10; 0; 0; 0]; net_Mask := [255; 0; 0; 0] |}.

Definition example_list : CIDRWhitelistOpts :=
  {| wl_Allow := [local_net]; wl_StatusCode := 403; wl_Message := B "IP not allowed" |}.

Definition example_ri : RealIPOpts :=
  {| ri_Header := B "X-Forwarded-For"; ri_From := [local_net]; ri_Recursive := true |}.

Definition proxied : state :=
  State (from_addr "10.0.0.1:4000" "/" {[ B "X-Forwarded-For" := [B "203.0.113.9"; B "10.0.0.7"] ]}) empty_store.

(** A bare IPv6 address becomes a /32 network, with 2^96 addresses. *)
Example single_ipv6_is_a_network :
  exists n, CIDR_Parse "2001:db8::1" = Some n
  /\ CIDR_Contains n (ParseIP "2001:db8:ffff::bad") = true.
Proof. eexists. split; vm_compute; reflexivity. Qed.

Example real_ip_ex :
  r_RemoteAddr (setRealIP example_ri (s_req proxied)) = B "203.0.113.9"
  /\ setRealIP example_ri (req (from_addr "203.0.113.9:4000" "/" (r_Header (s_req proxied))))
     = req (from_addr "203.0.113.9:4000" "/" (r_Header (s_req proxied))).
Proof. split; vm_compute; reflexivity. Qed.

(** A list of addresses in one line becomes the client's address as it is, in
    both modes; the last address of the list is not looked for. *)
Example real_ip_takes_whole_line :
  let r := req (from_addr "10.0.0.1:4000" "/" {[ B "X-Forwarded-For" := [B "203.0.113.9, 10.0.0.7"] ]}) in
  r_RemoteAddr (setRealIP example_ri r) = B "203.0.113.9, 10.0.0.7"
  /\ r_RemoteAddr (setRealIP {| ri_Header := B "X-Forwarded-For"; ri_From := [local_net]; ri_Recursive := false |} r)
     = B "203.0.113.9, 10.0.0.7".
Proof. split; vm_compute; reflexivity. Qed.

(** Everything under /public/. *)
Definition public_rule : bytes := "path glob(/public/*)".

Definition public_on : RuleOn :=
  match RuleOn_Parse public_rule with
  | Ok (on, _) => on
  | _ => {| on_raw := []; on_checker := None; on_isResponseChecker := false |}
  end.

Example public_on_ok : RuleOn_Parse public_rule = Ok (public_on, []).
Proof. vm_compute. reflexivity. Qed.

Definition denied_path (path : bytes) : state := State (from_addr "203.0.113.9:4000" path ∅) empty_store.

Lemma bypass_exact_witness :
  fst <$> before Raw (quiet 0) (CheckBypass [public_on] [] (CIDRWhiteList example_list 0))
            (denied_path "/public/x") = Ok true
  /\ fst <$> before Raw (quiet 0) (CheckBypass [public_on] [] (CIDRWhiteList example_list 0))
            (denied_path "/private") = Ok false.
Proof.
  split.
  - destruct (bypass_exact Raw (quiet 0) [public_rule] [public_on] [] (CIDRWhiteList example_list 0)
      (denied_path "/public/x")) as (w' & _ & _ & E).
    + constructor; [exact public_on_ok|constructor].
    + done.
    + intros v ->%list_elem_of_singleton. vm_compute. discriminate.
    + done.
    + rewrite E. vm_compute. reflexivity.
  - vm_compute. reflexivity.
Defined.

Definition list_mw (p : Z) : Middleware :=
  {| mw_name := B "cidr"; mw_Priority := p; mw_Bypass := []; mw_impl := CIDRWhiteList example_list 0 |}.

Definition hide_mw (p : Z) : Middleware :=
  {| mw_name := B "hide"; mw_Priority := p; mw_Bypass := []; mw_impl := HideXForwarded |}.

Definition upstream_proxy : ReverseProxy :=
  {| rp_HandlerFunc := fun _ _ s => Ok (with_w (rm_Write "upstream") s); rp_ModifyResponse := None |}.

Lemma chain_stops_at_first_witness :
  exists s, rp_HandlerFunc (patchReverseProxy upstream_proxy "route" [hide_mw 1; list_mw 2])
    (quiet 0) Modifier (denied_path "/") = Ok s
  /\ rm_statusCode (rm (s_w s)) = 403.
Proof.
  destruct (chain_stops_at_first upstream_proxy "route" [list_mw 2; hide_mw 1] [hide_mw 1; list_mw 2]
    (quiet 0) Modifier (denied_path "/")) as (_ & Hstop & _).
  - split; [apply perm_swap|]. repeat constructor; simpl; lia.
  - eexists. split.
    + apply (Hstop [hide_mw 1] (list_mw 2) [] (map_req hideXForwarded_before (denied_path "/"))); reflexivity.
    + vm_compute. reflexivity.
Defined.

Definition three_requests : list (rw * world) :=
  [(Raw, from_addr "10.0.0.1:4000" "/" ∅); (Raw, from_addr "203.0.113.9:4000" "/" ∅);
   (Modifier, from_addr "10.0.0.1:4000" "/" ∅)].

Lemma whitelist_exact_witness : whitelist_run example_list 0 three_requests empty_store = [true; false; true].
Proof. rewrite whitelist_exact; vm_compute; reflexivity. Defined.

Definition limited : RateLimiterOpts := {| rl_Average := 1; rl_Burst := 2; rl_Period := Second |}.

Definition interleaved : list (rw * ext * world) :=
  map (fun a => (Raw, quiet 0, from_addr a "/" ∅))
    [B "10.0.0.1:1"; B "10.0.0.2:1"; B "10.0.0.1:2"; B "10.0.0.1:3"; B "10.0.0.2:2"].

Lemma rate_limit_per_host_witness :
  map snd (filter (fun a => a.1 = Some (B "10.0.0.1")) (rate_run limited 0 interleaved empty_store))
  = [true; true; false].
Proof. rewrite rate_limit_per_host; vm_compute; reflexivity. Defined.

Lemma real_ip_then_rate_limit_witness :
  exists s, before Modifier (quiet 0) (Chain [RealIP example_ri; RateLimiter limited 0] []) proxied = Ok (false, s)
  /\ rm_statusCode (rm (s_w s)) = 500.
Proof.
  eexists. split.
  - apply (real_ip_then_rate_limit Modifier (quiet 0) example_ri limited 0 proxied
      [] (B "203.0.113.9") [B "10.0.0.7"] [203; 0; 113; 9]).
    + vm_compute. reflexivity.
    + vm_compute. reflexivity.
    + vm_compute. reflexivity.
    + split; [vm_compute; reflexivity|]. constructor; [vm_compute; reflexivity|constructor].
  - vm_compute. reflexivity.
Defined.

(** The answers of the endpoints: one network each. *)
Definition cf_up (now : Z) : ext :=
  {| x_now := now; x_locked := now; x_done := now;
     x_cf e := Some (if bool_decide (e = cfIPv4CIDRsEndpoint) then B "173.245.48.0/20" else B "2400:cb00::/32");
     x_auth _ _ := None; x_route _ := None |}.

Definition via_cloudflare : world :=
  from_addr "173.245.48.5:443" "/" {[ B "Cf-Connecting-Ip" := [B "203.0.113.9"] ]}.

Lemma cloudflare_second_instance_witness :
  let s := State via_cloudflare empty_store in
  let s1 := (cloudflare_before (cf_up 0) 0 s).2 in
  let s2 := State via_cloudflare (s_st s1) in
  r_RemoteAddr (s_req s1) = B "203.0.113.9" /\ cloudflare_before (cf_up Minute) 1 s2 = (true, s2).
Proof.
  intros s s1 s2. split; [vm_compute; reflexivity|].
  destruct (fetchUpdateCFIPRange (cf_up 0) cfIPv4CIDRsEndpoint) as [c4|] eqn:E4; [|vm_compute in E4; discriminate].
  destruct (fetchUpdateCFIPRange (cf_up 0) cfIPv6CIDRsEndpoint) as [c6|] eqn:E6; [|vm_compute in E6; discriminate].
  apply (cloudflare_second_instance (cf_up 0) (cf_up Minute) 0 1 s s2 c4 c6);
    first [assumption | reflexivity | vm_compute; split; congruence | done].
Defined.

(** *** Variables in headers *)

Definition backend : upstream :=
  {| up_Name := B "app"; up_URL := Some {| u_Scheme := B "http"; u_Host := B "172.17.0.5:8080"; u_Path := [];
     u_RawPath := []; u_RawQuery := []; u_Fragment := [] |} |}.

Definition set_route (u : upstream) (r : Request) : Request :=
  {| r_Method := r_Method r; r_URL := r_URL r; r_Host := r_Host r; r_Header := r_Header r;
     r_RemoteAddr := r_RemoteAddr r; r_RequestURI := r_RequestURI r;
     r_ContentLength := r_ContentLength r; r_TLS := r_TLS r; r_Body := r_Body r;
     r_forms := r_forms r; r_route := Some u |}.

Definition curious_client : Request :=
  set_route backend (example_request "GET" "/" {[ B "X-Q" := [B "$upstream_url"] ]}).

Lemma header_value_reexpanded_witness :
  varReplace (Some curious_client) None "$header(x-q)" = B "http://172.17.0.5:8080".
Proof.
  rewrite (header_value_reexpanded curious_client "x-q" "$upstream_url" TryGetUpstreamURL);
    [vm_compute; reflexivity|done|vm_compute; reflexivity|vm_compute; reflexivity|vm_compute; reflexivity].
Defined.

Definition two_headers (l : list (bytes * bytes)) : ModifyRequestOpts :=
  {| SetHeaders := l; AddHeaders := []; HideHeaders := []; AddPrefix := []; needVarSubstitution := true |}.

(** With variables, what a header becomes depends on the order in which Go
    ranges over the map: a substitution reads the headers set before it. *)
Example substitution_order :
  let a := (B "X-A", B "$header(X-B)") in
  let b := (B "X-B", B "new") in
  let r := example_request "GET" "/" {[ B "X-B" := [B "old"] ]} in
  Header_Get (r_Header (modifyRequest_before (two_headers [a; b]) r)) "X-A" = B "old"
  /\ Header_Get (r_Header (modifyRequest_before (two_headers [b; a]) r)) "X-A" = B "new".
Proof. split; vm_compute; reflexivity. Qed.

(** [add_prefix] cleans the joined path: dot segments leave the prefix, and a
    final slash is lost. *)
Example prefix_left :
  let o := {| SetHeaders := []; AddHeaders := []; HideHeaders := []; AddPrefix := B "/api";
              needVarSubstitution := false |} in
  u_Path (r_URL (modifyRequest_before o (example_request "GET" "/../admin" ∅))) = B "/admin"
  /\ u_Path (r_URL (modifyRequest_before o (example_request "GET" "/users/" ∅))) = B "/api/users".
Proof. split; vm_compute; reflexivity. Qed.

(** A header of the client that the authentication server did not answer with
    reaches the upstream. *)
Definition auth_accepts : ext :=
  {| x_now := 0; x_locked := 0; x_done := 0; x_cf _ := None;
     x_auth _ _ := Some {| ar_StatusCode := 200; ar_Header := {[ B "Remote-Groups" := [B "users"] ]};
                           ar_Body := Some []; ar_Location := NoLocation |};
     x_route _ := up_URL backend |}.

Definition claims_admin : state :=
  State (from_addr "203.0.113.9:1" "/" {[ B "Remote-User" := [B "admin"] ]}) empty_store.

Example client_identity_kept :
  let '(proceed, s') := forwardAuth_before Raw auth_accepts forwardAuth_setup claims_admin in
  proceed = true /\ Header_Get (r_Header (s_req s')) "Remote-User" = B "admin".
Proof. vm_compute. split; reflexivity. Qed.

Lemma forward_auth_exact_witness :
  let s' := (forwardAuth_before Raw auth_accepts forwardAuth_setup claims_admin).2 in
  exists resp, 200 <= ar_StatusCode resp < 300 /\ hget (ar_Header resp) "Remote-Groups" = B "users"
  /\ s_st s' = empty_store.
Proof.
  intros s'.
  destruct (proj1 (forward_auth_exact Raw auth_accepts forwardAuth_setup claims_admin s') eq_refl)
    as (target & resp & _ & _ & Hr & Hc & Hs & _).
  exists resp. split; [exact Hc|]. injection Hr as <-. split; [vm_compute; reflexivity|exact Hs].
Defined.

(** A modifier that changes nothing still makes [ServeHTTP] buffer: what the
    upstream wrote is sent by the final flush. *)
Example empty_chain_buffers :
  let '(sent, body) := match ServeHTTP (fun b => (length b, false)) false (NewMiddlewareChain "entrypoint" [])
      (fun k s => Ok (with_w (on_writer k (rm_Write "hello")) s)) Raw (quiet 0) (denied_path "/") with
    | Ok s => (w_sent (out (s_w s)), w_body (out (s_w s)))
    | _ => (None, [])
    end in
  sent = Some 200 /\ body = B "hello".
Proof. vm_compute. split; reflexivity. Qed.
