(* ===== verification/MiddlewareBuild.v ===== *)
(** * Middlewares: construction, composition and the registry

    Models the construction in internal/net/gphttp/middleware: [New], [apply]
    and [finalize] of middleware.go, middleware_builder.go, and [Get] and
    [LoadComposeFiles] of middlewares.go.

    Decoding a map of options into a struct (internal/serialization) and the
    normalisation of names (goutils) are fields of [BuildLib].  A constructed
    instance that keeps state takes the next free number of the [store]. *)

From S2P Require Import Prelude GoStrings RulesHTTP RulesOn RulesDo MiddlewareVars Middleware.

(** A decoded YAML or JSON value, as far as the builder looks at it. *)
Inductive any_value := VNil | VString (s : bytes) | VAny (n : nat).

Abbreviation OptionsRaw := (gmap bytes any_value).

#[export] Instance any_value_eq_dec : EqDecision any_value.
Proof. solve_decision. Defined.

(** The implementations of [allMiddlewares]. *)
Inductive kind :=
  | KRedirectHTTP | KOIDC | KForwardAuth | KModifyRequest | KModifyResponse | KSetXForwarded
  | KHideXForwarded | KModifyHTML | KThemed | KCustomErrorPage | KRealIP | KCloudflareRealIP
  | KCIDRWhiteList | KRateLimiter | KHCaptcha.

#[export] Instance kind_eq_dec : EqDecision kind.
Proof. solve_decision. Defined.

Inductive build_error :=
  | ErrUnknownMiddleware
  | ErrMissingMiddlewareUse
  | ErrAdditionalOptions
  | ErrDecode (text : bytes)
  | ErrFinalize (text : bytes).

Section Build.

Context `{HL : HTTPLib} `{RL : RuleLib} `{DL : DoLib} `{ML : MwLib} `{MD : MidLib}.

(** [decode k i opts]: the options written over the implementation [setup]
    left; [other k]: the implementations that are not modelled. *)
Class BuildLib := {
  decode_common : OptionsRaw -> result build_error (Z * list RuleOn);
  decode : kind -> impl -> OptionsRaw -> result build_error impl;
  other : kind -> nat -> impl;
  other_finalize : kind -> impl -> result build_error impl;
  ToLowerNoSnake : bytes -> bytes
}.

Context `{BL : BuildLib}.

(** ** middleware.go *)

Definition empty_opts : ModifyRequestOpts :=
  {| SetHeaders := []; AddHeaders := []; HideHeaders := []; AddPrefix := []; needVarSubstitution := false |}.

(** [construct] followed by [setup]. *)
Definition construct_setup (k : kind) (id : nat) : impl :=
  match k with
  | KRedirectHTTP => RedirectHTTP []
  | KForwardAuth => ForwardAuth forwardAuth_setup
  | KModifyRequest => ModifyRequest empty_opts
  | KModifyResponse => ModifyResponse empty_opts
  | KSetXForwarded => SetXForwarded
  | KHideXForwarded => HideXForwarded
  | KCustomErrorPage => CustomErrorPage
  | KRealIP => RealIP realIPOptsDefault
  | KCloudflareRealIP => CloudflareRealIP id
  | KCIDRWhiteList => CIDRWhiteList cidrWhitelistDefaults id
  | KRateLimiter => RateLimiter rateLimiterOptsDefault id
  | KOIDC | KModifyHTML | KThemed | KHCaptcha => other k id
  end.

(** [Middleware.finalize]. *)
Definition finalize (k : kind) (i : impl) : result build_error impl :=
  match i with
  | ModifyRequest o => Ok (ModifyRequest (ModifyRequestOpts_finalize o))
  | ModifyResponse o => Ok (ModifyResponse (ModifyRequestOpts_finalize o))
  | Other _ _ _ => other_finalize k i
  | _ => Ok i
  end.

(** The options every middleware has. *)
Definition is_common (key : bytes) : bool := bool_decide (key = B "priority" \/ key = B "bypass").

Definition commonOpts (opts : OptionsRaw) : OptionsRaw := filter (fun kv => is_common kv.1 = true) opts.

Definition apply (k : kind) (opts : OptionsRaw) (m : Middleware) : result build_error Middleware :=
  if bool_decide (opts = ∅) then Ok m
  else
    '(m, opts) ←
      (if bool_decide (commonOpts opts = ∅) then Ok (m, opts)
       else '(priority, bypass) ← decode_common (commonOpts opts);
            Ok ({| mw_name := mw_name m; mw_Priority := priority; mw_Bypass := bypass; mw_impl := mw_impl m |},
                filter (fun kv => is_common kv.1 = false) opts));
    i ← decode k (mw_impl m) opts;
    Ok {| mw_name := mw_name m; mw_Priority := mw_Priority m; mw_Bypass := mw_Bypass m; mw_impl := i |}.

(** An entry of the registry; [en_construct] is nil for a composed one. *)
Record entry := { en_construct : option kind; en_mid : Middleware }.

(** [Middleware.New], with the number of the next instance. *)
Definition New (e : entry) (opts : OptionsRaw) (next : nat) : result build_error Middleware :=
  match en_construct e with
  | None => if bool_decide (opts = ∅) then Ok (en_mid e) else Err ErrAdditionalOptions
  | Some k =>
      let mid := {| mw_name := mw_name (en_mid e); mw_Priority := 0; mw_Bypass := [];
                    mw_impl := construct_setup k next |} in
      mid ← apply k opts mid;
      i ← finalize k (mw_impl mid);
      let mid := {| mw_name := mw_name mid; mw_Priority := mw_Priority mid; mw_Bypass := mw_Bypass mid;
                    mw_impl := i |} in
      Ok {| mw_name := mw_name mid; mw_Priority := mw_Priority mid; mw_Bypass := mw_Bypass mid;
            mw_impl := withCheckBypass mid |}
  end.

(** ** middlewares.go: the registry *)

Abbreviation registry := (gmap bytes entry).

Definition Get (reg : registry) (name : bytes) : result build_error entry :=
  match reg !! ToLowerNoSnake name with Some e => Ok e | None => Err ErrUnknownMiddleware end.

Definition base_entry (k : kind) (name : bytes) : entry :=
  {| en_construct := Some k;
     en_mid := {| mw_name := name; mw_Priority := 0; mw_Bypass := []; mw_impl := Chain [] [] |} |}.

Definition allMiddlewares : registry :=
  list_to_map (map (fun kv => (B kv.1, base_entry kv.2.1 (B kv.2.2)))
    [("redirecthttp", (KRedirectHTTP, "redirectHTTP")); ("oidc", (KOIDC, "oidcMiddleware"));
     ("forwardauth", (KForwardAuth, "forwardAuthMiddleware"));
     ("request", (KModifyRequest, "modifyRequest")); ("modifyrequest", (KModifyRequest, "modifyRequest"));
     ("response", (KModifyResponse, "modifyResponse")); ("modifyresponse", (KModifyResponse, "modifyResponse"));
     ("setxforwarded", (KSetXForwarded, "setXForwarded")); ("hidexforwarded", (KHideXForwarded, "hideXForwarded"));
     ("modifyhtml", (KModifyHTML, "modifyHTML")); ("themed", (KThemed, "themed"));
     ("errorpage", (KCustomErrorPage, "customErrorPage")); ("customerrorpage", (KCustomErrorPage, "customErrorPage"));
     ("realip", (KRealIP, "realIP")); ("cloudflarerealip", (KCloudflareRealIP, "cloudflareRealIP"));
     ("cidrwhitelist", (KCIDRWhiteList, "cidrWhitelist")); ("ratelimit", (KRateLimiter, "rateLimiter"));
     ("hcaptcha", (KHCaptcha, "hCaptcha"))]%string).

(** ** middleware_builder.go *)

(** [New] of a composed entry returns the registry's own object, so assigning
    [m.name] renames that entry too; names are only logged, and the model
    leaves the registry's alone.

    The state of the loop over definitions: the chain, the errors with their
    positions, and the next instance. *)
Record build := { b_chain : list Middleware; b_errs : list (nat * build_error); b_next : nat }.

Definition rename (name : bytes) (m : Middleware) : Middleware :=
  {| mw_name := name; mw_Priority := mw_Priority m; mw_Bypass := mw_Bypass m; mw_impl := mw_impl m |}.

Definition indexed (name : bytes) (i : nat) : bytes := name ++ "["%char :: Itoa (Z.of_nat i) ++ ["]"%char].

Definition add_error (i : nat) (e : build_error) (b : build) : build :=
  {| b_chain := b_chain b; b_errs := b_errs b ++ [(i, e)]; b_next := b_next b |}.

(** One definition: a result with its error, or the panic of the assertion
    that [use] is a string. *)
Definition build_def (reg : registry) (next : nat) (def : OptionsRaw) : result build_error Middleware :=
  match def !! B "use" with
  | None | Some VNil | Some (VString []) => Err ErrMissingMiddlewareUse
  | Some (VAny _) => Panic InterfaceConversion
  | Some (VString baseName) => e ← Get reg baseName; New e (delete (B "use") def) next
  end.

Fixpoint build_defs (reg : registry) (name : bytes) (i : nat) (defs : list OptionsRaw) (b : build)
    : result build_error build :=
  match defs with
  | [] => Ok b
  | def :: defs' =>
      match build_def reg (b_next b) def with
      | Ok m => build_defs reg name (S i) defs'
                  {| b_chain := b_chain b ++ [rename (indexed name i) m]; b_errs := b_errs b;
                     b_next := S (b_next b) |}
      | Err e => build_defs reg name (S i) defs' (add_error i e b)
      | Panic p => Panic p
      end
  end.

(** [BuildMiddlewareFromChainRaw]: the chain, or all the errors. *)
Definition BuildMiddlewareFromChainRaw (reg : registry) (name : bytes) (defs : list OptionsRaw) (next : nat)
    : result build_error ((list (nat * build_error) + Middleware) * nat) :=
  b ← build_defs reg name 0 defs {| b_chain := []; b_errs := []; b_next := next |};
  match b_errs b with
  | [] => Ok (inr (NewMiddlewareChain name (b_chain b)), b_next b)
  | errs => Ok (inl errs, b_next b)
  end.

(** [BuildMiddlewaresFromYAML] on a parsed file, in the order of ranging. *)
Definition yaml_file : Type := list (bytes * list OptionsRaw).

Fixpoint BuildMiddlewaresFromYAML (reg : registry) (file : yaml_file) (next : nat)
    : result build_error (list (bytes * Middleware) * nat) :=
  match file with
  | [] => Ok ([], next)
  | (name, defs) :: file' =>
      '(r, next) ← BuildMiddlewareFromChainRaw reg name defs next;
      '(ms, next) ← BuildMiddlewaresFromYAML reg file' next;
      match r with
      | inl _ => Ok (ms, next)
      | inr m => Ok ((name ++ B "@file", m) :: ms, next)
      end
  end.

(** [compileMiddlewares] before sorting: in the order of ranging. *)
Fixpoint compileMiddlewares (reg : registry) (ms : list (bytes * OptionsRaw)) (next : nat)
    : result build_error (list Middleware * list (bytes * build_error)) :=
  match ms with
  | [] => Ok ([], [])
  | (name, opts) :: ms' =>
      match (e ← Get reg name; New e opts next) with
      | Ok m => '(l, errs) ← compileMiddlewares reg ms' (S next); Ok (m :: l, errs)
      | Err err => '(l, errs) ← compileMiddlewares reg ms' next; Ok (l, (name, err) :: errs)
      | Panic p => Panic p
      end
  end.

(** The registration loop of [LoadComposeFiles]: a name that is taken stays. *)
Definition register (reg : registry) (nm : bytes * Middleware) : registry :=
  let name := ToLowerNoSnake nm.1 in
  match reg !! name with
  | Some _ => reg
  | None => <[name := {| en_construct := None; en_mid := nm.2 |}]> reg
  end.

(** One of the two passes over the files; an unreadable file is [None]. *)
Fixpoint load_pass (files : list (option yaml_file)) (reg : registry) (next : nat)
    : result build_error (registry * nat) :=
  match files with
  | [] => Ok (reg, next)
  | None :: files' => load_pass files' reg next
  | Some f :: files' =>
      '(ms, next) ← BuildMiddlewaresFromYAML reg f next;
      load_pass files' (fold_left register ms reg) next
  end.

(** [LoadComposeFiles]. *)
Definition LoadComposeFiles (files : list (option yaml_file)) (reg : registry) (next : nat)
    : result build_error (registry * nat) :=
  '(reg, next) ← load_pass files reg next;
  load_pass files reg next.

(** ** Lemmas *)

Lemma register_keeps reg nm k e : reg !! k = Some e -> register reg nm !! k = Some e.
Proof.
  intros Hk. unfold register. destruct (reg !! ToLowerNoSnake nm.1) eqn:E; [done|].
  rewrite lookup_insert_ne by congruence. done.
Qed.

Lemma registers_keep ms : forall reg k e, reg !! k = Some e -> fold_left register ms reg !! k = Some e.
Proof. induction ms as [|nm ms IH]; intros reg k e Hk; [done|]. simpl. by apply IH, register_keeps. Qed.

Lemma registers_add ms reg nm : nm ∈ ms -> is_Some (fold_left register ms reg !! ToLowerNoSnake nm.1).
Proof.
  revert reg. induction ms as [|nm' ms IH]; intros reg Hin; [set_solver|]. simpl.
  apply elem_of_cons in Hin as [<-|Hin]; [|by apply IH].
  destruct (register reg nm !! ToLowerNoSnake nm.1) as [e|] eqn:E.
  - exists e. by apply registers_keep.
  - unfold register in E. destruct (reg !! ToLowerNoSnake nm.1) eqn:E'; [congruence|].
    by rewrite lookup_insert_eq in E.
Qed.

Lemma load_pass_keeps files : forall reg next reg' next' k e,
  load_pass files reg next = Ok (reg', next') -> reg !! k = Some e -> reg' !! k = Some e.
Proof.
  induction files as [|[f|] files IH]; intros reg next reg' next' k e Hl Hk; simpl in Hl.
  - by injection Hl as <- <-.
  - destruct (BuildMiddlewaresFromYAML reg f next) as [[ms n]| |]; try done. simpl in Hl.
    eapply IH; [exact Hl|]. by apply registers_keep.
  - by eapply IH.
Qed.

(** A definition that builds whatever else is registered meanwhile. *)
Definition buildable (reg : registry) (def : OptionsRaw) : Prop :=
  forall reg' next, (forall k e, reg !! k = Some e -> reg' !! k = Some e) ->
  exists m, build_def reg' next def = Ok m.

Lemma build_defs_all reg reg' name defs : forall i b,
  (forall k e, reg !! k = Some e -> reg' !! k = Some e) ->
  Forall (buildable reg) defs ->
  exists b', build_defs reg' name i defs b = Ok b' /\ b_errs b' = b_errs b.
Proof.
  induction defs as [|def defs IH]; intros i b Hsub Hall; [by exists b|].
  apply Forall_cons in Hall as [Hd Hall]. simpl. destruct (Hd reg' (b_next b) Hsub) as [m ->].
  destruct (IH (S i) {| b_chain := b_chain b ++ [rename (indexed name i) m]; b_errs := b_errs b;
                        b_next := S (b_next b) |} Hsub Hall) as (b' & -> & He). by exists b'.
Qed.

Lemma yaml_builds reg reg' file : forall next ms next' name defs,
  (forall k e, reg !! k = Some e -> reg' !! k = Some e) ->
  BuildMiddlewaresFromYAML reg' file next = Ok (ms, next') ->
  (name, defs) ∈ file -> Forall (buildable reg) defs ->
  exists m, (name ++ B "@file", m) ∈ ms.
Proof.
  induction file as [|[name' defs'] file IH]; intros next ms next' name defs Hsub Hb Hin Hall; [set_solver|].
  cbn [BuildMiddlewaresFromYAML] in Hb.
  destruct (BuildMiddlewareFromChainRaw reg' name' defs' next) as [[r n]| |] eqn:Ec; try done. cbn [mbind result_bind] in Hb.
  destruct (BuildMiddlewaresFromYAML reg' file n) as [[ms' n']| |] eqn:Ey; try done. cbn [mbind result_bind] in Hb.
  apply elem_of_cons in Hin as [[= <- <-]|Hin].
  - unfold BuildMiddlewareFromChainRaw in Ec.
    destruct (build_defs_all reg reg' name defs 0 {| b_chain := []; b_errs := []; b_next := next |} Hsub Hall)
      as (b' & Eb & He). rewrite Eb in Ec. cbn [mbind result_bind] in Ec. rewrite He in Ec. cbn [b_errs] in Ec.
    injection Ec as <- <-. injection Hb as <- <-. eexists. by left.
  - destruct (IH _ _ _ _ _ Hsub Ey Hin Hall) as [m Hm]. exists m.
    destruct r; injection Hb as <- <-; set_solver.
Qed.

Lemma load_pass_registers files : forall reg0 reg next reg' next' f name defs,
  (forall k e, reg0 !! k = Some e -> reg !! k = Some e) ->
  load_pass files reg next = Ok (reg', next') -> Some f ∈ files -> (name, defs) ∈ f ->
  Forall (buildable reg0) defs ->
  is_Some (reg' !! ToLowerNoSnake (name ++ B "@file")).
Proof.
  induction files as [|g files IH]; intros reg0 reg next reg' next' f name defs Hsub Hl Hf Hn Hall; [set_solver|].
  destruct g as [g|]; [|apply elem_of_cons in Hf as [[=]|Hf]; eauto].
  simpl in Hl. destruct (BuildMiddlewaresFromYAML reg g next) as [[ms n]| |] eqn:Ey; try done. simpl in Hl.
  apply elem_of_cons in Hf as [[= <-]|Hf].
  - destruct (yaml_builds reg0 reg f _ _ _ _ _ Hsub Ey Hn Hall) as [m Hm].
    destruct (registers_add ms reg _ Hm) as [e He]. exists e. by eapply load_pass_keeps.
  - eapply (IH reg0 (fold_left register ms reg)); [|exact Hl|done|done|done].
    intros k e Hk. apply registers_keep. auto.
Qed.

(** ** Properties *)

(** Loading the compose files never replaces a middleware: the built-in ones,
    and what an earlier file defined, stay what they are. *)
Theorem compose_never_replaces files reg next reg' next' k e :
  LoadComposeFiles files reg next = Ok (reg', next') -> reg !! k = Some e -> reg' !! k = Some e.
Proof.
  unfold LoadComposeFiles. destruct (load_pass files reg next) as [[reg1 n]| |] eqn:E1; try done.
  cbn [mbind result_bind]. intros E2 Hk. eapply load_pass_keeps; [exact E2|]. by eapply load_pass_keeps.
Qed.

(** The second pass resolves references to what the first pass registered: a
    chain whose definitions build once the first pass is over is registered
    at the end, whichever file it is in. *)
Theorem compose_second_pass files reg next reg1 next1 reg' next' f name defs :
  load_pass files reg next = Ok (reg1, next1) ->
  LoadComposeFiles files reg next = Ok (reg', next') ->
  Some f ∈ files -> (name, defs) ∈ f -> Forall (buildable reg1) defs ->
  is_Some (reg' !! ToLowerNoSnake (name ++ B "@file")).
Proof.
  unfold LoadComposeFiles. intros E1. rewrite E1. cbn [mbind result_bind]. intros E2 Hf Hn Hall.
  eapply load_pass_registers; eauto.
Qed.

(** Without the option, the priority is 0, the highest, not
    [DefaultPriority]. *)
Theorem default_priority e opts next m k :
  en_construct e = Some k -> opts !! B "priority" = None -> opts !! B "bypass" = None ->
  New e opts next = Ok m -> mw_Priority m = 0 /\ mw_Bypass m = [].
Proof.
  intros Hk Hp Hb. unfold New. rewrite Hk. unfold apply.
  assert (Hc : commonOpts opts = ∅).
  { unfold commonOpts. apply map_empty. intros i. rewrite map_lookup_filter_None. right.
    intros v Hv. unfold is_common. cbn [fst]. rewrite bool_decide_eq_false_2; [done|].
    intros [->| ->]; congruence. }
  rewrite Hc. rewrite (bool_decide_eq_true_2 (∅ = ∅)) by done.
  case_bool_decide; cbn [mbind result_bind mw_impl].
  - destruct (finalize k _) as [i| |]; try done. by intros [= <-].
  - destruct (decode k _ opts) as [i0| |]; try done. cbn [mbind result_bind mw_impl].
    destruct (finalize k _) as [i| |]; try done. by intros [= <-].
Qed.

(** Without any option nothing is decoded, hence nothing validated: a rate
    limiter configured with no options is built with an average and a burst
    of zero, which its options require to be at least one. *)
Theorem empty_options_unvalidated next :
  New (base_entry KRateLimiter "rateLimiter") ∅ next
  = Ok {| mw_name := B "rateLimiter"; mw_Priority := 0; mw_Bypass := [];
          mw_impl := RateLimiter rateLimiterOptsDefault next |}.
Proof.
  unfold New, apply. cbn [en_construct base_entry].
  by rewrite (bool_decide_eq_true_2 (∅ = ∅)).
Qed.

End Build.

(** ** Examples *)

(** Nothing to decode, nothing to normalise. *)
#[export] Instance plain_build : BuildLib := {|
  decode_common _ := Ok (10, []);
  decode _ i _ := Ok i;
  other _ _ := Other false None None;
  other_finalize _ i := Ok i;
  ToLowerNoSnake s := s
|}.

Definition use_of (name : bytes) : list OptionsRaw := [ {[ B "use" := VString name ]} ].

Definition loaded (f : yaml_file) : list bytes :=
  match LoadComposeFiles [Some f] allMiddlewares 0 with
  | Ok (reg, _) => filter (fun n => is_Some (reg !! (n ++ B "@file"))) (map fst f)
  | _ => []
  end.

(** Within one file, a reference resolves to depth two: [c], which uses [b],
    which uses [a], is never registered, in whatever order the file is ranged
    over. *)
Example compose_depth :
  let a := (B "a", use_of "realip") in
  let b := (B "b", use_of "a@file") in
  let c := (B "c", use_of "b@file") in
  loaded [a; b; c] = [B "a"; B "b"] /\ loaded [c; b; a] = [B "b"; B "a"] /\ loaded [b; a; c] = [B "b"; B "a"].
Proof. split_and!; vm_compute; reflexivity. Qed.
