(* ===== verification/Streams.v ===== *)
(** * TCP and UDP streams

    Models internal/route/stream (tcp_tcp.go, udp_udp.go, errors.go) and the
    start of a stream route (internal/route/stream.go).

    A TCP connection's handler is the sequence of its effects.  The UDP stream
    is a machine whose steps are the critical sections of its goroutines: the
    lookup or creation of a session under the stream's lock, the forwarding of
    a packet and the closing of a session under the session's lock, a read or
    a write of the goroutine that returns answers, and the parts of a clean-up.
    Any interleaving is a sequence of [udp_event]s; what the network answers
    and the time are part of the event. *)

From S2P Require Import Prelude GoStrings.

(** ** errors.go *)

Inductive stream_error := Canceled | ClosedPipe | ConnReset | OtherError.

Definition convertErr (e : option stream_error) : option stream_error :=
  match e with
  | Some Canceled | Some ClosedPipe | Some ConnReset | None => None
  | Some OtherError => Some OtherError
  end.

(** ** Listeners *)

(** A [net.Listener] variable: the nil interface, an interface that holds a
    nil pointer, or a listener with its address.  [net.ListenTCP] returns a nil
    [*TCPListener] with its error, and the assignment to the interface makes
    it the second. *)
Inductive listener := NilInterface | NilPointer | Listening (addr : bytes).

Definition is_nil (l : listener) : bool := match l with NilInterface => true | _ => false end.

(** [TCPListener.Addr] reads a field of the listener. *)
Definition tcp_Addr (l : listener) : result unit bytes :=
  match l with Listening a => Ok a | _ => Panic NilDereference end.

(** ** tcp_tcp.go *)

Record TCPTCPStream := {
  t_listener : listener;
  t_laddr : bytes;
  t_dst : option bytes;
  t_closed : bool
}.

Section TCP.

(** [net.ResolveTCPAddr] (and [ResolveUDPAddr]). *)
Context (Resolve : bytes -> option bytes).

Definition NewTCPTCPStream (listenAddr dstAddr : bytes) : option TCPTCPStream :=
  dst ← Resolve dstAddr;
  laddr ← Resolve listenAddr;
  Some {| t_listener := NilInterface; t_laddr := laddr; t_dst := Some dst; t_closed := false |}.

End TCP.

(** [MarshalZerologObject]: the fields logged. *)
Definition tcp_MarshalZerologObject (s : TCPTCPStream) : result unit (list (bytes * bytes)) :=
  listen ← (if is_nil (t_listener s) then Ok []
            else a ← tcp_Addr (t_listener s); Ok [(B "listen", a)]);
  Ok ((B "protocol", B "tcp-tcp") :: listen
      ++ match t_dst s with Some d => [(B "dst", d)] | None => [] end).

(** [logErr]: nothing for the errors of a normal end. *)
Definition tcp_logErr (s : TCPTCPStream) (e : option stream_error) : result unit unit :=
  match convertErr e with
  | None => Ok tt
  | Some _ => _ ← tcp_MarshalZerologObject s; Ok tt
  end.

(** [net.ListenTCP]: an address or an error. *)
Abbreviation listen_result := (bytes + stream_error)%type.

Definition set_listener (l : listener) (s : TCPTCPStream) : TCPTCPStream :=
  {| t_listener := l; t_laddr := t_laddr s; t_dst := t_dst s; t_closed := t_closed s |}.

(** [ListenAndServe]: the flag says that [listen] was started. *)
Definition tcp_ListenAndServe (r : listen_result) (s : TCPTCPStream) : result unit (TCPTCPStream * bool) :=
  match r with
  | inl addr => Ok (set_listener (Listening addr) s, true)
  | inr e =>
      let s := set_listener NilPointer s in
      _ ← tcp_logErr s (Some e); Ok (s, false)
  end.

Definition tcp_LocalAddr (s : TCPTCPStream) : result unit bytes :=
  if is_nil (t_listener s) then Ok (t_laddr s) else tcp_Addr (t_listener s).

(** [Close]: the flag says that the listener was closed. *)
Definition tcp_Close (s : TCPTCPStream) : TCPTCPStream * bool :=
  let s' := {| t_listener := t_listener s; t_laddr := t_laddr s; t_dst := t_dst s; t_closed := true |} in
  if t_closed s || is_nil (t_listener s) then (s', false) else (s', true).

(** One round of [listen]: what becomes of the accepted connection. *)
Inductive accepted := Stop | Retry | Leaked (conn : nat) | Handled (conn : nat).

Definition tcp_listen_round (closed ctx_done closed_after : bool) (accept : option nat)
    (onRead : option (option stream_error)) : accepted :=
  if closed then Stop
  else if ctx_done then Stop
  else
    match accept with
    | None => if closed_after then Stop else Retry
    | Some conn =>
        match onRead with
        | Some (Some _) => Leaked conn      (* continue: nobody closes it *)
        | _ => Handled conn
        end
    end.

(** The effects of [handle] in order; [closed1] and [closed2] are the two
    tests of [s.closed]. *)
Inductive handle_effect := PreDial | DialDst | Pipe (hooked : bool) | CloseDst | CloseSrc.

#[export] Instance handle_effect_eq_dec : EqDecision handle_effect.
Proof. solve_decision. Defined.

Definition tcp_handle (preDial : option bool) (closed1 dial_ok closed2 hooked : bool) : list handle_effect :=
  let body :=
    match preDial with
    | Some ok => [PreDial] ++ (if ok then [] else [CloseSrc])
    | None => []
    end in
  match preDial with
  | Some false => body
  | _ =>
      if closed1 then body ++ [CloseSrc]
      else if negb dial_ok then body ++ [DialDst; CloseSrc]
      else if closed2 then body ++ [DialDst; CloseDst; CloseSrc]
      else body ++ [DialDst; Pipe hooked; CloseDst; CloseSrc]
  end.

(** [wrapperConn.Read]: the bytes read and the error; the hook runs after a
    successful read only. *)
Definition wrapper_Read (n : nat) (err : option stream_error) (onRead : option (option stream_error))
    : nat * option stream_error * bool :=
  match err with
  | Some e => (n, Some e, false)
  | None =>
      match onRead with
      | Some (Some e) => (n, Some e, true)
      | Some None => (n, None, true)
      | None => (n, None, false)
      end
  end.

(** ** stream.go *)

Inductive stream_kind := TCPStream | UDPStream.

Record stream_url := { su_Scheme : bytes; su_Host : bytes }.

(** [initStream]: the kind and the two addresses. *)
Definition initStream (lurl : option stream_url) (rurl : stream_url) : option (stream_kind * bytes * bytes) :=
  let incoherent := match lurl with
                    | Some l => negb (bool_decide (su_Scheme l = su_Scheme rurl))
                    | None => false
                    end in
  if incoherent then None
  else
    let laddr := match lurl with Some l => su_Host l | None => B ":0" end in
    if bool_decide (su_Scheme rurl = B "tcp") then Some (TCPStream, laddr, su_Host rurl)
    else if bool_decide (su_Scheme rurl = B "udp") then Some (UDPStream, laddr, su_Host rurl)
    else None.

(** The end of [StreamRoute.Start] for a TCP stream without idle watcher:
    listening, then the address for the log, then registration. *)
Definition start_tcp_route (r : listen_result) (s : TCPTCPStream) : result unit (TCPTCPStream * bytes) :=
  '(s, _) ← tcp_ListenAndServe r s;
  a ← tcp_LocalAddr s;
  Ok (s, a).

(** ** udp_udp.go *)

Definition udpIdleTimeout : Z := 5 * Minute.
Definition udpCleanupInterval : Z := Minute.
Definition udpReadTimeout : Z := 30 * Second.

(** Where [handleResponses] of a session is: reading, about to write what it
    read, or gone. *)
Inductive reader := Reading | Holding (data : bytes) | Ended.

(** [udpUDPConn], with its reader. *)
Record udpUDPConn := {
  uc_srcAddr : bytes;
  uc_lastUsed : Z;
  uc_closed : bool;
  uc_reader : reader
}.

(** The stream, its sessions by number, the packets that goroutines are about
    to forward, the clean-up under way (what is left of the clone, the keys
    to remove), and what was received, sent, read back and answered. *)
Record UDPUDPStream := {
  us_conns : gmap bytes nat;
  us_tab : gmap nat udpUDPConn;
  us_closed : bool;
  us_forwards : list (nat * bytes);
  us_clean : option (gmap bytes nat * list bytes);
  us_received : list (bytes * bytes);      (* source, data *)
  us_sent : list (nat * bytes);            (* session, data *)
  us_read : list (nat * bytes);            (* session, data *)
  us_answers : list (bytes * bytes)        (* client, data *)
}.

Definition NewUDPUDPStream : UDPUDPStream :=
  {| us_conns := ∅; us_tab := ∅; us_closed := false; us_forwards := []; us_clean := None;
     us_received := []; us_sent := []; us_read := []; us_answers := [] |}.

Definition set_conns (c : gmap bytes nat) (s : UDPUDPStream) : UDPUDPStream :=
  {| us_conns := c; us_tab := us_tab s; us_closed := us_closed s; us_forwards := us_forwards s;
     us_clean := us_clean s; us_received := us_received s; us_sent := us_sent s;
     us_read := us_read s; us_answers := us_answers s |}.

Definition set_tab (t : gmap nat udpUDPConn) (s : UDPUDPStream) : UDPUDPStream :=
  {| us_conns := us_conns s; us_tab := t; us_closed := us_closed s; us_forwards := us_forwards s;
     us_clean := us_clean s; us_received := us_received s; us_sent := us_sent s;
     us_read := us_read s; us_answers := us_answers s |}.

Definition set_forwards (l : list (nat * bytes)) (s : UDPUDPStream) : UDPUDPStream :=
  {| us_conns := us_conns s; us_tab := us_tab s; us_closed := us_closed s; us_forwards := l;
     us_clean := us_clean s; us_received := us_received s; us_sent := us_sent s;
     us_read := us_read s; us_answers := us_answers s |}.

Definition set_clean (c : option (gmap bytes nat * list bytes)) (s : UDPUDPStream) : UDPUDPStream :=
  {| us_conns := us_conns s; us_tab := us_tab s; us_closed := us_closed s; us_forwards := us_forwards s;
     us_clean := c; us_received := us_received s; us_sent := us_sent s;
     us_read := us_read s; us_answers := us_answers s |}.

Definition receive (src data : bytes) (s : UDPUDPStream) : UDPUDPStream :=
  {| us_conns := us_conns s; us_tab := us_tab s; us_closed := us_closed s; us_forwards := us_forwards s;
     us_clean := us_clean s; us_received := us_received s ++ [(src, data)]; us_sent := us_sent s;
     us_read := us_read s; us_answers := us_answers s |}.

Definition send (id : nat) (data : bytes) (s : UDPUDPStream) : UDPUDPStream :=
  {| us_conns := us_conns s; us_tab := us_tab s; us_closed := us_closed s; us_forwards := us_forwards s;
     us_clean := us_clean s; us_received := us_received s; us_sent := us_sent s ++ [(id, data)];
     us_read := us_read s; us_answers := us_answers s |}.

Definition answer (src data : bytes) (s : UDPUDPStream) : UDPUDPStream :=
  {| us_conns := us_conns s; us_tab := us_tab s; us_closed := us_closed s; us_forwards := us_forwards s;
     us_clean := us_clean s; us_received := us_received s; us_sent := us_sent s;
     us_read := us_read s; us_answers := us_answers s ++ [(src, data)] |}.

Definition log_read (id : nat) (data : bytes) (s : UDPUDPStream) : UDPUDPStream :=
  {| us_conns := us_conns s; us_tab := us_tab s; us_closed := us_closed s; us_forwards := us_forwards s;
     us_clean := us_clean s; us_received := us_received s; us_sent := us_sent s;
     us_read := us_read s ++ [(id, data)]; us_answers := us_answers s |}.

Definition used (now : Z) (c : udpUDPConn) : udpUDPConn :=
  {| uc_srcAddr := uc_srcAddr c; uc_lastUsed := now; uc_closed := uc_closed c; uc_reader := uc_reader c |}.

(** [udpUDPConn.Close]. *)
Definition conn_Close (c : udpUDPConn) : udpUDPConn :=
  {| uc_srcAddr := uc_srcAddr c; uc_lastUsed := uc_lastUsed c; uc_closed := true; uc_reader := uc_reader c |}.

Definition end_reader (c : udpUDPConn) : udpUDPConn :=
  {| uc_srcAddr := uc_srcAddr c; uc_lastUsed := uc_lastUsed c; uc_closed := true; uc_reader := Ended |}.

Definition Expired (now : Z) (c : udpUDPConn) : bool := udpIdleTimeout <? time_Sub now (uc_lastUsed c).

(** [forwardToDestination] on a session, with the success of the write. *)
Definition forwardToDestination (now : Z) (id : nat) (data : bytes) (write_ok : bool) (s : UDPUDPStream)
    : UDPUDPStream :=
  match us_tab s !! id with
  | Some c =>
      if uc_closed c then s
      else if write_ok then set_tab (<[id := used now c]> (us_tab s)) (send id data s)
      else s
  | None => s
  end.

(** What the outside decides while a session is created: the hook, the dial,
    the write of the first packet, and whether the reader ends before the
    session is stored. *)
Record creation := { cr_preDial : bool; cr_dial : bool; cr_write : bool; cr_early : bool }.

(** [createConnection]; the number of the new session if it is kept. *)
Definition createConnection (now : Z) (src data : bytes) (cr : creation) (s : UDPUDPStream)
    : UDPUDPStream * option nat :=
  if negb (cr_preDial cr) || negb (cr_dial cr) || negb (cr_write cr) then (s, None)
  else
    let id := fresh (dom (us_tab s)) in
    let c := {| uc_srcAddr := src; uc_lastUsed := now; uc_closed := false; uc_reader := Reading |} in
    let c := if cr_early cr then end_reader c else c in
    (set_tab (<[id := c]> (us_tab s)) (send id data s), if cr_early cr then None else Some id).

(** [getOrCreateConnection]. *)
Definition getOrCreateConnection (now : Z) (src data : bytes) (cr : creation) (s : UDPUDPStream) : UDPUDPStream :=
  match us_conns s !! src with
  | Some id => set_forwards (us_forwards s ++ [(id, data)]) s
  | None =>
      let '(s, kept) := createConnection now src data cr s in
      match kept with Some id => set_conns (<[src := id]> (us_conns s)) s | None => s end
  end.

Inductive udp_event :=
  | Packet (now : Z) (src data : bytes) (onRead_ok : bool) (cr : creation)
  | Forward (i : nat) (now : Z) (write_ok : bool)       (* the i-th forwarding goroutine *)
  | Read (id : nat) (data : bytes)
  | WriteBack (id : nat) (now : Z) (write_ok : bool)
  | ReaderEnds (id : nat)
  | CleanBegin
  | CleanOne (key : bytes) (now : Z)
  | CleanEnd
  | CloseStream.

Definition set_reader (r : reader) (c : udpUDPConn) : udpUDPConn :=
  {| uc_srcAddr := uc_srcAddr c; uc_lastUsed := uc_lastUsed c; uc_closed := uc_closed c; uc_reader := r |}.

(** A round of [handleResponses]: the test of [closed] and a successful read. *)
Definition response_read (id : nat) (data : bytes) (s : UDPUDPStream) : UDPUDPStream :=
  match us_tab s !! id with
  | Some c =>
      match uc_reader c with
      | Reading =>
          if uc_closed c then set_tab (<[id := end_reader c]> (us_tab s)) s
          else set_tab (<[id := set_reader (Holding data) c]> (us_tab s)) (log_read id data s)
      | _ => s
      end
  | None => s
  end.

(** The second half: the answer is written to the client. *)
Definition response_write (id : nat) (now : Z) (write_ok : bool) (s : UDPUDPStream) : UDPUDPStream :=
  match us_tab s !! id with
  | Some c =>
      match uc_reader c with
      | Holding data =>
          if write_ok
          then set_tab (<[id := used now (set_reader Reading c)]> (us_tab s)) (answer (uc_srcAddr c) data s)
          else set_tab (<[id := end_reader c]> (us_tab s)) s
      | _ => s
      end
  | None => s
  end.

(** The reader leaves: timeout, read error or end of the context. *)
Definition reader_end (id : nat) (s : UDPUDPStream) : UDPUDPStream :=
  match us_tab s !! id with
  | Some c => match uc_reader c with
              | Reading => set_tab (<[id := end_reader c]> (us_tab s)) s
              | _ => s
              end
  | None => s
  end.

(** The body of the loop over the clone in [cleanUp]. *)
Definition clean_one (key : bytes) (now : Z) (s : UDPUDPStream) : UDPUDPStream :=
  match us_clean s with
  | Some (todo, removed) =>
      match todo !! key with
      | Some id =>
          match us_tab s !! id with
          | Some c =>
              if Expired now c
              then set_clean (Some (delete key todo, removed ++ [key]))
                     (set_tab (<[id := conn_Close c]> (us_tab s)) s)
              else set_clean (Some (delete key todo, removed)) s
          | None => s
          end
      | None => s
      end
  | None => s
  end.

Definition clean_end (s : UDPUDPStream) : UDPUDPStream :=
  match us_clean s with
  | Some (_, removed) =>
      set_clean None (set_conns (fold_left (fun m k => delete k m) removed (us_conns s)) s)
  | None => s
  end.

(** [Close] of a stream that listens. *)
Definition udp_Close (s : UDPUDPStream) : UDPUDPStream :=
  if us_closed s then s
  else
    let tab := fold_left (fun t kid => alter conn_Close kid.2 t) (map_to_list (us_conns s)) (us_tab s) in
    {| us_conns := ∅; us_tab := tab; us_closed := true; us_forwards := us_forwards s; us_clean := us_clean s;
       us_received := us_received s; us_sent := us_sent s;
     us_read := us_read s; us_answers := us_answers s |}.

Definition udp_step (s : UDPUDPStream) (e : udp_event) : UDPUDPStream :=
  match e with
  | Packet now src data onRead_ok cr =>
      if onRead_ok then getOrCreateConnection now src data cr (receive src data s) else s
  | Forward i now write_ok =>
      match us_forwards s !! i with
      | Some (id, data) =>
          forwardToDestination now id data write_ok (set_forwards (delete i (us_forwards s)) s)
      | None => s
      end
  | Read id data => response_read id data s
  | WriteBack id now write_ok => response_write id now write_ok s
  | ReaderEnds id => reader_end id s
  | CleanBegin => match us_clean s with None => set_clean (Some (us_conns s, [])) s | Some _ => s end
  | CleanOne key now => clean_one key now s
  | CleanEnd => clean_end s
  | CloseStream => udp_Close s
  end.

Definition udp_run (es : list udp_event) (s : UDPUDPStream) : UDPUDPStream := fold_left udp_step es s.

(** ** Lemmas *)

(** The session of a number, if its client is [src]. *)
Definition session (t : gmap nat udpUDPConn) (id : nat) (src : bytes) : Prop :=
  exists c, t !! id = Some c /\ uc_srcAddr c = src.

(** Sessions keep their clients. *)
Definition tab_grows (t t' : gmap nat udpUDPConn) : Prop :=
  forall id src, session t id src -> session t' id src.

Lemma tab_grows_refl t : tab_grows t t.
Proof. by intros id src. Qed.

Lemma tab_grows_insert (t : gmap nat udpUDPConn) id c c' :
  t !! id = Some c -> uc_srcAddr c' = uc_srcAddr c -> tab_grows t (<[id := c']> t).
Proof.
  intros Hc Hs i src (d & Hd & <-). unfold session. destruct (decide (i = id)) as [->|Hne].
  - exists c'. rewrite lookup_insert_eq. split; congruence.
  - exists d. by rewrite lookup_insert_ne.
Qed.

Lemma tab_grows_fresh (t : gmap nat udpUDPConn) c : tab_grows t (<[fresh (dom t) := c]> t).
Proof.
  intros i src (d & Hd & <-). exists d. rewrite lookup_insert_ne; [done|]. intros <-.
  apply (is_fresh (dom t)). apply elem_of_dom. eauto.
Qed.

Lemma close_all_lookup l : forall (t : gmap nat udpUDPConn) id,
  fold_left (fun t (kid : bytes * nat) => alter conn_Close kid.2 t) l t !! id
  = (if bool_decide (id ∈ l.*2) then conn_Close <$> t !! id else t !! id).
Proof.
  induction l as [|[k i] l IH]; intros t id; [done|].
  cbn [fold_left]. rewrite IH, fmap_cons. cbn [snd].
  destruct (decide (id = i)) as [->|Hne].
  - rewrite lookup_alter_eq. rewrite (bool_decide_eq_true_2 (i ∈ i :: _)) by set_solver.
    case_bool_decide; destruct (t !! i); simpl; done.
  - rewrite lookup_alter_ne by done. by rewrite (bool_decide_ext (id ∈ i :: l.*2) (id ∈ l.*2)) by set_solver.
Qed.

Lemma tab_grows_close l t : tab_grows t (fold_left (fun t (kid : bytes * nat) => alter conn_Close kid.2 t) l t).
Proof.
  intros id src (c & Hc & <-). unfold session. rewrite close_all_lookup, Hc.
  case_bool_decide; eexists; split; done.
Qed.

#[export] Hint Resolve tab_grows_refl tab_grows_insert tab_grows_fresh tab_grows_close : godoxy.

(** What holds in every reachable state.  The first group: every number that
    is kept anywhere is that of a session of the right client, and data only
    moves along a session.  The second, until the stream is closed: an open
    session is the one its client is listed with. *)
Record udp_inv (s : UDPUDPStream) : Prop := {
  inv_conns : forall key id, us_conns s !! key = Some id -> session (us_tab s) id key;
  inv_todo : forall todo removed key id, us_clean s = Some (todo, removed) ->
    todo !! key = Some id -> session (us_tab s) id key;
  inv_forwards : forall id d, (id, d) ∈ us_forwards s ->
    exists src, session (us_tab s) id src /\ (src, d) ∈ us_received s;
  inv_sent : forall id d, (id, d) ∈ us_sent s ->
    exists src, session (us_tab s) id src /\ (src, d) ∈ us_received s;
  inv_holding : forall id c d, us_tab s !! id = Some c -> uc_reader c = Holding d -> (id, d) ∈ us_read s;
  inv_answers : forall src d, (src, d) ∈ us_answers s ->
    exists id, session (us_tab s) id src /\ (id, d) ∈ us_read s
}.

Record udp_live (s : UDPUDPStream) : Prop := {
  live_listed : forall id c, us_tab s !! id = Some c -> uc_closed c = false ->
    us_conns s !! uc_srcAddr c = Some id;
  live_todo : forall todo removed key id, us_clean s = Some (todo, removed) ->
    todo !! key = Some id -> us_conns s !! key = Some id;
  live_removed : forall todo removed key, us_clean s = Some (todo, removed) -> key ∈ removed ->
    exists id c, us_conns s !! key = Some id /\ us_tab s !! id = Some c /\ uc_closed c = true
}.

Lemma inv_mono s s' :
  udp_inv s -> tab_grows (us_tab s) (us_tab s') ->
  us_received s ⊆ us_received s' -> us_read s ⊆ us_read s' ->
  (forall key id, us_conns s' !! key = Some id ->
     us_conns s !! key = Some id \/ session (us_tab s') id key) ->
  (forall todo removed key id, us_clean s' = Some (todo, removed) -> todo !! key = Some id ->
     us_conns s !! key = Some id \/
     exists todo0 removed0, us_clean s = Some (todo0, removed0) /\ todo0 !! key = Some id) ->
  (forall id d, (id, d) ∈ us_forwards s' \/ (id, d) ∈ us_sent s' ->
     (id, d) ∈ us_forwards s \/ (id, d) ∈ us_sent s \/
     exists src, session (us_tab s') id src /\ (src, d) ∈ us_received s') ->
  (forall id c d, us_tab s' !! id = Some c -> uc_reader c = Holding d ->
     (exists c0, us_tab s !! id = Some c0 /\ uc_reader c0 = Holding d) \/ (id, d) ∈ us_read s') ->
  (forall src d, (src, d) ∈ us_answers s' ->
     (src, d) ∈ us_answers s \/ exists id, session (us_tab s') id src /\ (id, d) ∈ us_read s') ->
  udp_inv s'.
Proof.
  intros Hi Ht Hr Hd Hc Hl Hf Hh Ha.
  assert (Hdata : forall id d, (id, d) ∈ us_forwards s' \/ (id, d) ∈ us_sent s' ->
    exists src, session (us_tab s') id src /\ (src, d) ∈ us_received s').
  { intros id d [H|[H|H]]%Hf; [| |done].
    - destruct (inv_forwards s Hi _ _ H) as (src & ? & ?). exists src. eauto.
    - destruct (inv_sent s Hi _ _ H) as (src & ? & ?). exists src. eauto. }
  split.
  - intros key id [H|H]%Hc; [|done]. by apply Ht, inv_conns.
  - intros todo removed key id H1 H2. apply Ht. destruct (Hl _ _ _ _ H1 H2) as [H|(t0 & r0 & ? & ?)].
    + by apply inv_conns.
    + by eapply inv_todo.
  - auto.
  - auto.
  - intros id c d H1 H2. destruct (Hh _ _ _ H1 H2) as [(c0 & ? & ?)|]; [|done]. apply Hd. by eapply inv_holding.
  - intros src d [H|H]%Ha; [|done]. destruct (inv_answers s Hi _ _ H) as (id & ? & ?). exists id. eauto.
Qed.

(** Replacing a session by one of the same client whose reader holds nothing
    new. *)
Lemma inv_set_tab s id c c' :
  udp_inv s -> us_tab s !! id = Some c -> uc_srcAddr c' = uc_srcAddr c ->
  (forall d, uc_reader c' = Holding d -> uc_reader c = Holding d \/ (id, d) ∈ us_read s) ->
  udp_inv (set_tab (<[id := c']> (us_tab s)) s).
Proof.
  intros Hi Hc Hs Hh. eapply inv_mono; [exact Hi|..]; simpl; auto; try naive_solver.
  - by eapply tab_grows_insert.
  - intros i c0 d H1 H2. destruct (decide (i = id)) as [->|Hne].
    + rewrite lookup_insert_eq in H1. injection H1 as <-. destruct (Hh _ H2); eauto.
    + rewrite lookup_insert_ne in H1 by done. eauto.
Qed.

Lemma inv_send s id src d :
  udp_inv s -> session (us_tab s) id src -> (src, d) ∈ us_received s -> udp_inv (send id d s).
Proof.
  intros Hi Hs Hr. eapply inv_mono; [exact Hi|..]; simpl; eauto with godoxy.
  intros i e [H|H]; [auto|]. apply elem_of_app in H as [H|H]; [auto|].
  apply list_elem_of_singleton in H as [= -> ->]. eauto.
Qed.

Lemma inv_create now src d cr s :
  udp_inv s -> (src, d) ∈ us_received s -> let '(s', kept) := createConnection now src d cr s in
  udp_inv s' /\ forall id, kept = Some id -> session (us_tab s') id src.
Proof.
  intros Hi Hr. unfold createConnection. destruct (_ || _); [done|].
  set (c := {| uc_srcAddr := src; uc_lastUsed := now; uc_closed := false; uc_reader := Reading |}).
  set (c' := if cr_early cr then end_reader c else c). set (id := fresh (dom (us_tab s))).
  assert (Hc' : uc_srcAddr c' = src) by (unfold c'; by destruct (cr_early cr)).
  assert (Hss : session (<[id := c']> (us_tab s)) id src).
  { exists c'. by rewrite lookup_insert_eq. }
  split; [|intros i; destruct (cr_early cr); [done|]; by intros [= <-]].
  eapply inv_mono; [exact Hi|..]; simpl; auto with godoxy.
  - intros todo removed key i H1 H2. eauto.
  - intros i e [H|H]; [auto|]. apply elem_of_app in H as [H|H]; [auto|].
    apply list_elem_of_singleton in H as [= -> ->]. eauto.
  - intros i c0 e H1 H2. destruct (decide (i = id)) as [->|Hne].
    + rewrite lookup_insert_eq in H1. injection H1 as <-. unfold c' in H2. by destruct (cr_early cr).
    + rewrite lookup_insert_ne in H1 by done. eauto.
Qed.

Lemma inv_receive src d s : udp_inv s -> udp_inv (receive src d s).
Proof.
  intros Hi. eapply inv_mono; [exact Hi|..]; simpl; eauto with godoxy; try set_solver.
Qed.

Lemma inv_get_or_create now src d cr s :
  udp_inv s -> (src, d) ∈ us_received s -> udp_inv (getOrCreateConnection now src d cr s).
Proof.
  intros Hi Hr. unfold getOrCreateConnection. destruct (us_conns s !! src) as [id|] eqn:E.
  - eapply inv_mono; [exact Hi|..]; simpl; eauto with godoxy; try (intros; tauto).
    intros i e [H|H]; [|auto]. apply elem_of_app in H as [H|H]; [auto|].
    apply list_elem_of_singleton in H as [= -> ->]. right. right. exists src. split; [|done].
    by apply inv_conns.
  - pose proof (inv_create now src d cr s Hi Hr) as Hc.
    destruct (createConnection now src d cr s) as [s' [id|]]; destruct Hc as [Hi' Hk]; [|done].
    eapply inv_mono; [exact Hi'|..]; simpl; eauto with godoxy; try (intros; tauto).
    intros key i H. destruct (decide (key = src)) as [->|Hne].
    + rewrite lookup_insert_eq in H. injection H as <-. auto.
    + rewrite lookup_insert_ne in H by done. auto.
Qed.

Lemma inv_forward now id d ok s :
  udp_inv s -> (exists src, session (us_tab s) id src /\ (src, d) ∈ us_received s) ->
  udp_inv (forwardToDestination now id d ok s).
Proof.
  intros Hi (src & Hs & Hr). unfold forwardToDestination.
  destruct (us_tab s !! id) as [c|] eqn:E; [|done]. destruct (uc_closed c), ok; try done.
  apply (inv_set_tab (send id d s) id c); simpl; auto. by eapply inv_send.
Qed.

Lemma inv_read id d s : udp_inv s -> udp_inv (response_read id d s).
Proof.
  intros Hi. unfold response_read. destruct (us_tab s !! id) as [c|] eqn:E; [|done].
  destruct (uc_reader c) eqn:Er; try done. destruct (uc_closed c).
  - by apply (inv_set_tab s id c).
  - apply (inv_set_tab (log_read id d s) id c); simpl; auto.
    + eapply inv_mono; [exact Hi|..]; simpl; eauto with godoxy; try (intros; tauto); set_solver.
    + intros e [= ->]. right. set_solver.
Qed.

Lemma inv_write id now ok s : udp_inv s -> udp_inv (response_write id now ok s).
Proof.
  intros Hi. unfold response_write. destruct (us_tab s !! id) as [c|] eqn:E; [|done].
  destruct (uc_reader c) as [|d|] eqn:Er; try done. destruct ok; [|by apply (inv_set_tab s id c)].
  apply (inv_set_tab (answer (uc_srcAddr c) d s) id c); simpl; auto; [|done].
  eapply inv_mono; [exact Hi|..]; simpl; eauto with godoxy; try (intros; tauto).
  intros src e H. apply elem_of_app in H as [H|H]; [auto|].
  apply list_elem_of_singleton in H as [= -> ->]. right. exists id. split; [by exists c|].
  by eapply inv_holding.
Qed.

Lemma lookup_delete_all (l : list bytes) (m : gmap bytes nat) k :
  fold_left (fun m k => delete k m) l m !! k = if bool_decide (k ∈ l) then None else m !! k.
Proof.
  revert m. induction l as [|k' l IH]; intros m; [done|]. cbn [fold_left]. rewrite IH.
  destruct (decide (k = k')) as [->|Hne].
  - rewrite lookup_delete_eq, (bool_decide_eq_true_2 (k' ∈ k' :: l)) by set_solver. by case_bool_decide.
  - rewrite lookup_delete_ne by done. by rewrite (bool_decide_ext (k ∈ k' :: l) (k ∈ l)) by set_solver.
Qed.

Lemma inv_clean_one key now s : udp_inv s -> udp_inv (clean_one key now s).
Proof.
  intros Hi. unfold clean_one. destruct (us_clean s) as [[todo removed]|] eqn:Ec; [|done].
  destruct (todo !! key) as [id|] eqn:Et; [|done]. destruct (us_tab s !! id) as [c|] eqn:E; [|done].
  assert (Hset : forall s0 r, udp_inv s0 -> us_clean s0 = us_clean s ->
    udp_inv (set_clean (Some (delete key todo, r)) s0)).
  { intros s0 r H0 Hs0. eapply inv_mono; [exact H0|..]; simpl; eauto with godoxy; try (intros; tauto).
    intros t r' k i [= <- <-] Hk. right. exists todo, removed. split; [congruence|].
    by apply lookup_delete_Some in Hk as [_ ?]. }
  destruct (Expired now c); apply Hset; auto. apply (inv_set_tab s id c); auto.
Qed.

Lemma inv_clean_end s : udp_inv s -> udp_inv (clean_end s).
Proof.
  intros Hi. unfold clean_end. destruct (us_clean s) as [[todo removed]|] eqn:Ec; [|done].
  eapply inv_mono; [exact Hi|..]; simpl; eauto with godoxy; try (intros; tauto); [|done].
  intros key id. rewrite lookup_delete_all. case_bool_decide; [done|auto].
Qed.

Lemma inv_Close s : udp_inv s -> udp_inv (udp_Close s).
Proof.
  intros Hi. unfold udp_Close. destruct (us_closed s); [done|].
  eapply inv_mono; [exact Hi|..]; simpl; eauto with godoxy; try (intros; tauto); [done|].
  intros id c d. rewrite close_all_lookup. case_bool_decide; [|eauto].
  destruct (us_tab s !! id) as [c0|]; [|done]. intros [= <-] Hh. left. by exists c0.
Qed.

Lemma udp_step_inv s e : udp_inv s -> udp_inv (udp_step s e).
Proof.
  intros Hi. destruct e; simpl.
  - destruct onRead_ok; [|done]. apply inv_get_or_create; [by apply inv_receive|]. simpl. set_solver.
  - destruct (us_forwards s !! i) as [[id d]|] eqn:E; [|done].
    assert (H0 : udp_inv (set_forwards (delete i (us_forwards s)) s)).
    { eapply inv_mono; [exact Hi|..]; simpl; eauto with godoxy; try (intros; tauto).
      intros j e [H|H]; [|auto]. left. apply list_elem_of_lookup in H as [k Hk].
      apply list_elem_of_lookup. destruct (decide (k < i)%nat).
      - rewrite list_lookup_delete_lt in Hk by lia. eauto.
      - rewrite list_lookup_delete_ge in Hk by lia. eauto. }
    apply inv_forward; [done|]. simpl. eapply inv_forwards; [done|]. by eapply list_elem_of_lookup_2.
  - by apply inv_read.
  - by apply inv_write.
  - unfold reader_end. destruct (us_tab s !! id) as [c|] eqn:E; [|done].
    destruct (uc_reader c) eqn:Er; try done. by apply (inv_set_tab s id c).
  - destruct (us_clean s) eqn:Ec; [done|]. eapply inv_mono; [exact Hi|..]; simpl; eauto with godoxy; try (intros; tauto).
    intros todo removed key id [= <- <-]. auto.
  - by apply inv_clean_one.
  - by apply inv_clean_end.
  - by apply inv_Close.
Qed.

Lemma udp_init_inv : udp_inv NewUDPUDPStream.
Proof. split; simpl; try done; intros; set_solver. Qed.

Lemma udp_run_inv es : forall s, udp_inv s -> udp_inv (udp_run es s).
Proof. induction es as [|e es IH]; intros s Hs; [done|]. by apply IH, udp_step_inv. Qed.

(** *** Open sessions are listed *)

(** A step that only replaces sessions (same client, not reopened). *)
Lemma live_set_tab s id c c' :
  udp_live s -> us_tab s !! id = Some c -> uc_srcAddr c' = uc_srcAddr c ->
  (uc_closed c = true -> uc_closed c' = true) ->
  udp_live (set_tab (<[id := c']> (us_tab s)) s).
Proof.
  intros Hl Hc Hs Hcl. split; simpl.
  - intros i d. destruct (decide (i = id)) as [->|Hne].
    + rewrite lookup_insert_eq. intros [= <-] Ho. rewrite Hs. apply (live_listed s Hl); [done|].
      destruct (uc_closed c); [by rewrite Hcl in Ho|done].
    + rewrite lookup_insert_ne by done. apply (live_listed s Hl).
  - apply (live_todo s Hl).
  - intros todo removed key E Hk. destruct (live_removed s Hl _ _ _ E Hk) as (i & d & H1 & H2 & H3).
    destruct (decide (i = id)) as [->|Hne].
    + exists id, c'. rewrite lookup_insert_eq. split_and!; [done|done|]. apply Hcl. congruence.
    + exists i, d. by rewrite lookup_insert_ne.
Qed.

(** Steps that touch neither the sessions nor the lists. *)
Lemma live_frame s s' :
  udp_live s -> us_tab s' = us_tab s -> us_conns s' = us_conns s -> us_clean s' = us_clean s -> udp_live s'.
Proof. intros [H1 H2 H3] Et Ec El. split; rewrite ?Et, ?Ec, ?El; auto. Qed.

Lemma live_get_or_create now src d cr s :
  udp_live s -> udp_live (getOrCreateConnection now src d cr s).
Proof.
  intros Hl. unfold getOrCreateConnection. destruct (us_conns s !! src) as [id|] eqn:E.
  { by eapply live_frame. }
  unfold createConnection. destruct (_ || _); [done|]. set (id := fresh (dom (us_tab s))).
  assert (Hid : us_tab s !! id = None) by (apply not_elem_of_dom, is_fresh).
  assert (Hrem : forall c, forall todo removed key, us_clean s = Some (todo, removed) -> key ∈ removed ->
    exists i d, us_conns s !! key = Some i /\ <[id := c]> (us_tab s) !! i = Some d /\ uc_closed d = true).
  { intros c todo removed key Hc Hk. destruct (live_removed s Hl _ _ _ Hc Hk) as (i & e & H1 & H2 & H3).
    exists i, e. rewrite lookup_insert_ne by congruence. done. }
  destruct (cr_early cr); split; simpl.
  - intros i c. destruct (decide (i = id)) as [->|Hne]; [rewrite lookup_insert_eq; by intros [= <-]|].
    rewrite lookup_insert_ne by done. apply (live_listed s Hl).
  - apply (live_todo s Hl).
  - apply Hrem.
  - intros i c. destruct (decide (i = id)) as [->|Hne].
    + rewrite lookup_insert_eq. intros [= <-] _. simpl. by rewrite lookup_insert_eq.
    + rewrite lookup_insert_ne by done. intros Hc Ho. pose proof (live_listed s Hl _ _ Hc Ho).
      rewrite lookup_insert_ne by congruence. done.
  - intros todo removed key i Hc Ht. pose proof (live_todo s Hl _ _ _ _ Hc Ht).
    rewrite lookup_insert_ne by congruence. done.
  - intros todo removed key Hc Hk. destruct (Hrem {| uc_srcAddr := src; uc_lastUsed := now; uc_closed := false; uc_reader := Reading |} _ _ _ Hc Hk) as (i & e & H1 & H2).
    exists i, e. rewrite lookup_insert_ne by congruence. done.
Qed.

Lemma live_forward now id d ok s : udp_live s -> udp_live (forwardToDestination now id d ok s).
Proof.
  intros Hl. unfold forwardToDestination. destruct (us_tab s !! id) as [c|] eqn:E; [|done].
  destruct (uc_closed c) eqn:Ec, ok; try done.
  apply (live_set_tab (send id d s) id c); simpl; auto. by eapply live_frame.
Qed.

Lemma live_clean_one key now s : udp_live s -> udp_live (clean_one key now s).
Proof.
  intros Hl. unfold clean_one. destruct (us_clean s) as [[todo removed]|] eqn:Ec; [|done].
  destruct (todo !! key) as [id|] eqn:Et; [|done]. destruct (us_tab s !! id) as [c|] eqn:E; [|done].
  pose proof (live_todo s Hl _ _ _ _ Ec Et) as Hk.
  destruct (Expired now c).
  - assert (Hl' : udp_live (set_tab (<[id := conn_Close c]> (us_tab s)) s)) by (by apply (live_set_tab s id c)).
    split; simpl.
    + apply (live_listed _ Hl').
    + intros t r k i [= <- <-] H. apply lookup_delete_Some in H as [_ H]. by apply (live_todo s Hl _ _ _ _ Ec).
    + intros t r k [= <- <-] H. apply elem_of_app in H as [H|H].
      * by apply (live_removed _ Hl' todo removed).
      * apply list_elem_of_singleton in H as ->. exists id, (conn_Close c). by rewrite lookup_insert_eq.
  - split; simpl.
    + apply (live_listed _ Hl).
    + intros t r k i [= <- <-] H. apply lookup_delete_Some in H as [_ H]. by apply (live_todo s Hl _ _ _ _ Ec).
    + intros t r k [= <- <-] H. by apply (live_removed s Hl todo removed).
Qed.

Lemma live_clean_end s : udp_live s -> udp_live (clean_end s).
Proof.
  intros Hl. unfold clean_end. destruct (us_clean s) as [[todo removed]|] eqn:Ec; [|done].
  split; simpl; [|done|done].
  intros id c Hc Ho. rewrite lookup_delete_all. pose proof (live_listed s Hl _ _ Hc Ho) as Hk.
  case_bool_decide as Hin; [|done].
  destruct (live_removed s Hl _ _ _ Ec Hin) as (i & e & H1 & H2 & H3). congruence.
Qed.

Lemma udp_step_live s e : e <> CloseStream -> udp_live s -> udp_live (udp_step s e).
Proof.
  intros He Hl. destruct e; simpl; try done.
  - destruct onRead_ok; [|done]. apply live_get_or_create. by eapply live_frame.
  - destruct (us_forwards s !! i) as [[id d]|]; [|done]. apply live_forward. by eapply live_frame.
  - unfold response_read. destruct (us_tab s !! id) as [c|] eqn:E; [|done].
    destruct (uc_reader c); try done. destruct (uc_closed c) eqn:Ecl.
    + by apply (live_set_tab s id c).
    + apply (live_set_tab (log_read id data s) id c); simpl; auto. by eapply live_frame.
  - unfold response_write. destruct (us_tab s !! id) as [c|] eqn:E; [|done].
    destruct (uc_reader c); try done. destruct write_ok; [|by apply (live_set_tab s id c)].
    apply (live_set_tab (answer (uc_srcAddr c) data s) id c); simpl; auto. by eapply live_frame.
  - unfold reader_end. destruct (us_tab s !! id) as [c|] eqn:E; [|done].
    destruct (uc_reader c); try done. by apply (live_set_tab s id c).
  - destruct (us_clean s) eqn:Ec; [done|]. split; simpl.
    + apply (live_listed s Hl).
    + by intros todo removed key id [= <- <-].
    + intros todo removed key [= <- <-]. set_solver.
  - by apply live_clean_one.
  - by apply live_clean_end.
Qed.

Definition running (es : list udp_event) : Prop := Forall (fun e => e <> CloseStream) es.

Lemma udp_run_live es : forall s, running es -> udp_live s -> udp_live (udp_run es s).
Proof.
  induction es as [|e es IH]; intros s Hes Hl; [done|]. apply Forall_cons in Hes as [He Hes].
  apply IH; [done|]. by apply udp_step_live.
Qed.

Lemma udp_init_live : udp_live NewUDPUDPStream.
Proof. split; simpl; try done. Qed.

(** ** Properties: UDP *)

(** C24: clients are kept apart in every interleaving: what is sent over a session
    was received from the session's client, and what a client is answered was
    read from a session of that client. *)
Theorem udp_clients_isolated es :
  let s := udp_run es NewUDPUDPStream in
  (forall id d, (id, d) ∈ us_sent s -> exists src, session (us_tab s) id src /\ (src, d) ∈ us_received s)
  /\ (forall src d, (src, d) ∈ us_answers s -> exists id, session (us_tab s) id src /\ (id, d) ∈ us_read s).
Proof.
  intros s. pose proof (udp_run_inv es NewUDPUDPStream udp_init_inv) as Hi.
  split; [apply (inv_sent _ Hi)|apply (inv_answers _ Hi)].
Qed.

(** Until the stream is closed a client has at most one open session, the one
    its packets are forwarded over. *)
Theorem udp_one_session es id id' c c' :
  running es ->
  let s := udp_run es NewUDPUDPStream in
  us_tab s !! id = Some c -> us_tab s !! id' = Some c' ->
  uc_closed c = false -> uc_closed c' = false -> uc_srcAddr c = uc_srcAddr c' -> id = id'.
Proof.
  intros Hes s Hc Hc' Ho Ho' Hs. pose proof (udp_run_live es _ Hes udp_init_live) as Hl. fold s in Hl.
  pose proof (live_listed s Hl _ _ Hc Ho) as H1. pose proof (live_listed s Hl _ _ Hc' Ho') as H2.
  rewrite Hs in H1. congruence.
Qed.

(** *** A session that is closed but listed *)

Ltac cases_step :=
  repeat (match goal with
          | |- context [match ?x with _ => _ end] => destruct x eqn:?
          end; simpl; auto with godoxy).

Lemma udp_step_grows s e : tab_grows (us_tab s) (us_tab (udp_step s e)).
Proof.
  destruct e; simpl; auto with godoxy.
  - destruct onRead_ok; [|auto with godoxy]. unfold getOrCreateConnection, createConnection. simpl.
    destruct (us_conns s !! src); simpl; auto with godoxy.
    destruct (_ || _); simpl; auto with godoxy. destruct (cr_early cr); simpl; auto with godoxy.
  - unfold forwardToDestination. cases_step. all: eapply tab_grows_insert; eauto.
  - unfold response_read. cases_step. all: eapply tab_grows_insert; eauto.
  - unfold response_write. cases_step. all: eapply tab_grows_insert; eauto.
  - unfold reader_end. cases_step. all: eapply tab_grows_insert; eauto.
  - cases_step.
  - unfold clean_one. cases_step. all: eapply tab_grows_insert; eauto.
  - unfold clean_end. cases_step.
  - unfold udp_Close. cases_step.
Qed.

Lemma udp_run_grows es : forall s, tab_grows (us_tab s) (us_tab (udp_run es s)).
Proof.
  induction es as [|e es IH]; intros s; [apply tab_grows_refl|].
  intros i src Hs. by apply IH, udp_step_grows.
Qed.

Record dead_session (key : bytes) (id : nat) (c : udpUDPConn) (s : UDPUDPStream) : Prop := {
  dead_listed : us_conns s !! key = Some id;
  dead_conn : us_tab s !! id = Some c;
  dead_closed : uc_closed c = true;
  dead_reader : uc_reader c = Ended;
  dead_kept : forall todo removed, us_clean s = Some (todo, removed) -> key ∉ removed
}.

(** The clean-up does not look at the session later than the idle timeout. *)
Definition before_timeout (key : bytes) (lastUsed : Z) (e : udp_event) : Prop :=
  match e with
  | CleanOne k now => k = key -> time_Sub now lastUsed <= udpIdleTimeout
  | _ => True
  end.

(** What was sent in a step, over sessions of other clients. *)
Definition only_others (key : bytes) (s s' : UDPUDPStream) : Prop :=
  exists extra, us_sent s' = us_sent s ++ extra
  /\ forall i d, (i, d) ∈ extra -> exists src, session (us_tab s') i src /\ src <> key.

Lemma only_others_same key s s' : us_sent s' = us_sent s -> only_others key s s'.
Proof. intros E. exists []. rewrite E, app_nil_r. split; [done|]. set_solver. Qed.

Lemma dead_insert key id c s i c0 c' f :
  dead_session key id c s -> us_tab s !! i = Some c0 -> (i = id -> c' = c0) ->
  us_conns f = us_conns s -> us_clean f = us_clean s ->
  dead_session key id c (set_tab (<[i := c']> (us_tab s)) f).
Proof.
  intros [H1 H2 H3 H4 H5] Hi Hs Ec El. split; simpl; rewrite ?Ec, ?El; auto.
  destruct (decide (i = id)) as [->|Hne]; [|by rewrite lookup_insert_ne].
  rewrite lookup_insert_eq. rewrite Hs by done. congruence.
Qed.

Lemma dead_packet key id c s now src d cr :
  dead_session key id c s ->
  dead_session key id c (getOrCreateConnection now src d cr s)
  /\ only_others key s (getOrCreateConnection now src d cr s).
Proof.
  intros Hd. destruct Hd as [H1 H2 H3 H4 H5]. unfold getOrCreateConnection.
  destruct (us_conns s !! src) as [i|] eqn:E; [split; [by split|by apply only_others_same]|].
  unfold createConnection. destruct (_ || _); [split; [by split|by apply only_others_same]|].
  set (i := fresh (dom (us_tab s))).
  assert (Hi : us_tab s !! i = None) by (apply not_elem_of_dom, is_fresh).
  assert (Hk : src <> key) by congruence. assert (i <> id) by congruence.
  destruct (cr_early cr); simpl; (split; [split; simpl; rewrite ?lookup_insert_ne by congruence; auto|]);
    (exists [(i, d)]; split; [done|]; intros j e He; apply list_elem_of_singleton in He as [= -> ->]; simpl;
     exists src; split; [eexists; by rewrite lookup_insert_eq|done]).
Qed.

Lemma dead_step key id c s e :
  udp_inv s -> udp_live s -> dead_session key id c s -> e <> CloseStream ->
  before_timeout key (uc_lastUsed c) e ->
  dead_session key id c (udp_step s e) /\ only_others key s (udp_step s e).
Proof.
  intros Hi Hl Hd He Ht. pose proof Hd as [H1 H2 H3 H4 H5]. destruct e; simpl; try done.
  - destruct onRead_ok; [|by split; [|apply only_others_same]].
    assert (Hd' : dead_session key id c (receive src data s)) by (by split).
    destruct (dead_packet key id c _ now src data cr Hd') as [? (extra & E & Hx)].
    split; [done|]. by exists extra.
  - destruct (us_forwards s !! i) as [[j d]|] eqn:Ef; [|by split; [|apply only_others_same]].
    unfold forwardToDestination. simpl.
    destruct (us_tab s !! j) as [c0|] eqn:Ej; [|split; [by split|by apply only_others_same]].
    destruct (uc_closed c0) eqn:Ec, write_ok; try (split; [by split|by apply only_others_same]).
    assert (Hne : j <> id) by congruence. split.
    + split; simpl; auto. by rewrite lookup_insert_ne.
    + exists [(j, d)]. split; [done|]. intros i' d' Hin. apply list_elem_of_singleton in Hin as [= -> ->].
      exists (uc_srcAddr c0). split; [exists (used now c0); simpl; by rewrite lookup_insert_eq|].
      intros Hk. pose proof (live_listed s Hl _ _ Ej Ec). congruence.
  - unfold response_read. destruct (us_tab s !! id0) as [c0|] eqn:Ej; [|by split; [|apply only_others_same]].
    destruct (uc_reader c0) eqn:Er; try (by split; [|apply only_others_same]).
    destruct (uc_closed c0); (split; [|by apply only_others_same]).
    + apply (dead_insert key id c s id0 c0); auto. congruence.
    + apply (dead_insert key id c s id0 c0); auto. congruence.
  - unfold response_write. destruct (us_tab s !! id0) as [c0|] eqn:Ej; [|by split; [|apply only_others_same]].
    destruct (uc_reader c0) eqn:Er; try (by split; [|apply only_others_same]).
    destruct write_ok; (split; [|by apply only_others_same]).
    + apply (dead_insert key id c s id0 c0); auto. congruence.
    + apply (dead_insert key id c s id0 c0); auto. congruence.
  - unfold reader_end. destruct (us_tab s !! id0) as [c0|] eqn:Ej; [|by split; [|apply only_others_same]].
    destruct (uc_reader c0) eqn:Er; (split; [|by apply only_others_same]); try done.
    apply (dead_insert key id c s id0 c0); auto. congruence.
  - destruct (us_clean s) eqn:Ec; (split; [|by apply only_others_same]); [done|]. split; simpl; auto.
    intros todo removed [= <- <-]. set_solver.
  - unfold clean_one. destruct (us_clean s) as [[todo removed]|] eqn:Ec; [|by split; [|apply only_others_same]].
    destruct (todo !! key0) as [j|] eqn:Et; [|by split; [|apply only_others_same]].
    destruct (us_tab s !! j) as [c0|] eqn:Ej; [|by split; [|apply only_others_same]].
    pose proof (live_todo s Hl _ _ _ _ Ec Et) as Hk.
    destruct (Expired now c0) eqn:Ex; (split; [|by apply only_others_same]).
    + assert (key0 <> key).
      { intros ->. assert (j = id) as -> by congruence. assert (c0 = c) as -> by congruence.
        unfold Expired in Ex. simpl in Ht. specialize (Ht eq_refl). lia. }
      assert (j <> id).
      { intros ->. destruct (inv_conns s Hi _ _ Hk) as (c1 & E1 & <-).
        destruct (inv_conns s Hi _ _ H1) as (c2 & E2 & <-). congruence. }
      split; simpl; auto.
      * by rewrite lookup_insert_ne.
      * intros t r [= <- <-]. specialize (H5 _ _ eq_refl). set_solver.
    + split; simpl; auto. intros t r [= <- <-]. by apply (H5 todo).
  - unfold clean_end. destruct (us_clean s) as [[todo removed]|] eqn:Ec; (split; [|by apply only_others_same]); [|done].
    split; simpl; auto; [|done]. rewrite lookup_delete_all, bool_decide_eq_false_2; [done|]. by apply (H5 todo).
Qed.

Lemma dead_run key id c es : forall s,
  udp_inv s -> udp_live s -> dead_session key id c s -> running es ->
  Forall (before_timeout key (uc_lastUsed c)) es ->
  dead_session key id c (udp_run es s) /\ only_others key s (udp_run es s).
Proof.
  induction es as [|e es IH]; intros s Hi Hl Hd Hr Ht; [split; [done|by apply only_others_same]|].
  apply Forall_cons in Hr as [He Hr]. apply Forall_cons in Ht as [Hte Ht].
  destruct (dead_step key id c s e Hi Hl Hd He Hte) as [Hd1 (x1 & E1 & H1)].
  destruct (IH (udp_step s e) (udp_step_inv _ _ Hi) (udp_step_live _ _ He Hl) Hd1 Hr Ht)
    as [Hd2 (x2 & E2 & H2)].
  split; [done|]. exists (x1 ++ x2). cbn [udp_run fold_left] in *. fold (udp_run es (udp_step s e)) in *.
  rewrite E2, E1. split; [by rewrite app_assoc|].
  intros i d Hin. apply elem_of_app in Hin as [Hin|Hin]; [|by apply (H2 i d)].
  destruct (H1 i d Hin) as (src & Hs & Hne). exists src. split; [|done]. by apply udp_run_grows.
Qed.

(** a reader that times out closes its session but leaves it listed.  From
    then on every packet of that client is dropped, in every interleaving, as
    long as no clean-up looks at the session more than five minutes after its
    last use: nothing is sent for the client and no new session is made. *)
Theorem dead_session_swallows es0 es key id c :
  running es0 -> running es ->
  let s := udp_run es0 NewUDPUDPStream in
  let s' := udp_run es s in
  dead_session key id c s -> Forall (before_timeout key (uc_lastUsed c)) es ->
  us_conns s' !! key = Some id /\
  exists extra, us_sent s' = us_sent s ++ extra
  /\ forall i d, (i, d) ∈ extra -> exists src, session (us_tab s') i src /\ src <> key.
Proof.
  intros H0 H1 s s' Hd Ht.
  destruct (dead_run key id c es s) as [Hd' Ho]; auto.
  - apply udp_run_inv, udp_init_inv.
  - by apply udp_run_live, udp_init_live.
  - split; [apply (dead_listed _ _ _ _ Hd')|exact Ho].
Qed.

(** The end of the reader is all it takes. *)
Lemma reader_end_dies es key id c :
  running es ->
  let s := udp_run es NewUDPUDPStream in
  us_conns s !! key = Some id -> us_tab s !! id = Some c -> uc_reader c = Reading -> us_clean s = None ->
  dead_session key id (end_reader c) (udp_step s (ReaderEnds id)).
Proof.
  intros Hr s H1 H2 H3 H4. simpl. unfold reader_end. rewrite H2, H3. split; simpl; auto.
  - by rewrite lookup_insert_eq.
  - intros todo removed. by rewrite H4.
Qed.

Definition all_ok : creation := {| cr_preDial := true; cr_dial := true; cr_write := true; cr_early := false |}.

(** A clean-up that finds the session idle for more than five minutes removes
    it, and the client's next packet opens a new session and is sent. *)
Theorem clean_up_recovers es key id c now now' d :
  running es ->
  let s := udp_run es NewUDPUDPStream in
  us_conns s !! key = Some id -> us_tab s !! id = Some c -> us_clean s = None ->
  Expired now c = true ->
  let s' := udp_run [CleanBegin; CleanOne key now; CleanEnd] s in
  us_conns s' !! key = None /\
  exists id', us_sent (udp_step s' (Packet now' key d true all_ok)) = us_sent s ++ [(id', d)]
              /\ us_conns (udp_step s' (Packet now' key d true all_ok)) !! key = Some id'.
Proof.
  intros Hr s H1 H2 H3 Hx s'.
  assert (E : s' = set_clean None (set_conns (delete key (us_conns s))
                     (set_clean (Some (delete key (us_conns s), [key]))
                        (set_tab (<[id := conn_Close c]> (us_tab s)) (set_clean (Some (us_conns s, [])) s))))).
  { unfold s', udp_run. cbn [fold_left]. unfold udp_step at 3. rewrite H3.
    unfold udp_step at 2, clean_one. cbn [us_clean set_clean us_tab]. rewrite H1, H2, Hx. done. }
  clearbody s'. subst s'. simpl. split; [by rewrite lookup_delete_eq|].
  unfold getOrCreateConnection. simpl. rewrite lookup_delete_eq. simpl.
  eexists. split; [done|]. by rewrite lookup_insert_eq.
Qed.

(** ** Properties: TCP *)

(** Whatever happens, [handle] closes the client's connection exactly once, at
    the end, and the destination's exactly when it was dialled; data is piped
    only between open connections. *)
Theorem tcp_handle_closes preDial closed1 dial_ok closed2 hooked :
  let l := tcp_handle preDial closed1 dial_ok closed2 hooked in
  last l = Some CloseSrc /\ length (filter (fun e => e = CloseSrc) l) = 1%nat
  /\ (CloseDst ∈ l <-> DialDst ∈ l /\ dial_ok = true)
  /\ (forall h, Pipe h ∈ l -> exists l1, l = l1 ++ [Pipe h; CloseDst; CloseSrc]).
Proof.
  destruct preDial as [[|]|], closed1, dial_ok, closed2, hooked; cbn; split_and!; try done;
    try (intros h Hh; repeat (apply elem_of_cons in Hh as [[=]|Hh]; subst); try (by apply elem_of_nil in Hh));
    try (split; [intros Hd|intros [Hd He]]); try set_solver.
  all: try (by exists [PreDial; DialDst]); by exists [DialDst].
Qed.

(** A TCP route whose address cannot be bound does not start with an error: the
    nil listener is dereferenced, while logging the error or for the address
    of the route, and Start panics. *)
Theorem tcp_listen_failure_panics e s : start_tcp_route (inr e) s = Panic NilDereference.
Proof. by destruct e. Qed.

(** ** Examples and witnesses *)

Definition player : bytes := "203.0.113.5:5555".

(** One packet opens a session, whose reader then times out. *)
Definition silent_server : list udp_event := [Packet 0 player "hello" true all_ok; ReaderEnds 0].

Definition dead_conn_ex : udpUDPConn :=
  {| uc_srcAddr := player; uc_lastUsed := 0; uc_closed := true; uc_reader := Ended |}.

(** Four minutes of packets, with a clean-up in between. *)
Definition retries : list udp_event :=
  [Packet Minute player "again" true all_ok; Forward 0 Minute true;
   CleanBegin; CleanOne player (2 * Minute); CleanEnd;
   Packet (4 * Minute) player "still there?" true all_ok; Forward 0 (4 * Minute) true].

Lemma dead_session_swallows_witness :
  let s := udp_run silent_server NewUDPUDPStream in
  us_sent s = [(0%nat, B "hello")] /\ us_sent (udp_run retries s) = [(0%nat, B "hello")]
  /\ us_conns (udp_run retries s) !! player = Some 0%nat.
Proof.
  intros s. split; [vm_compute; reflexivity|]. split; [vm_compute; reflexivity|].
  apply (dead_session_swallows silent_server retries player 0 dead_conn_ex).
  - repeat constructor; discriminate.
  - repeat constructor; discriminate.
  - split; try (vm_compute; reflexivity). intros todo removed. vm_compute. discriminate.
  - repeat constructor. intros _. vm_compute. discriminate.
Defined.

Lemma clean_up_recovers_witness :
  let s := udp_run silent_server NewUDPUDPStream in
  us_conns (udp_run [CleanBegin; CleanOne player (6 * Minute); CleanEnd] s) !! player = None.
Proof.
  intros s. apply (clean_up_recovers silent_server player 0 dead_conn_ex (6 * Minute) (7 * Minute) []);
    [repeat constructor; discriminate|vm_compute; reflexivity..].
Defined.

Lemma udp_one_session_witness :
  let es := [Packet 0 player "a" true all_ok; Packet 1 player "b" true all_ok] in
  let s := udp_run es NewUDPUDPStream in
  let c := {| uc_srcAddr := player; uc_lastUsed := 0; uc_closed := false; uc_reader := Reading |} in
  us_tab s !! 0%nat = Some c /\ size (us_tab s) = 1%nat /\ (forall id c', us_tab s !! id = Some c' ->
    uc_closed c' = false -> uc_srcAddr c' = player -> id = 0%nat).
Proof.
  intros es s c. assert (H0 : us_tab s !! 0%nat = Some c) by (vm_compute; reflexivity).
  split; [exact H0|]. split; [vm_compute; reflexivity|]. intros id c' Hc Ho Hs.
  apply (udp_one_session es id 0 c' c); auto. repeat constructor; discriminate.
Defined.

(** Nothing stops a packet that was read before [Close] from opening a session
    afterwards. *)
Example session_after_close :
  let s := udp_run [CloseStream; Packet 0 player "late" true all_ok] NewUDPUDPStream in
  us_closed s = true /\ us_conns s !! player = Some 0%nat.
Proof. split; vm_compute; reflexivity. Qed.
