(* ===== verification/Auth.v ===== *)
(** * Authentication

    Models internal/auth (auth.go, utils.go, userpass.go, oidc.go,
    oauth_refresh.go, block_page.go), [Intersect] of internal/utils/slices.go
    and the OIDC middleware of internal/net/gphttp/middleware/oidc.go.

    A handler returns the list of what it does to the response.  The stored
    refresh tokens are shared objects: [as_tokens] maps a session to the
    identity of its object, [as_objs] holds the objects, and the steps between
    two lock operations are the events of [auth_step].  Random values, the
    answers of the identity provider and the time belong to a call ([auth_env]).
    The JWT, bcrypt, OAuth and OIDC libraries are the fields of [AuthLib]. *)

From S2P Require Import Prelude GoStrings NetAddr RulesHTTP MiddlewareVars.

(** ** Data *)

Inductive auth_error :=
  | ErrMissingSessionToken | ErrInvalidSessionToken | ErrUserNotAllowed
  | ErrMissingOAuthToken | ErrInvalidOAuthToken
  | ErrInvalidUsername | ErrInvalidPassword
  | errNoRefreshToken | ErrRefreshTokenFailure | errMissingIDToken
  | ErrVerifyIDToken | ErrParseClaims | ErrTokenExpired | ErrParseToken
  | ErrSignToken | ErrBothEmpty | ErrDiscovery | ErrClientRequired | ErrHash.

#[export] Instance auth_error_eq_dec : EqDecision auth_error.
Proof. solve_decision. Defined.

Record UserPassClaims := { uc_Username : bytes; uc_ExpiresAt : option Z }.

Record Session := { se_SessionID : bytes; se_Username : bytes; se_Groups : list bytes }.

Record sessionClaims := { sc_Session : Session; sc_Issuer : bytes; sc_ExpiresAt : option Z }.

Record IDTokenClaims := { ic_Username : bytes; ic_Groups : list bytes }.

(** [oidc.IDToken]: its expiry and what [Claims] decodes. *)
Record IDToken := { id_Expiry : Z; id_Claims : option IDTokenClaims }.

(** [oauth2.Token]: the extra field id_token when it is a string. *)
Record oauth2_Token := { ot_id_token : option bytes; ot_RefreshToken : bytes }.

Record oauth2_Config := {
  oc_ClientID : bytes;
  oc_ClientSecret : bytes;
  oc_Endpoint : bytes;
  oc_Scopes : list bytes
}.

(** What [oidc.NewProvider] discovers. *)
Record discovery := { di_Endpoint : bytes; di_EndSessionEndpoint : bytes }.

(** [http.Cookie]; a ttl is cut to seconds. *)
Record http_Cookie := {
  hc_Name : bytes;
  hc_Value : bytes;
  hc_MaxAge : Z;
  hc_Domain : bytes;
  hc_HttpOnly : bool;
  hc_Secure : bool;
  hc_SameSiteLax : bool;
  hc_Path : bytes
}.

(** What a handler does to the [ResponseWriter]. *)
Inductive reply :=
  | SetCookie (c : http_Cookie)
  | Redirect (url : bytes) (code : Z)
  | HttpError (msg : bytes) (code : Z)
  | WriteHeader (code : Z)
  | HTMLPage (statusText error logoutURL : bytes)
  | NextHandler.

#[export] Instance Session_eq_dec : EqDecision Session.
Proof. solve_decision. Defined.
#[export] Instance http_Cookie_eq_dec : EqDecision http_Cookie.
Proof. solve_decision. Defined.
#[export] Instance reply_eq_dec : EqDecision reply.
Proof. solve_decision. Defined.

(** ** Libraries *)

Class AuthLib := {
  SplitRune : bytes -> ascii -> list bytes;            (* strutils *)
  JoinRune : list bytes -> ascii -> bytes;
  Sum256 : bytes -> bytes;                             (* crypto/sha256 *)
  StatusText : Z -> bytes;
  error_Error : auth_error -> bytes;                   (* the text of an error *)
  url_Parse : bytes -> option URL;
  NewNumericDate : Z -> Z;                             (* golang-jwt *)
  jwt_is_HMAC : bytes -> option bool;                  (* the method of a token's header *)
  sign_user : bytes -> UserPassClaims -> option bytes; (* HS512 with a key *)
  parse_user : bytes -> Z -> bytes -> option (UserPassClaims * bool);  (* key, time, token; Valid *)
  sign_session : bytes -> sessionClaims -> option bytes;
  parse_session : bytes -> Z -> bytes -> option (sessionClaims * bool);
  bcrypt_Generate : bytes -> option bytes;
  bcrypt_Compare : bytes -> bytes -> bool;
  decode_creds : bytes -> option (bytes * bytes);      (* sonic, the body *)
  oidc_Verify : bytes -> Z -> bytes -> option IDToken; (* client ID, time, token *)
  AuthCodeURL : oauth2_Config -> bytes -> bytes -> bytes (* state, redirect_uri *)
}.

(** Documented behaviour: splitting and joining at a byte; a signed token is a
    token of an HMAC method that parses under its key until it expires, and
    not afterwards; a hash matches its password; [url.Parse] of the empty
    string is the empty URL. *)
Class AuthLibLaws `{AuthLib} := {
  SplitRune_Split s c : SplitRune s c = Split s c;
  JoinRune_Join l c : JoinRune l c = Join l c;
  sign_user_HMAC k c t : sign_user k c = Some t -> jwt_is_HMAC t = Some true;
  parse_sign_user k c t e now :
    sign_user k c = Some t -> uc_ExpiresAt c = Some e ->
    parse_user k now t = if now <? e then Some (c, true) else None;
  sign_session_HMAC k c t : sign_session k c = Some t -> jwt_is_HMAC t = Some true;
  parse_sign_session k c t e now :
    sign_session k c = Some t -> sc_ExpiresAt c = Some e ->
    parse_session k now t = if now <? e then Some (c, true) else None;
  bcrypt_matches p h : bcrypt_Generate p = Some h -> bcrypt_Compare h p = true;
  url_Parse_empty : url_Parse [] =
    Some {| u_Scheme := []; u_Host := []; u_Path := []; u_RawPath := []; u_RawQuery := []; u_Fragment := [] |}
}.

(** The settings of internal/common that the package reads. *)
Record auth_config := {
  APIJWTSecret : option bytes;
  APIJWTTokenTTL : Z;
  APIJWTSecure : bool;
  DebugDisableAuth : bool;
  OIDCIssuerURL : bytes;
  IsTest : bool
}.

(** A call's time, random bytes, rate limiter, answer of the token endpoint. *)
Record auth_env := {
  ae_now : Z;
  ae_rand : bytes;
  ae_allow : bool;
  ae_token : option oauth2_Token
}.

(** ** Standard library *)

Definition b64_digit (n : Z) : ascii :=
  if n <? 26 then zbyte (65 + n)
  else if n <? 52 then zbyte (71 + n)
  else if n <? 62 then zbyte (n - 4)
  else if n =? 62 then "-"%char else "_"%char.

(** [base64.URLEncoding.EncodeToString]. *)
Fixpoint b64url (s : bytes) : bytes :=
  match s with
  | a :: b :: c :: s' =>
      let n := byteZ a * 65536 + byteZ b * 256 + byteZ c in
      [b64_digit (n / 262144); b64_digit (n / 4096 mod 64); b64_digit (n / 64 mod 64); b64_digit (n mod 64)]
      ++ b64url s'
  | [a; b] =>
      let n := byteZ a * 65536 + byteZ b * 256 in
      [b64_digit (n / 262144); b64_digit (n / 4096 mod 64); b64_digit (n / 64 mod 64); "="%char]
  | [a] =>
      let n := byteZ a * 65536 in
      [b64_digit (n / 262144); b64_digit (n / 4096 mod 64); "="%char; "="%char]
  | [] => []
  end.

Definition hex_digit (n : Z) : ascii := if n <? 10 then zbyte (48 + n) else zbyte (87 + n).

(** [hex.EncodeToString]. *)
Definition hex_encode (s : bytes) : bytes :=
  flat_map (fun c => [hex_digit (byteZ c / 16); hex_digit (byteZ c mod 16)]) s.

(** [s[:n]] of a string. *)
Definition slice_to (n : nat) (s : bytes) : result auth_error bytes :=
  if (n <=? length s)%nat then Ok (take n s) else Panic SliceOutOfBounds.

(** ** utils/slices.go *)

Definition Intersect (slice1 slice2 : list bytes) : list bytes :=
  let seen : gset bytes := fold_left (fun seen x => {[ x ]} ∪ seen) slice1 ∅ in
  fold_left (fun result x => if bool_decide (x ∈ seen) then result ++ [x] else result) slice2 [].

Section Auth.

Context `{HL : HTTPLib} `{ML : MwLib} `{AL : AuthLib}.
Context (cfg : auth_config).

(** [Request.Cookie]: the first of that name. *)
Definition req_Cookie (r : Request) (name : bytes) : option Cookie :=
  find (fun c => bool_decide (ck_Name c = name)) (req_Cookies (r_Header r)).

(** ** utils.go *)

Definition requestRemoteIP (r : Request) : bytes :=
  match SplitHostPort (r_RemoteAddr r) with Some (ip, _) => ip | None => [] end.

Definition IsFrontend (r : Request) : bool := bool_decide (requestRemoteIP r = B "127.0.0.1").

Definition requestHost (r : Request) : bytes :=
  if IsFrontend r then hget (r_Header r) "X-Forwarded-Host" else r_Host r.

Definition host_is_ip (reqHost : bytes) : bool :=
  let host := match SplitHostPort reqHost with Some (h, _) => h | None => reqHost end in
  bool_decide (is_Some (ParseIP host)).

Definition cookieDomain (r : Request) : bytes :=
  let reqHost := requestHost r in
  if HasSuffix reqHost ".internal" then B ".internal"
  else if HasSuffix reqHost ".localhost" then B ".localhost"
  else if HasSuffix reqHost ".local" then B ".local"
  else if host_is_ip reqHost then []
  else
    match SplitRune reqHost "." with
    | _ :: ((_ :: _) as rest) => JoinRune ([] :: rest) "."
    | _ => []
    end.

Definition SetTokenCookie (r : Request) (name value : bytes) (ttl : Z) : reply :=
  SetCookie {| hc_Name := name; hc_Value := value; hc_MaxAge := ttl ÷ Second; hc_Domain := cookieDomain r;
               hc_HttpOnly := true; hc_Secure := APIJWTSecure cfg; hc_SameSiteLax := true; hc_Path := B "/" |}.

Definition ClearTokenCookie (r : Request) (name : bytes) : reply :=
  SetCookie {| hc_Name := name; hc_Value := []; hc_MaxAge := -1; hc_Domain := cookieDomain r;
               hc_HttpOnly := true; hc_Secure := APIJWTSecure cfg; hc_SameSiteLax := true; hc_Path := B "/" |}.

(** ** block_page.go *)

Definition WriteBlockPage (status : Z) (error logoutURL : bytes) : list reply :=
  [HTMLPage (StatusText status) error logoutURL].

(** ** userpass.go *)

Record UserPassAuth := {
  up_username : bytes;
  up_pwdHash : bytes;
  up_secret : bytes;
  up_tokenTTL : Z
}.

Definition NewUserPassAuth (username password secret : bytes) (tokenTTL : Z) : result auth_error UserPassAuth :=
  match bcrypt_Generate password with
  | None => Err ErrHash
  | Some h => Ok {| up_username := username; up_pwdHash := h; up_secret := secret; up_tokenTTL := tokenTTL |}
  end.

Definition TokenCookieName : bytes := B "godoxy_token".

Definition NewToken (now : Z) (a : UserPassAuth) : result auth_error bytes :=
  let claim := {| uc_Username := up_username a; uc_ExpiresAt := Some (NewNumericDate (now + up_tokenTTL a)) |} in
  match sign_user (up_secret a) claim with
  | Some token => Ok token
  | None => Err ErrSignToken
  end.

(** [jwt.ParseWithClaims] with the key function of the package: the header
    first, then the method's type, then signature and claims. *)
Definition ParseWithClaims {C} (parse : bytes -> Z -> bytes -> option (C * bool)) (key : bytes) (now : Z)
    (token : bytes) : option (C * bool) :=
  match jwt_is_HMAC token with
  | Some true => parse key now token
  | _ => None
  end.

Definition UserPass_CheckToken (now : Z) (a : UserPassAuth) (r : Request) : result auth_error unit :=
  match req_Cookie r TokenCookieName with
  | None => Err ErrMissingSessionToken
  | Some c =>
      match ParseWithClaims parse_user (up_secret a) now (ck_Value c) with
      | None => Err ErrParseToken
      | Some (claims, valid) =>
          if negb valid then Err ErrInvalidSessionToken
          else if negb (bool_decide (uc_Username claims = up_username a)) then Err ErrUserNotAllowed
          else
            match uc_ExpiresAt claims with
            | None => Panic NilDereference
            | Some e => if e <? now then Err ErrTokenExpired else Ok tt
            end
      end
  end.

Definition validatePassword (a : UserPassAuth) (user pass : bytes) : result auth_error unit :=
  if negb (bool_decide (user = up_username a)) then Err ErrInvalidUsername
  else if negb (bcrypt_Compare (up_pwdHash a) pass) then Err ErrInvalidPassword
  else Ok tt.

Definition UserPass_PostAuthCallbackHandler (now : Z) (a : UserPassAuth) (r : Request) : list reply :=
  match decode_creds (default [] (r_Body r)) with
  | None => [HttpError "invalid request" 400]
  | Some (user, pass) =>
      match validatePassword a user pass with
      | Ok _ =>
          match NewToken now a with
          | Ok token => [SetTokenCookie r TokenCookieName token (up_tokenTTL a); WriteHeader 200]
          | _ => [HttpError "Internal Server Error" 500]
          end
      | _ => [HttpError "invalid credentials" 400]
      end
  end.

Definition UserPass_LoginHandler (r : Request) : list reply := [Redirect "/login" 302].

Definition UserPass_LogoutHandler (r : Request) : list reply :=
  [ClearTokenCookie r TokenCookieName; Redirect "/" 302].

(** ** oidc.go: the provider *)

Record OIDCProvider := {
  op_oauthConfig : oauth2_Config;
  op_verifier : bytes;                       (* the verifier's client ID *)
  op_endSessionURL : option URL;
  op_allowedUsers : list bytes;
  op_allowedGroups : list bytes;
  op_unknown_login : bool                    (* onUnknownPathHandler: LoginHandler, or nil *)
}.

Definition CookieOauthState : bytes := B "godoxy_oidc_state".
Definition CookieOauthToken : bytes := B "godoxy_oauth_token".
Definition CookieOauthSessionToken : bytes := B "godoxy_session_token".

Definition OIDCAuthInitPath : bytes := B "/".
Definition OIDCPostAuthPath : bytes := B "/auth/callback".
Definition OIDCLogoutPath : bytes := B "/auth/logout".

Definition getAppScopedCookieName (a : OIDCProvider) (baseName : bytes) : bytes :=
  match oc_ClientID (op_oauthConfig a) with
  | [] => baseName
  | id => baseName ++ "_"%char :: take 8 (b64url (Sum256 id))
  end.

Definition oidcStateLength : nat := 32.

Definition generateState (rand : bytes) : result auth_error bytes :=
  slice_to oidcStateLength (b64url (take oidcStateLength rand)).

Definition NewOIDCProvider (discover : option discovery) (scopes : list bytes) (clientID clientSecret : bytes)
    (allowedUsers allowedGroups : list bytes) : result auth_error OIDCProvider :=
  if (length allowedUsers + length allowedGroups =? 0)%nat then Err ErrBothEmpty
  else
    match discover with
    | None => Err ErrDiscovery
    | Some p =>
        Ok {| op_oauthConfig := {| oc_ClientID := clientID; oc_ClientSecret := clientSecret;
                                   oc_Endpoint := di_Endpoint p; oc_Scopes := scopes |};
              op_verifier := clientID;
              op_endSessionURL := url_Parse (di_EndSessionEndpoint p);
              op_allowedUsers := allowedUsers;
              op_allowedGroups := allowedGroups;
              op_unknown_login := false |}
    end.

Definition NewOIDCProviderWithCustomClient (base : OIDCProvider) (clientID clientSecret : bytes)
    : result auth_error OIDCProvider :=
  if bool_decide (clientID = [] \/ clientSecret = []) then Err ErrClientRequired
  else
    Ok {| op_oauthConfig := {| oc_ClientID := clientID; oc_ClientSecret := clientSecret;
                               oc_Endpoint := oc_Endpoint (op_oauthConfig base);
                               oc_Scopes := oc_Scopes (op_oauthConfig base) |};
          op_verifier := clientID;
          op_endSessionURL := op_endSessionURL base;
          op_allowedUsers := op_allowedUsers base;
          op_allowedGroups := op_allowedGroups base;
          op_unknown_login := false |}.

Definition SetAllowedUsers (users : list bytes) (a : OIDCProvider) : OIDCProvider :=
  {| op_oauthConfig := op_oauthConfig a; op_verifier := op_verifier a; op_endSessionURL := op_endSessionURL a;
     op_allowedUsers := users; op_allowedGroups := op_allowedGroups a; op_unknown_login := op_unknown_login a |}.

Definition SetAllowedGroups (groups : list bytes) (a : OIDCProvider) : OIDCProvider :=
  {| op_oauthConfig := op_oauthConfig a; op_verifier := op_verifier a; op_endSessionURL := op_endSessionURL a;
     op_allowedUsers := op_allowedUsers a; op_allowedGroups := groups; op_unknown_login := op_unknown_login a |}.

Definition SetScopes (scopes : list bytes) (a : OIDCProvider) : OIDCProvider :=
  {| op_oauthConfig := {| oc_ClientID := oc_ClientID (op_oauthConfig a);
                          oc_ClientSecret := oc_ClientSecret (op_oauthConfig a);
                          oc_Endpoint := oc_Endpoint (op_oauthConfig a); oc_Scopes := scopes |};
     op_verifier := op_verifier a; op_endSessionURL := op_endSessionURL a; op_allowedUsers := op_allowedUsers a;
     op_allowedGroups := op_allowedGroups a; op_unknown_login := op_unknown_login a |}.

Definition SetOnUnknownPathHandler (a : OIDCProvider) : OIDCProvider :=
  {| op_oauthConfig := op_oauthConfig a; op_verifier := op_verifier a; op_endSessionURL := op_endSessionURL a;
     op_allowedUsers := op_allowedUsers a; op_allowedGroups := op_allowedGroups a; op_unknown_login := true |}.

(** The redirect URI set by [optRedirectPostAuth]. *)
Definition optRedirectPostAuth (r : Request) : bytes := B "https://" ++ requestHost r ++ OIDCPostAuthPath.

Definition getIDToken (now : Z) (a : OIDCProvider) (t : oauth2_Token) : result auth_error (bytes * IDToken) :=
  match ot_id_token t with
  | None => Err errMissingIDToken
  | Some jwt =>
      match oidc_Verify (op_verifier a) now jwt with
      | None => Err ErrVerifyIDToken
      | Some tok => Ok (jwt, tok)
      end
  end.

Definition parseClaims (t : IDToken) : result auth_error IDTokenClaims :=
  match id_Claims t with
  | None => Err ErrParseClaims
  | Some claim =>
      if bool_decide (ic_Username claim = []) && (length (ic_Groups claim) =? 0)%nat then Err ErrParseClaims
      else Ok claim
  end.

Definition checkAllowed (a : OIDCProvider) (user : bytes) (groups : list bytes) : bool :=
  if bool_decide (user ∈ op_allowedUsers a) then true
  else if (length (op_allowedGroups a) =? 0)%nat then false
  else (0 <? length (Intersect groups (op_allowedGroups a)))%nat.

Definition CheckToken (now : Z) (a : OIDCProvider) (r : Request) : result auth_error unit :=
  match req_Cookie r (getAppScopedCookieName a CookieOauthToken) with
  | None => Err ErrMissingOAuthToken
  | Some c =>
      match oidc_Verify (op_verifier a) now (ck_Value c) with
      | None => Err ErrInvalidOAuthToken
      | Some t =>
          match parseClaims t with
          | Ok claims => if checkAllowed a (ic_Username claims) (ic_Groups claims) then Ok tt else Err ErrUserNotAllowed
          | _ => Err ErrInvalidOAuthToken
          end
      end
  end.

(** ** oauth_refresh.go *)

Record RefreshResult := { rr_newSession : Session; rr_jwt : bytes; rr_jwtExpiry : Z }.

Record oauthRefreshToken := {
  rt_Username : bytes;
  rt_RefreshToken : bytes;
  rt_Expiry : Z;
  rt_result : option RefreshResult;
  rt_err : option auth_error
}.

(** The store, the objects, the pending invalidations with their time, and
    which objects were refreshed, with the refresh token that was handed to the
    token source for it, in order. *)
Record auth_store := {
  as_tokens : gmap bytes nat;
  as_objs : gmap nat oauthRefreshToken;
  as_timers : list (Z * bytes);
  as_calls : list (nat * bytes)
}.

Definition defaultRefreshTokenExpiry : Z := 30 * 24 * Hour.
Definition sessionInvalidateDelay : Z := 3 * Second.
Definition sessionTokenIssuer : bytes := B "GoDoxy".

Definition set_tokens (m : gmap bytes nat) (st : auth_store) : auth_store :=
  {| as_tokens := m; as_objs := as_objs st; as_timers := as_timers st; as_calls := as_calls st |}.

Definition set_objs (m : gmap nat oauthRefreshToken) (st : auth_store) : auth_store :=
  {| as_tokens := as_tokens st; as_objs := m; as_timers := as_timers st; as_calls := as_calls st |}.

Definition set_timers (l : list (Z * bytes)) (st : auth_store) : auth_store :=
  {| as_tokens := as_tokens st; as_objs := as_objs st; as_timers := l; as_calls := as_calls st |}.

Definition add_call (id : nat) (refresh : bytes) (st : auth_store) : auth_store :=
  {| as_tokens := as_tokens st; as_objs := as_objs st; as_timers := as_timers st;
     as_calls := as_calls st ++ [(id, refresh)] |}.

Definition set_outcome (r : option RefreshResult) (e : option auth_error) (t : oauthRefreshToken)
    : oauthRefreshToken :=
  {| rt_Username := rt_Username t; rt_RefreshToken := rt_RefreshToken t; rt_Expiry := rt_Expiry t;
     rt_result := r; rt_err := e |}.

Definition token_expired (now : Z) (t : oauthRefreshToken) : bool := rt_Expiry t <? now.

Definition newSessionID (rand : bytes) : bytes := hex_encode (take 32 rand).

Definition newSession (rand username : bytes) (groups : list bytes) : Session :=
  {| se_SessionID := newSessionID rand; se_Username := username; se_Groups := groups |}.

Definition invalidateOAuthRefreshToken (sid : bytes) (st : auth_store) : auth_store :=
  set_tokens (delete sid (as_tokens st)) st.

Definition getOAuthRefreshToken (now : Z) (claims : Session) (st : auth_store) : option nat * auth_store :=
  match as_tokens st !! se_SessionID claims with
  | None => (None, st)
  | Some id =>
      match as_objs st !! id with
      | None => (None, st)
      | Some t =>
          if token_expired now t then (None, invalidateOAuthRefreshToken (se_SessionID claims) st)
          else if negb (bool_decide (se_Username claims = rt_Username t)) then (None, st)
          else (Some id, st)
      end
  end.

Definition storeOAuthRefreshToken (now : Z) (sid username token : bytes) (st : auth_store) : auth_store :=
  let id := fresh (dom (as_objs st)) in
  set_tokens (<[sid := id]> (as_tokens st))
    (set_objs (<[id := {| rt_Username := username; rt_RefreshToken := token;
                          rt_Expiry := now + defaultRefreshTokenExpiry; rt_result := None; rt_err := None |}]>
                 (as_objs st)) st).

Definition setSessionTokenCookie (now : Z) (a : OIDCProvider) (r : Request) (s : Session) : list reply :=
  let claims := {| sc_Session := s; sc_Issuer := sessionTokenIssuer;
                   sc_ExpiresAt := Some (NewNumericDate (now + APIJWTTokenTTL cfg)) |} in
  match sign_session (default [] (APIJWTSecret cfg)) claims with
  | None => []
  | Some signed => [SetTokenCookie r (getAppScopedCookieName a CookieOauthSessionToken) signed (APIJWTTokenTTL cfg)]
  end.

Definition parseSessionJWT (now : Z) (jwt : bytes) : option (sessionClaims * bool) :=
  match ParseWithClaims parse_session (default [] (APIJWTSecret cfg)) now jwt with
  | None => None
  | Some (claims, valid) => Some (claims, valid && bool_decide (sc_Issuer claims = sessionTokenIssuer))
  end.

(** [TryRefreshToken] up to the call of [doRefreshToken]. *)
Definition refresh_begin (now : Z) (a : OIDCProvider) (jwt : bytes) (st : auth_store)
    : result auth_error (nat * Session) * auth_store :=
  match parseSessionJWT now jwt with
  | None => (Err ErrInvalidSessionToken, st)
  | Some (claims, valid) =>
      if negb valid then (Err ErrInvalidSessionToken, st)
      else
        match getOAuthRefreshToken now (sc_Session claims) st with
        | (None, st) => (Err errNoRefreshToken, st)
        | (Some id, st) =>
            if negb (checkAllowed a (se_Username (sc_Session claims)) (se_Groups (sc_Session claims)))
            then (Err ErrUserNotAllowed, st)
            else (Ok (id, sc_Session claims), st)
        end
  end.

(** [doRefreshToken], under the object's lock. *)
Definition doRefreshToken (e : auth_env) (a : OIDCProvider) (id : nat) (claims : Session) (st : auth_store)
    : result auth_error RefreshResult * auth_store :=
  match as_objs st !! id with
  | None => (Panic NilDereference, st)
  | Some t =>
      match rt_result t, rt_err t with
      | _, Some err => (Err err, st)
      | Some res, None => (Ok res, st)
      | None, None =>
          let st := add_call id (rt_RefreshToken t) st in
          let failed := set_outcome None (Some ErrRefreshTokenFailure) t in
          match ae_token e with
          | None => (Err ErrRefreshTokenFailure, set_objs (<[id := failed]> (as_objs st)) st)
          | Some newToken =>
              match getIDToken (ae_now e) a newToken with
              | Ok (idTokenJWT, idToken) =>
                  let st := set_timers (as_timers st ++ [(ae_now e + sessionInvalidateDelay, se_SessionID claims)]) st in
                  let sessionID := newSessionID (ae_rand e) in
                  let st := storeOAuthRefreshToken (ae_now e) sessionID (se_Username claims)
                              (ot_RefreshToken newToken) st in
                  let res := {| rr_newSession := {| se_SessionID := sessionID; se_Username := se_Username claims;
                                                    se_Groups := se_Groups claims |};
                                rr_jwt := idTokenJWT; rr_jwtExpiry := id_Expiry idToken |} in
                  (Ok res, set_objs (<[id := set_outcome (Some res) None t]> (as_objs st)) st)
              | _ => (Err ErrRefreshTokenFailure, set_objs (<[id := failed]> (as_objs st)) st)
              end
          end
      end
  end.

Definition TryRefreshToken (e : auth_env) (a : OIDCProvider) (jwt : bytes) (st : auth_store)
    : result auth_error RefreshResult * auth_store :=
  match refresh_begin (ae_now e) a jwt st with
  | (Ok (id, claims), st) => doRefreshToken e a id claims st
  | (Err err, st) => (Err err, st)
  | (Panic p, st) => (Panic p, st)
  end.

(** ** oidc.go: the handlers *)

Definition setIDTokenCookie (a : OIDCProvider) (r : Request) (jwt : bytes) (ttl : Z) : reply :=
  SetTokenCookie r (getAppScopedCookieName a CookieOauthToken) jwt ttl.

Definition clearCookie (a : OIDCProvider) (r : Request) : list reply :=
  [ClearTokenCookie r (getAppScopedCookieName a CookieOauthToken);
   ClearTokenCookie r (getAppScopedCookieName a CookieOauthSessionToken)].

(** [ProceedNext] of auth.go; [next]: the request's context holds a handler
    under [nextHandlerContextKey]. *)
Definition ProceedNext (next : bool) : reply := if next then NextHandler else WriteHeader 200.

(** The part of [LoginHandler] after a successful refresh, and after a failed one. *)
Definition refreshed_replies (now : Z) (a : OIDCProvider) (next : bool) (r : Request) (res : RefreshResult)
    : list reply :=
  setIDTokenCookie a r (rr_jwt res) (time_Sub (rr_jwtExpiry res) now)
  :: setSessionTokenCookie now a r (rr_newSession res) ++ [ProceedNext next].

Definition refresh_failed_replies (a : OIDCProvider) (r : Request) : list reply :=
  clearCookie a r ++ [Redirect "/" 302].

Definition LoginHandler (e : auth_env) (a : OIDCProvider) (next : bool) (r : Request) (st : auth_store)
    : result auth_error (list reply) * auth_store :=
  match req_Cookie r (getAppScopedCookieName a CookieOauthSessionToken) with
  | Some sessionToken =>
      match TryRefreshToken e a (ck_Value sessionToken) st with
      | (Ok res, st) => (Ok (refreshed_replies (ae_now e) a next r res), st)
      | (Err _, st) => (Ok (refresh_failed_replies a r), st)
      | (Panic p, st) => (Panic p, st)
      end
  | None =>
      if negb (ae_allow e) then (Ok [HttpError "auth rate limit exceeded" 429], st)
      else
        (state ← generateState (ae_rand e);
         Ok [SetTokenCookie r (getAppScopedCookieName a CookieOauthState) state (300 * Second);
             Redirect (AuthCodeURL (op_oauthConfig a) state (optRedirectPostAuth r)) 302], st)
  end.

Definition handleTestCallback (a : OIDCProvider) (r : Request) : list reply :=
  match req_Cookie r (getAppScopedCookieName a CookieOauthState) with
  | None => [HttpError "missing state cookie" 400]
  | Some state =>
      if negb (bool_decide (hget (url_Query (u_RawQuery (r_URL r))) "state" = ck_Value state))
      then [HttpError "invalid oauth state" 400]
      else [SetTokenCookie r (getAppScopedCookieName a CookieOauthToken) "test" Hour; Redirect "/" 302]
  end.

(** [PostAuthCallbackHandler]; [ae_token] is the answer to the exchange of the
    code. *)
Definition PostAuthCallbackHandler (e : auth_env) (a : OIDCProvider) (r : Request) (st : auth_store)
    : list reply * auth_store :=
  if IsTest cfg then (handleTestCallback a r, st)
  else
    match req_Cookie r (getAppScopedCookieName a CookieOauthState) with
    | None => ([HttpError "missing state cookie" 400], st)
    | Some state =>
        if negb (bool_decide (hget (url_Query (u_RawQuery (r_URL r))) "state" = ck_Value state))
        then ([HttpError "invalid oauth state" 400], st)
        else
          let internal := [HttpError "Internal Server Error" 500] in
          match ae_token e with
          | None => (internal, st)
          | Some oauth2Token =>
              match getIDToken (ae_now e) a oauth2Token with
              | Ok (jwt, idToken) =>
                  let last := [setIDTokenCookie a r jwt (time_Sub (id_Expiry idToken) (ae_now e)); Redirect "/" 302] in
                  match ot_RefreshToken oauth2Token with
                  | [] => (last, st)
                  | refresh =>
                      match parseClaims idToken with
                      | Ok claims =>
                          let session := newSession (ae_rand e) (ic_Username claims) (ic_Groups claims) in
                          (setSessionTokenCookie (ae_now e) a r session ++ last,
                           storeOAuthRefreshToken (ae_now e) (se_SessionID session) (ic_Username claims) refresh st)
                      | _ => (internal, st)
                      end
                  end
              | _ => (internal, st)
              end
          end
    end.

Definition logout_url (a : OIDCProvider) (oauthToken : option Cookie) (r : Request) : bytes :=
  match op_endSessionURL a, oauthToken with
  | Some u, Some c =>
      let query := hset (hset (url_Query (u_RawQuery u)) "id_token_hint" (ck_Value c))
                     "post_logout_redirect_uri" (B "https://" ++ requestHost r) in
      url_String (set_RawQuery (url_Encode query) u)
  | Some u, None => url_String u
  | None, _ => B "/"
  end.

Definition LogoutHandler (now : Z) (a : OIDCProvider) (r : Request) (st : auth_store) : list reply * auth_store :=
  let oauthToken := req_Cookie r (getAppScopedCookieName a CookieOauthToken) in
  let st :=
    match req_Cookie r (getAppScopedCookieName a CookieOauthSessionToken) with
    | Some c =>
        match parseSessionJWT now (ck_Value c) with
        | Some (claims, _) => invalidateOAuthRefreshToken (se_SessionID (sc_Session claims)) st
        | None => st
        end
    | None => st
    end in
  (clearCookie a r ++ [Redirect (logout_url a oauthToken r) 302], st).

(** [HandleAuth]; the request's URL is changed in place. *)
Definition HandleAuth (e : auth_env) (a : OIDCProvider) (next : bool) (r : Request) (st : auth_store)
    : result auth_error (list reply) * auth_store :=
  let r := match u_Path (r_URL r) with
           | [] => set_URL (set_Path OIDCAuthInitPath (r_URL r)) r
           | _ => r
           end in
  if negb (r_TLS r) && EqualFold (hget (r_Header r) "X-Forwarded-Proto") "https" then
    let u := r_URL r in
    (Ok [Redirect (url_String {| u_Scheme := B "https"; u_Host := u_Host u; u_Path := u_Path u;
                                 u_RawPath := u_RawPath u; u_RawQuery := u_RawQuery u;
                                 u_Fragment := u_Fragment u |}) 302], st)
  else if bool_decide (u_Path (r_URL r) = OIDCAuthInitPath) then LoginHandler e a next r st
  else if bool_decide (u_Path (r_URL r) = OIDCPostAuthPath) then
    let '(out, st) := PostAuthCallbackHandler e a r st in (Ok out, st)
  else if bool_decide (u_Path (r_URL r) = OIDCLogoutPath) then
    let '(out, st) := LogoutHandler (ae_now e) a r st in (Ok out, st)
  else if op_unknown_login a then LoginHandler e a next r st
  else (Ok [Redirect OIDCAuthInitPath 302], st).

(** ** auth.go *)

Inductive Provider := UserPass (a : UserPassAuth) | OIDC (a : OIDCProvider).

Definition IsOIDCEnabled : bool := negb (bool_decide (OIDCIssuerURL cfg = [])).

Definition IsEnabled : bool :=
  negb (DebugDisableAuth cfg) && (bool_decide (is_Some (APIJWTSecret cfg)) || IsOIDCEnabled).

(** [Initialize]: [defaultAuth]; the two constructors' results are arguments. *)
Definition Initialize (oidc : result auth_error OIDCProvider) (userpass : result auth_error UserPassAuth)
    : result auth_error (option Provider) :=
  if negb IsEnabled then Ok None
  else if negb (bool_decide (OIDCIssuerURL cfg = [])) then (fun a => Some (OIDC a)) <$> oidc
  else (fun a => Some (UserPass a)) <$> userpass.

Definition provider_CheckToken (now : Z) (p : Provider) (r : Request) : result auth_error unit :=
  match p with
  | UserPass a => UserPass_CheckToken now a r
  | OIDC a => CheckToken now a r
  end.

Definition provider_LoginHandler (e : auth_env) (p : Provider) (next : bool) (r : Request) (st : auth_store)
    : result auth_error (list reply) * auth_store :=
  match p with
  | UserPass a => (Ok (UserPass_LoginHandler r), st)
  | OIDC a => LoginHandler e a next r st
  end.

Definition AuthCheckHandler (e : auth_env) (defaultAuth : option Provider) (next : bool) (r : Request)
    (st : auth_store) : result auth_error (list reply) * auth_store :=
  match defaultAuth with
  | None => (Ok [WriteHeader 503], st)
  | Some p =>
      match provider_CheckToken (ae_now e) p r with
      | Ok _ => (Ok [WriteHeader 200], st)
      | Err _ => provider_LoginHandler e p next r st
      | Panic p => (Panic p, st)
      end
  end.

(** [AuthOrProceed]: [true] and no reply, or the login's replies. *)
Definition AuthOrProceed (e : auth_env) (defaultAuth : option Provider) (next : bool) (r : Request)
    (st : auth_store) : result auth_error (bool * list reply) * auth_store :=
  match defaultAuth with
  | None => (Ok (false, [WriteHeader 503]), st)
  | Some p =>
      match provider_CheckToken (ae_now e) p r with
      | Ok _ => (Ok (true, []), st)
      | Err _ =>
          let '(out, st) := provider_LoginHandler e p next r st in
          ((fun l => (false, l)) <$> out, st)
      | Panic p => (Panic p, st)
      end
  end.

(** ** middleware/oidc.go *)

Record oidcMiddleware := {
  om_AllowedUsers : list bytes;
  om_AllowedGroups : list bytes;
  om_ClientID : bytes;
  om_ClientSecret : bytes;
  om_Scopes : bytes
}.

(** The fields that change: [auth] and [isInitialized]. *)
Record oidc_state := { om_auth : option OIDCProvider; om_isInitialized : bool }.

Definition oidc_finalize : bool := IsOIDCEnabled.

(** [initSlow]; [fromEnv] is the result of [NewOIDCProviderFromEnv]. *)
Definition initSlow (o : oidcMiddleware) (fromEnv : result auth_error OIDCProvider) (s : oidc_state)
    : option auth_error * oidc_state :=
  let failed err := (Some err, {| om_auth := om_auth s; om_isInitialized := true |}) in
  match fromEnv with
  | Ok p =>
      let custom := negb (bool_decide (om_ClientID o = [])) && negb (bool_decide (om_ClientSecret o = [])) in
      match (if custom then NewOIDCProviderWithCustomClient p (om_ClientID o) (om_ClientSecret o) else Ok p) with
      | Ok p =>
          let p := SetOnUnknownPathHandler p in
          let p := if (0 <? length (om_AllowedUsers o))%nat then SetAllowedUsers (om_AllowedUsers o) p else p in
          let p := if (0 <? length (om_AllowedGroups o))%nat then SetAllowedGroups (om_AllowedGroups o) p else p in
          let p := if negb (bool_decide (om_Scopes o = [])) then SetScopes (Split (om_Scopes o) ",") p else p in
          (None, {| om_auth := Some p; om_isInitialized := true |})
      | Err err => failed err
      | Panic _ => failed ErrClientRequired
      end
  | Err err => failed err
  | Panic _ => failed ErrDiscovery
  end.

Definition oidc_init (o : oidcMiddleware) (fromEnv : result auth_error OIDCProvider) (s : oidc_state)
    : option auth_error * oidc_state :=
  if om_isInitialized s then (None, s) else initSlow o fromEnv s.

(** [before] once initialised: whether the request goes on, and the replies.
    A nil provider is dereferenced by the first method that is called. *)
Definition oidc_check (e : auth_env) (a : option OIDCProvider) (next : bool) (r : Request) (st : auth_store)
    : result auth_error (bool * list reply) * auth_store :=
  match a with
  | None => (Panic NilDereference, st)
  | Some a =>
      if bool_decide (u_Path (r_URL r) = OIDCLogoutPath) then
        let '(out, st) := LogoutHandler (ae_now e) a r st in (Ok (true, out), st)
      else
        match CheckToken (ae_now e) a r with
        | Ok _ => (Ok (true, []), st)
        | Err ErrMissingOAuthToken =>
            let '(out, st) := HandleAuth e a next r st in ((fun l => (false, l)) <$> out, st)
        | Err err => (Ok (false, WriteBlockPage 403 (error_Error err) OIDCLogoutPath), st)
        | Panic p => (Panic p, st)
        end
  end.

Definition oidc_before (o : oidcMiddleware) (fromEnv : result auth_error OIDCProvider) (e : auth_env) (next : bool)
    (r : Request) (s : oidc_state) (st : auth_store)
    : result auth_error (bool * list reply) * oidc_state * auth_store :=
  let '(err, s) := oidc_init o fromEnv s in
  match err with
  | Some err => (Ok (false, [HttpError (error_Error err) 500]), s, st)
  | None => let '(out, st) := oidc_check e (om_auth s) next r st in (out, s, st)
  end.

(** ** Interleavings *)

(** A request between [getOAuthRefreshToken] and the object's lock holds the
    object and its claims; [m_outcomes] records what each one got.  The store is
    shared by every provider. *)
Record machine := {
  m_store : auth_store;
  m_pending : list (OIDCProvider * nat * Session);
  m_outcomes : list (nat * Session * result auth_error RefreshResult)
}.

Inductive auth_event :=
  | Arrives (a : OIDCProvider) (now : Z) (jwt : bytes) (* a request with a session cookie *)
  | Refreshes (i : nat) (e : auth_env)                 (* the i-th pending one gets the lock *)
  | Callback (a : OIDCProvider) (e : auth_env) (r : Request)
  | Logout (a : OIDCProvider) (now : Z) (r : Request)
  | TimerFires (i : nat).

Definition auth_step (m : machine) (ev : auth_event) : machine :=
  match ev with
  | Arrives a now jwt =>
      match refresh_begin now a jwt (m_store m) with
      | (Ok p, st) => {| m_store := st; m_pending := m_pending m ++ [(a, p.1, p.2)]; m_outcomes := m_outcomes m |}
      | (_, st) => {| m_store := st; m_pending := m_pending m; m_outcomes := m_outcomes m |}
      end
  | Refreshes i e =>
      match m_pending m !! i with
      | Some (a, id, claims) =>
          let '(out, st) := doRefreshToken e a id claims (m_store m) in
          {| m_store := st; m_pending := delete i (m_pending m); m_outcomes := m_outcomes m ++ [(id, claims, out)] |}
      | None => m
      end
  | Callback a e r =>
      {| m_store := snd (PostAuthCallbackHandler e a r (m_store m)); m_pending := m_pending m;
         m_outcomes := m_outcomes m |}
  | Logout a now r =>
      {| m_store := snd (LogoutHandler now a r (m_store m)); m_pending := m_pending m; m_outcomes := m_outcomes m |}
  | TimerFires i =>
      match as_timers (m_store m) !! i with
      | Some (_, sid) =>
          {| m_store := invalidateOAuthRefreshToken sid
                          (set_timers (delete i (as_timers (m_store m))) (m_store m));
             m_pending := m_pending m; m_outcomes := m_outcomes m |}
      | None => m
      end
  end.

Definition auth_run (es : list auth_event) (m : machine) : machine := fold_left auth_step es m.

(** ** Refresh tokens *)

Definition done (t : oauthRefreshToken) : Prop := rt_result t <> None \/ rt_err t <> None.

(** What a done object answers. *)
Definition outcome_of (t : oauthRefreshToken) : result auth_error RefreshResult :=
  match rt_result t, rt_err t with
  | _, Some err => Err err
  | Some res, None => Ok res
  | None, None => Panic NilDereference
  end.

Abbreviation objs := (gmap nat oauthRefreshToken).

(** Objects are never dropped, keep their user and their refresh token, and
    are final once done. *)
Definition grows (o o' : objs) : Prop :=
  forall id t, o !! id = Some t ->
    exists t', o' !! id = Some t' /\ rt_Username t' = rt_Username t /\ (done t -> t' = t).

(** A call hands over the refresh token of the object it refreshes, and leaves
    the object done. *)
Definition calls_ok (o : objs) (calls : list (nat * bytes)) : Prop :=
  forall id s, (id, s) ∈ calls -> exists t, o !! id = Some t /\ rt_RefreshToken t = s /\ done t.

Definition results_ok (o : objs) : Prop :=
  forall id t res, o !! id = Some t -> rt_result t = Some res ->
    se_Username (rr_newSession res) = rt_Username t.

Record store_ok (st : auth_store) : Prop := {
  so_results : results_ok (as_objs st);
  so_tokens : forall sid id, as_tokens st !! sid = Some id -> is_Some (as_objs st !! id);
  so_once : NoDup (as_calls st).*1;
  so_called : calls_ok (as_objs st) (as_calls st)
}.

Record machine_ok (m : machine) : Prop := {
  mo_store : store_ok (m_store m);
  mo_pending : forall a id cl, (a, id, cl) ∈ m_pending m ->
    exists t, as_objs (m_store m) !! id = Some t /\ rt_Username t = se_Username cl;
  mo_outcomes : forall id cl out, (id, cl, out) ∈ m_outcomes m ->
    exists t, as_objs (m_store m) !! id = Some t /\ rt_Username t = se_Username cl /\ done t
              /\ out = outcome_of t
}.

Lemma grows_refl o : grows o o.
Proof. intros id t H. eauto. Qed.

Lemma grows_trans o1 o2 o3 : grows o1 o2 -> grows o2 o3 -> grows o1 o3.
Proof.
  intros H1 H2 id t H. destruct (H1 _ _ H) as (t1 & E1 & U1 & D1). destruct (H2 _ _ E1) as (t2 & E2 & U2 & D2).
  exists t2. split; [done|]. split; [congruence|]. intros D. rewrite (D1 D) in D2. auto.
Qed.

Lemma grows_finish o id t res err : o !! id = Some t -> ~ done t -> grows o (<[id := set_outcome res err t]> o).
Proof.
  intros H Hd i u Hu. destruct (decide (i = id)) as [->|Hn].
  - rewrite lookup_insert_eq. simplify_eq. exists (set_outcome res err t). repeat split; [done..|tauto].
  - rewrite lookup_insert_ne by done. eauto.
Qed.

Lemma grows_fresh o t : grows o (<[fresh (dom o) := t]> o).
Proof.
  intros i u Hu. rewrite lookup_insert_ne; [eauto|].
  intros <-. apply (is_fresh (dom o)). by apply elem_of_dom_2 in Hu.
Qed.

(** A machine stays well formed when its store moves on and the requests that
    wait and the outcomes are old ones. *)
Lemma machine_ok_store m st p :
  machine_ok m -> store_ok st -> grows (as_objs (m_store m)) (as_objs st) -> p ⊆ m_pending m ->
  machine_ok {| m_store := st; m_pending := p; m_outcomes := m_outcomes m |}.
Proof.
  intros [Hs Hp Ho] Hst Hg Hsub. split; cbn [m_store m_pending m_outcomes]; [done|..].
  - intros a id cl Hin. destruct (Hp a id cl (Hsub _ Hin)) as (t & E & U).
    destruct (Hg _ _ E) as (t' & E' & U' & _). exists t'. split; [done|congruence].
  - intros id cl out Hin. destruct (Ho id cl out Hin) as (t & E & U & D & ->).
    destruct (Hg _ _ E) as (t' & E' & U' & D'). rewrite (D' D) in *. eauto 6.
Qed.

Lemma store_ok_invalidate sid st : store_ok st -> store_ok (invalidateOAuthRefreshToken sid st).
Proof.
  intros [H1 H2 H3 H4]. split; simpl; [done| |done|done].
  intros s id. rewrite lookup_delete_Some. intros [_ H]. eauto.
Qed.

Lemma store_ok_timers l st : store_ok st -> store_ok (set_timers l st).
Proof. intros [H1 H2 H3 H4]. by split. Qed.

Lemma store_ok_store now sid u tok st : store_ok st -> store_ok (storeOAuthRefreshToken now sid u tok st).
Proof.
  intros [H1 H2 H3 H4]. unfold storeOAuthRefreshToken. set (t := {| rt_Username := u |}).
  split; simpl.
  - intros i t' res. destruct (decide (i = fresh (dom (as_objs st)))) as [->|Hn].
    + rewrite lookup_insert_eq. intros [= <-]. done.
    + rewrite lookup_insert_ne by done. apply H1.
  - intros s i. destruct (decide (i = fresh (dom (as_objs st)))) as [->|Hn].
    + rewrite lookup_insert_eq. done.
    + rewrite (lookup_insert_ne (as_objs st)) by done. rewrite lookup_insert_Some. intros [[_ E]|[_ E]]; [congruence|eauto].
  - done.
  - intros i s Hi. destruct (H4 i s Hi) as (t' & E & D). exists t'. split; [|done].
    rewrite lookup_insert_ne; [done|]. intros <-. apply (is_fresh (dom (as_objs st))). by apply elem_of_dom_2 in E.
Qed.

Lemma get_token_spec now cl st :
  let '(o, st') := getOAuthRefreshToken now cl st in
  (store_ok st -> store_ok st') /\ as_objs st' = as_objs st
  /\ forall id, o = Some id -> exists t, as_objs st !! id = Some t /\ rt_Username t = se_Username cl.
Proof.
  unfold getOAuthRefreshToken. destruct (_ !! _) as [id|]; [|done].
  destruct (as_objs st !! id) as [t|] eqn:E; [|done].
  case_if; [split; [apply store_ok_invalidate|done]|].
  case_bool_decide; simpl; [|done].
  split; [done|]. split; [done|]. intros i [= <-]. eauto.
Qed.

Lemma refresh_begin_spec now a jwt st :
  let '(o, st') := refresh_begin now a jwt st in
  (store_ok st -> store_ok st') /\ as_objs st' = as_objs st
  /\ forall id cl, o = Ok (id, cl) -> exists t, as_objs st !! id = Some t /\ rt_Username t = se_Username cl.
Proof.
  unfold refresh_begin. destruct (parseSessionJWT _ _) as [[claims valid]|]; [|done].
  destruct valid; simpl; [|done].
  pose proof (get_token_spec now (sc_Session claims) st) as H.
  destruct (getOAuthRefreshToken _ _ _) as [[id|] st'] eqn:E; [|naive_solver].
  destruct (checkAllowed _ _ _); simpl; naive_solver.
Qed.

(** Settling an object that was not done yet: it becomes done, and its call is
    the only one. *)
Lemma store_ok_settle id t st res err :
  store_ok st -> as_objs st !! id = Some t -> ~ done t -> res <> None \/ err <> None ->
  (forall r, res = Some r -> se_Username (rr_newSession r) = rt_Username t) ->
  store_ok (set_objs (<[id := set_outcome res err t]> (as_objs st)) (add_call id (rt_RefreshToken t) st)).
Proof.
  intros [H1 H2 H3 H4] E Hd Hr Hu. split; simpl.
  - intros i t' r. destruct (decide (i = id)) as [->|Hn].
    + rewrite lookup_insert_eq. intros [= <-]. simpl. apply Hu.
    + rewrite lookup_insert_ne by done. apply H1.
  - intros sid i Hi. destruct (decide (i = id)) as [->|Hn].
    + by rewrite lookup_insert_eq.
    + rewrite lookup_insert_ne by done. eauto.
  - rewrite fmap_app. apply NoDup_app. split; [done|]. split; [|apply NoDup_singleton].
    intros i Hi Hid%list_elem_of_singleton. apply list_elem_of_fmap in Hi as ([i' s] & -> & Hi). simpl in Hid. subst i'.
    destruct (H4 id s Hi) as (t' & E' & _ & D). by simplify_eq.
  - intros i s [Hi|Hi%list_elem_of_singleton]%elem_of_app.
    + destruct (H4 i s Hi) as (t' & E' & Es & D). exists t'. split; [|done].
      rewrite lookup_insert_ne; [done|]. intros <-. by simplify_eq.
    + simplify_eq. exists (set_outcome res err t). by rewrite lookup_insert_eq.
Qed.

Lemma doRefreshToken_spec e a id cl st t :
  store_ok st -> as_objs st !! id = Some t -> rt_Username t = se_Username cl ->
  let '(out, st') := doRefreshToken e a id cl st in
  store_ok st' /\ grows (as_objs st) (as_objs st')
  /\ exists t', as_objs st' !! id = Some t' /\ rt_Username t' = se_Username cl /\ done t' /\ out = outcome_of t'.
Proof.
  intros Hs E U. unfold doRefreshToken. rewrite E.
  destruct (rt_result t) as [res|] eqn:Er, (rt_err t) as [err|] eqn:Ee.
  1-3: split; [done|]; split; [apply grows_refl|]; exists t; unfold done, outcome_of; rewrite Er, Ee; naive_solver.
  assert (Hd : ~ done t) by (intros [H|H]; done).
  assert (Hfail : let st' := set_objs (<[id := set_outcome None (Some ErrRefreshTokenFailure) t]> (as_objs st)) (add_call id (rt_RefreshToken t) st) in
    store_ok st' /\ grows (as_objs st) (as_objs st')
    /\ exists t', as_objs st' !! id = Some t' /\ rt_Username t' = se_Username cl /\ done t'
       /\ Err ErrRefreshTokenFailure = outcome_of t').
  { split; [apply store_ok_settle; naive_solver|]. split; [by apply grows_finish|].
    eexists. simpl. rewrite lookup_insert_eq. split; [done|]. split; [done|]. split; [by right|done]. }
  destruct (ae_token e) as [tok|]; [|exact Hfail].
  destruct (getIDToken _ _ _) as [[jwt idt]|err|p]; [|exact Hfail..].
  set (st1 := storeOAuthRefreshToken (ae_now e) (newSessionID (ae_rand e)) (se_Username cl) (ot_RefreshToken tok)
    (set_timers (as_timers st ++ [(ae_now e + sessionInvalidateDelay, se_SessionID cl)]) st)).
  assert (Hs1 : store_ok st1) by (by apply store_ok_store, store_ok_timers).
  assert (Hg1 : grows (as_objs st) (as_objs st1)) by apply grows_fresh.
  assert (E1 : as_objs st1 !! id = Some t).
  { simpl. rewrite lookup_insert_ne; [done|]. intros <-. apply (is_fresh (dom (as_objs st))). by apply elem_of_dom_2 in E. }
  set (res := {| rr_newSession := _ |}).
  split; [|split].
  - apply (store_ok_settle id t st1 (Some res) None Hs1 E1 Hd); [by left|]. intros r [= <-]. done.
  - eapply grows_trans; [exact Hg1|]. by apply (grows_finish (as_objs st1)).
  - exists (set_outcome (Some res) None t). split; [apply lookup_insert_eq|]. split; [done|]. split; [by left|done].
Qed.

Lemma callback_store_ok e a r st :
  store_ok st -> let st' := (PostAuthCallbackHandler e a r st).2 in
  store_ok st' /\ grows (as_objs st) (as_objs st').
Proof.
  intros Hs. unfold PostAuthCallbackHandler.
  repeat (case_match; try (split; [done|apply grows_refl])).
  split; [by apply store_ok_store|apply grows_fresh].
Qed.

Lemma logout_store_ok now a r st :
  store_ok st -> let st' := (LogoutHandler now a r st).2 in
  store_ok st' /\ grows (as_objs st) (as_objs st').
Proof.
  intros Hs. unfold LogoutHandler. simpl.
  repeat (case_match; try (split; [done|apply grows_refl])).
  split; [by apply store_ok_invalidate|apply grows_refl].
Qed.

Lemma auth_step_ok m ev : machine_ok m -> machine_ok (auth_step m ev).
Proof.
  intros Hm. destruct ev as [a now jwt|i e|a e r|a now r|i]; simpl.
  - pose proof (refresh_begin_spec now a jwt (m_store m)) as H.
    destruct (refresh_begin _ _ _ _) as [o st]. destruct H as (Hs & Ho & Hid).
    assert (Hm' : machine_ok {| m_store := st; m_pending := m_pending m; m_outcomes := m_outcomes m |}).
    { apply machine_ok_store; [done|apply Hs, Hm|rewrite Ho; apply grows_refl|done]. }
    destruct o as [[id cl]|err|p]; [|done..]. destruct Hm' as [M1 M2 M3]. split; [done| |done].
    cbn [m_store m_pending m_outcomes] in *. intros a' id' cl' [Hin|Hin%list_elem_of_singleton]%elem_of_app; [eauto|].
    simplify_eq. rewrite Ho. by apply Hid.
  - destruct (m_pending m !! i) as [[[a id] cl]|] eqn:Ei; [|done].
    destruct (mo_pending _ Hm a id cl) as (t & E & U); [by eapply list_elem_of_lookup_2|].
    pose proof (doRefreshToken_spec e a id cl (m_store m) t (mo_store _ Hm) E U) as H.
    destruct (doRefreshToken _ _ _ _ _) as [out st]. destruct H as (Hs & Hg & t' & E' & U' & D & Hout).
    assert (Hm' : machine_ok {| m_store := st; m_pending := delete i (m_pending m); m_outcomes := m_outcomes m |}).
    { apply machine_ok_store; [done|done|done|intros x; apply list_elem_of_delete_inv]. }
    destruct Hm' as [M1 M2 M3]. split; [done|done|]. cbn [m_store m_pending m_outcomes] in *.
    intros id' cl' out' [Hin|Hin%list_elem_of_singleton]%elem_of_app; [eauto|]. simplify_eq. eauto 6.
  - destruct (callback_store_ok e a r (m_store m) (mo_store _ Hm)). by apply machine_ok_store.
  - destruct (logout_store_ok now a r (m_store m) (mo_store _ Hm)). by apply machine_ok_store.
  - destruct (as_timers _ !! i) as [[? sid]|]; [|done].
    apply machine_ok_store; [done| |apply grows_refl|done].
    apply store_ok_invalidate, store_ok_timers, Hm.
Qed.

Lemma auth_run_ok es : forall m, machine_ok m -> machine_ok (auth_run es m).
Proof. induction es as [|ev es IH]; intros m Hm; [done|]. apply IH, auth_step_ok, Hm. Qed.

(** The state after the store was loaded from its file. *)
Definition loaded (m : machine) : Prop :=
  m_pending m = [] /\ m_outcomes m = [] /\ as_calls (m_store m) = []
  /\ (forall id t, as_objs (m_store m) !! id = Some t -> ~ done t)
  /\ forall sid id, as_tokens (m_store m) !! sid = Some id -> is_Some (as_objs (m_store m) !! id).

Lemma loaded_ok m : loaded m -> machine_ok m.
Proof.
  intros (Hp & Ho & Hc & Hd & Ht). split.
  - split; [|done|by rewrite Hc; constructor|rewrite Hc; intros ??; set_solver].
    intros id t res E R. destruct (Hd id t E). left. by rewrite R.
  - rewrite Hp. set_solver.
  - rewrite Ho. set_solver.
Qed.

(** The objects that were stored with refresh token [s]. *)
Definition holders (s : bytes) (o : objs) : objs := filter (fun kv => rt_RefreshToken kv.2 = s) o.

(** A refresh token is handed over at most once for each object it was stored
    in. *)
Lemma calls_bounded st s :
  store_ok st -> (length (filter (fun c => c.2 = s) (as_calls st)) <= size (holders s (as_objs st)))%nat.
Proof.
  intros [_ _ Hn Hc].
  assert (Hnf : NoDup (filter (fun c => c.2 = s) (as_calls st)).*1).
  { eapply sublist_NoDup; [exact Hn|]. apply fmap_sublist, sublist_filter. }
  rewrite <- (length_fmap fst), <- (size_list_to_set (C := gset nat) _ Hnf), <- size_dom.
  apply subseteq_size. intros id. rewrite elem_of_list_to_set, list_elem_of_fmap.
  intros ([i s'] & -> & [E Hin]%list_elem_of_filter). simpl in E. subst s'.
  destruct (Hc i s Hin) as (t & Et & Es & _). apply elem_of_dom. exists t.
  by apply map_lookup_filter_Some.
Qed.

(** C20: from the loading of the store on, over every interleaving of requests,
    logins, logouts and timers, and
    whatever the identity provider answers, each stored refresh-token object is
    redeemed at most once, and what is handed to the token source is the refresh
    token that object holds; so one and the same refresh token is handed over at
    most once for each time it was stored (more than once only when the identity
    provider gave it out again, as one that does not rotate its tokens does). All
    requests that refresh with an object get the same answer, and the session it
    is exchanged for belongs to the same user; none of them panics. *)
Theorem refresh_token_once es m0 :
  loaded m0 ->
  let m := auth_run es m0 in
  NoDup (as_calls (m_store m)).*1
  /\ (forall id s, (id, s) ∈ as_calls (m_store m) ->
        exists t, as_objs (m_store m) !! id = Some t /\ rt_RefreshToken t = s)
  /\ (forall s, (length (filter (fun c => c.2 = s) (as_calls (m_store m)))
                 <= size (holders s (as_objs (m_store m))))%nat)
  /\ (forall id cl1 out1 cl2 out2,
        (id, cl1, out1) ∈ m_outcomes m -> (id, cl2, out2) ∈ m_outcomes m ->
        out1 = out2 /\ se_Username cl1 = se_Username cl2)
  /\ (forall id cl res, (id, cl, Ok res) ∈ m_outcomes m -> se_Username (rr_newSession res) = se_Username cl)
  /\ (forall id cl p, (id, cl, Panic p) ∉ m_outcomes m).
Proof.
  intros Hl m. assert (Hm : machine_ok m) by apply auth_run_ok, loaded_ok, Hl.
  pose proof (mo_outcomes _ Hm) as Ho. pose proof (mo_store _ Hm) as Hs.
  split; [apply Hs|]. split; [|split; [intros s; by apply calls_bounded|split; [|split]]].
  - intros id s H. destruct (so_called _ Hs id s H) as (t & E & Es & _). eauto.
  - intros id cl1 out1 cl2 out2 H1%Ho H2%Ho. destruct H1 as (t & E & U & _ & ->), H2 as (t2 & E2 & U2 & _ & ->).
    simplify_eq. split; [done|congruence].
  - intros id cl res H%Ho. destruct H as (t & E & U & D & Hout). rewrite <- U. eapply (so_results _ Hs); [done|].
    revert Hout. unfold outcome_of. repeat case_match; congruence.
  - intros id cl p H%Ho. destruct H as (t & E & U & D & Hout). revert Hout. unfold outcome_of.
    destruct D as [D|D]; repeat case_match; congruence.
Qed.

(** ** Who is let in *)

Lemma Intersect_filter l1 l2 : Intersect l1 l2 = filter (fun x => x ∈ l1) l2.
Proof.
  unfold Intersect.
  assert (Hs : forall (l : list bytes) (acc : gset bytes),
    fold_left (fun seen x => {[ x ]} ∪ seen) l acc = list_to_set l ∪ acc).
  { induction l as [|x l IH]; intros acc; simpl; [set_solver|]. rewrite IH. set_solver. }
  rewrite Hs.
  assert (Hf : forall (l acc : list bytes),
    fold_left (fun result x => if bool_decide (x ∈ (list_to_set l1 ∪ ∅ : gset bytes)) then result ++ [x] else result)
      l acc = acc ++ filter (fun x => x ∈ l1) l).
  { induction l as [|x l IH]; intros acc; simpl; [by rewrite app_nil_r|]. rewrite IH, filter_cons.
    destruct (decide (x ∈ l1)) as [Hx|Hx].
    - rewrite bool_decide_eq_true_2 by set_solver. by rewrite <- app_assoc.
    - rewrite bool_decide_eq_false_2 by set_solver. done. }
  by rewrite Hf.
Qed.

Lemma checkAllowed_spec a user groups :
  checkAllowed a user groups = true <->
  user ∈ op_allowedUsers a \/ exists g, g ∈ groups /\ g ∈ op_allowedGroups a.
Proof.
  unfold checkAllowed. case_bool_decide as Hu; [naive_solver|]. rewrite Intersect_filter.
  destruct (op_allowedGroups a) as [|g0 gs] eqn:Eg; simpl length.
  { split; [done|]. intros [?|(g & _ & Hg)]; [done|]. set_solver. }
  rewrite <- Eg. cbn [Nat.eqb]. rewrite Nat.ltb_lt. split.
  - intros Hl. right. destruct (filter _ _) as [|g l] eqn:Ef; [simpl in Hl; lia|].
    assert (Hg : g ∈ filter (fun x => x ∈ groups) (op_allowedGroups a)) by (rewrite Ef; set_solver).
    apply list_elem_of_filter in Hg. eauto.
  - intros [?|(g & H1 & H2)]; [done|].
    assert (Hg : g ∈ filter (fun x => x ∈ groups) (op_allowedGroups a)) by (by apply list_elem_of_filter).
    destruct (filter _ _); [set_solver|simpl; lia].
Qed.

(** A token cookie that verifies for the provider's client and names an allowed
    user or group. *)
Definition authenticated (now : Z) (a : OIDCProvider) (r : Request) : Prop :=
  exists c t claims,
    req_Cookie r (getAppScopedCookieName a CookieOauthToken) = Some c
    /\ oidc_Verify (op_verifier a) now (ck_Value c) = Some t
    /\ id_Claims t = Some claims /\ (ic_Username claims <> [] \/ ic_Groups claims <> [])
    /\ (ic_Username claims ∈ op_allowedUsers a \/ exists g, g ∈ ic_Groups claims /\ g ∈ op_allowedGroups a).

Lemma parseClaims_Ok t claims :
  parseClaims t = Ok claims <-> id_Claims t = Some claims /\ (ic_Username claims <> [] \/ ic_Groups claims <> []).
Proof.
  unfold parseClaims. destruct (id_Claims t) as [c|]; [|naive_solver].
  destruct (ic_Username c) as [|x u] eqn:Eu, (ic_Groups c) as [|g gs] eqn:Eg; simpl; split; intros H;
    repeat match goal with H : _ /\ _ |- _ => destruct H | H : Some _ = Some _ |- _ => injection H as <- end;
    naive_solver congruence.
Qed.

Lemma CheckToken_spec now a r : CheckToken now a r = Ok tt <-> authenticated now a r.
Proof.
  unfold CheckToken, authenticated. split.
  - destruct (req_Cookie _ _) as [c|] eqn:Ec; [|done]. destruct (oidc_Verify _ _ _) as [t|] eqn:Ev; [|done].
    destruct (parseClaims t) as [cl|err|p] eqn:Ep; [|done..].
    destruct (checkAllowed _ _ _) eqn:Ea; [|done]. intros _. apply parseClaims_Ok in Ep as [? ?].
    apply checkAllowed_spec in Ea. eauto 10.
  - intros (c & t & cl & -> & -> & Ecl & Hne & Hal). rewrite (proj2 (parseClaims_Ok t cl)) by done.
    by rewrite (proj2 (checkAllowed_spec _ _ _)).
Qed.

Lemma CheckToken_no_panic now a r p : CheckToken now a r <> Panic p.
Proof. unfold CheckToken. repeat case_match; done. Qed.

Definition let_through (x : result auth_error (bool * list reply)) : bool :=
  match x with Ok (b, _) => b | _ => false end.

(** C21: the OIDC middleware lets a request through exactly when it carries a
    token that verifies and names an allowed user or group, or asks for the
    logout path, which needs no token at all. *)
Theorem oidc_middleware_gate e a next r st :
  let_through (oidc_check e (Some a) next r st).1 = true <->
  authenticated (ae_now e) a r \/ u_Path (r_URL r) = OIDCLogoutPath.
Proof.
  unfold oidc_check. case_bool_decide as Hp.
  { split; [auto|]. intros _. by destruct (LogoutHandler _ _ _ _). }
  rewrite <- CheckToken_spec. pose proof (CheckToken_no_panic (ae_now e) a r) as Hn.
  destruct (CheckToken (ae_now e) a r) as [[]|err|p] eqn:E; simpl; [naive_solver| |congruence].
  split; [|intros [?|?]; congruence]. intros H. exfalso. revert H.
  destruct err; simpl; try done. destruct (HandleAuth _ _ _ _ _) as [[]]; done.
Qed.

(** ** Logins *)

(** an OIDC callback sets cookies or stores a session only if the state of
    the query is the value of the state cookie, the code was exchanged, and the
    ID token verifies for the provider's client. *)
Theorem callback_checks_state e a r st c :
  IsTest cfg = false ->
  let '(out, st') := PostAuthCallbackHandler e a r st in
  SetCookie c ∈ out \/ st' <> st ->
  exists state tok jwt t,
    req_Cookie r (getAppScopedCookieName a CookieOauthState) = Some state
    /\ hget (url_Query (u_RawQuery (r_URL r))) "state" = ck_Value state
    /\ ae_token e = Some tok /\ ot_id_token tok = Some jwt
    /\ oidc_Verify (op_verifier a) (ae_now e) jwt = Some t.
Proof.
  intros Ht. unfold PostAuthCallbackHandler. rewrite Ht.
  assert (Hno : forall msg code, SetCookie c ∈ [HttpError msg code] -> False) by (intros ? ? H; set_solver).
  destruct (req_Cookie _ _) as [state|] eqn:Es; [|naive_solver].
  case_bool_decide as Hst; simpl; [|naive_solver].
  destruct (ae_token e) as [tok|] eqn:Et; [|naive_solver]. unfold getIDToken.
  destruct (ot_id_token tok) as [jwt|] eqn:Ej; [|naive_solver].
  destruct (oidc_Verify _ _ _) as [t|] eqn:Ev; [|naive_solver].
  repeat case_match; simplify_eq; naive_solver.
Qed.

Section Laws.

Context `{LW : !AuthLibLaws}.

(** C23: a login with user name and password sets the session cookie only for
    the configured user and a password bcrypt accepts, does so for the right
    one, and requests with that cookie are accepted exactly until the token's
    expiry. *)
Theorem login_session user pass secret ttl a now r u p :
  NewUserPassAuth user pass secret ttl = Ok a ->
  decode_creds (default [] (r_Body r)) = Some (u, p) ->
  let out := UserPass_PostAuthCallbackHandler now a r in
  (forall c, SetCookie c ∈ out ->
     u = user /\ bcrypt_Compare (up_pwdHash a) p = true
     /\ forall r' ck t, req_Cookie r' TokenCookieName = Some ck -> ck_Value ck = hc_Value c ->
        UserPass_CheckToken t a r' =
          if t <? NewNumericDate (now + ttl) then Ok tt else Err ErrParseToken)
  /\ (u = user -> p = pass -> is_Ok (NewToken now a) = true -> exists c, SetCookie c ∈ out).
Proof.
  unfold NewUserPassAuth. destruct (bcrypt_Generate pass) as [h|] eqn:Eh; [|done]. intros [= <-] Hd.
  unfold UserPass_PostAuthCallbackHandler. rewrite Hd. unfold validatePassword. simpl. split.
  - intros c. case_bool_decide as Hu; simpl; [|set_solver]. destruct (bcrypt_Compare h p) eqn:Ec; simpl; [|set_solver].
    unfold NewToken. simpl. destruct (sign_user _ _) as [tok|] eqn:Es; [|set_solver].
    intros [[= ->]|H%list_elem_of_singleton]%elem_of_cons; [|done].
    split; [done|]. split; [done|]. simpl. intros r' ck t Hck Hv. unfold UserPass_CheckToken.
    rewrite Hck, Hv. unfold ParseWithClaims. rewrite (sign_user_HMAC _ _ _ Es).
    simpl. rewrite (parse_sign_user _ _ _ (NewNumericDate (now + ttl)) t Es) by done.
    destruct (t <? _) eqn:El; [|done]. simpl. rewrite bool_decide_eq_true_2 by done. simpl.
    apply Z.ltb_lt in El. case_if; [lia|done].
  - intros -> ->. rewrite bool_decide_eq_true_2 by done. simpl. rewrite (bcrypt_matches _ _ Eh). simpl.
    destruct (NewToken _ _) as [tok| |]; [|done..]. intros _. eexists. apply elem_of_cons. by left.
Qed.

Lemma Split_dot s1 s2 : "."%char ∉ s1 -> exists p l, Split (s1 ++ "."%char :: s2) "." = s1 :: p :: l /\ Split s2 "." = p :: l.
Proof.
  intros H. rewrite Split_app by done. destruct (Split s2 ".") as [|p l] eqn:E; [by apply Split_nonempty in E|eauto].
Qed.

(** the domain of the cookies: for a host name that is no address and has
    none of the special suffixes, it is everything from the first dot on, also
    for a host directly below a top-level domain. *)
Theorem cookieDomain_parent r sub parent :
  requestHost r = sub ++ "."%char :: parent -> "."%char ∉ sub ->
  existsb (HasSuffix (requestHost r)) [B ".internal"; B ".localhost"; B ".local"] = false ->
  host_is_ip (requestHost r) = false ->
  cookieDomain r = "."%char :: parent.
Proof.
  intros Eh Hd Hs Hip. unfold cookieDomain. cbn [existsb] in Hs.
  destruct (HasSuffix _ (B ".internal")); [done|]. destruct (HasSuffix _ (B ".localhost")); [done|].
  destruct (HasSuffix _ (B ".local")); [done|]. rewrite Hip. rewrite Eh, SplitRune_Split.
  destruct (Split_dot sub parent Hd) as (q & l & -> & E). rewrite JoinRune_Join, Join_cons by done.
  rewrite <- E, Join_Split. done.
Qed.

End Laws.

(** ** Totality *)

Lemma length_b64url s : (length s <= length (b64url s))%nat.
Proof.
  assert (H : forall n s, (length s <= n)%nat -> (length s <= length (b64url s))%nat); [|by eapply H].
  induction n as [|n IH]; intros l Hl; [destruct l; simpl in *; lia|].
  destruct l as [|x [|y [|z l]]]; simpl in *; try lia. pose proof (IH l). lia.
Qed.

Lemma generateState_Ok rand : (32 <= length rand)%nat -> exists s, generateState rand = Ok s /\ length s = 32%nat.
Proof.
  intros H. unfold generateState, slice_to, oidcStateLength.
  pose proof (length_b64url (take 32 rand)) as Hl. rewrite length_take in Hl.
  destruct (32 <=? _)%nat eqn:E; [|apply Nat.leb_gt in E; lia].
  eexists. split; [done|]. rewrite length_take. apply Nat.leb_le in E. lia.
Qed.

(** a login always answers: with a well-formed store it never panics. *)
Theorem LoginHandler_total e a next r st :
  store_ok st -> (32 <= length (ae_rand e))%nat ->
  exists out, (LoginHandler e a next r st).1 = Ok out /\ out <> [].
Proof.
  intros Hs Hr. unfold LoginHandler. destruct (req_Cookie _ _) as [c|].
  - unfold TryRefreshToken. pose proof (refresh_begin_spec (ae_now e) a (ck_Value c) st) as H.
    assert (Hno : forall p, (refresh_begin (ae_now e) a (ck_Value c) st).1 <> Panic p).
    { intros p. unfold refresh_begin. repeat case_match; done. }
    destruct (refresh_begin _ _ _ _) as [[[id cl]|err|p] st']; [|eauto|by destruct (Hno p)].
    destruct H as (H1 & H2 & H3). destruct (H3 id cl eq_refl) as (t & E & U). rewrite <- H2 in E.
    pose proof (doRefreshToken_spec e a id cl st' t (H1 Hs) E U) as H.
    destruct (doRefreshToken _ _ _ _ _) as [[res|err|p] st'']; [eauto|eauto|].
    destruct H as (_ & _ & t' & _ & _ & D & Hout). exfalso. revert Hout. unfold outcome_of.
    destruct D as [D|D]; repeat case_match; congruence.
  - destruct (ae_allow e); simpl; [|eauto]. destruct (generateState_Ok _ Hr) as (s & -> & _). simpl. eauto.
Qed.

End Auth.

(** ** A concrete library, for witnesses *)

Module AuthDemo.

(** A token is the list of the bits of the encoded claims. *)
Fixpoint pos_bits (p : positive) : bytes :=
  match p with
  | xH => []
  | xO p => "0"%char :: pos_bits p
  | xI p => "1"%char :: pos_bits p
  end.

Fixpoint bits_pos (s : bytes) : positive :=
  match s with
  | [] => xH
  | c :: s => if Ascii.eqb c "0" then xO (bits_pos s) else xI (bits_pos s)
  end.

Lemma bits_pos_bits p : bits_pos (pos_bits p) = p.
Proof. induction p as [p IH|p IH|]; simpl; by rewrite ?IH. Qed.

Definition encode_token {A} `{Countable A} (x : A) : bytes := pos_bits (encode x).

Definition decode_token {A} `{Countable A} (s : bytes) : option A := decode (bits_pos s).

Lemma decode_encode_token {A} `{Countable A} (x : A) : decode_token (encode_token x) = Some x.
Proof. unfold decode_token, encode_token. rewrite bits_pos_bits. apply decode_encode. Qed.

Definition before_expiry (now : Z) (e : option Z) : bool :=
  match e with Some e => now <? e | None => true end.

(** Headers hold one cookie per value, "name=value". *)
#[local] Instance demo_http : HTTPLib := {
  url_Query q := match Cut q "=" with (k, v, true) => {[ k := [v] ]} | _ => ∅ end;
  url_Encode _ := B "q";
  url_String u := u_Path u ++ (match u_RawQuery u with [] => [] | q => "?"%char :: q end);
  url_EscapedPath := u_Path;
  url_RequestURI := u_Path;
  url_Hostname := u_Host;
  url_Port _ := [];
  req_Cookies h := map (fun v => let '(k, x, _) := Cut v "=" in {| ck_Name := k; ck_Value := x |}) (values_at h "Cookie");
  cookie_String c := ck_Name c ++ "="%char :: ck_Value c;
  req_BasicAuth _ := None;
  parse_multipart_form r := (r_forms r, r_Body r);
  parse_form r := (r_forms r, r_Body r, true)
}.

#[local] Instance demo_mw : MwLib := {
  EqualFold_unicode _ _ := false;
  range_query := map_to_list;
  HeaderXRealIP := B "X-Real-IP";
  HeaderXForwardedFor := B "X-Forwarded-For"
}.

#[local] Instance demo_auth : AuthLib := {
  SplitRune := Split;
  JoinRune := Join;
  Sum256 s := s;
  StatusText _ := B "Forbidden";
  error_Error _ := B "not allowed";
  url_Parse s := Some {| u_Scheme := []; u_Host := []; u_Path := s; u_RawPath := []; u_RawQuery := []; u_Fragment := [] |};
  NewNumericDate t := t / Second * Second;
  jwt_is_HMAC _ := Some true;
  sign_user k c := Some (encode_token (k, uc_Username c, uc_ExpiresAt c));
  parse_user k now t :=
    '(k', u, e) ← (decode_token t : option (bytes * bytes * option Z));
    if bool_decide (k' = k) && before_expiry now e
    then Some ({| uc_Username := u; uc_ExpiresAt := e |}, true) else None;
  sign_session k c :=
    let s := sc_Session c in
    Some (encode_token (k, se_SessionID s, se_Username s, se_Groups s, sc_Issuer c, sc_ExpiresAt c));
  parse_session k now t :=
    '(k', sid, u, g, iss, e) ← (decode_token t : option (bytes * bytes * bytes * list bytes * bytes * option Z));
    if bool_decide (k' = k) && before_expiry now e
    then Some ({| sc_Session := {| se_SessionID := sid; se_Username := u; se_Groups := g |};
                  sc_Issuer := iss; sc_ExpiresAt := e |}, true) else None;
  bcrypt_Generate p := Some ("h"%char :: p);
  bcrypt_Compare h p := bool_decide (h = "h"%char :: p);
  decode_creds s := match Cut s ":" with (u, p, true) => Some (u, p) | _ => None end;
  oidc_Verify client now t :=
    match Split t "|" with
    | [c; u; g] => if bool_decide (c = client)
                   then Some {| id_Expiry := now + Hour; id_Claims := Some {| ic_Username := u; ic_Groups := [g] |} |}
                   else None
    | _ => None
    end;
  AuthCodeURL _ state _ := B "https://idp/?state=" ++ state
}.

#[local] Instance demo_laws : AuthLibLaws.
Proof.
  split; try done.
  - intros k [u e0] t e now [= <-] He. cbn [parse_user demo_auth]. rewrite decode_encode_token. simpl in *.
    subst. rewrite bool_decide_eq_true_2 by done. simpl. by destruct (now <? e).
  - intros k [[sid u g] iss e0] t e now [= <-] He. cbn [parse_session demo_auth]. rewrite decode_encode_token. simpl in *.
    subst. rewrite bool_decide_eq_true_2 by done. simpl. by destruct (now <? e).
  - intros p h [= <-]. apply bool_decide_eq_true_2. done.
Qed.

Definition cfg : auth_config :=
  {| APIJWTSecret := Some (B "secret"); APIJWTTokenTTL := Hour; APIJWTSecure := true; DebugDisableAuth := false;
     OIDCIssuerURL := B "https://idp"; IsTest := false |}.

Definition request (path : bytes) (query : bytes) (cookies : list bytes) (body : bytes) : Request :=
  {| r_Method := B "GET";
     r_URL := {| u_Scheme := []; u_Host := []; u_Path := path; u_RawPath := []; u_RawQuery := query; u_Fragment := [] |};
     r_Host := B "app.example.com"; r_Header := {[ B "Cookie" := cookies ]}; r_RemoteAddr := B "203.0.113.9:4000";
     r_RequestURI := path; r_ContentLength := 0; r_TLS := true; r_Body := Some body;
     r_forms := {| f_Form := None; f_PostForm := None; f_Multipart := false |}; r_route := None |}.

Definition provider : OIDCProvider :=
  {| op_oauthConfig := {| oc_ClientID := []; oc_ClientSecret := B "s"; oc_Endpoint := B "e"; oc_Scopes := [] |};
     op_verifier := []; op_endSessionURL := None; op_allowedUsers := []; op_allowedGroups := [B "staff"];
     op_unknown_login := true |}.

Definition rand32 : bytes := replicate 32 "a"%char.

Definition answers (jwt : bytes) (now : Z) : auth_env :=
  {| ae_now := now; ae_rand := rand32; ae_allow := true;
     ae_token := Some {| ot_id_token := Some jwt; ot_RefreshToken := B "refresh2" |} |}.

Definition empty_store : auth_store := {| as_tokens := ∅; as_objs := ∅; as_timers := []; as_calls := [] |}.

(** The store with ann's session s1 of the group staff. *)
Definition ann_store : auth_store := storeOAuthRefreshToken 0 (B "s1") (B "ann") (B "refresh1") empty_store.

Definition ann_session : Session := {| se_SessionID := B "s1"; se_Username := B "ann"; se_Groups := [B "staff"] |}.

Definition ann_jwt : bytes :=
  encode_token (B "secret", B "s1", B "ann", [B "staff"], B "GoDoxy", Some (2 * Hour)).

Definition machine0 : machine := {| m_store := ann_store; m_pending := []; m_outcomes := [] |}.

Lemma machine0_loaded : loaded machine0.
Proof.
  split; [done|]. split; [done|]. split; [done|]. split.
  - intros id t H. simpl in H. apply lookup_singleton_Some in H as [_ <-]. intros [H|H]; done.
  - intros sid id H. simpl in *. apply lookup_singleton_Some in H as [_ <-].
    rewrite lookup_insert_eq. done.
Qed.

(** Two requests of the same session refresh at the same time. *)
Definition two_refreshes : list auth_event :=
  [Arrives provider 1 ann_jwt; Arrives provider 2 ann_jwt;
   Refreshes 0 (answers (B "|ann|staff") 3); Refreshes 0 (answers (B "|eve|staff") 4); TimerFires 0].

Definition summary (m : machine) : list (nat * bytes) * list (bytes * bytes) :=
  (as_calls (m_store m),
   map (fun o => match o.2 with Ok res => (rr_jwt res, se_Username (rr_newSession res)) | _ => ([], []) end)
     (m_outcomes m)).

Lemma refresh_token_once_witness :
  summary (auth_run cfg two_refreshes machine0) = ([(0%nat, B "refresh1")], [(B "|ann|staff", B "ann"); (B "|ann|staff", B "ann")])
  /\ NoDup (as_calls (m_store (auth_run cfg two_refreshes machine0))).*1.
Proof.
  split; [vm_compute; reflexivity|]. apply (refresh_token_once cfg two_refreshes machine0 machine0_loaded).
Defined.

(** An identity provider that does not rotate: the second session of the same
    user refreshes with the refresh token the first one was given. *)
Definition same_token (now : Z) : auth_env :=
  {| ae_now := now; ae_rand := rand32; ae_allow := true;
     ae_token := Some {| ot_id_token := Some (B "|ann|staff"); ot_RefreshToken := B "refresh1" |} |}.

Definition next_jwt : bytes :=
  encode_token (B "secret", newSessionID rand32, B "ann", [B "staff"], B "GoDoxy", Some (2 * Hour)).

Example not_rotated :
  as_calls (m_store (auth_run cfg
    [Arrives provider 1 ann_jwt; Refreshes 0 (same_token 3); Arrives provider 5 next_jwt; Refreshes 0 (same_token 6)]
    machine0))
  = [(0%nat, B "refresh1"); (1%nat, B "refresh1")].
Proof. vm_compute. reflexivity. Qed.

Definition staff_request : Request := request (B "/app") [] [B "godoxy_oauth_token=|bob|staff"] [].

Lemma oidc_middleware_gate_witness :
  let_through (oidc_check cfg (answers [] 0) (Some provider) false staff_request empty_store).1 = true.
Proof.
  apply oidc_middleware_gate. left. apply CheckToken_spec. vm_compute. reflexivity.
Defined.

Definition callback_request : Request := request (B "/auth/callback") (B "state=x") [B "godoxy_oidc_state=x"] [].

Definition callback_cookie : http_Cookie :=
  {| hc_Name := B "godoxy_oauth_token"; hc_Value := B "|bob|staff"; hc_MaxAge := 3600; hc_Domain := B ".example.com";
     hc_HttpOnly := true; hc_Secure := true; hc_SameSiteLax := true; hc_Path := B "/" |}.

Lemma callback_checks_state_witness :
  let '(out, st') := PostAuthCallbackHandler cfg (answers (B "|bob|staff") 0) provider callback_request empty_store in
  SetCookie callback_cookie ∈ out
  /\ exists state tok jwt t,
    req_Cookie callback_request (getAppScopedCookieName provider CookieOauthState) = Some state
    /\ hget (url_Query (u_RawQuery (r_URL callback_request))) "state" = ck_Value state
    /\ ae_token (answers (B "|bob|staff") 0) = Some tok /\ ot_id_token tok = Some jwt
    /\ oidc_Verify (op_verifier provider) 0 jwt = Some t.
Proof.
  pose proof (callback_checks_state cfg (answers (B "|bob|staff") 0) provider callback_request empty_store
                callback_cookie eq_refl) as H.
  assert (Hin : SetCookie callback_cookie
                ∈ (PostAuthCallbackHandler cfg (answers (B "|bob|staff") 0) provider callback_request empty_store).1).
  { apply (bool_decide_eq_true_1 (_ ∈ _)). vm_compute. reflexivity. }
  destruct (PostAuthCallbackHandler _ _ _ _ _) as [out st']. split; [exact Hin|]. apply H. left. exact Hin.
Defined.

Definition admin : UserPassAuth :=
  {| up_username := B "admin"; up_pwdHash := B "hpw"; up_secret := B "secret"; up_tokenTTL := Hour |}.

Definition login_request : Request := request (B "/api/v1/auth/callback") [] [] (B "admin:pw").

Definition login_cookie : http_Cookie :=
  {| hc_Name := B "godoxy_token"; hc_Value := encode_token (B "secret", B "admin", Some Hour); hc_MaxAge := 3600;
     hc_Domain := B ".example.com"; hc_HttpOnly := true; hc_Secure := true; hc_SameSiteLax := true; hc_Path := B "/" |}.

Definition admin_request : Request :=
  request (B "/") [] [B "godoxy_token=" ++ encode_token (B "secret", B "admin", Some Hour)] [].

Lemma login_session_witness :
  UserPass_PostAuthCallbackHandler cfg 5 admin login_request = [SetCookie login_cookie; WriteHeader 200]
  /\ UserPass_CheckToken (Hour - 1) admin admin_request = Ok tt
  /\ UserPass_CheckToken Hour admin admin_request = Err ErrParseToken.
Proof.
  assert (Hout : UserPass_PostAuthCallbackHandler cfg 5 admin login_request = [SetCookie login_cookie; WriteHeader 200])
    by (vm_compute; reflexivity).
  assert (Hnew : NewUserPassAuth (B "admin") (B "pw") (B "secret") Hour = Ok admin) by (vm_compute; reflexivity).
  destruct (login_session cfg (B "admin") (B "pw") (B "secret") Hour admin 5 login_request (B "admin") (B "pw")
              Hnew eq_refl) as [H _].
  destruct (H login_cookie) as (_ & _ & Hc); [rewrite Hout; apply elem_of_cons; left; reflexivity|].
  split; [exact Hout|].
  split; (rewrite (Hc admin_request {| ck_Name := B "godoxy_token"; ck_Value := hc_Value login_cookie |});
          [vm_compute; reflexivity|vm_compute; reflexivity|reflexivity]).
Defined.

(** The comment of [cookieDomain] promises "" for example.com. *)
Definition bare_domain_request : Request :=
  {| r_Method := B "GET"; r_URL := r_URL staff_request; r_Host := B "example.com"; r_Header := ∅;
     r_RemoteAddr := B "203.0.113.9:4000"; r_RequestURI := B "/"; r_ContentLength := 0; r_TLS := true; r_Body := None;
     r_forms := r_forms staff_request; r_route := None |}.

Lemma cookieDomain_parent_witness : cookieDomain bare_domain_request = B ".com".
Proof.
  apply (cookieDomain_parent bare_domain_request (B "example") (B "com")).
  - reflexivity.
  - apply (bool_decide_eq_true_1 (_ ∉ _)). vm_compute. reflexivity.
  - vm_compute. reflexivity.
  - vm_compute. reflexivity.
Defined.

Lemma LoginHandler_total_witness :
  exists out, (LoginHandler cfg (answers [] 0) provider false staff_request ann_store).1 = Ok out /\ out <> [].
Proof.
  assert (Hr : (32 <= length (ae_rand (answers [] 0)))%nat) by (vm_compute; lia).
  exact (LoginHandler_total cfg (answers [] 0) provider false staff_request ann_store
           (mo_store _ (loaded_ok _ machine0_loaded)) Hr).
Defined.

(** The new ID token of a refresh is not checked: ann left the group staff at
    the identity provider, her new token is refused, and yet the check that
    refreshes her session answers 200. *)
Definition ann_request : Request :=
  request (B "/") [] [B "godoxy_oauth_token=|ann|former"; B "godoxy_session_token=" ++ ann_jwt] [].

Example refresh_ignores_new_groups :
  CheckToken 3 provider ann_request = Err ErrUserNotAllowed
  /\ match (AuthCheckHandler cfg (answers (B "|ann|former") 3) (Some (OIDC provider)) false ann_request ann_store).1 with
     | Ok out => last out = Some (WriteHeader 200)
     | _ => False
     end.
Proof. split; vm_compute; reflexivity. Qed.

(** Anybody gets through to the upstream at the logout path. *)
Example logout_path_open :
  let_through (oidc_check cfg (answers [] 0) (Some provider) false (request (B "/auth/logout") [] [] []) empty_store).1
  = true.
Proof. vm_compute. reflexivity. Qed.

(** A provider without an end session endpoint: the redirect is not "/" but the
    query on an empty URL. *)
Example logout_without_endpoint :
  match NewOIDCProvider (Some {| di_Endpoint := B "e"; di_EndSessionEndpoint := [] |}) [] [] (B "s") [B "bob"] [] with
  | Ok a => logout_url a (req_Cookie staff_request (B "godoxy_oauth_token")) staff_request = B "?q"
            /\ logout_url a None staff_request = []
  | _ => False
  end.
Proof. vm_compute. split; reflexivity. Qed.

(** After the first request failed to reach the identity provider the
    middleware counts as initialised, and the next request panics. *)
Example failed_init_panics :
  let o := {| om_AllowedUsers := []; om_AllowedGroups := []; om_ClientID := []; om_ClientSecret := []; om_Scopes := [] |} in
  let s0 := {| om_auth := None; om_isInitialized := false |} in
  let '(out1, s1, st1) := oidc_before cfg o (Err ErrDiscovery) (answers [] 0) false staff_request s0 empty_store in
  out1 = Ok (false, [HttpError (B "not allowed") 500])
  /\ (oidc_before cfg o (Ok provider) (answers [] 1) false staff_request s1 st1).1.1 = Panic NilDereference.
Proof. vm_compute. split; reflexivity. Qed.

End AuthDemo.
