(* ===== verification/Captcha.v ===== *)
(** * Captcha

    Models internal/net/gphttp/middleware/captcha (middleware.go, session.go,
    provider_base.go, hcaptcha.go): the store of solved captchas and the check
    in front of a request.  What hCaptcha answers and whether the client accepts
    HTML are part of a call. *)

From S2P Require Import Prelude GoStrings NetAddr RulesHTTP MiddlewareVars Auth.

(** ** provider_base.go, session.go *)

(** [SessionExpiry] fills in the default; the field is kept. *)
Definition SessionExpiry (Expiry : Z) : Z := if Expiry =? 0 then 24 * Hour else Expiry.

Record CaptchaSession := { cs_ID : bytes; cs_Expiry : Z }.

Definition newCaptchaSession (now : Z) (rand : bytes) (expiry : Z) : CaptchaSession :=
  {| cs_ID := hex_encode (take 32 rand); cs_Expiry := now + SessionExpiry expiry |}.

Definition session_expired (now : Z) (s : CaptchaSession) : bool := cs_Expiry s <? now.

(** ** hcaptcha.go *)

Record HcaptchaProvider := { hp_Expiry : Z; hp_SiteKey : bytes; hp_Secret : bytes }.

(** What the verification service answers: a transport or decoding error, or
    the field [success]. *)
Inductive verdict := Unreachable | Answer (success : bool).

Inductive captcha_error := MissingResponse | RequestFailed | ErrCaptchaVerificationFailed.

Section Captcha.

Context `{HL : HTTPLib} `{ML : MwLib} `{AL : AuthLib}.
Context (cfg : auth_config).

(** The form sent to the service. *)
Definition verify_form (p : HcaptchaProvider) (response : bytes) (r : Request) : Values :=
  let remoteIP := match SplitHostPort (r_RemoteAddr r) with Some (ip, _) => ip | None => r_RemoteAddr r end in
  hset (hset (hset (hset ∅ "secret" (hp_Secret p)) "response" response) "remoteip" remoteIP)
    "sitekey" (hp_SiteKey p).

(** [Verify]; [service] maps the encoded form to an answer. *)
Definition Verify (p : HcaptchaProvider) (service : bytes -> verdict) (response : bytes) (r : Request)
    : option captcha_error :=
  match response with
  | [] => Some MissingResponse
  | _ =>
      match service (url_Encode (verify_form p response r)) with
      | Unreachable => Some RequestFailed
      | Answer false => Some ErrCaptchaVerificationFailed
      | Answer true => None
      end
  end.

(** ** middleware.go *)

Definition cookieName : bytes := B "godoxy_captcha_session".

Abbreviation sessions := (gmap bytes CaptchaSession).

(** A call: its time, random bytes, [AcceptHTML], the value of the form field
    h-captcha-response and the service. *)
Record captcha_env := {
  ce_now : Z;
  ce_rand : bytes;
  ce_acceptHTML : bool;
  ce_response : bytes;
  ce_service : bytes -> verdict
}.

Inductive captcha_reply := Passed | Replies (l : list reply) | Challenge.

(** The check of the session cookie: a live session, and the store. *)
Definition check_session (now : Z) (r : Request) (st : sessions) : bool * sessions :=
  match req_Cookie r cookieName with
  | None => (false, st)
  | Some c =>
      match st !! ck_Value c with
      | None => (false, st)
      | Some s => if session_expired now s then (false, delete (ck_Value c) st) else (true, st)
      end
  end.

(** The rest of [PreRequest], for a request without a live session. *)
Definition without_session (p : HcaptchaProvider) (e : captcha_env) (r : Request) (st : sessions)
    : captcha_reply * sessions :=
  if negb (ce_acceptHTML e) then (Replies [HttpError "Captcha is required" 403], st)
  else if bool_decide (r_Method r = B "POST") then
    match Verify p (ce_service e) (ce_response e) r with
    | None =>
        let session := newCaptchaSession (ce_now e) (ce_rand e) (hp_Expiry p) in
        (Replies [SetTokenCookie cfg r cookieName (cs_ID session) (SessionExpiry (hp_Expiry p));
                  Redirect (u_Path (r_URL r)) 302],
         <[cs_ID session := session]> st)
    | Some _ => (Replies [HttpError "Failed to verify captcha" 401], st)
    end
  else (Challenge, st).

Definition PreRequest (p : HcaptchaProvider) (e : captcha_env) (r : Request) (st : sessions)
    : captcha_reply * sessions :=
  let '(live, st) := check_session (ce_now e) r st in
  if live then (Passed, st) else without_session p e r st.

Definition captcha_run (p : HcaptchaProvider) (l : list (captcha_env * Request)) (st : sessions) : sessions :=
  fold_left (fun st er => (PreRequest p er.1 er.2 st).2) l st.

(** ** Properties *)

(** A POST whose captcha the service confirmed, and the session it opens. *)
Definition solved (p : HcaptchaProvider) (er : captcha_env * Request) (id : bytes) (expiry : Z) : Prop :=
  let '(e, r) := er in
  r_Method r = B "POST" /\ ce_response e <> []
  /\ ce_service e (url_Encode (verify_form p (ce_response e) r)) = Answer true
  /\ id = hex_encode (take 32 (ce_rand e)) /\ expiry = ce_now e + SessionExpiry (hp_Expiry p).

Definition only_solved (p : HcaptchaProvider) (l : list (captcha_env * Request)) (st : sessions) : Prop :=
  forall id s, st !! id = Some s -> exists er, er ∈ l /\ solved p er id (cs_Expiry s).

Lemma check_session_sub now r st id s :
  (check_session now r st).2 !! id = Some s -> st !! id = Some s.
Proof.
  unfold check_session. repeat case_match; simpl; try done. rewrite lookup_delete_Some. tauto.
Qed.

Lemma Verify_None p service response r :
  Verify p service response r = None ->
  response <> [] /\ service (url_Encode (verify_form p response r)) = Answer true.
Proof. unfold Verify. destruct response; [done|]. destruct (service _) as [|[]]; done. Qed.

Lemma PreRequest_only_solved p l e r st :
  only_solved p l st -> only_solved p (l ++ [(e, r)]) (PreRequest p e r st).2.
Proof.
  intros H id s. unfold PreRequest. pose proof (check_session_sub (ce_now e) r st) as Hc.
  destruct (check_session _ _ _) as [live st'].
  assert (Hold : st' !! id = Some s -> exists er, er ∈ l ++ [(e, r)] /\ solved p er id (cs_Expiry s)).
  { intros Hs. destruct (H id s (Hc _ _ Hs)) as (er & Hin & Hsol). exists er. split; [set_solver|done]. }
  destruct live; [exact Hold|]. unfold without_session. destruct (ce_acceptHTML e); [|exact Hold]. simpl.
  case_bool_decide as Hm; [|exact Hold]. destruct (Verify _ _ _ _) eqn:Ev; [exact Hold|].
  cbn [snd]. rewrite lookup_insert_Some. intros [[<- <-]|[_ Hs]]; [|by apply Hold].
  exists (e, r). split; [set_solver|]. apply Verify_None in Ev as [? ?]. done.
Qed.

Lemma captcha_run_only_solved p l : forall l0 st,
  only_solved p l0 st -> only_solved p (l0 ++ l) (captcha_run p l st).
Proof.
  induction l as [|[e r] l IH]; intros l0 st H; [by rewrite app_nil_r|].
  replace (l0 ++ (e, r) :: l) with ((l0 ++ [(e, r)]) ++ l) by (by rewrite <- app_assoc).
  apply IH, PreRequest_only_solved, H.
Qed.

Lemma without_session_refuses p e r st : (without_session p e r st).1 <> Passed.
Proof.
  unfold without_session. destruct (ce_acceptHTML e); [|done]. simpl.
  case_bool_decide; [|done]. by destruct (Verify _ _ _ _).
Qed.

Lemma PreRequest_Passed p e r st :
  (PreRequest p e r st).1 = Passed <->
  exists c s, req_Cookie r cookieName = Some c /\ st !! ck_Value c = Some s /\ ce_now e <= cs_Expiry s.
Proof.
  pose proof (without_session_refuses p e r) as Hno. unfold PreRequest, check_session.
  destruct (req_Cookie r cookieName) as [c|]; [|naive_solver].
  destruct (st !! ck_Value c) as [s|] eqn:Es; [|naive_solver]. unfold session_expired.
  destruct (cs_Expiry s <? ce_now e) eqn:Ex; simpl.
  - split; [intros H; by apply Hno in H|]. intros (c' & s' & [= <-] & Hs & ?). simplify_eq. lia.
  - split; [|done]. intros _. exists c, s. repeat split; [done|]. lia.
Qed.

(** after any requests, a request gets through exactly when its cookie names
    a session of the store that has not expired, and every session of the store
    was opened by one of those requests, a POST whose captcha the service
    confirmed, with the session expiry counted from it. *)
Theorem captcha_gate p l e r :
  let st := captcha_run p l ∅ in
  ((PreRequest p e r st).1 = Passed <->
     exists c s, req_Cookie r cookieName = Some c /\ st !! ck_Value c = Some s /\ ce_now e <= cs_Expiry s)
  /\ forall id s, st !! id = Some s -> exists er, er ∈ l /\ solved p er id (cs_Expiry s).
Proof.
  intros st. split; [apply PreRequest_Passed|]. by apply (captcha_run_only_solved p l []).
Qed.

End Captcha.
