(* ===== verification/Serialization.v ===== *)
(** * Deserialization of configuration values

    Models internal/serialization (serialization.go, validation.go) and
    internal/utils/nearest_field.go: how a tree of YAML, JSON or label values is
    converted into a Go value of any type, by reflection.

    A type is a [gtype], a value of it a [gval], and a destination a pair of a
    type and its present value, returned changed.  Sources are the values the
    decoders produce.  Errors are collected as the code does, each with the path
    of its subjects; a panic of the reflect package is the outcome [Panic].
    Recursion carries fuel ([Err tt] when it runs out): [need] says how much a
    type needs.  Functions of goutils, gointernals, go-yaml and validator and
    the methods that types declare are the fields of [SerLib]. *)

From S2P Require Import Prelude GoStrings.

(** ** Types and values *)

Inductive numkind := KInt (signed : bool) (bits : Z) | KFloat.

#[export] Instance numkind_eq_dec : EqDecision numkind.
Proof. solve_decision. Defined.

(** What a [reflect.StructField] says besides its type. *)
Record field := {
  fd_Name : bytes;
  fd_json : bytes;                 (* Tag.Get: "" when absent *)
  fd_deserialize : bytes;
  fd_aliases : bytes;
  fd_validate : bool;              (* Tag.Lookup("validate") *)
  fd_exported : bool;
  fd_anonymous : bool
}.

(** [TIface]: an interface type with methods. *)
Inductive gtype :=
  | TString
  | TBool
  | TNum (k : numkind)
  | TAny
  | TIface (name : bytes)
  | TPtr (t : gtype)
  | TSlice (t : gtype)
  | TMap (key elem : gtype)
  | TStruct (fs : list (field * gtype))
  | TNamed (name : bytes) (u : gtype).

(** Decoded sources: an [any]. Floats are opaque. *)
Inductive sval :=
  | SNil
  | SBool (b : bool)
  | SStr (s : bytes)
  | SInt (k : numkind) (z : Z)
  | SFloat (f : Z)
  | SList (l : list sval)
  | SMap (m : list (bytes * sval)).

Inductive gval :=
  | VNil                              (* a nil pointer, slice, map or interface *)
  | VStr (s : bytes)
  | VBool (b : bool)
  | VInt (z : Z)
  | VFloat (f : Z)
  | VAny (s : sval)                   (* an interface that holds a decoded value *)
  | VDyn (type : bytes)               (* an interface with methods that holds a value *)
  | VPtr (v : gval)
  | VSlice (l : list gval)
  | VMap (m : list (bytes * gval))
  | VStruct (vs : list gval).

(** [Type.Kind], by the underlying type. *)
Fixpoint underlying (t : gtype) : gtype :=
  match t with TNamed _ u => underlying u | _ => t end.

Fixpoint zero (t : gtype) : gval :=
  match t with
  | TString => VStr []
  | TBool => VBool false
  | TNum (KInt _ _) => VInt 0
  | TNum KFloat => VFloat 0
  | TAny | TIface _ | TPtr _ | TSlice _ | TMap _ _ => VNil
  | TStruct fs => VStruct ((fix go (fs : list (field * gtype)) : list gval :=
                              match fs with [] => [] | ft :: fs => zero ft.2 :: go fs end) fs)
  | TNamed _ u => zero u
  end.

Definition Duration : gtype := TNamed (B "time.Duration") (TNum (KInt true 64)).

Definition is_Duration (t : gtype) : bool :=
  match t with TNamed n _ => bool_decide (n = B "time.Duration") | _ => false end.

(** ** Errors *)

Inductive subject := Key (k : bytes) | Idx (i : nat) | Sub (s : bytes).

Inductive ser_kind :=
  | ErrNilValue
  | ErrUnsettable
  | ErrUnsupportedConversion
  | ErrUnknownField (suggestion : bytes)
  | ErrValidationError (detail : bytes)
  | ErrWrapped (text : bytes).

Record serr := { se_path : list subject; se_kind : ser_kind }.

Definition err (k : ser_kind) : list serr := [{| se_path := []; se_kind := k |}].

(** [Subject] of an error that may hold several. *)
Definition with_subject (s : subject) (es : list serr) : list serr :=
  map (fun e => {| se_path := s :: se_path e; se_kind := se_kind e |}) es.

(** ** Libraries and methods *)

Record field_error := { fe_ActualTag : bytes; fe_Param : bytes; fe_Namespace : bytes }.

Class SerLib := {
  (* gointernals *)
  ReflectIsNumeric : gtype -> bool;
  ReflectToStr : sval -> bytes;
  ReflectStrToNumBool : gtype -> bytes -> option gval;
  ReflectStrMapAssign : gtype -> option gval -> gval;       (* element type, present element *)
  (* goutils *)
  CommaSeperatedList : bytes -> list bytes;
  LevenshteinDistance : bytes -> bytes -> Z;
  LookupEnv : bytes -> option bytes;
  (* standard library, go-yaml *)
  Quote : bytes -> bytes;
  ParseDuration : bytes -> option Z;
  float_IsZero : Z -> bool;
  float_of_int : Z -> Z;
  int_of_float : numkind -> Z -> Z;
  yaml_list : bytes -> option (list sval);
  yaml_map : bytes -> option (list (bytes * sval));
  (* validator and methods, by type *)
  validate_Struct : gtype -> gval -> list field_error;
  method_UnmarshalMap : gtype -> option (list (bytes * sval) -> gval -> gval * list serr);
  method_Parse : gtype -> option (bytes -> gval -> gval * option bytes);
  method_Validate : gtype -> option (bool * (gval -> list serr));   (* pointer receiver *)
  defaultValues : gtype -> option gval
}.

(** Two's complement of a width, or none. *)
Definition wrap_kind (k : numkind) (z : Z) : Z :=
  match k with
  | KInt true b => (z + 2 ^ (b - 1)) mod 2 ^ b - 2 ^ (b - 1)
  | KInt false b => z mod 2 ^ b
  | KFloat => z
  end.

(** ** nearest_field.go *)

Section NearestField.

Context `{SerLib}.

(** The loop over the names. *)
Definition NearestField (input : bytes) (fields : list bytes) : bytes :=
  snd (fold_left (fun '(minDistance, nearestField) field =>
    let distance := LevenshteinDistance input field in
    if (minDistance =? -1) || (distance <? minDistance) then (distance, field) else (minDistance, nearestField))
    fields (-1, [])).

End NearestField.

(** ** Field names *)

Definition offset32 : Z := 2166136261.
Definition prime32 : Z := 16777619.

Definition fnv_step (hash : Z) (r : ascii) : Z :=
  if Ascii.eqb r "_" then hash
  else
    let r := if is_upper r then byteZ r + 32 else byteZ r in
    Z.lxor (hash * prime32 mod 2 ^ 32) r.

Definition fnv1IgnoreCaseSnake (s : bytes) : Z := fold_left fnv_step s offset32.

Record typeInfo := {
  keyFieldIndexes : gmap Z (list nat);
  fieldNames : list bytes;
  hasValidateTag : bool
}.

Definition add_name (k : bytes) (l : list bytes) : list bytes := if bool_decide (k ∈ l) then l else l ++ [k].

(** The name in the JSON tag, or the field's own. *)
Definition field_key (f : field) : bytes :=
  let jsonTag := (Cut (fd_json f) ",").1.1 in
  match jsonTag with [] => fd_Name f | _ => jsonTag end.

(** A key or an alias of field [i]. *)
Definition add_key (i : nat) (k : bytes) (info : typeInfo) : typeInfo :=
  {| keyFieldIndexes := <[fnv1IgnoreCaseSnake k := [i]]> (keyFieldIndexes info);
     fieldNames := add_name k (fieldNames info); hasValidateTag := hasValidateTag info |}.

(** A field that is not an embedded struct. *)
Definition plain_field (i : nat) (f : field) (info : typeInfo) : typeInfo :=
  let info := add_key i (field_key f) info in
  let info := {| keyFieldIndexes := keyFieldIndexes info; fieldNames := fieldNames info;
                 hasValidateTag := hasValidateTag info || fd_validate f |} in
  match fd_aliases f with
  | [] => info
  | aliases => fold_left (fun info a => add_key i a info) (Split aliases ",") info
  end.

(** An embedded struct contributes its own names. *)
Definition embed_info (i : nat) (sub info : typeInfo) : typeInfo :=
  {| keyFieldIndexes := (cons i <$> keyFieldIndexes sub) ∪ keyFieldIndexes info;
     fieldNames := fold_left (fun l k => add_name k l) (fieldNames sub) (fieldNames info);
     hasValidateTag := hasValidateTag info || hasValidateTag sub |}.

Definition ignored (f : field) : bool :=
  bool_decide (fd_deserialize f = B "-") || bool_decide ((Cut (fd_json f) ",").1.1 = B "-") || negb (fd_exported f).

Definition is_bool (t : gtype) : bool := match underlying t with TBool => true | _ => false end.
Definition is_string (t : gtype) : bool := match underlying t with TString => true | _ => false end.
Definition is_struct (t : gtype) : bool := match underlying t with TStruct _ => true | _ => false end.

Definition empty_info : typeInfo := {| keyFieldIndexes := ∅; fieldNames := []; hasValidateTag := false |}.

(** [initTypeKeyFieldIndexesMap]; the cache of [getTypeInfo] only saves time. *)
Fixpoint initTypeKeyFieldIndexesMap (t : gtype) : typeInfo :=
  match t with
  | TNamed _ u => initTypeKeyFieldIndexesMap u
  | TStruct fs =>
      (fix go (i : nat) (fs : list (field * gtype)) (info : typeInfo) : typeInfo :=
         match fs with
         | [] => info
         | (f, ft) :: fs =>
             go (S i) fs
               (if ignored f then info
                else if fd_anonymous f then
                  match ft with
                  | TPtr t' => if is_struct t' then embed_info i (initTypeKeyFieldIndexesMap t') info
                               else plain_field i f info
                  | _ => if is_struct ft then embed_info i (initTypeKeyFieldIndexesMap ft) info
                         else plain_field i f info
                  end
                else plain_field i f info)
         end) 0%nat fs empty_info
  | _ => empty_info
  end.

Definition getField (info : typeInfo) (k : bytes) : option (list nat) :=
  keyFieldIndexes info !! fnv1IgnoreCaseSnake k.

Section Convert.

Context `{SL : SerLib}.

(** [initPtr] of a pointer to [t]: a default value, or zero. *)
Definition initPtr (t : gtype) : gval := VPtr (default (zero t) (defaultValues t)).

(** ** validation.go *)

(** [ValidateWithFieldTags]. *)
Definition ValidateWithFieldTags (t : gtype) (v : gval) : list serr :=
  flat_map (fun e =>
    let detail := fe_ActualTag e ++ match fe_Param e with [] => [] | p => ":"%char :: p end in
    let detail := if bool_decide (detail = B "required") then detail else B "require " ++ Quote detail in
    with_subject (Sub (fe_Namespace e)) (err (ErrValidationError detail))) (validate_Struct t v).

(** [Validate] through a pointer to [t] (its method set has both receivers) and
    on a value of [t]. *)
Definition validate_ptr (t : gtype) (v : gval) : option (list serr) :=
  (fun m => snd m v) <$> method_Validate t.

Definition validate_val (t : gtype) (v : gval) : option (list serr) :=
  match method_Validate t with Some (false, f) => Some (f v) | _ => None end.

(** [ValidateWithCustomValidator]. *)
Definition ValidateWithCustomValidator (t : gtype) (v : gval) (canAddr : bool) : list serr :=
  match underlying t with
  | TPtr t' =>
      match v with
      | VPtr x => match validate_ptr t' x with Some es => es | None => default [] (validate_val t' x) end
      | _ => default [] (validate_ptr t' (zero t'))
      end
  | _ =>
      match t with
      | TNamed _ _ =>
          match (if canAddr then validate_ptr t v else None) with
          | Some es => es
          | None => default [] (validate_val t v)
          end
      | _ => []
      end
  end.

(** ** Destinations *)

(** [dive]: through pointers; [None] at a nil pointer.  The flag says that the
    place can be set. *)
Fixpoint dive (t : gtype) (v : gval) (set : bool) : option (gtype * gval * bool) :=
  match t with
  | TPtr t' => match v with VPtr x => dive t' x true | _ => None end
  | _ => Some (t, v, set)
  end.

(** A new value at the place [dive] found. *)
Fixpoint undive (t : gtype) (x : gval) : gval :=
  match t with TPtr t' => VPtr (undive t' x) | _ => x end.

Abbreviation outcome := (result unit (gval * list serr)).

(** Changes the field at an index path ([fieldByIndexWithLazyPtrInitialization]). *)
Fixpoint at_path (path : list nat) (t : gtype) (v : gval) (set : bool)
    (f : gtype -> gval -> bool -> outcome) : outcome :=
  match path with
  | [] => f t v set
  | i :: path' =>
      match underlying t, v with
      | TStruct fs, VStruct vs =>
          match fs !! i, vs !! i with
          | Some (_, ft), Some fv =>
              '(fv', es) ←
                (match path', ft with
                 | _ :: _, TPtr st =>
                     if is_struct st then
                       match (match fv with VPtr x => VPtr x | _ => initPtr st end) with
                       | VPtr x => '(x', es) ← at_path path' st x true f; Ok (VPtr x', es)
                       | _ => Panic NilDereference
                       end
                     else Panic ExplicitPanic
                 | _, _ => at_path path' ft fv set f
                 end : outcome);
              Ok (VStruct (<[i := fv']> vs), es)
          | _, _ => Panic IndexOutOfRange
          end
      | _, _ => Panic ExplicitPanic
      end
  end.

(** ** Sources *)

Definition SMap_type : gtype := TMap TString TAny.

(** [IsZero]; an element of a []any is an interface and only zero when nil. *)
Definition src_IsZero (iface : bool) (s : sval) : bool :=
  if iface then match s with SNil => true | _ => false end
  else
    match s with
    | SNil => true
    | SBool b => negb b
    | SStr x => bool_decide (x = [])
    | SInt _ z => z =? 0
    | SFloat f => float_IsZero f
    | SList _ | SMap _ => false
    end.

(** [srcT == dstT || srcT.AssignableTo(dstT)]. *)
Definition assignable (s : sval) (t : gtype) : bool :=
  match underlying t with
  | TAny => true
  | TSlice TAny => match s with SList _ => true | _ => false end
  | TMap TString TAny => match s with SMap _ => true | _ => false end
  | _ =>
      match s, t with
      | SStr _, TString | SBool _, TBool | SFloat _, TNum KFloat => true
      | SInt k _, TNum k' => bool_decide (k = k')
      | _, _ => false
      end
  end.

Definition any_of (s : sval) : gval := match s with SNil => VNil | _ => VAny s end.

(** The value set by [dst.Set(src)]. *)
Definition assigned (s : sval) (t : gtype) : gval :=
  match underlying t with
  | TAny => any_of s
  | _ =>
      match s with
      | SStr x => VStr x
      | SBool b => VBool b
      | SInt _ z => VInt z
      | SFloat f => VFloat f
      | SList l => VSlice (map any_of l)
      | SMap m => VMap (map (fun kx => (kx.1, any_of kx.2)) m)
      | SNil => VNil
      end
  end.

Definition is_src_num (s : sval) : bool := match s with SInt _ _ | SFloat _ => true | _ => false end.

(** [src.Convert(dst.Type())] between numeric kinds. *)
Definition num_convert (s : sval) (t : gtype) : gval :=
  match s, underlying t with
  | SInt _ z, TNum (KInt sg b) => VInt (wrap_kind (KInt sg b) z)
  | SInt _ z, TNum KFloat => VFloat (float_of_int z)
  | SFloat f, TNum (KInt sg b) => VInt (wrap_kind (KInt sg b) (int_of_float (KInt sg b) f))
  | SFloat f, TNum KFloat => VFloat f
  | _, _ => zero t
  end.

Fixpoint map_set (k : bytes) (v : gval) (m : list (bytes * gval)) : list (bytes * gval) :=
  match m with
  | [] => [(k, v)]
  | (k', v') :: m' => if bool_decide (k' = k) then (k, v) :: m' else (k', v') :: map_set k v m'
  end.

Fixpoint map_get (k : bytes) (m : list (bytes * gval)) : option gval :=
  match m with
  | [] => None
  | (k', v) :: m' => if bool_decide (k' = k) then Some v else map_get k m'
  end.

(** [AssignMap]: a nil map becomes an empty one. *)
Definition map_entries (v : gval) : list (bytes * gval) := match v with VMap m => m | _ => [] end.

Definition newline : ascii := "010"%char.

Definition is_one_liner (s : bytes) : bool :=
  negb (bool_decide (newline ∈ s)) && negb (bool_decide (head s = Some "-"%char)).

(** ** The loops, over the conversion of one value *)

(** [srcLen] slots are filled with the elements that convert; a failed one
    leaves its slot to the next, and the rest is cut off. *)
Definition slice_step (conv : sval -> gval -> outcome) (st : list gval * nat * list serr) (jx : nat * sval)
    : result unit (list gval * nat * list serr) :=
  let '(slots, i, es) := st in
  match slots !! i with
  | None => Panic IndexOutOfRange
  | Some slot =>
      '(v, es') ← conv jx.2 slot;
      let slots := <[i := v]> slots in
      match es' with
      | [] => Ok (slots, S i, es)
      | _ => Ok (slots, i, es ++ with_subject (Idx jx.1) es')
      end
  end.

Definition convert_slice (conv : sval -> gval -> outcome) (elem : gtype) (l : list sval) : outcome :=
  '(slots, i, es) ← foldM (slice_step conv) (replicate (length l) (zero elem), 0%nat, []) (imap pair l);
  match es with
  | [] => Ok (VSlice slots, [])
  | _ => Ok (VSlice (take i slots), es)
  end.

(** The fields of a struct; unknown keys are errors. *)
Definition struct_step (conv : sval -> gtype -> gval -> bool -> outcome) (info : typeInfo) (t : gtype) (set : bool)
    (st : gval * list serr) (kx : bytes * sval) : outcome :=
  let '(v, es) := st in
  let '(k, x) := kx in
  match getField info k with
  | Some path => '(v, es') ← at_path path t v set (conv x); Ok (v, es ++ with_subject (Key k) es')
  | None => Ok (v, es ++ with_subject (Key k) (err (ErrUnknownField (NearestField k (fieldNames info)))))
  end.

(** The entries of a map; a failed one stays in the map. *)
Definition map_step (conv : sval -> gval -> outcome) (elem : gtype) (st : list (bytes * gval) * list serr)
    (kx : bytes * sval) : result unit (list (bytes * gval) * list serr) :=
  let '(m, es) := st in
  let '(k, x) := kx in
  '(v, es') ← conv x (ReflectStrMapAssign elem (map_get k m));
  let m := map_set k v m in
  match es' with
  | [] => Ok (m, es ++ with_subject (Key k) (ValidateWithCustomValidator elem v true))
  | _ => Ok (m, es ++ with_subject (Key k) es')
  end.

(** A comma separated list: every value has its slot. *)
Definition comma_step (conv : bytes -> result unit (gval * bool * list serr))
    (st : list gval * list serr) (ix : nat * bytes) : result unit (list gval * list serr) :=
  let '(vs, es) := st in
  '(v, _, es') ← conv ix.2;
  Ok (vs ++ [v], es ++ with_subject (Idx ix.1) es').

(** [ConvertString] below a pointer, without the cases that recur. *)
Definition parse_string (s : bytes) (t : gtype) (v : gval) : option (gval * list serr) :=
  match underlying t with
  | TString => Some (VStr s, [])
  | _ =>
      match s with
      | [] => Some (zero t, [])
      | _ =>
          if is_Duration t then
            match ParseDuration s with
            | Some d => Some (VInt d, [])
            | None => Some (v, err (ErrWrapped s))
            end
          else
            match method_Parse t with
            | Some parse =>
                let '(v, e) := parse s v in
                Some (v, match e with Some text => err (ErrWrapped text) | None => [] end)
            | None =>
                if ReflectIsNumeric t || is_bool t then
                  match ReflectStrToNumBool t s with
                  | Some v => Some (v, [])
                  | None => Some (v, err (ErrWrapped s))
                  end
                else None
            end
      end
  end.

(** ** The conversion *)

Fixpoint Convert (n : nat) (iface : bool) (src : sval) (t : gtype) (v : gval) (set chk : bool) {struct n} : outcome :=
  match n with
  | O => Err tt
  | S n =>
      match src, iface with
      | SNil, false => if set then Ok (zero t, []) else Ok (v, err ErrNilValue)
      | _, _ =>
          if src_IsZero iface src then
            if set then Ok (match underlying t with TPtr t' => initPtr t' | _ => zero t end, [])
            else Ok (v, err ErrNilValue)
          else
            match underlying t with
            | TPtr t' =>
                match v with
                | VPtr x => '(x, es) ← convert_elem n src t' x true chk; Ok (VPtr x, es)
                | _ =>
                    if set then
                      '(x, es) ← convert_elem n src t' (default (zero t') (defaultValues t')) true chk; Ok (VPtr x, es)
                    else Ok (v, err ErrUnsettable)
                end
            | _ => convert_elem n src t v set chk
            end
      end
  end
(** The rest of [Convert], for a destination below its pointer. *)
with convert_elem (n : nat) (src : sval) (t : gtype) (v : gval) (set chk : bool) {struct n} : outcome :=
  match n with
  | O => Err tt
  | S n =>
      let via_string (s : bytes) : outcome :=
        '(v, convertible, es) ← ConvertString n s t v;
        if convertible : bool then Ok (v, es) else Ok (v, err ErrUnsupportedConversion) in
      if assignable src t then
        if set then Ok (assigned src t, []) else Ok (v, err ErrUnsettable)
      else
        match src with
        | SStr s => if set then via_string s else Ok (v, err ErrUnsettable)
        | _ =>
            if is_src_num src then
              if ReflectIsNumeric t then (if set then Ok (num_convert src t, []) else Panic ExplicitPanic)
              else if set then via_string (ReflectToStr src) else Panic ExplicitPanic
            else
              match underlying t, src with
              | TString, _ => if set then Ok (VStr (ReflectToStr src), []) else Panic ExplicitPanic
              | _, SMap [] => Ok (v, [])
              | _, SMap m => if set then mapUnmarshalValidate n (Some m) t v true chk else Panic ExplicitPanic
              | _, SList [] => if set then Ok (zero t, []) else Panic ExplicitPanic
              | TSlice elem, SList l =>
                  if set then convert_slice (fun x slot => Convert n true x elem slot true chk) elem l
                  else Panic ExplicitPanic
              | _, _ => Ok (v, err ErrUnsupportedConversion)
              end
        end
  end
(** [ConvertString]: the value, whether it was convertible, and the errors. *)
with ConvertString (n : nat) (s : bytes) (t : gtype) (v : gval) {struct n} : result unit (gval * bool * list serr) :=
  match n with
  | O => Err tt
  | S n =>
      match underlying t with
      | TPtr t' =>
          let x := match v with VPtr x => x | _ => default (zero t') (defaultValues t') end in
          '(x, convertible, es) ← string_elem n s t' x; Ok (VPtr x, convertible, es)
      | _ => string_elem n s t v
      end
  end
with string_elem (n : nat) (s : bytes) (t : gtype) (v : gval) {struct n} : result unit (gval * bool * list serr) :=
  match n with
  | O => Err tt
  | S n =>
      match parse_string s t v with
      | Some (v, es) => Ok (v, true, es)
      | None =>
          match underlying t with
          | TSlice elem =>
              if is_one_liner s then
                '(vs, es) ← foldM (comma_step (fun x => ConvertString n x elem (zero elem))) ([], [])
                              (imap pair (CommaSeperatedList s));
                Ok (VSlice vs, true, es)
              else
                match yaml_list s with
                | None => Ok (v, true, err (ErrWrapped s))
                | Some l => '(v, es) ← Convert n false (SList l) t v true true; Ok (v, true, es)
                end
          | TMap _ _ | TStruct _ =>
              match yaml_map s with
              | None => Ok (v, true, err (ErrWrapped s))
              | Some m => '(v, es) ← Convert n false (SMap m) t v true true; Ok (v, true, es)
              end
          | _ => Ok (v, false, [])
          end
      end
  end
(** [mapUnmarshalValidate] for a destination that is a pointer to [t] (or, with
    [set] false, a value passed as it is); [None] is the nil map. *)
with mapUnmarshalValidate (n : nat) (src : option (list (bytes * sval))) (t : gtype) (v : gval) (set chk : bool)
    {struct n} : outcome :=
  match n with
  | O => Err tt
  | S n =>
      match (if set then method_UnmarshalMap t else None), src with
      | Some unmarshal, Some m => Ok (unmarshal m v)
      | _, _ =>
          match dive t v set, src with
          | None, None => Ok (v, err ErrNilValue)
          | None, Some _ => Ok (v, err ErrUnsupportedConversion)
          | Some (t', v', set'), None => if set' then Ok (undive t (zero t'), []) else Ok (v, err ErrNilValue)
          | Some (t', v', set'), Some m =>
              match underlying t' with
              | TStruct _ =>
                  let info := initTypeKeyFieldIndexesMap t' in
                  '(w, es) ← foldM (struct_step (fun x ft fv fset => Convert n false x ft fv fset (negb (hasValidateTag info)))
                                      info t' set') (v', []) m;
                  let es := es ++ if hasValidateTag info && chk then ValidateWithFieldTags t' w else [] in
                  Ok (undive t w, es ++ ValidateWithCustomValidator t' w set')
              | TAny | TIface _ => Panic ExplicitPanic      (* NumField of an interface type *)
              | TMap key elem =>
                  match v', set' with
                  | VNil, false => Ok (v, err ErrNilValue)
                  | _, _ =>
                      let entries := map_entries v' in
                      if is_string key then
                        '(entries, es) ← foldM (map_step (fun x slot => Convert n false x elem slot true true) elem)
                                           (entries, []) m;
                        Ok (undive t (VMap entries), es ++ ValidateWithCustomValidator t' (VMap entries) set')
                      else Ok (undive t (VMap entries), err ErrUnsupportedConversion)
                  end
              | _ => Ok (v, err ErrUnsupportedConversion)
              end
          end
      end
  end.

(** [MapUnmarshalValidate] with the address of a value. *)
Definition MapUnmarshalValidate (n : nat) (src : option (list (bytes * sval))) (t : gtype) (v : gval) : outcome :=
  mapUnmarshalValidate n src t v true true.

(** ** YAML documents *)

Definition dollar : ascii := "$"%char.

(** One match of ${name} at the start: the name and what follows. *)
Definition env_match (s : bytes) : option (bytes * bytes) :=
  match s with
  | "$"%char :: "{"%char :: s' =>
      match IndexByte s' "}" with
      | Some (S i) => Some (take (S i) s', drop (S (S i)) s')
      | _ => None
      end
  | _ => None
  end.

(** [envRegex.ReplaceAllFunc]: leftmost matches from left to right; the names
    that are not set are collected. *)
Fixpoint substitute (n : nat) (s : bytes) : bytes * list bytes :=
  match n with
  | O => (s, [])
  | S n =>
      match s with
      | [] => ([], [])
      | c :: s' =>
          match env_match s with
          | Some (name, rest) =>
              let '(out, es) := substitute n rest in
              (Quote (default [] (LookupEnv name)) ++ out,
               match LookupEnv name with Some _ => es | None => name :: es end)
          | None => let '(out, es) := substitute n s' in (c :: out, es)
          end
      end
  end.

Definition substituteEnv (data : bytes) : bytes + list serr :=
  match substitute (length data) data with
  | (out, []) => inl out
  | (_, names) => inr (flat_map (fun name => err (ErrWrapped (name ++ B " is not set"))) names)
  end.

(** [UnmarshalValidateYAML], with the function that may intercept the map. *)
Definition UnmarshalValidateYAMLIntercept (n : nat) (data : bytes) (t : gtype) (v : gval)
    (intercept : list (bytes * sval) -> list (bytes * sval) * list serr) : outcome :=
  match substituteEnv data with
  | inr es => Ok (v, es)
  | inl data =>
      match yaml_map data with
      | None => Ok (v, err (ErrWrapped data))
      | Some m =>
          match intercept m with
          | (m, []) => MapUnmarshalValidate n (Some m) t v
          | (_, es) => Ok (v, es)
          end
      end
  end.

Definition UnmarshalValidateYAML (n : nat) (data : bytes) (t : gtype) (v : gval) : outcome :=
  UnmarshalValidateYAMLIntercept n data t v (fun m => (m, [])).

(** [UnmarshalValidateYAMLXSync]: the entries, or the errors and no map. *)
Definition UnmarshalValidateYAMLXSync (n : nat) (data : bytes) (elem : gtype)
    : result unit (option (list (bytes * gval)) * list serr) :=
  match substituteEnv data with
  | inr es => Ok (None, es)
  | inl data =>
      match yaml_map data with
      | None => Ok (None, err (ErrWrapped data))
      | Some m =>
          '(v, es) ← mapUnmarshalValidate n (Some m) (TMap TString elem) (VMap []) false true;
          match es with
          | [] => Ok (Some (map_entries v), [])
          | _ => Ok (None, es)
          end
      end
  end.

End Convert.

(** ** Well-typed values *)

Definition in_kind (k : numkind) (z : Z) : Prop :=
  match k with
  | KInt true b => - 2 ^ (b - 1) <= z < 2 ^ (b - 1)
  | KInt false b => 0 <= z < 2 ^ b
  | KFloat => False
  end.

Inductive has_type : gtype -> gval -> Prop :=
  | ht_string s : has_type TString (VStr s)
  | ht_bool b : has_type TBool (VBool b)
  | ht_int sg b z : in_kind (KInt sg b) z -> has_type (TNum (KInt sg b)) (VInt z)
  | ht_float f : has_type (TNum KFloat) (VFloat f)
  | ht_any_nil : has_type TAny VNil
  | ht_any s : s <> SNil -> has_type TAny (VAny s)
  | ht_iface_nil n : has_type (TIface n) VNil
  | ht_iface n m : has_type (TIface n) (VDyn m)
  | ht_ptr_nil t : has_type (TPtr t) VNil
  | ht_ptr t v : has_type t v -> has_type (TPtr t) (VPtr v)
  | ht_slice_nil t : has_type (TSlice t) VNil
  | ht_slice t l : Forall (has_type t) l -> has_type (TSlice t) (VSlice l)
  | ht_map_nil k t : has_type (TMap k t) VNil
  | ht_map k t m : Forall (fun kv => has_type t kv.2) m -> has_type (TMap k t) (VMap m)
  | ht_struct fs vs : Forall2 (fun ft v => has_type ft.2 v) fs vs -> has_type (TStruct fs) (VStruct vs)
  | ht_named n u v : has_type u v -> has_type (TNamed n u) v.

(** Decoded integers are in the range of their type. *)
Fixpoint src_ok (s : sval) : Prop :=
  match s with
  | SInt k z => in_kind k z
  | SList l => (fix go (l : list sval) : Prop := match l with [] => True | x :: l => src_ok x /\ go l end) l
  | SMap m => (fix go (m : list (bytes * sval)) : Prop := match m with [] => True | kx :: m => src_ok kx.2 /\ go m end) m
  | _ => True
  end.

Lemma src_ok_list l : src_ok (SList l) <-> Forall src_ok l.
Proof. induction l as [|x l IH]; simpl; [done|]. rewrite Forall_cons. simpl in IH. by rewrite IH. Qed.

Lemma src_ok_map m : src_ok (SMap m) <-> Forall (fun kx => src_ok kx.2) m.
Proof. induction m as [|x m IH]; simpl; [done|]. rewrite Forall_cons. simpl in IH. by rewrite IH. Qed.

Definition is_ptr (t : gtype) : bool := match underlying t with TPtr _ => true | _ => false end.

(** Types the conversion handles: no interface with methods, no pointer to a
    pointer, widths that are positive, [time.Duration] is an int64. *)
Fixpoint wf_type (t : gtype) : bool :=
  match t with
  | TString | TBool | TAny | TNum KFloat => true
  | TNum (KInt _ b) => 0 <? b
  | TIface _ => false
  | TPtr t => negb (is_ptr t) && wf_type t
  | TSlice t => wf_type t
  | TMap _ t => wf_type t
  | TStruct fs => (fix go (fs : list (field * gtype)) : bool :=
                     match fs with [] => true | ft :: fs => wf_type ft.2 && go fs end) fs
  | TNamed n u => negb (is_ptr u) && wf_type u
                  && (if bool_decide (n = B "time.Duration")
                      then match u with TNum (KInt true b) => b =? 64 | _ => false end else true)
  end.

Lemma wf_struct fs : wf_type (TStruct fs) = true <-> Forall (fun ft => wf_type ft.2 = true) fs.
Proof.
  induction fs as [|ft fs IH]; simpl; [done|]. rewrite andb_true_iff, Forall_cons. simpl in IH. by rewrite IH.
Qed.

(** How deep a type goes. *)
Fixpoint depth (t : gtype) : nat :=
  match t with
  | TPtr t | TSlice t | TMap _ t => S (depth t)
  | TStruct fs => S ((fix go (fs : list (field * gtype)) : nat :=
                        match fs with [] => O | ft :: fs => Nat.max (depth ft.2) (go fs) end) fs)
  | TNamed _ u => depth u
  | _ => O
  end.

Lemma depth_field fs i f ft : fs !! i = Some (f, ft) -> (depth ft < depth (TStruct fs))%nat.
Proof.
  revert i. induction fs as [|x fs IH]; intros i H; [done|]. simpl in *. destruct i as [|i]; simpl in H.
  - injection H as ->. simpl. lia.
  - apply IH in H. lia.
Qed.

Lemma depth_underlying t : depth (underlying t) = depth t.
Proof. by induction t. Qed.

Lemma underlying_not_named t n u : underlying t = TNamed n u -> False.
Proof. by induction t. Qed.

Lemma has_type_underlying t v : has_type t v <-> has_type (underlying t) v.
Proof.
  induction t; simpl; try done. split; [intros H; inversion H; subst; by apply IHt|]. intros H. constructor. by apply IHt.
Qed.

Lemma wf_underlying t : wf_type t = true -> wf_type (underlying t) = true.
Proof. induction t; simpl; try done. rewrite !andb_true_iff. naive_solver. Qed.

(** What the libraries and methods promise: results of their types. *)
Class SerLaws `{SerLib} := {
  numeric_kind t : ReflectIsNumeric t = true -> exists k, underlying t = TNum k;
  numeric_num k : ReflectIsNumeric (TNum k) = true;
  StrToNumBool_typed t s v : ReflectStrToNumBool t s = Some v -> has_type t v;
  MapAssign_typed t o : (forall v, o = Some v -> has_type t v) -> wf_type t = true -> has_type t (ReflectStrMapAssign t o);
  ParseDuration_range s d : ParseDuration s = Some d -> in_kind (KInt true 64) d;
  yaml_list_ok s l : yaml_list s = Some l -> Forall src_ok l;
  yaml_map_ok s m : yaml_map s = Some m -> Forall (fun kx => src_ok kx.2) m;
  UnmarshalMap_typed t f m v : method_UnmarshalMap t = Some f -> has_type t v -> has_type t (f m v).1;
  Parse_typed t f s v : method_Parse t = Some f -> has_type t v -> has_type t (f s v).1;
  default_typed t v : defaultValues t = Some v -> has_type t v
}.

Lemma zero_in_kind sg b : 0 < b -> in_kind (KInt sg b) 0.
Proof. intros H. destruct sg; simpl; [assert (0 < 2 ^ (b - 1)) by (apply Z.pow_pos_nonneg; lia)|assert (0 < 2 ^ b) by (apply Z.pow_pos_nonneg; lia)]; lia. Qed.

Lemma wrap_in_kind sg b z : 0 < b -> in_kind (KInt sg b) (wrap_kind (KInt sg b) z).
Proof.
  intros H. assert (Hb : 2 ^ b = 2 * 2 ^ (b - 1)) by (rewrite <- Z.pow_succ_r by lia; f_equal; lia).
  assert (0 < 2 ^ (b - 1)) by (apply Z.pow_pos_nonneg; lia).
  destruct sg; cbn [wrap_kind in_kind];
    [pose proof (Z.mod_pos_bound (z + 2 ^ (b - 1)) (2 ^ b) ltac:(lia))|pose proof (Z.mod_pos_bound z (2 ^ b) ltac:(lia))]; lia.
Qed.

Fixpoint zero_typed (t : gtype) : wf_type t = true -> has_type t (zero t).
Proof.
  destruct t as [| |[sg b|]| |n|t|t|k t|fs|n u]; simpl; intros Hwf; try by constructor.
  - constructor. apply zero_in_kind. lia.
  - constructor. revert Hwf. induction fs as [|[f ft] fs IH]; simpl; [constructor|].
    rewrite andb_true_iff. intros [H1 H2]. constructor; [by apply zero_typed|by apply IH].
  - apply andb_true_iff in Hwf as [[_ Hwf]%andb_true_iff _]. constructor. by apply zero_typed.
Qed.

Section Soundness.

Context `{SL : SerLib} `{LW : !SerLaws}.

Abbreviation outcome := (result unit (gval * list serr)).

(** The conversion returned, with a value of the type. *)
Definition good (t : gtype) (r : outcome) : Prop := exists v es, r = Ok (v, es) /\ has_type t v.

Definition good_string (t : gtype) (r : result unit (gval * bool * list serr)) : Prop :=
  exists v c es, r = Ok (v, c, es) /\ has_type t v.

Lemma good_Ok t v es : has_type t v -> good t (Ok (v, es)).
Proof. intros H. by exists v, es. Qed.

Lemma good_bind t t' (r : outcome) (f : gval * list serr -> outcome) :
  good t r -> (forall v es, has_type t v -> good t' (f (v, es))) -> good t' (r ≫= f).
Proof. intros (v & es & -> & H) Hf. by apply Hf. Qed.

Lemma default_ptr t : wf_type t = true -> has_type t (default (zero t) (defaultValues t)).
Proof.
  intros H. destruct (defaultValues t) as [v|] eqn:E; simpl; [by eapply default_typed|by apply zero_typed].
Qed.

(** ** Fields *)

(** An index path that leads through embedded structs, and where it ends. *)
Fixpoint path_type (path : list nat) (t : gtype) : option gtype :=
  match path with
  | [] => Some t
  | i :: path' =>
      match underlying t with
      | TStruct fs =>
          match fs !! i with
          | Some (_, ft) =>
              match path', ft with
              | _ :: _, TPtr st => if is_struct st then path_type path' st else None
              | _, _ => path_type path' ft
              end
          | None => None
          end
      | _ => None
      end
  end.

Lemma path_type_wf path : forall t ft,
  path_type path t = Some ft -> wf_type t = true ->
  wf_type ft = true /\ (depth ft <= depth t)%nat /\ (path <> [] -> (depth ft < depth t)%nat).
Proof.
  induction path as [|i path IH]; intros t ft H Hwf; simpl in H; [naive_solver|].
  apply wf_underlying in Hwf. rewrite <- (depth_underlying t).
  destruct (underlying t) as [| | | | | | | |fs|] eqn:Et; try done.
  destruct (fs !! i) as [[f gt]|] eqn:Ei; [|done].
  assert (Hg : wf_type gt = true).
  { apply wf_struct in Hwf. rewrite Forall_forall in Hwf. apply (Hwf (f, gt)). by eapply list_elem_of_lookup_2. }
  assert (Hd := depth_field _ _ _ _ Ei).
  assert (Hgo : path_type path gt = Some ft -> wf_type ft = true /\ (depth ft <= depth (TStruct fs))%nat
                /\ (i :: path <> [] -> (depth ft < depth (TStruct fs))%nat)).
  { intros Hp. destruct (IH _ _ Hp Hg) as (? & ? & ?). split; [done|]. split; [lia|]. intros _. lia. }
  destruct path as [|j path]; [by apply Hgo|].
  destruct gt as [| | | | |st| | | |]; try (by apply Hgo).
  destruct (is_struct st); [|done]. simpl in Hg. apply andb_true_iff in Hg as [_ Hg].
  destruct (IH _ _ H Hg) as (? & ? & ?). change (depth (TPtr st)) with (S (depth st)) in Hd. split; [done|]. split; [lia|]. intros _. lia.
Qed.

Lemma Forall2_insert_l {A C} (P : A -> C -> Prop) l k i x y :
  Forall2 P l k -> l !! i = Some x -> P x y -> Forall2 P l (<[i := y]> k).
Proof.
  intros H Hi Hp. rewrite <- (list_insert_id l i x Hi). by apply Forall2_insert.
Qed.

Lemma at_path_good path : forall t v f ft,
  path_type path t = Some ft -> wf_type t = true -> has_type t v ->
  (forall fv, has_type ft fv -> good ft (f ft fv true)) -> good t (at_path path t v true f).
Proof.
  induction path as [|i path IH]; intros t v f ft Hp Hwf Hv Hf; simpl in *; [simplify_eq; eauto|].
  assert (Hwu := wf_underlying _ Hwf). apply has_type_underlying in Hv.
  assert (Hlift : forall v', has_type (underlying t) v' -> has_type t v') by (intros; by apply has_type_underlying).
  destruct (underlying t) as [| | | | | | | |fs|] eqn:Et; try done.
  inversion Hv as [| | | | | | | | | | | | | |fs' vs Hvs Hfs Hvv|]; subst.
  destruct (fs !! i) as [[fd gt]|] eqn:Ei; [|done].
  destruct (Forall2_lookup_l _ _ _ _ _ Hvs Ei) as (fv & Efv & Hfv). rewrite Efv. simpl in Hfv.
  assert (Hg : wf_type gt = true).
  { apply wf_struct in Hwu. rewrite Forall_forall in Hwu. apply (Hwu (fd, gt)). by eapply list_elem_of_lookup_2. }
  assert (Hput : forall fv', has_type gt fv' -> has_type t (VStruct (<[i := fv']> vs))).
  { intros fv' H. apply Hlift. constructor. by eapply Forall2_insert_l. }
  assert (Hgo : path_type path gt = Some ft -> good t ('(fv', es) ← at_path path gt fv true f; Ok (VStruct (<[i := fv']> vs), es))).
  { intros Hpt. eapply good_bind; [by eapply IH|]. intros fv' es H. by apply good_Ok, Hput. }
  destruct path as [|j path]; [by destruct gt; apply Hgo|].
  destruct gt as [| | | | |st| | | |]; try (by apply Hgo).
  destruct (is_struct st); [|done]. simpl in Hg. apply andb_true_iff in Hg as [_ Hg].
  assert (Hx : exists x, (match fv with VPtr x => VPtr x | _ => initPtr st end) = VPtr x /\ has_type st x).
  { inversion Hfv; subst; [exists (default (zero st) (defaultValues st)); split; [done|by apply default_ptr]|eauto]. }
  destruct Hx as (x & -> & Hx). eapply (good_bind (TPtr st)).
  - eapply good_bind; [by eapply (IH st x f ft)|]. intros x' es H. apply good_Ok. by constructor.
  - intros fv' es H. by apply good_Ok, Hput.
Qed.

(** Every key leads to a field. *)
Definition info_ok (t : gtype) (info : typeInfo) : Prop :=
  forall h path, keyFieldIndexes info !! h = Some path -> path <> [] /\ is_Some (path_type path t).

Lemma info_ok_insert t h path info :
  info_ok t info -> path <> [] -> is_Some (path_type path t) ->
  forall h' path', <[h := path]> (keyFieldIndexes info) !! h' = Some path' -> path' <> [] /\ is_Some (path_type path' t).
Proof. intros H Hp Ht h' path'. rewrite lookup_insert_Some. intros [[_ <-]|[_ E]]; [done|by eapply H]. Qed.

Lemma plain_field_ok t fs i f ft info :
  underlying t = TStruct fs -> fs !! i = Some (f, ft) -> info_ok t info -> info_ok t (plain_field i f info).
Proof.
  intros Et Ei H. unfold plain_field.
  assert (Hi : [i] <> [] /\ is_Some (path_type [i] t)) by (split; [done|]; simpl; rewrite Et, Ei; by destruct ft).
  destruct Hi as [Hi1 Hi2].
  assert (Hadd : forall k info, info_ok t info -> info_ok t (add_key i k info)).
  { intros k info' H'. unfold info_ok. simpl. by apply info_ok_insert. }
  assert (Hfold : forall l info, info_ok t info -> info_ok t (fold_left (fun info a => add_key i a info) l info)).
  { induction l as [|a l IH]; intros info' H'; simpl; [done|]. by apply IH, Hadd. }
  destruct (fd_aliases f); [|apply Hfold]; intros h path Hh; by eapply (Hadd _ info H h path).
Qed.

Lemma embed_info_ok t fs i f ft st sub info :
  underlying t = TStruct fs -> fs !! i = Some (f, ft) -> (ft = TPtr st \/ ft = st /\ is_ptr ft = false) ->
  is_struct st = true -> info_ok st sub -> info_ok t info -> info_ok t (embed_info i sub info).
Proof.
  intros Et Ei Hft Hs Hsub H h path. simpl. rewrite lookup_union_Some_raw, lookup_fmap, fmap_Some.
  intros [(p & Hp & ->)|[_ Hp]]; [|by eapply H]. destruct (Hsub _ _ Hp) as [Hne Hpt]. split; [done|].
  cbn [path_type]. rewrite Et, Ei. destruct p as [|j p]; [done|].
  destruct Hft as [->|[-> Hnp]]; [by rewrite Hs|]. destruct st; try done.
Qed.

Lemma type_info_ok n : forall t, (depth t <= n)%nat -> info_ok t (initTypeKeyFieldIndexesMap t).
Proof.
  induction n as [n IH] using lt_wf_ind. intros t. remember (underlying t) as u eqn:Eu. symmetry in Eu.
  rewrite <- depth_underlying, Eu. intros Hd.
  assert (Ei : initTypeKeyFieldIndexesMap t = initTypeKeyFieldIndexesMap u).
  { subst u. clear. by induction t. }
  rewrite Ei. clear Ei.
  assert (Hempty : info_ok t empty_info) by (intros h path; simpl; by rewrite lookup_empty).
  destruct u as [| | | | | | | |fs|]; try done; [|by apply underlying_not_named in Eu].
  cbn [initTypeKeyFieldIndexesMap].
  assert (Hsub : forall t', (depth t' < depth (TStruct fs))%nat -> info_ok t' (initTypeKeyFieldIndexesMap t')).
  { intros t' Ht'. eapply (IH (depth t')); lia. }
  assert (Hall : forall j ft, fs !! j = Some ft -> fs !! (0 + j)%nat = Some ft) by done.
  revert Hall Hempty. generalize 0%nat empty_info. generalize fs at 1 3. intros fs2.
  induction fs2 as [|[f ft] fs2 IHf]; intros i info Hall Hinfo; [done|].
  assert (Hi : fs !! i = Some (f, ft)) by (rewrite <- (Nat.add_0_r i); by apply Hall).
  assert (Hdf := depth_field _ _ _ _ Hi).
  apply IHf; [intros j x Hj; rewrite Nat.add_succ_comm; by apply (Hall (S j))|].
  destruct (ignored f); [done|].
  assert (Hplain : info_ok t (plain_field i f info)) by (by eapply plain_field_ok).
  assert (Hemb : forall st, (ft = TPtr st \/ ft = st /\ is_ptr ft = false) -> is_struct st = true ->
            (depth st <= depth ft)%nat -> info_ok t (embed_info i (initTypeKeyFieldIndexesMap st) info)).
  { intros st Hst Hs Hds. eapply embed_info_ok; [done..|apply Hsub; lia|done]. }
  destruct (fd_anonymous f); [|done].
  destruct ft as [| | | | |t'| | | |m u']; try done.
  - destruct (is_struct t') eqn:Es; [|done]. apply Hemb; [by left|done|]. simpl. lia.
  - apply Hemb; [by right|done|done].
  - destruct (is_struct (TNamed m u')) eqn:Es; [|done]. apply Hemb; [|done|done].
    right. split; [done|]. revert Es. unfold is_struct, is_ptr. by destruct (underlying (TNamed m u')).
Qed.

Lemma getField_ok t k path :
  getField (initTypeKeyFieldIndexesMap t) k = Some path -> path <> [] /\ is_Some (path_type path t).
Proof. apply (type_info_ok (depth t)). done. Qed.

(** ** The loops *)

Lemma foldM_total {St X} (I : St -> Prop) (P : X -> Prop) (f : St -> X -> result unit St) :
  (forall s x, I s -> P x -> exists s', f s x = Ok s' /\ I s') ->
  forall l s, I s -> Forall P l -> exists s', foldM f s l = Ok s' /\ I s'.
Proof.
  intros Hf l. induction l as [|x l IH]; intros s Hs Hl; [by exists s|].
  apply Forall_cons in Hl as [Hx Hl]. destruct (Hf s x Hs Hx) as (s' & E & Hs'). simpl. rewrite E. by apply IH.
Qed.

Lemma slice_loop_good t conv l : forall slots i es,
  Forall (fun jx => forall slot, has_type t slot -> good t (conv jx.2 slot)) l ->
  Forall (has_type t) slots -> (i + length l <= length slots)%nat ->
  exists slots' i' es', foldM (slice_step conv) (slots, i, es) l = Ok (slots', i', es') /\ Forall (has_type t) slots'.
Proof.
  induction l as [|[j x] l IH]; intros slots i es Hl Hs Hi; simpl in *; [by exists slots, i, es|].
  apply Forall_cons in Hl as [Hx Hl].
  destruct (lookup_lt_is_Some_2 slots i) as [slot Eslot]; [lia|]. cbn [foldM]. cbn [slice_step]. rewrite Eslot. simpl in Hx.
  destruct (Hx slot) as (v & es' & -> & Hv); [by eapply Forall_lookup_1|]. cbn [mbind result_bind].
  assert (Hs' : Forall (has_type t) (<[i:=v]> slots)) by (by apply Forall_insert).
  destruct es'; cbn [mbind result_bind]; apply IH; rewrite ?length_insert; try done; lia.
Qed.

Lemma convert_slice_good t conv l :
  wf_type t = true -> Forall (fun x => forall slot, has_type t slot -> good t (conv x slot)) l ->
  good (TSlice t) (convert_slice conv t l).
Proof.
  intros Hwf Hl. unfold convert_slice.
  destruct (slice_loop_good t conv (imap pair l) (replicate (length l) (zero t)) 0 []) as (slots & i & es & -> & Hs).
  - rewrite Forall_lookup. intros j [j' x]. rewrite list_lookup_imap, fmap_Some. intros (y & Hy & [= -> ->]).
    simpl. rewrite Forall_lookup in Hl. eauto.
  - apply Forall_replicate. by apply zero_typed.
  - rewrite length_imap, length_replicate. done.
  - simpl. destruct es; apply good_Ok; constructor; [done|by apply Forall_take].
Qed.

Lemma map_set_typed t k v m :
  has_type t v -> Forall (fun kv => has_type t kv.2) m -> Forall (fun kv => has_type t kv.2) (map_set k v m).
Proof.
  intros Hv. induction m as [|[k' v'] m IH]; simpl; intros Hm; [by constructor|].
  apply Forall_cons in Hm as [H1 H2]. case_bool_decide; constructor; auto.
Qed.

Lemma map_get_typed t k v m : Forall (fun kv => has_type t kv.2) m -> map_get k m = Some v -> has_type t v.
Proof.
  induction m as [|[k' v'] m IH]; simpl; intros Hm; [done|]. apply Forall_cons in Hm as [H1 H2].
  case_bool_decide; [by intros [= <-]|auto].
Qed.

Lemma map_loop_good t conv m entries es :
  wf_type t = true -> Forall (fun kx => forall slot, has_type t slot -> good t (conv kx.2 slot)) m ->
  Forall (fun kv => has_type t kv.2) entries ->
  exists st, foldM (map_step conv t) (entries, es) m = Ok st /\ Forall (fun kv => has_type t kv.2) st.1.
Proof.
  intros Hwf Hm He.
  apply (foldM_total (fun st => Forall (fun kv : bytes * gval => has_type t kv.2) st.1)
           (fun kx => forall slot, has_type t slot -> good t (conv kx.2 slot))); [|done|done].
  intros [ent es0] [k x] Hent Hx. simpl in *. unfold map_step.
  destruct (Hx (ReflectStrMapAssign t (map_get k ent))) as (v & es' & -> & Hv).
  { apply MapAssign_typed; [|done]. intros v Hv. by eapply map_get_typed. }
  cbn [mbind result_bind]. destruct es'; (eexists; split; [done|]; by apply map_set_typed).
Qed.

Lemma comma_loop_good t conv l :
  Forall (fun ix => good_string t (conv ix.2)) l -> forall vs es, Forall (has_type t) vs ->
  exists st, foldM (comma_step conv) (vs, es) l = Ok st /\ Forall (has_type t) st.1.
Proof.
  intros Hl vs es Hvs.
  apply (foldM_total (fun st => Forall (has_type t) st.1) (fun ix => good_string t (conv ix.2))); [|done|done].
  intros [ws es0] [i x] Hws Hx. simpl in *. unfold comma_step. destruct Hx as (v & c & es' & Hc & Hv). simpl in Hc. rewrite Hc.
  cbn [mbind result_bind]. eexists. split; [done|]. simpl. apply Forall_app. split; [done|]. by constructor.
Qed.

Lemma struct_loop_good t conv m v es :
  wf_type t = true ->
  Forall (fun kx => forall ft fv, wf_type ft = true -> (depth ft < depth t)%nat -> has_type ft fv ->
            good ft (conv kx.2 ft fv true)) m ->
  has_type t v ->
  good t (foldM (struct_step conv (initTypeKeyFieldIndexesMap t) t true) (v, es) m).
Proof.
  intros Hwf Hm Hv.
  destruct (foldM_total (fun st => has_type t st.1)
           (fun kx => forall ft fv, wf_type ft = true -> (depth ft < depth t)%nat -> has_type ft fv ->
            good ft (conv kx.2 ft fv true)) (struct_step conv (initTypeKeyFieldIndexesMap t) t true))
    with (l := m) (s := (v, es)) as ([v' es'] & E & H); [|done|done|by exists v', es'].
  intros [w es0] [k x] Hw Hx. simpl in *. unfold struct_step.
  destruct (getField _ k) as [path|] eqn:Eg; [|by eexists].
  apply getField_ok in Eg as [Hne [ft Hpt]].
  destruct (path_type_wf _ _ _ Hpt Hwf) as (Hwft & _ & Hdt).
  destruct (at_path_good path t w (conv x) ft Hpt Hwf Hw) as (w' & es' & -> & Hw'); [by auto|].
  by eexists.
Qed.

(** ** The conversion *)

(** Strings and scalars may take a round through ConvertString. *)
Definition cost (s : sval) : nat := match s with SList _ | SMap _ => 0 | _ => 4 end.

(** Fuel for a source and a type: seven calls per level of the type. *)
Definition need (s : sval) (t : gtype) : nat := 7 * depth t + 3 + cost s.

Lemma wf_ptr t t' :
  wf_type t = true -> underlying t = TPtr t' -> t = TPtr t' /\ is_ptr t' = false /\ wf_type t' = true.
Proof.
  destruct t; simpl; try done.
  - intros [H1%negb_true_iff H2]%andb_true_iff [= <-]. done.
  - intros [[H1%negb_true_iff _]%andb_true_iff _]%andb_true_iff H. unfold is_ptr in H1. by rewrite H in H1.
Qed.

Lemma dive_value t v set : is_ptr t = false -> dive t v set = Some (t, v, set).
Proof. by destruct t. Qed.

Lemma undive_value t x : is_ptr t = false -> undive t x = x.
Proof. by destruct t. Qed.

Lemma assigned_typed s t : src_ok s -> s <> SNil -> assignable s t = true -> has_type t (assigned s t).
Proof.
  intros Hs Hn. unfold assignable, assigned. rewrite (has_type_underlying t).
  assert (Hany : forall x, has_type TAny (any_of x)) by (intros []; constructor; done).
  assert (Hl : forall l, Forall (has_type TAny) (map any_of l)).
  { intros l. apply Forall_map, Forall_true. intros x. apply Hany. }
  assert (Hm : forall m : list (bytes * sval), Forall (fun kv => has_type TAny kv.2) (map (fun kx => (kx.1, any_of kx.2)) m)).
  { intros m. apply Forall_map, Forall_true. intros x. apply Hany. }
  destruct (underlying t) as [| | | | | |[]|[] []| |] eqn:E; intros H; try apply Hany;
    destruct s; try done; try (by constructor);
    destruct t as [| |[]| | | | | | |]; simpl in E; try done; simplify_eq; try (by constructor).
  all: simpl in Hs; apply bool_decide_eq_true in H; subst; try done; by constructor.
Qed.

Lemma parse_string_typed s t v v' es :
  parse_string s t v = Some (v', es) -> wf_type t = true -> has_type t v -> has_type t v'.
Proof.
  intros H Hwf Hv. unfold parse_string in H. rewrite (has_type_underlying t).
  assert (Hz := proj1 (has_type_underlying _ _) (zero_typed _ Hwf)).
  assert (Hv' := proj1 (has_type_underlying _ _) Hv).
  destruct (underlying t) as [| | | | | | | | |] eqn:E; [simplify_eq; by constructor|..]; rewrite <- E in *; clear E;
    (destruct s as [|c s]; [by simplify_eq|]);
    (destruct (is_Duration t) eqn:Ed;
     [destruct (ParseDuration _) as [d|] eqn:Ep; [|by simplify_eq];
      destruct t; try done; simpl in Ed, Hwf; apply andb_true_iff in Hwf as [_ Hwf]; rewrite Ed in Hwf;
      destruct t as [| |[[] b|]| | | | | | |]; try done; apply Z.eqb_eq in Hwf; subst; simplify_eq; simpl;
      constructor; by eapply ParseDuration_range|]);
    (destruct (method_Parse t) as [parse|] eqn:Em;
     [pose proof (Parse_typed t parse (c :: s) v Em Hv) as Hp; destruct (parse _ _); simplify_eq;
      by apply (proj1 (has_type_underlying _ _))|]);
    (destruct (_ || _); [|done]); (destruct (ReflectStrToNumBool _ _) as [x|] eqn:Es; [|by simplify_eq]);
    simplify_eq; apply (proj1 (has_type_underlying _ _)); by eapply StrToNumBool_typed.
Qed.

Lemma num_convert_typed s t k :
  underlying t = TNum k -> wf_type t = true -> is_src_num s = true -> has_type t (num_convert s t).
Proof.
  intros E Hwf Hs. apply wf_underlying in Hwf. rewrite E in Hwf. rewrite (has_type_underlying t). unfold num_convert. rewrite E.
  destruct s; try done; destruct k as [sg b|]; constructor; apply wrap_in_kind; simpl in Hwf; lia.
Qed.

Record sound_at (n : nat) : Prop := {
  sa_Convert iface src t v chk : wf_type t = true -> has_type t v -> src_ok src -> (need src t <= n)%nat ->
    good t (Convert n iface src t v true chk);
  sa_elem src t v chk : wf_type t = true -> is_ptr t = false -> has_type t v -> src_ok src -> src <> SNil ->
    (7 * depth t + 2 + cost src <= n)%nat -> good t (convert_elem n src t v true chk);
  sa_String s t v : wf_type t = true -> has_type t v -> (7 * depth t + 5 <= n)%nat -> good_string t (ConvertString n s t v);
  sa_string_elem s t v : wf_type t = true -> has_type t v -> (7 * depth t + 4 <= n)%nat ->
    good_string t (string_elem n s t v);
  sa_map m t v chk : wf_type t = true -> is_ptr t = false -> underlying t <> TAny -> has_type t v ->
    Forall (fun kx => src_ok kx.2) m -> (7 * depth t + 1 <= n)%nat ->
    good t (mapUnmarshalValidate n (Some m) t v true chk)
}.

Lemma Convert_step n iface src t v chk :
  sound_at n -> wf_type t = true -> has_type t v -> src_ok src -> (need src t <= S n)%nat ->
  good t (Convert (S n) iface src t v true chk).
Proof.
  intros Hn Hwf Hv Hsrc Hneed. cbn [Convert].
  assert (Hzero : forall es, good t (Ok (zero t, es))) by (intros es; by apply good_Ok, zero_typed).
  assert (Hinit : good t (Ok (match underlying t with TPtr t' => initPtr t' | _ => zero t end, []))).
  { destruct (underlying t) as [| | | | |t'| | | |] eqn:E; try apply Hzero.
    destruct (wf_ptr _ _ Hwf E) as (-> & _ & Hwf'). apply good_Ok. constructor. by apply default_ptr. }
  assert (Hgo : src <> SNil -> good t
    (match underlying t with
     | TPtr t' => match v with
        | VPtr x => '(x, es) ← convert_elem n src t' x true chk; Ok (VPtr x, es)
        | _ => '(x, es) ← convert_elem n src t' (default (zero t') (defaultValues t')) true chk; Ok (VPtr x, es)
        end
     | _ => convert_elem n src t v true chk
     end)).
  { intros Hnil. unfold need in Hneed. destruct (underlying t) as [| | | | |t'| | | |] eqn:E;
      try (apply (sa_elem _ Hn); [done|unfold is_ptr; by rewrite E|done|done|done|lia]).
    destruct (wf_ptr _ _ Hwf E) as (-> & Hnp & Hwf'). simpl in Hneed.
    assert (Hp : forall x, has_type t' x -> good (TPtr t') ('(x, es) ← convert_elem n src t' x true chk; Ok (VPtr x, es))).
    { intros x Hx. eapply good_bind; [apply (sa_elem _ Hn); try done; lia|]. intros x' es Hx'. apply good_Ok. by constructor. }
    inversion Hv; subst; apply Hp; [by apply default_ptr|done]. }
  destruct (src_IsZero iface src) eqn:Ez; [destruct src, iface; try done; apply Hinit|].
  destruct src; try (destruct iface; apply Hgo; done). destruct iface; done.
Qed.

Lemma elem_step n src t v chk :
  sound_at n -> wf_type t = true -> is_ptr t = false -> has_type t v -> src_ok src -> src <> SNil ->
  (7 * depth t + 2 + cost src <= S n)%nat -> good t (convert_elem (S n) src t v true chk).
Proof.
  intros Hn Hwf Hnp Hv Hsrc Hnil Hneed. cbn [convert_elem].
  destruct (assignable src t) eqn:Ea; [by apply good_Ok, assigned_typed|].
  assert (Hvia : forall s, (7 * depth t + 6 <= S n)%nat -> good t
    ('(v, convertible, es) ← ConvertString n s t v;
        if convertible : bool then Ok (v, es) else Ok (v, err ErrUnsupportedConversion))).
  { intros s Hd. destruct (sa_String _ Hn s t v) as (v' & c & es & -> & Hv'); [done|done|lia|]. simpl.
    destruct c; by apply good_Ok. }
  assert (Hun : underlying t <> TAny) by (intros E; unfold assignable in Ea; by rewrite E in Ea).
  assert (Hbool : forall es, good t (Ok (v, es))) by (intros; by apply good_Ok).
  destruct src as [|b|s|k z|f|l|m]; [done| |apply Hvia; simpl in Hneed; lia| | | |]; cbn [is_src_num cost] in *.
  - destruct (underlying t) eqn:E; try apply Hbool. apply good_Ok, has_type_underlying. rewrite E. constructor.
  - destruct (ReflectIsNumeric t) eqn:En; [|apply Hvia; lia]. destruct (numeric_kind t En) as [k' Ek].
    apply good_Ok. by eapply num_convert_typed.
  - destruct (ReflectIsNumeric t) eqn:En; [|apply Hvia; lia]. destruct (numeric_kind t En) as [k' Ek].
    apply good_Ok. by eapply num_convert_typed.
  - assert (Hz : good t (Ok (zero t, []))) by (by apply good_Ok, zero_typed).
    apply src_ok_list in Hsrc.
    destruct (underlying t) as [| | | | | |elem| | |] eqn:E; destruct l as [|x l]; try apply Hz; try apply Hbool;
      try (apply good_Ok, has_type_underlying; rewrite E; constructor).
    assert (Hwe := wf_underlying _ Hwf). rewrite <- (depth_underlying t) in Hneed. rewrite E in Hwe, Hneed. simpl in Hwe, Hneed.
    destruct (convert_slice_good elem (fun x slot => Convert n true x elem slot true chk) (x :: l) Hwe)
      as (v' & es & -> & Hv').
    + eapply Forall_impl; [exact Hsrc|]. intros y Hy slot Hslot. apply (sa_Convert _ Hn); try done.
      unfold need. assert (cost y <= 4)%nat by (destruct y; simpl; lia). lia.
    + apply good_Ok, has_type_underlying. by rewrite E.
  - apply src_ok_map in Hsrc.
    assert (Hm : good t (mapUnmarshalValidate n (Some m) t v true chk)) by (apply (sa_map _ Hn); try done; lia).
    destruct (underlying t) as [| | | | | |elem| | |] eqn:E; destruct m as [|x m]; try apply Hbool; try apply Hm;
      try (apply good_Ok, has_type_underlying; rewrite E; constructor).
Qed.

Lemma good_string_Ok t v c es : has_type t v -> good_string t (Ok (v, c, es)).
Proof. intros H. by exists v, c, es. Qed.

Lemma String_step n s t v :
  sound_at n -> wf_type t = true -> has_type t v -> (7 * depth t + 5 <= S n)%nat -> good_string t (ConvertString (S n) s t v).
Proof.
  intros Hn Hwf Hv Hneed. cbn [ConvertString].
  destruct (underlying t) as [| | | | |t'| | | |] eqn:E; try (apply (sa_string_elem _ Hn); [done|done|lia]).
  destruct (wf_ptr _ _ Hwf E) as (-> & Hnp & Hwf'). simpl in Hneed.
  assert (Hx : has_type t' (match v with VPtr x => x | _ => default (zero t') (defaultValues t') end)).
  { inversion Hv; subst; [by apply default_ptr|done]. }
  destruct (sa_string_elem _ Hn s t' _ Hwf' Hx) as (x & c & es & -> & Hx'); [lia|].
  apply good_string_Ok. by constructor.
Qed.

Lemma string_elem_step n s t v :
  sound_at n -> wf_type t = true -> has_type t v -> (7 * depth t + 4 <= S n)%nat -> good_string t (string_elem (S n) s t v).
Proof.
  intros Hn Hwf Hv Hneed. cbn [string_elem].
  destruct (parse_string s t v) as [[v' es]|] eqn:Ep; [apply good_string_Ok; by eapply parse_string_typed|].
  assert (Hc : forall src, src_ok src -> cost src = 0%nat ->
    good_string t ('(v, es) ← Convert n false src t v true true; Ok (v, true, es))).
  { intros src Hs Hcost. destruct (sa_Convert _ Hn false src t v true) as (v' & es & -> & Hv'); try done;
      [unfold need; lia|]. by apply good_string_Ok. }
  assert (Hself : forall c es, good_string t (Ok (v, c, es))) by (intros; by apply good_string_Ok).
  assert (Hyaml : good_string t match yaml_map s with
              | None => Ok (v, true, err (ErrWrapped s))
              | Some m => '(v, es) ← Convert n false (SMap m) t v true true; Ok (v, true, es)
              end).
  { destruct (yaml_map s) as [m|] eqn:Ey; [|done]. apply Hc; [|done]. apply src_ok_map. by eapply yaml_map_ok. }
  destruct (underlying t) as [| | | | | |elem| | |] eqn:E; try done.
  destruct (is_one_liner s).
  - assert (Hwe := wf_underlying _ Hwf). rewrite <- (depth_underlying t), E in Hneed. rewrite E in Hwe. simpl in Hwe, Hneed.
    destruct (comma_loop_good elem (fun x => ConvertString n x elem (zero elem)) (imap pair (CommaSeperatedList s)))
      with (vs := @nil gval) (es := @nil serr) as ([vs es] & -> & Hvs); [|done|].
    + apply Forall_forall. intros ix _. apply (sa_String _ Hn); [done|by apply zero_typed|lia].
    + apply good_string_Ok, has_type_underlying. rewrite E. by constructor.
  - destruct (yaml_list s) as [l|] eqn:Ey; [|done]. apply Hc; [|done]. apply src_ok_list. by eapply yaml_list_ok.
Qed.

Lemma map_step_sound n m t v chk :
  sound_at n -> wf_type t = true -> is_ptr t = false -> underlying t <> TAny -> has_type t v ->
  Forall (fun kx => src_ok kx.2) m -> (7 * depth t + 1 <= S n)%nat ->
  good t (mapUnmarshalValidate (S n) (Some m) t v true chk).
Proof.
  intros Hn Hwf Hnp Hany Hv Hm Hneed. cbn [mapUnmarshalValidate].
  destruct (method_UnmarshalMap t) as [f|] eqn:Em.
  { pose proof (UnmarshalMap_typed t f m v Em Hv) as H. destruct (f m v). by apply good_Ok. }
  rewrite (dive_value t v true Hnp). cbn iota.
  assert (Hun : forall x, has_type t x -> has_type t (undive t x)) by (intros x Hx; by rewrite undive_value).
  assert (Hconv : forall x ft fv chk, src_ok x -> wf_type ft = true -> has_type ft fv -> (depth ft < depth t)%nat ->
            good ft (Convert n false x ft fv true chk)).
  { intros x ft fv chk' Hx Hft Hfv Hd. apply (sa_Convert _ Hn); try done. unfold need.
    assert (cost x <= 4)%nat by (destruct x; simpl; lia). lia. }
  assert (Hself : forall es, good t (Ok (v, es))) by (intros; by apply good_Ok).
  destruct (underlying t) as [| | | |nm| | |key elem|fs|] eqn:E; try apply Hself; [done|..].
  - apply wf_underlying in Hwf. by rewrite E in Hwf.
  - assert (Hwe := wf_underlying _ Hwf). rewrite <- (depth_underlying t), E in Hconv. rewrite E in Hwe. simpl in Hwe, Hconv.
    assert (He : Forall (fun kv => has_type elem kv.2) (map_entries v)).
    { apply has_type_underlying in Hv. rewrite E in Hv. inversion Hv; subst; simpl; [constructor|done]. }
    assert (Hput : forall ent es, Forall (fun kv => has_type elem kv.2) ent -> good t (Ok (undive t (VMap ent), es))).
    { intros ent es H. apply good_Ok, Hun, has_type_underlying. rewrite E. by constructor. }
    assert (Hgo : good t (if is_string key then
        '(entries, es) ← foldM (map_step (fun x slot => Convert n false x elem slot true true) elem) (map_entries v, []) m;
        Ok (undive t (VMap entries), es ++ ValidateWithCustomValidator t (VMap entries) true)
        else Ok (undive t (VMap (map_entries v)), err ErrUnsupportedConversion))).
    { destruct (is_string key); [|by apply Hput].
      destruct (map_loop_good elem (fun x slot => Convert n false x elem slot true true) m (map_entries v) [] Hwe)
        as ([ent es] & -> & Hent); [|done|by apply Hput].
      eapply Forall_impl; [exact Hm|]. intros kx Hx slot Hslot. apply Hconv; try done. lia. }
    destruct v; exact Hgo.
  - destruct (struct_loop_good t (fun x ft fv fset => Convert n false x ft fv fset
        (negb (hasValidateTag (initTypeKeyFieldIndexesMap t)))) m v [] Hwf) as (w & es & -> & Hw); [|done|by apply good_Ok, Hun].
    eapply Forall_impl; [exact Hm|]. intros kx Hx ft fv Hft Hd Hfv. by apply Hconv.
Qed.

Lemma sound n : sound_at n.
Proof.
  induction n as [|n IH]; [split; unfold need; intros; lia|].
  split; intros; [by apply Convert_step|by apply elem_step|by apply String_step|by apply string_elem_step|by apply map_step_sound].
Qed.

(** C19: decoding a map into a value of any type without interfaces that have
    methods returns, neither panicking nor looping, and leaves a value of that
    type in the destination, whatever the source holds and whether or not there
    were errors. *)
Theorem decode_well_typed n m t v :
  wf_type t = true -> is_ptr t = false -> underlying t <> TAny -> has_type t v ->
  Forall (fun kx => src_ok kx.2) m -> (7 * depth t + 1 <= n)%nat ->
  exists v' es, MapUnmarshalValidate n (Some m) t v = Ok (v', es) /\ has_type t v'.
Proof. intros. by apply (sa_map _ (sound n)). Qed.

(** ** Keys *)

(** Lower case, without underscores. *)
Definition normalize (s : bytes) : bytes := map lower_byte (filter (fun c => c <> "_"%char) s).

Lemma fnv_normalize s : fnv1IgnoreCaseSnake (normalize s) = fnv1IgnoreCaseSnake s.
Proof.
  unfold fnv1IgnoreCaseSnake, normalize. generalize offset32. induction s as [|c s IH]; intros h; [done|].
  rewrite filter_cons. destruct (decide (c <> "_"%char)) as [Hc|Hc]; simpl; rewrite IH; f_equal; unfold fnv_step.
  - unfold lower_byte. destruct (is_upper c) eqn:Eu.
    + assert (Hr := byteZ_range c). unfold is_upper in Eu. apply within_spec in Eu.
      destruct (Ascii.eqb c "_") eqn:E1; [by apply Ascii.eqb_eq in E1|].
      destruct (Ascii.eqb (zbyte (byteZ c + 32)) "_") eqn:E2.
      { apply Ascii.eqb_eq, (f_equal byteZ) in E2. rewrite byteZ_zbyte in E2 by lia. vm_compute (byteZ "_") in E2. lia. }
      unfold is_upper. rewrite byteZ_zbyte by lia. destruct (within 65 90 (byteZ c + 32)) eqn:E3; [apply within_spec in E3; lia|done].
    + by rewrite Eu.
  - assert (c = "_"%char) as -> by (destruct (decide (c = "_"%char)); [done|by destruct Hc]). done.
Qed.

Lemma getField_normalize info k k' : normalize k = normalize k' -> getField info k = getField info k'.
Proof. intros H. unfold getField. by rewrite <- (fnv_normalize k), H, fnv_normalize. Qed.

(** ** Flat structs *)

(** A field that is exported, decoded, not embedded and has no alias. *)
Definition plain (f : field) : bool :=
  negb (ignored f) && negb (fd_anonymous f) && bool_decide (fd_aliases f = []).

Fixpoint plain_info (i : nat) (fs : list (field * gtype)) (info : typeInfo) : typeInfo :=
  match fs with
  | [] => info
  | ft :: fs => plain_info (S i) fs (plain_field i ft.1 info)
  end.

Lemma info_underlying t : initTypeKeyFieldIndexesMap t = initTypeKeyFieldIndexesMap (underlying t).
Proof. by induction t. Qed.

Lemma flat_info fs :
  Forall (fun ft => plain ft.1 = true) fs -> initTypeKeyFieldIndexesMap (TStruct fs) = plain_info 0 fs empty_info.
Proof.
  cbn [initTypeKeyFieldIndexesMap]. generalize empty_info. generalize 0%nat.
  induction fs as [|[f ft] fs IH]; intros i info Hp; [done|]. apply Forall_cons in Hp as [Hf Hp].
  unfold plain in Hf. simpl in Hf. apply andb_true_iff in Hf as [[H1%negb_true_iff H2%negb_true_iff]%andb_true_iff _].
  rewrite H1, H2. by apply IH.
Qed.

Definition key_hash (ft : field * gtype) : Z := fnv1IgnoreCaseSnake (field_key ft.1).

Lemma plain_field_lookup i f info h :
  plain f = true ->
  keyFieldIndexes (plain_field i f info) !! h =
    if decide (h = fnv1IgnoreCaseSnake (field_key f)) then Some [i] else keyFieldIndexes info !! h.
Proof.
  unfold plain. rewrite !andb_true_iff. intros [_ Ha%bool_decide_eq_true]. unfold plain_field. rewrite Ha. simpl.
  destruct (decide _) as [->|Hn]; [by rewrite lookup_insert_eq|by rewrite lookup_insert_ne].
Qed.

Lemma plain_info_lookup fs : forall i info h,
  Forall (fun ft => plain ft.1 = true) fs -> h ∉ map key_hash fs ->
  keyFieldIndexes (plain_info i fs info) !! h = keyFieldIndexes info !! h.
Proof.
  induction fs as [|ft fs IH]; intros i info h Hp Hh; [done|]. apply Forall_cons in Hp as [Hf Hp].
  simpl in *. apply not_elem_of_cons in Hh as [Hne Hh]. rewrite IH by done. rewrite plain_field_lookup by done.
  by destruct (decide _).
Qed.

Lemma plain_info_field fs : forall i info j ft,
  Forall (fun ft => plain ft.1 = true) fs -> NoDup (map key_hash fs) -> fs !! j = Some ft ->
  keyFieldIndexes (plain_info i fs info) !! key_hash ft = Some [(i + j)%nat].
Proof.
  induction fs as [|x fs IH]; intros i info j ft Hp Hd Hj; [done|]. apply Forall_cons in Hp as [Hf Hp].
  simpl in *. apply NoDup_cons in Hd as [Hn Hd]. destruct j as [|j]; simpl in Hj.
  - injection Hj as ->. rewrite plain_info_lookup by done. rewrite plain_field_lookup by done.
    rewrite decide_True by done. by rewrite Nat.add_0_r.
  - rewrite (IH (S i) _ j ft) by done. by rewrite Nat.add_succ_comm.
Qed.

(** What a scalar source becomes in a field of the predeclared type of the same
    family: a string or boolean itself, an integer what is left of it at the
    field's width. *)
Definition scalar (x : sval) (t : gtype) (v : gval) : Prop :=
  match x, t with
  | SStr s, TString => v = VStr s
  | SBool b, TBool => v = VBool b
  | SInt (KInt sg' b') z, TNum (KInt sg b) =>
      v = VInt (wrap_kind (KInt sg b) z) /\ 0 < b /\ in_kind (KInt sg' b') z
  | _, _ => False
  end.

Lemma scalar_inj x t v v' : scalar x t v -> scalar x t v' -> v = v'.
Proof. destruct x as [| | |[]| | |], t as [| |[]| | | | | | |]; simpl; try done; naive_solver. Qed.

Lemma wrap_id sg b z : 0 < b -> in_kind (KInt sg b) z -> wrap_kind (KInt sg b) z = z.
Proof.
  intros Hb H. assert (E : 2 ^ b = 2 * 2 ^ (b - 1)) by (rewrite <- Z.pow_succ_r by lia; f_equal; lia).
  destruct sg; cbn [in_kind wrap_kind] in *; rewrite Z.mod_small; lia.
Qed.

Lemma convert_scalar n x t v old chk :
  scalar x t v -> (2 <= n)%nat -> Convert n false x t old true chk = Ok (v, []).
Proof.
  intros Hs Hn. destruct n as [|[|n]]; [lia..|].
  destruct x as [|b|s|[sg b|] z| | |], t as [| |[sg' b'|]| | | | | | |]; try done; cbn [scalar] in Hs.
  - subst. by destruct b.
  - subst. by destruct s.
  - destruct Hs as (-> & Hb & Hk). cbn [Convert]. cbn [src_IsZero]. destruct (z =? 0) eqn:Ez.
    + apply Z.eqb_eq in Ez. subst. assert (0 < 2 ^ (b' - 1)) by (apply Z.pow_pos_nonneg; lia).
      rewrite wrap_id; [done|done|]. destruct sg'; cbn [in_kind]; [lia|]. split; [lia|]. apply Z.pow_pos_nonneg; lia.
    + cbn [underlying convert_elem assignable]. case_bool_decide as Ek.
      { injection Ek as -> ->. by rewrite wrap_id. }
      cbn [is_src_num]. rewrite numeric_num. reflexivity.
Qed.

Lemma list_insert_lookup_case {A} (l : list A) i j x : (i < length l)%nat ->
  <[i := x]> l !! j = if decide (j = i) then Some x else l !! j.
Proof.
  intros H. destruct (decide (j = i)) as [->|Hn]; [by apply list_lookup_insert_eq|by apply list_lookup_insert_ne].
Qed.

(** What the loop over the entries reports: the keys that are no field's, each
    with the field that is nearest. *)
Definition unknown_keys (t : gtype) (entries : list (bytes * sval)) : list serr :=
  concat (map (fun kx => match getField (initTypeKeyFieldIndexesMap t) kx.1 with
                         | Some _ => []
                         | None => with_subject (Key kx.1)
                             (err (ErrUnknownField (NearestField kx.1 (fieldNames (initTypeKeyFieldIndexesMap t)))))
                         end) entries).

Lemma concat_cons {A} (l : list A) ls : concat (l :: ls) = l ++ concat ls.
Proof. done. Qed.

Section FlatStruct.

Context (t : gtype) (fs : list (field * gtype)).
Context (Ht : underlying t = TStruct fs) (Hplain : Forall (fun ft => plain ft.1 = true) fs) (Hdistinct : NoDup (map key_hash fs)).

Abbreviation key e := (fnv1IgnoreCaseSnake (fst e)) (only parsing).

Lemma flat_getField k :
  match getField (initTypeKeyFieldIndexesMap t) k with
  | Some path => exists i f ft, path = [i] /\ fs !! i = Some (f, ft) /\ fnv1IgnoreCaseSnake k = key_hash (f, ft)
  | None => fnv1IgnoreCaseSnake k ∉ map key_hash fs
  end.
Proof.
  unfold getField. rewrite info_underlying, Ht, flat_info by done.
  destruct (decide (fnv1IgnoreCaseSnake k ∈ map key_hash fs)) as [Hin|Hn].
  - apply list_elem_of_fmap in Hin as ([f ft] & Hk & Hin). apply list_elem_of_lookup in Hin as [i Hi].
    rewrite Hk, (plain_info_field fs 0 empty_info i (f, ft)) by done. eauto 8.
  - rewrite plain_info_lookup by done. done.
Qed.

Lemma flat_field_unique i j f ft f' ft' :
  fs !! i = Some (f, ft) -> fs !! j = Some (f', ft') -> key_hash (f, ft) = key_hash (f', ft') -> i = j.
Proof.
  intros Hi Hj Hk. eapply (NoDup_lookup (map key_hash fs)); [done| |].
  - by rewrite list_lookup_fmap, Hi.
  - rewrite list_lookup_fmap, Hj, Hk. done.
Qed.

(** The loop over the entries of a flat struct. *)
Lemma flat_loop n chk entries : forall vs es,
  (2 <= n)%nat -> length vs = length fs -> NoDup (map (fun e => key e) entries) ->
  (forall k x i f ft, (k, x) ∈ entries -> fs !! i = Some (f, ft) -> fnv1IgnoreCaseSnake k = key_hash (f, ft) ->
     exists v, scalar x ft v) ->
  exists vs', foldM (struct_step (fun x ft fv fset => Convert n false x ft fv fset chk) (initTypeKeyFieldIndexesMap t) t true)
      (VStruct vs, es) entries = Ok (VStruct vs', es ++ unknown_keys t entries)
    /\ (forall k x i f ft v, (k, x) ∈ entries -> fs !! i = Some (f, ft) -> fnv1IgnoreCaseSnake k = key_hash (f, ft) ->
          scalar x ft v -> vs' !! i = Some v)
    /\ (forall i f ft, fs !! i = Some (f, ft) -> key_hash (f, ft) ∉ map (fun e => key e) entries -> vs' !! i = vs !! i).
Proof.
  induction entries as [|[k x] entries IH]; intros vs es Hn Hlen Hnd Hent.
  { exists vs. unfold unknown_keys. simpl. rewrite app_nil_r. split; [done|]. split; [|done]. intros * Hin. by apply not_elem_of_nil in Hin. }
  cbn [map] in Hnd. apply NoDup_cons in Hnd as [Hk Hnd].
  assert (Hent' : forall k x i f ft, (k, x) ∈ entries -> fs !! i = Some (f, ft) ->
            fnv1IgnoreCaseSnake k = key_hash (f, ft) -> exists v, scalar x ft v).
  { intros k' x' i f ft Hin. apply (Hent k' x'). by right. }
  pose proof (flat_getField k) as Hg. cbn [foldM struct_step].
  unfold unknown_keys in *. cbn [map fst]. rewrite concat_cons.
  destruct (getField _ k) as [path|] eqn:Eg.
  - destruct Hg as (i & f & ft & -> & Hi & Hki).
    destruct (Hent k x i f ft) as [v Hs]; [by left|done..|].
    destruct (lookup_lt_is_Some_2 vs i) as [old Eold]; [rewrite Hlen; by eapply lookup_lt_Some|].
    cbn [at_path]. rewrite Ht, Hi, Eold. rewrite (convert_scalar n x ft v old chk Hs) by lia. cbn [mbind result_bind].
    destruct (IH (<[i := v]> vs) (es ++ with_subject (Key k) [])) as (vs' & E & H1 & H2); [done|by rewrite length_insert|done..|].
    exists vs'. rewrite E. split; [by rewrite app_nil_r|]. split.
    + intros k' x' i' f' ft' v' [[= -> ->]|Hin]%elem_of_cons Hi' Hk' Hs'; [|by eapply H1].
      assert (i' = i) as -> by (eapply flat_field_unique; [done..|congruence]). simplify_eq.
      rewrite (H2 i f ft Hi); [|by rewrite <- Hki].
      rewrite list_lookup_insert_eq by (by eapply lookup_lt_Some). f_equal. by eapply scalar_inj.
    + intros j f' ft' Hj Hnk. cbn [map] in Hnk. apply not_elem_of_cons in Hnk as [Hne Hnk].
      rewrite (H2 j f' ft' Hj Hnk). rewrite list_lookup_insert_ne; [done|]. intros ->. by simplify_eq.
  - destruct (IH vs (es ++ with_subject (Key k) (err (ErrUnknownField (NearestField k (fieldNames (initTypeKeyFieldIndexesMap t)))))))
      as (vs' & E & H1 & H2); [done..|].
    exists vs'. cbn [mbind result_bind]. rewrite E. split; [by rewrite <- app_assoc|]. split.
    + intros k' x' i' f' ft' v' [[= -> ->]|Hin]%elem_of_cons Hi' Hk' Hs'; [|by eapply H1].
      destruct Hg. rewrite Hk'. apply list_elem_of_fmap. exists (f', ft'). split; [done|]. by eapply list_elem_of_lookup_2.
    + intros j f' ft' Hj Hnk. apply (H2 j f' ft' Hj). cbn [map] in Hnk. by apply not_elem_of_cons in Hnk as [_ Hnk].
Qed.

End FlatStruct.

(** C22: decoding a map into a struct (named or not) whose fields are all
    exported, decoded, neither embedded nor aliased and of different key hashes,
    and which has no map decoder of its own. The keys of the map have different
    hashes, and what they give for a field is a string for a string, a boolean
    for a boolean or an integer for an integer field (the conversions between
    these and the nested types are not in this property). Then every field a key
    names, written in any case and with or without underscores, is set to the
    given value, an integer reduced to the width of the field without an error;
    the other fields stay as they were; and what is reported is exactly the keys
    that have the hash of no field, each with a suggestion, and what the
    validators say of the result. *)
Theorem decode_fields n t fs vs entries :
  underlying t = TStruct fs -> Forall (fun ft => plain ft.1 = true) fs -> NoDup (map key_hash fs) ->
  length vs = length fs -> method_UnmarshalMap t = None -> (3 <= n)%nat ->
  NoDup (map (fun e => fnv1IgnoreCaseSnake e.1) entries) ->
  (forall k x i f ft, (k, x) ∈ entries -> fs !! i = Some (f, ft) -> fnv1IgnoreCaseSnake k = key_hash (f, ft) ->
     exists v, scalar x ft v) ->
  exists vs', MapUnmarshalValidate n (Some entries) t (VStruct vs)
      = Ok (VStruct vs',
            unknown_keys t entries
            ++ (if hasValidateTag (initTypeKeyFieldIndexesMap t) then ValidateWithFieldTags t (VStruct vs') else [])
            ++ ValidateWithCustomValidator t (VStruct vs') true)
    /\ (forall k x i f ft v, (k, x) ∈ entries -> fs !! i = Some (f, ft) -> normalize k = normalize (field_key f) ->
          scalar x ft v -> vs' !! i = Some v)
    /\ (forall i f ft, fs !! i = Some (f, ft) -> key_hash (f, ft) ∉ map (fun e => fnv1IgnoreCaseSnake e.1) entries ->
          vs' !! i = vs !! i).
Proof.
  intros Ht Hp Hnd Hlen Hun Hn Hk Hent. destruct n as [|n]; [lia|].
  assert (Hnp : is_ptr t = false) by (unfold is_ptr; by rewrite Ht).
  destruct (flat_loop t fs Ht Hp Hnd n (negb (hasValidateTag (initTypeKeyFieldIndexesMap t))) entries vs [])
    as (vs' & E & H1 & H2); [lia|done..|].
  exists vs'. split; [|split; [|exact H2]].
  - unfold MapUnmarshalValidate. cbn [mapUnmarshalValidate]. rewrite Hun, (dive_value t _ true Hnp). cbv beta iota. rewrite Ht.
    cbv zeta. rewrite E. cbn [mbind result_bind]. by rewrite undive_value, andb_true_r, <- app_assoc by done.
  - intros k x i f ft v Hin Hi Hkf Hs. apply (H1 k x i f ft v Hin Hi); [|done].
    unfold key_hash. cbn [fst]. by rewrite <- (fnv_normalize k), Hkf, fnv_normalize.
Qed.

End Soundness.

(** ** Environment variables in documents *)

Section Environment.

Context `{SL : SerLib}.

(** A document as plain text and references. *)
Inductive segment := Text (s : bytes) | Var (name : bytes).

Definition seg_ok (g : segment) : Prop :=
  match g with
  | Text s => dollar ∉ s
  | Var name => name <> [] /\ "}"%char ∉ name
  end.

Definition render_seg (g : segment) : bytes :=
  match g with Text s => s | Var name => B "${" ++ name ++ B "}" end.

Definition render (gs : list segment) : bytes := concat (map render_seg gs).

Definition expand (gs : list segment) : bytes :=
  concat (map (fun g => match g with Text s => s | Var name => Quote (default [] (LookupEnv name)) end) gs).

Definition missing (gs : list segment) : list bytes :=
  flat_map (fun g => match g with Text _ => [] | Var name => match LookupEnv name with Some _ => [] | None => [name] end end) gs.

Lemma env_match_var name rest :
  name <> [] -> "}"%char ∉ name -> env_match (B "${" ++ name ++ "}"%char :: rest) = Some (name, rest).
Proof.
  intros Hn Hc. cbn [env_match B String.list_ascii_of_string app].
  rewrite IndexByte_first by done. destruct name as [|c name]; [done|]. simpl length. cbn iota.
  f_equal. f_equal.
  - by rewrite (take_app_exact (c :: name)).
  - change (S (S (length name))) with (S (length (c :: name))). rewrite <- (Nat.add_1_r (length (c :: name))).
    rewrite <- drop_drop. by rewrite drop_app_length.
Qed.

Lemma env_match_text c s : c <> dollar -> env_match (c :: s) = None.
Proof. intros H. destruct c as [[] [] [] [] [] [] [] []]; try done. Qed.

Lemma substitute_text t : forall n s, dollar ∉ t -> (length t <= n)%nat ->
  substitute n (t ++ s) = let '(out, es) := substitute (n - length t) s in (t ++ out, es).
Proof.
  induction t as [|c t IH]; intros n s Ht Hn; simpl in *.
  - rewrite Nat.sub_0_r. by destruct (substitute n s).
  - destruct n as [|n]; [lia|]. apply not_elem_of_cons in Ht as [Hc Ht]. cbn [substitute].
    rewrite env_match_text by done. rewrite IH by (done || lia). simpl. by destruct (substitute _ s).
Qed.

Lemma substitute_render gs : forall n, Forall seg_ok gs -> (length (render gs) <= n)%nat ->
  substitute n (render gs) = (expand gs, missing gs).
Proof.
  induction gs as [|g gs IH]; intros n Hok Hn; [by destruct n|]. apply Forall_cons in Hok as [Hg Hok].
  unfold render, expand, missing in *. simpl in *. fold (render gs) in *. rewrite length_app in Hn.
  destruct g as [t|name]; simpl in *.
  - rewrite substitute_text by (done || lia). by rewrite IH by (done || lia).
  - destruct Hg as [Hne Hc]. rewrite !length_app in Hn. destruct n as [|n]; [simpl in Hn; lia|].
    pose proof (env_match_var name (render gs) Hne Hc) as Em.
    rewrite <- app_assoc. cbn [B String.list_ascii_of_string app] in *. cbn [substitute]. rewrite Em, IH by (done || (simpl in Hn; lia)).
    by destruct (LookupEnv name).
Qed.

(** every reference of a document is replaced by its quoted value and the
    rest of the text is kept; with variables that are not set the document is
    refused and all of them are named. *)
Theorem substituteEnv_exact gs :
  Forall seg_ok gs ->
  substituteEnv (render gs) =
    match missing gs with
    | [] => inl (expand gs)
    | names => inr (flat_map (fun name => err (ErrWrapped (name ++ B " is not set"))) names)
    end.
Proof. intros H. unfold substituteEnv. rewrite substitute_render by done. by destruct (missing gs). Qed.

End Environment.

(** ** Concrete libraries and cases *)

Module SerDemo.

Definition in_kind_b (k : numkind) (z : Z) : bool :=
  match k with
  | KInt true b => (- 2 ^ (b - 1) <=? z) && (z <? 2 ^ (b - 1))
  | KInt false b => (0 <=? z) && (z <? 2 ^ b)
  | KFloat => false
  end.

#[local] Instance demo_ser : SerLib := {
  ReflectIsNumeric t := match underlying t with TNum _ => true | _ => false end;
  ReflectToStr s := match s with SInt _ z => Itoa z | _ => [] end;
  ReflectStrToNumBool t s :=
    match underlying t with
    | TBool => if bool_decide (s = B "true") then Some (VBool true) else None
    | TNum (KInt sg b) => z ← Atoi s; if in_kind_b (KInt sg b) z then Some (VInt z) else None
    | _ => None
    end;
  ReflectStrMapAssign t o := default (zero t) o;
  CommaSeperatedList s := Split s ",";
  LevenshteinDistance a b := Z.abs (Z.of_nat (length a) - Z.of_nat (length b));
  LookupEnv name := if bool_decide (name = B "TOKEN") then Some (B "s3cret") else None;
  Quote s := "034"%char :: s ++ ["034"%char];
  ParseDuration s := if bool_decide (s = B "5s") then Some (5 * Second) else None;
  float_IsZero f := f =? 0;
  float_of_int z := z;
  int_of_float _ f := f;
  yaml_list s := Some (map SStr (Split s newline));
  yaml_map s := Some [];
  validate_Struct _ _ := [];
  method_UnmarshalMap _ := None;
  method_Parse _ := None;
  method_Validate _ := None;
  defaultValues _ := None
}.

#[local] Instance demo_ser_laws : SerLaws.
Proof.
  split; try done.
  - intros t H. simpl in H. destruct (underlying t); try done. eauto.
  - intros t s v H. apply has_type_underlying. simpl in H.
    destruct (underlying t) as [| |[sg b|]| | | | | | |]; try done.
    + case_bool_decide; [|done]. simplify_eq. constructor.
    + destruct (Atoi s) as [z|]; [|done]. simpl in H.
      destruct sg; (match type of H with (if ?b then _ else _) = _ => destruct b eqn:E end); simplify_eq; constructor; simpl; lia.
  - intros t [v|] H Hwf; simpl; [by apply H|by apply zero_typed].
  - intros s d. simpl. case_bool_decide; [|done]. intros [= <-]. unfold in_kind. vm_compute. split; congruence.
  - intros s l [= <-]. apply Forall_map, Forall_true. done.
  - intros s m [= <-]. constructor.
Qed.

Definition mk_field (name json : bytes) : field :=
  {| fd_Name := name; fd_json := json; fd_deserialize := []; fd_aliases := []; fd_validate := false;
     fd_exported := true; fd_anonymous := false |}.

Definition int_t : gtype := TNum (KInt true 64).
Definition uint16_t : gtype := TNum (KInt false 16).

(** struct { Host string; HTTPPort int `json:"http_port"`; Bind string; Weight uint16; Items []Item } *)
Definition item_t : gtype := TNamed (B "Item") (TStruct [(mk_field "Name" [], TString); (mk_field "Size" [], int_t)]).

Definition server_fields : list (field * gtype) :=
  [(mk_field "Host" [], TString); (mk_field "HTTPPort" (B "http_port,omitempty"), int_t);
   (mk_field "Bind" [], TString); (mk_field "Weight" [], uint16_t); (mk_field "Items" [], TSlice (TPtr item_t))].

Definition server_t : gtype := TStruct server_fields.

Definition decode (m : list (bytes * sval)) : result unit (gval * list serr) :=
  MapUnmarshalValidate 64 (Some m) server_t (zero server_t).

Definition server_src : list (bytes * sval) :=
  [(B "HOST", SStr (B "a")); (B "HttpPort", SInt (KInt false 64) 8080); (B "weight", SStr (B "7"));
   (B "items", SList [SMap [(B "name", SStr (B "x"))]; SNil]); (B "bnd", SBool true)].

Lemma decode_well_typed_witness :
  decode server_src = Ok (VStruct [VStr (B "a"); VInt 8080; VStr []; VInt 7;
                                   VSlice [VPtr (VStruct [VStr (B "x"); VInt 0]); VPtr (VStruct [VStr []; VInt 0])]],
                          [{| se_path := [Key (B "bnd")]; se_kind := ErrUnknownField (B "Host") |}])
  /\ exists v' es, decode server_src = Ok (v', es) /\ has_type server_t v'.
Proof.
  split; [vm_compute; reflexivity|].
  apply decode_well_typed; [vm_compute; reflexivity|reflexivity|discriminate|apply zero_typed; vm_compute; reflexivity| |vm_compute; lia].
  repeat (constructor; [vm_compute; try (split; try split; congruence); try exact I; repeat split|]). constructor.
Defined.

Definition server_vals : list gval := [VStr []; VInt 1; VStr (B "eth0"); VInt 2; VNil].

Definition server_entries : list (bytes * sval) :=
  [(B "Http_Port", SInt (KInt false 64) 80); (B "host", SStr (B "b")); (B "bnd", SBool true);
   (B "WEIGHT", SInt (KInt false 64) 70000)].

(** Port 80 by a key of another spelling, a weight that does not fit, a typing
    error, and a field that is not named. *)
Lemma decode_fields_witness :
  exists vs', MapUnmarshalValidate 5 (Some server_entries) server_t (VStruct server_vals)
      = Ok (VStruct vs', [{| se_path := [Key (B "bnd")]; se_kind := ErrUnknownField (B "Host") |}])
    /\ vs' !! 1%nat = Some (VInt 80) /\ vs' !! 2%nat = Some (VStr (B "eth0")) /\ vs' !! 3%nat = Some (VInt 4464).
Proof.
  destruct (decode_fields 5 server_t server_fields server_vals server_entries) as (vs' & E & H1 & H2).
  - reflexivity.
  - repeat (constructor; [vm_compute; reflexivity|]). constructor.
  - apply (bool_decide_eq_true_1 (NoDup _)). vm_compute. reflexivity.
  - reflexivity.
  - reflexivity.
  - lia.
  - apply (bool_decide_eq_true_1 (NoDup _)). vm_compute. reflexivity.
  - intros k x i f ft Hin Hi Hk.
    repeat (apply elem_of_cons in Hin as [[= -> ->]|Hin]; [
      destruct i as [|[|[|[|[|]]]]]; simpl in Hi; simplify_eq; vm_compute in Hk; try discriminate Hk;
      eexists; (reflexivity || (vm_compute; repeat split; congruence))|]).
    by apply not_elem_of_nil in Hin.
  - exists vs'. split; [exact E|]. split; [|split].
    + apply (H1 (B "Http_Port") (SInt (KInt false 64) 80) 1%nat (mk_field "HTTPPort" (B "http_port,omitempty")) int_t);
        [left|reflexivity|vm_compute; reflexivity|vm_compute; repeat split; congruence].
    + rewrite (H2 2%nat (mk_field "Bind" []) TString); [reflexivity..|].
      apply (bool_decide_eq_true_1 (_ ∉ _)). vm_compute. reflexivity.
    + apply (H1 (B "WEIGHT") (SInt (KInt false 64) 70000) 3%nat (mk_field "Weight" []) uint16_t);
        [do 3 right; left|reflexivity|vm_compute; reflexivity|vm_compute; repeat split; congruence].
Defined.

Definition token_document : list segment := [Text (B "token: "); Var (B "TOKEN")].

Lemma substituteEnv_exact_witness :
  substituteEnv (render token_document) = inl (B "token: " ++ Quote (B "s3cret"))
  /\ is_Some (head (missing [Var (B "HOME")])).
Proof.
  split; [|vm_compute; eauto].
  rewrite (substituteEnv_exact token_document); [vm_compute; reflexivity|].
  constructor; [|constructor; [|constructor]].
  - apply (bool_decide_eq_true_1 (_ ∉ _)). vm_compute. reflexivity.
  - split; [discriminate|]. apply (bool_decide_eq_true_1 (_ ∉ _)). vm_compute. reflexivity.
Defined.

(** A map for a field of an interface type: NumField of a type that is no struct. *)
Definition widget_t : gtype :=
  TStruct [(mk_field "Provider" (B "provider"), TString); (mk_field "Config" (B "config"), TIface (B "widgets.Widget"))].

Example interface_field_panics :
  MapUnmarshalValidate 64 (Some [(B "provider", SStr (B "qbittorrent")); (B "config", SMap [(B "url", SStr (B "x"))])])
    widget_t (zero widget_t) = Panic ExplicitPanic.
Proof. vm_compute. reflexivity. Qed.

(** A number that does not fit its field is cut off without an error. *)
Example number_wraps :
  decode [(B "weight", SInt (KInt false 64) 70000)]
  = Ok (VStruct [VStr []; VInt 0; VStr []; VInt 4464; VNil], []).
Proof. vm_compute. reflexivity. Qed.

(** What a failed element had set stays for the next one. *)
Example failed_element_leaks :
  decode [(B "items", SList [SMap [(B "name", SStr (B "x")); (B "size", SStr (B "big"))]; SMap [(B "size", SInt (KInt true 64) 2)]])]
  = Ok (VStruct [VStr []; VInt 0; VStr []; VInt 0; VSlice [VPtr (VStruct [VStr (B "x"); VInt 2])]],
        [{| se_path := [Key (B "items"); Idx 0; Key (B "size")]; se_kind := ErrWrapped (B "big") |}]).
Proof. vm_compute. reflexivity. Qed.

(** Keys are compared by a hash of 32 bits only. *)
Example hash_collision : decode [(B "lixunbc", SStr (B "eth0"))] = decode [(B "bind", SStr (B "eth0"))].
Proof. vm_compute. reflexivity. Qed.

(** A failed entry stays in the map, with a zero value. *)
Example failed_entry_stays :
  MapUnmarshalValidate 64 (Some [(B "a", SStr (B "x"))]) (TMap TString int_t) (VMap [])
  = Ok (VMap [(B "a", VInt 0)], [{| se_path := [Key (B "a")]; se_kind := ErrWrapped (B "x") |}]).
Proof. vm_compute. reflexivity. Qed.

End SerDemo.
