(* ===== verification/Notif.v ===== *)
(** * Notifications

    Models internal/notif: message bodies and their formats (body.go, color.go),
    the providers (base.go, gotify.go, ntfy.go, webhook.go, config.go), the
    request made of a message (providers.go) and the dispatcher with its retries
    (dispatcher.go, retry_message.go) as a machine whose events are the steps of
    its goroutines.  JSON, the formats of errors and the HTTP client are
    parameters; a message and a provider are known by their pointers. *)

From S2P Require Import Prelude GoStrings RulesHTTP.

(** ** Messages *)

Inductive Level := TraceLevel | DebugLevel | InfoLevel | WarnLevel | ErrorLevel | FatalLevel | PanicLevel | NoLevel.

#[export] Instance Level_eq_dec : EqDecision Level.
Proof. solve_decision. Defined.

Record LogField := { lf_Name : bytes; lf_Value : bytes }.

Inductive LogBody :=
  | FieldsBody (l : list LogField)
  | ListBody (l : list bytes)
  | MessageBody (s : bytes)
  | MessageBodyBytes (s : bytes)
  | errorBody (err : bytes).

Record LogMessage := {
  lm_id : nat;                    (* the pointer *)
  lm_Level : Level;
  lm_Title : bytes;
  lm_Body : LogBody;
  lm_Color : Z;
  lm_To : list bytes
}.

Definition LogFormatMarkdown : bytes := B "markdown".
Definition LogFormatPlain : bytes := B "plain".
Definition LogFormatRawJSON : bytes := B "json".

(** JSON encoders (sonic), the printers of gperr, JSON validity and [url.Parse]
    followed by [String]. *)
Class NotifLib := {
  json_fields : list LogField -> option bytes;
  json_list : list bytes -> option bytes;
  json_string : bytes -> option bytes;
  json_error : bytes -> option bytes;
  json_gotify : bytes -> bytes -> Z -> bool -> option bytes;   (* title, message, priority, markdown *)
  gperr_Plain : bytes -> bytes;
  gperr_Markdown : bytes -> bytes;
  json_Valid : bytes -> bool;
  url_normal : bytes -> option bytes;
  discordPayload : bytes
}.

Definition nl : ascii := "010"%char.

(** The separator is a newline: strings.Join. *)
Definition join_lines (l : list bytes) : bytes := Join l nl.

Section Format.

Context `{NL : NotifLib}.

Definition fields_markdown (f : list LogField) : bytes :=
  flat_map (fun x => B "#### " ++ lf_Name x ++ [nl] ++ lf_Value x ++ [nl]) f.

Definition fields_plain (f : list LogField) : bytes :=
  flat_map (fun x => lf_Name x ++ B ": " ++ lf_Value x ++ [nl]) f.

Definition list_markdown (l : list bytes) : bytes := flat_map (fun x => B "* " ++ x ++ [nl]) l.

(** [Format] of every body; [None] is an error of the encoder. *)
Definition Format (b : LogBody) (format : bytes) : option bytes :=
  let same f := bool_decide (format = f) in
  match b with
  | FieldsBody f =>
      if same LogFormatMarkdown then Some (fields_markdown f)
      else if same LogFormatPlain then Some (fields_plain f)
      else if same LogFormatRawJSON then json_fields f
      else Some (fields_markdown f)
  | ListBody l =>
      if same LogFormatPlain then Some (join_lines l)
      else if same LogFormatMarkdown then Some (list_markdown l)
      else if same LogFormatRawJSON then json_list l
      else Some (list_markdown l)
  | MessageBody m =>
      if same LogFormatPlain || same LogFormatMarkdown then Some m
      else if same LogFormatRawJSON then json_string m else Some m
  | MessageBodyBytes m => if same LogFormatRawJSON then json_string m else Some m
  | errorBody e =>
      if same LogFormatRawJSON then json_error e
      else if same LogFormatPlain then Some (gperr_Plain e)
      else if same LogFormatMarkdown then Some (gperr_Markdown e)
      else Some (gperr_Markdown e)
  end.

End Format.

(** ** color.go *)

Definition ColorError : Z := 0xff0000.
Definition ColorSuccess : Z := 0x00ff00.
Definition ColorInfo : Z := 0x0000ff.

Definition hex_char (d : Z) : ascii := if d <? 10 then zbyte (48 + d) else zbyte (87 + d).

(** fmt's %x of an unsigned number: no leading zeros. *)
Fixpoint hex_digits (fuel : nat) (n : Z) (acc : bytes) : bytes :=
  match fuel with
  | O => acc
  | S fuel => if n <? 16 then hex_char n :: acc else hex_digits fuel (n / 16) (hex_char (n mod 16) :: acc)
  end.

Definition HexString (c : Z) : bytes := "#"%char :: hex_digits 16 c [].
Definition DecString (c : Z) : bytes := format_uint c.

(** ** Providers *)

Record ProviderBase := { pb_Name : bytes; pb_URL : bytes; pb_Token : bytes; pb_Format : bytes }.

Record Webhook := {
  wh_Template : bytes;
  wh_Payload : bytes;
  wh_Method : bytes;
  wh_MIMEType : bytes;
  wh_ColorMode : bytes
}.

Inductive kind := GotifyClient | Ntfy (topic : bytes) | WebhookKind (w : Webhook).

(** A provider and its identity. *)
Record Provider := { p_id : nat; p_base : ProviderBase; p_kind : kind }.

Inductive notif_error :=
  | ErrInvalidFormat | ErrURLMissingScheme | ErrParseURL | ErrMissingToken | ErrURLRequired | ErrTopicRequired
  | ErrTopicSlash | ErrMIMEType | ErrPayloadJSON | ErrPayloadEmpty | ErrTemplate | ErrMethod | ErrColorMode
  | ErrMissingNotifProvider | ErrInvalidNotifProviderType | ErrUnknownNotifProvider.

Definition MimeTypeJSON : bytes := B "application/json".
Definition MimeTypeForm : bytes := B "application/x-www-form-urlencoded".
Definition MimeTypeText : bytes := B "text/plain".

(** [strings.NewReplacer(...).Replace]: at each position the first pair whose
    old string matches, in the order of the arguments. *)
Definition first_pair (pairs : list (bytes * bytes)) (s : bytes) : option (bytes * bytes) :=
  find (fun p => HasPrefix s p.1) pairs.

Fixpoint replace_all (fuel : nat) (pairs : list (bytes * bytes)) (s : bytes) : bytes :=
  match fuel with
  | O => s
  | S fuel =>
      match s with
      | [] => []
      | c :: s' =>
          match first_pair pairs s with
          | Some (old, new) => new ++ replace_all fuel pairs (drop (length old) s)
          | None => c :: replace_all fuel pairs s'
          end
      end
  end.

Definition Replace (pairs : list (bytes * bytes)) (s : bytes) : bytes := replace_all (length s) pairs s.

Section Providers.

Context `{NL : NotifLib}.

(** [ProviderBase.Validate]: the base with its defaults, or the error. *)
Definition base_Validate (b : ProviderBase) : notif_error + ProviderBase :=
  let fmt :=
    match pb_Format b with
    | [] => Some LogFormatMarkdown
    | f => if bool_decide (f = LogFormatPlain) || bool_decide (f = LogFormatMarkdown) then Some f else None
    end in
  match fmt with
  | None => inl ErrInvalidFormat
  | Some f =>
      if negb (HasPrefix (pb_URL b) "http://") && negb (HasPrefix (pb_URL b) "https://") then inl ErrURLMissingScheme
      else
        match url_normal (pb_URL b) with
        | None => inl ErrParseURL
        | Some u => inr {| pb_Name := pb_Name b; pb_URL := u; pb_Token := pb_Token b; pb_Format := f |}
        end
  end.

(** The payload with every placeholder filled in. *)
Definition validateJSONPayload (payload : bytes) : bool :=
  let quotes := ["034"%char; "034"%char] in
  json_Valid (Replace [(B "$title", quotes); (B "$message", quotes); (B "$fields", quotes); (B "$color", [])] payload).

Definition webhook_Validate (w : Webhook) : notif_error + Webhook :=
  let mime :=
    match wh_MIMEType w with
    | [] => Some MimeTypeJSON
    | m => if bool_decide (m ∈ [MimeTypeJSON; MimeTypeForm; MimeTypeText]) then Some m else None
    end in
  match mime with
  | None => inl ErrMIMEType
  | Some mime =>
      let templated : notif_error + Webhook :=
        if bool_decide (wh_Template w = []) then
          if bool_decide (mime = MimeTypeJSON) && negb (validateJSONPayload (wh_Payload w)) then inl ErrPayloadJSON
          else if bool_decide (wh_Payload w = []) then inl ErrPayloadEmpty
          else inr {| wh_Template := wh_Template w; wh_Payload := wh_Payload w; wh_Method := wh_Method w;
                      wh_MIMEType := mime; wh_ColorMode := wh_ColorMode w |}
        else if bool_decide (wh_Template w = B "discord") then
          inr {| wh_Template := wh_Template w;
                 wh_Payload := match wh_Payload w with [] => discordPayload | p => p end;
                 wh_Method := B "POST"; wh_MIMEType := MimeTypeJSON; wh_ColorMode := B "dec" |}
        else inl ErrTemplate in
      match templated with
      | inl e => inl e
      | inr w =>
          let method :=
            match wh_Method w with
            | [] => Some (B "POST")
            | m => if bool_decide (m ∈ [B "GET"; B "POST"; B "PUT"]) then Some m else None
            end in
          let color :=
            match wh_ColorMode w with
            | [] => Some (B "hex")
            | c => if bool_decide (c ∈ [B "hex"; B "dec"]) then Some c else None
            end in
          match method, color with
          | None, _ => inl ErrMethod
          | Some _, None => inl ErrColorMode
          | Some m, Some c =>
              inr {| wh_Template := wh_Template w; wh_Payload := wh_Payload w; wh_Method := m;
                     wh_MIMEType := wh_MIMEType w; wh_ColorMode := c |}
          end
      end
  end.

(** [Validate] of the three providers. *)
Definition Validate (p : Provider) : notif_error + Provider :=
  match base_Validate (p_base p) with
  | inl e => inl e
  | inr b =>
      let ok k := inr {| p_id := p_id p; p_base := b; p_kind := k |} in
      match p_kind p with
      | GotifyClient => if bool_decide (pb_Token b = []) then inl ErrMissingToken else ok GotifyClient
      | Ntfy topic =>
          if bool_decide (pb_URL b = []) then inl ErrURLRequired
          else match topic with
               | [] => inl ErrTopicRequired
               | c :: _ => if Ascii.eqb c "/" then inl ErrTopicSlash else ok (Ntfy topic)
               end
      | WebhookKind w => match webhook_Validate w with inl e => inl e | inr w => ok (WebhookKind w) end
      end
  end.

(** [NotificationConfig.UnmarshalMap] up to the decoding: the provider named by
    the field, when it is a string. *)
Definition notification_provider (provider : option bytes) : notif_error + bytes :=
  match provider with
  | None => inl ErrInvalidNotifProviderType
  | Some [] => inl ErrMissingNotifProvider
  | Some name =>
      if bool_decide (name ∈ [B "webhook"; B "gotify"; B "ntfy"]) then inr name else inl ErrUnknownNotifProvider
  end.

Definition GetURL (p : Provider) : bytes :=
  let u := pb_URL (p_base p) in
  match p_kind p with
  | GotifyClient => u ++ B "/message"
  | Ntfy topic => if bool_decide (last u = Some "/"%char) then u ++ topic else u ++ "/"%char :: topic
  | WebhookKind _ => u
  end.

Definition GetMethod (p : Provider) : bytes :=
  match p_kind p with WebhookKind w => wh_Method w | _ => B "POST" end.

Definition GetMIMEType (p : Provider) : bytes :=
  match p_kind p with
  | GotifyClient => MimeTypeJSON
  | Ntfy _ => []
  | WebhookKind w => wh_MIMEType w
  end.

Definition gotify_priority (l : Level) : Z :=
  match l with
  | WarnLevel => 2
  | ErrorLevel => 5
  | FatalLevel | PanicLevel => 8
  | _ => 0
  end.

Definition webhook_MarshalMessage (w : Webhook) (m : LogMessage) : option bytes :=
  title ← json_string (lm_Title m);
  fields ← Format (lm_Body m) LogFormatRawJSON;
  let color := if bool_decide (wh_ColorMode w = B "hex") then HexString (lm_Color m) else DecString (lm_Color m) in
  message ← Format (lm_Body m) LogFormatMarkdown;
  message ← (if bool_decide (wh_MIMEType w = MimeTypeJSON) then json_string message else Some message);
  let pl := if bool_decide (wh_Template w = []) then wh_Payload w
            else if bool_decide (wh_Template w = B "discord") then discordPayload else [] in
  Some (Replace [(B "$title", title); (B "$message", message); (B "$fields", fields); (B "$color", color)] pl).

Definition MarshalMessage (p : Provider) (m : LogMessage) : option bytes :=
  match p_kind p with
  | GotifyClient =>
      body ← Format (lm_Body m) (pb_Format (p_base p));
      json_gotify (lm_Title m) body (gotify_priority (lm_Level m))
        (bool_decide (pb_Format (p_base p) = LogFormatMarkdown))
  | Ntfy _ => Format (lm_Body m) (pb_Format (p_base p))
  | WebhookKind w => webhook_MarshalMessage w m
  end.

Definition ntfy_priority (l : Level) : option bytes :=
  match l with
  | FatalLevel => Some (B "urgent")
  | ErrorLevel => Some (B "high")
  | InfoLevel => Some (B "low")
  | DebugLevel => Some (B "min")
  | _ => None
  end.

Definition SetHeaders (p : Provider) (m : LogMessage) (h : Values) : Values :=
  match p_kind p with
  | Ntfy _ =>
      let h := hset h "Title" (lm_Title m) in
      let h := match ntfy_priority (lm_Level m) with Some x => hset h "Priority" x | None => h end in
      if bool_decide (pb_Format (p_base p) = LogFormatMarkdown) then hset h "Markdown" "yes" else h
  | _ => h
  end.

(** The request of [notify]. *)
Record notify_request := { nr_method : bytes; nr_url : bytes; nr_body : bytes; nr_header : Values }.

Definition build_request (p : Provider) (m : LogMessage) : option notify_request :=
  body ← MarshalMessage p m;
  let h := match GetMIMEType p with [] => ∅ | t => hset ∅ "Content-Type" t end in
  let h := match pb_Token (p_base p) with [] => h | t => hset h "Authorization" (B "Bearer " ++ t) end in
  Some {| nr_method := GetMethod p; nr_url := GetURL p; nr_body := body; nr_header := SetHeaders p m h |}.

(** [notify]: [http] answers a request with a status, or not at all. *)
Definition notify (http : notify_request -> option Z) (p : Provider) (m : LogMessage) : bool :=
  match build_request p m with
  | None => false
  | Some r =>
      match http r with
      | Some code => bool_decide (code ∈ [200; 201; 202; 204])
      | None => false
      end
  end.

End Providers.

(** ** retry_message.go, dispatcher.go *)

Record RetryMessage := { rm_Message : LogMessage; rm_Trials : Z; rm_Provider : Provider; rm_NextRetry : Z }.

(** A level that is not in the map has the value 0. *)
Definition maxRetries (l : Level) : Z :=
  match l with
  | DebugLevel | InfoLevel => 1
  | WarnLevel => 3
  | ErrorLevel => 5
  | FatalLevel | PanicLevel => 10
  | _ => 0
  end.

Definition retryInterval : Z := Second.
Definition maxBackoffDelay : Z := 5 * Minute.

(** [calculateBackoffDelay] without its jitter of at most a tenth. *)
Definition backoff (trials : Z) : Z :=
  if trials =? 0 then retryInterval else Z.min (retryInterval * 2 ^ trials) maxBackoffDelay.

(** [d_started]: the goroutines of [dispatch] that have not looked at the
    providers yet; [d_sends]: those of its sends that have not sent yet;
    [d_batch]: the messages [retry] still has to try; [d_cancelled] and
    [d_running]: the context of the task is done, the loop has not returned;
    [d_log]: the attempts. *)
Record Dispatcher := {
  d_providers : list Provider;
  d_logCh : list LogMessage;
  d_started : list LogMessage;
  d_sends : list (LogMessage * Provider);
  d_retryMsg : list RetryMessage;
  d_batch : list RetryMessage;
  d_cancelled : bool;
  d_running : bool;
  d_log : list (LogMessage * Provider * bool)
}.

Definition StartNotifDispatcher : Dispatcher :=
  {| d_providers := []; d_logCh := []; d_started := []; d_sends := []; d_retryMsg := []; d_batch := [];
     d_cancelled := false; d_running := true; d_log := [] |}.

Definition RegisterProvider (p : Provider) (d : Dispatcher) : Dispatcher :=
  {| d_providers := filter (fun q => p_id q <> p_id p) (d_providers d) ++ [p]; d_logCh := d_logCh d;
     d_started := d_started d; d_sends := d_sends d; d_retryMsg := d_retryMsg d; d_batch := d_batch d;
     d_cancelled := d_cancelled d; d_running := d_running d; d_log := d_log d |}.

(** [Notify]: nothing when the context is done; a full channel makes it wait. *)
Definition Notify (m : LogMessage) (d : Dispatcher) : Dispatcher :=
  if d_cancelled d || (100 <=? length (d_logCh d))%nat then d
  else {| d_providers := d_providers d; d_logCh := d_logCh d ++ [m]; d_started := d_started d; d_sends := d_sends d;
          d_retryMsg := d_retryMsg d; d_batch := d_batch d; d_cancelled := d_cancelled d; d_running := d_running d;
          d_log := d_log d |}.

(** The loop takes a message and starts [dispatch]; it is busy during [retry]. *)
Definition take_message (d : Dispatcher) : Dispatcher :=
  match d_running d, d_logCh d, d_batch d with
  | true, m :: rest, [] =>
      {| d_providers := d_providers d; d_logCh := rest; d_started := d_started d ++ [m]; d_sends := d_sends d;
         d_retryMsg := d_retryMsg d; d_batch := []; d_cancelled := d_cancelled d; d_running := d_running d;
         d_log := d_log d |}
  | _, _, _ => d
  end.

(** Whether [dispatch] sends a message to a provider. *)
Definition addressed (m : LogMessage) (p : Provider) : bool :=
  match lm_To m with [] => true | to => bool_decide (pb_Name (p_base p) ∈ to) end.

(** [dispatch] ranges over the providers and starts a send for each. *)
Definition dispatch (i : nat) (d : Dispatcher) : Dispatcher :=
  match d_started d !! i with
  | None => d
  | Some m =>
      {| d_providers := d_providers d; d_logCh := d_logCh d; d_started := delete i (d_started d);
         d_sends := d_sends d ++ map (pair m) (filter (fun p => addressed m p) (d_providers d));
         d_retryMsg := d_retryMsg d; d_batch := d_batch d; d_cancelled := d_cancelled d; d_running := d_running d;
         d_log := d_log d |}
  end.

(** A goroutine of [dispatch] has sent. *)
Definition dispatch_send (i : nat) (now : Z) (ok : bool) (d : Dispatcher) : Dispatcher :=
  match d_sends d !! i with
  | None => d
  | Some (m, p) =>
      {| d_providers := d_providers d; d_logCh := d_logCh d; d_started := d_started d; d_sends := delete i (d_sends d);
         d_retryMsg := if ok then d_retryMsg d
                       else d_retryMsg d ++ [{| rm_Message := m; rm_Trials := 0; rm_Provider := p;
                                               rm_NextRetry := now + backoff 0 |}];
         d_batch := d_batch d; d_cancelled := d_cancelled d; d_running := d_running d; d_log := d_log d ++ [(m, p, ok)] |}
  end.

(** [processRetries]: the messages that are due. *)
Definition processRetries (now : Z) (d : Dispatcher) : Dispatcher :=
  match d_running d, d_batch d with
  | true, [] =>
      {| d_providers := d_providers d; d_logCh := d_logCh d; d_started := d_started d; d_sends := d_sends d;
         d_retryMsg := filter (fun r => ~ rm_NextRetry r < now) (d_retryMsg d);
         d_batch := filter (fun r => rm_NextRetry r < now) (d_retryMsg d); d_cancelled := d_cancelled d;
         d_running := d_running d; d_log := d_log d |}
  | _, _ => d
  end.

(** One message of [retry]. *)
Definition retry_one (now jitter : Z) (ok : bool) (d : Dispatcher) : Dispatcher :=
  match d_batch d with
  | [] => d
  | r :: rest =>
      let trials := rm_Trials r + 1 in
      {| d_providers := d_providers d; d_logCh := d_logCh d; d_started := d_started d; d_sends := d_sends d;
         d_retryMsg := if ok || (maxRetries (lm_Level (rm_Message r)) <=? trials) then d_retryMsg d
                       else d_retryMsg d ++ [{| rm_Message := rm_Message r; rm_Trials := trials;
                                               rm_Provider := rm_Provider r;
                                               rm_NextRetry := now + (backoff trials + jitter) |}];
         d_batch := rest; d_cancelled := d_cancelled d; d_running := d_running d;
         d_log := d_log d ++ [(rm_Message r, rm_Provider r, ok)] |}
  end.

(** The context of the task is done. *)
Definition cancel (d : Dispatcher) : Dispatcher :=
  {| d_providers := d_providers d; d_logCh := d_logCh d; d_started := d_started d; d_sends := d_sends d;
     d_retryMsg := d_retryMsg d; d_batch := d_batch d; d_cancelled := true; d_running := d_running d; d_log := d_log d |}.

(** The loop sees it, between two retries, and returns: the providers are
    cleared; the messages in the channel and the retries stay where they are. *)
Definition loop_ends (d : Dispatcher) : Dispatcher :=
  match d_cancelled d, d_batch d with
  | true, [] =>
      {| d_providers := []; d_logCh := d_logCh d; d_started := d_started d; d_sends := d_sends d;
         d_retryMsg := d_retryMsg d; d_batch := []; d_cancelled := true; d_running := false; d_log := d_log d |}
  | _, _ => d
  end.

Inductive notif_event :=
  | Register (p : Provider)
  | NotifyE (m : LogMessage)
  | Take
  | Dispatch (i : nat)
  | Sent (i : nat) (now : Z) (ok : bool)
  | Tick (now : Z)
  | Retried (now jitter : Z) (ok : bool)
  | Cancel
  | LoopEnds.

Definition notif_step (d : Dispatcher) (e : notif_event) : Dispatcher :=
  match e with
  | Register p => RegisterProvider p d
  | NotifyE m => Notify m d
  | Take => take_message d
  | Dispatch i => dispatch i d
  | Sent i now ok => dispatch_send i now ok d
  | Tick now => processRetries now d
  | Retried now jitter ok => retry_one now jitter ok d
  | Cancel => cancel d
  | LoopEnds => loop_ends d
  end.

Definition notif_run (es : list notif_event) (d : Dispatcher) : Dispatcher := fold_left notif_step es d.

(** ** Delivery *)

#[export] Instance LogField_eq_dec : EqDecision LogField.
Proof. solve_decision. Defined.
#[export] Instance LogBody_eq_dec : EqDecision LogBody.
Proof. solve_decision. Defined.
#[export] Instance LogMessage_eq_dec : EqDecision LogMessage.
Proof. solve_decision. Defined.
#[export] Instance ProviderBase_eq_dec : EqDecision ProviderBase.
Proof. solve_decision. Defined.
#[export] Instance Webhook_eq_dec : EqDecision Webhook.
Proof. solve_decision. Defined.
#[export] Instance kind_eq_dec : EqDecision kind.
Proof. solve_decision. Defined.
#[export] Instance Provider_eq_dec : EqDecision Provider.
Proof. solve_decision. Defined.
#[export] Instance RetryMessage_eq_dec : EqDecision RetryMessage.
Proof. solve_decision. Defined.

Abbreviation delivery := (LogMessage * Provider)%type.

(** The attempts for a message and a provider so far. *)
Definition attempts_in (log : list (LogMessage * Provider * bool)) (k : delivery) : list bool :=
  map snd (filter (fun x => x.1 = k) log).

Definition attempts (d : Dispatcher) (k : delivery) : list bool := attempts_in (d_log d) k.

(** A delivery is tried once, and retried as often as its level says, but at
    least once. *)
Definition limit (m : LogMessage) : nat := S (Z.to_nat (Z.max 1 (maxRetries (lm_Level m)))).

Definition delivered (a : list bool) (m : LogMessage) : Prop := exists n, a = replicate n false ++ [true] /\ (n < limit m)%nat.

Definition exhausted (a : list bool) (m : LogMessage) : Prop := a = replicate (limit m) false.

(** What is under way, with the number of failed attempts. *)
Definition retry_job (r : RetryMessage) : delivery * nat :=
  (rm_Message r, rm_Provider r, S (Z.to_nat (rm_Trials r))).

Definition jobs (d : Dispatcher) : list (delivery * nat) :=
  map (fun k => (k, 0%nat)) (d_sends d) ++ map retry_job (d_retryMsg d ++ d_batch d).

Definition live (d : Dispatcher) (k : delivery) : Prop := k ∈ map fst (jobs d).

(** The messages that no send was started for yet. *)
Definition pending (d : Dispatcher) : list LogMessage := d_logCh d ++ d_started d.

Record notif_inv (d : Dispatcher) : Prop := {
  ni_providers : NoDup (d_providers d);
  ni_queue : NoDup (pending d);
  ni_fresh m p : m ∈ pending d -> ~ live d (m, p) /\ forall ok, (m, p, ok) ∉ d_log d;
  ni_jobs : NoDup (map fst (jobs d));
  ni_trials r : r ∈ d_retryMsg d ++ d_batch d -> 0 <= rm_Trials r;
  ni_failed k n : (k, n) ∈ jobs d -> attempts d k = replicate n false /\ (n < limit k.1)%nat;
  ni_done m p ok : (m, p, ok) ∈ d_log d ->
    live d (m, p) \/ delivered (attempts d (m, p)) m \/ exhausted (attempts d (m, p)) m
}.

Lemma attempts_app log x k :
  attempts_in (log ++ [x]) k = attempts_in log k ++ (if decide (x.1 = k) then [x.2] else []).
Proof.
  unfold attempts_in. rewrite filter_app, map_app. f_equal. rewrite filter_cons, filter_nil.
  by destruct (decide (x.1 = k)).
Qed.

Lemma attempts_none log (k : delivery) : (forall ok, (k, ok) ∉ log) -> attempts_in log k = [].
Proof.
  intros H. unfold attempts_in. destruct (filter _ log) as [|x l] eqn:Ef; [done|].
  assert (Hx : x ∈ filter (fun x => x.1 = k) log) by (rewrite Ef; by left).
  apply list_elem_of_filter in Hx as [Hx1 Hx2]. destruct x as [k' ok]. simpl in Hx1. subst. by apply H in Hx2.
Qed.

Lemma replicate_snoc {A} n (x : A) : replicate n x ++ [x] = replicate (S n) x.
Proof. symmetry. by rewrite replicate_S_end. Qed.

(** One attempt of the job [k]: it leaves the jobs, and comes back unless it
    succeeded or was the last. *)
Lemma inv_attempt d d' k n ok (again : bool) rest :
  notif_inv d ->
  jobs d ≡ₚ (k, n) :: rest ->
  jobs d' ≡ₚ (if again then [(k, S n)] else []) ++ rest ->
  d_log d' = d_log d ++ [(k.1, k.2, ok)] -> d_providers d' = d_providers d -> pending d' = pending d ->
  (forall r, r ∈ d_retryMsg d' ++ d_batch d' -> 0 <= rm_Trials r) ->
  (again = true -> ok = false /\ (S n < limit k.1)%nat) ->
  (again = false -> ok = true \/ S n = limit k.1) ->
  notif_inv d'.
Proof.
  intros [H1 H2 H3 H4 H5 H6 H7] Hj Hj' Hl Hp Hq Htr Hag Hfin.
  assert (Hnd : NoDup (k :: map fst rest)).
  { rewrite Hj in H4. exact H4. }
  apply NoDup_cons in Hnd as [Hk Hnd].
  assert (Hlive : forall k', live d' k' -> live d k').
  { intros k'. unfold live. rewrite Hj, Hj', map_app, elem_of_app. simpl.
    intros [Hin|Hin]; [|by right]. destruct again; [|by apply elem_of_nil in Hin].
    apply list_elem_of_singleton in Hin. simpl in Hin; subst; by left. }
  assert (Hatt : forall k', attempts d' k' = attempts d k' ++ if decide (k = k') then [ok] else []).
  { intros k'. unfold attempts. rewrite Hl, attempts_app. simpl. by destruct k. }
  destruct (H6 k n) as [Hk1 Hk2]; [rewrite Hj; by left|].
  assert (Hres : live d' k \/ delivered (attempts d' k) k.1 \/ exhausted (attempts d' k) k.1).
  { rewrite Hatt, decide_True by done. rewrite Hk1. destruct again eqn:Ea.
    - left. unfold live. rewrite Hj'. simpl. by left.
    - destruct (Hfin eq_refl) as [-> | Hn]; [right; left; by exists n|].
      destruct ok; [right; left; by exists n|]. right; right. unfold exhausted. rewrite <- Hn. apply replicate_snoc. }
  split.
  - by rewrite Hp.
  - by rewrite Hq.
  - intros m p Hm. rewrite Hq in Hm. destruct (H3 m p Hm) as [Ha Hb]. split; [by intros ?%Hlive|].
    intros ok'. rewrite Hl, elem_of_app. intros [Hin|Hin]; [by apply (Hb ok')|].
    apply list_elem_of_singleton in Hin. destruct (H3 m p Hm) as [Hn _]. apply Hn.
    unfold live. rewrite Hj. injection Hin as -> -> _. destruct k. by left.
  - rewrite Hj', map_app. destruct again; simpl; [by constructor|done].
  - done.
  - intros k' n'. rewrite Hj', elem_of_app. intros [Hin|Hin].
    + destruct again eqn:Ea; [|by apply elem_of_nil in Hin]. apply list_elem_of_singleton in Hin. injection Hin as -> ->.
      destruct (Hag eq_refl) as [-> Hlt]. split; [|done]. rewrite Hatt, decide_True, Hk1 by done. apply replicate_snoc.
    + assert (k <> k').
      { intros <-. apply Hk. apply list_elem_of_fmap. by exists (k, n'). }
      rewrite Hatt, decide_False, app_nil_r by done. apply H6. rewrite Hj. by right.
  - intros m p ok'. rewrite Hl, elem_of_app. intros Hin.
    destruct (decide (k = (m, p))) as [->|Hne]; [exact Hres|].
    destruct Hin as [Hin|Hin]; [|apply list_elem_of_singleton in Hin; destruct k; simpl in Hin; congruence].
    rewrite Hatt, decide_False, app_nil_r by done.
    destruct (H7 _ _ _ Hin) as [Hlv|?]; [|by right]. left. unfold live in *. rewrite Hj in Hlv. rewrite Hj', map_app, elem_of_app.
    right. simpl in Hlv. apply elem_of_cons in Hlv as [?|?]; [congruence|done].
Qed.

Lemma delete_Permutation_cons {A} (l : list A) i x : l !! i = Some x -> l ≡ₚ x :: delete i l.
Proof. intros H. rewrite (delete_Permutation l i x H) at 1. done. Qed.

Lemma inv_sent d i now ok : notif_inv d -> notif_inv (dispatch_send i now ok d).
Proof.
  intros Hi. unfold dispatch_send. destruct (d_sends d !! i) as [[m p]|] eqn:Ei; [|done].
  eapply (inv_attempt d _ (m, p) 0 ok (negb ok)
    (map (fun k => (k, 0%nat)) (delete i (d_sends d)) ++ map retry_job (d_retryMsg d ++ d_batch d))); simpl; try done.
  - unfold jobs. rewrite (delete_Permutation_cons _ _ _ Ei) at 1. done.
  - unfold jobs. simpl. destruct ok; simpl; [done|]. rewrite !map_app. simpl.
    rewrite <- !app_assoc. simpl. rewrite <- !Permutation_middle. done.
  - intros r. rewrite elem_of_app. destruct ok; [intros [H|H]; apply (ni_trials _ Hi), elem_of_app; tauto|].
    rewrite elem_of_app. intros [[H|H]|H]; [apply (ni_trials _ Hi), elem_of_app; tauto| |apply (ni_trials _ Hi), elem_of_app; tauto].
    apply list_elem_of_singleton in H as ->. simpl. lia.
  - destruct ok; [done|]. intros _. split; [done|]. unfold limit. lia.
  - destruct ok; [by left|done].
Qed.

Lemma inv_retried d now jitter ok : notif_inv d -> notif_inv (retry_one now jitter ok d).
Proof.
  intros Hi. unfold retry_one. destruct (d_batch d) as [|r rest] eqn:Eb; [done|].
  assert (Htr : 0 <= rm_Trials r) by (apply (ni_trials _ Hi); rewrite Eb; apply elem_of_app; right; by left).
  assert (Hold : forall r', r' ∈ d_retryMsg d ++ rest -> 0 <= rm_Trials r').
  { intros r' H. apply (ni_trials _ Hi). rewrite Eb. set_solver. }
  set (stop := ok || (maxRetries (lm_Level (rm_Message r)) <=? rm_Trials r + 1)).
  assert (Hj : jobs d ≡ₚ (rm_Message r, rm_Provider r, S (Z.to_nat (rm_Trials r)))
                :: map (fun k => (k, 0%nat)) (d_sends d) ++ map retry_job (d_retryMsg d ++ rest)).
  { unfold jobs. rewrite Eb, !map_app. simpl. rewrite <- !Permutation_middle. done. }
  destruct (ni_failed _ Hi (rm_Message r, rm_Provider r) (S (Z.to_nat (rm_Trials r)))) as [_ Hlt]; [rewrite Hj; by left|].
  simpl in Hlt. unfold limit in Hlt.
  eapply (inv_attempt d _ _ _ ok (negb stop) _ Hi Hj); simpl; try done.
  - unfold jobs. simpl. destruct stop; simpl; [done|]. rewrite !map_app. simpl. unfold retry_job at 2. simpl.
    replace (Z.to_nat (rm_Trials r + 1)) with (S (Z.to_nat (rm_Trials r))) by lia.
    rewrite <- !app_assoc. simpl. rewrite <- !Permutation_middle. done.
  - destruct stop; [exact Hold|]. intros r'. rewrite !elem_of_app. intros [[H|H]|H]; [apply Hold; set_solver| |apply Hold; set_solver].
    apply list_elem_of_singleton in H as ->. simpl. lia.
  - unfold stop. destruct ok; simpl; [done|]. intros Hs%negb_true_iff%Z.leb_gt. split; [done|]. unfold limit. lia.
  - unfold stop. destruct ok; [by left|]. simpl. intros Hs%negb_false_iff%Z.leb_le. right. unfold limit. lia.
Qed.

(** Steps that leave the attempts and, up to their order, the jobs. *)
Lemma inv_frame d d' :
  notif_inv d -> jobs d' ≡ₚ jobs d -> d_log d' = d_log d -> NoDup (d_providers d') -> NoDup (pending d') ->
  (forall r, r ∈ d_retryMsg d' ++ d_batch d' -> 0 <= rm_Trials r) ->
  (forall m p, m ∈ pending d' -> ~ live d (m, p) /\ forall ok, (m, p, ok) ∉ d_log d) -> notif_inv d'.
Proof.
  intros [H1 H2 H3 H4 H5 H6 H7] Hj Hl Hp Hq Ht Hf.
  assert (Hlive : forall k, live d' k <-> live d k) by (intros k; unfold live; by rewrite Hj).
  unfold attempts in *. split; unfold attempts; rewrite ?Hl; try done.
  - intros m p Hm. rewrite Hlive. by apply Hf.
  - by rewrite Hj.
  - intros k n. rewrite Hj. apply H6.
  - intros m p ok H. rewrite Hlive. by eapply H7.
Qed.

Lemma inv_tick d now : notif_inv d -> notif_inv (processRetries now d).
Proof.
  intros Hi. unfold processRetries. destruct (d_running d); [|done]. destruct (d_batch d) as [|] eqn:Eb; [|done].
  assert (Hp : filter (fun r => ~ rm_NextRetry r < now) (d_retryMsg d) ++ filter (fun r => rm_NextRetry r < now) (d_retryMsg d)
               ≡ₚ d_retryMsg d).
  { rewrite (Permutation_app_comm (filter (fun r => ~ _) _)). apply filter_app_complement. }
  apply (inv_frame d); simpl; try apply Hi; try done.
  - unfold jobs. simpl. rewrite Hp, Eb, app_nil_r. done.
  - intros r. rewrite Hp. intros H. apply (ni_trials _ Hi), elem_of_app. by left.
Qed.

Lemma inv_register d p : notif_inv d -> notif_inv (RegisterProvider p d).
Proof.
  intros Hi. apply (inv_frame d); simpl; try apply Hi; try done.
  apply NoDup_app. split; [apply NoDup_filter, Hi|]. split; [|apply NoDup_singleton].
  intros x Hx ->%list_elem_of_singleton. by apply list_elem_of_filter in Hx as [? _].
Qed.

(** A message that was not seen before. *)
Definition unseen (m : LogMessage) (d : Dispatcher) : Prop :=
  (m ∉ pending d) /\ (forall p, ~ live d (m, p)) /\ forall p ok, (m, p, ok) ∉ d_log d.

Lemma inv_notify d m : notif_inv d -> unseen m d \/ d_cancelled d = true -> notif_inv (Notify m d).
Proof.
  intros Hi Hu. unfold Notify. destruct (d_cancelled d) eqn:Ec; [done|]. destruct Hu as [(Hq & Hj & Hl)|]; [|done]. simpl.
  case_match; [done|].
  assert (Hp : (d_logCh d ++ [m]) ++ d_started d ≡ₚ m :: pending d).
  { unfold pending. rewrite <- app_assoc. simpl. by rewrite <- Permutation_middle. }
  apply (inv_frame d); simpl; try apply Hi; try done; unfold pending; simpl.
  - rewrite Hp. constructor; [done|apply Hi].
  - intros m' p. rewrite Hp. intros [->|H0]%elem_of_cons; [split; [apply Hj|apply Hl]|by apply (ni_fresh _ Hi)].
Qed.

Lemma inv_take d : notif_inv d -> notif_inv (take_message d).
Proof.
  intros Hi. unfold take_message. destruct (d_running d); [|done]. destruct (d_logCh d) as [|m rest] eqn:Eq; [done|].
  destruct (d_batch d) as [|r b] eqn:Eb; [|done].
  assert (Hp : rest ++ d_started d ++ [m] ≡ₚ pending d).
  { unfold pending. rewrite Eq. rewrite app_assoc. symmetry. apply Permutation_cons_append. }
  apply (inv_frame d); simpl; try apply Hi; try done; unfold pending; simpl.
  - unfold jobs. simpl. by rewrite Eb.
  - rewrite Hp. apply Hi.
  - intros r. rewrite <- Eb. apply Hi.
  - intros m' p. rewrite Hp. apply Hi.
Qed.

Lemma inv_cancel d : notif_inv d -> notif_inv (cancel d).
Proof. intros Hi. apply (inv_frame d); simpl; try apply Hi; done. Qed.

Lemma inv_ends d : notif_inv d -> notif_inv (loop_ends d).
Proof.
  intros Hi. unfold loop_ends. destruct (d_cancelled d); [|done]. destruct (d_batch d) eqn:Eb; [|done].
  apply (inv_frame d); simpl; try apply Hi; try done; [|constructor|]; [unfold jobs; simpl; by rewrite Eb|].
  intros r. rewrite <- Eb. apply Hi.
Qed.

Lemma dispatch_jobs d i m :
  d_started d !! i = Some m ->
  jobs (dispatch i d) ≡ₚ map (fun p => (m, p, 0%nat)) (filter (fun p => addressed m p) (d_providers d)) ++ jobs d.
Proof.
  intros Ei. unfold dispatch. rewrite Ei. unfold jobs. simpl. rewrite !map_app, map_map.
  rewrite <- app_assoc. apply Permutation_app_swap_app.
Qed.

Lemma dispatch_pending d i m : d_started d !! i = Some m -> pending d ≡ₚ m :: pending (dispatch i d).
Proof.
  intros Ei. unfold dispatch, pending. rewrite Ei. simpl. rewrite (delete_Permutation_cons _ _ _ Ei) at 1.
  by rewrite <- Permutation_middle.
Qed.

Lemma inv_dispatch d i : notif_inv d -> notif_inv (dispatch i d).
Proof.
  intros Hi. destruct (d_started d !! i) as [m|] eqn:Ei; [|unfold dispatch; by rewrite Ei].
  pose proof (dispatch_jobs d i m Ei) as Hj. pose proof (dispatch_pending d i m Ei) as Hpe.
  set (d' := dispatch i d) in *.
  assert (Hl : d_log d' = d_log d) by (unfold d', dispatch; by rewrite Ei).
  assert (Hp : d_providers d' = d_providers d) by (unfold d', dispatch; by rewrite Ei).
  assert (Hr : d_retryMsg d' ++ d_batch d' = d_retryMsg d ++ d_batch d) by (unfold d', dispatch; by rewrite Ei).
  set (new := map (fun p => (m, p, 0%nat)) _) in Hj.
  assert (Hnew : forall k n, (k, n) ∈ new -> k.1 = m /\ n = 0%nat).
  { intros k n (p & [= -> ->] & _)%list_elem_of_fmap. done. }
  assert (Hm : forall p, ~ live d (m, p) /\ forall ok, (m, p, ok) ∉ d_log d).
  { intros p. apply (ni_fresh _ Hi). rewrite Hpe. by left. }
  assert (Hnodup : NoDup (m :: pending d')) by (rewrite <- Hpe; apply Hi). apply NoDup_cons in Hnodup as [Hmr Hnodup].
  assert (Hlive : forall k, live d' k <-> k ∈ map fst new \/ live d k).
  { intros k. unfold live. by rewrite Hj, map_app, elem_of_app. }
  assert (Hk : forall k, k ∈ map fst new -> k.1 = m).
  { intros k ([k' n] & -> & Hin)%list_elem_of_fmap. apply Hnew in Hin as [H0 _]. exact H0. }
  destruct Hi as [H1 H2 H3 H4 H5 H6 H7]. unfold attempts in *. split; unfold attempts; rewrite ?Hl, ?Hp, ?Hr; try done.
  - intros m' p Hin. rewrite Hlive. destruct (H3 m' p) as [Ha Hb]; [rewrite Hpe; by right|].
    split; [|done]. intros [Hx%Hk|Hx]; [apply Hmr; simpl in Hx; by rewrite <- Hx|done].
  - rewrite Hj, map_app. apply NoDup_app. split; [|split; [|done]].
    + unfold new. rewrite map_map. simpl. apply NoDup_fmap_2; [intros p q [= ->]; done|]. apply NoDup_filter, H1.
    + intros k Hx%Hk Hy. destruct k as [mk p]. simpl in Hx. subst. by apply (proj1 (Hm p)).
  - intros k n. rewrite Hj, elem_of_app. intros [Hin|Hin]; [|by apply H6].
    apply Hnew in Hin as [Hkm ->]. split; [|unfold limit; lia]. destruct k as [mk p]. simpl in Hkm. subst.
    by rewrite (attempts_none _ (m, p) (proj2 (Hm p))).
  - intros m' p ok Hin. rewrite Hlive. destruct (H7 _ _ _ Hin); [left; by right|by right].
Qed.

Lemma notif_step_inv d e :
  notif_inv d -> (forall m, e = NotifyE m -> unseen m d \/ d_cancelled d = true) -> notif_inv (notif_step d e).
Proof.
  intros Hi Hu. destruct e; simpl;
    [by apply inv_register|apply inv_notify; auto|by apply inv_take|by apply inv_dispatch|by apply inv_sent|by apply inv_tick
    |by apply inv_retried|by apply inv_cancel|by apply inv_ends].
Qed.

Lemma notif_init_inv : notif_inv StartNotifDispatcher.
Proof. split; simpl; try (by constructor); try (intros; set_solver). Qed.

(** *** Where deliveries come from *)

Definition notified (es : list notif_event) : list LogMessage :=
  omap (fun e => match e with NotifyE m => Some m | _ => None end) es.

(** Deliveries that are under way or were tried. *)
Definition known (d : Dispatcher) (k : delivery) : Prop := live d k \/ exists ok, (k, ok) ∈ d_log d.

Lemma live_elim d k : live d k <-> k ∈ d_sends d \/ exists r, r ∈ d_retryMsg d ++ d_batch d /\ (rm_Message r, rm_Provider r) = k.
Proof.
  unfold live, jobs. rewrite map_app, !map_map, elem_of_app, !list_elem_of_fmap. split.
  - intros [(k' & -> & H)|(r & -> & H)]; [by left|right; eauto].
  - intros [H|(r & H & <-)]; [left; eauto|right; eauto].
Qed.

Lemma known_elim d k :
  known d k <-> k ∈ d_sends d \/ (exists r, r ∈ d_retryMsg d ++ d_batch d /\ (rm_Message r, rm_Provider r) = k)
                \/ exists ok, (k, ok) ∈ d_log d.
Proof. unfold known. rewrite live_elim. tauto. Qed.

(** A message waits because it did before or was just notified. *)
Lemma pending_back d e m : m ∈ pending (notif_step d e) -> m ∈ pending d \/ e = NotifyE m.
Proof.
  unfold pending. destruct e as [p|m'| |i|i now ok|now|now jitter ok| |]; simpl; auto.
  - unfold Notify. destruct (_ || _); [auto|]. simpl. rewrite <- app_assoc, !elem_of_app.
    intros [H|[ ->%list_elem_of_singleton|H]]; auto.
  - unfold take_message. destruct (d_running d); [|auto]. destruct (d_logCh d) as [|m' rest] eqn:Eq; [rewrite Eq; auto|].
    destruct (d_batch d); [|rewrite Eq; auto]. simpl. rewrite elem_of_cons, !elem_of_app.
    intros [H|[H| ->%list_elem_of_singleton]]; auto.
  - unfold dispatch. destruct (d_started d !! i) eqn:Ei; [|auto]. simpl. rewrite !elem_of_app.
    intros [H|H%list_elem_of_delete_inv]; auto.
  - unfold dispatch_send. destruct (d_sends d !! i) as [[? ?]|]; auto.
  - unfold processRetries. destruct (d_running d), (d_batch d); auto.
  - unfold retry_one. destruct (d_batch d); auto.
  - unfold loop_ends. destruct (d_cancelled d), (d_batch d); auto.
Qed.

(** A delivery is known because it was, or because [dispatch] finds an addressed
    provider. *)
Lemma known_back d e k :
  known (notif_step d e) k ->
  known d k \/ exists i, e = Dispatch i /\ d_started d !! i = Some k.1 /\ k.2 ∈ d_providers d /\ addressed k.1 k.2 = true.
Proof.
  rewrite !known_elim. destruct e as [p|m'| |i|i now ok|now|now jitter ok| |]; simpl; auto.
  - unfold Notify. destruct (_ || _); auto.
  - unfold take_message. destruct (d_running d); [|auto]. destruct (d_logCh d) as [|m' rest]; [auto|].
    destruct (d_batch d) eqn:Eb; simpl; rewrite ?Eb; auto.
  - unfold dispatch. destruct (d_started d !! i) as [m|] eqn:Ei; [|auto]. simpl. rewrite elem_of_app.
    intros [[H|(p & -> & [Ha Hp]%list_elem_of_filter)%list_elem_of_fmap]|H]; [by left; left| |by left; right].
    right. exists i. simpl. repeat split; [done|done|]. by apply Is_true_true.
  - unfold dispatch_send. destruct (d_sends d !! i) as [[m p]|] eqn:Ei; [|auto]. apply list_elem_of_lookup_2 in Ei. simpl.
    intros [H%list_elem_of_delete_inv|[(q & Hq & <-)|[ok' H]]]; left; [by left| |].
    + destruct ok; [right; left; eauto|]. rewrite <- app_assoc, !elem_of_app in Hq.
      destruct Hq as [Hq|[ ->%list_elem_of_singleton|Hq]]; [|by left|]; right; left; exists q; rewrite elem_of_app; auto.
    + apply elem_of_app in H as [H|H%list_elem_of_singleton]; [right; right; eauto|]. injection H as -> _. by left.
  - unfold processRetries. destruct (d_running d); [|auto]. destruct (d_batch d) eqn:Eb; simpl; [|rewrite Eb; auto].
    intros [H|[(q & Hq & <-)|H]]; left; [auto| |auto]. right; left. exists q. split; [|done].
    rewrite elem_of_app, !list_elem_of_filter in Hq. rewrite app_nil_r. tauto.
  - unfold retry_one. destruct (d_batch d) as [|r0 rest] eqn:Eb; simpl; [rewrite Eb; auto|].
    assert (H0 : exists r, r ∈ d_retryMsg d ++ r0 :: rest /\ (rm_Message r, rm_Provider r) = (rm_Message r0, rm_Provider r0)).
    { exists r0. split; [|done]. apply elem_of_app. right. by left. }
    intros [H|[(q & Hq & <-)|[ok' H]]]; left; [auto| |].
    + right; left. destruct (_ || _).
      * exists q. split; [|done]. rewrite elem_of_app, elem_of_cons in *. tauto.
      * rewrite <- app_assoc, !elem_of_app in Hq. destruct Hq as [Hq|[ ->%list_elem_of_singleton|Hq]]; [|exact H0|];
          exists q; (split; [|done]); rewrite elem_of_app, elem_of_cons; tauto.
    + apply elem_of_app in H as [H|H%list_elem_of_singleton]; [right; right; eauto|]. injection H as -> _. right; left. exact H0.
  - unfold loop_ends. destruct (d_cancelled d); [|auto]. destruct (d_batch d) eqn:Eb; simpl; rewrite ?Eb; auto.
Qed.

Lemma known_step d e k : known d k -> known (notif_step d e) k.
Proof.
  unfold known. rewrite !live_elim.
  intros [Hl|[ok Hl]].
  2: { right. exists ok. destruct e; simpl; unfold Notify, take_message, dispatch, dispatch_send, processRetries, retry_one, loop_ends;
       repeat case_match; simpl; try done; apply elem_of_app; by left. }
  destruct e as [p|m| |i|i now ok|now|now jitter ok| |]; simpl.
  - by left.
  - left. unfold Notify. by destruct (_ || _).
  - left. unfold take_message. destruct (d_running d); [|done]. destruct (d_logCh d) as [|m rest]; [done|].
    destruct (d_batch d) eqn:Eb; [|by rewrite Eb]. done.
  - left. unfold dispatch. destruct (d_started d !! i) as [m|]; [|done]. simpl.
    destruct Hl as [Hl|Hl]; [left; apply elem_of_app; by left|by right].
  - unfold dispatch_send. destruct (d_sends d !! i) as [[m p]|] eqn:Ei; [|by left]. simpl.
    destruct (decide (k = (m, p))) as [->|Hne]; [right; exists ok; apply elem_of_app; right; by left|]. left.
    destruct Hl as [Hl|(r & Hr & <-)].
    + left. apply (delete_Permutation_cons _ _ _) in Ei. rewrite Ei in Hl. by apply elem_of_cons in Hl as [?|?].
    + right. exists r. split; [|done]. destruct ok; set_solver.
  - unfold processRetries. destruct (d_running d); [|by left]. destruct (d_batch d) eqn:Eb; [|by left; rewrite Eb]. simpl. left.
    destruct Hl as [Hl|(r & Hr & <-)]; [by left|right]. exists r. split; [|done]. rewrite app_nil_r in Hr.
    rewrite elem_of_app, !list_elem_of_filter. destruct (decide (rm_NextRetry r < now)); tauto.
  - unfold retry_one. destruct (d_batch d) as [|r0 rest] eqn:Eb; [by left; rewrite Eb|]. simpl.
    destruct Hl as [Hl|(r & Hr & <-)]; [by left; left|].
    destruct (decide (r = r0)) as [->|Hne]; [right; exists ok; apply elem_of_app; right; by left|].
    left. right. exists r. split; [|done]. destruct (_ || _); set_solver.
  - by left.
  - left. unfold loop_ends. destruct (d_cancelled d); [|done]. destruct (d_batch d) eqn:Eb; [|by rewrite Eb]. done.
Qed.

Lemma known_run es : forall d k, known d k -> known (notif_run es d) k.
Proof. induction es as [|e es IH]; intros d k H; [done|]. apply IH, known_step, H. Qed.

Lemma notif_run_snoc es e d : notif_run (es ++ [e]) d = notif_step (notif_run es d) e.
Proof. unfold notif_run. by rewrite fold_left_app. Qed.

Lemma notified_app es1 es2 : notified (es1 ++ es2) = notified es1 ++ notified es2.
Proof. apply omap_app. Qed.

(** Every message under way was notified. *)
Lemma run_notified es m :
  (m ∈ pending (notif_run es StartNotifDispatcher) \/ exists p, known (notif_run es StartNotifDispatcher) (m, p)) -> m ∈ notified es.
Proof.
  induction es as [|e es IH] using rev_ind.
  { intros [H|[p [H|[ok H]]]]; [|unfold live, jobs in H|]; by apply not_elem_of_nil in H. }
  rewrite notif_run_snoc, notified_app, elem_of_app. intros [[H| ->]%pending_back|[p [H|(i & -> & Hs & _)]%known_back]].
  - left. apply IH. by left.
  - right. by left.
  - left. apply IH. right. by exists p.
  - left. apply IH. left. apply elem_of_app. right. by eapply list_elem_of_lookup_2.
Qed.

Lemma run_unseen es m : m ∉ notified es -> unseen m (notif_run es StartNotifDispatcher).
Proof.
  intros Hn. split; [intros H; apply Hn, run_notified; by left|].
  split; [intros p H|intros p ok H]; apply Hn, run_notified; right; exists p; [by left|by right; exists ok].
Qed.

Lemma notif_start_inv es : NoDup (notified es) -> notif_inv (notif_run es StartNotifDispatcher).
Proof.
  induction es as [|e es IH] using rev_ind; intros Hnd; [apply notif_init_inv|].
  rewrite notified_app in Hnd. apply NoDup_app in Hnd as (Hnd & Hd & _). rewrite notif_run_snoc.
  apply notif_step_inv; [by apply IH|]. intros m ->. left. apply run_unseen. intros H. apply (Hd m H). by left.
Qed.

(** A message that does not wait and is not notified again: which deliveries of
    it there are is settled. *)
Lemma settled_run es : forall d m p,
  m ∉ pending d -> m ∉ notified es -> ~ known d (m, p) -> ~ known (notif_run es d) (m, p).
Proof.
  induction es as [|e es IH]; intros d m p Hp Hn Hk; [done|]. change (e :: es) with ([e] ++ es) in Hn.
  rewrite notified_app, not_elem_of_app in Hn. destruct Hn as [Hne Hn]. simpl. apply IH; [|done|].
  - intros [H| ->]%pending_back; [done|]. apply Hne. by left.
  - intros [H|(i & -> & Hs & _)]%known_back; [done|]. apply Hp, elem_of_app. right. by eapply list_elem_of_lookup_2.
Qed.

(** *** The end of the dispatcher *)

Definition ended (d : Dispatcher) : Prop := d_running d = false /\ d_batch d = [] /\ d_cancelled d = true.

Lemma ended_step d e : ended d -> ended (notif_step d e).
Proof.
  intros (Hr & Hb & Hc). unfold ended. destruct e; simpl; unfold Notify, take_message, dispatch, dispatch_send, processRetries,
    retry_one, loop_ends; rewrite ?Hr, ?Hb, ?Hc; simpl; repeat case_match; done.
Qed.

Lemma running_step d e : (d_running d = false -> ended d) -> d_running (notif_step d e) = false -> ended (notif_step d e).
Proof.
  intros Hd Hr. destruct (d_running d) eqn:Er; [|by apply ended_step, Hd].
  destruct e; simpl in *; unfold Notify, take_message, dispatch, dispatch_send, processRetries, retry_one, loop_ends, ended in *;
    rewrite ?Er in *; repeat case_match; simpl in *; try congruence; done.
Qed.

Lemma running_run es : let d := notif_run es StartNotifDispatcher in d_running d = false -> ended d.
Proof.
  induction es as [|e es IH] using rev_ind; simpl; [done|]. rewrite notif_run_snoc. by apply running_step.
Qed.

(** After the end a retry that waits is not tried any more. *)
Lemma dropped_run es : forall d r,
  notif_inv d -> ended d -> r ∈ d_retryMsg d ->
  attempts (notif_run es d) (rm_Message r, rm_Provider r) = attempts d (rm_Message r, rm_Provider r).
Proof.
  induction es as [|e es IH]; intros d r Hi He Hr; [done|]. simpl. pose proof He as (Hru & Hb & Hc).
  assert (Hd : r ∈ d_retryMsg (notif_step d e)
     /\ attempts (notif_step d e) (rm_Message r, rm_Provider r) = attempts d (rm_Message r, rm_Provider r)).
  { destruct e as [p|m'| |i|i now ok|now|now jitter ok| |]; simpl; unfold Notify, take_message, dispatch, processRetries, retry_one,
      loop_ends; rewrite ?Hru, ?Hb, ?Hc; simpl; try done; [by case_match|].
    unfold dispatch_send. destruct (d_sends d !! i) as [[m p]|] eqn:Ei; [|done]. simpl.
    split; [destruct ok; [done|apply elem_of_app; by left]|]. unfold attempts. simpl. rewrite attempts_app. simpl.
    rewrite decide_False, app_nil_r; [done|]. intros E. pose proof (ni_jobs _ Hi) as Hnd. unfold jobs in Hnd.
    rewrite map_app, !map_map in Hnd. apply NoDup_app in Hnd as (_ & Hnd & _).
    apply (Hnd (m, p)); [apply list_elem_of_fmap; exists (m, p); split; [done|by eapply list_elem_of_lookup_2]|].
    apply list_elem_of_fmap. exists r. split; [exact E|apply elem_of_app; by left]. }
  destruct Hd as [Hr' <-]. apply IH; [|by apply ended_step|done]. apply notif_step_inv; [done|]. intros m ->. by right.
Qed.

(** A message is for a provider when it names it or names none. *)
Definition meant_for (m : LogMessage) (p : Provider) : Prop := lm_To m = [] \/ pb_Name (p_base p) ∈ lm_To m.

Lemma addressed_spec m p : addressed m p = true <-> meant_for m p.
Proof.
  unfold addressed, meant_for. destruct (lm_To m) as [|x to]; [split; auto|]. rewrite bool_decide_eq_true. split; [auto|].
  by intros [?|?].
Qed.

(** C34: over every interleaving of notifications (each message sent once),
    goroutines, sends, retries and the end of the dispatcher, once [dispatch] has
    looked at the providers for a message: for every provider that is registered
    then and that the message names (every one when it names none), the
    delivery is under way with fewer failures than its limit, or has succeeded
    after fewer, once, as its last attempt, or has failed exactly as often as the
    limit says: once plus the retries of its level, at least one; for every other
    provider nothing is ever sent. When the dispatcher has ended, a delivery that
    waits for its retry is not tried any more. *)
Theorem notification_not_lost es1 i es2 m :
  let d1 := notif_run es1 StartNotifDispatcher in
  let d := notif_run (es1 ++ Dispatch i :: es2) StartNotifDispatcher in
  NoDup (notified (es1 ++ Dispatch i :: es2)) -> d_started d1 !! i = Some m ->
  (forall p, p ∈ d_providers d1 -> meant_for m p ->
     (live d (m, p) /\ exists n, attempts d (m, p) = replicate n false /\ (n < limit m)%nat)
     \/ delivered (attempts d (m, p)) m \/ exhausted (attempts d (m, p)) m)
  /\ (forall p, p ∉ d_providers d1 \/ ~ meant_for m p -> ~ live d (m, p) /\ attempts d (m, p) = [])
  /\ (forall r es3, d_running d = false -> r ∈ d_retryMsg d ->
        attempts (notif_run es3 d) (rm_Message r, rm_Provider r) = attempts d (rm_Message r, rm_Provider r)).
Proof.
  intros d1 d Hnd Hs. assert (Hi : notif_inv d) by (by apply notif_start_inv).
  assert (Ed : d = notif_run es2 (notif_step d1 (Dispatch i))) by (unfold d, notif_run; by rewrite fold_left_app).
  pose proof Hnd as Hnd1. rewrite notified_app in Hnd1. apply NoDup_app in Hnd1 as (Hnd1 & Hdis & _).
  assert (Hi1 : notif_inv d1) by (by apply notif_start_inv).
  assert (Hm : m ∈ pending d1) by (apply elem_of_app; right; by eapply list_elem_of_lookup_2).
  assert (Hm2 : m ∉ notified es2).
  { intros H. apply (Hdis m); [apply run_notified; by left|exact H]. }
  split; [|split].
  - intros p Hp Ha%addressed_spec.
    assert (Hk : known d (m, p)).
    { rewrite Ed. apply known_run. left. apply live_elim. left. simpl. unfold dispatch. rewrite Hs. simpl. apply elem_of_app. right.
      apply list_elem_of_fmap. exists p. split; [done|]. apply list_elem_of_filter. split; [by apply Is_true_true|done]. }
    assert (Hlv : live d (m, p) -> exists n, attempts d (m, p) = replicate n false /\ (n < limit m)%nat).
    { intros ([k n] & E & Hin)%list_elem_of_fmap. exists n. simpl in E. subst k. by apply (ni_failed _ Hi) in Hin. }
    destruct Hk as [Hl|[ok Hl]]; [left; auto|].
    destruct (ni_done _ Hi m p ok Hl) as [H|H]; [left; auto|by right].
  - intros p Hp. assert (Hk : ~ known d (m, p)).
    { rewrite Ed. apply settled_run; [|done|].
      - pose proof (dispatch_pending d1 i m Hs) as Hpe. pose proof (ni_queue _ Hi1) as Hq. rewrite Hpe in Hq.
        by apply NoDup_cons in Hq as [? _].
      - intros [[H|[ok H]]|(i' & _ & _ & Hin & Ha)]%known_back; [by apply (ni_fresh _ Hi1 m p Hm)|by apply (ni_fresh _ Hi1 m p Hm) in H|].
        simpl in *. apply addressed_spec in Ha. by destruct Hp. }
    split; [intros H; apply Hk; by left|]. apply attempts_none. intros ok H. apply Hk. right. by exists ok.
  - intros r es3 Hr Hin. apply dropped_run; [done|by apply running_run|done].
Qed.

(** the delay before a retry doubles and is never more than five minutes. *)
Theorem backoff_bounds t :
  0 <= t -> retryInterval <= backoff t <= maxBackoffDelay /\ backoff t <= backoff (t + 1) <= 2 * backoff t.
Proof.
  intros Ht. unfold backoff.
  assert (H1 : 1 <= 2 ^ t) by (change 1 with (2 ^ 0); apply Z.pow_le_mono_r; lia).
  assert (H2 : 2 ^ (t + 1) = 2 * 2 ^ t) by (rewrite Z.pow_add_r by lia; lia).
  assert (E1 : retryInterval = 1000000000) by done. assert (E2 : maxBackoffDelay = 300000000000) by done.
  rewrite E1, E2, H2. destruct (t =? 0) eqn:Et, (t + 1 =? 0) eqn:Et'; try lia.
  apply Z.eqb_eq in Et. subst. change (2 ^ 0) with 1. lia.
Qed.

(** ** Concrete cases *)

Section Examples.

Instance demo_notif : NotifLib := {
  json_fields _ := Some (B "[]"); json_list _ := Some (B "[]"); json_string s := Some ("034"%char :: s ++ ["034"%char]);
  json_error e := Some e; json_gotify t m _ _ := Some (t ++ m); gperr_Plain e := e; gperr_Markdown e := e;
  json_Valid s := negb (HasPrefix s "{:,"); url_normal u := Some u; discordPayload := B "{}"
}.

Definition demo_message : LogMessage :=
  {| lm_id := 1; lm_Level := WarnLevel; lm_Title := B "t"; lm_Body := MessageBody (B "m"); lm_Color := ColorSuccess;
     lm_To := [B "n"] |}.

Definition demo_provider : Provider :=
  {| p_id := 7; p_base := {| pb_Name := B "n"; pb_URL := B "http://x"; pb_Token := []; pb_Format := LogFormatPlain |};
     p_kind := Ntfy (B "topic") |}.

Definition other_provider : Provider :=
  {| p_id := 8; p_base := {| pb_Name := B "o"; pb_URL := B "http://y"; pb_Token := []; pb_Format := LogFormatPlain |};
     p_kind := Ntfy (B "topic") |}.

Definition demo_start : list notif_event := [Register demo_provider; Register other_provider; NotifyE demo_message; Take].

(** The second retry succeeds; then the dispatcher ends. *)
Definition demo_rest : list notif_event :=
  [Sent 0 0 false; Tick (2 * Second); Retried (2 * Second) 0 false; Tick (5 * Second); Retried (5 * Second) 0 true;
   Cancel; LoopEnds; Tick (9 * Second)].

Lemma notification_not_lost_witness :
  let d := notif_run (demo_start ++ Dispatch 0 :: demo_rest) StartNotifDispatcher in
  attempts d (demo_message, demo_provider) = [false; false; true]
  /\ (delivered (attempts d (demo_message, demo_provider)) demo_message
      \/ live d (demo_message, demo_provider) \/ exhausted (attempts d (demo_message, demo_provider)) demo_message)
  /\ attempts d (demo_message, other_provider) = [].
Proof.
  destruct (notification_not_lost demo_start 0 demo_rest demo_message) as (H1 & H2 & _).
  - apply (bool_decide_eq_true_1 (NoDup _)). vm_compute. reflexivity.
  - vm_compute. reflexivity.
  - split; [vm_compute; reflexivity|]. split.
    + destruct (H1 demo_provider) as [[H _]|[H|H]];
        [apply (bool_decide_eq_true_1 (_ ∈ _)); vm_compute; reflexivity|right; vm_compute; left|auto..].
    + apply (H2 other_provider). right. intros [H|H]; [discriminate H|]. apply list_elem_of_singleton in H. discriminate H.
Defined.

(** A notification that failed is lost when the dispatcher ends. *)
Example retry_lost :
  let d := notif_run (demo_start ++ [Dispatch 0; Sent 0 0 false; Cancel; LoopEnds; Tick (9 * Second); Retried (9 * Second) 0 true])
             StartNotifDispatcher in
  attempts d (demo_message, demo_provider) = [false] /\ map rm_Message (d_retryMsg d) = [demo_message].
Proof. vm_compute. split; reflexivity. Qed.

Lemma backoff_bounds_witness : backoff 3 = 8 * Second /\ backoff 3 <= backoff 4 <= 2 * backoff 3.
Proof. split; [reflexivity|]. apply (backoff_bounds 3). lia. Defined.

(** The hexadecimal form of a colour loses its leading zeros: #ff00 and #ff. *)
Example colors_cut : HexString ColorError = B "#ff0000" /\ HexString ColorSuccess = B "#ff00" /\ HexString ColorInfo = B "#ff".
Proof. vm_compute. repeat split. Qed.

(** The payload of a webhook with a template is never used. *)
Definition custom_discord : Webhook :=
  {| wh_Template := B "discord"; wh_Payload := B "mine"; wh_Method := []; wh_MIMEType := []; wh_ColorMode := [] |}.

Example template_payload_ignored :
  match webhook_Validate custom_discord with
  | inr w => wh_Payload w = B "mine" /\ webhook_MarshalMessage w demo_message = Some (B "{}")
  | inl _ => False
  end.
Proof. vm_compute. split; reflexivity. Qed.

(** A request is sent with the token and the headers of the message. *)
Example ntfy_request :
  option_map nr_url (build_request demo_provider demo_message) = Some (B "http://x/topic").
Proof. vm_compute. reflexivity. Qed.

End Examples.
