(* ===== verification/DockerClient.v ===== *)
(** * Shared Docker clients

    Models internal/docker/client.go: the table of clients with their reference
    counts, the cleaner, and which connection a host name gives.

    The counters are atomics that [Close] and [Clients] change without the lock,
    so a call is split at each of its atomic operations; any interleaving is a
    list of [client_event]s.  [ds_held] are the references that were handed out
    and not given back. *)

From S2P Require Import Prelude GoStrings.

(** ** Data *)

Record SharedClient := {
  sc_refCount : Z;
  sc_closedOn : Z;
  sc_key : bytes;
  sc_unique : bool;
  sc_open : bool                 (* the Docker client was not closed *)
}.

Definition clientTTLSecs : Z := 10.
Definition cleanInterval : Z := 10 * Second.

(** How a client reaches its host. *)
Inductive connection :=
  | ViaAgent (addr : bytes)
  | FromEnv
  | ViaHelper (host : bytes)
  | Direct (host : bytes).

(** [agent]: the name is an agent's, and its address when it is known; [helper]:
    the connection helper's error, no helper, or its host. *)
Definition client_options (host : bytes) (DockerHostFromEnv : bytes) (agent : option (option bytes))
    (helper : option (option bytes)) : result unit connection :=
  match agent with
  | Some None => Panic ExplicitPanic
  | Some (Some addr) => Ok (ViaAgent (B "tcp://" ++ addr))
  | None =>
      if bool_decide (host = []) then Err tt
      else if bool_decide (host = DockerHostFromEnv) then Ok FromEnv
      else
        match helper with
        | None => Panic ExplicitPanic
        | Some (Some h) => Ok (ViaHelper h)
        | Some None => Ok (Direct host)
        end
  end.

(** [ds_lock]: the client that a [NewClient] found and has not counted yet, while
    it holds the lock; [ds_closing]: calls of [Close] before the decrement;
    [ds_copies]: clients copied by [Clients] and not counted yet; [ds_resets]:
    those whose closing time is still to be reset; [ds_exit]: the clients that
    the cleaner closed when the program ended, once it has. *)
Record docker_state := {
  ds_map : gmap bytes nat;
  ds_tab : gmap nat SharedClient;
  ds_lock : option nat;
  ds_closing : list nat;
  ds_copies : list nat;
  ds_resets : list nat;
  ds_held : list nat;
  ds_exit : option (list nat)
}.

Definition initial : docker_state :=
  {| ds_map := ∅; ds_tab := ∅; ds_lock := None; ds_closing := []; ds_copies := []; ds_resets := []; ds_held := [];
     ds_exit := None |}.

(** ** Operations *)

Definition set_closedOn (t : Z) (c : SharedClient) : SharedClient :=
  {| sc_refCount := sc_refCount c; sc_closedOn := t; sc_key := sc_key c; sc_unique := sc_unique c; sc_open := sc_open c |}.

Definition add_ref (n : Z) (c : SharedClient) : SharedClient :=
  {| sc_refCount := sc_refCount c + n; sc_closedOn := sc_closedOn c; sc_key := sc_key c; sc_unique := sc_unique c;
     sc_open := sc_open c |}.

Definition close_conn (c : SharedClient) : SharedClient :=
  {| sc_refCount := sc_refCount c; sc_closedOn := sc_closedOn c; sc_key := sc_key c; sc_unique := sc_unique c;
     sc_open := false |}.

Definition with_tab (t : gmap nat SharedClient) (s : docker_state) : docker_state :=
  {| ds_map := ds_map s; ds_tab := t; ds_lock := ds_lock s; ds_closing := ds_closing s; ds_copies := ds_copies s;
     ds_resets := ds_resets s; ds_held := ds_held s; ds_exit := ds_exit s |}.

Definition hold (id : nat) (s : docker_state) : docker_state :=
  {| ds_map := ds_map s; ds_tab := ds_tab s; ds_lock := ds_lock s; ds_closing := ds_closing s; ds_copies := ds_copies s;
     ds_resets := ds_resets s; ds_held := id :: ds_held s; ds_exit := ds_exit s |}.

Definition set_lock (l : option nat) (s : docker_state) : docker_state :=
  {| ds_map := ds_map s; ds_tab := ds_tab s; ds_lock := l; ds_closing := ds_closing s; ds_copies := ds_copies s;
     ds_resets := ds_resets s; ds_held := ds_held s; ds_exit := ds_exit s |}.

(** Removes one occurrence. *)
Fixpoint remove1 (x : nat) (l : list nat) : list nat :=
  match l with
  | [] => []
  | y :: l => if (y =? x)%nat then l else y :: remove1 x l
  end.

(** [NewClient] up to the count of a client it found, or the whole creation. *)
Definition NewClient_find (host : bytes) (unique created : bool) (s : docker_state) : docker_state :=
  if unique then
    if created then
      let id := fresh (dom (ds_tab s)) in
      hold id (with_tab (<[id := {| sc_refCount := 1; sc_closedOn := 0; sc_key := host; sc_unique := true;
                                    sc_open := true |}]> (ds_tab s)) s)
    else s
  else
    match ds_lock s with
    | Some _ => s
    | None =>
        match ds_map s !! host with
        | Some id => set_lock (Some id) (with_tab (alter (set_closedOn 0) id (ds_tab s)) s)
        | None =>
            if created then
              let id := fresh (dom (ds_tab s)) in
              hold id {| ds_map := <[host := id]> (ds_map s);
                         ds_tab := <[id := {| sc_refCount := 1; sc_closedOn := 0; sc_key := host; sc_unique := false;
                                              sc_open := true |}]> (ds_tab s);
                         ds_lock := None; ds_closing := ds_closing s; ds_copies := ds_copies s;
                         ds_resets := ds_resets s; ds_held := ds_held s; ds_exit := ds_exit s |}
            else s
        end
    end.

Definition NewClient_count (s : docker_state) : docker_state :=
  match ds_lock s with
  | Some id => hold id (set_lock None (with_tab (alter (add_ref 1) id (ds_tab s)) s))
  | None => s
  end.

(** [Close]: the owner of a reference gives it back. *)
Definition Close_begin (id : nat) (now : Z) (s : docker_state) : docker_state :=
  if bool_decide (id ∈ ds_held s) then
    match ds_tab s !! id with
    | Some c =>
        if sc_unique c then
          {| ds_map := ds_map s; ds_tab := alter close_conn id (ds_tab s); ds_lock := ds_lock s;
             ds_closing := ds_closing s; ds_copies := ds_copies s; ds_resets := ds_resets s;
             ds_held := remove1 id (ds_held s); ds_exit := ds_exit s |}
        else
          {| ds_map := ds_map s; ds_tab := alter (set_closedOn now) id (ds_tab s); ds_lock := ds_lock s;
             ds_closing := id :: ds_closing s; ds_copies := ds_copies s; ds_resets := ds_resets s;
             ds_held := remove1 id (ds_held s); ds_exit := ds_exit s |}
    | None => s
    end
  else s.

Definition Close_end (id : nat) (s : docker_state) : docker_state :=
  if bool_decide (id ∈ ds_closing s) then
    {| ds_map := ds_map s; ds_tab := alter (add_ref (-1)) id (ds_tab s); ds_lock := ds_lock s;
       ds_closing := remove1 id (ds_closing s); ds_copies := ds_copies s; ds_resets := ds_resets s;
       ds_held := ds_held s; ds_exit := ds_exit s |}
  else s.

(** Clients nobody uses for longer than the TTL. *)
Definition timed_out (now : Z) (c : SharedClient) : bool :=
  (sc_refCount c =? 0) && (clientTTLSecs <? now - sc_closedOn c).

Definition is_timed_out (now : Z) (s : docker_state) (id : nat) : bool :=
  match ds_tab s !! id with Some c => timed_out now c | None => false end.

(** [closeTimedOutClients], under the lock, at a tick of the cleaner. *)
Definition closeTimedOutClients (now : Z) (s : docker_state) : docker_state :=
  match ds_lock s, ds_exit s with
  | None, None =>
      let dead := filter (fun kid => is_timed_out now s kid.2 = true) (map_to_list (ds_map s)) in
      {| ds_map := filter (fun kid => is_timed_out now s kid.2 = false) (ds_map s);
         ds_tab := fold_left (fun t kid => alter close_conn kid.2 t) dead (ds_tab s);
         ds_lock := None; ds_closing := ds_closing s; ds_copies := ds_copies s; ds_resets := ds_resets s;
         ds_held := ds_held s; ds_exit := ds_exit s |}
  | _, _ => s
  end.

(** The program ends: the cleaner closes every client of the map, whoever holds
    it, and returns. *)
Definition cleaner_exit (s : docker_state) : docker_state :=
  match ds_lock s, ds_exit s with
  | None, None =>
      let all := map_to_list (ds_map s) in
      {| ds_map := ∅; ds_tab := fold_left (fun t kid => alter close_conn kid.2 t) all (ds_tab s);
         ds_lock := None; ds_closing := ds_closing s; ds_copies := ds_copies s; ds_resets := ds_resets s;
         ds_held := ds_held s; ds_exit := Some (map snd all) |}
  | _, _ => s
  end.

(** [Clients]: the copy of the map under the read lock, then the counts. *)
Definition Clients_copy (s : docker_state) : docker_state :=
  match ds_lock s with
  | Some _ => s
  | None =>
      {| ds_map := ds_map s; ds_tab := ds_tab s; ds_lock := None; ds_closing := ds_closing s;
         ds_copies := map snd (map_to_list (ds_map s)) ++ ds_copies s; ds_resets := ds_resets s; ds_held := ds_held s; ds_exit := ds_exit s |}
  end.

Definition Clients_count (id : nat) (s : docker_state) : docker_state :=
  if bool_decide (id ∈ ds_copies s) then
    let first := match ds_tab s !! id with Some c => sc_refCount c + 1 =? 1 | None => false end in
    {| ds_map := ds_map s; ds_tab := alter (add_ref 1) id (ds_tab s); ds_lock := ds_lock s;
       ds_closing := ds_closing s; ds_copies := remove1 id (ds_copies s);
       ds_resets := if first then id :: ds_resets s else ds_resets s; ds_held := id :: ds_held s; ds_exit := ds_exit s |}
  else s.

Definition Clients_reset (id : nat) (s : docker_state) : docker_state :=
  if bool_decide (id ∈ ds_resets s) then
    {| ds_map := ds_map s; ds_tab := alter (set_closedOn 0) id (ds_tab s); ds_lock := ds_lock s;
       ds_closing := ds_closing s; ds_copies := ds_copies s; ds_resets := remove1 id (ds_resets s);
       ds_held := ds_held s; ds_exit := ds_exit s |}
  else s.

Inductive client_event :=
  | NewBegin (host : bytes) (unique created : bool)
  | NewCount
  | CloseBegin (id : nat) (now : Z)
  | CloseEnd (id : nat)
  | Clean (now : Z)
  | CleanerExit
  | CopyAll
  | CountCopy (id : nat)
  | ResetCopy (id : nat).

Definition client_step (s : docker_state) (e : client_event) : docker_state :=
  match e with
  | NewBegin host unique created => NewClient_find host unique created s
  | NewCount => NewClient_count s
  | CloseBegin id now => Close_begin id now s
  | CloseEnd id => Close_end id s
  | Clean now => closeTimedOutClients now s
  | CleanerExit => cleaner_exit s
  | CopyAll => Clients_copy s
  | CountCopy id => Clients_count id s
  | ResetCopy id => Clients_reset id s
  end.

Definition client_run (es : list client_event) (s : docker_state) : docker_state := fold_left client_step es s.

(** ** References *)

Definition cnt (x : nat) (l : list nat) : Z := Z.of_nat (length (filter (eq x) l)).

Lemma cnt_cons x y l : cnt x (y :: l) = (if decide (x = y) then 1 else 0) + cnt x l.
Proof. unfold cnt. rewrite filter_cons. destruct (decide (x = y)); simpl length; lia. Qed.

Lemma cnt_remove1 x y l : y ∈ l -> cnt x (remove1 y l) = cnt x l - (if decide (x = y) then 1 else 0).
Proof.
  induction l as [|z l IH]; simpl; [intros H; by apply elem_of_nil in H|]. intros Hin.
  destruct (Nat.eqb_spec z y) as [->|Hne]; [rewrite cnt_cons; lia|].
  apply elem_of_cons in Hin as [->|Hin]; [done|]. rewrite !cnt_cons, IH by done. lia.
Qed.

Lemma cnt_pos x l : 0 < cnt x l <-> x ∈ l.
Proof.
  induction l as [|y l IH]; [split; [unfold cnt; simpl; lia|intros H; by apply elem_of_nil in H]|].
  rewrite cnt_cons, elem_of_cons, <- IH. assert (0 <= cnt x l) by (unfold cnt; lia). destruct (decide (x = y)); split; intros; try lia; auto.
Qed.

Lemma cnt_nonneg x l : 0 <= cnt x l.
Proof. unfold cnt. lia. Qed.

(** The references of a client: held, or in a [Close] that has not counted yet. *)
Definition refs (s : docker_state) (id : nat) : Z := cnt id (ds_held s) + cnt id (ds_closing s).

Definition closed_at_exit (s : docker_state) : list nat := default [] (ds_exit s).

Record clients_ok (s : docker_state) : Prop := {
  co_map k id : ds_map s !! k = Some id ->
    exists c, ds_tab s !! id = Some c /\ sc_key c = k /\ sc_unique c = false /\ sc_open c = true;
  co_shared id c : ds_tab s !! id = Some c -> sc_unique c = false ->
    sc_refCount c = refs s id /\ (0 < refs s id -> ds_map s !! sc_key c = Some id \/ id ∈ closed_at_exit s);
  co_unique id c : ds_tab s !! id = Some c -> sc_unique c = true ->
    cnt id (ds_closing s) = 0 /\ cnt id (ds_held s) <= 1 /\ (0 < cnt id (ds_held s) -> sc_open c = true);
  co_known id : 0 < refs s id -> is_Some (ds_tab s !! id);
  co_lock id : ds_lock s = Some id -> exists c, ds_tab s !! id = Some c /\ ds_map s !! sc_key c = Some id;
  co_exit id : id ∈ closed_at_exit s -> exists c, ds_tab s !! id = Some c /\ sc_unique c = false /\ sc_open c = false
}.

Lemma initial_ok : clients_ok initial.
Proof. split; simpl; intros *; rewrite ?lookup_empty; try done. intros H. by apply not_elem_of_nil in H. Qed.

(** The id of a new client is not in use. *)
Lemma fresh_unused s : clients_ok s -> ds_tab s !! fresh (dom (ds_tab s)) = None /\ refs s (fresh (dom (ds_tab s))) = 0.
Proof.
  intros H. assert (E : ds_tab s !! fresh (dom (ds_tab s)) = None) by (apply not_elem_of_dom, is_fresh).
  split; [done|]. assert (0 <= refs s (fresh (dom (ds_tab s)))) by (unfold refs; pose proof (cnt_nonneg (fresh (dom (ds_tab s))) (ds_held s)); pose proof (cnt_nonneg (fresh (dom (ds_tab s))) (ds_closing s)); lia).
  destruct (decide (0 < refs s (fresh (dom (ds_tab s))))) as [Hp|Hp]; [|lia].
  apply (co_known _ H) in Hp as [c Hc]. congruence.
Qed.

(** Changing fields of a client other than its key, kind, count and connection. *)
Lemma alter_ok s f (id : nat) lock :
  clients_ok s ->
  (forall c, sc_refCount (f c) = sc_refCount c /\ sc_key (f c) = sc_key c /\ sc_unique (f c) = sc_unique c /\ sc_open (f c) = sc_open c) ->
  (forall i, lock = Some i -> exists c, ds_tab s !! i = Some c /\ ds_map s !! sc_key c = Some i) ->
  clients_ok (set_lock lock (with_tab (alter f id (ds_tab s)) s)).
Proof.
  intros [H1 H2 H3 H4 H5 H6] Hf Hlock.
  assert (Hget : forall i c, alter f id (ds_tab s) !! i = Some c -> exists c0, ds_tab s !! i = Some c0
     /\ sc_refCount c = sc_refCount c0 /\ sc_key c = sc_key c0 /\ sc_unique c = sc_unique c0 /\ sc_open c = sc_open c0).
  { intros i c. rewrite lookup_alter_Some. intros [(-> & c0 & E & ->)|[Hn E]]; [exists c0; split; [done|apply Hf]|eauto 8]. }
  assert (Hput : forall i c0, ds_tab s !! i = Some c0 -> exists c, alter f id (ds_tab s) !! i = Some c
     /\ sc_key c = sc_key c0 /\ sc_unique c = sc_unique c0 /\ sc_open c = sc_open c0).
  { intros i c0 E. destruct (decide (i = id)) as [->|Hn].
    - exists (f c0). rewrite lookup_alter_eq, E. split; [done|]. apply Hf.
    - exists c0. by rewrite lookup_alter_ne by done. }
  split; simpl; unfold refs in *; simpl in *.
  - intros k i E. destruct (H1 k i E) as (c0 & E0 & ? & ? & ?). destruct (Hput i c0 E0) as (c & Ec & ? & ? & ?).
    exists c. split; [done|]. split; [congruence|]. split; congruence.
  - intros i c E Hu. destruct (Hget i c E) as (c0 & E0 & Er & Ek & Eu & _). rewrite Er, Ek. apply H2; [done|congruence].
  - intros i c E Hu. destruct (Hget i c E) as (c0 & E0 & _ & _ & Eu & Eo). rewrite Eo. apply (H3 i c0); [done|congruence].
  - intros i Hi. destruct (H4 i Hi) as [c0 E0]. destruct (Hput i c0 E0) as (c & Ec & _). eauto.
  - intros i Hi. destruct (Hlock i Hi) as (c0 & E0 & Em). destruct (Hput i c0 E0) as (c & Ec & Ek & _). exists c. split; [done|by rewrite Ek].
  - intros i Hi. destruct (H6 i Hi) as (c0 & E0 & U & O). destruct (Hput i c0 E0) as (c & Ec & _ & Eu & Eo).
    exists c. split; [done|]. split; congruence.
Qed.

(** A change of the counters of one client together with its references. *)
Lemma refs_ok s s' (id : nat) c f :
  clients_ok s -> ds_tab s !! id = Some c -> ds_map s' = ds_map s -> ds_exit s' = ds_exit s -> ds_tab s' = alter f id (ds_tab s) ->
  sc_key (f c) = sc_key c -> sc_unique (f c) = sc_unique c ->
  (forall i, i <> id -> cnt i (ds_held s') = cnt i (ds_held s) /\ cnt i (ds_closing s') = cnt i (ds_closing s)) ->
  (sc_unique c = false -> sc_open (f c) = sc_open c /\ sc_refCount (f c) = refs s' id
     /\ (0 < refs s' id -> ds_map s !! sc_key c = Some id \/ id ∈ closed_at_exit s)) ->
  (sc_unique c = true -> cnt id (ds_closing s') = 0 /\ cnt id (ds_held s') <= 1 /\ (0 < cnt id (ds_held s') -> sc_open (f c) = true)) ->
  (ds_lock s' = None \/ ds_lock s' = ds_lock s) ->
  clients_ok s'.
Proof.
  intros [H1 H2 H3 H4 H5 H6] E Em Ex Et Hk Hu Hcnt Hsh Hun Hl.
  assert (Exl : closed_at_exit s' = closed_at_exit s) by (unfold closed_at_exit; by rewrite Ex).
  assert (Hget : forall i, ds_tab s' !! i = if decide (i = id) then Some (f c) else ds_tab s !! i).
  { intros i. rewrite Et. destruct (decide (i = id)) as [->|Hn]; [by rewrite lookup_alter_eq, E|by rewrite lookup_alter_ne by done]. }
  assert (Hrefs : forall i, i <> id -> refs s' i = refs s i).
  { intros i Hi. unfold refs. destruct (Hcnt i Hi) as [-> ->]. done. }
  split; rewrite ?Em, ?Exl.
  - intros k i Ei. rewrite Hget. destruct (H1 k i Ei) as (c0 & E0 & K & U & O).
    destruct (decide (i = id)) as [->|Hn]; [|eauto]. simplify_eq. destruct (Hsh U) as (Ho & _). exists (f c). split; [done|].
    split; [done|]. split; [congruence|]. by rewrite Ho.
  - intros i c' Ei U. rewrite Hget in Ei. destruct (decide (i = id)) as [->|Hn]; [|rewrite Hrefs by done; by apply H2].
    simplify_eq. rewrite Hu in U. destruct (Hsh U) as (_ & Hr & Hm). split; [done|]. by rewrite Hk.
  - intros i c' Ei U. rewrite Hget in Ei. destruct (decide (i = id)) as [->|Hn].
    + simplify_eq. rewrite Hu in U. auto.
    + destruct (Hcnt i Hn) as [-> ->]. by apply H3.
  - intros i Hi. rewrite Hget. destruct (decide (i = id)); [done|]. apply H4. by rewrite <- Hrefs.
  - intros i Hi. destruct Hl as [Hl|Hl]; [congruence|]. rewrite Hl in Hi. destruct (H5 i Hi) as (c0 & E0 & M). rewrite Hget.
    destruct (decide (i = id)) as [->|Hn]; [|eauto]. simplify_eq. exists (f c). split; [done|by rewrite Hk].
  - intros i Hi. destruct (H6 i Hi) as (c0 & E0 & U & O). rewrite Hget. destruct (decide (i = id)) as [->|Hn]; [|eauto].
    simplify_eq. destruct (Hsh U) as (Ho & _). exists (f c). split; [done|]. split; congruence.
Qed.

Lemma ok_NewCount s : clients_ok s -> clients_ok (NewClient_count s).
Proof.
  intros Hs. unfold NewClient_count. destruct (ds_lock s) as [id|] eqn:El; [|done].
  destruct (co_lock _ Hs id El) as (c & E & M). destruct (co_map _ Hs _ _ M) as (c0 & E0 & _ & U & O). simplify_eq.
  destruct (co_shared _ Hs _ _ E U) as [Hr _].
  apply (refs_ok s _ id c (add_ref 1)); try done; simpl.
  - intros i Hi. rewrite cnt_cons, decide_False by done. lia.
  - intros _. split; [done|]. unfold refs in *. simpl. rewrite cnt_cons, decide_True by done. split; [lia|by left].
  - congruence.
  - by left.
Qed.

Lemma ok_CloseBegin s id now : clients_ok s -> clients_ok (Close_begin id now s).
Proof.
  intros Hs. unfold Close_begin. case_bool_decide as Hin; [|done]. destruct (ds_tab s !! id) as [c|] eqn:E; [|done].
  apply cnt_pos in Hin as Hpos. destruct (sc_unique c) eqn:U.
  - destruct (co_unique _ Hs _ _ E U) as (H1 & H2 & H3).
    apply (refs_ok s _ id c close_conn); try done; simpl; [|congruence| |by right].
    + intros i Hi. rewrite cnt_remove1, decide_False by done. lia.
    + intros _. rewrite cnt_remove1, decide_True by done. split; [done|]. split; [lia|]. lia.
  - destruct (co_shared _ Hs _ _ E U) as [Hr Hm].
    apply (refs_ok s _ id c (set_closedOn now)); try done; simpl; [| |congruence|by right].
    + intros i Hi. rewrite cnt_remove1, decide_False by done. rewrite cnt_cons, decide_False by done. lia.
    + intros _. unfold refs in *. simpl. rewrite cnt_remove1, decide_True by done. rewrite cnt_cons, decide_True by done.
      split; [done|]. split; [lia|]. intros _. apply Hm. pose proof (cnt_nonneg id (ds_closing s)). lia.
Qed.

Lemma ok_CloseEnd s id : clients_ok s -> clients_ok (Close_end id s).
Proof.
  intros Hs. unfold Close_end. case_bool_decide as Hin; [|done]. apply cnt_pos in Hin as Hpos.
  pose proof (cnt_nonneg id (ds_held s)).
  destruct (co_known _ Hs id) as [c E]; [unfold refs; lia|].
  destruct (sc_unique c) eqn:U; [destruct (co_unique _ Hs _ _ E U) as (H1 & _); lia|].
  destruct (co_shared _ Hs _ _ E U) as [Hr Hm].
  apply (refs_ok s _ id c (add_ref (-1))); try done; simpl; [| |congruence|by right].
  - intros i Hi. rewrite cnt_remove1, decide_False by done. lia.
  - intros _. unfold refs in *. simpl. rewrite cnt_remove1, decide_True by done. split; [done|]. split; [lia|].
    intros _. apply Hm. lia.
Qed.

(** A client that was just made, with its first reference. *)
Lemma ok_created s host unique :
  clients_ok s -> (unique = false -> ds_map s !! host = None /\ ds_lock s = None) ->
  let id := fresh (dom (ds_tab s)) in
  clients_ok {| ds_map := if unique : bool then ds_map s else <[host := id]> (ds_map s);
                ds_tab := <[id := {| sc_refCount := 1; sc_closedOn := 0; sc_key := host; sc_unique := unique;
                                     sc_open := true |}]> (ds_tab s);
                ds_lock := ds_lock s; ds_closing := ds_closing s; ds_copies := ds_copies s; ds_resets := ds_resets s;
                ds_held := id :: ds_held s; ds_exit := ds_exit s |}.
Proof.
  intros Hs Hnew id. destruct (fresh_unused s Hs) as [En Er]. fold id in En, Er. unfold refs in Er.
  pose proof (cnt_nonneg id (ds_held s)). pose proof (cnt_nonneg id (ds_closing s)).
  assert (Hsame : forall i, i <> id -> cnt i (id :: ds_held s) = cnt i (ds_held s)).
  { intros i Hi. rewrite cnt_cons, decide_False by done. lia. }
  assert (Hself : cnt id (id :: ds_held s) = 1) by (rewrite cnt_cons, decide_True by done; lia).
  assert (Hmap : forall k i, ds_map s !! k = Some i -> i <> id).
  { intros k i Hk ->. destruct (co_map _ Hs _ _ Hk) as (c & E & _). congruence. }
  split; unfold refs; simpl.
  - intros k i Hk. destruct (decide (i = id)) as [->|Hi].
    + rewrite lookup_insert_eq. eexists. split; [done|]. destruct unique; [by apply Hmap in Hk|].
      apply lookup_insert_Some in Hk as [[-> _]|[_ Hk]]; [done|by apply Hmap in Hk].
    + rewrite lookup_insert_ne by done. destruct unique; [by apply (co_map _ Hs)|].
      apply lookup_insert_Some in Hk as [[_ ?]|[_ Hk]]; [congruence|by apply (co_map _ Hs)].
  - intros i c. destruct (decide (i = id)) as [->|Hi].
    + rewrite lookup_insert_eq. intros [= <-] U. simpl in *. subst. rewrite Hself. split; [lia|]. intros _. left. apply lookup_insert_eq.
    + rewrite lookup_insert_ne by done. intros E U. rewrite Hsame by done. destruct (co_shared _ Hs _ _ E U) as [H1 H2].
      split; [exact H1|]. intros Hp. destruct (H2 Hp) as [H3|H3]; [left|by right]. destruct unique; [done|].
      rewrite lookup_insert_ne; [done|]. intros Ek. destruct (Hnew eq_refl) as [Hno _]. rewrite Ek in Hno. congruence.
  - intros i c. destruct (decide (i = id)) as [->|Hi].
    + rewrite lookup_insert_eq. intros [= <-] U. rewrite Hself. split; [lia|]. split; [lia|done].
    + rewrite lookup_insert_ne by done. intros E U. rewrite Hsame by done. by apply (co_unique _ Hs _ _ E).
  - intros i Hi. destruct (decide (i = id)) as [->|Hn]; [by rewrite lookup_insert_eq|]. rewrite lookup_insert_ne by done.
    rewrite Hsame in Hi by done. by apply (co_known _ Hs).
  - intros i Hi. destruct unique; [|destruct (Hnew eq_refl); congruence].
    destruct (co_lock _ Hs i Hi) as (c & E & M). exists c. rewrite lookup_insert_ne; [done|]. congruence.
  - intros i Hi. destruct (co_exit _ Hs i Hi) as (c & E & U & O). exists c. rewrite lookup_insert_ne; [done|]. congruence.
Qed.

Lemma ok_NewBegin s host unique created : clients_ok s -> clients_ok (NewClient_find host unique created s).
Proof.
  intros Hs. unfold NewClient_find. destruct unique.
  - destruct created; [|done]. exact (ok_created s host true Hs ltac:(done)).
  - destruct (ds_lock s) eqn:El; [done|]. destruct (ds_map s !! host) as [id|] eqn:Em.
    + apply alter_ok; [done|done|]. intros i [= <-]. destruct (co_map _ Hs _ _ Em) as (c & E & <- & _). eauto.
    + destruct created; [|done]. pose proof (ok_created s host false Hs ltac:(done)) as H. by rewrite El in H.
Qed.

Lemma close_fold_lookup l : forall (t : gmap nat SharedClient) id,
  fold_left (fun t (kid : bytes * nat) => alter close_conn kid.2 t) l t !! id =
    if decide (id ∈ map snd l) then close_conn <$> t !! id else t !! id.
Proof.
  induction l as [|[k i] l IH]; intros t id; cbn [fold_left map snd].
  { destruct (decide _) as [H|H]; [by apply elem_of_nil in H|done]. }
  rewrite IH. destruct (decide (id = i)) as [->|Hn].
  - rewrite lookup_alter_eq, (decide_True (P := i ∈ i :: _)) by (by left).
    destruct (decide _); [|done]. by destruct (t !! i).
  - rewrite lookup_alter_ne by done. destruct (decide (id ∈ map snd l)) as [H|H].
    + by rewrite decide_True by (by right).
    + rewrite decide_False; [done|]. by intros [?|?]%elem_of_cons.
Qed.

Lemma ok_Clean s now : clients_ok s -> clients_ok (closeTimedOutClients now s).
Proof.
  intros Hs. unfold closeTimedOutClients. destruct (ds_lock s) eqn:El; [done|]. destruct (ds_exit s) eqn:Ex; [done|].
  assert (Hnone : closed_at_exit s = []) by (unfold closed_at_exit; by rewrite Ex).
  set (dead := filter _ (map_to_list (ds_map s))).
  assert (Hdead : forall id, id ∈ map snd dead <-> exists k, ds_map s !! k = Some id /\ is_timed_out now s id = true).
  { intros id. rewrite list_elem_of_fmap. split.
    - intros ([k i] & -> & [H1 H2]%list_elem_of_filter). apply elem_of_map_to_list in H2. eauto.
    - intros (k & H1 & H2). exists (k, id). split; [done|]. apply list_elem_of_filter. split; [done|]. by apply elem_of_map_to_list. }
  assert (Hunref : forall id, id ∈ map snd dead -> refs s id = 0).
  { intros id (k & Hk & Ht)%Hdead. destruct (co_map _ Hs _ _ Hk) as (c & E & _ & U & _). unfold is_timed_out in Ht. rewrite E in Ht.
    unfold timed_out in Ht. apply andb_true_iff in Ht as [Ht%Z.eqb_eq _]. destruct (co_shared _ Hs _ _ E U) as [Hr _]. lia. }
  assert (Hget : forall id c, fold_left (fun t (kid : bytes * nat) => alter close_conn kid.2 t) dead (ds_tab s) !! id = Some c ->
    exists c0, ds_tab s !! id = Some c0 /\ sc_refCount c = sc_refCount c0 /\ sc_key c = sc_key c0 /\ sc_unique c = sc_unique c0
      /\ (id ∉ map snd dead -> sc_open c = sc_open c0)).
  { intros id c. rewrite close_fold_lookup. destruct (decide _) as [Hd|Hd]; [|intros E; exists c; done].
    rewrite fmap_Some. intros (c0 & E & ->). exists c0. done. }
  split; unfold refs; simpl.
  - intros k id. rewrite map_lookup_filter_Some. intros [Hk Ht]. simpl in Ht. destruct (co_map _ Hs _ _ Hk) as (c & E & K & U & O).
    exists c. rewrite close_fold_lookup, decide_False; [done|]. intros (k' & _ & Ht')%Hdead. congruence.
  - intros id c E U. destruct (Hget _ _ E) as (c0 & E0 & Er & Ek & Eu & _). rewrite Er, Ek.
    destruct (co_shared _ Hs id c0 E0) as [H1 H2]; [congruence|]. split; [exact H1|]. intros Hp. left. apply map_lookup_filter_Some.
    destruct (H2 Hp) as [Hm|Hm]; [|rewrite Hnone in Hm; by apply not_elem_of_nil in Hm]. split; [done|]. simpl. unfold is_timed_out. rewrite E0. unfold timed_out.
    destruct (sc_refCount c0 =? 0) eqn:Ez; [|done]. apply Z.eqb_eq in Ez. unfold refs in *. lia.
  - intros id c E U. destruct (Hget _ _ E) as (c0 & E0 & _ & _ & Eu & Eo). rewrite Eo; [apply (co_unique _ Hs _ _ E0); congruence|].
    intros (k & Hk & _)%Hdead. destruct (co_map _ Hs _ _ Hk) as (c1 & E1 & _ & U1 & _). congruence.
  - intros id Hp. destruct (co_known _ Hs id Hp) as [c E]. rewrite close_fold_lookup, E. by destruct (decide _).
  - done.
  - intros id Hid. by apply not_elem_of_nil in Hid.
Qed.

Lemma ok_exit s : clients_ok s -> clients_ok (cleaner_exit s).
Proof.
  intros Hs. unfold cleaner_exit. destruct (ds_lock s) eqn:El; [done|]. destruct (ds_exit s) eqn:Ex; [done|].
  set (all := map_to_list (ds_map s)).
  assert (Hall : forall id, id ∈ map snd all <-> exists k, ds_map s !! k = Some id).
  { intros id. rewrite list_elem_of_fmap. split.
    - intros ([k i] & -> & H). apply elem_of_map_to_list in H. eauto.
    - intros [k H]. exists (k, id). split; [done|]. by apply elem_of_map_to_list. }
  assert (Hget : forall id c, fold_left (fun t (kid : bytes * nat) => alter close_conn kid.2 t) all (ds_tab s) !! id = Some c ->
    exists c0, ds_tab s !! id = Some c0 /\ sc_refCount c = sc_refCount c0 /\ sc_key c = sc_key c0 /\ sc_unique c = sc_unique c0
      /\ (id ∉ map snd all -> sc_open c = sc_open c0)).
  { intros id c. rewrite close_fold_lookup. destruct (decide _) as [Hd|Hd]; [|intros E; exists c; done].
    rewrite fmap_Some. intros (c0 & E & ->). exists c0. done. }
  split; unfold refs; simpl.
  - intros k id. by rewrite lookup_empty.
  - intros id c E U. destruct (Hget _ _ E) as (c0 & E0 & Er & Ek & Eu & _). rewrite Er.
    destruct (co_shared _ Hs id c0 E0) as [H1 H2]; [congruence|]. split; [exact H1|]. intros Hp. right. apply Hall.
    destruct (H2 Hp) as [Hm|Hm]; [by eexists|]. unfold closed_at_exit in Hm. rewrite Ex in Hm. by apply not_elem_of_nil in Hm.
  - intros id c E U. destruct (Hget _ _ E) as (c0 & E0 & _ & _ & Eu & Eo). rewrite Eo; [apply (co_unique _ Hs _ _ E0); congruence|].
    intros [k Hk]%Hall. destruct (co_map _ Hs _ _ Hk) as (c1 & E1 & _ & U1 & _). congruence.
  - intros id Hp. destruct (co_known _ Hs id Hp) as [c E]. rewrite close_fold_lookup, E. by destruct (decide _).
  - done.
  - intros id Hid. rewrite close_fold_lookup, decide_True by done. apply Hall in Hid as [k Hk].
    destruct (co_map _ Hs _ _ Hk) as (c & E & _ & U & _). rewrite E. exists (close_conn c). done.
Qed.

(** The events without those of [Clients]. *)
Definition no_copies (es : list client_event) : Prop :=
  Forall (fun e => match e with CopyAll | CountCopy _ | ResetCopy _ => False | _ => True end) es.

Lemma client_run_ok es : forall s, no_copies es -> clients_ok s -> clients_ok (client_run es s).
Proof.
  induction es as [|e es IH]; intros s Hes Hs; [done|]. apply Forall_cons in Hes as [He Hes]. apply IH; [done|].
  destruct e; simpl; try done;
    [by apply ok_NewBegin|by apply ok_NewCount|by apply ok_CloseBegin|by apply ok_CloseEnd|by apply ok_Clean|by apply ok_exit].
Qed.

Lemma exit_step s e : e <> CleanerExit -> ds_exit (client_step s e) = ds_exit s.
Proof.
  intros He. destruct e as [h [] []| | | | | | | |]; simpl; try done;
    unfold NewClient_find, NewClient_count, Close_begin, Close_end, closeTimedOutClients, Clients_copy, Clients_count, Clients_reset;
    repeat case_match; done.
Qed.

Lemma no_exit_run es : forall s, CleanerExit ∉ es -> ds_exit (client_run es s) = ds_exit s.
Proof.
  induction es as [|e es IH]; intros s Hno; [done|]. apply not_elem_of_cons in Hno as [He Hno].
  simpl. rewrite IH by done. by apply exit_step.
Qed.

(** C37: over every interleaving of the atomic steps of [NewClient], [Close] (at
    most once for each reference) and the cleaner, without calls of [Clients]:
    until the program ends, the connection of every client somebody holds is
    open; when it ends, the cleaner closes the shared clients of that moment,
    also those somebody holds, and no held client besides them is ever closed.
    The reference count of a shared client is always the number of its holders
    and of the calls of [Close] that have not finished. *)
Theorem held_clients_open es :
  no_copies es ->
  let s := client_run es initial in
  (forall id, id ∈ ds_held s ->
     exists c, ds_tab s !! id = Some c /\ (sc_open c = true <-> id ∉ closed_at_exit s))
  /\ (CleanerExit ∉ es -> closed_at_exit s = [])
  /\ (forall id c, ds_tab s !! id = Some c -> sc_unique c = false -> sc_refCount c = refs s id).
Proof.
  intros Hes s. assert (Hs : clients_ok s) by (by apply client_run_ok, initial_ok). split; [|split].
  - intros id Hid%cnt_pos. pose proof (cnt_nonneg id (ds_closing s)).
    destruct (co_known _ Hs id) as [c E]; [unfold refs; lia|]. exists c. split; [done|]. split.
    { intros O Hx. destruct (co_exit _ Hs id Hx) as (c' & E' & _ & O'). congruence. }
    intros Hx. destruct (sc_unique c) eqn:U; [by apply (co_unique _ Hs _ _ E U)|].
    destruct (co_shared _ Hs _ _ E U) as [_ Hm]. destruct Hm as [Hm|Hm]; [unfold refs; lia| |done].
    destruct (co_map _ Hs (sc_key c) id Hm) as (c0 & E0 & _ & _ & O). congruence.
  - intros Hno. unfold closed_at_exit, s. by rewrite (no_exit_run es initial Hno).
  - intros id c E U. by apply (co_shared _ Hs _ _ E).
Qed.

Definition local_socket : bytes := B "unix:///var/run/docker.sock".

(** Two users of one host; the cleaner runs while one still holds the client. *)
Definition two_users : list client_event :=
  [NewBegin local_socket false true; NewBegin local_socket false true; NewCount; CloseBegin 0 100; CloseEnd 0; Clean 200].

(** At the end of the program the client is closed under its holder. *)
Lemma held_clients_open_witness :
  ds_held (client_run two_users initial) = [0%nat]
  /\ (exists c, ds_tab (client_run two_users initial) !! 0%nat = Some c /\ sc_open c = true)
  /\ ds_held (client_run (two_users ++ [CleanerExit]) initial) = [0%nat]
  /\ exists c, ds_tab (client_run (two_users ++ [CleanerExit]) initial) !! 0%nat = Some c /\ sc_open c <> true.
Proof.
  assert (Hes : no_copies two_users) by (repeat constructor).
  assert (Hes' : no_copies (two_users ++ [CleanerExit])) by (repeat constructor).
  split; [vm_compute; reflexivity|]. split; [|split; [vm_compute; reflexivity|]].
  - destruct (held_clients_open two_users Hes) as (Ho & _). destruct (Ho 0%nat) as (c & E & H); [vm_compute; left|].
    exists c. split; [exact E|]. apply H. apply (bool_decide_eq_true_1 (_ ∉ _)). vm_compute. reflexivity.
  - destruct (held_clients_open (two_users ++ [CleanerExit]) Hes') as (Ho & _). destruct (Ho 0%nat) as (c & E & H); [vm_compute; left|].
    exists c. split; [exact E|]. intros O. apply (proj1 H O). apply (bool_decide_eq_true_1 (_ ∈ _)). vm_compute. reflexivity.
Defined.

(** [Clients] counts after it released the lock: the cleaner may close a client
    between the copy and the count, and the caller gets a closed one. *)
Definition copy_race : list client_event :=
  [NewBegin local_socket false true; CloseBegin 0 100; CloseEnd 0; CopyAll; Clean 200; CountCopy 0].

Example copied_client_closed :
  let s := client_run copy_race initial in
  ds_held s = [0%nat] /\ (sc_open <$> ds_tab s !! 0%nat) = Some false.
Proof. vm_compute. split; reflexivity. Qed.
