(* ===== verification/Autocert.v ===== *)
(** * Certificates

    Models internal/autocert: the configuration (config.go), obtaining, loading
    and renewing certificates (provider.go, setup.go) with the file that puts
    failed requests on a cooldown, and the renewal scheduler.

    The disk and the memory of a provider are one state; a restart (of the
    process, or a reload of the configuration, which builds a new provider) keeps
    the disk only.  What the ACME server, the clock and the file system answer to
    a call is its [acme_env].  X.509 parsing, calendar arithmetic and RFC 3339
    are parameters ([AcmeLib]).  The test flag is off. *)

From S2P Require Import Prelude GoStrings.

(** ** Data *)

Record Config := {
  cf_Email : bytes;
  cf_Domains : list bytes;
  cf_CertPath : bytes;
  cf_KeyPath : bytes;
  cf_ACMEKeyPath : bytes;
  cf_Provider : bytes;
  cf_CADirURL : bytes;
  cf_CACerts : list bytes;
  cf_EABKid : bytes;
  cf_EABHmac : bytes;
  cf_challenge : option bytes        (* the DNS provider that was constructed *)
}.

Definition ProviderLocal : bytes := B "local".
Definition ProviderPseudo : bytes := B "pseudo".
Definition ProviderCustom : bytes := B "custom".

Definition CertFileDefault : bytes := B "certs/cert.crt".
Definition KeyFileDefault : bytes := B "certs/priv.key".
Definition ACMEKeyFileDefault : bytes := B "certs/acme.key".

Inductive acme_config_error :=
  | ErrMissingDomain
  | ErrMissingEmail
  | ErrMissingCADirURL
  | ErrInvalidDomain (i : nat)
  | ErrUnknownProvider
  | ErrProviderOptions.

Record x509 := { x_IsCA : bool; x_CommonName : bytes; x_DNSNames : list bytes; x_NotAfter : Z }.

(** [certificate.Resource]: the chain and the private key in PEM. *)
Record Resource := { r_Certificate : bytes; r_PrivateKey : bytes }.

Inductive CertState := CertStateValid | CertStateExpired | CertStateMismatch.

(** Errors; [notexist] tells whether [errors.Is(err, os.ErrNotExist)]. *)
Inductive cert_error :=
  | ErrGetCertFailure                 (* still in cooldown *)
  | ErrFile (notexist : bool)
  | ErrClient
  | ErrRegister
  | ErrObtain
  | ErrKeyPair
  | ErrParse.

Definition is_not_exist (e : cert_error) : bool := match e with ErrFile b => b | _ => false end.

Class AcmeLib := {
  X509KeyPair : bytes -> bytes -> option (list bytes);     (* certificate, key: the DER chain *)
  ParseCertificate : bytes -> option x509;
  month_before : Z -> Z;                                   (* AddDate(0, -1, 0) *)
  format_RFC3339 : Z -> bytes;
  parse_RFC3339 : bytes -> option Z
}.

(** The zero [time.Time], in nanoseconds of the Unix epoch. *)
Definition zeroTime : Z := -62135596800 * Second.

Definition renewalCooldownDuration : Z := 3600 * Second.
Definition requestCooldownDuration : Z := 15 * Second.

(** Answers to one call.  A failed file operation tells whether the error is
    [ErrNotExist]; a failed write of the failure file
    also the content it left there, unless the file was not touched. *)
Record acme_env := {
  e_last : Z;                         (* clock: the scheduler's cooldown check *)
  e_state : Z;                        (* clock: certState *)
  e_check : Z;                        (* clock: the cooldown check of ObtainCert *)
  e_mark : Z;                         (* clock: UpdateLastFailure *)
  e_again : Z;                        (* clock: UpdateLastFailure of the scheduler *)
  e_pick : nat;                       (* which entry a range over the expiries yields *)
  e_read : bool;                      (* the failure file is readable, if it exists *)
  e_load : option bool;
  e_write : option (bool * option bytes);
  e_write2 : option (bool * option bytes);
  e_remove : option bool;
  e_remove2 : option bool;
  e_client : bool;
  e_resolve : bool;
  e_register : bool -> bool;          (* with external account binding, or without *)
  e_renew : option Resource;
  e_obtain : option Resource;
  e_stat : option bool;
  e_mkdir : option bool;
  e_writekey : option bool;
  e_writecert : option bool
}.

Record disk := { d_failfile : option bytes; d_keyfile : option bytes; d_certfile : option bytes }.

Record Provider := {
  p_lastFailure : Z;
  p_client : bool;
  p_registration : bool;
  p_legoCert : option Resource;
  p_tlsCert : option (list bytes);
  p_certExpiries : gmap bytes Z
}.

(** [s_timer] is the timer of the renewal goroutine, which is gone when
    [s_scheduler] is false; [s_requests] are the attempts that went on to the
    account and the order at the ACME server: when, and whether the certificate
    was installed, the last first; [s_directory] are the times the directory of
    the server was fetched, each with the attempts made by then. *)
Record acme_state := {
  s_disk : disk;
  s_prov : Provider;
  s_scheduler : bool;
  s_timer : option Z;
  s_requests : list (Z * bool);
  s_directory : list (Z * list (Z * bool))
}.

(** ** Updates *)

Definition with_disk (f : disk -> disk) (s : acme_state) : acme_state :=
  {| s_disk := f (s_disk s); s_prov := s_prov s; s_scheduler := s_scheduler s; s_timer := s_timer s;
     s_requests := s_requests s; s_directory := s_directory s |}.

Definition with_prov (f : Provider -> Provider) (s : acme_state) : acme_state :=
  {| s_disk := s_disk s; s_prov := f (s_prov s); s_scheduler := s_scheduler s; s_timer := s_timer s;
     s_requests := s_requests s; s_directory := s_directory s |}.

Definition with_timer (running : bool) (t : option Z) (s : acme_state) : acme_state :=
  {| s_disk := s_disk s; s_prov := s_prov s; s_scheduler := running; s_timer := t;
     s_requests := s_requests s; s_directory := s_directory s |}.

Definition with_requests (f : list (Z * bool) -> list (Z * bool)) (s : acme_state) : acme_state :=
  {| s_disk := s_disk s; s_prov := s_prov s; s_scheduler := s_scheduler s; s_timer := s_timer s;
     s_requests := f (s_requests s); s_directory := s_directory s |}.

Definition add_fetch (t : Z) (s : acme_state) : acme_state :=
  {| s_disk := s_disk s; s_prov := s_prov s; s_scheduler := s_scheduler s; s_timer := s_timer s;
     s_requests := s_requests s; s_directory := (t, s_requests s) :: s_directory s |}.

Definition set_failfile (f : option bytes) (d : disk) : disk :=
  {| d_failfile := f; d_keyfile := d_keyfile d; d_certfile := d_certfile d |}.
Definition set_keyfile (f : bytes) (d : disk) : disk :=
  {| d_failfile := d_failfile d; d_keyfile := Some f; d_certfile := d_certfile d |}.
Definition set_certfile (f : bytes) (d : disk) : disk :=
  {| d_failfile := d_failfile d; d_keyfile := d_keyfile d; d_certfile := Some f |}.

Definition set_lastFailure (t : Z) (p : Provider) : Provider :=
  {| p_lastFailure := t; p_client := p_client p; p_registration := p_registration p; p_legoCert := p_legoCert p;
     p_tlsCert := p_tlsCert p; p_certExpiries := p_certExpiries p |}.
Definition set_client (p : Provider) : Provider :=
  {| p_lastFailure := p_lastFailure p; p_client := true; p_registration := p_registration p; p_legoCert := p_legoCert p;
     p_tlsCert := p_tlsCert p; p_certExpiries := p_certExpiries p |}.
Definition set_registration (p : Provider) : Provider :=
  {| p_lastFailure := p_lastFailure p; p_client := p_client p; p_registration := true; p_legoCert := p_legoCert p;
     p_tlsCert := p_tlsCert p; p_certExpiries := p_certExpiries p |}.
Definition set_legoCert (c : option Resource) (p : Provider) : Provider :=
  {| p_lastFailure := p_lastFailure p; p_client := p_client p; p_registration := p_registration p; p_legoCert := c;
     p_tlsCert := p_tlsCert p; p_certExpiries := p_certExpiries p |}.
Definition set_cert (c : list bytes) (x : gmap bytes Z) (p : Provider) : Provider :=
  {| p_lastFailure := p_lastFailure p; p_client := p_client p; p_registration := p_registration p;
     p_legoCert := p_legoCert p; p_tlsCert := Some c; p_certExpiries := x |}.

Definition NewProvider : Provider :=
  {| p_lastFailure := zeroTime; p_client := false; p_registration := false; p_legoCert := None; p_tlsCert := None;
     p_certExpiries := ∅ |}.

(** ** Configuration *)

(** The expression ^\*?([^.]+\.)+[^.]+$ : a star is one of the characters of the
    first label as well. *)
Definition domainOrWildcardRE (d : bytes) : bool :=
  let labels := Split d "."%char in
  bool_decide (2 <= length labels)%nat && forallb (fun l => negb (bool_decide (l = []))) labels.

Definition set_Provider (x : bytes) (c : Config) : Config :=
  {| cf_Email := cf_Email c; cf_Domains := cf_Domains c; cf_CertPath := cf_CertPath c; cf_KeyPath := cf_KeyPath c;
     cf_ACMEKeyPath := cf_ACMEKeyPath c; cf_Provider := x; cf_CADirURL := cf_CADirURL c; cf_CACerts := cf_CACerts c; cf_EABKid := cf_EABKid c;
     cf_EABHmac := cf_EABHmac c; cf_challenge := cf_challenge c |}.
Definition set_challenge (x : bytes) (c : Config) : Config :=
  {| cf_Email := cf_Email c; cf_Domains := cf_Domains c; cf_CertPath := cf_CertPath c; cf_KeyPath := cf_KeyPath c;
     cf_ACMEKeyPath := cf_ACMEKeyPath c; cf_Provider := cf_Provider c; cf_CADirURL := cf_CADirURL c; cf_CACerts := cf_CACerts c;
     cf_EABKid := cf_EABKid c; cf_EABHmac := cf_EABHmac c; cf_challenge := Some x |}.
Definition set_paths (a b k : bytes) (c : Config) : Config :=
  {| cf_Email := cf_Email c; cf_Domains := cf_Domains c; cf_CertPath := a; cf_KeyPath := b;
     cf_ACMEKeyPath := k; cf_Provider := cf_Provider c; cf_CADirURL := cf_CADirURL c; cf_CACerts := cf_CACerts c;
     cf_EABKid := cf_EABKid c; cf_EABHmac := cf_EABHmac c; cf_challenge := cf_challenge c |}.

(** A provider that needs an account: neither local nor pseudo. *)
Definition uses_acme (name : bytes) : bool :=
  negb (bool_decide (name = ProviderLocal)) && negb (bool_decide (name = ProviderPseudo)).

Definition invalid_domains (ds : list bytes) : list acme_config_error :=
  flat_map (fun '(i, d) => if domainOrWildcardRE d then [] else [ErrInvalidDomain i]) (imap pair ds).

(** [Providers]: the registered constructors, each with whether it accepts the
    options. *)
Definition Validate (Providers : gmap bytes bool) (c : Config) : list acme_config_error * Config :=
  if bool_decide (cf_Provider c = []) then ([], set_Provider ProviderLocal c)
  else
    let name := cf_Provider c in
    let custom := bool_decide (name = ProviderCustom) in
    let e1 := if custom && bool_decide (cf_CADirURL c = []) then [ErrMissingCADirURL] else [] in
    let '(e2, c) :=
      if uses_acme name then
        let ed := if bool_decide (cf_Domains c = []) then [ErrMissingDomain] else [] in
        let ee := if bool_decide (cf_Email c = []) then [ErrMissingEmail] else [] in
        let ei := if custom then [] else invalid_domains (cf_Domains c) in
        let '(ep, c) :=
          match Providers !! name with
          | None => (if custom then [] else [ErrUnknownProvider], c)
          | Some false => ([ErrProviderOptions], c)
          | Some true => ([], set_challenge name c)
          end in
        (ed ++ ee ++ ei ++ ep, c)
      else ([], c) in
    let c := match cf_challenge c with None => set_challenge ProviderLocal c | Some _ => c end in
    (e1 ++ e2, c).

Definition or_default (x d : bytes) : bytes := if bool_decide (x = []) then d else x.

Definition cert_paths (c : Config) : Config :=
  set_paths (or_default (cf_CertPath c) CertFileDefault) (or_default (cf_KeyPath c) KeyFileDefault)
    (or_default (cf_ACMEKeyPath c) ACMEKeyFileDefault) c.

(** What GetLegoConfig makes of a configuration: the key of the account and the
    settings of the ACME client that differ from lego's defaults. *)
Inductive acme_key := NoKey | LoadedKey | GeneratedKey.
Record lego_config := { lc_key : acme_key; lc_email : bytes; lc_CADirURL : option bytes; lc_certpool : bool }.

Inductive lego_error := LegoInvalid (es : list acme_config_error) | LegoGenerate | LegoSave | LegoCertPool.

(** [load], [gen], [save], [pool]: whether reading and parsing the key, making
    one, saving it and reading the CA certificates succeed. *)
Definition GetLegoConfig (Providers : gmap bytes bool) (load gen save pool : bool) (c : Config) :
    lego_error + (lego_config * Config) :=
  let '(es, c) := Validate Providers c in
  if bool_decide (es <> []) then inl (LegoInvalid es)
  else
    let c := cert_paths c in
    let key :=
      if uses_acme (cf_Provider c) then
        if load then inr LoadedKey
        else if gen then (if save then inr GeneratedKey else inl LegoSave) else inl LegoGenerate
      else inr NoKey in
    match key with
    | inl e => inl e
    | inr k =>
        let url := if bool_decide (cf_CADirURL c = []) then None else Some (cf_CADirURL c) in
        if bool_decide (cf_CACerts c = []) then inr ({| lc_key := k; lc_email := cf_Email c; lc_CADirURL := url; lc_certpool := false |}, c)
        else if pool then inr ({| lc_key := k; lc_email := cf_Email c; lc_CADirURL := url; lc_certpool := true |}, c)
        else inl LegoCertPool
    end.

(** ** Certificates *)

Section Operations.
Context `{AcmeLib}.

Definition add_names (c : x509) (m : gmap bytes Z) : gmap bytes Z :=
  foldl (fun m n => <[n := x_NotAfter c]> m) (<[x_CommonName c := x_NotAfter c]> m) (x_DNSNames c).

Fixpoint cert_expiries (chain : list bytes) (m : gmap bytes Z) : option (gmap bytes Z) :=
  match chain with
  | [] => Some m
  | d :: rest =>
      c ← ParseCertificate d;
      cert_expiries rest (if x_IsCA c then m else add_names c m)
  end.

Definition getCertExpiries (chain : list bytes) : option (gmap bytes Z) := cert_expiries chain ∅.

(** The entry a range over the map yields first is any of them. *)
Definition some_expiry (i : nat) (m : gmap bytes Z) : option Z := snd <$> (map_to_list m !! (i mod size m)%nat).

Definition ShouldRenewOn (i : nat) (p : Provider) : result cert_error Z :=
  match some_expiry i (p_certExpiries p) with
  | Some t => Ok (month_before t)
  | None => Panic ExplicitPanic
  end.

Definition GetCert (p : Provider) : result cert_error (list bytes) :=
  match p_tlsCert p with Some c => Ok c | None => Err ErrGetCertFailure end.

(** ** The failure file *)

(** The time of the last failure, or the error of reading the file. *)
Definition GetLastFailure (e : acme_env) (s : acme_state) : result cert_error Z * acme_state :=
  if p_lastFailure (s_prov s) =? zeroTime then
    match d_failfile (s_disk s) with
    | None => (Ok zeroTime, s)
    | Some data =>
        if e_read e then
          let t := default zeroTime (parse_RFC3339 data) in (Ok t, with_prov (set_lastFailure t) s)
        else (Err (ErrFile false), s)
    end
  else (Ok (p_lastFailure (s_prov s)), s).

Definition UpdateLastFailure (t : Z) (w : option (bool * option bytes)) (s : acme_state) : result cert_error unit * acme_state :=
  let s := with_prov (set_lastFailure t) s in
  match w with
  | None => (Ok tt, with_disk (set_failfile (Some (format_RFC3339 t))) s)
  | Some (ne, None) => (Err (ErrFile ne), s)
  | Some (ne, Some remains) => (Err (ErrFile ne), with_disk (set_failfile (Some remains)) s)
  end.

Definition ClearLastFailure (r : option bool) (s : acme_state) : result cert_error unit * acme_state :=
  let s := with_prov (set_lastFailure zeroTime) s in
  match d_failfile (s_disk s), r with
  | None, _ => (Err (ErrFile true), s)
  | Some _, None => (Ok tt, with_disk (set_failfile None) s)
  | Some _, Some ne => (Err (ErrFile ne), s)
  end.

(** ** Obtaining *)

Definition registerACME (cfg : Config) (e : acme_env) (s : acme_state) : result cert_error unit * acme_state :=
  if p_registration (s_prov s) then (Ok tt, s)
  else if e_resolve e then (Ok tt, with_prov set_registration s)
  else if e_register e (bool_decide (cf_EABKid cfg <> [] /\ cf_EABHmac cfg <> [])) then (Ok tt, with_prov set_registration s)
  else (Err ErrRegister, s).

Definition saveCert (e : acme_env) (c : Resource) (s : acme_state) : result cert_error unit * acme_state :=
  let dir :=
    match e_stat e with
    | None => Ok tt
    | Some true => match e_mkdir e with None => Ok tt | Some ne => Err (ErrFile ne) end
    | Some false => Err (ErrFile false)
    end in
  match dir with
  | Ok _ =>
      match e_writekey e with
      | Some ne => (Err (ErrFile ne), s)
      | None =>
          let s := with_disk (set_keyfile (r_PrivateKey c)) s in
          match e_writecert e with
          | Some ne => (Err (ErrFile ne), s)
          | None => (Ok tt, with_disk (set_certfile (r_Certificate c)) s)
          end
      end
  | Err x => (Err x, s)
  | Panic x => (Panic x, s)
  end.

(** Renewal of the certificate that was obtained before, if any, then a new one. *)
Definition request_cert (e : acme_env) (s : acme_state) : option Resource * acme_state :=
  let '(cert, s) :=
    match p_legoCert (s_prov s) with
    | Some _ => (e_renew e, with_prov (set_legoCert (e_renew e)) s)
    | None => (None, s)
    end in
  match cert with
  | Some c => (Some c, s)
  | None => (e_obtain e, s)
  end.

Definition mark_installed (l : list (Z * bool)) : list (Z * bool) :=
  match l with (t, _) :: l => (t, true) :: l | [] => [] end.

(** [lego.NewClient] fetches the directory of the ACME server. *)
Definition initClient (e : acme_env) (s : acme_state) : result cert_error unit * acme_state :=
  let s := add_fetch (e_check e) s in
  if e_client e then (Ok tt, with_prov set_client s) else (Err ErrClient, s).

(** [ObtainCert] up to the client: [None] when it goes on. *)
Definition obtain_enter (cfg : Config) (e : acme_env) (s : acme_state) : option (result cert_error unit) * acme_state :=
  if negb (uses_acme (cf_Provider cfg)) then (Some (Ok tt), s)
  else
    match GetLastFailure e s with
    | (Err x, s) => (Some (Err x), s)
    | (Panic x, s) => (Some (Panic x), s)
    | (Ok lastFailure, s) =>
        if e_check e - lastFailure <? requestCooldownDuration then (Some (Err ErrGetCertFailure), s)
        else if p_client (s_prov s) then (None, s)
        else
          match initClient e s with
          | (Ok _, s) => (None, s)
          | (r, s) => (Some r, s)
          end
    end.

(** [ObtainCert] up to the mark that a failure leaves: [None] when it goes on to
    the account and the order. *)
Definition obtain_begin (cfg : Config) (e : acme_env) (s : acme_state) : option (result cert_error unit) * acme_state :=
  match obtain_enter cfg e s with
  | (None, s) =>
      match UpdateLastFailure (e_mark e) (e_write e) s with
      | (Ok _, s) => (None, with_requests (cons (e_mark e, false)) s)
      | (r, s) => (Some r, s)
      end
  | r => r
  end.

Definition obtain_finish (cfg : Config) (e : acme_env) (s : acme_state) : result cert_error unit * acme_state :=
  match registerACME cfg e s with
  | (Ok _, s) =>
      match request_cert e s with
      | (None, s) => (Err ErrObtain, s)
      | (Some cert, s) =>
          match saveCert e cert s with
          | (Ok _, s) =>
              match X509KeyPair (r_Certificate cert) (r_PrivateKey cert) with
              | None => (Err ErrKeyPair, s)
              | Some chain =>
                  match getCertExpiries chain with
                  | None => (Err ErrParse, s)
                  | Some x => ClearLastFailure (e_remove e) (with_requests mark_installed (with_prov (set_cert chain x) s))
                  end
              end
          | r => r
          end
      end
  | r => r
  end.

Definition ObtainCert (cfg : Config) (e : acme_env) (s : acme_state) : result cert_error unit * acme_state :=
  match obtain_begin cfg e s with
  | (Some r, s) => (r, s)
  | (None, s) => obtain_finish cfg e s
  end.

(** ** Loading and renewing *)

Definition certState (cfg : Config) (e : acme_env) (p : Provider) : result cert_error CertState :=
  match ShouldRenewOn (e_pick e) p with
  | Ok t =>
      if t <? e_state e then Ok CertStateExpired
      else if negb (bool_decide (size (p_certExpiries p) = length (cf_Domains cfg))) then Ok CertStateMismatch
      else if forallb (fun d => bool_decide (is_Some (p_certExpiries p !! d))) (cf_Domains cfg) then Ok CertStateValid
      else Ok CertStateMismatch
  | Err x => Err x
  | Panic x => Panic x
  end.

Definition renewIfNeeded (cfg : Config) (e : acme_env) (s : acme_state) : result cert_error unit * acme_state :=
  if bool_decide (cf_Provider cfg = ProviderLocal) then (Ok tt, s)
  else
    match certState cfg e (s_prov s) with
    | Ok CertStateValid => (Ok tt, s)
    | Ok _ => ObtainCert cfg e s
    | Err x => (Err x, s)
    | Panic x => (Panic x, s)
    end.

(** [tls.LoadX509KeyPair]: the certificate is read first, then the key. *)
Definition LoadX509KeyPair (e : acme_env) (d : disk) : result cert_error (list bytes) :=
  match e_load e with
  | Some ne => Err (ErrFile ne)
  | None =>
      match d_certfile d, d_keyfile d with
      | Some c, Some k => match X509KeyPair c k with Some chain => Ok chain | None => Err ErrKeyPair end
      | _, _ => Err (ErrFile true)
      end
  end.

Definition LoadCert (cfg : Config) (e : acme_env) (s : acme_state) : result cert_error unit * acme_state :=
  match LoadX509KeyPair e (s_disk s) with
  | Ok chain =>
      match getCertExpiries chain with
      | Some x =>
          let s := with_prov (set_cert chain x) s in
          match ShouldRenewOn (e_pick e) (s_prov s) with
          | Ok _ => renewIfNeeded cfg e s
          | Err x => (Err x, s)
          | Panic x => (Panic x, s)
          end
      | None => (Err ErrParse, s)
      end
  | Err x => (Err x, s)
  | Panic x => (Panic x, s)
  end.

(** [e2] answers the second attempt. *)
Definition Setup (cfg : Config) (e e2 : acme_env) (s : acme_state) : result cert_error unit * acme_state :=
  match LoadCert cfg e s with
  | (Err x, s) => if is_not_exist x then ObtainCert cfg e2 s else (Err x, s)
  | r => r
  end.

(** ** The renewal scheduler *)

(** The goroutine starts: its timer is armed, or it panics. *)
Definition ScheduleRenewal (cfg : Config) (e : acme_env) (s : acme_state) : result cert_error unit * acme_state :=
  if negb (uses_acme (cf_Provider cfg)) then (Ok tt, s)
  else
    match ShouldRenewOn (e_pick e) (s_prov s) with
    | Ok t => (Ok tt, with_timer true (Some t) s)
    | Err x => (Err x, s)
    | Panic x => (Panic x, s)
    end.

(** One firing of the timer, which is spent; only the end of the body resets it. *)
Definition fire (cfg : Config) (e : acme_env) (s : acme_state) : result cert_error unit * acme_state :=
  let s := with_timer true None s in
  match GetLastFailure e s with
  | (Err _, s) => (Ok tt, s)
  | (Panic x, s) => (Panic x, s)
  | (Ok lastFailure, s) =>
      if negb (lastFailure =? zeroTime) && (e_last e - lastFailure <? renewalCooldownDuration) then (Ok tt, s)
      else
        match renewIfNeeded cfg e s with
        | (Err _, s) => let '(_, s) := UpdateLastFailure (e_again e) (e_write2 e) s in (Ok tt, s)
        | (Panic x, s) => (Panic x, s)
        | (Ok _, s) =>
            let '(_, s) := ClearLastFailure (e_remove2 e) s in
            match ShouldRenewOn (e_pick e) (s_prov s) with
            | Ok t => (Ok tt, with_timer true (Some t) s)
            | Err x => (Err x, s)
            | Panic x => (Panic x, s)
            end
        end
  end.

(** ** Runs *)

Inductive acme_event :=
  | Restart                                   (* the process or the configuration *)
  | SetupE (e e2 : acme_env)
  | ObtainE (e : acme_env)                    (* the renew endpoint of the API *)
  | DieE (e : acme_env)                       (* the process dies with the client, before the mark *)
  | CrashE (e : acme_env)                     (* the process dies after the mark *)
  | ScheduleE (e : acme_env)
  | FireE (e : acme_env).

Definition restart (s : acme_state) : acme_state := with_timer false None (with_prov (fun _ => NewProvider) s).

(** A panic ends the process. *)
Definition or_restart (r : result cert_error unit * acme_state) : acme_state :=
  match r with (Panic _, s) => restart s | (_, s) => s end.

Definition acme_step (cfg : Config) (s : acme_state) (ev : acme_event) : acme_state :=
  match ev with
  | Restart => restart s
  | SetupE e e2 => or_restart (Setup cfg e e2 s)
  | ObtainE e => or_restart (ObtainCert cfg e s)
  | DieE e => restart (snd (obtain_enter cfg e s))
  | CrashE e => restart (snd (obtain_begin cfg e s))
  | ScheduleE e => or_restart (ScheduleRenewal cfg e s)
  | FireE e =>
      match s_scheduler s, s_timer s with
      | true, Some t => if t <=? e_last e then or_restart (fire cfg e s) else s
      | _, _ => s
      end
  end.

Definition acme_run (cfg : Config) (es : list acme_event) (s : acme_state) : acme_state := fold_left (acme_step cfg) es s.

Definition acme_init (d : disk) : acme_state :=
  {| s_disk := d; s_prov := NewProvider; s_scheduler := false; s_timer := None; s_requests := [];
     s_directory := [] |}.

End Operations.

(** ** The cooldown of requests *)

Definition to_second (t : Z) : Z := t / Second * Second.

(** The clocks of a call do not run backwards. *)
Definition env_ordered (now : Z) (e : acme_env) : Prop :=
  now <= e_last e <= e_state e /\ e_state e <= e_check e <= e_mark e /\ e_mark e <= e_again e.

(** A failed write of the scheduler leaves the failure file as it was. *)
Definition keeps_file (e : acme_env) : Prop := forall ne c, e_write2 e <> Some (ne, Some c).

Definition envs (ev : acme_event) : list acme_env :=
  match ev with
  | Restart => []
  | SetupE e e2 => [e; e2]
  | ObtainE e | DieE e | CrashE e | ScheduleE e | FireE e => [e]
  end.

Fixpoint in_order (now : Z) (es : list acme_env) : Prop :=
  match es with
  | [] => True
  | e :: es => env_ordered now e /\ keeps_file e /\ in_order (e_again e) es
  end.

Definition chronological (now : Z) (es : list acme_event) : Prop := in_order now (flat_map envs es).

Section Cooldown.
Context `{AcmeLib}.
Hypothesis RFC3339_seconds : forall t, parse_RFC3339 (format_RFC3339 t) = Some (to_second t).

Definition margin : Z := 14 * Second.

(** A request that did not succeed is on record, on disk and in memory, or is old. *)
Definition on_record (now t : Z) (s : acme_state) : Prop :=
  (exists f u, d_failfile (s_disk s) = Some f /\ parse_RFC3339 f = Some u /\ to_second t <= u) /\
  (p_lastFailure (s_prov s) = zeroTime \/ to_second t <= p_lastFailure (s_prov s)) \/
  margin < now - t.

Fixpoint spaced (l : list (Z * bool)) : Prop :=
  match l with
  | [] => True
  | (t2, _) :: l =>
      match l with [] => True | (t1, b) :: _ => b = false -> margin < t2 - t1 end /\ spaced l
  end.

(** A fetch of the directory keeps its distance to the last attempt, if that
    failed. *)
Definition cool (f : Z * list (Z * bool)) : Prop :=
  match f.2 with (t1, false) :: _ => margin < f.1 - t1 | _ => True end.

Record acme_inv (now : Z) (s : acme_state) : Prop := {
  inv_spaced : spaced (s_requests s);
  inv_record : forall t l, s_requests s = (t, false) :: l -> 0 <= t <= now /\ on_record now t s;
  inv_fetches : Forall cool (s_directory s)
}.

Lemma second_pos : Second = 1000000000.
Proof. reflexivity. Qed.

Lemma to_second_bounds t : t - Second < to_second t <= t.
Proof. unfold to_second. rewrite second_pos. pose proof (Z.div_mod t 1000000000 ltac:(lia)). pose proof (Z.mod_pos_bound t 1000000000 ltac:(lia)). lia. Qed.

Lemma to_second_mono a b : a <= b -> to_second a <= to_second b.
Proof. intros. unfold to_second. rewrite second_pos. pose proof (Z.div_le_mono a b 1000000000 ltac:(lia) ltac:(lia)). lia. Qed.

Lemma to_second_after_zero t : 0 <= t -> zeroTime < to_second t.
Proof. intros Ht. pose proof (to_second_bounds t). unfold zeroTime. rewrite second_pos in *. lia. Qed.

Lemma inv_later now now' s : now <= now' -> acme_inv now s -> acme_inv now' s.
Proof.
  intros Hn [Hs Hr Hf]. split; [done| |done]. intros t l E. destruct (Hr t l E) as [? [?|?]]; (split; [lia|]); [by left|right; lia].
Qed.

(** The invariant reads the failure file, the memory of it and the logs. *)
Definition view (s : acme_state) := (d_failfile (s_disk s), p_lastFailure (s_prov s), s_requests s, s_directory s).

Definition logs (s : acme_state) := (s_requests s, s_directory s).

Lemma inv_view now s s' : view s' = view s -> acme_inv now s -> acme_inv now s'.
Proof.
  unfold view. intros E [Hs Hr Hf]. inversion E as [[E1 E2 E3 E4]]. split; [by rewrite E3| |by rewrite E4].
  intros t l El. rewrite E3 in El. destruct (Hr t l El) as [? Hrec]. split; [done|]. unfold on_record. by rewrite E1, E2.
Qed.

Lemma inv_head_true now s s' :
  s_requests s' = mark_installed (s_requests s) -> s_directory s' = s_directory s -> acme_inv now s -> acme_inv now s'.
Proof.
  intros E Ed [Hs Hr Hf]. split; [| |by rewrite Ed].
  - rewrite E. destruct (s_requests s) as [|[??]?]; done.
  - intros t l El. rewrite E in El. destruct (s_requests s) as [|[??]?]; simpl in El; congruence.
Qed.

Lemma GetLastFailure_inv now e s r s' :
  GetLastFailure e s = (r, s') -> acme_inv now s ->
  acme_inv now s' /\ logs s' = logs s /\
  (forall lf t l, r = Ok lf -> s_requests s = (t, false) :: l -> zeroTime < lf /\ to_second t <= lf \/ margin < now - t).
Proof.
  unfold GetLastFailure. intros E Hi. destruct (Z.eqb_spec (p_lastFailure (s_prov s)) zeroTime) as [Hz|Hz].
  - destruct (d_failfile (s_disk s)) as [f|] eqn:Ef; [destruct (e_read e)|]; simplify_eq.
    + split; [|split; [done|]].
      * destruct Hi as [Hs Hr Hf]. split; [done| |done]. intros t l El. destruct (Hr t l El) as [? [[(f' & u & Ef' & Eu & Hu) _]|?]];
          (split; [done|]); [left|by right]. simplify_eq. split; [by eexists _, _|]. right. simpl. by rewrite Eu.
      * intros lf t l Elf El. destruct (inv_record _ _ Hi t l El) as [? [[(f' & u & Ef' & Eu & Hu) _]|?]]; [left|by right].
        simplify_eq. rewrite Eu. simpl. pose proof (to_second_after_zero t). lia.
    + done.
    + split; [done|]. split; [done|]. intros lf t l Elf El.
      destruct (inv_record _ _ Hi t l El) as [? [[(f' & u & Ef' & Eu & Hu) _]|?]]; [congruence|by right].
  - simplify_eq. split; [done|]. split; [done|]. intros lf t l Elf El.
    destruct (inv_record _ _ Hi t l El) as [? [[_ [?|?]]|?]]; [done|left|by right]. simplify_eq.
    pose proof (to_second_after_zero t). lia.
Qed.

(** Marking a failure keeps the record of the last request. *)
Lemma Update_inv now t w s r s' :
  UpdateLastFailure t w s = (r, s') -> acme_inv now s -> now <= t ->
  (forall ne c t0 l, w = Some (ne, Some c) -> s_requests s = (t0, false) :: l -> margin < now - t0) ->
  acme_inv t s' /\ logs s' = logs s.
Proof.
  intros E Hi Hle Hw. split; [|by unfold UpdateLastFailure in E; destruct w as [[? [?|]]|]; simplify_eq].
  apply (inv_later _ t) in Hi as Ht; [|done]. destruct Ht as [Hs Hr Hd]. unfold UpdateLastFailure in E.
  destruct w as [[ne [c|]]|]; simplify_eq; (split; [done| |done]); simpl; intros t0 l El; destruct (Hr t0 l El) as [? Hrec]; (split; [done|]).
  - right. pose proof (Hw ne c t0 l eq_refl El). lia.
  - destruct Hrec as [[Hf _]|?]; [left|by right]. split; [done|]. right. simpl. pose proof (to_second_bounds t0). lia.
  - left. split; [exists (format_RFC3339 t), (to_second t); simpl; split; [done|]; split; [by rewrite RFC3339_seconds|]|right; simpl].
    + apply to_second_mono. lia.
    + pose proof (to_second_bounds t0). lia.
Qed.

(** What holds when [ObtainCert] goes on past the cooldown: the last attempt, if
    it failed, is old. *)
Lemma enter_inv cfg now e s r s' :
  obtain_enter cfg e s = (r, s') -> acme_inv now s -> 0 <= now -> env_ordered now e ->
  acme_inv (e_check e) s' /\ s_requests s' = s_requests s
  /\ (r = None -> forall t l, s_requests s = (t, false) :: l -> margin < e_check e - t).
Proof.
  unfold obtain_enter, env_ordered. intros E Hi H0 Ho.
  apply (inv_later _ (e_check e)) in Hi; [|lia]. destruct (uses_acme _); simpl in E; [|by simplify_eq].
  destruct (GetLastFailure e s) as [[lf|x|x] s1] eqn:Eg; destruct (GetLastFailure_inv _ _ _ _ _ Eg Hi) as (Hi1 & Eq & Hlf);
    unfold logs in Eq; injection Eq as Eq Eqd; [|by simplify_eq..].
  destruct (Z.ltb_spec (e_check e - lf) requestCooldownDuration) as [|Hc]; [by simplify_eq|].
  assert (Hold : forall t l, s_requests s = (t, false) :: l -> margin < e_check e - t).
  { intros t l El. destruct (Hlf lf t l eq_refl El) as [[_ ?]|?]; [|done]. pose proof (to_second_bounds t).
    unfold requestCooldownDuration, margin in *. rewrite second_pos in *. lia. }
  assert (Hcool : cool (e_check e, s_requests s1)).
  { unfold cool. cbn [fst snd]. rewrite Eq. destruct (s_requests s) as [|[t []] l]; [done..|]. by apply (Hold t l). }
  destruct (p_client _); [by simplify_eq|]. unfold initClient in E.
  destruct (e_client e); simplify_eq; (split; [|done]); destruct Hi1 as [Hs Hr Hf]; split; try done; by constructor.
Qed.

Lemma begin_inv cfg now e s r s' :
  obtain_begin cfg e s = (r, s') -> acme_inv now s -> 0 <= now -> env_ordered now e -> acme_inv (e_mark e) s'.
Proof.
  unfold obtain_begin. intros E Hi H0 Ho. destruct (obtain_enter cfg e s) as [re s1] eqn:Ee.
  destruct (enter_inv _ _ _ _ _ _ Ee Hi H0 Ho) as (Hi1 & Eq & Hold). unfold env_ordered in Ho.
  destruct re as [re|]; [simplify_eq; eapply inv_later, Hi1; lia|]. specialize (Hold eq_refl).
  destruct (UpdateLastFailure _ _ _) as [ru s2] eqn:Eu.
  destruct (Update_inv (e_check e) _ _ _ _ _ Eu Hi1) as [Hi2 Eq2]; [lia| |].
  { intros ne c t0 l _ El. apply (Hold t0 l). by rewrite <- Eq. }
  unfold logs in Eq2. injection Eq2 as Eq2 Eqd2.
  destruct ru; simplify_eq; try done. destruct Hi2 as [Hs2 Hr2 Hf2].
  assert (Hnew : spaced ((e_mark e, false) :: s_requests s2)).
  { split; [|done]. rewrite Eq2, Eq. destruct (s_requests s) as [|[t1 b] l] eqn:El; [done|]. intros ->.
    pose proof (Hold t1 l eq_refl). lia. }
  split; [done| |done]. simpl. intros t l El. simplify_eq. split; [lia|]. left.
  unfold UpdateLastFailure in Eu. destruct (e_write e) as [[? [?|]]|]; simplify_eq. simpl.
  split; [exists (format_RFC3339 (e_mark e)), (to_second (e_mark e)); by rewrite RFC3339_seconds|right; apply to_second_bounds].
Qed.

Lemma registerACME_view cfg e s r s' : registerACME cfg e s = (r, s') -> view s' = view s.
Proof. unfold registerACME. repeat case_match; intros; by simplify_eq. Qed.

Lemma request_cert_view e s r s' : request_cert e s = (r, s') -> view s' = view s.
Proof. unfold request_cert. repeat case_match; intros; by simplify_eq. Qed.

Lemma saveCert_view e c s r s' : saveCert e c s = (r, s') -> view s' = view s.
Proof. unfold saveCert. repeat case_match; intros; by simplify_eq. Qed.

(** After the mark only an installed certificate changes the record. *)
Lemma finish_requests cfg e s r s' :
  obtain_finish cfg e s = (r, s') ->
  view s' = view s /\ r <> Ok tt \/ s_requests s' = mark_installed (s_requests s) /\ s_directory s' = s_directory s.
Proof.
  unfold obtain_finish. destruct (registerACME cfg e s) as [r1 s1] eqn:E1. apply registerACME_view in E1.
  destruct r1; [|by intros [= <- <-]; left..]. destruct (request_cert e s1) as [r2 s2] eqn:E2. apply request_cert_view in E2.
  rewrite E1 in E2. destruct r2 as [c|]; [|by intros [= <- <-]; left]. destruct (saveCert e c s2) as [r3 s3] eqn:E3.
  apply saveCert_view in E3. rewrite E2 in E3. destruct r3; [|by intros [= <- <-]; left..].
  destruct (X509KeyPair _ _) as [chain|]; [|by intros [= <- <-]; left].
  destruct (getCertExpiries chain); [|by intros [= <- <-]; left].
  unfold ClearLastFailure. intros E. right.
  assert (Eq : s_requests s3 = s_requests s /\ s_directory s3 = s_directory s) by (unfold view in E3; split; congruence).
  destruct Eq as [Eq Eqd]. repeat case_match; simplify_eq; simpl; by rewrite Eq, Eqd.
Qed.

Lemma begin_result cfg e s r s' :
  obtain_begin cfg e s = (r, s') ->
  (r = Some (Ok tt) -> s' = s) /\ (r = None -> exists l, s_requests s' = (e_mark e, false) :: l).
Proof.
  unfold obtain_begin, obtain_enter, initClient. destruct (uses_acme _); simpl; [|by intros; simplify_eq].
  destruct (GetLastFailure e s) as [[lf|x|x] s1]; [|by intros; simplify_eq..].
  destruct (_ <? _); [by intros; simplify_eq|].
  unfold UpdateLastFailure. destruct (p_client _), (e_client e); simpl; destruct (e_write e) as [[? [?|]]|]; intros;
    simplify_eq; try done; (split; [done|]); simpl; eauto.
Qed.

Lemma obtain_inv cfg now e s r s' :
  ObtainCert cfg e s = (r, s') -> acme_inv now s -> 0 <= now -> env_ordered now e -> acme_inv (e_mark e) s'.
Proof.
  unfold ObtainCert. intros E Hi H0 Ho. destruct (obtain_begin cfg e s) as [rb s1] eqn:Eb.
  pose proof (begin_inv _ _ _ _ _ _ Eb Hi H0 Ho) as Hi1. destruct rb; [by simplify_eq|].
  destruct (finish_requests _ _ _ _ _ E) as [[? _]|[? ?]]; [by eapply inv_view|by eapply inv_head_true].
Qed.

Lemma renew_inv cfg now e s r s' :
  renewIfNeeded cfg e s = (r, s') -> acme_inv now s -> 0 <= now -> env_ordered now e -> acme_inv (e_mark e) s'.
Proof.
  unfold renewIfNeeded. intros E Hi H0 Ho.
  assert (acme_inv (e_mark e) s) by (eapply inv_later, Hi; unfold env_ordered in Ho; lia).
  repeat case_match; simplify_eq; eauto using obtain_inv.
Qed.

Lemma load_inv cfg now e s r s' :
  LoadCert cfg e s = (r, s') -> acme_inv now s -> 0 <= now -> env_ordered now e -> acme_inv (e_mark e) s'.
Proof.
  unfold LoadCert. intros E Hi H0 Ho.
  assert (Hm : acme_inv (e_mark e) s) by (eapply inv_later, Hi; unfold env_ordered in Ho; lia).
  destruct (LoadX509KeyPair _ _) as [chain| |]; [|by simplify_eq..]. destruct (getCertExpiries chain) as [x|]; [|by simplify_eq].
  destruct (ShouldRenewOn _ _); [|by simplify_eq; eapply inv_view, Hm..].
  eapply renew_inv; [done| |done|done]. by eapply inv_view, Hi.
Qed.

Lemma setup_inv cfg now e e2 s r s' :
  Setup cfg e e2 s = (r, s') -> acme_inv now s -> 0 <= now -> env_ordered now e -> env_ordered (e_again e) e2 ->
  acme_inv (e_again e2) s'.
Proof.
  unfold Setup. intros E Hi H0 Ho Ho2. destruct (LoadCert cfg e s) as [rl s1] eqn:El.
  pose proof (load_inv _ _ _ _ _ _ El Hi H0 Ho) as Hl. unfold env_ordered in Ho, Ho2.
  assert (Hl2 : acme_inv (e_again e2) s1) by (eapply inv_later, Hl; lia).
  destruct rl as [|x|]; simplify_eq; try done. destruct (is_not_exist x); simplify_eq; [|done].
  eapply inv_later, (obtain_inv cfg (e_again e) e2); [|done|eapply inv_later, Hl|..]; unfold env_ordered; lia.
Qed.

Lemma clear_logs o s r s' : ClearLastFailure o s = (r, s') -> logs s' = logs s.
Proof. unfold ClearLastFailure. repeat case_match; intros; by simplify_eq. Qed.

(** An old request does not need its record any more. *)
Lemma inv_old now s s' :
  logs s' = logs s -> acme_inv now s ->
  (forall t l, s_requests s = (t, false) :: l -> margin < now - t) -> acme_inv now s'.
Proof.
  unfold logs. intros [= E Ed] [Hs Hr Hf] Hold. split; [by rewrite E| |by rewrite Ed]. intros t l El. rewrite E in El. destruct (Hr t l El).
  split; [done|]. right. eauto.
Qed.

(** A renewal that reports success leaves no failed request of its own. *)
Lemma renew_ok_requests cfg e s s' :
  renewIfNeeded cfg e s = (Ok tt, s') ->
  s_requests s' = s_requests s \/ (exists t l, s_requests s' = (t, true) :: l).
Proof.
  assert (Ho : ObtainCert cfg e s = (Ok tt, s') -> s_requests s' = s_requests s \/ (exists t l, s_requests s' = (t, true) :: l)).
  { unfold ObtainCert. destruct (obtain_begin cfg e s) as [rb s1] eqn:Eb. destruct (begin_result _ _ _ _ _ Eb) as [H1 H2].
    destruct rb; intros E; simplify_eq; [left; by rewrite H1|right].
    destruct (finish_requests _ _ _ _ _ E) as [[_ ?]|[Ef _]]; [done|]. destruct (H2 eq_refl) as [l El]. rewrite El in Ef. eauto. }
  unfold renewIfNeeded. repeat case_match; intros E; simplify_eq; auto.
Qed.

Lemma fire_inv cfg now e s r s' :
  fire cfg e s = (r, s') -> acme_inv now s -> 0 <= now -> env_ordered now e -> keeps_file e -> acme_inv (e_again e) s'.
Proof.
  unfold fire. intros E Hi H0 Ho Hk. pose proof Ho as Ho'. unfold env_ordered in Ho'.
  destruct (GetLastFailure e (with_timer true None s)) as [rg s1] eqn:Eg.
  destruct (GetLastFailure_inv now _ _ _ _ Eg) as (Hi1 & Eq1 & Hlf); [by eapply inv_view, Hi|].
  assert (Eq1' : s_requests s1 = s_requests s) by (unfold logs in Eq1; simpl in Eq1; congruence).
  assert (Ha : acme_inv (e_again e) s1) by (eapply inv_later, Hi1; lia). destruct rg as [lf|x|x]; [|by simplify_eq..].
  destruct (negb _ && _) eqn:Ec; [by simplify_eq|].
  assert (Hold : forall t l, s_requests s1 = (t, false) :: l -> margin < e_last e - t).
  { intros t l El. rewrite Eq1' in El. destruct (Hlf lf t l eq_refl El) as [[Hz Hl]|?]; [|lia].
    destruct (Z.eqb_spec lf zeroTime); [lia|]. simpl in Ec. apply Z.ltb_ge in Ec. pose proof (to_second_bounds t).
    unfold renewalCooldownDuration, margin in *. rewrite second_pos in *. lia. }
  destruct (renewIfNeeded cfg e s1) as [rr s2] eqn:Er. pose proof (renew_inv _ _ _ _ _ _ Er Hi1 H0 Ho) as Hi2.
  destruct rr as [[]|x|x].
  - assert (Hc : forall s3, logs s3 = logs s2 -> acme_inv (e_again e) s3).
    { intros s3 E3. assert (Hi2' : acme_inv (e_again e) s2) by (eapply inv_later, Hi2; lia).
      eapply inv_old; [done|done|]. destruct (renew_ok_requests _ _ _ _ Er) as [->|(t & l & ->)]; [|done].
      intros t l El. pose proof (Hold t l El). lia. }
    destruct (ClearLastFailure _ s2) as [rc s3] eqn:Ecl. apply clear_logs, Hc in Ecl.
    repeat case_match; simplify_eq; by eapply inv_view, Ecl.
  - destruct (UpdateLastFailure _ _ s2) as [ru s3] eqn:Eu. simplify_eq.
    eapply Update_inv; [done|done|lia|]. intros ne c t0 l Ew. by destruct (Hk ne c).
  - simplify_eq. eapply inv_later, Hi2. lia.
Qed.

Lemma restart_inv now s : acme_inv now s -> acme_inv now (restart s).
Proof.
  intros [Hs Hr Hd]. split; [done| |done]. simpl. intros t l El. destruct (Hr t l El) as [? [[Hf _]|?]]; (split; [done|]); [left|by right].
  split; [done|by left].
Qed.

Lemma or_restart_inv now r s : acme_inv now s -> acme_inv now (or_restart (r, s)).
Proof. destruct r; simpl; auto using restart_inv. Qed.

(** The clock after an event. *)
Definition after (now : Z) (es : list acme_env) : Z := default now (e_again <$> last es).

Lemma acme_step_inv cfg now s ev :
  acme_inv now s -> 0 <= now -> in_order now (envs ev) -> acme_inv (after now (envs ev)) (acme_step cfg s ev).
Proof.
  intros Hi H0 Ho. destruct ev as [|e e2|e|e|e|e|e]; unfold after; simpl in *; [by apply restart_inv|..].
  all: destruct Ho as (Ho & Hk & Ho2); pose proof Ho as Ho'; unfold env_ordered in Ho'.
  - destruct (Setup cfg e e2 s) as [r s1] eqn:E. apply or_restart_inv. by eapply setup_inv; [..|apply Ho2].
  - destruct (ObtainCert cfg e s) as [r s1] eqn:E. apply or_restart_inv. eapply inv_later, obtain_inv; [|done..]. lia.
  - destruct (obtain_enter cfg e s) as [r s1] eqn:E. apply restart_inv.
    destruct (enter_inv _ _ _ _ _ _ E Hi H0 Ho) as [Hi1 _]. eapply inv_later, Hi1. lia.
  - destruct (obtain_begin cfg e s) as [r s1] eqn:E. apply restart_inv. eapply inv_later, begin_inv; [|done..]. lia.
  - assert (Hr : view (snd (ScheduleRenewal cfg e s)) = view s) by (unfold ScheduleRenewal; repeat case_match; done).
    destruct (ScheduleRenewal cfg e s) as [r s1]. apply or_restart_inv. eapply (inv_later now); [lia|]. by apply (inv_view _ s).
  - assert (Hl : acme_inv (e_again e) s) by (eapply inv_later, Hi; lia).
    destruct (s_scheduler s), (s_timer s); try done. destruct (_ <=? _); [|done].
    destruct (fire cfg e s) as [r s1] eqn:E. apply or_restart_inv. by eapply (fire_inv cfg now e s r).
Qed.

Lemma in_order_app now l1 l2 : in_order now (l1 ++ l2) -> in_order now l1 /\ in_order (after now l1) l2.
Proof.
  revert now. induction l1 as [|e l1 IH]; intros now; simpl; [done|]. intros (Ho & Hk & Hr).
  destruct (IH _ Hr) as [H1 H2]. split; [done|]. unfold after in *. rewrite last_cons. by destruct (last l1).
Qed.

Lemma in_order_after now l : in_order now l -> now <= after now l.
Proof.
  revert now. induction l as [|e l IH]; intros now; unfold after; simpl; [lia|]. intros (Ho & Hk & Hr).
  specialize (IH _ Hr). unfold after, env_ordered in *. rewrite last_cons. destruct (last l); simpl in *; lia.
Qed.

Lemma acme_run_inv cfg es : forall now s,
  acme_inv now s -> 0 <= now -> chronological now es -> exists now', acme_inv now' (acme_run cfg es s).
Proof.
  induction es as [|ev es IH]; intros now s Hi H0 Hc; [by exists now|]. unfold chronological in Hc. simpl in Hc.
  destruct (in_order_app _ _ _ Hc) as [H1 H2]. pose proof (in_order_after _ _ H1).
  eapply IH; [by apply acme_step_inv|lia|done].
Qed.

Lemma spaced_pair l1 t2 b2 t1 l2 : spaced (l1 ++ (t2, b2) :: (t1, false) :: l2) -> margin < t2 - t1.
Proof.
  induction l1 as [|[t b] l1 IH]; simpl; [intros [H0 _]; auto|]. intros [_ Hs]. by apply IH.
Qed.

(** C25: the calls are made one after the other, the clock does not run
    backwards, RFC 3339 times are read back to the second, and a failed write of
    the failure file by the scheduler leaves the file as it was. After an attempt
    that went on to the account and the order at the ACME server and did not end
    with an installed certificate, the next such attempt is made more than
    fourteen seconds later, and the directory of the server, which is fetched
    when the client is made and before the attempt is marked, is not fetched
    sooner either; whatever failed, and also when the process crashed or was
    restarted in between (the failure file has a resolution of one second).
    Fetches of the directory that fail before an attempt are not limited. *)
Theorem acme_cooldown cfg d es now :
  0 <= now -> chronological now es ->
  let s := acme_run cfg es (acme_init d) in
  (forall l1 t2 b2 t1 l2, s_requests s = l1 ++ (t2, b2) :: (t1, false) :: l2 -> 14 * Second < t2 - t1)
  /\ (forall t t1 l, (t, (t1, false) :: l) ∈ s_directory s -> 14 * Second < t - t1).
Proof.
  intros H0 Hc s. destruct (acme_run_inv cfg es now (acme_init d)) as [now' [Hs _ Hf]]; [by split|done|done|]. split.
  - intros l1 t2 b2 t1 l2 E. unfold s in E. rewrite E in Hs. by eapply spaced_pair.
  - intros t t1 l Hin. rewrite Forall_forall in Hf. exact (Hf _ Hin).
Qed.

End Cooldown.

(** ** The state of a certificate *)

Section CertFacts.
Context `{AcmeLib}.

Lemma some_expiry_in i m t : some_expiry i m = Some t -> exists n, m !! n = Some t.
Proof.
  unfold some_expiry. intros E. apply fmap_Some in E as ([n t'] & E & ->). exists n.
  apply elem_of_map_to_list. by eapply list_elem_of_lookup_2.
Qed.

Lemma some_expiry_none i m : some_expiry i m = None <-> m = ∅.
Proof.
  unfold some_expiry. rewrite fmap_None, lookup_ge_None, length_map_to_list. split.
  - intros Hl. apply map_size_empty_iff. destruct (size m) eqn:E; [done|]. pose proof (Nat.mod_upper_bound i (S n)). lia.
  - intros ->. rewrite map_size_empty. simpl. lia.
Qed.

(** A certificate is kept iff its renewal date has not passed and its names are
    the configured domains, the order apart. *)
Theorem certState_valid_iff cfg e p t :
  NoDup (cf_Domains cfg) -> ShouldRenewOn (e_pick e) p = Ok t ->
  certState cfg e p = Ok CertStateValid <->
  e_state e <= t /\ dom (p_certExpiries p) = list_to_set (cf_Domains cfg).
Proof.
  intros Hnd Ht. unfold certState. rewrite Ht.
  assert (Hsz : size (list_to_set (cf_Domains cfg) : gset bytes) = length (cf_Domains cfg)) by by apply size_list_to_set.
  destruct (Z.ltb_spec t (e_state e)); [split; [done|lia]|]. case_bool_decide as Hs; simpl.
  - destruct (forallb _ _) eqn:Ef.
    + split; [|done]. intros _. split; [lia|]. symmetry. apply set_subseteq_size_eq.
      * intros n Hn. apply elem_of_list_to_set in Hn. rewrite forallb_forall in Ef. apply elem_of_dom.
        apply list_elem_of_In in Hn. specialize (Ef n Hn). by apply bool_decide_eq_true in Ef.
      * by rewrite size_dom, Hsz, Hs.
    + split; [done|]. intros [_ Hd]. exfalso. apply not_true_iff_false in Ef. apply Ef, forallb_forall. intros n Hn.
      apply bool_decide_eq_true, elem_of_dom. rewrite Hd, elem_of_list_to_set. by apply list_elem_of_In.
  - split; [done|]. intros [_ Hd]. destruct Hs. by rewrite <- size_dom, Hd, Hsz.
Qed.

(** Every name of the map was put there by a certificate of the chain that is not
    a CA's, with the end of its validity. *)
Lemma add_names_lookup c m n t :
  add_names c m !! n = Some t -> m !! n = Some t \/ t = x_NotAfter c /\ (n = x_CommonName c \/ n ∈ x_DNSNames c).
Proof.
  unfold add_names. assert (Hg : forall l (m : gmap bytes Z), foldl (fun m n => <[n := x_NotAfter c]> m) m l !! n = Some t ->
    m !! n = Some t \/ t = x_NotAfter c /\ n ∈ l).
  { induction l as [|a l IH]; simpl; intros m' E; [by left|]. destruct (IH _ E) as [E'|[-> ?]]; [|by right; split; [|right]].
    apply lookup_insert_Some in E' as [[-> <-]|[_ ?]]; [right; split; [done|by left]|by left]. }
  intros E. destruct (Hg _ _ E) as [E'|[-> ?]]; [|by right; split; [|right]].
  apply lookup_insert_Some in E' as [[<- <-]|[_ ?]]; [right; split; [done|by left]|by left].
Qed.

Lemma cert_expiries_lookup chain : forall m r n t,
  cert_expiries chain m = Some r -> r !! n = Some t ->
  m !! n = Some t \/ exists d c, d ∈ chain /\ ParseCertificate d = Some c /\ x_IsCA c = false /\ t = x_NotAfter c /\
    (n = x_CommonName c \/ n ∈ x_DNSNames c).
Proof.
  induction chain as [|d chain IH]; simpl; intros m r n t E Hr; [simplify_eq; by left|].
  apply bind_Some in E as (c & Ep & E). destruct (IH _ _ _ _ E Hr) as [Hm|(d' & c' & ? & ?)].
  - destruct (x_IsCA c) eqn:Eca; [by left|]. destruct (add_names_lookup _ _ _ _ Hm) as [?|[? ?]]; [by left|].
    right. exists d, c. split; [by left|done].
  - right. exists d', c'. split; [by right|done].
Qed.

(** With one certificate that is not a CA's in the chain, the date of renewal does
    not depend on the entry that the range over the map happens to yield. *)
Lemma renewal_date_unique chain d c p i t :
  getCertExpiries chain = Some (p_certExpiries p) ->
  (forall d' c', d' ∈ chain -> ParseCertificate d' = Some c' -> x_IsCA c' = false -> d' = d) ->
  ParseCertificate d = Some c ->
  ShouldRenewOn i p = Ok t -> t = month_before (x_NotAfter c).
Proof.
  unfold ShouldRenewOn, getCertExpiries. intros Hg Hu Hc Ht. destruct (some_expiry _ _) as [x|] eqn:Ex; simplify_eq.
  apply some_expiry_in in Ex as [n Hn]. destruct (cert_expiries_lookup _ _ _ _ _ Hg Hn) as [?|(d' & c' & Hin & Hp & Hca & -> & _)]; [done|].
  rewrite (Hu d' c' Hin Hp Hca) in Hp. by simplify_eq.
Qed.

(** ** What a successful request leaves *)

Lemma finish_ok cfg e s s' :
  obtain_finish cfg e s = (Ok tt, s') ->
  exists cert chain x, d_certfile (s_disk s') = Some (r_Certificate cert) /\ d_keyfile (s_disk s') = Some (r_PrivateKey cert) /\
    X509KeyPair (r_Certificate cert) (r_PrivateKey cert) = Some chain /\ getCertExpiries chain = Some x /\
    p_tlsCert (s_prov s') = Some chain /\ p_certExpiries (s_prov s') = x /\
    d_failfile (s_disk s') = None /\ p_lastFailure (s_prov s') = zeroTime.
Proof.
  unfold obtain_finish. destruct (registerACME cfg e s) as [[]  s1]; try done. destruct (request_cert e s1) as [[cert|] s2]; [|done].
  destruct (saveCert e cert s2) as [[] s3] eqn:Es; try done. destruct (X509KeyPair _ _) as [chain|] eqn:Ek; [|done].
  destruct (getCertExpiries chain) as [x|] eqn:Ex; [|done]. unfold ClearLastFailure. intros E. exists cert, chain, x.
  assert (d_certfile (s_disk s3) = Some (r_Certificate cert) /\ d_keyfile (s_disk s3) = Some (r_PrivateKey cert)) as [Hc Hk].
  { unfold saveCert in Es. repeat case_match; by simplify_eq. }
  repeat case_match; simplify_eq; simpl. by rewrite Hc, Hk.
Qed.

(** A certificate that was obtained is served, and a provider that starts later
    loads the same chain with the same names and dates from the files; no failure
    is on record. *)
Theorem obtained_cert_reloads cfg e s s' e' :
  uses_acme (cf_Provider cfg) = true -> ObtainCert cfg e s = (Ok tt, s') -> e_load e' = None ->
  exists chain, GetCert (s_prov s') = Ok chain /\
    LoadX509KeyPair e' (s_disk (restart s')) = Ok chain /\
    getCertExpiries chain = Some (p_certExpiries (s_prov s')) /\
    fst (GetLastFailure e' (restart s')) = Ok zeroTime.
Proof.
  intros Hu E He. unfold ObtainCert in E. destruct (obtain_begin cfg e s) as [[r|] s1] eqn:Eb.
  { unfold obtain_begin, obtain_enter, initClient in Eb. rewrite Hu in Eb. simpl in Eb. repeat case_match; simplify_eq. }
  destruct (finish_ok _ _ _ _ E) as (cert & chain & x & Hc & Hk & Hp & Hg & Ht & Hx & Hf & Hl).
  exists chain. unfold GetCert, LoadX509KeyPair, GetLastFailure. rewrite Ht, He. simpl. rewrite Hc, Hk, Hp, Hf, Hx. done.
Qed.

(** ** The scheduler *)

Definition restarts (ev : acme_event) : bool := match ev with Restart | DieE _ | CrashE _ | ScheduleE _ => true | _ => false end.

(** Neither loading nor obtaining touches the timer, and none sets the resource
    that a renewal would start from. *)
Definition calm (s s' : acme_state) : Prop :=
  s_scheduler s' = s_scheduler s /\ s_timer s' = s_timer s /\ (p_legoCert (s_prov s) = None -> p_legoCert (s_prov s') = None).

#[local] Instance calm_preorder : PreOrder calm.
Proof.
  split; [by intros s|]. intros s1 s2 s3 (A1 & A2 & A3) (B1 & B2 & B3). repeat split; [congruence..|auto].
Qed.

Ltac solve_calm := repeat case_match; simplify_eq; repeat split; simpl; congruence.

Lemma GetLastFailure_calm e s : calm s (snd (GetLastFailure e s)).
Proof. unfold GetLastFailure. solve_calm. Qed.

Lemma Update_calm t w s : calm s (snd (UpdateLastFailure t w s)).
Proof. unfold UpdateLastFailure. solve_calm. Qed.

Lemma Clear_calm r s : calm s (snd (ClearLastFailure r s)).
Proof. unfold ClearLastFailure. solve_calm. Qed.

Lemma register_calm cfg e s : calm s (snd (registerACME cfg e s)).
Proof. unfold registerACME. solve_calm. Qed.

Lemma request_calm e s : calm s (snd (request_cert e s)).
Proof. unfold request_cert. solve_calm. Qed.

Lemma save_calm e c s : calm s (snd (saveCert e c s)).
Proof. unfold saveCert. solve_calm. Qed.

Lemma finish_calm cfg e s : calm s (snd (obtain_finish cfg e s)).
Proof.
  unfold obtain_finish. pose proof (register_calm cfg e s) as H1. destruct (registerACME cfg e s) as [[] s1]; simpl in *; try done.
  pose proof (request_calm e s1) as H2. destruct (request_cert e s1) as [[c|] s2]; simpl in *; [|by transitivity s1].
  pose proof (save_calm e c s2) as H3. destruct (saveCert e c s2) as [r s3]. simpl in H3.
  assert (H4 : calm s s3) by (transitivity s1; [done|by transitivity s2]). destruct r; simpl; try done.
  destruct (X509KeyPair _ _); simpl; [|done]. destruct (getCertExpiries _); simpl; [|done].
  etransitivity; [exact H4|]. etransitivity; [|apply Clear_calm]. done.
Qed.

Lemma enter_calm cfg e s : calm s (snd (obtain_enter cfg e s)).
Proof.
  unfold obtain_enter. destruct (uses_acme _); simpl; [|done].
  pose proof (GetLastFailure_calm e s). destruct (GetLastFailure e s) as [[] s1]; simpl in *; try done.
  destruct (_ <? _); [done|]. destruct (p_client _); [done|]. unfold initClient. by destruct (e_client e).
Qed.

Lemma begin_calm cfg e s : calm s (snd (obtain_begin cfg e s)).
Proof.
  unfold obtain_begin. pose proof (enter_calm cfg e s) as He. destruct (obtain_enter cfg e s) as [[r|] s1]; [done|].
  pose proof (Update_calm (e_mark e) (e_write e) s1) as Hu.
  destruct (UpdateLastFailure _ _ _) as [[] s2]; simpl in *; (transitivity s1; [done|exact Hu]).
Qed.

Lemma obtain_calm cfg e s : calm s (snd (ObtainCert cfg e s)).
Proof.
  unfold ObtainCert. pose proof (begin_calm cfg e s). destruct (obtain_begin cfg e s) as [[r|] s1]; simpl in *; [done|].
  etransitivity; [done|apply finish_calm].
Qed.

Lemma renew_calm cfg e s : calm s (snd (renewIfNeeded cfg e s)).
Proof. unfold renewIfNeeded. repeat case_match; try done; apply obtain_calm. Qed.

Lemma load_calm cfg e s : calm s (snd (LoadCert cfg e s)).
Proof.
  unfold LoadCert. destruct (LoadX509KeyPair _ _); try done. destruct (getCertExpiries _) as [x|]; [|done].
  destruct (ShouldRenewOn _ _); try done. etransitivity; [|apply renew_calm]. done.
Qed.

Lemma setup_calm cfg e e2 s : calm s (snd (Setup cfg e e2 s)).
Proof.
  unfold Setup. pose proof (load_calm cfg e s). destruct (LoadCert cfg e s) as [[|x|] s1]; simpl in *; try done.
  destruct (is_not_exist x); [|done]. etransitivity; [done|apply obtain_calm].
Qed.

Lemma or_restart_idle r : s_timer (snd r) = None -> s_timer (or_restart r) = None.
Proof. by destruct r as [[]]. Qed.

(** Whether a firing ended with a certificate that is good: the failure file could
    be read, no failure is recent, and the renewal, if one was due, succeeded. *)
Definition renewed (cfg : Config) (e : acme_env) (s : acme_state) : bool :=
  match GetLastFailure e (with_timer true None s) with
  | (Ok lf, s1) =>
      negb (negb (lf =? zeroTime) && (e_last e - lf <? renewalCooldownDuration)) &&
      match fst (renewIfNeeded cfg e s1) with Ok _ => true | _ => false end
  | _ => false
  end.

Lemma fire_idle cfg e s : renewed cfg e s = false -> s_timer (snd (fire cfg e s)) = None.
Proof.
  unfold renewed, fire. pose proof (GetLastFailure_calm e (with_timer true None s)) as (_ & Hg & _).
  destruct (GetLastFailure e _) as [[lf|x|x] s1]; simpl in *; try done.
  destruct (negb (lf =? zeroTime) && (e_last e - lf <? renewalCooldownDuration)); simpl; [done|].
  pose proof (renew_calm cfg e s1) as (_ & Hr & _). destruct (renewIfNeeded cfg e s1) as [[|x|x] s2]; simpl in *; intros Hf; try done.
  - pose proof (Update_calm (e_again e) (e_write2 e) s2) as (_ & Hu & _). destruct (UpdateLastFailure _ _ _) as [r s3]. simpl in *.
    congruence.
  - congruence.
Qed.

(** A firing of the renewal timer that does not end with a good certificate is
    the last one: whatever happens next, no renewal is scheduled again until the
    configuration is loaded anew. *)
Theorem renewal_stops_after_failure cfg s e es :
  s_scheduler s = true -> (exists t, s_timer s = Some t /\ t <= e_last e) -> renewed cfg e s = false ->
  forallb (fun ev => negb (restarts ev)) es = true ->
  s_timer (acme_run cfg (FireE e :: es) s) = None.
Proof.
  intros Hs (t & Ht & Hle) Hr Hes. change (s_timer (acme_run cfg es (acme_step cfg s (FireE e))) = None).
  assert (H0 : s_timer (acme_step cfg s (FireE e)) = None).
  { simpl. rewrite Hs, Ht. rewrite (proj2 (Z.leb_le _ _) Hle). apply or_restart_idle. by apply fire_idle. }
  revert H0. generalize (acme_step cfg s (FireE e)). clear -Hes. induction es as [|ev es IH]; intros s0 H0; [done|].
  simpl in Hes. apply andb_true_iff in Hes as [Hev Hes]. change (s_timer (acme_run cfg es (acme_step cfg s0 ev)) = None).
  apply IH; [done|]. destruct ev; simpl in *; try done.
  - apply or_restart_idle. rewrite <- H0. apply setup_calm.
  - apply or_restart_idle. rewrite <- H0. apply obtain_calm.
  - rewrite H0. by destruct (s_scheduler s0).
Qed.

(** After a good firing the next one is a month before the end of the certificate. *)
Theorem renewal_rescheduled cfg s e s' :
  renewed cfg e s = true -> fire cfg e s = (Ok tt, s') ->
  exists t n, s_timer s' = Some (month_before t) /\ p_certExpiries (s_prov s') !! n = Some t.
Proof.
  unfold renewed, fire. destruct (GetLastFailure e _) as [[lf|x|x] s1]; try done.
  destruct (negb (lf =? zeroTime) && (e_last e - lf <? renewalCooldownDuration)); [done|]. simpl.
  destruct (renewIfNeeded cfg e s1) as [[|x|x] s2]; simpl; try done. intros _.
  destruct (ClearLastFailure _ _) as [r s3]. unfold ShouldRenewOn. destruct (some_expiry _ _) as [t|] eqn:Et; [|done].
  intros. simplify_eq. apply some_expiry_in in Et as [n Hn]. by exists t, n.
Qed.

Lemma fire_lego cfg e s : p_legoCert (s_prov s) = None -> p_legoCert (s_prov (snd (fire cfg e s))) = None.
Proof.
  unfold fire. intros H0. pose proof (GetLastFailure_calm e (with_timer true None s)) as (_ & _ & Hg). specialize (Hg H0).
  destruct (GetLastFailure e _) as [[lf|x|x] s1]; simpl in *; try done. destruct (_ && _); [done|].
  pose proof (renew_calm cfg e s1) as (_ & _ & Hr). specialize (Hr Hg). destruct (renewIfNeeded cfg e s1) as [[|x|x] s2]; simpl in *; try done.
  - pose proof (Clear_calm (e_remove2 e) s2) as (_ & _ & Hu). specialize (Hu Hr). destruct (ClearLastFailure _ _) as [r s3].
    by destruct (ShouldRenewOn _ _).
  - pose proof (Update_calm (e_again e) (e_write2 e) s2) as (_ & _ & Hu). specialize (Hu Hr). by destruct (UpdateLastFailure _ _ _).
Qed.

Lemma or_restart_lego r : p_legoCert (s_prov (snd r)) = None -> p_legoCert (s_prov (or_restart r)) = None.
Proof. by destruct r as [[]]. Qed.

(** The resource that a renewal would use is never set: every request asks for a
    new certificate and the renew branch of ObtainCert is dead. *)
Theorem never_renews cfg d es e :
  request_cert e (acme_run cfg es (acme_init d)) = (e_obtain e, acme_run cfg es (acme_init d)).
Proof.
  assert (Hn : forall s, p_legoCert (s_prov s) = None -> p_legoCert (s_prov (acme_run cfg es s)) = None).
  { induction es as [|ev es IH]; intros s H0; [done|]. apply IH. destruct ev; simpl; try done.
    - by apply or_restart_lego, setup_calm.
    - by apply or_restart_lego, obtain_calm.
    - apply or_restart_lego. unfold ScheduleRenewal. by repeat case_match.
    - repeat case_match; try done. by apply or_restart_lego, fire_lego. }
  unfold request_cert. by rewrite Hn.
Qed.

End CertFacts.

(** ** Accepted configurations *)

Lemma invalid_domains_none ds : invalid_domains ds = [] -> Forall (fun d => domainOrWildcardRE d = true) ds.
Proof.
  unfold invalid_domains. change (imap pair ds) with (imap (fun i d => pair (0 + i)%nat d) ds).
  generalize 0%nat. induction ds as [|d ds IH]; intros k E; [done|]. rewrite imap_cons in E. simpl in E.
  destruct (domainOrWildcardRE d) eqn:Ed; [|done]. constructor; [done|]. apply (IH (S k)). simpl in E. etransitivity; [|exact E]. f_equal.
  apply imap_ext. intros i x _. simpl. f_equal. lia.
Qed.

Lemma domain_shape d :
  domainOrWildcardRE d = true <-> (2 <= length (Split d "."%char))%nat /\ Forall (fun l => l <> []) (Split d "."%char).
Proof.
  unfold domainOrWildcardRE. rewrite andb_true_iff, bool_decide_eq_true, forallb_forall, Forall_forall.
  split; intros [H1 H2]; (split; [done|]); intros l Hl.
  - apply list_elem_of_In in Hl. specialize (H2 l Hl). by case_bool_decide.
  - apply list_elem_of_In in Hl. specialize (H2 l Hl). by rewrite bool_decide_eq_false_2.
Qed.

(** An accepted configuration that uses an ACME server names an e-mail address,
    domains, and either its own server or a known DNS provider with acceptable
    options; then every domain has at least two labels and none is empty. *)
Theorem Validate_sound P c c' :
  Validate P c = ([], c') -> uses_acme (cf_Provider c') = true ->
  cf_Domains c' <> [] /\ cf_Email c' <> [] /\ is_Some (cf_challenge c') /\
  (cf_Provider c' = ProviderCustom /\ cf_CADirURL c' <> [] \/
   P !! cf_Provider c' = Some true /\ Forall (fun d => domainOrWildcardRE d = true) (cf_Domains c')).
Proof.
  unfold Validate. case_bool_decide as H0; [intros [= <-]; done|].
  destruct (uses_acme (cf_Provider c)) eqn:Hu; simpl.
  - intros E _. destruct (P !! cf_Provider c) as [[]|] eqn:Ep; simpl in E; case_bool_decide as Hc; simpl in E;
      repeat (case_bool_decide; simpl in E; try done); destruct (cf_challenge c) eqn:Ech; simpl in E; simplify_eq; simpl;
      repeat match goal with H : _ ++ _ = [] |- _ => apply app_nil in H as [? ?] end; try done; rewrite ?Ech;
      try (rewrite app_nil_r in *); repeat split; eauto using invalid_domains_none.
  - destruct (cf_challenge c) eqn:Ech; simpl; intros [= _ <-]; simpl; congruence.
Qed.

(** ** Examples *)

Module Examples.

Fixpoint bits (p : positive) : bytes :=
  match p with xH => [] | xO p => "0"%char :: bits p | xI p => "1"%char :: bits p end.

Fixpoint of_bits (s : bytes) : positive :=
  match s with [] => xH | c :: s => if Ascii.eqb c "0"%char then xO (of_bits s) else xI (of_bits s) end.

Lemma of_bits_bits p : of_bits (bits p) = p.
Proof. by induction p as [p IH|p IH|]; simpl; rewrite ?IH. Qed.

(** A chain is its leaf; the key does not matter; seconds are written in binary. *)
Definition demo_leaf : x509 :=
  {| x_IsCA := false; x_CommonName := B "example.com"; x_DNSNames := [B "example.com"; B "*.example.com"];
     x_NotAfter := 90 * 86400 * Second |}.

Definition demo_lib : AcmeLib :=
  {| X509KeyPair := fun c _ => Some [c];
     ParseCertificate := fun d =>
       if bool_decide (d = B "CA") then Some {| x_IsCA := true; x_CommonName := B "home"; x_DNSNames := []; x_NotAfter := 0 |}
       else if bool_decide (d = B "no name") then
         Some {| x_IsCA := false; x_CommonName := []; x_DNSNames := x_DNSNames demo_leaf; x_NotAfter := x_NotAfter demo_leaf |}
       else Some demo_leaf;
     month_before := fun t => t - 30 * 86400 * Second;
     format_RFC3339 := fun t =>
       match t / Second with Z0 => [] | Zpos p => "+"%char :: bits p | Zneg p => "-"%char :: bits p end;
     parse_RFC3339 := fun s =>
       match s with
       | [] => Some 0
       | c :: s => Some ((if Ascii.eqb c "+"%char then Zpos (of_bits s) else Zneg (of_bits s)) * Second)
       end |}.

Lemma demo_seconds t : parse_RFC3339 (AcmeLib := demo_lib) (format_RFC3339 (AcmeLib := demo_lib) t) = Some (to_second t).
Proof. unfold to_second. simpl. destruct (t / Second); simpl; by rewrite ?of_bits_bits. Qed.

Definition demo_config : Config :=
  {| cf_Email := B "a@example.com"; cf_Domains := [B "*.example.com"; B "example.com"]; cf_CertPath := CertFileDefault;
     cf_KeyPath := KeyFileDefault; cf_ACMEKeyPath := ACMEKeyFileDefault; cf_Provider := B "cloudflare"; cf_CADirURL := [];
     cf_CACerts := []; cf_EABKid := []; cf_EABHmac := []; cf_challenge := None |}.

(** Every clock of a call at [t]; [cert] is what the server issues. *)
Definition demo_env (t : Z) (cert : option Resource) : acme_env :=
  {| e_last := t; e_state := t; e_check := t; e_mark := t; e_again := t; e_pick := 0; e_read := true; e_load := None;
     e_write := None; e_write2 := None; e_remove := None; e_remove2 := None; e_client := true; e_resolve := false;
     e_register := fun _ => true; e_renew := None; e_obtain := cert; e_stat := None; e_mkdir := None; e_writekey := None;
     e_writecert := None |}.

Definition demo_cert : Resource := {| r_Certificate := B "leaf"; r_PrivateKey := B "key" |}.

Definition no_files : disk := {| d_failfile := None; d_keyfile := None; d_certfile := None |}.

Definition at_s (n : Z) : Z := n * Second.

(** The first request fails, the process is restarted twice and tries at once:
    the attempt two seconds later is refused, the one after twenty is made. *)
Definition crash_loop : list acme_event :=
  [SetupE (demo_env (at_s 100) None) (demo_env (at_s 100) None); Restart;
   SetupE (demo_env (at_s 102) (Some demo_cert)) (demo_env (at_s 102) (Some demo_cert)); Restart;
   SetupE (demo_env (at_s 120) (Some demo_cert)) (demo_env (at_s 120) (Some demo_cert))].

Lemma crash_loop_ordered : chronological 0 crash_loop.
Proof. unfold chronological, env_ordered, keeps_file. simpl. repeat split; try done; unfold at_s, Second; lia. Qed.

Lemma acme_cooldown_witness :
  s_requests (acme_run (H := demo_lib) demo_config crash_loop (acme_init no_files)) = [(at_s 120, true); (at_s 100, false)] /\
  14 * Second < at_s 120 - at_s 100.
Proof.
  split; [by vm_compute|].
  destruct (acme_cooldown (H := demo_lib) demo_seconds demo_config no_files crash_loop 0) as [Hr _];
    [lia|apply crash_loop_ordered|].
  apply (Hr [] (at_s 120) true (at_s 100) []). by vm_compute.
Defined.

(** A server whose directory cannot be read is asked for it at every start. *)
Definition no_client (t : Z) : acme_env :=
  {| e_last := t; e_state := t; e_check := t; e_mark := t; e_again := t; e_pick := 0; e_read := true; e_load := None;
     e_write := None; e_write2 := None; e_remove := None; e_remove2 := None; e_client := false; e_resolve := false;
     e_register := fun _ => true; e_renew := None; e_obtain := None; e_stat := None; e_mkdir := None; e_writekey := None;
     e_writecert := None |}.

Example directory_not_limited :
  let s := acme_run (H := demo_lib) demo_config [ObtainE (no_client (at_s 100)); Restart; ObtainE (no_client (at_s 101))]
             (acme_init no_files) in
  s_directory s = [(at_s 101, []); (at_s 100, [])] /\ d_failfile (s_disk s) = None.
Proof. by vm_compute. Qed.

Definition served : acme_state :=
  acme_run (H := demo_lib) demo_config [ObtainE (demo_env 0 (Some demo_cert)); ScheduleE (demo_env 0 None)] (acme_init no_files).

(** At the date of renewal the server does not answer; a day later it would. *)
Lemma renewal_stops_after_failure_witness :
  s_timer (acme_run (H := demo_lib) demo_config
    [FireE (demo_env (at_s (60 * 86400 + 1)) None); FireE (demo_env (at_s (61 * 86400)) (Some demo_cert))] served) = None.
Proof.
  apply (renewal_stops_after_failure (H := demo_lib)); [by vm_compute| |by vm_compute|done].
  exists (at_s (60 * 86400)). split; [by vm_compute|done].
Defined.

Lemma certState_valid_iff_witness :
  certState (H := demo_lib) demo_config (demo_env (at_s 5) None) (s_prov served) = Ok CertStateValid.
Proof.
  apply (certState_valid_iff (H := demo_lib) demo_config (demo_env (at_s 5) None) (s_prov served) (at_s (60 * 86400)));
    [apply (bool_decide_unpack _); by vm_compute|by vm_compute|].
  split; [apply Z.leb_le; by vm_compute|]. apply (bool_decide_unpack _). by vm_compute.
Defined.

Lemma obtained_cert_reloads_witness :
  exists chain, GetCert (s_prov (snd (ObtainCert (H := demo_lib) demo_config (demo_env 0 (Some demo_cert)) (acme_init no_files)))) = Ok chain.
Proof.
  destruct (obtained_cert_reloads (H := demo_lib) demo_config (demo_env 0 (Some demo_cert)) (acme_init no_files)
    (snd (ObtainCert (H := demo_lib) demo_config (demo_env 0 (Some demo_cert)) (acme_init no_files))) (demo_env 1 None)) as (c & Hc & _);
    [by vm_compute|by vm_compute|done|by exists c].
Defined.

Lemma renewal_rescheduled_witness :
  exists t n, s_timer (snd (fire (H := demo_lib) demo_config (demo_env (at_s (60 * 86400 + 1)) (Some demo_cert)) served)) = Some (t - 30 * 86400 * Second)
    /\ p_certExpiries (s_prov (snd (fire (H := demo_lib) demo_config (demo_env (at_s (60 * 86400 + 1)) (Some demo_cert)) served))) !! n = Some t.
Proof. apply (renewal_rescheduled (H := demo_lib) demo_config served (demo_env (at_s (60 * 86400 + 1)) (Some demo_cert))); by vm_compute. Defined.

Lemma Validate_sound_witness :
  Validate {[B "cloudflare" := true]} demo_config = ([], set_challenge (B "cloudflare") demo_config) /\ cf_Email demo_config <> [].
Proof.
  split; [by vm_compute|].
  apply (Validate_sound {[B "cloudflare" := true]} demo_config (set_challenge (B "cloudflare") demo_config)); by vm_compute.
Defined.

(** A certificate that is its own CA, as openssl makes them by default, has no
    expiry on record, and loading it panics. *)
Example self_signed_panics :
  fst (LoadCert (H := demo_lib) (set_Provider ProviderLocal demo_config) (demo_env 0 None)
    (acme_init {| d_failfile := None; d_keyfile := Some (B "key"); d_certfile := Some (B "CA") |})) = Panic ExplicitPanic.
Proof. by vm_compute. Qed.

(** A certificate without a common name has the empty name on record, and never
    matches the configured domains. *)
Example no_common_name_mismatch :
  certState (H := demo_lib) demo_config (demo_env 0 None)
    (s_prov (snd (ObtainCert (H := demo_lib) demo_config
      (demo_env 0 (Some {| r_Certificate := B "no name"; r_PrivateKey := B "key" |})) (acme_init no_files)))) = Ok CertStateMismatch.
Proof. by vm_compute. Qed.

End Examples.
