(* ===== verification/IdleDeps.v ===== *)
(** * Containers that depend on each other

    Models the dependencies of internal/idlewatcher/watcher.go: the containers a
    watcher depends on, with duplicates removed ([dependencies],
    [dedupDependencies]), how they are resolved when a watcher is made
    ([NewWatcher]), waking them first ([wakeDependencies], [Wake]) and stopping
    them afterwards ([stopDependencies], [stopByMethod]).

    Goroutines of an error group run concurrently: the traces of siblings are
    interleaved in every way.  Whether a container is running or already waking
    when it is reached, and what its provider answers, is left open in the
    traces, so what is proved of them holds for any state of the containers.
    The insertion-ordered map is the class [OrderedMap] with the laws the code
    relies on. *)

From S2P Require Import Prelude GoStrings IdleConfig IdleWatcher.

(** ** Watchers and what they depend on *)

Inductive wtree := WNode (key name : bytes) (dependsOn : list (wtree * bool)).

Definition wt_Key (t : wtree) : bytes := match t with WNode k _ _ => k end.
Definition wt_ContainerName (t : wtree) : bytes := match t with WNode _ n _ => n end.

(** A dependency and whether its health is waited for. *)
Definition dependency : Type := wtree * bool.
Definition dependsOn (t : wtree) : list dependency := match t with WNode _ _ ds => ds end.

Section tree_ind.
Variable P : wtree -> Prop.
Hypothesis IH : forall k n ds, Forall (fun d => P d.1) ds -> P (WNode k n ds).

Fixpoint wtree_rect_nested (t : wtree) : P t :=
  match t with
  | WNode k n ds =>
      IH k n ds ((fix go (l : list (wtree * bool)) : Forall (fun d => P d.1) l :=
                    match l with
                    | [] => Forall_nil_2 _
                    | d :: l => Forall_cons_2 _ d l (wtree_rect_nested d.1) (go l)
                    end) ds)
  end.
End tree_ind.

(** [ordered.Map] of the package ds. *)
Class OrderedMap := {
  omap : Type;
  om_New : omap;
  om_Set : bytes -> dependency -> omap -> omap;
  om_Del : bytes -> omap -> omap;
  om_Iter : omap -> list (bytes * dependency)
}.

Class OrderedMapLaws `{OrderedMap} : Prop := {
  Iter_New : om_Iter om_New = [];
  Iter_NoDup m : NoDup (om_Iter m).*1;
  Iter_Set k v m k' v' : (k', v') ∈ om_Iter (om_Set k v m) <-> k' = k /\ v' = v \/ k' <> k /\ (k', v') ∈ om_Iter m;
  Iter_Del k m k' v' : (k', v') ∈ om_Iter (om_Del k m) <-> k' <> k /\ (k', v') ∈ om_Iter m
}.

Section Dedup.
Context `{OrderedMap}.

Definition set_dep (m : omap) (d : dependency) : omap := om_Set (wt_Key d.1) d m.

(** Every container below, by key. *)
Fixpoint dependencies (t : wtree) : omap :=
  match t with
  | WNode _ _ ds =>
      (fix go (l : list (wtree * bool)) (m : omap) : omap :=
         match l with
         | [] => m
         | d :: l => go l (fold_left set_dep (om_Iter (dependencies d.1)).*2 (set_dep m d))
         end) ds om_New
  end.

Definition remove_below (m : omap) (d : dependency) : omap :=
  fold_left (fun m k => om_Del k m) (om_Iter (dependencies d.1)).*1 m.

(** The dependencies left: none is below another one. *)
Definition dedupDependencies (t : wtree) : wtree :=
  let deps := fold_left remove_below (dependsOn t) (dependencies t) in
  WNode (wt_Key t) (wt_ContainerName t) (om_Iter deps).*2.

(** What the configuration lists afterwards. *)
Definition newDepOn (t : wtree) : list bytes := map (fun d => wt_ContainerName d.1) (dependsOn (dedupDependencies t)).

End Dedup.

(** ** Nodes of a tree *)

Inductive sub (a : wtree) : wtree -> Prop :=
  | sub_here : sub a a
  | sub_dep k n ds d h : (d, h) ∈ ds -> sub a d -> sub a (WNode k n ds).

Definition below (a t : wtree) : Prop := exists d h, (d, h) ∈ dependsOn t /\ sub a d.

(** Watchers are shared: there is one per key. *)
Definition one_per_key (t : wtree) : Prop := forall a b, sub a t -> sub b t -> wt_Key a = wt_Key b -> a = b.

Fixpoint wt_height (t : wtree) : nat :=
  match t with WNode _ _ ds => S (max_list (map (fun d => wt_height d.1) ds)) end.

Lemma dep_height d h t : (d, h) ∈ dependsOn t -> (wt_height d < wt_height t)%nat.
Proof.
  destruct t as [k n ds]. simpl. intros Hin. assert (wt_height d <= max_list (map (fun d => wt_height d.1) ds))%nat; [|lia].
  apply max_list_elem_of_le. apply list_elem_of_fmap. by exists (d, h).
Qed.

Lemma sub_height a t : sub a t -> (wt_height a <= wt_height t)%nat.
Proof. induction 1 as [|k n ds d h Hin _ IH]; [done|]. pose proof (dep_height d h (WNode k n ds) Hin). lia. Qed.

Lemma below_height a t : below a t -> (wt_height a < wt_height t)%nat.
Proof. intros (d & h & Hin & Hs). apply sub_height in Hs. apply dep_height in Hin. lia. Qed.

Lemma sub_inv a t : sub a t <-> a = t \/ below a t.
Proof.
  split.
  - destruct 1 as [|k n ds d h Hin Hs]; [by left|right; by exists d, h].
  - intros [->|(d & h & Hin & Hs)]; [constructor|]. destruct t. by econstructor.
Qed.

Lemma sub_trans a b c : sub a b -> sub b c -> sub a c.
Proof. intros Hab. induction 1; [done|]. by econstructor. Qed.

Lemma below_sub a t : below a t -> sub a t.
Proof. intros. apply sub_inv. by right. Qed.

Lemma below_trans a b c : sub a b -> below b c -> below a c.
Proof. intros Hab (d & h & Hin & Hs). exists d, h. split; [done|]. by eapply sub_trans. Qed.

Lemma dep_below d h t : (d, h) ∈ dependsOn t -> below d t.
Proof. intros. exists d, h. split; [done|constructor]. Qed.

(** ** Deduplication *)

Section DedupFacts.
Context `{OrderedMapLaws}.

(** [dependencies], with the loop over the list as a fold. *)
Lemma dependencies_eq t :
  dependencies t = fold_left (fun m d => fold_left set_dep (om_Iter (dependencies d.1)).*2 (set_dep m d)) (dependsOn t) om_New.
Proof.
  destruct t as [k n ds]. simpl. generalize om_New. induction ds as [|d ds IH]; intros m; [done|]. simpl. apply IH.
Qed.

Lemma set_deps_in l : forall m k v,
  (k, v) ∈ om_Iter (fold_left set_dep l m) -> k = wt_Key v.1 /\ v ∈ l \/ (k, v) ∈ om_Iter m.
Proof.
  induction l as [|d l IH]; intros m k v; simpl; [by right|]. intros Hin.
  destruct (IH _ _ _ Hin) as [[? ?]|Hm]; [left; split; [done|by right]|].
  unfold set_dep in Hm. apply Iter_Set in Hm as [[-> ->]|[_ ?]]; [left; split; [done|by left]|by right].
Qed.

Lemma set_deps_keys l : forall m k,
  k ∈ (om_Iter (fold_left set_dep l m)).*1 <-> k ∈ map (fun d => wt_Key d.1) l \/ k ∈ (om_Iter m).*1.
Proof.
  assert (Hset : forall m d k, k ∈ (om_Iter (set_dep m d)).*1 <-> k = wt_Key d.1 \/ k ∈ (om_Iter m).*1).
  { intros m d k. rewrite !list_elem_of_fmap. split.
    - intros ([k' v] & -> & Hv). apply Iter_Set in Hv as [[-> ->]|[_ ?]]; [by left|right; by exists (k', v)].
    - intros Hk. destruct (decide (k = wt_Key d.1)) as [->|Hne].
      + exists (wt_Key d.1, d). split; [done|]. apply Iter_Set. by left.
      + destruct Hk as [?|([k' v] & -> & Hv)]; [done|]. exists (k', v). split; [done|]. apply Iter_Set. by right. }
  induction l as [|d l IH]; intros m k; simpl.
  - split; [by right|]. intros [Hn|?]; [by apply not_elem_of_nil in Hn|done].
  - rewrite IH, Hset, elem_of_cons. tauto.
Qed.

Definition add_dep (m : omap) (d : dependency) : omap := fold_left set_dep (om_Iter (dependencies d.1)).*2 (set_dep m d).

Lemma add_dep_eq m d : add_dep m d = fold_left set_dep (d :: (om_Iter (dependencies d.1)).*2) m.
Proof. reflexivity. Qed.

Lemma add_deps_in l : forall m k v,
  (k, v) ∈ om_Iter (fold_left add_dep l m) ->
  (k = wt_Key v.1 /\ exists d, d ∈ l /\ (v = d \/ v ∈ (om_Iter (dependencies d.1)).*2)) \/ (k, v) ∈ om_Iter m.
Proof.
  induction l as [|d l IH]; intros m k v; simpl; [by right|]. intros Hin.
  destruct (IH _ _ _ Hin) as [[? (d' & ? & ?)]|Hm]; [left; split; [done|]; exists d'; split; [by right|done]|].
  rewrite add_dep_eq in Hm. apply set_deps_in in Hm as [[-> Hv]|?]; [|by right]. left. split; [done|]. exists d.
  split; [by left|]. by apply elem_of_cons in Hv.
Qed.

Lemma add_deps_keys l : forall m k,
  k ∈ (om_Iter (fold_left add_dep l m)).*1 <->
  (exists d, d ∈ l /\ (k = wt_Key d.1 \/ k ∈ map (fun d => wt_Key d.1) (om_Iter (dependencies d.1)).*2)) \/ k ∈ (om_Iter m).*1.
Proof.
  induction l as [|d l IH]; intros m k; simpl.
  - split; [by right|]. intros [(d & Hn & _)|?]; [by apply not_elem_of_nil in Hn|done].
  - rewrite IH, add_dep_eq, set_deps_keys. simpl. rewrite elem_of_cons. split.
    + intros [(d' & ? & ?)|[?|?]]; [left; exists d'; split; [by right|done]|left; exists d; split; [by left|done]|by right].
    + intros [(d' & Hd & ?)|?]; [|by right; right]. apply elem_of_cons in Hd as [->|Hd]; [by right; left|].
      left. by exists d'.
Qed.

(** The map holds the nodes below, each under its key. *)
Lemma dependencies_in t : forall k v, (k, v) ∈ om_Iter (dependencies t) -> k = wt_Key v.1 /\ below v.1 t.
Proof.
  induction t as [k0 n ds IH] using wtree_rect_nested. intros k v. rewrite dependencies_eq. intros Hin.
  apply (add_deps_in ds) in Hin as [[-> (d & Hd & Hv)]|Hin]; [|rewrite Iter_New in Hin; by apply not_elem_of_nil in Hin].
  split; [done|]. rewrite Forall_forall in IH. destruct d as [d h]. destruct Hv as [->|Hv]; [by eapply dep_below|].
  apply list_elem_of_fmap in Hv as ([k' v'] & -> & Hv'). destruct (IH _ Hd _ _ Hv') as [_ Hb].
  simpl in *. eapply below_trans; [by apply below_sub|by eapply dep_below].
Qed.

Lemma dependencies_keys t : forall k, k ∈ (om_Iter (dependencies t)).*1 <-> exists a, below a t /\ wt_Key a = k.
Proof.
  induction t as [k0 n ds IH] using wtree_rect_nested. intros k. rewrite dependencies_eq, Forall_forall in *. simpl.
  change (fun m d => fold_left set_dep _ _) with add_dep. rewrite add_deps_keys, Iter_New. split.
  - intros [((d & h) & Hd & [->|Hk])|Hn]; [exists d; split; [by eapply dep_below|done]| |by apply not_elem_of_nil in Hn].
    apply list_elem_of_fmap in Hk as (v & -> & Hv). apply list_elem_of_fmap in Hv as ([k' v'] & -> & Hv').
    apply dependencies_in in Hv' as [_ Hb]. simpl in *. exists v'.1. split; [|done].
    eapply below_trans; [by apply below_sub|by eapply dep_below].
  - intros (a & (d & h & Hd & Hs) & <-). left. exists (d, h). split; [done|]. apply sub_inv in Hs as [->|Hb]; [by left|right].
    assert (Hk : wt_Key a ∈ (om_Iter (dependencies d)).*1) by (apply (IH _ Hd); eauto).
    apply list_elem_of_fmap in Hk as ([k' v'] & Hk & Hv'). destruct (dependencies_in _ _ _ Hv') as [-> _]. simpl in *.
    apply list_elem_of_fmap. exists v'. split; [done|]. apply list_elem_of_fmap. by exists (wt_Key v'.1, v').
Qed.

Lemma del_keys_in ks : forall m k v,
  (k, v) ∈ om_Iter (fold_left (fun m k => om_Del k m) ks m) <-> (k ∉ ks) /\ (k, v) ∈ om_Iter m.
Proof.
  induction ks as [|k0 ks IH]; intros m k v; simpl.
  - split; [intros; split; [apply not_elem_of_nil|done]|by intros [_ ?]].
  - rewrite IH, Iter_Del, not_elem_of_cons. tauto.
Qed.

Lemma remove_below_in l : forall m k v,
  (k, v) ∈ om_Iter (fold_left remove_below l m) <->
  (forall d, d ∈ l -> k ∉ (om_Iter (dependencies d.1)).*1) /\ (k, v) ∈ om_Iter m.
Proof.
  induction l as [|d l IH]; intros m k v; simpl.
  - split; [intros; split; [by intros d Hd; apply not_elem_of_nil in Hd|done]|by intros [_ ?]].
  - rewrite IH. unfold remove_below at 1. rewrite del_keys_in. split.
    + intros (Hl & Hd & Hm). split; [|done]. intros d' Hd'. apply elem_of_cons in Hd' as [->|?]; auto.
    + intros (Hl & Hm). split; [intros d' ?; apply Hl; by right|]. split; [apply Hl; by left|done].
Qed.

(** A dependency is kept iff it is below the watcher and below none of its
    dependencies. *)
Lemma dedup_in t d :
  d ∈ dependsOn (dedupDependencies t) <->
  (wt_Key d.1, d) ∈ om_Iter (dependencies t) /\
  ~ exists d' h a, (d', h) ∈ dependsOn t /\ below a d' /\ wt_Key a = wt_Key d.1.
Proof.
  unfold dedupDependencies. cbn [dependsOn]. rewrite list_elem_of_fmap. split.
  - intros ([k v] & -> & Hv). apply remove_below_in in Hv as [Hno Hv]. destruct (dependencies_in _ _ _ Hv) as [-> _].
    split; [done|]. intros (d' & h & a & Hd' & Hb & Hk). eapply (Hno (d', h)); [done|]. apply dependencies_keys. eauto.
  - intros [Hv Hno]. exists (wt_Key d.1, d). split; [done|]. apply remove_below_in. split; [|done].
    intros [d' h] Hd' Hk. apply Hno. apply dependencies_keys in Hk as (a & Hb & Hk). by exists d', h, a.
Qed.

(** Deduplication keeps exactly the containers below that are below none of the
    dependencies, once each. *)
Theorem dedup_exact t k :
  (k ∈ map (fun d => wt_Key d.1) (dependsOn (dedupDependencies t)) <->
   (exists a, below a t /\ wt_Key a = k) /\ ~ exists d h a, (d, h) ∈ dependsOn t /\ below a d /\ wt_Key a = k) /\
  NoDup (map (fun d => wt_Key d.1) (dependsOn (dedupDependencies t))).
Proof.
  split.
  - rewrite list_elem_of_fmap. split.
    + intros (d & -> & Hd). apply dedup_in in Hd as [Hin Hno]. split; [|done]. apply dependencies_in in Hin as [_ ?]. eauto.
    + intros [Ha Hno]. apply dependencies_keys in Ha. apply list_elem_of_fmap in Ha as ([k' v] & -> & Hv).
      destruct (dependencies_in _ _ _ Hv) as [-> _]. exists v. split; [done|]. by apply dedup_in.
  - unfold dedupDependencies. cbn [dependsOn]. set (m := fold_left remove_below _ _).
    assert (Heq : map (fun d => wt_Key d.1) (om_Iter m).*2 = (om_Iter m).*1); [|rewrite Heq; apply Iter_NoDup].
    assert (Hk : forall k v, (k, v) ∈ om_Iter m -> k = wt_Key v.1).
    { intros k' v Hv. apply remove_below_in in Hv as [_ Hv]. by apply dependencies_in in Hv as [-> _]. }
    revert Hk. generalize (om_Iter m). induction l as [|[k' v] l IH]; intros Hk; [done|]. simpl.
    f_equal; [symmetry; apply Hk; by left|]. apply IH. intros k2 v2 ?. apply Hk. by right.
Qed.

(** the containers that are woken with a watcher are the same before and after. *)
Theorem dedup_keeps_below t a :
  one_per_key t -> below a (dedupDependencies t) <-> below a t.
Proof.
  intros Hone. split.
  - intros (d & h & Hd & Hs). apply dedup_in in Hd as [Hin _]. apply dependencies_in in Hin as [_ Hb]. simpl in Hb.
    by eapply below_trans.
  - intros (d & h & Hd & Hs). remember (wt_height t - wt_height d)%nat as gap eqn:Hgap.
    revert d h Hd Hs Hgap. induction gap as [gap IH] using (well_founded_induction lt_wf). intros d h Hd Hs ->.
    destruct (decide (wt_Key d ∈ map (fun d => wt_Key d.1) (dependsOn (dedupDependencies t)))) as [Hk|Hk].
    + apply list_elem_of_fmap in Hk as ([d2 h2] & Hk & Hd2). exists d2, h2. split; [done|]. simpl in Hk.
      assert (d2 = d) as ->; [|done]. apply dedup_in in Hd2 as [Hd2 _]. apply dependencies_in in Hd2 as [_ Hb2].
      apply Hone; [by apply below_sub|by eapply below_sub, dep_below|done].
    + assert (Hup : exists d' h', (d', h') ∈ dependsOn t /\ below d d').
      { destruct (dedup_exact t (wt_Key d)) as [Hex _]. destruct Hex as [_ Hex].
        destruct (decide (Exists (fun d' => Exists (fun v => wt_Key v.1 = wt_Key d) (om_Iter (dependencies d'.1)).*2) (dependsOn t))) as [He|He].
        - apply Exists_exists in He as ([d' h'] & Hd' & He). apply Exists_exists in He as (v & Hv & Hkv).
          apply list_elem_of_fmap in Hv as ([k' v'] & -> & Hv'). apply dependencies_in in Hv' as [_ Hb]. simpl in *.
          exists d', h'. split; [done|]. assert (v'.1 = d) as <-; [|done].
          apply Hone; [|by eapply below_sub, dep_below|done]. eapply below_sub, below_trans; [by apply below_sub|by eapply dep_below].
        - exfalso. apply Hk, Hex. split; [exists d; split; [by eapply dep_below|done]|]. intros (d' & h' & b & Hd' & Hb & Hkb).
          apply He, Exists_exists. exists (d', h'). split; [done|]. apply Exists_exists.
          assert (Hkk : wt_Key b ∈ (om_Iter (dependencies d')).*1) by (apply dependencies_keys; eauto).
          apply list_elem_of_fmap in Hkk as ([k' v'] & Hk' & Hv'). destruct (dependencies_in _ _ _ Hv') as [-> _]. simpl in *.
          exists v'. split; [apply list_elem_of_fmap; by exists (wt_Key v'.1, v')|congruence]. }
      destruct Hup as (d' & h' & Hd' & Hb). pose proof (below_height _ _ Hb). pose proof (dep_height _ _ _ Hd').
      eapply (IH (wt_height t - wt_height d')%nat); [lia|done| |done]. eapply sub_trans; [done|by apply below_sub].
Qed.

End DedupFacts.

(** ** Waking *)

(** What happens, in order, while a tree wakes.  [Skipped]: a dependency that is
    already waking is passed over; [Busy]: the watcher itself is; [Woke]: it asked
    its provider, or found the container running; then the health of a dependency
    as its dependent sees it. *)
Inductive wake_ev :=
  | Skipped (k : bytes)
  | Busy (k : bytes)
  | Woke (k : bytes) (err : option idle_err)
  | Unhealthy (k : bytes)
  | IsHealthy (k : bytes)
  | HealthError (k : bytes) (err : idle_err)
  | WaitCanceled (k : bytes) (cause : idle_err).

(** The error of a watcher with a given name. *)
Definition watcher_error (t : wtree) (e : idle_err) : option idle_err :=
  if errors_Is e ErrReload then None
  else match e with
       | watcherError _ _ => Some e
       | _ => Some (watcherError (wt_ContainerName t) (convertError e))
       end.

Inductive interleave {A} : list A -> list A -> list A -> Prop :=
  | il_nil : interleave [] [] []
  | il_left x l1 l2 l : interleave l1 l2 l -> interleave (x :: l1) l2 (x :: l)
  | il_right x l1 l2 l : interleave l1 l2 l -> interleave l1 (x :: l2) (x :: l).

(** [Wait] of an error group returns one of the errors, if there is one. *)
Definition group_error (r1 r2 r : option idle_err) : Prop :=
  match r with
  | None => r1 = None /\ r2 = None
  | Some e => r1 = Some e \/ r2 = Some e
  end.

(** [Wake], [wakeDependencies] and one goroutine of it. *)
Inductive wakes : wtree -> list wake_ev -> option idle_err -> Prop :=
  | wakes_deps_failed t tr e : wakes_deps (dependsOn t) tr (Some e) -> wakes t tr (watcher_error t e)
  | wakes_busy t tr : wakes_deps (dependsOn t) tr None -> wakes t (tr ++ [Busy (wt_Key t)]) None
  | wakes_self t tr o :
      wakes_deps (dependsOn t) tr None -> wakes t (tr ++ [Woke (wt_Key t) o]) (o ≫= watcher_error t)
with wakes_deps : list dependency -> list wake_ev -> option idle_err -> Prop :=
  | wakes_nil : wakes_deps [] [] None
  | wakes_cons d ds tr1 r1 tr2 r2 tr r :
      wakes_dep d tr1 r1 -> wakes_deps ds tr2 r2 -> interleave tr1 tr2 tr -> group_error r1 r2 r -> wakes_deps (d :: ds) tr r
with wakes_dep : dependency -> list wake_ev -> option idle_err -> Prop :=
  | wake_skip t h : wakes_dep (t, h) [Skipped (wt_Key t)] None
  | wake_failed t h tr e : wakes t tr (Some e) -> wakes_dep (t, h) tr (Some e)
  | wake_started t tr : wakes t tr None -> wakes_dep (t, false) tr None
  | wake_healthy t tr n :
      wakes t tr None -> wakes_dep (t, true) (tr ++ replicate n (Unhealthy (wt_Key t)) ++ [IsHealthy (wt_Key t)]) None
  | wake_health_error t tr n e :
      wakes t tr None -> wakes_dep (t, true) (tr ++ replicate n (Unhealthy (wt_Key t)) ++ [HealthError (wt_Key t) e]) (Some e)
  | wake_canceled t tr n e :
      wakes t tr None ->
      wakes_dep (t, true) (tr ++ replicate (S n) (Unhealthy (wt_Key t)) ++ [WaitCanceled (wt_Key t) e])
        (newDepError (B "wait_healthy") (wt_ContainerName t) e).

Scheme wakes_ind2 := Minimality for wakes Sort Prop
  with wakes_deps_ind2 := Minimality for wakes_deps Sort Prop
  with wakes_dep_ind2 := Minimality for wakes_dep Sort Prop.
Combined Scheme wakes_mutind from wakes_ind2, wakes_deps_ind2, wakes_dep_ind2.

(** ** Stopping *)

Inductive stop_ev :=
  | NotRunning (k : bytes)
  | Stop (k : bytes) (err : option idle_err).

(** [stopByMethod] and [stopDependencies]. *)
Inductive stops : wtree -> list stop_ev -> option idle_err -> Prop :=
  | stops_idle t tr r :
      stops_deps (dependsOn t) tr r -> stops t (NotRunning (wt_Key t) :: tr) (r ≫= watcher_error t)
  | stops_no_provider t : stops t [] (Some ErrProviderNotSet)
  | stops_failed t e : stops t [Stop (wt_Key t) (Some e)] (watcher_error t e)
  | stops_done t tr r :
      stops_deps (dependsOn t) tr r -> stops t (Stop (wt_Key t) None :: tr) (r ≫= watcher_error t)
with stops_deps : list dependency -> list stop_ev -> option idle_err -> Prop :=
  | stops_nil : stops_deps [] [] None
  | stops_cons d ds tr1 r1 tr2 r2 tr r :
      stops d.1 tr1 r1 -> stops_deps ds tr2 r2 -> interleave tr1 tr2 tr -> group_error r1 r2 r -> stops_deps (d :: ds) tr r.

Scheme stops_ind2 := Minimality for stops Sort Prop
  with stops_deps_ind2 := Minimality for stops_deps Sort Prop.
Combined Scheme stops_mutind from stops_ind2, stops_deps_ind2.

(** ** Interleavings *)

Lemma interleave_in {A} (l1 l2 l : list A) x : interleave l1 l2 l -> x ∈ l <-> x ∈ l1 \/ x ∈ l2.
Proof. induction 1 as [|y l1 l2 l _ IH|y l1 l2 l _ IH]; rewrite ?elem_of_cons; [set_solver|rewrite IH; tauto|rewrite IH; tauto]. Qed.

Lemma interleave_nil_r {A} (l : list A) : interleave l [] l.
Proof. induction l; by constructor. Qed.

(** An event of an interleaving is one of a component, and what preceded it there
    precedes it in the interleaving. *)
Lemma interleave_split {A} (l1 l2 l : list A) : interleave l1 l2 l -> forall a x b, l = a ++ x :: b ->
  (exists a1 b1, l1 = a1 ++ x :: b1 /\ (forall y, y ∈ a1 -> y ∈ a)) \/
  (exists a2 b2, l2 = a2 ++ x :: b2 /\ (forall y, y ∈ a2 -> y ∈ a)).
Proof.
  induction 1 as [|y l1 l2 l _ IH|y l1 l2 l _ IH]; intros a x b E; [by destruct a| |].
  - destruct a as [|y' a]; simplify_eq/=; [left; exists [], l1; split; [done|by intros ? ?]|].
    destruct (IH a x b eq_refl) as [(a1 & b1 & -> & Ha)|(a2 & b2 & -> & Ha)].
    + left. exists (y' :: a1), b1. split; [done|]. intros z Hz. apply elem_of_cons in Hz as [->|?]; [by left|right; auto].
    + right. exists a2, b2. split; [done|]. intros z Hz. right. auto.
  - destruct a as [|y' a]; simplify_eq/=; [right; exists [], l2; split; [done|by intros ? ?]|].
    destruct (IH a x b eq_refl) as [(a1 & b1 & -> & Ha)|(a2 & b2 & -> & Ha)].
    + left. exists a1, b1. split; [done|]. intros z Hz. right. auto.
    + right. exists (y' :: a2), b2. split; [done|]. intros z Hz. apply elem_of_cons in Hz as [->|?]; [by left|right; auto].
Qed.

(** ** The order of waking *)

Definition ev_error (ev : wake_ev) : option idle_err :=
  match ev with
  | Woke _ o => o
  | HealthError _ e | WaitCanceled _ e => Some e
  | _ => None
  end.

(** A call was cut short by a reload of the watcher, which counts as success. *)
Definition reloaded (tr : list wake_ev) : Prop := exists ev e, ev ∈ tr /\ ev_error ev = Some e /\ errors_Is e ErrReload = true.

Definition woken (t : wtree) (tr : list wake_ev) : Prop := Busy (wt_Key t) ∈ tr \/ Woke (wt_Key t) None ∈ tr.

(** What a dependent may rely on. *)
Definition dep_ready (d : dependency) (tr : list wake_ev) : Prop :=
  reloaded tr \/ Skipped (wt_Key d.1) ∈ tr \/ woken d.1 tr /\ (d.2 = true -> IsHealthy (wt_Key d.1) ∈ tr).

Lemma reloaded_mono tr tr' : (forall ev, ev ∈ tr -> ev ∈ tr') -> reloaded tr -> reloaded tr'.
Proof. intros Hs (ev & e & ? & ?). exists ev, e. auto. Qed.

Lemma woken_mono t tr tr' : (forall ev, ev ∈ tr -> ev ∈ tr') -> woken t tr -> woken t tr'.
Proof. intros Hs [?|?]; [left|right]; auto. Qed.

Lemma dep_ready_mono d tr tr' : (forall ev, ev ∈ tr -> ev ∈ tr') -> dep_ready d tr -> dep_ready d tr'.
Proof.
  intros Hs [?|[?|[? ?]]]; [left; by eapply reloaded_mono|right; left; auto|right; right].
  split; [by eapply woken_mono|auto].
Qed.

Lemma watcher_error_none t e : watcher_error t e = None -> errors_Is e ErrReload = true.
Proof. unfold watcher_error. destruct (errors_Is e ErrReload); [done|]. by destruct e. Qed.

Lemma convertError_reload e : errors_Is e ErrReload = false -> errors_Is (convertError e) ErrReload = false.
Proof. intros. unfold convertError. by destruct (errors_Is e ErrDeadlineExceeded). Qed.

Lemma watcher_error_some t e e' : watcher_error t e = Some e' -> errors_Is e' ErrReload = false.
Proof.
  unfold watcher_error. destruct (errors_Is e ErrReload) eqn:E; [done|]. pose proof (convertError_reload e E).
  destruct e; intros; simplify_eq; done.
Qed.

Lemma newDepError_none a n e : newDepError a n e = None -> errors_Is e ErrReload = true.
Proof. unfold newDepError. destruct (errors_Is e ErrReload); [done|]. by destruct e. Qed.

Lemma newDepError_some a n e e' : newDepError a n e = Some e' -> errors_Is e' ErrReload = false.
Proof.
  unfold newDepError. destruct (errors_Is e ErrReload) eqn:E; [done|]. pose proof (convertError_reload e E).
  destruct e; intros; simplify_eq; done.
Qed.

(** What each kind of trace shows of its result. *)
Lemma wakes_result :
  (forall t tr r, wakes t tr r ->
     match r with None => reloaded tr \/ woken t tr | Some e => errors_Is e ErrReload = true -> reloaded tr end) /\
  (forall ds tr r, wakes_deps ds tr r ->
     match r with None => Forall (fun d => dep_ready d tr) ds | Some e => errors_Is e ErrReload = true -> reloaded tr end) /\
  (forall d tr r, wakes_dep d tr r ->
     match r with None => dep_ready d tr | Some e => errors_Is e ErrReload = true -> reloaded tr end).
Proof.
  apply wakes_mutind.
  - intros t tr e _ IH. destruct (watcher_error t e) as [e'|] eqn:E.
    + intros Hr. apply watcher_error_some in E. congruence.
    + left. apply IH. by eapply watcher_error_none.
  - intros t tr _ _. right. left. apply elem_of_app. right. by left.
  - intros t tr o _ _. destruct o as [e|]; simpl; [|right; right; apply elem_of_app; right; by left].
    destruct (watcher_error t e) as [e'|] eqn:E; [intros Hr; apply watcher_error_some in E; congruence|].
    left. exists (Woke (wt_Key t) (Some e)), e. split; [apply elem_of_app; right; by left|]. split; [done|].
    by eapply watcher_error_none.
  - constructor.
  - intros d ds tr1 r1 tr2 r2 tr r _ IH1 _ IH2 Hi Hg.
    assert (H1 : forall ev, ev ∈ tr1 -> ev ∈ tr) by (intros; eapply interleave_in; eauto).
    assert (H2 : forall ev, ev ∈ tr2 -> ev ∈ tr) by (intros; eapply interleave_in; eauto).
    destruct r as [e|]; simpl in Hg.
    + intros Hr. destruct Hg as [->| ->]; [apply (reloaded_mono tr1)|apply (reloaded_mono tr2)]; auto.
    + destruct Hg as [-> ->]. constructor; [by apply (dep_ready_mono d tr1)|]. eapply Forall_impl; [exact IH2|].
      intros d' ?. by apply (dep_ready_mono d' tr2).
  - intros t h. right. left. by left.
  - intros t h tr e _ IH. done.
  - intros t tr _ IH. destruct IH as [?|?]; [by left|right; right]. by split.
  - intros t tr n _ IH. destruct IH as [?|?]; [left; eapply reloaded_mono; [|done]|right; right; split; [eapply woken_mono; [|done]|]].
    + intros. apply elem_of_app. by left.
    + intros. apply elem_of_app. by left.
    + intros _. rewrite !elem_of_app. right. right. by left.
  - intros t tr n e _ IH Hr. exists (HealthError (wt_Key t) e), e. rewrite !elem_of_app. split; [right; right; by left|done].
  - intros t tr n e _ IH. assert (Hin : WaitCanceled (wt_Key t) e ∈ tr ++ replicate (S n) (Unhealthy (wt_Key t)) ++ [WaitCanceled (wt_Key t) e]).
    { rewrite !elem_of_app. right. right. by left. }
    destruct (newDepError _ _ e) as [e'|] eqn:E; [intros Hr; apply newDepError_some in E; congruence|].
    left. exists (WaitCanceled (wt_Key t) e), e. split; [done|]. split; [done|]. by eapply newDepError_none.
Qed.

(** Every container of a trace was woken when its dependencies were ready. *)
Definition guarded (root : wtree -> Prop) (tr : list wake_ev) : Prop :=
  forall a k o b, tr = a ++ Woke k o :: b ->
  exists n t, root t /\ sub n t /\ wt_Key n = k /\ Forall (fun d => dep_ready d a) (dependsOn n).

Lemma guarded_impl (R R' : wtree -> Prop) tr :
  (forall t, R t -> exists t', R' t' /\ forall n, sub n t -> sub n t') -> guarded R tr -> guarded R' tr.
Proof.
  intros Hr Hg a k o b E. destruct (Hg a k o b E) as (n & t & Ht & Hs & Hk & Hd). destruct (Hr t Ht) as (t' & Ht' & Hsub).
  exists n, t'. auto.
Qed.

Lemma guarded_tail R tr tl : guarded R tr -> Forall (fun ev => forall k o, ev <> Woke k o) tl -> guarded R (tr ++ tl).
Proof.
  intros Hg Htl a k o b E. apply app_eq_inv in E as [(c & -> & E2)|(c & -> & ->)].
  - destruct c as [|ev c]; simplify_eq/=.
    + apply Forall_cons in Htl as [Hno _]. by destruct (Hno k o).
    + destruct (Hg a k o c eq_refl) as (n & t & ?). by exists n, t.
  - apply Forall_app in Htl as [_ Htl]. apply Forall_cons in Htl as [Hno _]. by destruct (Hno k o).
Qed.

Lemma guarded_interleave R tr1 tr2 tr : interleave tr1 tr2 tr -> guarded R tr1 -> guarded R tr2 -> guarded R tr.
Proof.
  intros Hi H1 H2 a k o b ->. destruct (interleave_split _ _ _ Hi a (Woke k o) b eq_refl) as [(a1 & b1 & E & Ha)|(a1 & b1 & E & Ha)];
    [destruct (H1 _ _ _ _ E) as (n & t & ? & ? & ? & Hd)|destruct (H2 _ _ _ _ E) as (n & t & ? & ? & ? & Hd)];
    exists n, t; (split; [done|]; split; [done|]; split; [done|]); eapply Forall_impl; [done| |done|];
    intros d ?; by eapply dep_ready_mono.
Qed.

Lemma guarded_self t tr o :
  guarded (fun r => exists h, (r, h) ∈ dependsOn t) tr -> Forall (fun d => dep_ready d tr) (dependsOn t) ->
  guarded (eq t) (tr ++ [Woke (wt_Key t) o]).
Proof.
  intros Hg Hd a k o' b E. apply app_eq_inv in E as [(c & -> & E2)|(c & -> & E2)].
  - destruct c as [|ev c]; simplify_eq/=.
    + exists t, t. split; [done|]. split; [constructor|]. split; [done|]. by rewrite app_nil_r in Hd.
    + destruct (Hg a k o' c eq_refl) as (n & t' & (h & Hin) & Hs & ?). exists n, t. split; [done|]. split; [|done].
      eapply sub_trans; [done|]. by eapply below_sub, dep_below.
  - destruct c as [|? [|? ?]]; simplify_eq/=. exists t, t. split; [done|]. split; [constructor|]. split; [done|]. by rewrite app_nil_r.
Qed.

Lemma wakes_guarded :
  (forall t tr r, wakes t tr r -> guarded (eq t) tr) /\
  (forall ds tr r, wakes_deps ds tr r -> guarded (fun t => exists h, (t, h) ∈ ds) tr) /\
  (forall d tr r, wakes_dep d tr r -> guarded (eq d.1) tr).
Proof.
  assert (Hup : forall t tr, guarded (fun r => exists h, (r, h) ∈ dependsOn t) tr -> guarded (eq t) tr).
  { intros t tr. apply guarded_impl. intros d (h & Hin). exists t. split; [done|]. intros n Hs. eapply sub_trans; [done|].
    by eapply below_sub, dep_below. }
  apply wakes_mutind.
  - auto.
  - intros t tr _ IH. apply guarded_tail; [auto|]. by repeat constructor.
  - intros t tr o Hw IH. apply guarded_self; [done|]. by apply wakes_result in Hw.
  - intros a k o b E. by destruct a.
  - intros d ds tr1 r1 tr2 r2 tr r _ IH1 _ IH2 Hi _. eapply guarded_interleave; [done|eapply guarded_impl; [|exact IH1]|eapply guarded_impl; [|exact IH2]].
    + intros t <-. exists d.1. split; [|done]. exists d.2. destruct d. by left.
    + intros t (h & Hin). exists t. split; [|done]. exists h. by right.
  - intros t h a k o b E. by destruct a as [|? [|]].
  - auto.
  - auto.
  - intros t tr n _ IH. apply guarded_tail; [done|]. apply Forall_app. split; [by apply Forall_replicate|by repeat constructor].
  - intros t tr n e _ IH. apply guarded_tail; [done|]. apply Forall_app. split; [by apply Forall_replicate|by repeat constructor].
  - intros t tr n e _ IH. apply guarded_tail; [done|]. apply Forall_app. split; [by apply (Forall_replicate _ (S n))|by repeat constructor].
Qed.

(** C26: a container is woken only after each container it depends on, at every depth,
    was woken itself, and is healthy where that is waited for; except for a
    dependency that was already waking and is passed over, and for calls cut short
    by a reload. *)
Theorem wake_order t tr r a k o b n d h :
  one_per_key t -> wakes t tr r -> tr = a ++ Woke k o :: b -> sub n t -> wt_Key n = k -> (d, h) ∈ dependsOn n ->
  dep_ready (d, h) a.
Proof.
  intros Hone Hw E Hn Hk Hd. destruct (proj1 wakes_guarded t tr r Hw a k o b E) as (n' & ? & <- & Hs & Hk' & Hall).
  assert (n' = n) as -> by (apply Hone; [done|done|congruence]). rewrite Forall_forall in Hall. by apply Hall.
Qed.

(** ** The order of stopping *)

Definition stopped (t : wtree) (tr : list stop_ev) : Prop := NotRunning (wt_Key t) ∈ tr \/ Stop (wt_Key t) None ∈ tr.

Lemma stopped_mono t tr tr' : (forall ev, ev ∈ tr -> ev ∈ tr') -> stopped t tr -> stopped t tr'.
Proof. intros Hs [?|?]; [left|right]; auto. Qed.

(** A container is stopped after one that depends on it, unless it is the first. *)
Definition stop_guarded (root : wtree -> Prop) (tr : list stop_ev) : Prop :=
  forall a k o b, tr = a ++ Stop k o :: b ->
  (exists t, root t /\ wt_Key t = k) \/
  exists n t d h, root t /\ sub n t /\ (d, h) ∈ dependsOn n /\ wt_Key d = k /\ stopped n a.

Lemma stop_guarded_cons t ev tr :
  stop_guarded (fun r => exists h, (r, h) ∈ dependsOn t) tr ->
  (ev = NotRunning (wt_Key t) \/ exists o, ev = Stop (wt_Key t) o) ->
  (stopped t [ev] \/ tr = []) -> stop_guarded (eq t) (ev :: tr).
Proof.
  intros Hg Hev Hst a k o b E. destruct a as [|ev' a]; simplify_eq/=.
  - left. exists t. destruct Hev as [?|[? ?]]; by simplify_eq.
  - destruct Hst as [Hst|?]; [|by destruct a]. right.
    destruct (Hg a k o b eq_refl) as [(d & (h & Hd) & Hk)|(n & t' & d & h & (h' & Hd) & Hs & Hin & Hk & Hsn)].
    + exists t, t, d, h. split; [done|]. split; [constructor|]. split; [done|]. split; [done|].
      eapply stopped_mono; [|done]. intros ev Hev'. apply list_elem_of_singleton in Hev' as ->. by left.
    + exists n, t, d, h. split; [done|]. split; [eapply sub_trans; [done|by eapply below_sub, dep_below]|].
      split; [done|]. split; [done|]. eapply stopped_mono; [|done]. intros. by right.
Qed.

Lemma stops_guarded :
  (forall t tr r, stops t tr r -> stop_guarded (eq t) tr) /\
  (forall ds tr r, stops_deps ds tr r -> stop_guarded (fun t => exists h, (t, h) ∈ ds) tr).
Proof.
  apply stops_mutind.
  - intros t tr r _ IH. apply stop_guarded_cons; [done|by left|left; left; by left].
  - intros t a k o b E. by destruct a.
  - intros t e. apply stop_guarded_cons; [|by right; eexists|by right]. intros a k o b E. by destruct a.
  - intros t tr r _ IH. apply stop_guarded_cons; [done|by right; eexists|left; right; by left].
  - intros a k o b E. by destruct a.
  - intros d ds tr1 r1 tr2 r2 tr r _ IH1 _ IH2 Hi _ a k o b ->.
    assert (Hd : (d.1, d.2) ∈ d :: ds) by (destruct d; by left).
    destruct (interleave_split _ _ _ Hi a (Stop k o) b eq_refl) as [(a1 & b1 & E & Ha)|(a1 & b1 & E & Ha)].
    + destruct (IH1 _ _ _ _ E) as [(t & <- & ?)|(n & t & d' & h & <- & ? & ? & ? & ?)]; [left; eauto|right].
      exists n, d.1, d', h. split; [eauto|]. do 3 (split; [done|]). by eapply stopped_mono.
    + destruct (IH2 _ _ _ _ E) as [(t & (h & Hin) & ?)|(n & t & d' & h & (h' & Hin) & ? & ? & ? & ?)].
      * left. exists t. split; [exists h; by right|done].
      * right. exists n, t, d', h. split; [exists h'; by right|]. do 3 (split; [done|]). by eapply stopped_mono.
Qed.

Lemma stops_error :
  (forall t tr r, stops t tr r -> forall e, r = Some e -> errors_Is e ErrReload = false) /\
  (forall ds tr r, stops_deps ds tr r -> forall e, r = Some e -> errors_Is e ErrReload = false).
Proof.
  apply stops_mutind.
  - intros t tr r _ _ e He. apply bind_Some in He as (e' & _ & He). by eapply watcher_error_some.
  - intros t e He. by simplify_eq.
  - intros t e e' He. by eapply watcher_error_some.
  - intros t tr r _ _ e He. apply bind_Some in He as (e' & _ & He). by eapply watcher_error_some.
  - done.
  - intros d ds tr1 r1 tr2 r2 tr r _ IH1 _ IH2 _ Hg e ->. destruct Hg; eauto.
Qed.

Definition no_failure (tr : list stop_ev) : Prop := forall k e, Stop k (Some e) ∉ tr.

Lemma stopped_cons t ev tr :
  stopped t [ev] -> (forall d h a, (d, h) ∈ dependsOn t -> sub a d -> stopped a tr) -> forall a, sub a t -> stopped a (ev :: tr).
Proof.
  intros Hev IH a Ha. apply sub_inv in Ha as [->|(d & h & Hd & Ha)].
  - eapply stopped_mono; [|done]. intros x Hx. apply list_elem_of_singleton in Hx as ->. by left.
  - eapply stopped_mono; [|by eapply IH]. intros. by right.
Qed.

Lemma stops_deps_none t ds tr r : stops_deps ds tr r -> r ≫= watcher_error t = None -> r = None.
Proof.
  intros Hs Hr. destruct r as [e|]; [|done]. apply watcher_error_none in Hr. pose proof (proj2 stops_error _ _ _ Hs e eq_refl). congruence.
Qed.

Lemma stops_all :
  (forall t tr r, stops t tr r -> r = None -> no_failure tr -> forall a, sub a t -> stopped a tr) /\
  (forall ds tr r, stops_deps ds tr r -> r = None -> no_failure tr -> forall d h a, (d, h) ∈ ds -> sub a d -> stopped a tr).
Proof.
  assert (Htl : forall ev tr, no_failure (ev :: tr) -> no_failure tr) by (intros ev tr Hf k e Hin; apply (Hf k e); by right).
  apply stops_mutind.
  - intros t tr r Hs IH Hr Hf. apply stopped_cons; [left; by left|]. intros d h a ??. eapply IH; eauto using stops_deps_none.
  - done.
  - intros t e _ Hf. destruct (Hf (wt_Key t) e). by left.
  - intros t tr r Hs IH Hr Hf. apply stopped_cons; [right; by left|]. intros d h a ??. eapply IH; eauto using stops_deps_none.
  - intros _ _ d h a Hd. by apply not_elem_of_nil in Hd.
  - intros d ds tr1 r1 tr2 r2 tr r _ IH1 _ IH2 Hi Hg -> Hf d' h a Hd Ha. destruct Hg as [-> ->].
    assert (H1 : forall ev, ev ∈ tr1 -> ev ∈ tr) by (intros; eapply interleave_in; eauto).
    assert (H2 : forall ev, ev ∈ tr2 -> ev ∈ tr) by (intros; eapply interleave_in; eauto).
    apply elem_of_cons in Hd as [<-|Hd].
    + apply (stopped_mono a tr1); [done|]. apply IH1; [done| |done]. intros k e Hin. apply (Hf k e). auto.
    + apply (stopped_mono a tr2); [done|]. eapply IH2; [done| |done|done]. intros k e Hin. apply (Hf k e). auto.
Qed.

(** Stopping goes from a container to those it depends on: a container is stopped
    only after one that depends on it was stopped or found stopped; and when no
    stop fails, every container below is stopped, whichever others need it. *)
Theorem stop_order t tr r :
  stops t tr r ->
  (forall a k o b, tr = a ++ Stop k o :: b ->
     k = wt_Key t \/ exists n d h, sub n t /\ (d, h) ∈ dependsOn n /\ wt_Key d = k /\ stopped n a) /\
  (r = None -> no_failure tr -> forall a, sub a t -> stopped a tr).
Proof.
  intros Hs. split; [|by eapply stops_all].
  intros a k o b E. destruct (proj1 stops_guarded t tr r Hs a k o b E) as [(? & <- & ?)|(n & ? & d & h & <- & ?)]; [by left|right; eauto].
Qed.

(** ** Making a watcher and those it depends on *)

(** What a dependency's route shows. [dr_config] points to its settings, which
    every user of the route shares; [dr_container] is the container with its
    dependency labels. *)
Record dep_route := {
  dr_started : bool;
  dr_healthcheck : bool;
  dr_config : option nat;
  dr_container : option (DockerConfig * list bytes);
  dr_target : bool;                   (* TargetURL is not nil *)
  dr_served : bool                    (* a reverse proxy or a stream *)
}.

(** An entry of [watcherMap]: its settings, its dependencies by key, and whether
    its provider is open. *)
Record watcher_entry := { we_cfg : nat; we_deps : list (bytes * bool); we_open : bool }.

Record dep_state := { dps_cfgs : gmap nat IdlewatcherConfig; dps_watchers : gmap bytes watcher_entry }.

Inductive dep_err :=
  | ErrCondition (dep cond : bytes)
  | ErrDepNotFound (dep : bytes)
  | ErrSameRoute (dep : bytes)
  | ErrNoHealthCheck (dep : bytes)
  | ErrPositiveTimeout (dep : bytes)
  | ErrNotDocker (dep : bytes)
  | ErrSameContainer (dep : bytes)
  | ErrNoTarget
  | ErrProvider
  | ErrRouteType
  | ErrStatus.

(** [Waits]: the call waits for a route that is not started yet. *)
Inductive new_result :=
  | Made (key : bytes)
  | Failed (es : list dep_err)
  | Waits (route : nat)
  | Panicked
  | NoFuel.

Record new_env := {
  ne_routes : gmap nat dep_route;
  ne_find : nat -> bytes -> option nat;      (* FindService, then routes.Get *)
  ne_provider : bytes -> bool;               (* the provider can be made *)
  ne_status : bytes -> bool                  (* and tells the status of the container *)
}.

Definition set_cfg (c : nat) (x : IdlewatcherConfig) (s : dep_state) : dep_state :=
  {| dps_cfgs := <[c := x]> (dps_cfgs s); dps_watchers := dps_watchers s |}.

Definition set_entry (k : bytes) (w : watcher_entry) (s : dep_state) : dep_state :=
  {| dps_cfgs := dps_cfgs s; dps_watchers := <[k := w]> (dps_watchers s) |}.

Definition with_DependsOn (l : list bytes) (c : IdlewatcherConfig) : IdlewatcherConfig :=
  {| iw_Proxmox := iw_Proxmox c; iw_Docker := iw_Docker c; iw_IdleTimeout := iw_IdleTimeout c;
     iw_WakeTimeout := iw_WakeTimeout c; iw_StopTimeout := iw_StopTimeout c; iw_StopMethod := iw_StopMethod c;
     iw_StopSignal := iw_StopSignal c; iw_StartEndpoint := iw_StartEndpoint c; iw_DependsOn := l;
     iw_valErr := iw_valErr c |}.

Definition with_Docker (d : DockerConfig) (l : list bytes) (c : IdlewatcherConfig) : IdlewatcherConfig :=
  {| iw_Proxmox := iw_Proxmox c; iw_Docker := Some d; iw_IdleTimeout := iw_IdleTimeout c;
     iw_WakeTimeout := iw_WakeTimeout c; iw_StopTimeout := iw_StopTimeout c; iw_StopMethod := iw_StopMethod c;
     iw_StopSignal := iw_StopSignal c; iw_StartEndpoint := iw_StartEndpoint c; iw_DependsOn := l;
     iw_valErr := iw_valErr c |}.

(** [IdlewatcherConfigBase] of [b] into [c]. *)
Definition with_Base (b c : IdlewatcherConfig) : IdlewatcherConfig :=
  {| iw_Proxmox := iw_Proxmox c; iw_Docker := iw_Docker c; iw_IdleTimeout := iw_IdleTimeout b;
     iw_WakeTimeout := iw_WakeTimeout b; iw_StopTimeout := iw_StopTimeout b; iw_StopMethod := iw_StopMethod b;
     iw_StopSignal := iw_StopSignal b; iw_StartEndpoint := iw_StartEndpoint c; iw_DependsOn := iw_DependsOn c;
     iw_valErr := iw_valErr c |}.

Definition with_IdleTimeout (t : Z) (c : IdlewatcherConfig) : IdlewatcherConfig :=
  {| iw_Proxmox := iw_Proxmox c; iw_Docker := iw_Docker c; iw_IdleTimeout := t;
     iw_WakeTimeout := iw_WakeTimeout c; iw_StopTimeout := iw_StopTimeout c; iw_StopMethod := iw_StopMethod c;
     iw_StopSignal := iw_StopSignal c; iw_StartEndpoint := iw_StartEndpoint c; iw_DependsOn := iw_DependsOn c;
     iw_valErr := iw_valErr c |}.

(** [new(types.IdlewatcherConfig)]. *)
Definition empty_cfg : IdlewatcherConfig :=
  {| iw_Proxmox := None; iw_Docker := None; iw_IdleTimeout := 0; iw_WakeTimeout := 0; iw_StopTimeout := 0;
     iw_StopMethod := []; iw_StopSignal := []; iw_StartEndpoint := []; iw_DependsOn := []; iw_valErr := [] |}.

(** The name and the condition of an entry of depends_on: [inl] an unsupported
    condition. *)
Definition parse_dependency (dep : bytes) : (bytes * bytes) + (bytes * bool) :=
  match Split dep ":"%char with
  | [] => inr ([], false)
  | [d] => inr (d, false)
  | d :: cond :: _ =>
      if bool_decide (cond = B "service_started") then inr (d, false)
      else if bool_decide (cond = B "service_healthy") then inr (d, true)
      else inl (d, cond)
  end.

(** The settings of a dependency: those of its route, changed in place, or new
    ones. [c] are the settings of the dependent. *)
Definition dep_config (dep : bytes) (rt : dep_route) (c : nat) (s : dep_state) : dep_err + (nat * dep_state) :=
  let base := default empty_cfg (dps_cfgs s !! c) in
  let found :=
    match dr_config rt with
    | None => let p := fresh (dom (dps_cfgs s)) in
              inr (p, set_cfg p (with_IdleTimeout neverTick (with_Base base empty_cfg)) s)
    | Some p => if 0 <? iw_IdleTimeout (default empty_cfg (dps_cfgs s !! p)) then inl (ErrPositiveTimeout dep) else inr (p, s)
    end in
  match found with
  | inl e => inl e
  | inr (p, s) =>
      let cfg := default empty_cfg (dps_cfgs s !! p) in
      match iw_Docker cfg, iw_Proxmox cfg with
      | None, None =>
          match dr_container rt with
          | Some (d, deps) => inr (p, set_cfg p (with_Docker d deps cfg) s)
          | None => inl (ErrNotDocker dep)
          end
      | _, _ => inr (p, s)
      end
  end.

Section NewWatcher.
Context `{OrderedMap}.
Variable env : new_env.

(** The watchers below an entry of the map. *)
Fixpoint tree_of (fuel : nat) (s : dep_state) (key : bytes) : wtree :=
  match dps_watchers s !! key with
  | None => WNode key [] []
  | Some e =>
      let name := match dps_cfgs s !! we_cfg e with
                  | Some c => match Idle_ContainerName c with Ok n => n | _ => [] end
                  | None => []
                  end in
      match fuel with
      | O => WNode key name []
      | S f => WNode key name (map (fun d => (tree_of f s d.1, d.2)) (we_deps e))
      end
  end.

Definition add_dependency (d : bytes * bool) (w : watcher_entry) : watcher_entry :=
  {| we_cfg := we_cfg w; we_deps := we_deps w ++ [d]; we_open := we_open w |}.

Definition set_open (b : bool) (w : watcher_entry) : watcher_entry :=
  {| we_cfg := we_cfg w; we_deps := we_deps w; we_open := b |}.

Definition set_deps (l : list (bytes * bool)) (w : watcher_entry) : watcher_entry :=
  {| we_cfg := we_cfg w; we_deps := l; we_open := we_open w |}.

Definition Config_Key (s : dep_state) (c : nat) : result Empty_set bytes := Idle_Key (default empty_cfg (dps_cfgs s !! c)).

(** The watcher of route [r] with settings [c].  The entry being made is passed
    along, as it is not in the map until the end unless it was there before. *)
Fixpoint NewWatcher (fuel : nat) (r c : nat) (s : dep_state) : new_result * dep_state :=
  match fuel with
  | O => (NoFuel, s)
  | S fuel =>
  match Config_Key s c, ne_routes env !! r with
  | Ok key, Some route =>
      let cfg := default empty_cfg (dps_cfgs s !! c) in
      let existing := dps_watchers s !! key in
      let '(c, w, s) :=
        match existing with
        | Some w =>
            let old := default empty_cfg (dps_cfgs s !! we_cfg w) in
            let new := if bool_decide (iw_DependsOn cfg = []) then old else with_DependsOn (iw_DependsOn cfg) old in
            let new := if 0 <? iw_IdleTimeout cfg then with_Base cfg new else new in
            (we_cfg w, w, set_cfg (we_cfg w) new s)
        | None => (c, {| we_cfg := c; we_deps := []; we_open := false |}, s)
        end in
      let resolve :=
        fix resolve (i : nat) (deps : list bytes) (w : watcher_entry) (es : list dep_err) (s : dep_state)
            : (new_result + (watcher_entry * list dep_err)) * dep_state :=
          match deps with
          | [] => (inr (w, es), s)
          | dep :: deps =>
              let fail e s := resolve (S i) deps w (es ++ [e]) s in
              let name := match parse_dependency dep with inl (d, _) | inr (d, _) => d end in
              if bool_decide (name = []) then resolve (S i) deps w es s
              else
                let cur := default empty_cfg (dps_cfgs s !! c) in
                let s := set_cfg c (with_DependsOn (<[i := name]> (iw_DependsOn cur)) cur) s in
                match parse_dependency dep with
                | inl (d, cond) => fail (ErrCondition d cond) s
                | inr (d, waitHealthy) =>
                    match ne_find env r d with
                    | None => fail (ErrDepNotFound d) s
                    | Some dr =>
                        match ne_routes env !! dr with
                        | None => fail (ErrDepNotFound d) s
                        | Some rt =>
                            if bool_decide (dr = r) then fail (ErrSameRoute d) s
                            else if negb (dr_started rt) then (inl (Waits dr), s)
                            else if waitHealthy && negb (dr_healthcheck rt) then fail (ErrNoHealthCheck d) s
                            else
                              match dep_config d rt c s with
                              | inl e => fail e s
                              | inr (p, s) =>
                                  match Config_Key s p with
                                  | Ok k =>
                                      if bool_decide (k = key) then fail (ErrSameContainer d) s
                                      else
                                        let s := set_cfg p (with_IdleTimeout neverTick (default empty_cfg (dps_cfgs s !! p))) s in
                                        match NewWatcher fuel dr p s with
                                        | (Made k, s) => resolve (S i) deps (add_dependency (k, waitHealthy) w) es s
                                        | (Failed es', s) => resolve (S i) deps w (es ++ es') s
                                        | (x, s) => (inl x, s)
                                        end
                                  | _ => (inl Panicked, s)
                                  end
                              end
                        end
                    end
                end
          end in
      match resolve 0%nat (iw_DependsOn (default empty_cfg (dps_cfgs s !! c))) w [] s with
      | (inl x, s) => (x, s)
      | (inr (w, es), s) =>
          (* the old provider is closed, whatever comes next *)
          let keep w s := match existing with Some _ => set_entry key w s | None => s end in
          let w := set_open false w in
          if bool_decide (es <> []) then (Failed es, keep w s)
          else if negb (dr_target route) then (Failed [ErrNoTarget], keep w s)
          else if negb (ne_provider env key) then (Failed [ErrProvider], keep w s)
          else if negb (dr_served route) then (Failed [ErrRouteType], keep w s)
          else if negb (ne_status env key) then (Failed [ErrStatus], keep w s)
          else
            let s := set_entry key (set_open true w) s in
            let t := dedupDependencies (tree_of (size (dps_watchers s)) s key) in
            let s := set_entry key (set_open true (set_deps (map (fun d => (wt_Key d.1, d.2)) (dependsOn t)) w)) s in
            let cur := default empty_cfg (dps_cfgs s !! c) in
            (Made key, set_cfg c (with_DependsOn (map (fun d => wt_ContainerName d.1) (dependsOn t)) cur) s)
      end
  | Ok _, None => (Failed [ErrNoTarget], s)
  | _, _ => (Panicked, s)
  end
  end.

End NewWatcher.

(** ** Examples *)

Module Examples.

(** An association list in the order of insertion. *)
Fixpoint assoc_set (k : bytes) (v : dependency) (m : list (bytes * dependency)) : list (bytes * dependency) :=
  match m with
  | [] => [(k, v)]
  | (k', v') :: m => if bool_decide (k' = k) then (k, v) :: m else (k', v') :: assoc_set k v m
  end.

(** The list, without its later entries of a key. *)
Fixpoint uniq (m : list (bytes * dependency)) : list (bytes * dependency) :=
  match m with
  | [] => []
  | (k, v) :: m => (k, v) :: filter (fun e => e.1 <> k) (uniq m)
  end.

#[local] Instance assoc_map : OrderedMap :=
  {| omap := list (bytes * dependency); om_New := []; om_Set := assoc_set;
     om_Del := fun k => filter (fun e => e.1 <> k); om_Iter := uniq |}.

Lemma uniq_filter k m : uniq (filter (fun e : bytes * dependency => e.1 <> k) m) = filter (fun e => e.1 <> k) (uniq m).
Proof.
  induction m as [|[k' v'] m IH]; [done|]. rewrite filter_cons. simpl. destruct (decide (k' <> k)) as [Hk|Hk]; simpl.
  - rewrite IH, filter_cons. rewrite decide_True by done. f_equal. rewrite !list_filter_filter. apply list_filter_iff. tauto.
  - rewrite IH, filter_cons. rewrite decide_False by done. apply dec_stable in Hk as ->. rewrite list_filter_filter.
    apply list_filter_iff. tauto.
Qed.

Lemma uniq_set k v m : uniq (assoc_set k v m) = assoc_set k v (uniq m).
Proof.
  induction m as [|[k' v'] m IH]; [done|]. simpl. case_bool_decide as Hk; simpl.
  - subst. done.
  - rewrite IH. f_equal. generalize (uniq m). clear IH. induction l as [|[k2 v2] l IHl]; simpl.
    + by rewrite filter_cons, decide_True.
    + case_bool_decide; subst; rewrite !filter_cons; simpl.
      * rewrite !decide_True by done. simpl. by rewrite bool_decide_true.
      * destruct (decide (k2 <> k')); simpl; [|done]. rewrite bool_decide_false by done. by rewrite IHl.
Qed.

Lemma uniq_NoDup m : NoDup (uniq m).*1.
Proof.
  induction m as [|[k v] m IH]; simpl; [constructor|]. constructor.
  - intros Hin. apply list_elem_of_fmap in Hin as ([k' v'] & -> & Hin). apply list_elem_of_filter in Hin as [? _]. done.
  - revert IH. generalize (uniq m). induction l as [|[k' v'] l IHl]; intros Hnd; [constructor|]. rewrite filter_cons.
    apply NoDup_cons in Hnd as [Hno Hnd]. destruct (decide _); [|auto]. simpl. constructor; [|auto]. intros Hin. apply Hno.
    apply list_elem_of_fmap in Hin as (e & ? & Hin). apply list_elem_of_filter in Hin as [_ ?]. apply list_elem_of_fmap. eauto.
Qed.

Lemma assoc_set_in k v m k' v' :
  NoDup m.*1 -> (k', v') ∈ assoc_set k v m <-> k' = k /\ v' = v \/ k' <> k /\ (k', v') ∈ m.
Proof.
  induction m as [|[k0 v0] m IH]; simpl; intros Hnd.
  - rewrite list_elem_of_singleton. split; [intros; simplify_eq; by left|]. intros [[-> ->]|[_ Hn]]; [done|by apply not_elem_of_nil in Hn].
  - apply NoDup_cons in Hnd as [Hno Hnd]. case_bool_decide; subst; rewrite !elem_of_cons.
    + split.
      * intros [?|Hin]; [simplify_eq; by left|right]. split; [|by right]. intros ->. apply Hno, list_elem_of_fmap. by exists (k, v').
      * intros [[-> ->]|[Hne [?|?]]]; [by left|simplify_eq|by right].
    + rewrite IH by done. split.
      * intros [?|[[-> ->]|[? ?]]]; [simplify_eq; right; split; [done|by left]|by left|right; split; [done|by right]].
      * intros [[-> ->]|[Hne [?|?]]]; [right; by left|by left|right; by right].
Qed.

#[local] Instance assoc_laws : OrderedMapLaws.
Proof.
  split; simpl.
  - done.
  - apply uniq_NoDup.
  - intros. rewrite uniq_set. apply assoc_set_in, uniq_NoDup.
  - intros. rewrite uniq_filter. rewrite list_elem_of_filter. done.
Qed.

(** An application on two services that share a database. *)
Definition db : wtree := WNode (B "id3") (B "db") [].
Definition api : wtree := WNode (B "id2") (B "api") [(db, false)].
Definition app : wtree := WNode (B "id1") (B "app") [(api, false); (db, true)].

Lemma app_nodes a : sub a app <-> a = app \/ a = api \/ a = db.
Proof.
  assert (Hdb : forall a, sub a db <-> a = db).
  { intros a0. rewrite sub_inv. split; [|by left]. intros [?|(d & h & Hd & _)]; [done|]. by apply not_elem_of_nil in Hd. }
  assert (Hapi : forall a, sub a api <-> a = api \/ a = db).
  { intros a0. rewrite sub_inv. unfold below. simpl. split.
    - intros [?|(d & h & Hd & Hs)]; [by left|right]. apply list_elem_of_singleton in Hd. simplify_eq. by apply Hdb.
    - intros [?| ->]; [by left|right]. exists db, false. split; [by left|constructor]. }
  rewrite sub_inv. unfold below. simpl. split.
  - intros [?|(d & h & Hd & Hs)]; [by left|right]. apply elem_of_cons in Hd as [Hd|Hd]; [simplify_eq; by apply Hapi|].
    apply list_elem_of_singleton in Hd. simplify_eq. right. by apply Hdb.
  - intros [?|[->| ->]]; [by left| |]; right.
    + exists api, false. split; [by left|constructor].
    + exists db, true. split; [right; by left|constructor].
Qed.

Lemma app_one_per_key : one_per_key app.
Proof. intros a b Ha Hb. apply app_nodes in Ha, Hb. destruct Ha as [->|[->| ->]], Hb as [->|[->| ->]]; by intros. Qed.

Lemma dedup_keeps_below_witness : below db (dedupDependencies app).
Proof. apply (dedup_keeps_below app db app_one_per_key). exists db, true. split; [right; by left|constructor]. Defined.

(** The application waits for the health of the database, but the database is
    also below the service, which does not: the condition is dropped. *)
Example health_condition_dropped : dependsOn (dedupDependencies app) = [(api, false)].
Proof. by vm_compute. Qed.

Lemma db_wakes : wakes db [Woke (B "id3") None] None.
Proof. apply (wakes_self db [] None). constructor. Qed.

Lemma api_wakes : wakes api [Woke (B "id3") None; Woke (B "id2") None] None.
Proof.
  apply (wakes_self api [Woke (B "id3") None] None). eapply wakes_cons; [apply wake_started, db_wakes|constructor|apply interleave_nil_r|done].
Qed.

Definition app_trace : list wake_ev :=
  [Woke (B "id3") None; Woke (B "id3") None; Unhealthy (B "id3"); Woke (B "id2") None; IsHealthy (B "id3"); Woke (B "id1") None].

Lemma app_wakes : wakes app app_trace None.
Proof.
  apply (wakes_self app [Woke (B "id3") None; Woke (B "id3") None; Unhealthy (B "id3"); Woke (B "id2") None; IsHealthy (B "id3")] None).
  eapply wakes_cons; [apply wake_started, api_wakes| | |done].
  - eapply wakes_cons; [exact (wake_healthy db _ 1 db_wakes)|constructor|apply interleave_nil_r|done].
  - simpl. repeat constructor.
Qed.

Lemma wake_order_witness : dep_ready (db, true) [Woke (B "id3") None; Woke (B "id3") None; Unhealthy (B "id3"); Woke (B "id2") None; IsHealthy (B "id3")].
Proof.
  apply (wake_order app app_trace None [Woke (B "id3") None; Woke (B "id3") None; Unhealthy (B "id3"); Woke (B "id2") None; IsHealthy (B "id3")] (B "id1") None [] app db true);
    [apply app_one_per_key|apply app_wakes|done|constructor|done|right; by left].
Defined.

(** While the database is still starting for someone else, the application is
    started without waiting for its health. *)
Example starting_dependency_not_awaited :
  wakes (WNode (B "id1") (B "app") [(db, true)]) [Skipped (B "id3"); Woke (B "id1") None] None.
Proof.
  apply (wakes_self (WNode (B "id1") (B "app") [(db, true)]) [Skipped (B "id3")] None).
  eapply wakes_cons; [apply (wake_skip db true)|constructor|apply interleave_nil_r|done].
Qed.

Lemma api_stops : stops api [Stop (B "id2") None; Stop (B "id3") None] None.
Proof.
  apply (stops_done api [Stop (B "id3") None] None).
  eapply stops_cons; [apply (stops_done db [] None); constructor|constructor|apply interleave_nil_r|done].
Qed.

(** The service goes idle: the database is stopped with it, although others may
    use it. *)
Lemma stop_order_witness : stopped db [Stop (B "id2") None; Stop (B "id3") None].
Proof.
  apply (stop_order api _ None api_stops); [done| |].
  - intros k e Hin. repeat (apply elem_of_cons in Hin as [?|Hin]; [simplify_eq|]). by apply not_elem_of_nil in Hin.
  - apply sub_inv. right. exists db, false. split; [by left|constructor].
Defined.

(** *** Making watchers *)

Definition docker_cfg (id name : bytes) (timeout : Z) (deps : list bytes) : IdlewatcherConfig :=
  with_IdleTimeout timeout (with_Docker {| dc_DockerHost := []; dc_ContainerID := id; dc_ContainerName := name |} deps empty_cfg).

Definition route_of (started : bool) (cfg : option nat) (cont : option (DockerConfig * list bytes)) : dep_route :=
  {| dr_started := started; dr_healthcheck := true; dr_config := cfg; dr_container := cont; dr_target := true; dr_served := true |}.

Definition env_of (rs : list (nat * dep_route)) (names : list (bytes * nat)) : new_env :=
  {| ne_routes := list_to_map rs; ne_find := fun _ d => (list_to_map names : gmap bytes nat) !! d;
     ne_provider := fun _ => true; ne_status := fun _ => true |}.

(** Two containers depend on a third one, whose settings say that it is a
    dependency: the first is accepted; it makes the timeout of the settings
    positive, for which the second is refused. *)
Definition two_users : new_env :=
  env_of [(1%nat, route_of true (Some 1%nat) None); (2%nat, route_of true (Some 2%nat) None); (3%nat, route_of true (Some 3%nat) None)]
    [(B "db", 3%nat)].

Definition two_users_state : dep_state :=
  {| dps_cfgs := list_to_map [(1%nat, docker_cfg (B "id1") (B "app") Minute [B "db"]); (2%nat, docker_cfg (B "id2") (B "api") Minute [B "db"]);
                            (3%nat, docker_cfg (B "id3") (B "db") (-1) [])];
     dps_watchers := ∅ |}.

Example second_dependent_refused :
  let '(r1, s) := NewWatcher two_users 5 1 1 two_users_state in
  r1 = Made (B "id1") /\ fst (NewWatcher two_users 5 2 2 s) = Failed [ErrPositiveTimeout (B "db")].
Proof. by vm_compute. Qed.

(** Two containers that depend on each other: making the first waits for its own
    route to have started. *)
Definition cycle : new_env :=
  env_of [(1%nat, route_of false (Some 1%nat) None);
          (2%nat, route_of true None (Some ({| dc_DockerHost := []; dc_ContainerID := B "id2"; dc_ContainerName := B "api" |}, [B "app"])))]
    [(B "api", 2%nat); (B "app", 1%nat)].

Example cycle_waits_for_itself :
  fst (NewWatcher cycle 5 1 1 {| dps_cfgs := {[1%nat := docker_cfg (B "id1") (B "app") Minute [B "api"]]}; dps_watchers := ∅ |}) = Waits 1.
Proof. by vm_compute. Qed.

(** A reload whose dependency is not found is refused, but the watcher, which
    stays, is left with a closed provider. *)
Example failed_reload_closes_provider :
  let s := snd (NewWatcher two_users 5 1 1 two_users_state) in
  let s := set_cfg 1 (docker_cfg (B "id1") (B "app") Minute [B "cache"]) s in
  let '(r, s') := NewWatcher two_users 5 1 1 s in
  we_open <$> dps_watchers s !! B "id1" = Some true /\ r = Failed [ErrDepNotFound (B "cache")] /\
  we_open <$> dps_watchers s' !! B "id1" = Some false.
Proof. by vm_compute. Qed.

End Examples.
