(* ===== verification/ConfigState.v ===== *)
(** * The configuration as a whole

    Models internal/config/state.go and internal/config/events.go: what a new
    state builds and which global objects it replaces on the way (the pool of
    agents, the notification dispatcher, the proxy servers), loading, reloading
    and the handler of file events behind the event queue; internal/config/query
    and internal/types/stats.go: what is reported of the providers.

    What the parts answer when they are started is an [init_env].  A state is
    named by a number; the goroutine of a dispatcher that ends is an event of its
    own, since nothing waits for its last statement. *)

From S2P Require Import Prelude GoStrings Health EventQueue.

(** ** Providers *)

Inductive provider_type := ProviderTypeDocker | ProviderTypeFile | ProviderTypeAgent.

Record route_provider := {
  rp_String : bytes;
  rp_ShortName : bytes;
  rp_Type : provider_type;
  rp_loads : bool;                    (* LoadRoutes returns no error *)
  rp_starts : bool;                   (* Start returns no error *)
  rp_routes : list bytes              (* the aliases of its routes *)
}.

Inductive config_error :=
  | ErrRead (notexist : bool)
  | ErrYAML
  | ErrMaxMind
  | ErrProxmox (url : bytes)
  | ErrAgent (addr : bytes)
  | ErrFileProvider (filename : bytes)
  | ErrProviderExists (name : bytes) (first second : provider_type)
  | ErrLoadRoutes (name : bytes)
  | ErrAutoCert
  | ErrACL
  | ErrMiddlewares
  | ErrEntrypointLog
  | ErrStart (name : bytes).

#[export] Instance provider_type_eq_dec : EqDecision provider_type.
Proof. solve_decision. Defined.

#[export] Instance config_error_eq_dec : EqDecision config_error.
Proof. solve_decision. Defined.

(** The consumer of [providersCh]: the first provider of a name is kept. *)
Definition LoadOrStore (acc : gmap bytes route_provider * list config_error) (p : route_provider) :
    gmap bytes route_provider * list config_error :=
  match acc.1 !! rp_String p with
  | Some actual => (acc.1, acc.2 ++ [ErrProviderExists (rp_String p) (rp_Type actual) (rp_Type p)])
  | None => (<[rp_String p := p]> acc.1, acc.2)
  end.

Definition consume (ch : list route_provider) : gmap bytes route_provider * list config_error :=
  fold_left LoadOrStore ch (∅, []).

(** ** What a configuration file asks for, and what the parts answer *)

Record init_env := {
  ie_read : option bool;                                  (* reading failed: because the file does not exist *)
  ie_yaml : bool;
  ie_maxmind : option bool;                               (* configured: started *)
  ie_proxmox : list (bytes * bool);
  ie_agents : list (bytes * option route_provider);       (* address; its provider if it started *)
  ie_files : list (bytes * option route_provider);
  ie_docker : list route_provider;
  ie_arrival : list route_provider;                       (* the order in which the providers arrive *)
  ie_autocert : bool * bool;                              (* a configuration is accepted; it is set up *)
  ie_notifiers : nat;
  ie_acl : option bool;                                   (* a valid list; started *)
  ie_middlewares : bool;
  ie_accesslog : bool
}.

Definition produced (e : init_env) : list route_provider :=
  omap snd (ie_agents e) ++ omap snd (ie_files e) ++ ie_docker e.

(** ** The globals *)

Record cstate := { st_providers : gmap bytes route_provider; st_autocert : bool; st_dispatcher : bool }.

Record globals := {
  g_next : nat;
  g_states : gmap nat cstate;
  g_active : option nat;                (* ActiveState, and what SetState stores with it *)
  g_agents : gmap bytes nat;            (* the pool: address, and the state that added it *)
  g_dispatcher : option nat;            (* the variable of the package notif *)
  g_ending : list nat;                  (* dispatchers that were cancelled and not ended yet *)
  g_servers : option nat                (* the state whose proxy servers listen *)
}.

Definition g_init : globals :=
  {| g_next := 0; g_states := ∅; g_active := None; g_agents := ∅; g_dispatcher := None; g_ending := []; g_servers := None |}.

(** ** Building a state *)

Definition err_unless (b : bool) (e : config_error) : list config_error := if b then [] else [e].

Definition initMaxMind (e : init_env) : list config_error :=
  match ie_maxmind e with Some ok => err_unless ok ErrMaxMind | None => [] end.

Definition initProxmox (e : init_env) : list config_error :=
  flat_map (fun '(url, ok) => err_unless ok (ErrProxmox url)) (ie_proxmox e).

(** The agents in the pool afterwards: those of this state that started. *)
Definition pool_agents (id : nat) (e : init_env) : gmap bytes nat :=
  list_to_map (omap (fun '(addr, p) => match p with Some _ => Some (addr, id) | None => None end) (ie_agents e)).

Definition loadRouteProviders (e : init_env) : gmap bytes route_provider * list config_error :=
  let e1 := flat_map (fun '(addr, p) => match p with Some _ => [] | None => [ErrAgent addr] end) (ie_agents e) in
  let e2 := flat_map (fun '(f, p) => match p with Some _ => [] | None => [ErrFileProvider f] end) (ie_files e) in
  let '(m, e3) := consume (ie_arrival e) in
  let e4 := flat_map (fun '(n, p) => err_unless (rp_loads p) (ErrLoadRoutes n)) (map_to_list m) in
  (m, e1 ++ e2 ++ e3 ++ e4).

Definition initAutoCert (e : init_env) : bool * list config_error :=
  match ie_autocert e with
  | (false, _) => (false, [ErrAutoCert])
  | (true, ok) => (true, err_unless ok ErrAutoCert)
  end.

Definition initAccessLogger (e : init_env) : list config_error :=
  match ie_acl e with Some ok => err_unless ok ErrACL | None => [] end.

Definition initEntrypoint (e : init_env) : list config_error :=
  err_unless (ie_middlewares e) ErrMiddlewares ++ err_unless (ie_accesslog e) ErrEntrypointLog.

Definition put_state (id : nat) (st : cstate) (g : globals) : globals :=
  {| g_next := g_next g; g_states := <[id := st]> (g_states g); g_active := g_active g; g_agents := g_agents g;
     g_dispatcher := g_dispatcher g; g_ending := g_ending g; g_servers := g_servers g |}.
Definition put_agents (a : gmap bytes nat) (g : globals) : globals :=
  {| g_next := g_next g; g_states := g_states g; g_active := g_active g; g_agents := a;
     g_dispatcher := g_dispatcher g; g_ending := g_ending g; g_servers := g_servers g |}.
Definition put_dispatcher (d : option nat) (g : globals) : globals :=
  {| g_next := g_next g; g_states := g_states g; g_active := g_active g; g_agents := g_agents g;
     g_dispatcher := d; g_ending := g_ending g; g_servers := g_servers g |}.
Definition put_servers (d : option nat) (g : globals) : globals :=
  {| g_next := g_next g; g_states := g_states g; g_active := g_active g; g_agents := g_agents g;
     g_dispatcher := g_dispatcher g; g_ending := g_ending g; g_servers := d |}.

Definition empty_state : cstate := {| st_providers := ∅; st_autocert := false; st_dispatcher := false |}.

Definition NewState (g : globals) : nat * globals :=
  (g_next g,
   {| g_next := S (g_next g); g_states := <[g_next g := empty_state]> (g_states g); g_active := g_active g;
      g_agents := g_agents g; g_dispatcher := g_dispatcher g; g_ending := g_ending g; g_servers := g_servers g |}).

(** [Init]: the errors of every part are collected, none stops the others. *)
Definition Init (id : nat) (e : init_env) (g : globals) : list config_error * globals :=
  if negb (ie_yaml e) then ([ErrYAML], g)
  else
    let '(providers, e3) := loadRouteProviders e in
    let '(cert, e4) := initAutoCert e in
    let g := put_agents (pool_agents id e) g in
    let notify := negb (ie_notifiers e =? 0)%nat in
    let g := put_state id {| st_providers := providers; st_autocert := cert; st_dispatcher := notify |} g in
    let g := if notify then put_dispatcher (Some id) g else g in
    (initMaxMind e ++ initProxmox e ++ e3 ++ e4 ++ initAccessLogger e ++ initEntrypoint e, g).

Definition InitFromFile (id : nat) (e : init_env) (g : globals) : list config_error * globals :=
  match ie_read e with
  | Some ne => ([ErrRead ne], g)
  | None => Init id e g
  end.

Definition StartProviders (st : cstate) : list config_error :=
  flat_map (fun '(n, p) => err_unless (rp_starts p) (ErrStart n)) (map_to_list (st_providers st)).

Definition SetState (id : nat) (g : globals) : globals :=
  {| g_next := g_next g; g_states := g_states g; g_active := Some id; g_agents := g_agents g;
     g_dispatcher := g_dispatcher g; g_ending := g_ending g; g_servers := g_servers g |}.

(** [FinishAndWait] of the task of a state: its servers stop, its dispatcher is
    cancelled. *)
Definition FinishAndWait (id : nat) (g : globals) : globals :=
  let cancelled := match g_states g !! id with Some st => st_dispatcher st | None => false end in
  {| g_next := g_next g; g_states := g_states g; g_active := g_active g; g_agents := g_agents g;
     g_dispatcher := g_dispatcher g;
     g_ending := if cancelled then g_ending g ++ [id] else g_ending g;
     g_servers := if bool_decide (g_servers g = Some id) then None else g_servers g |}.

(** The end of [Dispatcher.start]: the variable is cleared, whatever it holds. *)
Definition dispatcher_end (id : nat) (g : globals) : globals :=
  {| g_next := g_next g; g_states := g_states g; g_active := g_active g; g_agents := g_agents g;
     g_dispatcher := None; g_ending := filter (fun i => i <> id) (g_ending g); g_servers := g_servers g |}.

Definition StartProxyServers (g : globals) : globals := put_servers (g_active g) g.

(** [Load], which panics when a configuration is loaded, and then the servers
    that main starts. *)
Definition Load (e : init_env) (g : globals) : result (list config_error) (list config_error * globals) :=
  match g_active g with
  | Some _ => Panic ExplicitPanic
  | None =>
      let '(id, g) := NewState g in
      let '(es, g) := InitFromFile id e g in
      let es := if bool_decide (es = [ErrRead true]) then [] else es in
      let es := es ++ match g_states g !! id with Some st => StartProviders st | None => [] end in
      Ok (es, SetState id g)
  end.

Definition Reload (e : init_env) (g : globals) : list config_error * globals :=
  let old := g_active g in
  let '(id, g) := NewState g in
  let '(es, g) := InitFromFile id e g in
  if bool_decide (es <> []) then (es, FinishAndWait id g)
  else
    let g := match old with Some o => FinishAndWait o g | None => g end in
    let g := SetState id g in
    match g_states g !! id with
    | Some st => if bool_decide (StartProviders st <> []) then ([], g) else ([], StartProxyServers g)
    | None => ([], g)
    end.

(** ** Runs *)

Inductive config_ev := EvReload (e : init_env) | EvDispatcherEnd (id : nat).

Definition config_step (g : globals) (ev : config_ev) : globals :=
  match ev with
  | EvReload e => snd (Reload e g)
  | EvDispatcherEnd id => if bool_decide (id ∈ g_ending g) then dispatcher_end id g else g
  end.

Definition config_run (evs : list config_ev) (g : globals) : globals := fold_left config_step evs g.

(** The program starts: [Load], then [StartProxyServers]. *)
Definition start (e : init_env) : globals :=
  match Load e g_init with Ok (_, g) => StartProxyServers g | _ => g_init end.

(** ** What is reported of the providers *)

Definition uint16 (n : Z) : Z := n mod 65536.

Record RouteStats := {
  rs_Total : Z; rs_NumHealthy : Z; rs_NumUnhealthy : Z; rs_NumNapping : Z; rs_NumError : Z; rs_NumUnknown : Z
}.

Definition zero_stats : RouteStats :=
  {| rs_Total := 0; rs_NumHealthy := 0; rs_NumUnhealthy := 0; rs_NumNapping := 0; rs_NumError := 0; rs_NumUnknown := 0 |}.

Definition count_if (b : bool) (n : Z) : Z := if b then uint16 (n + 1) else n.

(** The counter of a status; [None] for a route without a monitor. *)
Definition bucket (status : option Z) : nat :=
  match status with
  | None => 4
  | Some s =>
      if s =? StatusHealthy then 0 else if s =? StatusUnhealthy then 1
      else if s =? StatusNapping then 2 else if s =? StatusError then 3 else 4
  end.

Definition stats_Add (stats : RouteStats) (status : option Z) : RouteStats :=
  let b := bucket status in
  {| rs_Total := uint16 (rs_Total stats + 1);
     rs_NumHealthy := count_if (b =? 0)%nat (rs_NumHealthy stats);
     rs_NumUnhealthy := count_if (b =? 1)%nat (rs_NumUnhealthy stats);
     rs_NumNapping := count_if (b =? 2)%nat (rs_NumNapping stats);
     rs_NumError := count_if (b =? 3)%nat (rs_NumError stats);
     rs_NumUnknown := count_if (b =? 4)%nat (rs_NumUnknown stats) |}.

Definition AddOther (stats other : RouteStats) : RouteStats :=
  {| rs_Total := uint16 (rs_Total stats + rs_Total other);
     rs_NumHealthy := uint16 (rs_NumHealthy stats + rs_NumHealthy other);
     rs_NumUnhealthy := uint16 (rs_NumUnhealthy stats + rs_NumUnhealthy other);
     rs_NumNapping := uint16 (rs_NumNapping stats + rs_NumNapping other);
     rs_NumError := uint16 (rs_NumError stats + rs_NumError other);
     rs_NumUnknown := uint16 (rs_NumUnknown stats + rs_NumUnknown other) |}.

Record ProviderStats := { ps_Total : Z; ps_RPs : RouteStats; ps_Streams : RouteStats; ps_Type : provider_type }.

(** A route of a provider: a stream or not, and its status. *)
Definition provider_Statistics (t : provider_type) (routes : list (bool * option Z)) : ProviderStats :=
  let rps := fold_left (fun st '(stream, h) => if (stream : bool) then st else stats_Add st h) routes zero_stats in
  let streams := fold_left (fun st '(stream, h) => if (stream : bool) then stats_Add st h else st) routes zero_stats in
  {| ps_Total := uint16 (rs_Total rps + rs_Total streams); ps_RPs := rps; ps_Streams := streams; ps_Type := t |}.

Record Statistics := {
  sq_Total : Z; sq_ReverseProxies : RouteStats; sq_Streams : RouteStats; sq_Providers : gmap bytes ProviderStats
}.

(** The providers in the order of the range, with their short names. *)
Definition GetStatistics (ps : list (bytes * ProviderStats)) : Statistics :=
  {| sq_Total := fold_left (fun t '(_, st) => uint16 (t + uint16 (rs_Total (ps_RPs st) + rs_Total (ps_Streams st)))) ps 0;
     sq_ReverseProxies := fold_left (fun a '(_, st) => AddOther a (ps_RPs st)) ps zero_stats;
     sq_Streams := fold_left (fun a '(_, st) => AddOther a (ps_Streams st)) ps zero_stats;
     sq_Providers := fold_left (fun m '(n, st) => <[n := st]> m) ps ∅ |}.

Definition DumpRouteProviders (ps : list route_provider) : gmap bytes route_provider :=
  fold_left (fun m p => <[rp_ShortName p := p]> m) ps ∅.

Definition RouteProviderList (ps : list route_provider) : list (bytes * bytes) :=
  map (fun p => (rp_ShortName p, rp_String p)) ps.

(** The first provider, in the order of the range, that has the alias. *)
Definition SearchRoute (ps : list route_provider) (alias : bytes) : option bytes :=
  (fun '(_, p) => rp_String p) <$> list_find (fun p => alias ∈ rp_routes p) ps.

(** ** The providers of a state *)

Definition first_named (n : bytes) (ch : list route_provider) : option route_provider :=
  snd <$> list_find (fun p => rp_String p = n) ch.

Lemma consume_from ch : forall m es n,
  (fold_left LoadOrStore ch (m, es)).1 !! n = match m !! n with Some p => Some p | None => first_named n ch end.
Proof.
  induction ch as [|p ch IH]; intros m es n; simpl; [by destruct (m !! n)|]. unfold LoadOrStore at 2. simpl.
  unfold first_named in *. simpl. destruct (m !! rp_String p) as [q|] eqn:E; rewrite IH.
  - destruct (m !! n) eqn:En; [done|]. rewrite decide_False by congruence.
    destruct (list_find _ ch) as [[? ?]|]; done.
  - destruct (decide (rp_String p = n)) as [<-|Hn].
    + by rewrite lookup_insert_eq, E.
    + rewrite lookup_insert_ne by done. destruct (m !! n); [done|]. by destruct (list_find _ ch) as [[? ?]|].
Qed.

Lemma consume_count ch : forall m es,
  let '(m', es') := fold_left LoadOrStore ch (m, es) in (length es' + size m' = length es + size m + length ch)%nat.
Proof.
  induction ch as [|p ch IH]; intros m es; simpl; [lia|]. unfold LoadOrStore at 2. simpl.
  destruct (m !! rp_String p) as [q|] eqn:E.
  - specialize (IH m (es ++ [ErrProviderExists (rp_String p) (rp_Type q) (rp_Type p)])).
    destruct (fold_left _ _ _). rewrite length_app in IH. simpl in IH. lia.
  - specialize (IH (<[rp_String p := p]> m) es). destruct (fold_left _ _ _). rewrite map_size_insert_None in IH by done. lia.
Qed.

Lemma first_named_some n ch : is_Some (first_named n ch) <-> n ∈ map rp_String ch.
Proof.
  unfold first_named. rewrite list_elem_of_fmap. split.
  - intros [p Hp]. apply fmap_Some in Hp as ([i q] & Hf & ->). apply list_find_Some in Hf as (Hl & Hq & _).
    exists q. split; [done|]. by eapply list_elem_of_lookup_2.
  - intros (p & -> & Hp). destruct (list_find_elem_of (fun q => rp_String q = rp_String p) ch p Hp eq_refl) as [[i q] Hf].
    rewrite Hf. by eexists.
Qed.

(** Whatever the order in which the providers arrive, the state ends with one
    provider for each name, the first to arrive, and one error for each provider
    that is turned away. *)
Theorem providers_by_name e m es :
  ie_arrival e ≡ₚ produced e -> loadRouteProviders e = (m, es) ->
  (forall n, m !! n = first_named n (ie_arrival e)) /\
  (forall n, is_Some (m !! n) <-> n ∈ map rp_String (produced e)) /\
  length (consume (ie_arrival e)).2 = (length (produced e) - size m)%nat.
Proof.
  intros Hp Hl. unfold loadRouteProviders in Hl. destruct (consume (ie_arrival e)) as [m' es'] eqn:Ec. simplify_eq.
  assert (Hm : forall n, m !! n = first_named n (ie_arrival e)).
  { intros n. pose proof (consume_from (ie_arrival e) ∅ [] n) as H0. unfold consume in Ec. rewrite Ec, lookup_empty in H0. done. }
  split; [done|]. split.
  - intros n. rewrite Hm, first_named_some. by rewrite Hp.
  - pose proof (consume_count (ie_arrival e) ∅ []) as H0. unfold consume in Ec. rewrite Ec, map_size_empty in H0. simpl in H0.
    simpl. rewrite <- (Permutation_length Hp). lia.
Qed.

(** ** Reloading *)

Lemma InitFromFile_frame id e g :
  let '(_, g') := InitFromFile id e g in
  g_active g' = g_active g /\ g_ending g' = g_ending g /\ g_servers g' = g_servers g /\ g_next g' = g_next g /\
  (forall i, i <> id -> g_states g' !! i = g_states g !! i).
Proof.
  unfold InitFromFile, Init. destruct (ie_read e); [done|]. destruct (ie_yaml e); simpl; [|done].
  destruct (loadRouteProviders e). destruct (initAutoCert e). destruct (negb _); simpl; repeat split; intros; by rewrite lookup_insert_ne.
Qed.

(** what an accepted and a refused reload do to the running program. *)
Theorem reload_outcome e g es g' :
  Reload e g = (es, g') -> g_active g <> Some (g_next g) -> g_servers g = g_active g ->
  if bool_decide (fst (InitFromFile (g_next g) e (snd (NewState g))) = []) then
    es = [] /\ g_active g' = Some (g_next g) /\
    (g_servers g' = g_active g' /\ (exists st, g_states g' !! g_next g = Some st /\ StartProviders st = []) \/
     g_servers g' = None /\ (exists st, g_states g' !! g_next g = Some st /\ StartProviders st <> []))
  else
    es <> [] /\ g_active g' = g_active g /\ g_servers g' = g_servers g.
Proof.
  intros Hr Hne Hsv. unfold Reload in Hr. destruct (NewState g) as [id g1] eqn:En. unfold NewState in En. simplify_eq. simpl.
  match type of Hr with context [InitFromFile ?a ?b ?c] => pose proof (InitFromFile_frame a b c) as Hf; set (g1 := c) in * end.
  assert (Hst : is_Some (g_states (snd (InitFromFile (g_next g) e g1)) !! g_next g)).
  { unfold InitFromFile, Init. destruct (ie_read e); [by simpl; rewrite lookup_insert_eq|]. destruct (ie_yaml e); [|by simpl; rewrite lookup_insert_eq].
    destruct (loadRouteProviders e), (initAutoCert e). destruct (negb (ie_notifiers e =? 0)%nat); simpl; by rewrite lookup_insert_eq. }
  destruct (InitFromFile (g_next g) e g1) as [es1 g2]. simpl in *. destruct Hf as (Ha & He & Hs & Hn & _). destruct Hst as [st Hst].
  destruct (decide (es1 = [])) as [->|Hes]; [|rewrite bool_decide_true in Hr by done; rewrite bool_decide_false by done]; simplify_eq.
  2: { split; [done|]. split; [done|]. simpl. rewrite bool_decide_false; [done|]. rewrite Hs. simpl. congruence. }
  - rewrite bool_decide_false in Hr by (intros Hx; by apply Hx). rewrite bool_decide_true by done.
    set (g3 := match g_active g with Some o => FinishAndWait o g2 | None => g2 end) in *.
    assert (Hs3 : g_states g3 = g_states g2) by (unfold g3; by destruct (g_active g)).
    assert (Hv3 : g_servers g3 = None).
    { unfold g3. rewrite <- Hsv. destruct (g_servers g) as [o|] eqn:Eo; simpl; [by rewrite Hs, bool_decide_true by done|by rewrite Hs]. }
    simpl in Hr. rewrite Hs3, Hst in Hr. case_bool_decide as Hsp; simplify_eq; simpl; (split; [done|]; split; [done|]).
    + right. split; [done|]. exists st. by rewrite Hs3.
    + left. split; [done|]. exists st. rewrite Hs3. split; [done|]. by destruct (decide (StartProviders st = [])).
Qed.

(** ** What the global variables hold afterwards *)

(** Dispatchers ending in any order. *)
Lemma ends_run l : forall g,
  let g' := config_run (map EvDispatcherEnd l) g in
  (g' = g \/ g_dispatcher g' = None) /\ g_agents g' = g_agents g /\ g_active g' = g_active g /\ g_servers g' = g_servers g.
Proof.
  induction l as [|i l IH]; intros g; simpl; [by repeat split; try left|]. case_bool_decide as Hi.
  - destruct (IH (dispatcher_end i g)) as ([->|Hn] & Ha & Hb & Hc); repeat split; try done; by right.
  - apply IH.
Qed.

Lemma ends_clear l g i : i ∈ g_ending g -> g_ending (config_run (map EvDispatcherEnd l) g) = [] ->
  g_dispatcher (config_run (map EvDispatcherEnd l) g) = None.
Proof.
  intros Hi He. destruct (ends_run l g) as ([E|?] & _); [|done]. rewrite E in He. rewrite He in Hi. by apply not_elem_of_nil in Hi.
Qed.

(** When a configuration with notifications is replaced, no notification is sent
    any more: its dispatcher clears the variable that already holds the
    dispatcher of the new configuration. *)
Theorem reload_ends_notifications e g o st l :
  g_active g = Some o -> o <> g_next g -> g_states g !! o = Some st -> st_dispatcher st = true ->
  fst (InitFromFile (g_next g) e (snd (NewState g))) = [] ->
  let g' := config_run (map EvDispatcherEnd l) (config_step g (EvReload e)) in
  g_ending g' = [] -> g_dispatcher g' = None.
Proof.
  intros Ha Hne Hst Hd Hok g' He. apply (ends_clear l _ o); [|done]. simpl. unfold Reload. rewrite Ha.
  destruct (NewState g) as [id g1] eqn:En. unfold NewState in En. simplify_eq. simpl in Hok.
  match type of Hok with context [InitFromFile ?a ?b ?c] => pose proof (InitFromFile_frame a b c) as Hf; destruct (InitFromFile a b c) as [es g2] end.
  simpl in Hok. subst es. destruct Hf as (_ & _ & _ & _ & Hs). rewrite bool_decide_false by (intros Hx; by apply Hx).
  assert (Hin : o ∈ g_ending (FinishAndWait o g2)).
  { simpl. rewrite (Hs o Hne). simpl. rewrite lookup_insert_ne by done. rewrite Hst, Hd. apply elem_of_app. right. by left. }
  destruct (g_states (SetState _ _) !! _); [case_bool_decide|]; exact Hin.
Qed.

(** a refused reload keeps the configuration and its servers, but not the global
    objects: the agents are those of the refused configuration, and when that one
    has notifications, none is sent any more. *)
Theorem refused_reload_leaks e g l :
  ie_read e = None -> ie_yaml e = true ->
  fst (InitFromFile (g_next g) e (snd (NewState g))) <> [] -> g_servers g <> Some (g_next g) ->
  let g' := config_run (map EvDispatcherEnd l) (config_step g (EvReload e)) in
  g_active g' = g_active g /\ g_servers g' = g_servers g /\
  g_agents g' = pool_agents (g_next g) e /\
  (ie_notifiers e <> 0%nat -> g_ending g' = [] -> g_dispatcher g' = None).
Proof.
  intros Hrd Hy Hbad Hsv g'. destruct (ends_run l (config_step g (EvReload e))) as (_ & Ea & Eb & Ec). fold g' in Ea, Eb, Ec.
  rewrite Ea, Eb, Ec. simpl. unfold Reload. destruct (NewState g) as [id g1] eqn:En. unfold NewState in En. simplify_eq.
  simpl in Hbad.
  match type of Hbad with context [InitFromFile ?a ?b ?c] => pose proof (InitFromFile_frame a b c) as Hf;
    assert (Hag : g_agents (snd (InitFromFile a b c)) = pool_agents a b) by
      (unfold InitFromFile, Init; rewrite Hrd, Hy; simpl; destruct (loadRouteProviders e), (initAutoCert e); by destruct (negb _));
    assert (Hdi : ie_notifiers e <> 0%nat -> exists st, g_states (snd (InitFromFile a b c)) !! a = Some st /\ st_dispatcher st = true) by
      (intros Hn; unfold InitFromFile, Init; rewrite Hrd, Hy; simpl; destruct (loadRouteProviders e), (initAutoCert e);
       apply Nat.eqb_neq in Hn; rewrite Hn; simpl; rewrite lookup_insert_eq; eauto);
    destruct (InitFromFile a b c) as [es g2] eqn:Ei end.
  simpl in *. destruct Hf as (Hact & _ & Hs & _ & _). rewrite bool_decide_true by done. simpl. repeat split.
  - done.
  - rewrite Hs. by rewrite bool_decide_false.
  - done.
  - intros Hn He. apply (ends_clear l _ (g_next g)); [|done]. simpl. unfold Reload. unfold NewState. rewrite Ei.
    rewrite bool_decide_true by done. simpl. destruct (Hdi Hn) as (st & -> & ->). apply elem_of_app. right. by left.
Qed.

(** ** Changes of the configuration file *)

Inductive config_note :=
  | NotifyWarn (action : bytes)
  | NotifyError (action : bytes)
  | QueueErrorLogged (e : queue_error).

(** The globals and what was logged and notified. *)
Record config_world := { cw_globals : globals; cw_notes : list config_note }.

Section Changes.

(** What the file holds and the parts answer when state [n] is built, and the
    dispatchers that end before it is; the text of an error. *)
Variable env : nat -> init_env.
Variable ended : nat -> list nat.
Variable error_text : list config_error -> bytes.

(** [Reload] as the handler calls it, with what it notifies. *)
Definition reload_noted (w : config_world) : config_world * list config_error :=
  let g := config_run (map EvDispatcherEnd (ended (g_next (cw_globals w)))) (cw_globals w) in
  let '(es, g') := Reload (env (g_next g)) g in
  let note :=
    if bool_decide (es <> []) then [NotifyError (B "reload")]
    else match g_states g' !! g_next g with
         | Some st => if bool_decide (StartProviders st <> []) then [NotifyError (B "start providers")] else []
         | None => []
         end in
  ({| cw_globals := g'; cw_notes := cw_notes w ++ note |}, es).

(** [OnConfigChange] reads the last event of the batch: an index panic when the
    batch is empty; the error of a reload is a panic that the queue recovers. *)
Definition OnConfigChange (ev : list Event) (w : config_world) : config_world * option panic_value :=
  let warn a := ({| cw_globals := cw_globals w; cw_notes := cw_notes w ++ [NotifyWarn a] |}, None) in
  match last ev with
  | None => (w, Some (PanicError (B "runtime error: index out of range [-1]")))
  | Some e =>
      if ev_Action e =? ActionFileRenamed then warn (B "rename")
      else if ev_Action e =? ActionFileDeleted then warn (B "delete")
      else
        let '(w, es) := reload_noted w in
        if bool_decide (es <> []) then (w, Some (PanicError (error_text es))) else (w, None)
  end.

Definition log_error (e : queue_error) (w : config_world) : config_world :=
  {| cw_globals := cw_globals w; cw_notes := cw_notes w ++ [QueueErrorLogged e] |}.

#[local] Instance config_handler : QueueHandler config_world := {|
  origOnFlush := OnConfigChange;
  onError := log_error
|}.

(** *** What the program should look like *)

(** The configuration that is active, the one whose servers listen, whose
    agents are in the pool, and what was noted. *)
Record outlook := {
  ol_active : nat;
  ol_servers : option nat;
  ol_agents : gmap bytes nat;
  ol_next : nat;
  ol_notes : list config_note
}.

(** A file is read when it can be and is a configuration; it is accepted when
    every part of it could be initialised; its servers are started when all its
    providers are. *)
Definition init_errors (e : init_env) : list config_error := fst (InitFromFile 0 e g_init).
Definition is_read (e : init_env) : bool := bool_decide (ie_read e = None) && ie_yaml e.
Definition accepted (e : init_env) : Prop :=
  ie_read e = None /\ ie_yaml e = true
  /\ ie_maxmind e <> Some false /\ (forall url ok, (url, ok) ∈ ie_proxmox e -> ok = true)
  /\ (forall addr p, (addr, p) ∈ ie_agents e -> p <> None) /\ (forall file p, (file, p) ∈ ie_files e -> p <> None)
  /\ NoDup (map rp_String (ie_arrival e)) /\ (forall p, p ∈ ie_arrival e -> rp_loads p = true)
  /\ ie_autocert e = (true, true) /\ ie_acl e <> Some false /\ ie_middlewares e = true /\ ie_accesslog e = true.
Definition all_start (e : init_env) : bool := forallb rp_starts (ie_arrival e).

Definition expect_reload (o : outlook) : outlook :=
  let n := ol_next o in
  let e := env n in
  let agents := if is_read e then pool_agents n e else ol_agents o in
  if bool_decide (init_errors e = []) then
      {| ol_active := n; ol_servers := if all_start e then Some n else None; ol_agents := agents; ol_next := S n;
         ol_notes := ol_notes o ++ if all_start e then [] else [NotifyError (B "start providers")] |}
  else
      {| ol_active := ol_active o; ol_servers := ol_servers o; ol_agents := agents; ol_next := S n;
         ol_notes := ol_notes o ++ [NotifyError (B "reload"); QueueErrorLogged (FlushError (error_text (init_errors e)))] |}.

Definition note (n : config_note) (o : outlook) : outlook :=
  {| ol_active := ol_active o; ol_servers := ol_servers o; ol_agents := ol_agents o; ol_next := ol_next o;
     ol_notes := ol_notes o ++ [n] |}.

Definition expect (o : outlook) (c : call) : outlook :=
  match c with
  | Reported e => note (QueueErrorLogged e) o
  | Flushed b =>
      match last b with
      | Some e =>
          if ev_Action e =? ActionFileRenamed then note (NotifyWarn (B "rename")) o
          else if ev_Action e =? ActionFileDeleted then note (NotifyWarn (B "delete")) o
          else expect_reload o
      | None => o
      end
  end.

(** The program as started with [e0], which is active even if it was refused. *)
Definition started (e0 : init_env) : outlook :=
  {| ol_active := 0; ol_servers := Some 0%nat; ol_agents := if is_read e0 then pool_agents 0 e0 else ∅; ol_next := 1;
     ol_notes := [] |}.

Record looks (w : config_world) (o : outlook) : Prop := {
  lo_active : g_active (cw_globals w) = Some (ol_active o);
  lo_servers : g_servers (cw_globals w) = ol_servers o;
  lo_agents : g_agents (cw_globals w) = ol_agents o;
  lo_next : g_next (cw_globals w) = ol_next o;
  lo_notes : cw_notes w = ol_notes o;
  lo_old : (ol_active o < ol_next o)%nat;
  lo_listens : ol_servers o = None \/ ol_servers o = Some (ol_active o)
}.

(** *** The handler makes it so *)

(** What [InitFromFile] reports does not depend on the globals, and what it does
    to them. *)
Lemma InitFromFile_effect id e g :
  let '(es, g') := InitFromFile id e g in
  es = init_errors e
  /\ g_agents g' = (if is_read e then pool_agents id e else g_agents g)
  /\ (is_read e = true -> exists st, g_states g' !! id = Some st /\ st_providers st = fst (loadRouteProviders e)).
Proof.
  unfold init_errors, is_read, InitFromFile, Init. destruct (ie_read e); [done|]. destruct (ie_yaml e); simpl; [|done].
  destruct (loadRouteProviders e) as [m es]. destruct (initAutoCert e). split; [done|].
  destruct (negb _); simpl; (split; [done|]); intros _; rewrite lookup_insert_eq; eauto.
Qed.

Lemma flat_map_nil {A B} (f : A -> list B) l : flat_map f l = [] <-> forall x, x ∈ l -> f x = [].
Proof.
  induction l as [|x l IH]; simpl; [split; [intros _ y Hy; by apply not_elem_of_nil in Hy|done]|]. rewrite app_nil, IH. split.
  - intros [H1 H2] y [->|Hy]%elem_of_cons; auto.
  - intros H. split; [apply H; by left|]. intros y Hy. apply H. by right.
Qed.

Lemma consume_errors ch : forall m es, (length es <= length (fold_left LoadOrStore ch (m, es)).2)%nat.
Proof.
  induction ch as [|p ch IH]; intros m es; simpl; [lia|]. unfold LoadOrStore at 2. simpl.
  destruct (m !! rp_String p); [|apply IH]. etransitivity; [|apply IH]. rewrite length_app. lia.
Qed.

(** No provider is turned away iff all have different names. *)
Lemma consume_distinct ch : forall m es,
  (fold_left LoadOrStore ch (m, es)).2 = es <-> NoDup (map rp_String ch) /\ forall p, p ∈ ch -> m !! rp_String p = None.
Proof.
  induction ch as [|p ch IH]; intros m es; simpl.
  { split; [|done]. intros _. split; [constructor|]. intros p Hp. by apply not_elem_of_nil in Hp. }
  unfold LoadOrStore at 2. simpl. rewrite NoDup_cons. destruct (m !! rp_String p) as [q|] eqn:E.
  - split.
    + intros H. match type of H with (fold_left _ _ (_, ?x)).2 = _ => pose proof (consume_errors ch m x) as Hl end.
      rewrite H, length_app in Hl. simpl in Hl. lia.
    + intros [_ H]. specialize (H p). rewrite E in H. discriminate H. by left.
  - rewrite IH. split.
    + intros [Hn Hm]. split; [split; [|done]|].
      * intros (q & Hq & Hin)%list_elem_of_fmap. specialize (Hm q Hin). rewrite Hq, lookup_insert_eq in Hm. done.
      * intros q [->|Hq]%elem_of_cons; [done|]. specialize (Hm q Hq). by apply lookup_insert_None in Hm as [Hm _].
    + intros [[Hp Hn] Hm]. split; [done|]. intros q Hq. apply lookup_insert_None. split; [apply Hm; by right|].
      intros Hx. apply Hp. rewrite Hx. apply list_elem_of_fmap. by exists q.
Qed.

(** Providers of different names are those of the state. *)
Lemma consume_values ch p :
  NoDup (map rp_String ch) -> (exists n, (n, p) ∈ map_to_list (consume ch).1) <-> p ∈ ch.
Proof.
  intros Hn. setoid_rewrite elem_of_map_to_list. unfold consume. setoid_rewrite consume_from. setoid_rewrite lookup_empty. split.
  - intros [n Hf]. unfold first_named in Hf. apply fmap_Some in Hf as ([i q] & Hf & ->).
    apply list_find_Some in Hf as (Hl & _). by eapply list_elem_of_lookup_2.
  - intros Hp. exists (rp_String p). unfold first_named.
    destruct (list_find_elem_of (fun q => rp_String q = rp_String p) ch p Hp eq_refl) as [[i q] Hf]. rewrite Hf. simpl.
    apply list_find_Some in Hf as (Hl & Hq & _). apply list_elem_of_lookup in Hp as [j Hj].
    assert (i = j) as ->; [|congruence]. eapply (NoDup_lookup (map rp_String ch)); [done| |].
    + by rewrite list_lookup_fmap, Hl.
    + by rewrite list_lookup_fmap, Hj, Hq.
Qed.

Lemma err_unless_nil b x : err_unless b x = [] <-> b = true.
Proof. by destruct b. Qed.

Lemma providers_no_errors e :
  (loadRouteProviders e).2 = [] <->
  (forall addr p, (addr, p) ∈ ie_agents e -> p <> None) /\ (forall file p, (file, p) ∈ ie_files e -> p <> None)
  /\ NoDup (map rp_String (ie_arrival e)) /\ (forall p, p ∈ ie_arrival e -> rp_loads p = true).
Proof.
  unfold loadRouteProviders. pose proof (consume_distinct (ie_arrival e) ∅ []) as Hd. fold (consume (ie_arrival e)) in Hd.
  pose proof (consume_values (ie_arrival e)) as Hv. destruct (consume (ie_arrival e)) as [m es]. simpl in *.
  rewrite !app_nil, !flat_map_nil, Hd.
  assert (Hs : forall {X} (l : list (bytes * option route_provider)) (f : bytes -> X),
    (forall x, x ∈ l -> (let '(a, p) := x in match p with Some _ => [] | None => [f a] end) = []) <-> forall a p, (a, p) ∈ l -> p <> None).
  { intros X l f. split; [intros H a p Hin ->; by specialize (H _ Hin)|]. intros H [a [p|]] Hin; [done|]. by destruct (H a None Hin). }
  rewrite !Hs. split.
  - intros (Ha & Hf & [Hn _] & Hl). split_and!; try done. intros p Hp. apply Hv in Hp as [n Hp]; [|done].
    specialize (Hl _ Hp). by apply err_unless_nil in Hl.
  - intros (Ha & Hf & Hn & Hl). split_and!; try done. intros [n p] Hp. apply err_unless_nil, Hl, Hv; [done|]. by exists n.
Qed.

(** What is refused. *)
Lemma accepted_iff e : init_errors e = [] <-> accepted e.
Proof.
  unfold init_errors, accepted, InitFromFile. destruct (ie_read e); [by split; [|intros [? _]]|]. unfold Init.
  destruct (ie_yaml e); simpl; [|by split; [|intros (_ & ? & _)]].
  pose proof (providers_no_errors e) as Hp. destruct (loadRouteProviders e) as [m e3]. simpl in Hp.
  assert (Hc : (initAutoCert e).2 = [] <-> ie_autocert e = (true, true)) by (unfold initAutoCert; by destruct (ie_autocert e) as [[] []]).
  destruct (initAutoCert e) as [cert e4]. simpl in Hc.
  assert (Hm : initMaxMind e = [] <-> ie_maxmind e <> Some false) by (unfold initMaxMind; by destruct (ie_maxmind e) as [[]|]).
  assert (Ha : initAccessLogger e = [] <-> ie_acl e <> Some false) by (unfold initAccessLogger; by destruct (ie_acl e) as [[]|]).
  assert (Hx : initProxmox e = [] <-> forall url ok, (url, ok) ∈ ie_proxmox e -> ok = true).
  { unfold initProxmox. rewrite flat_map_nil. split.
    - intros H url ok Hin. specialize (H _ Hin). by apply err_unless_nil in H.
    - intros H [url ok] Hin. apply err_unless_nil. by eapply H. }
  unfold initEntrypoint. simpl. rewrite !app_nil, !err_unless_nil, Hm, Hx, Hp, Hc, Ha. tauto.
Qed.

Lemma accepted_is_read e : init_errors e = [] -> is_read e = true.
Proof. unfold init_errors, is_read, InitFromFile, Init. destruct (ie_read e); [done|]. by destruct (ie_yaml e). Qed.

Lemma starts_all st e :
  init_errors e = [] -> st_providers st = fst (loadRouteProviders e) -> bool_decide (StartProviders st <> []) = negb (all_start e).
Proof.
  intros (_ & _ & _ & _ & _ & _ & Hn & _)%accepted_iff Hp.
  assert (Hm : st_providers st = (consume (ie_arrival e)).1) by (rewrite Hp; unfold loadRouteProviders; by destruct (consume _)).
  assert (Hs : StartProviders st = [] <-> all_start e = true).
  { unfold StartProviders, all_start. rewrite Hm, flat_map_nil, forallb_forall. split.
    - intros H p Hin. apply list_elem_of_In, (consume_values _ _ Hn) in Hin as [n Hin]. specialize (H _ Hin). by apply err_unless_nil in H.
    - intros H [n p] Hin. apply err_unless_nil, H, list_elem_of_In, (consume_values _ _ Hn). by exists n. }
  destruct (all_start e); simpl.
  - apply bool_decide_eq_false_2. intros H. by apply H, Hs.
  - apply bool_decide_eq_true_2. by intros H%Hs.
Qed.

Lemma ends_next l : forall g, g_next (config_run (map EvDispatcherEnd l) g) = g_next g.
Proof. induction l as [|i l IH]; intros g; [done|]. simpl. case_bool_decide; by rewrite IH. Qed.

Lemma reload_noted_looks w o :
  looks w o ->
  let '(w', es) := reload_noted w in
  es = init_errors (env (ol_next o))
  /\ looks (if bool_decide (es <> []) then log_error (FlushError (error_text es)) w' else w') (expect_reload o).
Proof.
  intros [Ha Hs Hag Hn Hno Hold Hl]. unfold reload_noted.
  pose proof (ends_run (ended (g_next (cw_globals w))) (cw_globals w)) as (_ & Ea & Eb & Ec).
  pose proof (ends_next (ended (g_next (cw_globals w))) (cw_globals w)) as En.
  set (g := config_run _ _) in *. rewrite En, Hn. unfold Reload. cbn [NewState fst snd]. unfold NewState. rewrite En, Hn.
  set (n := ol_next o) in *. set (g1 := {| g_next := S n |}).
  pose proof (InitFromFile_effect n (env n) g1) as Hi. pose proof (InitFromFile_frame n (env n) g1) as Hf.
  destruct (InitFromFile n (env n) g1) as [es g2]. destruct Hi as (-> & Hga & Hst). destruct Hf as (Hfa & _ & Hfs & Hfn & _).
  subst g1. cbn [g_active g_servers g_next g_agents] in *.
  unfold expect_reload. fold n. destruct (decide (init_errors (env n) = [])) as [Ee|Ee].
  - rewrite (bool_decide_eq_true_2 (init_errors (env n) = [])) by done. rewrite Ee in *. rewrite !(bool_decide_eq_false_2 (_ <> _)) by (intros Hx; by apply Hx).
    destruct (Hst (accepted_is_read _ Ee)) as (st & Est & Hp). rewrite Eb, Ha.
    assert (Hnil : bool_decide (([] : list config_error) <> []) = false) by (apply bool_decide_eq_false_2; intros Hx; by apply Hx).
    cbn [SetState FinishAndWait g_states]. rewrite Est, (starts_all st (env n) Ee Hp).
    destruct (all_start (env n)) eqn:Es; cbn [negb]; cbv beta iota; rewrite Hnil;
      cbn [StartProxyServers put_servers FinishAndWait SetState g_states]; rewrite Est, (starts_all st (env n) Ee Hp), Es;
      (split; [done|]); cbn [negb].
    all: split; cbn; [done| |by rewrite Hga; case_match; congruence|congruence|by rewrite Hno|lia|auto].
    + done.
    + rewrite Hfs, Ec, Hs. destruct Hl as [->| ->]; [by rewrite bool_decide_eq_false_2|by rewrite bool_decide_eq_true_2].
  - rewrite (bool_decide_eq_false_2 (init_errors (env n) = [])) by done.
    rewrite !(bool_decide_eq_true_2 (_ <> _)) by done. split; [done|]. rewrite ?bool_decide_eq_true_2 by done.
    split; cbn; [by rewrite Hfa, Eb| |by rewrite Hga; case_match; congruence|congruence|by rewrite Hno, <- app_assoc|lia|done].
    rewrite Hfs, Ec, Hs, bool_decide_eq_false_2; [done|]. destruct Hl as [->| ->]; [done|]. intros [= E]. lia.
Qed.

Lemma deliver_looks w o c :
  (forall b, c = Flushed b -> b <> []) -> looks w o -> looks (deliver w c) (expect o c).
Proof.
  intros Hc Hw. assert (Hnote : forall x, looks {| cw_globals := cw_globals w; cw_notes := cw_notes w ++ [x] |} (note x o)).
  { intros x. destruct Hw as [Ha Hs Hag Hn Hno Hold Hl]. split; simpl; try done. by rewrite Hno. }
  destruct c as [b|e]; [|apply Hnote]. simpl. unfold OnConfigChange.
  destruct (last b) as [e|] eqn:E; [|by apply last_None in E; destruct (Hc b)].
  destruct (ev_Action e =? ActionFileRenamed); [apply Hnote|].
  destruct (ev_Action e =? ActionFileDeleted); [apply Hnote|].
  pose proof (reload_noted_looks w o Hw) as H. destruct (reload_noted w) as [w' es]. destruct H as [_ H].
  by case_bool_decide.
Qed.

Lemma calls_look cs : forall w o,
  Forall (fun b => b <> []) (batches cs) -> looks w o -> looks (fold_left deliver cs w) (fold_left expect cs o).
Proof.
  induction cs as [|c cs IH]; intros w o Hb Hw; [done|]. simpl. apply IH.
  - destruct c; simpl in Hb; [by apply Forall_cons in Hb as [_ Hb]|done].
  - apply deliver_looks; [|done]. intros b ->. simpl in Hb. by apply Forall_cons in Hb as [Hb _].
Qed.

Lemma start_looks e0 : looks {| cw_globals := start e0; cw_notes := [] |} (started e0).
Proof.
  unfold start, Load, NewState. cbn [g_active g_init]. set (g1 := {| g_next := S _ |}).
  pose proof (InitFromFile_effect 0 e0 g1) as Hi. pose proof (InitFromFile_frame 0 e0 g1) as Hf. cbn [g_next g_init].
  destruct (InitFromFile 0 e0 g1) as [es g2]. destruct Hi as (_ & Hga & _). destruct Hf as (_ & _ & Hfs & Hfn & _).
  cbn. split; cbn; [done|done|done|by rewrite Hfn|done|lia|by right].
Qed.

(** C32: the program after its start and after any events of the configuration
    file and errors of the watcher, in production mode, as long as the watcher
    has not ended: at every tick with new events the last of them decides: a
    rename or a deletion is only warned of, anything else builds a configuration
    from the file. One whose parts all initialise ([accepted]: it can be read and
    parsed, its GeoIP, Proxmox, agents, route files, certificates, ACL, middlewares
    and access log are set up, no two providers have one name and all their routes
    load) becomes the active one, and its servers listen if all its providers start and none does otherwise; one with
    an error is refused, noted and logged, and leaves the active configuration
    and its servers in place. The pool of agents is that of the last file that
    could be read and parsed, accepted or not. The configuration of the start is
    active even if it had errors. (What becomes of the notification dispatcher is
    the subject of [refused_reload_leaks] and [reload_ends_notifications].) *)
Theorem config_reload_keeps_last_good e0 (l : list queue_input) :
  forallb (fun i => negb (ends i)) l = true ->
  let q := run_queue false (NewEventQueue {| cw_globals := start e0; cw_notes := [] |}) l in
  q_status q = Running /\ looks (q_world q) (fold_left expect (expected_calls [] l) (started e0))
  /\ forall n, init_errors (env n) = [] <-> accepted (env n).
Proof.
  intros Hl q.
  destruct (run_calls false l (NewEventQueue {| cw_globals := start e0; cw_notes := [] |}) eq_refl Hl eq_refl) as (Hs & Hw & _).
  split; [exact Hs|]. split; [|intros n; apply accepted_iff]. unfold q. rewrite Hw. apply calls_look; [apply expected_nonempty|apply start_looks].
Qed.

End Changes.

(** ** Statistics *)

Definition counted (b : nat) (l : list (option Z)) : Z := Z.of_nat (length (filter (fun s => bucket s = b) l)).

Lemma uint16_small n : 0 <= n < 65536 -> uint16 n = n.
Proof. intros. by apply Z.mod_small. Qed.

Lemma counted_cons b s l : counted b (s :: l) = (if decide (bucket s = b) then 1 else 0) + counted b l.
Proof. unfold counted. rewrite filter_cons. destruct (decide (bucket s = b)); simpl; lia. Qed.

Lemma counted_bound b l : 0 <= counted b l <= Z.of_nat (length l).
Proof. unfold counted. pose proof (length_filter (fun s => bucket s = b) l). lia. Qed.

Lemma bucket_range s : (bucket s <= 4)%nat.
Proof. unfold bucket. repeat case_match; lia. Qed.

(** The counter with a given number. *)
Definition num (b : nat) (st : RouteStats) : Z :=
  match b with
  | 0%nat => rs_NumHealthy st
  | 1%nat => rs_NumUnhealthy st
  | 2%nat => rs_NumNapping st
  | 3%nat => rs_NumError st
  | _ => rs_NumUnknown st
  end.

Lemma num_Add b st s : (b <= 4)%nat -> num b (stats_Add st s) = count_if (bucket s =? b)%nat (num b st).
Proof. do 5 (destruct b as [|b]; [done|]). lia. Qed.

Lemma num_fold b l : (b <= 4)%nat -> forall st,
  0 <= num b st -> num b st + Z.of_nat (length l) < 65536 -> num b (fold_left stats_Add l st) = num b st + counted b l.
Proof.
  intros Hb. induction l as [|s l IH]; intros st H0 Hl; simpl; [unfold counted; simpl; lia|]. simpl in Hl.
  assert (E : num b (stats_Add st s) = num b st + (if decide (bucket s = b) then 1 else 0)).
  { rewrite num_Add by done. unfold count_if. destruct (Nat.eqb_spec (bucket s) b), (decide (bucket s = b)); try done; [|lia].
    apply uint16_small. lia. }
  rewrite IH, E, counted_cons; destruct (decide (bucket s = b)); lia.
Qed.

Lemma total_fold l : forall st,
  0 <= rs_Total st -> rs_Total st + Z.of_nat (length l) < 65536 -> rs_Total (fold_left stats_Add l st) = rs_Total st + Z.of_nat (length l).
Proof.
  induction l as [|s l IH]; intros st H0 Hl; simpl; [lia|]. simpl in Hl. rewrite IH; simpl; rewrite uint16_small; lia.
Qed.

Lemma counted_all l : Z.of_nat (length l) = counted 0 l + counted 1 l + counted 2 l + counted 3 l + counted 4 l.
Proof.
  induction l as [|s l IH]; [done|]. rewrite !counted_cons. pose proof (bucket_range s). simpl length.
  repeat match goal with |- context [decide ?P] => destruct (decide P) end; lia.
Qed.

(** The counters of a group of fewer than 65536 routes are the numbers of routes
    in each status, a starting one counting as unknown, and the total is theirs. *)
Theorem stats_exact (l : list (option Z)) :
  Z.of_nat (length l) < 65536 ->
  let st := fold_left stats_Add l zero_stats in
  rs_NumHealthy st = counted 0 l /\ rs_NumUnhealthy st = counted 1 l /\ rs_NumNapping st = counted 2 l /\
  rs_NumError st = counted 3 l /\ rs_NumUnknown st = counted 4 l /\
  rs_Total st = Z.of_nat (length l) /\
  rs_Total st = rs_NumHealthy st + rs_NumUnhealthy st + rs_NumNapping st + rs_NumError st + rs_NumUnknown st.
Proof.
  intros Hl st.
  assert (Hn : forall b, (b <= 4)%nat -> num b st = counted b l).
  { intros b Hb. assert (num b zero_stats = 0) by (do 5 (destruct b as [|b]; [done|]); lia). unfold st. rewrite num_fold; lia. }
  assert (Ht : rs_Total st = Z.of_nat (length l)) by (unfold st; rewrite total_fold; simpl; lia).
  pose proof (Hn 0%nat ltac:(lia)) as N0. pose proof (Hn 1%nat ltac:(lia)) as N1. pose proof (Hn 2%nat ltac:(lia)) as N2.
  pose proof (Hn 3%nat ltac:(lia)) as N3. pose proof (Hn 4%nat ltac:(lia)) as N4. simpl in *.
  pose proof (counted_all l). repeat split; lia.
Qed.

(** ** Examples *)

Module Examples.

Definition docker_local (starts : bool) : route_provider :=
  {| rp_String := B "docker@local"; rp_ShortName := B "local"; rp_Type := ProviderTypeDocker; rp_loads := true;
     rp_starts := starts; rp_routes := [B "app"] |}.

Definition file_local : route_provider :=
  {| rp_String := B "local.yml"; rp_ShortName := B "local"; rp_Type := ProviderTypeFile; rp_loads := true;
     rp_starts := true; rp_routes := [B "api"] |}.

Definition agent_provider : route_provider :=
  {| rp_String := B "node1"; rp_ShortName := B "node1"; rp_Type := ProviderTypeAgent; rp_loads := true;
     rp_starts := true; rp_routes := [] |}.

(** A configuration with a Docker host, a route file, one notifier and the given
    agents. *)
Definition demo_env (agents : list (bytes * option route_provider)) (middlewares starts : bool) : init_env :=
  {| ie_read := None; ie_yaml := true; ie_maxmind := None; ie_proxmox := []; ie_agents := agents;
     ie_files := [(B "local.yml", Some file_local)]; ie_docker := [docker_local starts];
     ie_arrival := [docker_local starts; file_local] ++ omap snd agents; ie_autocert := (true, true); ie_notifiers := 1;
     ie_acl := None; ie_middlewares := middlewares; ie_accesslog := true |}.

Definition running : globals := start (demo_env [(B "10.0.0.1:8890", Some agent_provider)] true true).

Example running_serves :
  g_active running = Some 0%nat /\ g_servers running = Some 0%nat /\ g_dispatcher running = Some 0%nat /\
  g_agents running !! B "10.0.0.1:8890" = Some 0%nat.
Proof. by vm_compute. Qed.

Lemma providers_by_name_witness :
  (loadRouteProviders (demo_env [] true true)).1 !! B "local.yml" = Some file_local.
Proof.
  destruct (providers_by_name (demo_env [] true true) (loadRouteProviders (demo_env [] true true)).1 (loadRouteProviders (demo_env [] true true)).2)
    as (Hm & _); [|apply surjective_pairing|by rewrite Hm].
  unfold produced. simpl. apply Permutation_swap.
Defined.

(** One provider that does not start, and nothing listens any more. *)
Lemma reload_outcome_witness :
  g_active (config_step running (EvReload (demo_env [] true false))) = Some 1%nat /\
  g_servers (config_step running (EvReload (demo_env [] true false))) = None.
Proof.
  destruct (Reload (demo_env [] true false) running) as [es g'] eqn:E.
  pose proof (reload_outcome (demo_env [] true false) running es g' E) as Ho.
  rewrite bool_decide_true in Ho by (by vm_compute). destruct Ho as (_ & Ha & [[_ (st & Hst & Hs)]|[Hsv _]]); [by vm_compute|by vm_compute| |].
  - exfalso. revert E Hst Hs. vm_compute. intros. by simplify_eq.
  - simpl. rewrite E. split; [exact Ha|exact Hsv].
Defined.

Lemma reload_ends_notifications_witness :
  g_dispatcher (config_run [EvDispatcherEnd 0] (config_step running (EvReload (demo_env [] true true)))) = None.
Proof.
  apply (reload_ends_notifications (demo_env [] true true) running 0
    {| st_providers := (loadRouteProviders (demo_env [(B "10.0.0.1:8890", Some agent_provider)] true true)).1;
       st_autocert := true; st_dispatcher := true |} [0%nat]); by vm_compute.
Defined.

Lemma refused_reload_leaks_witness :
  g_agents (config_run [EvDispatcherEnd 1] (config_step running (EvReload (demo_env [] false true)))) = ∅.
Proof. apply (refused_reload_leaks (demo_env [] false true) running [1%nat]); by vm_compute. Defined.

(** The second configuration is accepted, the third has no middlewares, the
    fourth has a provider that does not start; the agent is gone after the
    second. *)
Definition file_env (n : nat) : init_env :=
  match n with
  | 1%nat => demo_env [] true true
  | 2%nat => demo_env [(B "10.0.0.1:8890", Some agent_provider)] false true
  | _ => demo_env [] true false
  end.

Definition written : queue_input := EventCh (Some (file_event "config.yml" ActionFileWritten)).

Definition edits (n : nat) : list queue_input := concat (replicate n [written; TickerC]).

Definition outcome (w : config_world) := (g_active (cw_globals w), g_servers (cw_globals w), g_agents (cw_globals w), cw_notes w).

Lemma config_reload_keeps_last_good_witness :
  let handler := config_handler file_env (fun n => [pred n]) (fun _ => B "refused") in
  let q n := run_queue false (NewEventQueue {| cw_globals := running; cw_notes := [] |}) (edits n) in
  outcome (q_world (q 2%nat))
  = (Some 1%nat, Some 1%nat, {[ B "10.0.0.1:8890" := 2%nat ]},
     [NotifyError (B "reload"); QueueErrorLogged (FlushError (B "refused"))])
  /\ g_servers (cw_globals (q_world (q 3%nat))) = None.
Proof.
  intros handler q. split.
  - destruct (config_reload_keeps_last_good file_env (fun n => [pred n]) (fun _ => B "refused")
      (demo_env [(B "10.0.0.1:8890", Some agent_provider)] true true) (edits 2) eq_refl) as (_ & [Ha Hs Hg _ Hn _ _] & _).
    unfold outcome, q, handler, running. rewrite Ha, Hs, Hg, Hn. vm_compute. reflexivity.
  - destruct (config_reload_keeps_last_good file_env (fun n => [pred n]) (fun _ => B "refused")
      (demo_env [(B "10.0.0.1:8890", Some agent_provider)] true true) (edits 3) eq_refl) as (_ & [_ Hs _ _ _ _ _] & _).
    unfold q, handler, running. rewrite Hs. vm_compute. reflexivity.
Defined.

Lemma stats_exact_witness :
  rs_NumUnknown (fold_left stats_Add [Some StatusHealthy; Some StatusStarting; None] zero_stats) = 2.
Proof.
  destruct (stats_exact [Some StatusHealthy; Some StatusStarting; None]) as (_ & _ & _ & _ & Hu & _); [by vm_compute|].
  exact Hu.
Defined.

(** Providers with the same short name are reported as one. *)
Example short_names_collide : size (DumpRouteProviders [docker_local true; file_local]) = 1%nat.
Proof. by vm_compute. Qed.

End Examples.
