(* ===== verification/MemLog.v ===== *)
(** * The log kept in memory

    Models internal/logging/memlogger/mem_logger.go: the buffer with the recent
    log, its truncation, and what the connected viewers are sent.

    [Write] runs in four locked steps (the check, the truncation, the append, the
    notification), and several writers interleave; a viewer reads the buffer
    later than it is notified.  [bytes.Buffer] is nothing but appended to and
    truncated, so that it is a list with the bytes its array still holds behind
    its end. *)

From S2P Require Import Prelude GoStrings.

Definition maxMemLogSize : nat := 16 * 1024.
Definition truncateSize : nat := maxMemLogSize / 2.

(** [bytes.Buffer], never read from: its content, and the bytes of the array
    beyond it, which a slice may still reach. *)
Record Buffer := { buf : bytes; spare : bytes }.

Definition buf_Len (b : Buffer) : nat := length (buf b).

(** [Truncate n] keeps the first [n] bytes. *)
Definition buf_Truncate (n : nat) (b : Buffer) : Buffer :=
  {| buf := take n (buf b); spare := drop n (buf b) ++ spare b |}.

(** [Write]: over the spare bytes, or into an array that is grown by at least
    what is needed ([grown] zero bytes more). *)
Definition buf_Write (p : bytes) (grown : nat) (b : Buffer) : Buffer :=
  if (length p <=? length (spare b))%nat then {| buf := buf b ++ p; spare := drop (length p) (spare b) |}
  else {| buf := buf b ++ p; spare := replicate grown "000"%char |}.

(** [b.Bytes()[i:j]]: a slice may reach up to the capacity; beyond it panics. *)
Definition buf_slice (i j : nat) (b : Buffer) : option bytes :=
  if (j <=? length (buf b ++ spare b))%nat then Some (take (j - i) (drop i (buf b ++ spare b))) else None.

Record logEntryRange := { le_Start : nat; le_End : nat }.

(** Writers between their steps: [Checked] the size, with the result. *)
Inductive writer :=
  | NotStarted (p : bytes)
  | Checked (p : bytes) (needTruncate : bool)
  | Truncated (p : bytes)
  | Written (p : bytes) (pos : nat)
  | WriterDone.

Record memLogger := {
  ml_buffer : Buffer;
  ml_writers : list writer;
  ml_conns : gmap nat (list logEntryRange);       (* viewers: ranges sent to them and not read yet *)
  ml_listeners : gmap nat (list bytes)            (* listeners of events: what they were sent *)
}.

Definition memLoggerInstance : memLogger :=
  {| ml_buffer := {| buf := replicate maxMemLogSize "000"%char; spare := [] |};
     ml_writers := []; ml_conns := ∅; ml_listeners := ∅ |}.

Definition with_buffer (b : Buffer) (m : memLogger) : memLogger :=
  {| ml_buffer := b; ml_writers := ml_writers m; ml_conns := ml_conns m; ml_listeners := ml_listeners m |}.
Definition with_writer (i : nat) (w : writer) (m : memLogger) : memLogger :=
  {| ml_buffer := ml_buffer m; ml_writers := <[i := w]> (ml_writers m); ml_conns := ml_conns m; ml_listeners := ml_listeners m |}.

(** ** Steps of [Write] *)

Definition need_truncate (n : nat) (b : Buffer) : bool := (maxMemLogSize <? buf_Len b + n)%nat.

Definition truncateIfNeeded (n : nat) (b : Buffer) : Buffer :=
  if need_truncate n b then buf_Truncate truncateSize b else b.

Definition writeBuf (p : bytes) (grown : nat) (b : Buffer) : nat * Buffer := (buf_Len b, buf_Write p grown b).

(** Each viewer and listener takes the message, or the timeout ends the round;
    [took] tells who was in time.  The listeners get a slice of the buffer; what is
    recorded is what it holds when it is sent. *)
Definition notifyWS (pos n : nat) (took_conn took_listener : nat -> bool) (m : memLogger) : option memLogger :=
  let conns := map_imap (fun i l => Some (if took_conn i then l ++ [{| le_Start := pos; le_End := pos + n |}] else l)) (ml_conns m) in
  if bool_decide (ml_listeners m = ∅) then
    Some {| ml_buffer := ml_buffer m; ml_writers := ml_writers m; ml_conns := conns; ml_listeners := ml_listeners m |}
  else
    msg ← buf_slice pos (pos + n) (ml_buffer m);
    Some {| ml_buffer := ml_buffer m; ml_writers := ml_writers m; ml_conns := conns;
            ml_listeners := map_imap (fun i l => Some (if took_listener i then l ++ [msg] else l)) (ml_listeners m) |}.

(** One step of writer [i]; [None] is a panic. *)
Definition write_step (i : nat) (grown : nat) (tc tl : nat -> bool) (m : memLogger) : option memLogger :=
  match ml_writers m !! i with
  | Some (NotStarted p) => Some (with_writer i (Checked p (need_truncate (length p) (ml_buffer m))) m)
  | Some (Checked p b) =>
      Some (with_writer i (Truncated p) (if b then with_buffer (truncateIfNeeded (length p) (ml_buffer m)) m else m))
  | Some (Truncated p) =>
      let '(pos, b) := writeBuf p grown (ml_buffer m) in Some (with_writer i (Written p pos) (with_buffer b m))
  | Some (Written p pos) => notifyWS pos (length p) tc tl (with_writer i WriterDone m)
  | _ => Some m
  end.

(** ** Viewers *)

(** A viewer connects: it is sent the whole buffer. *)
Definition wsInitial (m : memLogger) : bytes := buf (ml_buffer m).

(** It reads the next range it was notified of; [None] is a panic. *)
Definition wsStreamLog (i : nat) (m : memLogger) : option (option bytes * memLogger) :=
  match ml_conns m !! i with
  | Some (r :: rest) =>
      msg ← buf_slice (le_Start r) (le_End r) (ml_buffer m);
      Some (Some msg, {| ml_buffer := ml_buffer m; ml_writers := ml_writers m; ml_conns := <[i := rest]> (ml_conns m);
                         ml_listeners := ml_listeners m |})
  | _ => Some (None, m)
  end.

Definition events (i : nat) (m : memLogger) : memLogger :=
  {| ml_buffer := ml_buffer m; ml_writers := ml_writers m; ml_conns := ml_conns m; ml_listeners := <[i := []]> (ml_listeners m) |}.

(** [cancel] of a listener. *)
Definition events_cancel (i : nat) (m : memLogger) : memLogger :=
  {| ml_buffer := ml_buffer m; ml_writers := ml_writers m; ml_conns := ml_conns m; ml_listeners := delete i (ml_listeners m) |}.

(** [ServeHTTP]: the channel of the viewer is stored first, and removed when the
    viewer is gone. *)
Definition ws_connect (i : nat) (m : memLogger) : memLogger :=
  {| ml_buffer := ml_buffer m; ml_writers := ml_writers m; ml_conns := <[i := []]> (ml_conns m); ml_listeners := ml_listeners m |}.
Definition ws_disconnect (i : nat) (m : memLogger) : memLogger :=
  {| ml_buffer := ml_buffer m; ml_writers := ml_writers m; ml_conns := delete i (ml_conns m); ml_listeners := ml_listeners m |}.

(** A goroutine calls [Write]. *)
Definition start_write (p : bytes) (m : memLogger) : memLogger :=
  {| ml_buffer := ml_buffer m; ml_writers := ml_writers m ++ [NotStarted p]; ml_conns := ml_conns m; ml_listeners := ml_listeners m |}.

(** What happens, in any order. *)
Inductive ml_event :=
  | LogWrite (p : bytes)
  | WriteStep (i grown : nat) (took_conn took_listener : nat -> bool)
  | ViewerReads (i : nat)
  | Connects (i : nat) | Disconnects (i : nat) | Listens (i : nat) | Cancels (i : nat).

Definition ml_step (m : memLogger) (e : ml_event) : option memLogger :=
  match e with
  | LogWrite p => Some (start_write p m)
  | WriteStep i grown tc tl => write_step i grown tc tl m
  | ViewerReads i => snd <$> wsStreamLog i m
  | Connects i => Some (ws_connect i m)
  | Disconnects i => Some (ws_disconnect i m)
  | Listens i => Some (events i m)
  | Cancels i => Some (events_cancel i m)
  end.

Fixpoint ml_run (es : list ml_event) (m : memLogger) : option memLogger :=
  match es with [] => Some m | e :: es => m' ← ml_step m e; ml_run es m' end.

(** ** Writes one after the other *)

(** [Write] without other writers. *)
Definition Write (p : bytes) (grown : nat) (b : Buffer) : Buffer := snd (writeBuf p grown (truncateIfNeeded (length p) b)).

Definition writes (ps : list bytes) (b : Buffer) : Buffer := fold_left (fun b p => Write p 0 b) ps b.

Definition nul (n : nat) : bytes := replicate n "000"%char.

Lemma sizes : maxMemLogSize = (2 * truncateSize)%nat /\ (0 < truncateSize)%nat.
Proof. split; vm_compute; lia. Qed.

Lemma Write_buf p grown b :
  buf (Write p grown b) = (if need_truncate (length p) b then take truncateSize (buf b) else buf b) ++ p.
Proof.
  unfold Write, writeBuf, truncateIfNeeded. cbn [snd]. unfold buf_Write. destruct (need_truncate _ b); by destruct (_ <=? _)%nat.
Qed.

(** The buffer starts full of zero bytes, and truncation keeps its first half:
    from the first entry on it is that half, still zero bytes, and the entries
    since the last truncation.  The newest entry is there; older ones are lost
    all at once whenever the buffer is full. *)
Theorem memlog_content ps p :
  Forall (fun p => 0 < length p <= truncateSize)%nat (ps ++ [p]) ->
  exists k, (k <= length ps)%nat /\
    buf (writes (ps ++ [p]) (ml_buffer memLoggerInstance)) = nul truncateSize ++ concat (drop k ps) ++ p /\
    (length (buf (writes (ps ++ [p]) (ml_buffer memLoggerInstance))) <= maxMemLogSize)%nat.
Proof.
  destruct sizes as [Hmax Hpos]. unfold writes.
  assert (Htk : forall s, take truncateSize (nul truncateSize ++ s) = nul truncateSize).
  { intros s. unfold nul. rewrite take_app_le by (by rewrite length_replicate). apply firstn_all2. by rewrite length_replicate. }
  revert p. induction ps as [|p0 ps IH] using rev_ind; intros p Hall.
  - exists 0%nat. split; [done|]. apply Forall_app in Hall as [_ Hp]. apply Forall_cons in Hp as [Hp _]. cbn [fold_left app]. rewrite Write_buf.
    assert (need_truncate (length p) (ml_buffer memLoggerInstance) = true) as ->.
    { unfold need_truncate, buf_Len. cbn [memLoggerInstance ml_buffer buf]. rewrite length_replicate. apply Nat.ltb_lt. lia. }
    assert (E : take truncateSize (buf (ml_buffer memLoggerInstance)) = nul truncateSize).
    { cbn [memLoggerInstance ml_buffer buf]. unfold nul. rewrite take_replicate. by rewrite Nat.min_l by lia. }
    rewrite E. split; [done|]. rewrite length_app. unfold nul. rewrite length_replicate. lia.
  - apply Forall_app in Hall as [Hps Hp]. apply Forall_cons in Hp as [Hp _].
    destruct (IH p0 Hps) as (k & Hk & Hbuf & Hlen). rewrite fold_left_app. cbn [fold_left]. rewrite Write_buf. rewrite Hbuf.
    destruct (need_truncate _ _) eqn:Hn.
    + exists (length (ps ++ [p0])). split; [done|]. rewrite Htk, drop_all. split; [done|].
      rewrite length_app. unfold nul. rewrite length_replicate. lia.
    + exists k. split; [rewrite length_app; lia|]. rewrite drop_app_le by lia. rewrite concat_app. cbn [concat]. rewrite app_nil_r.
      split; [by rewrite <- !app_assoc|]. unfold need_truncate, buf_Len in Hn. rewrite Hbuf in Hn. apply Nat.ltb_ge in Hn.
      rewrite length_app. lia.
Qed.

(** ** Viewers see the bytes that are there when they read *)

(** Ranges never panic: the array only grows. *)
Definition capacity (b : Buffer) : nat := length (buf b ++ spare b).

Lemma capacity_Truncate n b : capacity (buf_Truncate n b) = capacity b.
Proof. unfold capacity. cbn [buf_Truncate buf spare]. by rewrite app_assoc, take_drop. Qed.

Lemma capacity_Write p grown b : (capacity b <= capacity (buf_Write p grown b))%nat /\ (length (buf (buf_Write p grown b)) = buf_Len b + length p)%nat.
Proof.
  unfold capacity, buf_Write, buf_Len. rewrite !length_app. destruct (Nat.leb_spec (length p) (length (spare b))) as [Hl|Hl]; cbn [buf spare];
    rewrite ?length_app, ?length_drop; lia.
Qed.

(** Every range that is waiting for a viewer, and every writer that is about to
    send one, lies within the array. *)
Definition range_ok (m : memLogger) : Prop :=
  (forall i l r, ml_conns m !! i = Some l -> r ∈ l -> (le_End r <= capacity (ml_buffer m))%nat) /\
  (forall i p pos, ml_writers m !! i = Some (Written p pos) -> (pos + length p <= capacity (ml_buffer m))%nat).

Lemma range_ok_buffer b m : (capacity (ml_buffer m) <= capacity b)%nat -> range_ok m -> range_ok (with_buffer b m).
Proof. intros Hc [H1 H2]. split; simpl; [intros i l r E Hr; specialize (H1 i l r E Hr); lia|intros i p pos E; specialize (H2 i p pos E); lia]. Qed.

Lemma range_ok_writer i w m :
  range_ok m -> (forall p pos, w = Written p pos -> (pos + length p <= capacity (ml_buffer m))%nat) -> range_ok (with_writer i w m).
Proof.
  intros [H1 H2] Hw. split; simpl; [done|]. intros j p pos E.
  destruct (decide (i = j)) as [<-|Hj]; [|rewrite list_lookup_insert_ne in E by done; eauto].
  destruct (decide (i < length (ml_writers m))%nat) as [Hi|Hi].
  - rewrite list_lookup_insert_eq in E by done. simplify_eq. auto.
  - rewrite list_insert_ge in E by lia. eauto.
Qed.

Lemma notify_ok pos n tc tl m : range_ok m -> (pos + n <= capacity (ml_buffer m))%nat ->
  exists m', notifyWS pos n tc tl m = Some m' /\ range_ok m'.
Proof.
  intros [H1 H2] Hpos. unfold notifyWS.
  assert (Hc : forall i l r, map_imap (fun i l => Some (if tc i then l ++ [{| le_Start := pos; le_End := pos + n |}] else l)) (ml_conns m) !! i = Some l ->
    r ∈ l -> (le_End r <= capacity (ml_buffer m))%nat).
  { intros i l r E Hr. rewrite map_lookup_imap in E. destruct (ml_conns m !! i) as [l0|] eqn:E0; simplify_eq/=.
    destruct (tc i); [|by eapply H1]. apply elem_of_app in Hr as [Hr|Hr]; [by eapply H1|]. apply list_elem_of_singleton in Hr as ->. done. }
  case_bool_decide; [eexists; split; [done|by split]|]. unfold buf_slice. destruct (Nat.leb_spec (pos + n) (length (buf (ml_buffer m) ++ spare (ml_buffer m)))).
  - eexists. split; [reflexivity|]. by split.
  - exfalso. unfold capacity in Hpos. lia.
Qed.

Lemma write_step_ok m i grown tc tl : range_ok m -> exists m', write_step i grown tc tl m = Some m' /\ range_ok m'.
Proof.
  intros Hok. unfold write_step. destruct (ml_writers m !! i) as [w|] eqn:Ew; [|by eexists]. destruct w as [p|p b|p|p pos|].
  - eexists. split; [done|]. by apply range_ok_writer.
  - eexists. split; [done|]. apply range_ok_writer; [|done]. destruct b; [|done]. apply range_ok_buffer; [|done].
    unfold truncateIfNeeded. destruct (need_truncate _ _); [by rewrite capacity_Truncate|done].
  - unfold writeBuf. destruct (capacity_Write p grown (ml_buffer m)) as [Hc Hl]. eexists. split; [done|].
    apply range_ok_writer; [by apply range_ok_buffer|]. intros p' pos' [= <- <-]. cbn [with_buffer ml_buffer].
    rewrite <- Hl. unfold capacity. rewrite length_app. lia.
  - apply notify_ok; [by apply range_ok_writer|]. exact (proj2 Hok i p pos Ew).
  - by eexists.
Qed.

(** Changing the queue of one viewer to ranges it already waited for. *)
Lemma range_ok_conn i l m :
  range_ok m -> (forall r, r ∈ l -> (le_End r <= capacity (ml_buffer m))%nat) ->
  range_ok {| ml_buffer := ml_buffer m; ml_writers := ml_writers m; ml_conns := <[i := l]> (ml_conns m); ml_listeners := ml_listeners m |}.
Proof.
  intros [H1 H2] Hl. split; simpl; [|done]. intros j l' r E Hin.
  destruct (decide (i = j)) as [<-|Hj]; [rewrite lookup_insert_eq in E; simplify_eq; auto|].
  rewrite lookup_insert_ne in E by done. by eapply H1.
Qed.

Lemma wsStreamLog_ok m i : range_ok m -> exists o m', wsStreamLog i m = Some (o, m') /\ range_ok m'.
Proof.
  intros Hok. unfold wsStreamLog. destruct (ml_conns m !! i) as [[|r rest]|] eqn:Ec; try (by eexists _, _).
  pose proof (proj1 Hok i _ r Ec ltac:(by left)) as Hr. unfold buf_slice.
  destruct (Nat.leb_spec (le_End r) (length (buf (ml_buffer m) ++ spare (ml_buffer m)))) as [_|Hx]; [|exfalso; unfold capacity in Hr; lia].
  eexists _, _. split; [reflexivity|]. apply range_ok_conn; [done|]. intros r' Hin. eapply (proj1 Hok); [done|by right].
Qed.

Lemma ml_step_ok m e : range_ok m -> exists m', ml_step m e = Some m' /\ range_ok m'.
Proof.
  intros Hok. pose proof Hok as [H1 H2]. destruct e as [p|i grown tc tl|i|i|i|i|i]; cbn [ml_step].
  - eexists. split; [done|]. split; [done|]. intros i q pos E. apply lookup_app_Some in E as [E|[_ E]]; [by eapply H2|].
    by destruct (i - _)%nat as [|[]].
  - by apply write_step_ok.
  - destruct (wsStreamLog_ok m i Hok) as (o & m' & -> & Hm'). by eexists.
  - eexists. split; [done|]. apply range_ok_conn; [done|]. intros r Hr. by apply not_elem_of_nil in Hr.
  - eexists. split; [done|]. split; [|done]. intros j l r E. cbn [ws_disconnect ml_conns] in E. apply lookup_delete_Some in E as [_ E]. by eapply H1.
  - by eexists.
  - by eexists.
Qed.

(** No interleaving of writers, viewers and listeners panics: the ranges that
    viewers were told of stay within the array, whatever was truncated since. *)
Theorem memlog_no_panic es : is_Some (ml_run es memLoggerInstance).
Proof.
  assert (Hok : range_ok memLoggerInstance).
  { split; cbn [memLoggerInstance ml_conns ml_writers]; [intros i l r E; by rewrite lookup_empty in E|intros i p pos E; by rewrite lookup_nil in E]. }
  revert Hok. generalize memLoggerInstance as m. induction es as [|e es IH]; intros m Hok; [by eexists|].
  destruct (ml_step_ok m e Hok) as (m' & E & Hm'). cbn [ml_run]. rewrite E. by apply IH.
Qed.

(** ** Examples *)

Module Examples.

Definition entry_a : bytes := replicate (8 * 1000) "a"%char.
Definition entry_b : bytes := replicate (8 * 1000) "b"%char.

Lemma short_entry (p : bytes) : (length p <= 100)%nat -> (length p <= truncateSize)%nat.
Proof. intros. assert (100 <= truncateSize)%nat by (apply Nat.leb_le; by vm_compute). lia. Qed.

Lemma memlog_content_witness :
  exists k, (k <= length [B "first"])%nat /\
    buf (writes ([B "first"] ++ [B "second"]) (ml_buffer memLoggerInstance)) = nul truncateSize ++ concat (drop k [B "first"]) ++ B "second" /\
    (length (buf (writes ([B "first"] ++ [B "second"]) (ml_buffer memLoggerInstance))) <= maxMemLogSize)%nat.
Proof.
  apply (memlog_content [B "first"] (B "second")). apply Forall_cons_2; [|apply Forall_cons_2; [|apply Forall_nil_2]];
    (split; [apply Nat.ltb_lt; reflexivity|apply short_entry, Nat.leb_le; reflexivity]).
Defined.

(** A viewer is connected; one writer is to write, then another. *)
Definition one_viewer : memLogger :=
  {| ml_buffer := ml_buffer memLoggerInstance; ml_writers := [NotStarted entry_a; NotStarted entry_b];
     ml_conns := {[0%nat := []]}; ml_listeners := ∅ |}.

Definition everyone (_ : nat) : bool := true.

Definition both_written : option memLogger :=
  foldr (fun i m => m ≫= write_step i 0 everyone everyone) (Some one_viewer) (reverse (replicate 4 0%nat ++ replicate 3 1%nat)).

(** The second entry makes the logger truncate and overwrite the first one before
    the viewer reads it: it is sent the second entry for the first. *)
Example viewer_reads_other_entry :
  match both_written ≫= wsStreamLog 0 with Some (Some msg, _) => bool_decide (msg = entry_b) | _ => false end = true.
Proof. by vm_compute. Qed.

End Examples.
