(* ===== verification/SocketProxy.v ===== *)
(** * The Docker socket proxy

    Models the program in socket-proxy: which requests to the Docker API are let
    through (pkg/env.go, pkg/handler.go) and how one is forwarded
    (pkg/reverseproxy/reverse_proxy.go).

    The router is gorilla/mux: whether a template matches a path is a parameter,
    routes are tried in the order in which they were added and the first that
    matches is taken, and a path that is not clean is redirected.  The socket's
    answer to a request is a parameter as well. *)

From S2P Require Import Prelude GoStrings NetAddr RulesHTTP MiddlewareVars.

(** ** What is allowed *)

Inductive permission :=
  | DockerPost | DockerRestarts | DockerStart | DockerStop | DockerAuth | DockerBuild | DockerCommit | DockerConfigs
  | DockerContainers | DockerDistribution | DockerEvents | DockerExec | DockerGrpc | DockerImages | DockerInfo
  | DockerNetworks | DockerNodes | DockerPing | DockerPlugins | DockerSecrets | DockerServices | DockerSession
  | DockerSwarm | DockerSystem | DockerTasks | DockerVersion | DockerVolumes.

#[export] Instance permission_eq_dec : EqDecision permission.
Proof. solve_decision. Defined.

(** The environment variable and the default. *)
Definition env_var (p : permission) : bytes * bool :=
  match p with
  | DockerPost => (B "POST", false)
  | DockerRestarts => (B "ALLOW_RESTARTS", false)
  | DockerStart => (B "ALLOW_START", false)
  | DockerStop => (B "ALLOW_STOP", false)
  | DockerAuth => (B "AUTH", false)
  | DockerBuild => (B "BUILD", false)
  | DockerCommit => (B "COMMIT", false)
  | DockerConfigs => (B "CONFIGS", false)
  | DockerContainers => (B "CONTAINERS", false)
  | DockerDistribution => (B "DISTRIBUTION", false)
  | DockerEvents => (B "EVENTS", true)
  | DockerExec => (B "EXEC", false)
  | DockerGrpc => (B "GRPC", false)
  | DockerImages => (B "IMAGES", false)
  | DockerInfo => (B "INFO", false)
  | DockerNetworks => (B "NETWORKS", false)
  | DockerNodes => (B "NODES", false)
  | DockerPing => (B "PING", true)
  | DockerPlugins => (B "PLUGINS", false)
  | DockerSecrets => (B "SECRETS", false)
  | DockerServices => (B "SERVICES", false)
  | DockerSession => (B "SESSION", false)
  | DockerSwarm => (B "SWARM", false)
  | DockerSystem => (B "SYSTEM", false)
  | DockerTasks => (B "TASKS", false)
  | DockerVersion => (B "VERSION", true)
  | DockerVolumes => (B "VOLUMES", false)
  end.

Definition Load (GetEnvBool : bytes -> bool -> bool) (p : permission) : bool := let '(n, d) := env_var p in GetEnvBool n d.

(** ** The routes *)

Definition apiVersionPrefix : bytes := B "/{version:(?:v[\d\.]+)?}".
Definition containerPath : bytes := B "/containers/{id:[a-zA-Z0-9_.-]+}".

(** The permissions that open a path, in the order of the code. *)
Definition path_permissions : list (permission * bytes) :=
  [(DockerContainers, B "/containers"); (DockerAuth, B "/auth"); (DockerBuild, B "/build"); (DockerCommit, B "/commit");
   (DockerConfigs, B "/configs"); (DockerDistribution, B "/distribution"); (DockerEvents, B "/events");
   (DockerExec, B "/exec"); (DockerGrpc, B "/grpc"); (DockerImages, B "/images"); (DockerInfo, B "/info");
   (DockerNetworks, B "/networks"); (DockerNodes, B "/nodes"); (DockerPing, B "/_ping"); (DockerPlugins, B "/plugins");
   (DockerSecrets, B "/secrets"); (DockerServices, B "/services"); (DockerSession, B "/session");
   (DockerSwarm, B "/swarm"); (DockerSystem, B "/system"); (DockerTasks, B "/tasks"); (DockerVersion, B "/version");
   (DockerVolumes, B "/volumes")].

Definition allowedPaths (env : permission -> bool) : list bytes :=
  flat_map (fun '(p, path) => if env p then [path] else []) path_permissions.

Definition deniedPaths (env : permission -> bool) : list bytes :=
  if env DockerContainers then
    (if env DockerRestarts then []
     else [containerPath ++ B "/stop"; containerPath ++ B "/restart"; containerPath ++ B "/kill"]) ++
    (if env DockerStart then [] else [containerPath ++ B "/start"]) ++
    (if negb (env DockerStop) && env DockerRestarts then [containerPath ++ B "/stop"] else [])
  else [].

Definition isPrefixPath (path : bytes) : bool := (length (filter (fun c => c = "/"%char) path) =? 1)%nat.

Inductive target := Socket | NotAllowed.

(** A route: a path prefix or a whole path, its template, and where it leads. *)
Record mux_route := { mr_prefix : bool; mr_template : bytes; mr_target : target }.

Definition denied_routes (path : bytes) : list mux_route :=
  [{| mr_prefix := false; mr_template := apiVersionPrefix ++ path; mr_target := NotAllowed |};
   {| mr_prefix := false; mr_template := path; mr_target := NotAllowed |}].

Definition allowed_routes (path : bytes) : list mux_route :=
  [{| mr_prefix := isPrefixPath path; mr_template := apiVersionPrefix ++ path; mr_target := Socket |};
   {| mr_prefix := isPrefixPath path; mr_template := path; mr_target := Socket |}].

Definition routes (env : permission -> bool) : list mux_route :=
  flat_map denied_routes (deniedPaths env) ++ flat_map allowed_routes (allowedPaths env) ++
  [{| mr_prefix := true; mr_template := B "/"; mr_target := NotAllowed |}].

(** gorilla/mux: [mux_match prefix template path], and [cleanPath]. *)
Class Mux := {
  mux_match : bool -> bytes -> bytes -> bool;
  mux_clean : bytes -> bytes
}.

Inductive proxy_answer :=
  | Forwarded
  | Forbidden                        (* 403 Endpoint not allowed *)
  | MethodNotAllowed                 (* 405 *)
  | Redirected (path : bytes)        (* 301 to the clean path *)
  | NotFound.

Section Handler.
Context `{Mux}.

Definition mux_ServeHTTP (rs : list mux_route) (path : bytes) : proxy_answer :=
  let p := mux_clean path in
  if negb (bool_decide (p = path)) then Redirected p
  else
    match List.find (fun r => mux_match (mr_prefix r) (mr_template r) path) rs with
    | Some r => match mr_target r with Socket => Forwarded | NotAllowed => Forbidden end
    | None => NotFound
    end.

Definition NewHandler (env : permission -> bool) (method path : bytes) : proxy_answer :=
  let r := routes env in
  if negb (env DockerPost) then
    if bool_decide (method = B "GET") then mux_ServeHTTP r path else MethodNotAllowed
  else
    if bool_decide (method = B "POST") || bool_decide (method = B "GET") then mux_ServeHTTP r path else MethodNotAllowed.

(** A template matches a path with or without a version in front. *)
Definition matches (prefix : bool) (t path : bytes) : bool := mux_match prefix (apiVersionPrefix ++ t) path || mux_match prefix t path.

Lemma find_app (f : mux_route -> bool) l1 l2 :
  List.find f (l1 ++ l2) = match List.find f l1 with Some x => Some x | None => List.find f l2 end.
Proof. induction l1 as [|x l1 IH]; simpl; [done|]. by destruct (f x). Qed.

(** The routes of one kind: which one is found does not matter, all lead to the
    same place. *)
Lemma find_routes (mk : bytes -> list mux_route) (pre : bytes -> bool) (tg : target) l path :
  (forall t, mk t = [{| mr_prefix := pre t; mr_template := apiVersionPrefix ++ t; mr_target := tg |};
                     {| mr_prefix := pre t; mr_template := t; mr_target := tg |}]) ->
  mr_target <$> List.find (fun r => mux_match (mr_prefix r) (mr_template r) path) (flat_map mk l) =
  if existsb (fun t => matches (pre t) t path) l then Some tg else None.
Proof.
  intros Hmk. induction l as [|t l IH]; [done|]. cbn [flat_map]. rewrite find_app, Hmk. cbn [List.find existsb mr_prefix mr_template]. unfold matches at 1.
  destruct (mux_match (pre t) (apiVersionPrefix ++ t) path); [done|]. destruct (mux_match (pre t) t path); [done|]. exact IH.
Qed.

(** The methods that are looked at. *)
Definition method_ok (env : permission -> bool) (method : bytes) : bool :=
  bool_decide (method = B "GET") || env DockerPost && bool_decide (method = B "POST").

(** C27: a request reaches the Docker socket iff its method is allowed, its path is
    clean, no denied operation matches it and an allowed path does; any other is
    answered with 405, 301 or 403. *)
Theorem socket_proxy_exact env method path :
  mux_match true (B "/") path = true ->
  NewHandler env method path =
    if negb (method_ok env method) then MethodNotAllowed
    else if negb (bool_decide (mux_clean path = path)) then Redirected (mux_clean path)
    else if existsb (fun t => matches false t path) (deniedPaths env) then Forbidden
    else if existsb (fun t => matches (isPrefixPath t) t path) (allowedPaths env) then Forwarded
    else Forbidden.
Proof.
  intros Hroot.
  assert (Hm : NewHandler env method path = if negb (method_ok env method) then MethodNotAllowed else mux_ServeHTTP (routes env) path).
  { unfold NewHandler, method_ok. destruct (env DockerPost), (bool_decide (method = B "GET")), (bool_decide (method = B "POST")); done. }
  rewrite Hm. destruct (negb (method_ok env method)); [done|]. unfold mux_ServeHTTP. destruct (negb _); [done|].
  pose proof (find_routes denied_routes (fun _ => false) NotAllowed (deniedPaths env) path (fun _ => eq_refl)) as Hd.
  pose proof (find_routes allowed_routes isPrefixPath Socket (allowedPaths env) path (fun _ => eq_refl)) as Ha.
  unfold routes. rewrite !find_app. destruct (List.find _ (flat_map denied_routes _)) as [r|]; simpl in Hd.
  - destruct (existsb _ (deniedPaths env)); simplify_eq. by rewrite Hd.
  - destruct (existsb _ (deniedPaths env)); simplify_eq. destruct (List.find _ (flat_map allowed_routes _)) as [r|]; simpl in Ha.
    + destruct (existsb _ (allowedPaths env)); simplify_eq. by rewrite Ha.
    + destruct (existsb _ (allowedPaths env)); simplify_eq. cbn [List.find mr_prefix mr_template]. by rewrite Hroot.
Qed.

(** Without ALLOW_RESTARTS, ALLOW_STOP makes no difference. *)
Theorem allow_stop_ignored env b method path :
  env DockerRestarts = false ->
  NewHandler (fun p => if decide (p = DockerStop) then b else env p) method path = NewHandler env method path.
Proof.
  intros Hr. unfold NewHandler, routes, allowedPaths, deniedPaths. simpl. rewrite Hr, andb_false_r.
  destruct (env DockerStop), b; done.
Qed.

End Handler.

(** ** Forwarding *)

Definition hopHeaders : list bytes :=
  [B "Connection"; B "Proxy-Connection"; B "Keep-Alive"; B "Proxy-Authenticate"; B "Proxy-Authorization"; B "Te";
   B "Trailer"; B "Transfer-Encoding"; B "Upgrade"].

(** [textproto.TrimString]: spaces, tabs and line breaks. *)
Definition is_ows (c : ascii) : bool := bool_decide (c ∈ [" "%char; "009"%char; "010"%char; "013"%char]).
Definition TrimString (s : bytes) : bytes := trim is_ows s.

Definition connection_names (h : Values) : list bytes :=
  filter (fun sf => sf <> []) (flat_map (fun f => map TrimString (Split f ","%char)) (values_at h (B "Connection"))).

Definition removeHopByHopHeaders (h : Values) : Values :=
  fold_left Header_Del hopHeaders (fold_left Header_Del (connection_names h) h).

Definition copyHeader (dst src : Values) : Values :=
  map_fold (fun k vv dst => fold_left (fun dst v => hadd dst (CanonicalHeaderKey k) v) vv dst) dst src.

(** Every rune of a printable ASCII string is one byte. *)
Definition IsPrint (s : bytes) : bool := forallb (fun c => (32 <=? byteZ c) && (byteZ c <=? 126)) s.

(** A request to the socket, and its answer. *)
Record upstream_response := {
  ur_status : Z;
  ur_header : Values;
  ur_trailer : Values;                (* announced with the header *)
  ur_body : bytes;
  ur_copy_error : option bool;        (* copying the body failed: because the request was cancelled *)
  ur_trailer_end : Values;            (* after the body *)
  ur_writable : bool                  (* the body of a 101 is a connection *)
}.

Inductive proxy_error :=
  | ErrInvalidProtocol (t : bytes)
  | ErrRoundTrip
  | ErrBackendProtocol (t : bytes)
  | ErrProtocolMismatch (res req : bytes)
  | ErrNotWritable
  | ErrHijack.

(** What the client gets: the interim answers are those of the transport. *)
Inductive forward_result :=
  | BadGateway (e : proxy_error)
  | Replied (status : Z) (header : Values) (body : bytes) (trailer : Values)
  | Aborted (status : Z) (header : Values) (cancelled : bool)
  | Switched (header : Values).

(** [httpguts.HeaderValuesContainsToken], [strings.EqualFold] beyond ASCII as in
    [MwLib]. *)
Class ProxyLib := { HeaderValuesContainsToken : list bytes -> bytes -> bool }.

Section Forward.
Context `{MwLib} `{ProxyLib}.

Definition upgradeType (h : Values) : bytes :=
  if HeaderValuesContainsToken (values_at h (B "Connection")) (B "Upgrade") then Header_Get h (B "Upgrade") else [].

(** The header of the request to the socket. *)
Definition outgoing_header (h : Values) : proxy_error + Values :=
  let reqUpType := upgradeType h in
  if negb (IsPrint reqUpType) then inl (ErrInvalidProtocol reqUpType)
  else
    let out := removeHopByHopHeaders h in
    let out := if HeaderValuesContainsToken (values_at h (B "Te")) (B "trailers") then Header_Set out (B "Te") (B "trailers") else out in
    let out := match out !! B "User-Agent" with None => Header_Set out (B "User-Agent") [] | Some _ => out end in
    inr out.

(** [hijack]: the connection of the client can be taken over, and the answer
    written to it. *)
Definition handleUpgradeResponse (hijack : bool) (rw reqHeader : Values) (res : upstream_response) : forward_result :=
  let reqUpType := upgradeType reqHeader in
  let resUpType := upgradeType (ur_header res) in
  if negb (IsPrint resUpType) then BadGateway (ErrBackendProtocol resUpType)
  else if negb (EqualFold reqUpType resUpType) then BadGateway (ErrProtocolMismatch resUpType reqUpType)
  else if negb (ur_writable res) then BadGateway ErrNotWritable
  else if negb hijack then BadGateway ErrHijack
  else Switched (copyHeader rw (ur_header res)).

Definition TrailerPrefix : bytes := B "Trailer:".

Definition trailer_names (t : Values) : bytes :=
  match map fst (map_to_list t) with
  | [] => []
  | k :: ks => k ++ concat (map (fun k => B ", " ++ k) ks)
  end.

(** The trailers that follow the body: as announced, or with the prefix. *)
Definition final_trailer (res : upstream_response) : Values :=
  if bool_decide (size (ur_trailer_end res) = size (ur_trailer res)) then copyHeader ∅ (ur_trailer_end res)
  else map_fold (fun k vv dst => fold_left (fun dst v => hadd dst (CanonicalHeaderKey (TrailerPrefix ++ k)) v) vv dst) ∅ (ur_trailer_end res).

(** [rw] is the header of the response writer, [roundtrip] the socket. *)
Definition forward (hijack : bool) (roundtrip : Values -> option upstream_response) (rw h : Values) : forward_result :=
  match outgoing_header h with
  | inl e => BadGateway e
  | inr out =>
      match roundtrip out with
      | None => BadGateway ErrRoundTrip
      | Some res =>
          if ur_status res =? 101 then handleUpgradeResponse hijack rw out res
          else
            let hdr := copyHeader rw (removeHopByHopHeaders (ur_header res)) in
            let hdr := if bool_decide (ur_trailer res = ∅) then hdr else hadd hdr (B "Trailer") (trailer_names (ur_trailer res)) in
            match ur_copy_error res with
            | Some cancelled => Aborted (ur_status res) hdr cancelled
            | None => Replied (ur_status res) hdr (ur_body res) (final_trailer res)
            end
      end
  end.

(** ** What is forwarded *)

(** Hop-by-hop headers, those the Connection header names included, are removed,
    and no other header is touched. *)
Theorem hop_headers_removed h k :
  removeHopByHopHeaders h !! k =
  if bool_decide (k ∈ map CanonicalHeaderKey (connection_names h)) || bool_decide (k ∈ hopHeaders) then None else h !! k.
Proof.
  unfold removeHopByHopHeaders. rewrite !lookup_fold_Del.
  assert (Hc : map CanonicalHeaderKey hopHeaders = hopHeaders) by (by vm_compute). rewrite Hc.
  destruct (bool_decide (k ∈ hopHeaders)); [by rewrite orb_true_r|]. rewrite orb_false_r. done.
Qed.

Lemma outgoing_no_upgrade h out : outgoing_header h = inr out -> out !! B "Connection" = None /\ out !! B "Upgrade" = None.
Proof.
  unfold outgoing_header. destruct (negb _); [done|]. intros [= <-].
  assert (Hr : forall k, k ∈ [B "Connection"; B "Upgrade"] -> removeHopByHopHeaders h !! k = None).
  { intros k Hk. rewrite hop_headers_removed. rewrite (bool_decide_true (k ∈ hopHeaders)); [by rewrite orb_true_r|].
    repeat (apply elem_of_cons in Hk as [->|Hk]; [apply (bool_decide_unpack _); by vm_compute|]). by apply not_elem_of_nil in Hk. }
  assert (Hset : forall (m : Values) k k' v, m !! k = None -> CanonicalHeaderKey k' <> k -> Header_Set m k' v !! k = None).
  { intros m k k' v Hn Hne. unfold Header_Set, hset. by rewrite lookup_insert_ne. }
  assert (Hall : forall k, k ∈ [B "Connection"; B "Upgrade"] ->
    CanonicalHeaderKey (B "Te") <> k /\ CanonicalHeaderKey (B "User-Agent") <> k).
  { intros k Hk. repeat (apply elem_of_cons in Hk as [->|Hk]; [by vm_compute|]). by apply not_elem_of_nil in Hk. }
  assert (Hout : forall k, k ∈ [B "Connection"; B "Upgrade"] -> forall m : Values, m !! k = None ->
    match m !! B "User-Agent" with None => Header_Set m (B "User-Agent") [] | Some _ => m end !! k = None).
  { intros k Hk m Hm. destruct (m !! B "User-Agent"); [done|]. apply Hset; [done|]. by apply Hall. }
  split; (apply Hout; [set_solver|]); (case_match; [apply Hset; [|apply Hall; set_solver]|]); apply Hr; set_solver.
Qed.

Lemma IsPrint_ascii s : IsPrint s = true -> forallb is_ascii s = true.
Proof.
  unfold IsPrint. rewrite !forallb_forall. intros Hp c Hc. specialize (Hp c Hc). apply andb_true_iff in Hp as [_ Hp].
  apply Z.leb_le in Hp. unfold is_ascii. apply Z.ltb_lt. lia.
Qed.

(** [httpguts]: no token is in an empty list of values. *)
Hypothesis no_values_no_token : forall t, HeaderValuesContainsToken [] t = false.

Lemma outgoing_upgradeType h out : outgoing_header h = inr out -> upgradeType out = [].
Proof.
  intros Ho. destruct (outgoing_no_upgrade h out Ho) as [Hc _]. unfold upgradeType, values_at. rewrite Hc. cbn [default]. by rewrite no_values_no_token.
Qed.

(** The headers that ask for another protocol are removed and not restored, so a
    request to switch never reaches the socket, and an answer that switches to
    any named protocol is refused. *)
Theorem upgrade_never_switches hijack roundtrip rw h hd :
  forward hijack roundtrip rw h = Switched hd ->
  exists out res, outgoing_header h = inr out /\ upgradeType out = [] /\ roundtrip out = Some res /\ upgradeType (ur_header res) = [].
Proof.
  unfold forward. destruct (outgoing_header h) as [e|out] eqn:Ho; [done|]. destruct (roundtrip out) as [res|] eqn:Er; [|done].
  destruct (ur_status res =? 101); [|by destruct (ur_copy_error res)].
  unfold handleUpgradeResponse. rewrite (outgoing_upgradeType h out Ho).
  destruct (IsPrint (upgradeType (ur_header res))) eqn:Hp; [|done]. simpl. destruct (EqualFold [] _) eqn:He; [|done]. intros _.
  exists out, res. split; [done|]. split; [by eapply outgoing_upgradeType|]. split; [done|].
  unfold EqualFold in He. rewrite (IsPrint_ascii _ Hp) in He. simpl in He. apply bool_decide_eq_true in He.
  by destruct (upgradeType (ur_header res)).
Qed.

End Forward.

(** ** Examples *)

Module Examples.

(** Templates are taken literally, except that an identifier is any text without
    a slash, and the version prefix is one of /v1.41 and nothing. *)
Fixpoint no_slash_then (rest s : bytes) : bool :=
  match s with
  | [] => bool_decide (rest = [])
  | c :: s' => bool_decide (rest = s) || negb (Ascii.eqb c "/"%char) && no_slash_then rest s'
  end.

Definition strip (p s : bytes) : option bytes := if bool_decide (take (length p) s = p) then Some (drop (length p) s) else None.

Definition lit_match (prefix : bool) (t path : bytes) : bool :=
  match strip containerPath t, strip (B "/containers/") path with
  | Some rest, Some p => no_slash_then rest p
  | Some _, None => false
  | None, _ => if prefix then bool_decide (take (length t) path = t) else bool_decide (path = t)
  end.

#[local] Instance demo_mux : Mux :=
  {| mux_match := fun prefix t path =>
       match strip apiVersionPrefix t with
       | Some t' => match strip (B "/v1.41") path with Some p => lit_match prefix t' p | None => false end
       | None => lit_match prefix t path
       end;
     mux_clean := fun p => p |}.

Definition demo_env (p : permission) : bool :=
  bool_decide (p ∈ [DockerPost; DockerContainers; DockerStart; DockerStop; DockerPing]).

Lemma socket_proxy_exact_witness :
  NewHandler demo_env (B "POST") (B "/v1.41/containers/web/start") = Forwarded /\
  NewHandler demo_env (B "POST") (B "/containers/web/stop") = Forbidden /\
  NewHandler demo_env (B "DELETE") (B "/containers/web") = MethodNotAllowed.
Proof.
  rewrite (socket_proxy_exact demo_env (B "POST") (B "/v1.41/containers/web/start")) by (by vm_compute).
  rewrite (socket_proxy_exact demo_env (B "POST") (B "/containers/web/stop")) by (by vm_compute).
  rewrite (socket_proxy_exact demo_env (B "DELETE") (B "/containers/web")) by (by vm_compute). by vm_compute.
Defined.

(** ALLOW_STOP is set, and changes nothing. *)
Lemma allow_stop_ignored_witness :
  NewHandler (fun p => if decide (p = DockerStop) then false else demo_env p) (B "POST") (B "/containers/web/stop") =
  NewHandler demo_env (B "POST") (B "/containers/web/stop").
Proof. apply (allow_stop_ignored demo_env). by vm_compute. Defined.

#[local] Instance demo_mw : MwLib :=
  {| EqualFold_unicode := fun _ _ => false; range_query := map_to_list; HeaderXRealIP := B "X-Real-Ip"; HeaderXForwardedFor := B "X-Forwarded-For" |}.
#[local] Instance demo_tokens : ProxyLib := {| HeaderValuesContainsToken := fun l t => bool_decide (t ∈ l) |}.

(** docker exec: the request asks to switch to raw TCP, and the daemon would. *)
Definition exec_header : Values := {[B "Connection" := [B "Upgrade"]; B "Upgrade" := [B "tcp"]; B "User-Agent" := [B "Docker-Client"]]}.

Definition switching : upstream_response :=
  {| ur_status := 101; ur_header := {[B "Connection" := [B "Upgrade"]; B "Upgrade" := [B "tcp"]]}; ur_trailer := ∅; ur_body := [];
     ur_copy_error := None; ur_trailer_end := ∅; ur_writable := true |}.

Example exec_refused :
  forward true (fun _ => Some switching) ∅ exec_header = BadGateway (ErrProtocolMismatch (B "tcp") []).
Proof. by vm_compute. Qed.

(** A switch without a protocol passes. *)
Definition bare_switch : upstream_response :=
  {| ur_status := 101; ur_header := ∅; ur_trailer := ∅; ur_body := []; ur_copy_error := None; ur_trailer_end := ∅; ur_writable := true |}.

Lemma demo_no_token t : HeaderValuesContainsToken [] t = false.
Proof. apply bool_decide_false, not_elem_of_nil. Qed.

Lemma upgrade_never_switches_witness :
  exists out res, outgoing_header exec_header = inr out /\ upgradeType out = [] /\ Some bare_switch = Some res /\ upgradeType (ur_header res) = [].
Proof.
  apply (upgrade_never_switches demo_no_token true (fun _ => Some bare_switch) ∅ exec_header ∅).
  by vm_compute.
Defined.

End Examples.
