(* ===== verification/Metrics.v ===== *)
(** * Metrics: uptime and system information

    Models internal/metrics/utils/utils.go, internal/metrics/uptime/uptime.go,
    internal/metrics/systeminfo/system_info.go and GetRespData and ServeHTTP of
    internal/metrics/period/handler.go: what the web interface asks of the samples
    that the pollers of [Period] keep.

    A Go map is a finite map; where the code ranges over one, the result does not
    depend on the order (the aliases are sorted).  float32 is [spec_float] with 24
    bits.  The answers of gopsutil, the clock and the fuzzy search are
    arguments. *)

From Stdlib Require Import SpecFloat Permutation.
From S2P Require Import Prelude GoStrings GoSort Health RulesHTTP Period.

(** ** Queries *)

Inductive num_result := Num (n : Z) | NumRange | NumSyntax.

(** The loop of [strconv.ParseUint]: left to right, so that a range error may be
    found before a character that is not a digit. *)
Fixpoint ParseUint_loop (s : bytes) (n : Z) : num_result :=
  match s with
  | [] => Num n
  | c :: s' =>
      if negb (is_digit c) then NumSyntax
      else if MaxUint64 / 10 + 1 <=? n then NumRange
      else
        let n1 := n * 10 + (byteZ c - 48) in
        if MaxUint64 <? n1 then NumRange else ParseUint_loop s' n1
  end.

(** The value that [strconv.Atoi] returns also when it returns an error: 0 for a
    syntax error, the nearest bound for a range error. *)
Definition Atoi_value (s : bytes) : Z :=
  let '(neg, digits) := match s with "-"%char :: s' => (true, s') | "+"%char :: s' => (false, s') | _ => (false, s) end in
  match digits with
  | [] => 0
  | _ =>
      match ParseUint_loop digits 0 with
      | NumSyntax => 0
      | NumRange => if neg then MinInt64 else MaxInt64
      | Num un =>
          if neg then (if - MinInt64 <? un then MinInt64 else - un)
          else if - MinInt64 <=? un then MaxInt64 else un
      end
  end.

(** [query.Get]. *)
Definition query_Get (query : Values) (key : bytes) : bytes :=
  match query !! key with Some (v :: _) => v | _ => [] end.

Definition QueryInt (query : Values) (key : bytes) (defaultValue : Z) : Z :=
  let value := Atoi_value (query_Get query key) in
  if value =? 0 then defaultValue else value.

(** [time.ParseDuration] is an argument: the value it returns, 0 with an error. *)
Definition QueryDuration (ParseDuration : bytes -> Z) (query : Values) (key : bytes) (defaultValue : Z) : Z :=
  let value := ParseDuration (query_Get query key) in
  if value =? 0 then defaultValue else value.

(** [int] arithmetic wraps around. *)
Definition CalculateBeginEnd (n limit offset : Z) : option (Z * Z) :=
  if (n =? 0) || (n <=? offset) then None
  else
    let limit := if limit =? 0 then n else limit in
    let limit := if n <? wrap64 (offset + limit) then wrap64 (n - offset) else limit in
    Some (offset, wrap64 (offset + limit)).

(** ** Uptime *)

Definition float32 (z : Z) : spec_float := binary_normalize 24 128 z 0 false.
Definition f32_add (a b : spec_float) : spec_float := SFadd 24 128 a b.
Definition f32_div (a b : spec_float) : spec_float := SFdiv 24 128 a b.

(** [int32] of an integer. *)
Definition int32 (z : Z) : Z := (z + 2 ^ 31) mod 2 ^ 32 - 2 ^ 31.

Record HealthInfo := { hi_Status : Z; hi_Uptime : Z; hi_Latency : Z }.

Record StatusByAlias := { sa_Map : gmap bytes HealthInfo; sa_Timestamp : Z }.

Record Status := { st_Status : Z; st_Latency : Z; st_Timestamp : Z }.

Abbreviation RouteStatuses := (gmap bytes (list Status)).

Record RouteAggregate := {
  ra_Alias : bytes;
  ra_DisplayName : bytes;
  ra_Uptime : spec_float;
  ra_Downtime : spec_float;
  ra_Idle : spec_float;
  ra_AvgLatency : spec_float;
  ra_IsDocker : bool;
  ra_CurrentStatus : Z;
  ra_Statuses : list Status
}.

(** What is asked of a route: its display name, the status of its health monitor
    if it has one, and whether it comes from a container. *)
Record route_view := { rv_DisplayName : bytes; rv_Monitor : option Z; rv_IsDocker : bool }.

(** [getHealthInfoWithoutDetail]. *)
Definition getHealthInfoWithoutDetail (monitor : option HealthInfo) : HealthInfo :=
  match monitor with
  | None => {| hi_Status := StatusUnknown; hi_Uptime := 0; hi_Latency := 0 |}
  | Some m => {| hi_Status := hi_Status m; hi_Uptime := hi_Uptime m; hi_Latency := hi_Latency m |}
  end.

(** The routes in the order of the range, with their names. *)
Definition GetHealthInfoWithoutDetail (rs : list (bytes * option HealthInfo)) : gmap bytes HealthInfo :=
  fold_left (fun m '(name, mon) => <[name := getHealthInfoWithoutDetail mon]> m) rs ∅.

Definition getStatuses (rs : list (bytes * option HealthInfo)) (now : Z) : StatusByAlias :=
  {| sa_Map := GetHealthInfoWithoutDetail rs; sa_Timestamp := now |}.

Definition entry_status (ts : Z) (h : HealthInfo) : Status :=
  {| st_Status := hi_Status h; st_Latency := int32 (hi_Latency h ÷ Millisecond); st_Timestamp := ts |}.

(** [statuses[alias] = append(statuses[alias], ...)] for every alias of an entry. *)
Definition add_entry (rs : RouteStatuses) (e : StatusByAlias) : RouteStatuses :=
  merge (fun l h => match h with
                    | Some h => Some (default [] l ++ [entry_status (sa_Timestamp e) h])
                    | None => l
                    end) rs (sa_Map e).

Definition collect (entries : list StatusByAlias) : RouteStatuses := fold_left add_entry entries ∅.

(** The counters of [calculateInfo]: up, down, idle, total and the latency. *)
Record tally := { ty_up : spec_float; ty_down : spec_float; ty_idle : spec_float; ty_total : spec_float; ty_latency : spec_float }.

Definition one : spec_float := float32 1.
Definition zero : spec_float := S754_zero false.

Definition tally_status (t : tally) (s : Status) : tally :=
  if st_Status s =? StatusUnknown then t
  else
    let '(u, d, i) :=
      if st_Status s =? StatusHealthy then (f32_add (ty_up t) one, ty_down t, ty_idle t)
      else if Idling (st_Status s) then (ty_up t, ty_down t, f32_add (ty_idle t) one)
      else (ty_up t, f32_add (ty_down t) one, ty_idle t) in
    {| ty_up := u; ty_down := d; ty_idle := i; ty_total := f32_add (ty_total t) one;
       ty_latency := f32_add (ty_latency t) (float32 (st_Latency s)) |}.

Definition no_tally : tally := {| ty_up := zero; ty_down := zero; ty_idle := zero; ty_total := zero; ty_latency := zero |}.

Definition calculateInfo (statuses : list Status) : spec_float * spec_float * spec_float * spec_float :=
  match statuses with
  | [] => (zero, zero, zero, zero)
  | _ =>
      let t := fold_left tally_status statuses no_tally in
      if SFeqb (ty_total t) zero then (zero, zero, zero, zero)
      else (f32_div (ty_up t) (ty_total t), f32_div (ty_down t) (ty_total t), f32_div (ty_idle t) (ty_total t),
            f32_div (ty_latency t) (ty_total t))
  end.

Section Uptime.

(** [routes.Get] and [statequery.SearchRoute]; [fuzzy.MatchFold]. *)
Context (Get SearchRoute : bytes -> option route_view) (MatchFold : bytes -> bytes -> bool).

Definition find_route (alias : bytes) : option route_view :=
  match Get alias with Some r => Some r | None => SearchRoute alias end.

Definition aggregate_route (rs : RouteStatuses) (alias : bytes) : RouteAggregate :=
  let statuses := default [] (rs !! alias) in
  let '(up, down, idle, latency) := calculateInfo statuses in
  let r := find_route alias in
  {| ra_Alias := alias;
     ra_DisplayName := match r with Some r => rv_DisplayName r | None => alias end;
     ra_Uptime := up; ra_Downtime := down; ra_Idle := idle; ra_AvgLatency := latency;
     ra_IsDocker := match r with Some r => rv_IsDocker r | None => false end;
     ra_CurrentStatus := match r with Some r => default StatusUnknown (rv_Monitor r) | None => StatusUnknown end;
     ra_Statuses := statuses |}.

(** [sortedAliases[beg:end]]: the bounds are checked. *)
Definition slice_aliases (l : list bytes) (b e : Z) : result Empty_set (list bytes) :=
  if (0 <=? b) && (b <=? e) && (e <=? Z.of_nat (length l)) then Ok (take (Z.to_nat (e - b)) (drop (Z.to_nat b) l))
  else Panic SliceOutOfBounds.

Definition sorted_aliases (rs : RouteStatuses) : list bytes := sort_strings (elements (dom rs)).

Definition aggregate (rs : RouteStatuses) (limit offset : Z) : result Empty_set (list RouteAggregate) :=
  match CalculateBeginEnd (Z.of_nat (size rs)) limit offset with
  | None => Ok []
  | Some (b, e) =>
      l ← slice_aliases (sorted_aliases rs) b e;
      Ok (map (aggregate_route rs) l)
  end.

Definition filter_keyword (keyword : bytes) (rs : RouteStatuses) : RouteStatuses :=
  if bool_decide (keyword = []) then rs else filter (fun '(alias, _) => MatchFold keyword alias = true) rs.

Definition aggregateStatuses (entries : list StatusByAlias) (query : Values) : result Empty_set (Z * list RouteAggregate) :=
  let limit := QueryInt query (B "limit") 0 in
  let offset := QueryInt query (B "offset") 0 in
  let statuses := filter_keyword (query_Get query (B "keyword")) (collect entries) in
  result ← aggregate statuses limit offset;
  Ok (Z.of_nat (size statuses), result).

(** *** Every sample is counted *)

Lemma collect_from entries : forall rs alias,
  fold_left add_entry entries rs !! alias =
    match default [] (rs !! alias) ++ omap (fun e => entry_status (sa_Timestamp e) <$> sa_Map e !! alias) entries, rs !! alias with
    | [], None => None
    | l, _ => Some l
    end.
Proof.
  induction entries as [|e entries IH]; intros rs alias; cbn [fold_left omap list_omap].
  - rewrite app_nil_r. by destruct (rs !! alias) as [[]|].
  - rewrite IH. unfold add_entry. rewrite lookup_merge.
    destruct (rs !! alias) as [l|] eqn:E1, (sa_Map e !! alias) as [h|] eqn:E2; cbn [diag_None default fmap option_fmap option_map from_option id];
      rewrite <- ?app_assoc; try done; by destruct l.
Qed.

(** The statuses of an alias are those of the samples that have it, in their
    order. *)
Lemma collect_lookup entries alias :
  collect entries !! alias =
    match omap (fun e => entry_status (sa_Timestamp e) <$> sa_Map e !! alias) entries with [] => None | l => Some l end.
Proof. unfold collect. rewrite collect_from, lookup_empty. cbn [default from_option app]. by destruct (omap _ _). Qed.

(** *** Ratios *)

Definition known (s : Status) : bool := negb (st_Status s =? StatusUnknown).
Definition is_up (s : Status) : bool := st_Status s =? StatusHealthy.
Definition is_idle (s : Status) : bool := negb (is_up s) && Idling (st_Status s).
Definition is_down (s : Status) : bool := known s && negb (is_up s) && negb (is_idle s).

Definition count (f : Status -> bool) (l : list Status) : Z := Z.of_nat (length (List.filter f l)).

Lemma count_cons f s l : count f (s :: l) = (if f s then 1 else 0) + count f l.
Proof. unfold count. simpl. destruct (f s); simpl; lia. Qed.

Lemma count_bound f l : 0 <= count f l <= Z.of_nat (length l).
Proof. unfold count. pose proof (filter_length_le f l). lia. Qed.

(** Counting in float32 is exact as long as the ring of [Period] can last. *)
Lemma f32_succ n : 0 <= n <= maxEntries -> f32_add (float32 n) one = float32 (n + 1).
Proof.
  assert (H : map (fun n => f32_add (float32 (Z.of_nat n)) one) (seq 0 101) = map (fun n => float32 (Z.of_nat n + 1)) (seq 0 101)) by (by vm_compute).
  intros Hn. unfold maxEntries in Hn. apply (f_equal (fun l => l !! Z.to_nat n)) in H.
  rewrite !list_lookup_fmap, lookup_seq_lt in H by lia. simpl in H. injection H as H. by rewrite Z2Nat.id in H by lia.
Qed.

Lemma kinds s :
  (is_up s, is_idle s, is_down s, known s) =
    if st_Status s =? StatusUnknown then (false, false, false, false)
    else if st_Status s =? StatusHealthy then (true, false, false, true)
    else if Idling (st_Status s) then (false, true, false, true) else (false, false, true, true).
Proof.
  unfold is_down, is_idle, is_up, known. destruct (Z.eqb_spec (st_Status s) StatusUnknown) as [->|E]; [done|].
  destruct (st_Status s =? StatusHealthy); [done|]. by destruct (Idling (st_Status s)).
Qed.

Lemma tally_exact l : forall u d i t lat,
  0 <= u -> 0 <= d -> 0 <= i -> 0 <= t -> u + Z.of_nat (length l) <= maxEntries -> d + Z.of_nat (length l) <= maxEntries ->
  i + Z.of_nat (length l) <= maxEntries -> t + Z.of_nat (length l) <= maxEntries ->
  fold_left tally_status l {| ty_up := float32 u; ty_down := float32 d; ty_idle := float32 i; ty_total := float32 t; ty_latency := lat |} =
  {| ty_up := float32 (u + count is_up l); ty_down := float32 (d + count is_down l); ty_idle := float32 (i + count is_idle l);
     ty_total := float32 (t + count known l);
     ty_latency := fold_left (fun a s => f32_add a (float32 (st_Latency s))) (List.filter known l) lat |}.
Proof.
  induction l as [|s l IH]; intros u d i t lat Hu Hd Hi Ht Lu Ld Li Lt; [by rewrite !Z.add_0_r|].
  rewrite !count_cons. cbn [fold_left List.filter length] in *. unfold tally_status at 2. pose proof (kinds s) as Hk.
  destruct (st_Status s =? StatusUnknown); [injection Hk as -> -> -> ->; rewrite !Z.add_0_l; by rewrite IH by lia|].
  destruct (st_Status s =? StatusHealthy); [|destruct (Idling (st_Status s))]; injection Hk as -> -> -> ->;
    cbn [ty_up ty_down ty_idle ty_total ty_latency]; rewrite !f32_succ by lia; rewrite IH by lia; f_equal; f_equal; lia.
Qed.

Definition zeros4 := (zero, zero, zero, zero).

Lemma f32_zero_iff n : 0 <= n <= maxEntries -> SFeqb (float32 n) zero = (n =? 0).
Proof.
  assert (H : map (fun n => SFeqb (float32 (Z.of_nat n)) zero) (seq 0 101) = map (fun n => Z.of_nat n =? 0) (seq 0 101)) by (by vm_compute).
  intros Hn. unfold maxEntries in Hn. apply (f_equal (fun l => l !! Z.to_nat n)) in H.
  rewrite !list_lookup_fmap, lookup_seq_lt in H by lia. simpl in H. injection H as H. by rewrite Z2Nat.id in H by lia.
Qed.

Definition in_unit (x : spec_float) : bool := SFleb zero x && SFleb x one.

Lemma ratio_in_unit k t : 0 <= k <= t -> 0 < t <= maxEntries -> in_unit (f32_div (float32 k) (float32 t)) = true.
Proof.
  assert (H : forallb (fun t => forallb (fun k => in_unit (f32_div (float32 (Z.of_nat k)) (float32 (Z.of_nat t)))) (seq 0 (S t))) (seq 1 100) = true)
    by (by vm_compute).
  intros Hk Ht. unfold maxEntries in Ht. rewrite forallb_forall in H. specialize (H (Z.to_nat t)). rewrite forallb_forall in H.
  specialize (H ltac:(apply in_seq; lia) (Z.to_nat k) ltac:(apply in_seq; lia)). by rewrite !Z2Nat.id in H by lia.
Qed.

Lemma counts_total l : count is_up l + count is_down l + count is_idle l = count known l.
Proof.
  induction l as [|s l IH]; [done|]. rewrite !count_cons. pose proof (kinds s) as Hk.
  destruct (st_Status s =? StatusUnknown); [|destruct (st_Status s =? StatusHealthy); [|destruct (Idling (st_Status s))]];
    injection Hk as -> -> -> ->; lia.
Qed.

(** Of at most as many statuses as a period keeps, the ratios are those of the
    exact counts among the statuses that are known, each lies between 0 and 1,
    and the counts add up: no status is left out or counted twice. *)
Theorem uptime_exact l :
  Z.of_nat (length l) <= maxEntries ->
  let t := count known l in
  let avg := fold_left (fun a s => f32_add a (float32 (st_Latency s))) (List.filter known l) zero in
  count is_up l + count is_down l + count is_idle l = t /\
  (t = 0 -> calculateInfo l = zeros4) /\
  (0 < t -> calculateInfo l = (f32_div (float32 (count is_up l)) (float32 t), f32_div (float32 (count is_down l)) (float32 t),
                               f32_div (float32 (count is_idle l)) (float32 t), f32_div avg (float32 t)) /\
    forallb (fun f => in_unit (f32_div (float32 (count f l)) (float32 t))) [is_up; is_down; is_idle] = true).
Proof.
  intros Hl t avg. pose proof (counts_total l) as Hsum. fold t in Hsum.
  pose proof (count_bound is_up l). pose proof (count_bound is_down l). pose proof (count_bound is_idle l). pose proof (count_bound known l) as Hk.
  fold t in Hk.
  assert (Hc : l <> [] -> calculateInfo l = if t =? 0 then zeros4 else
    (f32_div (float32 (count is_up l)) (float32 t), f32_div (float32 (count is_down l)) (float32 t),
     f32_div (float32 (count is_idle l)) (float32 t), f32_div avg (float32 t))).
  { intros Hne. assert (calculateInfo l = let t := fold_left tally_status l no_tally in
      if SFeqb (ty_total t) zero then zeros4
      else (f32_div (ty_up t) (ty_total t), f32_div (ty_down t) (ty_total t), f32_div (ty_idle t) (ty_total t),
            f32_div (ty_latency t) (ty_total t))) as -> by (by destruct l).
    change no_tally with {| ty_up := float32 0; ty_down := float32 0; ty_idle := float32 0; ty_total := float32 0; ty_latency := zero |}.
    rewrite tally_exact by lia. cbv zeta. cbn [ty_up ty_down ty_idle ty_total ty_latency]. rewrite !Z.add_0_l.
    fold t. fold avg. by rewrite f32_zero_iff by lia. }
  split; [done|]. split.
  - intros Ht. destruct (decide (l = [])) as [E|E]; [by rewrite E|]. rewrite Hc by done. by rewrite Ht.
  - intros Ht. assert (l <> []) by (intros ->; subst t; done). rewrite Hc by done. rewrite (proj2 (Z.eqb_neq t 0)) by lia. split; [done|].
    cbn [forallb]. rewrite !ratio_in_unit by lia. done.
Qed.

(** *** Pages *)

Lemma sorted_aliases_length rs : length (sorted_aliases rs) = size rs.
Proof. unfold sorted_aliases. by rewrite sort_strings_perm, <- size_dom. Qed.

(** The page a query asks for, and exactly when the slice is out of bounds. *)
Lemma aggregate_page rs limit offset :
  MinInt64 <= limit <= MaxInt64 -> MinInt64 <= offset <= MaxInt64 -> Z.of_nat (size rs) < 2 ^ 62 ->
  let n := Z.of_nat (size rs) in
  aggregate rs limit offset =
    if (n =? 0) || (n <=? offset) then Ok []
    else if (offset <? 0) || (limit <? 0) || (MaxInt64 <? offset + limit) then Panic SliceOutOfBounds
    else Ok (map (aggregate_route rs) (take (Z.to_nat (if limit =? 0 then n else limit)) (drop (Z.to_nat offset) (sorted_aliases rs)))).
Proof.
  intros Hl Ho Hn n. unfold MinInt64, MaxInt64 in *. unfold aggregate, CalculateBeginEnd. fold n. fold n in Hn.
  destruct ((n =? 0) || (n <=? offset)) eqn:E0; [done|]. reflect.
  assert (Hlen : Z.of_nat (length (sorted_aliases rs)) = n) by (by rewrite sorted_aliases_length).
  unfold slice_aliases. rewrite Hlen.
  destruct (Z.ltb_spec offset 0) as [Hneg|Hpos]; cbn [orb].
  { rewrite (proj2 (Z.leb_gt 0 offset)) by lia. done. }
  rewrite (proj2 (Z.leb_le 0 offset)) by lia. cbn [andb].
  set (lim := if limit =? 0 then n else limit).
  destruct (Z.ltb_spec limit 0) as [Hlneg|Hlpos]; cbn [orb].
  { assert (lim = limit) as -> by (unfold lim; destruct (Z.eqb_spec limit 0); lia).
    assert (W : wrap64 (offset + limit) = offset + limit) by (unfold wrap64; rewrite Z.mod_small; lia).
    rewrite W, (proj2 (Z.ltb_ge n (offset + limit))) by lia. rewrite W.
    rewrite (proj2 (Z.leb_gt offset (offset + limit))) by lia. done. }
  destruct (Z.ltb_spec 9223372036854775807 (offset + limit)) as [Hov|Hov].
  { assert (lim = limit) as -> by (unfold lim; destruct (Z.eqb_spec limit 0); lia).
    assert (W : wrap64 (offset + limit) = offset + limit - 2 ^ 64).
    { unfold wrap64. replace (offset + limit + 2 ^ 63) with ((offset + limit + 2 ^ 63 - 2 ^ 64) + 1 * 2 ^ 64) by lia.
      rewrite Z_mod_plus_full, Z.mod_small; lia. }
    rewrite W, (proj2 (Z.ltb_ge n (offset + limit - 2 ^ 64))) by lia. rewrite W.
    rewrite (proj2 (Z.leb_gt offset (offset + limit - 2 ^ 64))) by lia. done. }
  assert (Hlim : 0 < lim /\ offset + lim < 2 ^ 63) by (unfold lim; destruct (Z.eqb_spec limit 0); lia).
  assert (W : wrap64 (offset + lim) = offset + lim) by (unfold wrap64; rewrite Z.mod_small; lia). rewrite W.
  assert (W2 : wrap64 (n - offset) = n - offset) by (unfold wrap64; rewrite Z.mod_small; lia). rewrite W2.
  destruct (Z.ltb_spec n (offset + lim)) as [Hb|Hb].
  - replace (offset + (n - offset)) with n by lia. assert (wrap64 n = n) as -> by (unfold wrap64; rewrite Z.mod_small; lia).
    rewrite (proj2 (Z.leb_le offset n)), Z.leb_refl by lia. cbn [andb mbind result_bind]. do 2 f_equal.
    rewrite !firstn_all2; [done|rewrite length_drop; lia..].
  - rewrite W. rewrite (proj2 (Z.leb_le offset (offset + lim))), (proj2 (Z.leb_le (offset + lim) n)) by lia. cbn [andb mbind result_bind].
    do 3 f_equal. lia.
Qed.

Lemma ParseUint_loop_nonneg s : forall n un, 0 <= n -> ParseUint_loop s n = Num un -> 0 <= un.
Proof.
  induction s as [|c s IH]; intros n un Hn; simpl; [by intros [= <-]|]. destruct (is_digit c) eqn:Ed; simpl; [|done].
  destruct (_ <=? n); [done|]. destruct (_ <? _); [done|]. apply IH. unfold is_digit, within in Ed. reflect. lia.
Qed.

(** Whatever the query says, the numbers are 64-bit integers. *)
Lemma QueryInt_range query key d : MinInt64 <= d <= MaxInt64 -> MinInt64 <= QueryInt query key d <= MaxInt64.
Proof.
  intros Hd. unfold QueryInt. destruct (_ =? 0); [done|]. unfold Atoi_value.
  destruct (match query_Get query key with "-"%char :: s' => (true, s') | "+"%char :: s' => (false, s') | _ => (false, query_Get query key) end) as [neg digits].
  unfold MinInt64, MaxInt64. destruct digits as [|c digits]; [lia|].
  destruct (ParseUint_loop (c :: digits) 0) as [un| |] eqn:E; [|destruct neg; lia|lia]. apply ParseUint_loop_nonneg in E; [|lia].
  destruct neg; [destruct (Z.ltb_spec (- -9223372036854775808) un); lia|destruct (Z.leb_spec (- -9223372036854775808) un); lia].
Qed.

(** C40: what a query for the uptime answers: the page that [limit] and [offset] ask
    for among the sorted aliases that match, with the number of all that match,
    each with its samples in order; and exactly when the request panics. *)
Theorem uptime_query_exact entries query :
  let rs := filter_keyword (query_Get query (B "keyword")) (collect entries) in
  let n := Z.of_nat (size rs) in
  let limit := QueryInt query (B "limit") 0 in
  let offset := QueryInt query (B "offset") 0 in
  n < 2 ^ 62 ->
  aggregateStatuses entries query =
    (if (n =? 0) || (n <=? offset) then Ok (n, [])
     else if (offset <? 0) || (limit <? 0) || (MaxInt64 <? offset + limit) then Panic SliceOutOfBounds
     else Ok (n, map (aggregate_route rs) (take (Z.to_nat (if limit =? 0 then n else limit)) (drop (Z.to_nat offset) (sorted_aliases rs))))) /\
  (forall alias l, rs !! alias = Some l -> l = omap (fun e => entry_status (sa_Timestamp e) <$> sa_Map e !! alias) entries).
Proof.
  intros rs n limit offset Hn. split.
  - unfold aggregateStatuses. fold rs limit offset. rewrite aggregate_page; [|apply QueryInt_range; by vm_compute|apply QueryInt_range; by vm_compute|done].
    fold n. destruct (_ || (n <=? offset)); [done|]. by destruct (_ || _).
  - intros alias l. unfold rs, filter_keyword. destruct (bool_decide _); [|rewrite map_lookup_filter_Some; intros [H _]; revert H];
      rewrite collect_lookup; by destruct (omap _ _); intros [= <-].
Qed.

Lemma take_pages {A} (l : list A) (k m : nat) : concat (map (fun i => take k (drop (i * k) l)) (seq 0 m)) = take (m * k) l.
Proof.
  induction m as [|m IH]; [done|]. rewrite seq_S, map_app, concat_app, IH. cbn [map concat]. rewrite app_nil_r. simpl.
  rewrite <- (take_drop (m * k) (take (k + m * k) l)). rewrite take_take, Nat.min_l by lia. f_equal.
  rewrite skipn_firstn_comm. f_equal. lia.
Qed.

(** Reading page after page gives every alias exactly once, in order. *)
Theorem pages_complete rs limit pages :
  0 < limit <= MaxInt64 -> Z.of_nat (size rs) < 2 ^ 62 -> Z.of_nat (size rs) <= limit * Z.of_nat pages ->
  limit * Z.of_nat pages <= 2 ^ 62 ->
  let page i := aggregate rs limit (Z.of_nat i * limit) in
  (forall i, (i < pages)%nat -> is_Ok (page i) = true) /\
  concat (map (fun i => match page i with Ok l => map ra_Alias l | _ => [] end) (seq 0 pages)) = sorted_aliases rs /\
  sorted_aliases rs ≡ₚ elements (dom rs).
Proof.
  intros Hl Hn Hp Hb page.
  assert (Hpage : forall i, (i < pages)%nat -> page i = Ok (map (aggregate_route rs) (take (Z.to_nat limit) (drop (i * Z.to_nat limit) (sorted_aliases rs))))).
  { intros i Hi. unfold page. rewrite aggregate_page by (unfold MinInt64, MaxInt64 in *; nia).
    assert (Ei : Z.to_nat (Z.of_nat i * limit) = (i * Z.to_nat limit)%nat) by lia. rewrite Ei.
    destruct (_ || (_ <=? Z.of_nat i * limit)) eqn:E.
    - rewrite drop_ge; [by rewrite take_nil|]. rewrite sorted_aliases_length. apply orb_true_iff in E as [E|E]; reflect; nia.
    - assert (limit * Z.of_nat (S i) <= 2 ^ 62) by nia.
      rewrite (proj2 (Z.ltb_ge (Z.of_nat i * limit) 0)), (proj2 (Z.ltb_ge limit 0)), (proj2 (Z.ltb_ge MaxInt64 _)) by (unfold MaxInt64; nia).
      cbn [orb]. by rewrite (proj2 (Z.eqb_neq limit 0)) by lia. }
  assert (Halias : forall l, map ra_Alias (map (aggregate_route rs) l) = l).
  { intros l. rewrite map_map. rewrite <- (map_id l) at 2. apply map_ext. intros a. unfold aggregate_route. by destruct (calculateInfo _) as [[[]]]. }
  split; [intros i Hi; by rewrite Hpage|]. split; [|apply sort_strings_perm].
  erewrite map_ext_in; [|intros i Hi; apply in_seq in Hi; rewrite Hpage by lia; rewrite Halias; reflexivity].
  rewrite take_pages. apply firstn_all2. rewrite sorted_aliases_length. nia.
Qed.

End Uptime.

(** ** System information *)

Record IOCountersStat := {
  io_ReadBytes : Z; io_WriteBytes : Z; io_ReadCount : Z; io_WriteCount : Z;
  io_ReadSpeed : spec_float; io_WriteSpeed : spec_float; io_Iops : Z
}.

Record NetCounters := { nc_BytesSent : Z; nc_BytesRecv : Z; nc_UploadSpeed : spec_float; nc_DownloadSpeed : spec_float }.

(** The usage of memory, with what [UsedPercent] says of it. *)
Record MemoryStat := { mem_Used : Z; mem_UsedPercent : spec_float }.

(** [None] where the pointer, map or slice is nil. *)
Record SystemInfo := {
  si_Timestamp : Z;
  si_CPUAverage : option spec_float;
  si_Memory : MemoryStat;
  si_Disks : option (gmap bytes Z);                                  (* bytes used by device *)
  si_DisksIO : option (gmap bytes (option IOCountersStat));
  si_Network : NetCounters;
  si_Sensors : option (list (bytes * spec_float))
}.

Definition no_mem : MemoryStat := {| mem_Used := 0; mem_UsedPercent := zero |}.
Definition no_net : NetCounters := {| nc_BytesSent := 0; nc_BytesRecv := 0; nc_UploadSpeed := zero; nc_DownloadSpeed := zero |}.

Definition uint64 (z : Z) : Z := z mod 2 ^ 64.

Definition diff (x y : Z) : Z := if y <? x then x - y else y - x.

Definition since (now last : Z) : Z :=
  if now <? last then 1 else if last =? now then 1 else now - last.

(** What a collector returns besides its data: warnings of gopsutil, each being
    "no data" or not, or another error. *)
Inductive collect_error := Warnings (no_data : list bool) | OtherError.

(** One disk, given its last counters and the seconds since. *)
Definition disk_speeds (interval : Z) (disk lastUsage : IOCountersStat) : IOCountersStat :=
  {| io_ReadBytes := io_ReadBytes disk; io_WriteBytes := io_WriteBytes disk; io_ReadCount := io_ReadCount disk; io_WriteCount := io_WriteCount disk;
     io_ReadSpeed := f32_div (float32 (uint64 (io_ReadBytes disk - io_ReadBytes lastUsage))) (float32 interval);
     io_WriteSpeed := f32_div (float32 (uint64 (io_WriteBytes disk - io_WriteBytes lastUsage))) (float32 interval);
     io_Iops := diff (uint64 (io_ReadCount disk + io_WriteCount disk)) (uint64 (io_ReadCount lastUsage + io_WriteCount lastUsage)) / interval |}.

(** gopsutil's counters are not nil; those of the last result are the ones
    collected before. *)
Definition disks_io (interval : Z) (last : option (gmap bytes (option IOCountersStat))) (io : gmap bytes IOCountersStat)
  : gmap bytes (option IOCountersStat) :=
  map_imap (fun name d => Some (match default ∅ last !! name with
                                | Some (Some l) => Some (disk_speeds interval d l)
                                | _ => Some d
                                end)) io.

(** What the operating system answers to one poll. *)
Record os_answers := {
  os_cpu : collect_error + spec_float;
  os_mem : collect_error + MemoryStat;
  os_io : collect_error + gmap bytes IOCountersStat;
  os_partitions : collect_error + list (bytes * option Z);        (* device, and what its usage says *)
  os_net : collect_error + NetCounters;
  os_sensors : collect_error + list (bytes * spec_float)
}.

Definition collectDisksInfo (now : Z) (lastResult : option SystemInfo) (o : os_answers)
  : option (gmap bytes (option IOCountersStat)) * option (gmap bytes Z) * option collect_error :=
  match os_io o with
  | inl e => (None, None, Some e)
  | inr io =>
      let dio := match lastResult with
                 | Some l => disks_io (since now (si_Timestamp l)) (si_DisksIO l) io
                 | None => Some <$> io
                 end in
      match os_partitions o with
      | inl e => (Some dio, None, Some e)
      | inr ps =>
          let disks := fold_left (fun m '(dev, u) => match u with Some u => <[dev := u]> m | None => m end) ps (∅ : gmap bytes Z) in
          let failed := existsb (fun '(_, u) => bool_decide (u = @None Z)) ps in
          (Some dio, Some disks, if failed && bool_decide (disks = ∅) then Some OtherError else None)
      end
  end.

Definition collectNetworkInfo (now : Z) (lastResult : option SystemInfo) (o : os_answers) : NetCounters * option collect_error :=
  match os_net o with
  | inl e => (no_net, Some e)
  | inr n =>
      (match lastResult with
       | None => n
       | Some l =>
           let interval := float32 (since now (si_Timestamp l)) in
           {| nc_BytesSent := nc_BytesSent n; nc_BytesRecv := nc_BytesRecv n;
              nc_UploadSpeed := f32_div (float32 (uint64 (nc_BytesSent n - nc_BytesSent (si_Network l)))) interval;
              nc_DownloadSpeed := f32_div (float32 (uint64 (nc_BytesRecv n - nc_BytesRecv (si_Network l)))) interval |}
       end, None)
  end.

(** Which metrics the environment disables. *)
Record disabled := { dis_CPU : bool; dis_Memory : bool; dis_Disk : bool; dis_Network : bool; dis_Sensors : bool }.

Definition err_of {A} (r : collect_error + A) : list collect_error := match r with inl e => [e] | inr _ => [] end.
Definition val_of {A} (r : collect_error + A) : option A := match r with inl _ => None | inr a => Some a end.

Definition collectCPUInfo (o : os_answers) : option spec_float * list collect_error := (val_of (os_cpu o), err_of (os_cpu o)).
Definition collectMemoryInfo (o : os_answers) : option MemoryStat * list collect_error := (val_of (os_mem o), err_of (os_mem o)).
Definition collectSensorsInfo (o : os_answers) : option (list (bytes * spec_float)) * list collect_error := (val_of (os_sensors o), err_of (os_sensors o)).

(** The collectors run concurrently on different fields.  [None]: the poll fails;
    the second result: whether warnings are logged. *)
Definition getSystemInfo (dis : disabled) (now : Z) (lastResult : option SystemInfo) (o : os_answers) : option SystemInfo * bool :=
  let '(dio, disks, derr) := if dis_Disk dis then (None, None, None) else collectDisksInfo now lastResult o in
  let '(net, nerr) := if dis_Network dis then (no_net, None) else collectNetworkInfo now lastResult o in
  let s := {| si_Timestamp := now;
              si_CPUAverage := if dis_CPU dis then None else fst (collectCPUInfo o);
              si_Memory := if dis_Memory dis then no_mem else default no_mem (fst (collectMemoryInfo o));
              si_Disks := disks; si_DisksIO := dio; si_Network := net;
              si_Sensors := if dis_Sensors dis then None else fst (collectSensorsInfo o) |} in
  let errs := (if dis_CPU dis then [] else snd (collectCPUInfo o)) ++ (if dis_Memory dis then [] else snd (collectMemoryInfo o)) ++
              option_list derr ++ option_list nerr ++ (if dis_Sensors dis then [] else snd (collectSensorsInfo o)) in
  let warns := existsb (fun e => match e with Warnings l => existsb negb l | OtherError => false end) errs in
  (if existsb (fun e => match e with OtherError => true | _ => false end) errs then None else Some s, warns).

Inductive AggregateMode :=
  | CPUAverage | MemoryUsage | MemoryUsagePercent | DisksReadSpeed | DisksWriteSpeed | DisksIOPS | DiskUsage
  | NetworkSpeed | NetworkTransfer | SensorTemperature.

Definition mode_names : list (bytes * AggregateMode) :=
  [(B "cpu_average", CPUAverage); (B "memory_usage", MemoryUsage); (B "memory_usage_percent", MemoryUsagePercent);
   (B "disks_read_speed", DisksReadSpeed); (B "disks_write_speed", DisksWriteSpeed); (B "disks_iops", DisksIOPS);
   (B "disk_usage", DiskUsage); (B "network_speed", NetworkSpeed); (B "network_transfer", NetworkTransfer);
   (B "sensor_temperature", SensorTemperature)].

Definition parse_mode (s : bytes) : option AggregateMode := snd <$> List.find (fun '(n, _) => bool_decide (n = s)) mode_names.

Inductive metric := MInt (z : Z) | MFloat (f : spec_float).
Abbreviation row := (gmap bytes metric).

Definition stamp (e : SystemInfo) (m : row) : row := <[B "timestamp" := MInt (si_Timestamp e)]> m.

(** A value of every disk; the counters are pointers. *)
Definition disk_row (e : SystemInfo) (f : IOCountersStat -> metric) : result Empty_set (option row) :=
  match si_DisksIO e with
  | None => Ok None
  | Some io =>
      m ← foldM (fun (m : row) '(name, u) => match u with Some u => Ok (<[name := f u]> m) | None => Panic NilDereference end) ∅ (map_to_list io);
      Ok (Some (stamp e m))
  end.

(** What an entry adds, if anything. *)
Definition entry_row (mode : AggregateMode) (e : SystemInfo) : result Empty_set (option row) :=
  let pair name v := <[B name := v]> (<[B "timestamp" := MInt (si_Timestamp e)]> ∅) in
  match mode with
  | CPUAverage => Ok (match si_CPUAverage e with Some c => Some (pair "cpu_average" (MFloat c)) | None => None end)
  | MemoryUsage => Ok (if 0 <? mem_Used (si_Memory e) then Some (pair "memory_usage" (MInt (mem_Used (si_Memory e)))) else None)
  | MemoryUsagePercent =>
      let percent := mem_UsedPercent (si_Memory e) in
      Ok (if SFltb zero percent then Some (pair "memory_usage_percent" (MFloat percent)) else None)
  | DisksReadSpeed => disk_row e (fun u => MFloat (io_ReadSpeed u))
  | DisksWriteSpeed => disk_row e (fun u => MFloat (io_WriteSpeed u))
  | DisksIOPS => disk_row e (fun u => MInt (io_Iops u))
  | DiskUsage => Ok (match si_Disks e with Some ds => Some (stamp e (MInt <$> ds)) | None => None end)
  | NetworkSpeed =>
      let n := si_Network e in
      Ok (if (nc_BytesSent n =? 0) && (nc_BytesRecv n =? 0) then None
          else Some (<[B "upload" := MFloat (nc_UploadSpeed n)]> (pair "download" (MFloat (nc_DownloadSpeed n)))))
  | NetworkTransfer =>
      let n := si_Network e in
      Ok (if (0 <? nc_BytesRecv n) || (0 <? nc_BytesSent n)
          then Some (<[B "upload" := MInt (nc_BytesSent n)]> (pair "download" (MInt (nc_BytesRecv n)))) else None)
  | SensorTemperature =>
      Ok (match si_Sensors e with
          | Some l => Some (stamp e (fold_left (fun (m : row) '(k, t) => <[k := MFloat t]> m) l ∅))
          | None => None
          end)
  end.

(** Entries that were loaded may be nil. *)
Definition sys_aggregate (entries : list (option SystemInfo)) (query : Values) : result Empty_set (Z * list row) :=
  match parse_mode (query_Get query (B "aggregate")) with
  | None => Ok (-1, [])
  | Some mode =>
      rows ← foldM (fun rows e =>
        match e with
        | None => Panic NilDereference
        | Some e => r ← entry_row mode e; Ok (rows ++ option_list r)
        end) [] entries;
      Ok (Z.of_nat (length rows), rows)
  end.

(** ** The handler *)

Inductive resp_error := InvalidPeriod | BadRequest.

Section Handler.
Context {T AggregateT : Type}.
Variables (zeroT : T) (aggregator : list T -> Values -> result Empty_set (Z * AggregateT)).

Inductive resp_data := LastResult (r : T) | Aggregated (total : Z) (data : AggregateT).

Definition GetRespData (p : Poller (T := T)) (period : bytes) (query : Values) : result resp_error resp_data :=
  if bool_decide (period = []) then Ok (LastResult (po_lastResult p))
  else
    match Period_Get zeroT (po_period p) period with
    | Panic e => Panic e
    | Err e => match e with end
    | Ok (rangeData, ok) =>
        if negb ok then Err InvalidPeriod
        else match aggregator rangeData query with
             | Panic e => Panic e
             | Err e => match e with end
             | Ok (total, aggregated) => if total =? -1 then Err BadRequest else Ok (Aggregated total aggregated)
             end
    end.

(** [data == nil]: an interface that holds a value of a type is not nil, be it a
    nil pointer. *)
Definition is_nil (d : resp_data) : bool := false.

Inductive http_answer := BadRequest400 (e : resp_error) | NoContent204 | OK200 (d : resp_data).

(** The handler without a websocket. *)
Definition ServeHTTP (p : Poller (T := T)) (query : Values) : result Empty_set http_answer :=
  match GetRespData p (query_Get query (B "period")) query with
  | Panic e => Panic e
  | Err e => Ok (BadRequest400 e)
  | Ok d => Ok (if is_nil d then NoContent204 else OK200 d)
  end.

(** The interval of a websocket. *)
Definition ws_interval (ParseDuration : bytes -> Z) (query : Values) : Z :=
  let interval := QueryDuration ParseDuration query (B "interval") 0 in
  if interval <? PollInterval then PollInterval else interval.

(** A period that is not kept is refused, and no other request is; 204 is never
    sent. *)
Lemma GetRespData_invalid p period query :
  GetRespData p period query = Err InvalidPeriod <-> period <> [] /\ po_period p !! period = None.
Proof.
  unfold GetRespData, Period_Get. case_bool_decide as Hp; [split; [done|naive_solver]|].
  destruct (po_period p !! period) as [o|]; [|naive_solver].
  split; [|naive_solver]. destruct (deref _ o) as [l| |] eqn:E; simpl; try done. destruct (aggregator l query) as [[t a]| |]; simpl; [|by destruct e|done].
  by destruct (t =? -1).
Qed.

End Handler.

(** ** What system information promises *)

Lemma since_pos now last : 1 <= since now last.
Proof. unfold since. destruct (Z.ltb_spec now last); [lia|]. destruct (Z.eqb_spec last now); lia. Qed.

Lemma entries_fold mode es : forall rows,
  Forall (fun e => forall io, si_DisksIO e = Some io -> map_Forall (fun _ u => is_Some u) io) es ->
  exists rs, foldM (fun rows e => match e with None => Panic NilDereference | Some e => r ← entry_row mode e; Ok (rows ++ option_list r) end)
    rows (Some <$> es) = Ok (E := Empty_set) (rows ++ rs) /\
    Forall2 (fun e r => entry_row mode e = Ok (Some r)) (List.filter (fun e => match entry_row mode e with Ok (Some _) => true | _ => false end) es) rs.
Proof.
  induction es as [|e es IH]; intros rows Hall; [exists []; simpl; by rewrite app_nil_r|].
  apply Forall_cons in Hall as [He Hall]. cbn [fmap list_fmap foldM List.filter].
  assert (Hr : exists r, entry_row mode e = Ok r).
  { assert (Hd : forall f, exists r, disk_row e f = Ok r).
    { intros f. unfold disk_row. destruct (si_DisksIO e) as [io|] eqn:Eio; [|by eexists]. specialize (He io eq_refl).
      assert (Hm : forall l (m : row), Forall (fun kv => is_Some kv.2) l ->
        exists m', foldM (fun (m : row) '(name, u) => match u with Some u => Ok (<[name := f u]> m) | None => Panic NilDereference end) m l = Ok (E := Empty_set) m').
      { induction l as [|[k [u|]] l IHl]; intros m Hf; [by eexists|..]; apply Forall_cons in Hf as [Hu Hf]; [by apply IHl|by destruct Hu]. }
      destruct (Hm (map_to_list io) ∅) as [m' ->]; [|by eexists]. apply map_Forall_to_list in He. eapply Forall_impl; [exact He|]. by intros []. }
    destruct mode; simpl; eauto. }
  destruct Hr as [r Hr]. rewrite Hr. cbn [mbind result_bind]. destruct (IH (rows ++ option_list r) Hall) as (rs & -> & Hrs).
  exists (option_list r ++ rs). rewrite app_assoc. split; [done|]. destruct r; simpl; [|done]. by constructor.
Qed.

(** The rows are those of the entries that have the data, one each and in order;
    the total is their number.  Only an unknown mode is refused. *)
Theorem sys_aggregate_exact es query mode :
  parse_mode (query_Get query (B "aggregate")) = Some mode ->
  Forall (fun e => forall io, si_DisksIO e = Some io -> map_Forall (fun _ u => is_Some u) io) es ->
  exists rows, sys_aggregate (Some <$> es) query = Ok (Z.of_nat (length rows), rows) /\
    Forall2 (fun e r => entry_row mode e = Ok (Some r)) (List.filter (fun e => match entry_row mode e with Ok (Some _) => true | _ => false end) es) rows.
Proof.
  intros Hm Hall. unfold sys_aggregate. rewrite Hm. destruct (entries_fold mode es [] Hall) as (rs & -> & Hrs). by exists rs.
Qed.

(** Every row carries the time of its entry, whatever the disks and sensors are
    called. *)
Lemma row_timestamp mode e r : entry_row mode e = Ok (Some r) -> r !! B "timestamp" = Some (MInt (si_Timestamp e)).
Proof.
  assert (Hd : forall f, disk_row e f = Ok (Some r) -> r !! B "timestamp" = Some (MInt (si_Timestamp e))).
  { intros f. unfold disk_row. destruct (si_DisksIO e); [|done]. destruct (foldM _ _ _); [|done..]. simpl. intros [= <-]. unfold stamp; by rewrite lookup_insert_eq. }
  destruct mode; unfold entry_row; eauto; repeat case_match; intros [= <-]; unfold stamp;
    repeat (rewrite lookup_insert_ne by (by vm_compute)); by rewrite lookup_insert_eq.
Qed.

Definition is_other (e : collect_error) : bool := match e with OtherError => true | _ => false end.

Lemma other_err {A} (r : collect_error + A) (d : bool) :
  existsb is_other (if d then [] else err_of r) = true <-> d = false /\ r = inl OtherError.
Proof. destruct d, r as [[]|]; simpl; naive_solver. Qed.

Lemma disks_of ps : forall m : gmap bytes Z,
  fold_left (fun m '(dev, u) => match u with Some u => <[dev := u]> m | None => m end) ps m = ∅ <-> m = ∅ /\ Forall (fun p => p.2 = None) ps.
Proof.
  induction ps as [|[dev [u|]] ps IH]; intros m; cbn [fold_left]; [naive_solver|..]; rewrite IH, Forall_cons; simpl.
  - split; [|naive_solver]. intros [E _]. by apply insert_non_empty in E.
  - naive_solver.
Qed.

Lemma disks_err now last o :
  existsb is_other (option_list (snd (collectDisksInfo now last o))) = true <->
    os_io o = inl OtherError \/ (exists io, os_io o = inr io) /\
      (os_partitions o = inl OtherError \/ exists ps, os_partitions o = inr ps /\ ps <> [] /\ Forall (fun p => p.2 = None) ps).
Proof.
  unfold collectDisksInfo. destruct (os_io o) as [[]|io]; simpl; [naive_solver..|].
  destruct (os_partitions o) as [[]|ps]; simpl; [naive_solver..|].
  assert (Hps : existsb (fun '(_, u) => bool_decide (u = @None Z)) ps &&
    bool_decide (fold_left (fun m '(dev, u) => match u with Some u => <[dev := u]> m | None => m end) ps (∅ : gmap bytes Z) = ∅) = true <->
    ps <> [] /\ Forall (fun p => p.2 = None) ps).
  { rewrite andb_true_iff, bool_decide_eq_true, disks_of. split.
    - intros [He [_ Hf]]. split; [by intros ->|done].
    - intros [Hne Hf]. split; [|done]. destruct ps as [|[dev u] ps]; [done|]. apply Forall_cons in Hf as [Hu _]. simpl in Hu. by rewrite Hu. }
  destruct (_ && _); simpl; naive_solver.
Qed.

(** A poll fails iff a collector that is enabled fails with more than warnings. *)
Theorem poll_fails_iff dis now last o :
  fst (getSystemInfo dis now last o) = None <->
    (dis_CPU dis = false /\ os_cpu o = inl OtherError) \/
    (dis_Memory dis = false /\ os_mem o = inl OtherError) \/
    (dis_Disk dis = false /\ (os_io o = inl OtherError \/ (exists io, os_io o = inr io) /\
       (os_partitions o = inl OtherError \/ exists ps, os_partitions o = inr ps /\ ps <> [] /\ Forall (fun p => p.2 = None) ps))) \/
    (dis_Network dis = false /\ os_net o = inl OtherError) \/
    (dis_Sensors dis = false /\ os_sensors o = inl OtherError).
Proof.
  rewrite <- (disks_err now last o). unfold getSystemInfo, collectCPUInfo, collectMemoryInfo, collectSensorsInfo. cbn [fst snd].
  assert (Hn : existsb is_other (option_list (snd (if dis_Network dis then (no_net, None) else collectNetworkInfo now last o))) = true <->
    dis_Network dis = false /\ os_net o = inl OtherError).
  { unfold collectNetworkInfo. destruct (dis_Network dis), (os_net o) as [[]|]; simpl; naive_solver. }
  rewrite <- Hn, <- !other_err.
  destruct (if dis_Network dis then _ else _) as [net nerr].
  assert (Hd : exists dio disks derr, (if dis_Disk dis then (None, None, None) else collectDisksInfo now last o) = (dio, disks, derr) /\
    (existsb is_other (option_list derr) = true <-> dis_Disk dis = false /\ existsb is_other (option_list (snd (collectDisksInfo now last o))) = true)).
  { destruct (dis_Disk dis); [by eexists _, _, _; simpl; naive_solver|]. destruct (collectDisksInfo now last o) as [[dio disks] derr].
    eexists _, _, _. split; [reflexivity|]. naive_solver. }
  destruct Hd as (dio & disks & derr & -> & <-). cbn [fst snd].
  change (fun e => match e with OtherError => true | _ => false end) with is_other. rewrite !existsb_app. rewrite <- !orb_true_iff.
  destruct (existsb is_other _ || _); naive_solver.
Qed.

(** A speed is the change of the counter per second, as long as the counter did
    not go back. *)
Theorem disk_speed_exact interval d l :
  0 <= io_ReadBytes d < 2 ^ 64 -> 0 <= io_ReadBytes l < 2 ^ 64 ->
  io_ReadSpeed (disk_speeds interval d l) =
    f32_div (float32 (if io_ReadBytes l <=? io_ReadBytes d then io_ReadBytes d - io_ReadBytes l else 2 ^ 64 + io_ReadBytes d - io_ReadBytes l)) (float32 interval).
Proof.
  intros Hd Hl. cbn [disk_speeds io_ReadSpeed]. do 2 f_equal. unfold uint64. destruct (Z.leb_spec (io_ReadBytes l) (io_ReadBytes d)).
  - apply Z.mod_small. lia.
  - replace (io_ReadBytes d - io_ReadBytes l) with ((2 ^ 64 + io_ReadBytes d - io_ReadBytes l) + (-1) * 2 ^ 64) by lia.
    rewrite Z_mod_plus_full. apply Z.mod_small. lia.
Qed.

(** ** Examples *)

Module MetricsDemo.

Definition st (s : Z) : Status := {| st_Status := s; st_Latency := 20; st_Timestamp := 0 |}.

Definition day : list Status := [st StatusHealthy; st StatusUnknown; st StatusHealthy; st StatusNapping; st StatusUnhealthy].

Lemma uptime_exact_witness :
  count known day = 4 /\ count is_up day + count is_down day + count is_idle day = 4 /\
  calculateInfo day = (f32_div (float32 2) (float32 4), f32_div (float32 1) (float32 4), f32_div (float32 1) (float32 4), float32 20).
Proof.
  destruct (uptime_exact day) as (Hs & _ & Hc); [by vm_compute|]. split; [done|]. split; [exact Hs|].
  destruct Hc as [Hc _]; [by vm_compute|]. rewrite Hc. by vm_compute.
Defined.

Definition two_routes : RouteStatuses := <[B "app" := [st StatusHealthy]]> (<[B "db" := [st StatusUnhealthy]]> ∅).

Definition no_route (_ : bytes) : option route_view := None.

Lemma two_routes_size : size two_routes = 2%nat.
Proof. unfold two_routes. rewrite !map_size_insert_None; [by rewrite map_size_empty|by rewrite lookup_empty|]. by rewrite lookup_insert_ne. Qed.

Definition two_samples : list StatusByAlias :=
  [{| sa_Map := <[B "app" := {| hi_Status := StatusHealthy; hi_Uptime := 0; hi_Latency := 20 * Millisecond |}]> ∅; sa_Timestamp := 1 |};
   {| sa_Map := <[B "app" := {| hi_Status := StatusUnhealthy; hi_Uptime := 0; hi_Latency := 0 |}]> ∅; sa_Timestamp := 2 |}].

Lemma two_samples_size : size (filter_keyword (fun _ _ => true) (query_Get {[B "offset" := [B "-1"]]} (B "keyword")) (collect two_samples)) = 1%nat.
Proof. by vm_compute. Qed.

(** A negative offset panics. *)
Lemma uptime_query_exact_witness :
  aggregateStatuses no_route no_route (fun _ _ => true) two_samples {[B "offset" := [B "-1"]]} = Panic SliceOutOfBounds.
Proof.
  destruct (uptime_query_exact no_route no_route (fun _ _ => true) two_samples {[B "offset" := [B "-1"]]}) as [H _];
    [rewrite two_samples_size; by vm_compute|]. rewrite two_samples_size in H. exact H.
Defined.

(** So does a limit that is too long to be a number, beyond the first page. *)
Example long_limit_panics :
  QueryInt {[B "limit" := [B "99999999999999999999"]]} (B "limit") 0 = MaxInt64 /\
  aggregate no_route no_route two_routes MaxInt64 1 = Panic SliceOutOfBounds.
Proof.
  split; [by vm_compute|]. rewrite aggregate_page by (rewrite ?two_routes_size; by vm_compute). by rewrite two_routes_size.
Qed.

Lemma pages_complete_witness :
  concat (map (fun i => match aggregate no_route no_route two_routes 1 (Z.of_nat i * 1) with Ok l => map ra_Alias l | _ => [] end) (seq 0 2)) =
  sorted_aliases two_routes.
Proof. apply (pages_complete no_route no_route two_routes 1 2); rewrite ?two_routes_size; by vm_compute. Defined.

Definition io (r : Z) : IOCountersStat :=
  {| io_ReadBytes := r; io_WriteBytes := 0; io_ReadCount := 0; io_WriteCount := 0; io_ReadSpeed := zero; io_WriteSpeed := zero; io_Iops := 0 |}.

(** The counters of a disk start again at zero: the speed is reported as 18
    exabytes per second. *)
Lemma disk_speed_exact_witness : io_ReadSpeed (disk_speeds 1 (io 0) (io 1000)) = f32_div (float32 (2 ^ 64 - 1000)) (float32 1).
Proof. apply (disk_speed_exact 1 (io 0) (io 1000)); by vm_compute. Defined.

Definition cpu_only (c : option spec_float) (t : Z) : SystemInfo :=
  {| si_Timestamp := t; si_CPUAverage := c; si_Memory := no_mem; si_Disks := None; si_DisksIO := None; si_Network := no_net; si_Sensors := None |}.

Definition cpu_query : Values := {[B "aggregate" := [B "cpu_average"]]}.

Lemma sys_aggregate_exact_witness :
  exists rows, sys_aggregate (Some <$> [cpu_only (Some one) 1; cpu_only None 2]) cpu_query = Ok (1, rows).
Proof.
  destruct (sys_aggregate_exact [cpu_only (Some one) 1; cpu_only None 2] cpu_query CPUAverage) as (rows & Hr & Hf);
    [by vm_compute|by repeat constructor|]. exists rows. rewrite Hr. apply Forall2_length in Hf. simpl in Hf. by rewrite <- Hf.
Defined.

(** Before the first poll the handler answers 200 with the nil pointer. *)
Example nil_result_served (p : Poller (T := option SystemInfo)) :
  po_lastResult p = None -> ServeHTTP None sys_aggregate p ∅ = Ok (OK200 (LastResult None)).
Proof. intros Hp. unfold ServeHTTP, GetRespData. simpl. by rewrite Hp. Qed.

End MetricsDemo.
