(* ===== verification/Icons.v ===== *)
(** * Icons of the homepage

    Models internal/homepage/icon_url.go, list_icons.go and favicon.go: the text
    of an icon and what it stands for, the lists of known icons, the search, and
    the way an icon of a route is found.

    The bodies of the two lists are given decoded, a JSON object in the order in
    which the code ranges over it; the map of icons is ranged over in any order.
    HTTP, HTML and the fuzzy search are parameters. *)

From stdpp Require Import sorting.
From Stdlib Require Import Sorted Permutation.
From S2P Require Import Prelude GoStrings GoSort.

(** The elements of a list one by one. *)
Ltac cases_in H :=
  repeat match type of H with
  | _ ∈ _ :: _ => apply elem_of_cons in H as [->|H]
  | _ ∈ [] => by apply not_elem_of_nil in H
  end.

(** ** The text of an icon *)

Definition IconSourceAbsolute : bytes := B "https://".
Definition IconSourceRelative : bytes := B "@target".
Definition IconSourceWalkXCode : bytes := B "@walkxcode".
Definition IconSourceSelfhSt : bytes := B "@selfhst".

Record IconExtra := {
  ix_Key : bytes;
  ix_Ref : bytes;
  ix_FileType : bytes;
  ix_IsLight : bool;
  ix_IsDark : bool
}.

Record IconURL := {
  iu_Source : bytes;
  iu_FullURL : option bytes;        (* only for absolute and relative icons *)
  iu_Extra : option IconExtra       (* only for icons of the lists *)
}.

Definition no_icon : IconURL := {| iu_Source := []; iu_FullURL := None; iu_Extra := None |}.

Definition NewIconKey (source reference : bytes) : bytes := source ++ "/"%char :: reference.

Definition SourceRef (k : bytes) : bytes * bytes := let '(source, ref, _) := Cut k "/" in (source, ref).

(** A reference without its suffix, and whether it was light or dark. *)
Definition variant (ref : bytes) : bytes * bool * bool :=
  match CutSuffix ref "-light" with
  | Some r => (r, true, false)
  | None => match CutSuffix ref "-dark" with
            | Some r => (r, false, true)
            | None => (ref, false, false)
            end
  end.

(** The variant of an icon from one of the lists. *)
Definition list_extra (source ref format : bytes) : IconExtra :=
  let '(r, light, dark) := variant ref in
  {| ix_Key := NewIconKey source r; ix_Ref := r; ix_FileType := format; ix_IsLight := light; ix_IsDark := dark |}.

Definition NewIconURL (source refOrName format : bytes) : result Empty_set IconURL :=
  if bool_decide (source = IconSourceWalkXCode) || bool_decide (source = IconSourceSelfhSt) then
    Ok {| iu_Source := source; iu_FullURL := None; iu_Extra := Some (list_extra source refOrName format) |}
  else Panic ExplicitPanic.

Inductive icon_error := InvalidIconURL | EmptyPath | BadReference | BadFormat | NoSuchIcon | BadPrefix.

Definition formats : list bytes := [B "svg"; B "png"; B "webp"].

Section Parse.

(** [strings.ToLower] outside ASCII, and [HasIcon]. *)
Context (unicode_lower : Z -> Z) (HasIcon : IconURL -> bool).

(** [parse] changes the icon it is called on, also when it fails. *)
Definition parse (v : bytes) (checkExists : bool) (u : IconURL) : IconURL * option icon_error :=
  match IndexByte v "/" with
  | None => (u, Some InvalidIconURL)
  | Some i =>
      let beforeSlash := take i v in
      if bool_decide (beforeSlash = B "http:") || bool_decide (beforeSlash = B "https:") then
        ({| iu_Source := IconSourceAbsolute; iu_FullURL := Some v; iu_Extra := iu_Extra u |}, None)
      else if bool_decide (beforeSlash = B "@target") || bool_decide (beforeSlash = []) then
        let url := drop i v in
        if bool_decide (url = B "/") then (u, Some EmptyPath)
        else ({| iu_Source := IconSourceRelative; iu_FullURL := Some url; iu_Extra := iu_Extra u |}, None)
      else if bool_decide (beforeSlash = B "@selfhst") || bool_decide (beforeSlash = B "@walkxcode") then
        let source := if bool_decide (beforeSlash = B "@selfhst") then IconSourceSelfhSt else IconSourceWalkXCode in
        let u := {| iu_Source := source; iu_FullURL := iu_FullURL u; iu_Extra := iu_Extra u |} in
        match Split (drop (S i) v) "." with
        | [reference; ext] =>
            let format := ToLowerWith unicode_lower ext in
            if bool_decide (reference = []) || bool_decide (format = []) then (u, Some InvalidIconURL)
            else if negb (bool_decide (format ∈ formats)) then (u, Some BadFormat)
            else
              let u := {| iu_Source := source; iu_FullURL := iu_FullURL u; iu_Extra := Some (list_extra source reference format) |} in
              if checkExists && negb (HasIcon u) then (u, Some NoSuchIcon) else (u, None)
        | _ => (u, Some BadReference)
        end
      else (u, Some BadPrefix)
  end.

Definition suffix_of (x : IconExtra) : bytes := if ix_IsLight x then B "-light" else if ix_IsDark x then B "-dark" else [].

Definition URL (u : IconURL) : bytes :=
  match iu_FullURL u with
  | Some f => f
  | None =>
      match iu_Extra u with
      | None => []
      | Some x =>
          let filename := ix_Ref x ++ suffix_of x in
          let path := ix_FileType x ++ "/"%char :: filename ++ "."%char :: ix_FileType x in
          if bool_decide (iu_Source u = IconSourceWalkXCode) then B "https://cdn.jsdelivr.net/gh/walkxcode/dashboard-icons/" ++ path
          else if bool_decide (iu_Source u = IconSourceSelfhSt) then B "https://cdn.jsdelivr.net/gh/selfhst/icons/" ++ path
          else []
      end
  end.

Definition String (u : IconURL) : bytes :=
  match iu_FullURL u with
  | Some f => f
  | None =>
      match iu_Extra u with
      | None => []
      | Some x => iu_Source u ++ "/"%char :: ix_Ref x ++ suffix_of x ++ "."%char :: ix_FileType x
      end
  end.

(** A reference is its variant with the suffix put back. *)
Lemma variant_suffix source ref format :
  ix_Ref (list_extra source ref format) ++ suffix_of (list_extra source ref format) = ref.
Proof.
  unfold list_extra, variant. destruct (CutSuffix ref "-light") as [r|] eqn:E1.
  { apply CutSuffix_Some in E1. unfold suffix_of. simpl ix_Ref. simpl ix_IsLight. cbn [ix_IsDark]. by rewrite E1. }
  destruct (CutSuffix ref "-dark") as [r|] eqn:E2.
  { apply CutSuffix_Some in E2. unfold suffix_of. cbn [ix_Ref ix_IsLight ix_IsDark]. by rewrite E2. }
  unfold suffix_of. cbn [ix_Ref ix_IsLight ix_IsDark]. by rewrite app_nil_r.
Qed.

Lemma IndexByte_app_notin (a b : bytes) c : c ∉ a -> IndexByte (a ++ c :: b) c = Some (length a).
Proof.
  induction a as [|x a IH]; simpl; intros Hc; [by rewrite Ascii.eqb_refl|].
  apply not_elem_of_cons in Hc as [Hx Ha]. destruct (Ascii.eqb_spec x c); [congruence|]. by rewrite IH.
Qed.

Lemma formats_lower f : f ∈ formats -> ToLowerWith unicode_lower f = f /\ f <> [] /\ "."%char ∉ f.
Proof.
  intros Hf. unfold formats in Hf. cases_in Hf; (split; [by vm_compute|split; [done|decide_closed]]).
Qed.

(** What a text with a list's prefix is read as. *)
Lemma parse_list source reference ext check :
  (source = IconSourceSelfhSt \/ source = IconSourceWalkXCode) -> "."%char ∉ reference -> "."%char ∉ ext -> reference <> [] ->
  ToLowerWith unicode_lower ext ∈ formats ->
  let u := {| iu_Source := source; iu_FullURL := None; iu_Extra := Some (list_extra source reference (ToLowerWith unicode_lower ext)) |} in
  parse (source ++ "/"%char :: reference ++ "."%char :: ext) check no_icon = (u, if check && negb (HasIcon u) then Some NoSuchIcon else None).
Proof.
  intros Hs Hr He Hne Hf u. unfold parse.
  assert (Hns : "/"%char ∉ source) by (destruct Hs as [-> | ->]; decide_closed).
  rewrite IndexByte_app_notin by done. rewrite take_app_length.
  assert (E : drop (S (length source)) (source ++ "/"%char :: reference ++ "."%char :: ext) = reference ++ "."%char :: ext).
  { rewrite <- Nat.add_1_r, <- drop_drop, drop_app_length. done. }
  rewrite E. rewrite Split_app, (Split_no_sep ext) by done. cbn [app]. fold u.
  rewrite (bool_decide_eq_false_2 (reference = [])) by done.
  rewrite (bool_decide_eq_false_2 (ToLowerWith unicode_lower ext = [])) by (intros E0; rewrite E0 in Hf; revert Hf; decide_closed).
  rewrite (bool_decide_eq_true_2 (ToLowerWith unicode_lower ext ∈ formats)) by done. subst u.
  by destruct Hs as [-> | ->]; cbn [negb orb]; destruct (check && _).
Qed.

(** The text of an icon that was read is read as the same icon again. *)
Theorem icon_roundtrip v check u :
  parse v check no_icon = (u, None) -> parse (String u) check no_icon = (u, None).
Proof.
  intros Hp. pose proof Hp as Hp0. unfold parse in Hp. destruct (IndexByte v "/") as [i|] eqn:Ei; [|done]. cbv zeta in Hp.
  destruct (_ || bool_decide (take i v = B "https:")) in Hp; [injection Hp as <-; exact Hp0|].
  destruct (_ || bool_decide (take i v = [])) eqn:Erel in Hp.
  { destruct (bool_decide (drop i v = B "/")) eqn:Es; [done|]. injection Hp as <-. cbn [String iu_FullURL].
    destruct (IndexByte_Some v "/" i Ei) as [Hv _].
    assert (Hd : drop i v = "/"%char :: drop (S i) v).
    { rewrite Hv at 1. apply drop_app_exact. rewrite length_take. apply (f_equal length) in Hv. rewrite length_app in Hv. simpl in Hv.
      rewrite length_take, length_drop in Hv. lia. }
    rewrite Hd in *. unfold parse. cbn [IndexByte Ascii.eqb Bool.eqb take]. change (drop 0 ?x) with x. cbn [drop]. rewrite Es. done. }
  destruct (_ || bool_decide (take i v = B "@walkxcode")) eqn:El in Hp; [|done].
  destruct (Split (drop (S i) v) ".") as [|reference [|ext [|? ?]]] eqn:Esp; try done.
  pose proof (Split_parts (drop (S i) v) ".") as Hparts. rewrite Esp in Hparts.
  apply Forall_cons in Hparts as [Hr Hparts]. apply Forall_cons in Hparts as [He _].
  destruct (bool_decide (reference = []) || _) eqn:Ene in Hp; [done|]. destruct (negb _) eqn:Ef in Hp; [done|]. reflect.
  set (source := if bool_decide (take i v = B "@selfhst") then IconSourceSelfhSt else IconSourceWalkXCode) in *.
  destruct (check && _) eqn:Ec in Hp; [done|]. injection Hp as <-. cbn [no_icon iu_FullURL] in *.
  destruct (formats_lower _ Ef) as (Hlow & Hnn & Hdot).
  cbn [String iu_FullURL iu_Extra iu_Source]. rewrite (app_assoc (ix_Ref _)), variant_suffix.
  assert (Hft : ix_FileType (list_extra source reference (ToLowerWith unicode_lower ext)) = ToLowerWith unicode_lower ext).
  { unfold list_extra. by destruct (variant reference) as [[]]. }
  rewrite Hft, parse_list; [|unfold source; destruct (bool_decide _); auto|done..|by rewrite Hlow]. rewrite Hlow. by rewrite Ec.
Qed.

End Parse.

(** ** The lists of known icons *)

Record IconMeta := {
  im_SVG : bool; im_PNG : bool; im_WebP : bool; im_Light : bool; im_Dark : bool;
  im_DisplayName : bytes; im_Tag : bytes
}.

Abbreviation IconMap := (gmap bytes IconMeta).

Definition new_meta : IconMeta :=
  {| im_SVG := false; im_PNG := false; im_WebP := false; im_Light := false; im_Dark := false; im_DisplayName := []; im_Tag := [] |}.

Definition Filenames (icon : IconMeta) (ref : bytes) : list bytes :=
  let files ext := (ref ++ B ext) :: (if im_Light icon then [ref ++ B "-light" ++ B ext] else []) ++ (if im_Dark icon then [ref ++ B "-dark" ++ B ext] else []) in
  (if im_SVG icon then files ".svg" else []) ++ (if im_PNG icon then files ".png" else []) ++ (if im_WebP icon then files ".webp" else []).

Definition has_type (m : IconMeta) (fileType : bytes) : bool :=
  if bool_decide (fileType = B "png") then im_PNG m
  else if bool_decide (fileType = B "svg") then im_SVG m
  else if bool_decide (fileType = B "webp") then im_WebP m
  else false.

(** Outside of tests. *)
Definition HasIcon (icons : IconMap) (u : IconURL) : bool :=
  match iu_Extra u with
  | None => false
  | Some x =>
      match icons !! NewIconKey (iu_Source u) (ix_Ref x) with
      | None => false
      | Some m => has_type m (ix_FileType x) && (negb (ix_IsLight x) || im_Light m) && (negb (ix_IsDark x) || im_Dark m)
      end
  end.

Definition GetHomepageMeta (icons : IconMap) (ref : bytes) : option (bytes * bytes) :=
  (fun m => (im_DisplayName m, im_Tag m)) <$> icons !! NewIconKey IconSourceSelfhSt ref.

(** [setExt]; [None] is the nil function of an unknown type. *)
Definition setExt (fileType : bytes) : option (IconMeta -> IconMeta) :=
  let set svg png webp m :=
    {| im_SVG := svg || im_SVG m; im_PNG := png || im_PNG m; im_WebP := webp || im_WebP m; im_Light := im_Light m; im_Dark := im_Dark m;
       im_DisplayName := im_DisplayName m; im_Tag := im_Tag m |} in
  if bool_decide (fileType = B "png") then Some (set false true false)
  else if bool_decide (fileType = B "svg") then Some (set true false false)
  else if bool_decide (fileType = B "webp") then Some (set false false true)
  else None.

Definition set_light (b : bool) (m : IconMeta) : IconMeta :=
  {| im_SVG := im_SVG m; im_PNG := im_PNG m; im_WebP := im_WebP m; im_Light := b || im_Light m; im_Dark := im_Dark m;
     im_DisplayName := im_DisplayName m; im_Tag := im_Tag m |}.

Definition TrimSuffix (s p : bytes) : bytes := default s (CutSuffix s p).

(** The name of a file without its extension, and whether it is light. *)
Definition file_ref (fileType f : bytes) : bytes * bool :=
  let f := TrimSuffix f ("."%char :: fileType) in
  match CutSuffix f "-light" with Some r => (r, true) | None => (f, false) end.

Definition add_file (fileType : bytes) (m : IconMap) (f : bytes) : result Empty_set IconMap :=
  let '(r, isLight) := file_ref fileType f in
  let key := NewIconKey IconSourceWalkXCode r in
  let icon := default new_meta (m !! key) in
  match setExt fileType with
  | None => Panic NilFunctionCall
  | Some ext => Ok (<[key := set_light isLight (ext icon)]> m)
  end.

(** What a request for a list gives: an error, or the decoded body. *)
Definition UpdateWalkxCodeIcons (body : option (list (bytes * list bytes))) (m : IconMap) : result unit IconMap :=
  match body with
  | None => Err tt
  | Some data =>
      match foldM (fun m '(fileType, files) => foldM (add_file fileType) m files) m data with
      | Ok m' => Ok m' | Err e => match e with end | Panic p => Panic p
      end
  end.

Record SelfhStIcon := {
  sh_Name : bytes; sh_Reference : bytes; sh_SVG : bytes; sh_PNG : bytes; sh_WebP : bytes; sh_Light : bytes; sh_Dark : bytes; sh_Tags : bytes
}.

Definition yes (s : bytes) : bool := bool_decide (s = B "Yes").

Definition selfhst_meta (item : SelfhStIcon) : IconMeta :=
  {| im_SVG := yes (sh_SVG item); im_PNG := yes (sh_PNG item); im_WebP := yes (sh_WebP item); im_Light := yes (sh_Light item);
     im_Dark := yes (sh_Dark item); im_DisplayName := sh_Name item;
     im_Tag := match sh_Tags item with [] => [] | tags => TrimSpace (fst (fst (Cut tags ","))) end |}.

Definition UpdateSelfhstIcons (body : option (list SelfhStIcon)) (m : IconMap) : result unit IconMap :=
  match body with
  | None => Err tt
  | Some data => Ok (fold_left (fun m item => <[NewIconKey IconSourceSelfhSt (sh_Reference item) := selfhst_meta item]> m) data m)
  end.

Definition updateIcons (walk : option (list (bytes * list bytes))) (selfhst : option (list SelfhStIcon)) (m : IconMap) : result unit IconMap :=
  m ← UpdateWalkxCodeIcons walk m;
  UpdateSelfhstIcons selfhst m.

(** The cache, and the file it is saved to: [None] when there is none or it
    cannot be read. *)
Record icons_state := { is_cache : IconMap; is_disk : option IconMap }.

(** The names and tags are not written (json:"-"). *)
Definition on_disk (m : IconMap) : IconMap :=
  (fun i => {| im_SVG := im_SVG i; im_PNG := im_PNG i; im_WebP := im_WebP i; im_Light := im_Light i; im_Dark := im_Dark i;
               im_DisplayName := []; im_Tag := [] |}) <$> m.

Definition backgroundUpdateIcons (walk : option (list (bytes * list bytes))) (selfhst : option (list SelfhStIcon)) (saved : bool) (s : icons_state)
  : result Empty_set icons_state :=
  match updateIcons walk selfhst ∅ with
  | Panic p => Panic p
  | Err _ => Ok s
  | Ok m => Ok {| is_cache := m; is_disk := if saved then Some (on_disk m) else is_disk s |}
  end.

(** At the end of the program. *)
Definition save_icons_cache (s : icons_state) : icons_state := {| is_cache := is_cache s; is_disk := Some (on_disk (is_cache s)) |}.

(** Start with a file in the current format; an update that fails may have
    filled the map in part, which is what is stored. *)
Definition InitIconListCache (walk : option (list (bytes * list bytes))) (selfhst : option (list SelfhStIcon)) (disk : option IconMap)
  : result Empty_set icons_state :=
  let m := default ∅ disk in
  if bool_decide (m = ∅) then
    match UpdateWalkxCodeIcons walk ∅ with
    | Panic p => Panic p
    | Err _ => Ok {| is_cache := ∅; is_disk := disk |}
    | Ok m1 =>
        match UpdateSelfhstIcons selfhst m1 with
        | Ok m2 => Ok {| is_cache := m2; is_disk := disk |}
        | Err _ => Ok {| is_cache := m1; is_disk := disk |}
        | Panic p => Panic p
        end
    end
  else Ok {| is_cache := m; is_disk := disk |}.

(** *** Which icons of the lists can be used *)

Definition known_types : list bytes := [B "png"; B "svg"; B "webp"].

(** The files of a list, one by one. *)
Definition listed (data : list (bytes * list bytes)) : list (bytes * bytes) := flat_map (fun '(ty, fs) => map (pair ty) fs) data.

Definition add_meta (ty f : bytes) (o : option IconMeta) : IconMeta :=
  set_light (snd (file_ref ty f)) (default id (setExt ty) (default new_meta o)).

Definition file_key (ty f : bytes) : bytes := NewIconKey IconSourceWalkXCode (fst (file_ref ty f)).

Lemma add_file_known ty m f : ty ∈ known_types -> add_file ty m f = Ok (<[file_key ty f := add_meta ty f (m !! file_key ty f)]> m).
Proof.
  intros Ht. unfold add_file, file_key, add_meta. destruct (file_ref ty f) as [r l].
  unfold known_types in Ht. by cases_in Ht.
Qed.

Lemma update_known data m :
  Forall (fun p => p.1 ∈ known_types) data ->
  UpdateWalkxCodeIcons (Some data) m =
    Ok (fold_left (fun m '(ty, f) => <[file_key ty f := add_meta ty f (m !! file_key ty f)]> m) (listed data) m).
Proof.
  intros Hall. unfold UpdateWalkxCodeIcons.
  assert (H : foldM (fun m '(fileType, files) => foldM (add_file fileType) m files) m data =
    Ok (fold_left (fun m '(ty, f) => <[file_key ty f := add_meta ty f (m !! file_key ty f)]> m) (listed data) m)); [|by rewrite H].
  revert m. induction data as [|[ty fs] data IH]; intros m; [done|]. apply Forall_cons in Hall as [Ht Hall]. simpl in Ht.
  cbn [foldM listed flat_map]. rewrite fold_left_app.
  assert (Hf : forall m, foldM (add_file ty) m fs =
    Ok (fold_left (fun m '(ty, f) => <[file_key ty f := add_meta ty f (m !! file_key ty f)]> m) (map (pair ty) fs) m)).
  { induction fs as [|f fs IHf]; intros m'; [done|]. cbn [foldM map fold_left]. rewrite add_file_known by done. apply IHf. }
  rewrite Hf. by apply IH.
Qed.

(** What an icon keeps through further files. *)
Lemma fold_files_preserve (P : IconMeta -> Prop) l k : forall m : IconMap,
  (forall ty f i, P i -> P (add_meta ty f (Some i))) ->
  (exists i, m !! k = Some i /\ P i) ->
  exists i, fold_left (fun m '(ty, f) => <[file_key ty f := add_meta ty f (m !! file_key ty f)]> m) l m !! k = Some i /\ P i.
Proof.
  intros m Hstep. revert m. induction l as [|[ty f] l IH]; intros m Hm; [done|]. cbn [fold_left]. apply IH.
  destruct Hm as (i & Hi & HP). destruct (decide (file_key ty f = k)) as [<-|Hne].
  - rewrite lookup_insert_eq, Hi. eauto.
  - rewrite lookup_insert_ne by done. eauto.
Qed.

Lemma add_meta_flags ty f i ty' :
  (has_type i ty' = true -> has_type (add_meta ty f (Some i)) ty' = true) /\
  (im_Light i = true -> im_Light (add_meta ty f (Some i)) = true).
Proof.
  unfold add_meta, has_type, set_light, setExt. cbn [default from_option].
  split; [|by intros H; repeat case_bool_decide; cbn; rewrite ?H, ?orb_true_r].
  repeat case_bool_decide; cbn; intros H'; rewrite ?H', ?orb_true_r; auto.
Qed.

(** A file of the list has its type, and its variant when it is light. *)
Lemma listed_found data ty f :
  Forall (fun p => p.1 ∈ known_types) data -> (ty, f) ∈ listed data ->
  forall m, exists m' i, UpdateWalkxCodeIcons (Some data) m = Ok m' /\ m' !! file_key ty f = Some i /\ has_type i ty = true /\
    (snd (file_ref ty f) = true -> im_Light i = true).
Proof.
  intros Hall Hin m. rewrite update_known by done.
  assert (Ht : ty ∈ known_types).
  { unfold listed in Hin. rewrite list_elem_of_In, in_flat_map in Hin. destruct Hin as ([ty' fs] & Hd & Hf).
    rewrite in_map_iff in Hf. destruct Hf as (? & [= -> ->] & _). rewrite Forall_forall in Hall. apply (Hall (ty, fs)). by apply list_elem_of_In. }
  apply list_elem_of_split in Hin as (l1 & l2 & ->). rewrite fold_left_app. cbn [fold_left].
  set (m1 := fold_left _ l1 m).
  destruct (fold_files_preserve (fun i => has_type i ty = true /\ (snd (file_ref ty f) = true -> im_Light i = true)) l2 (file_key ty f)
    (<[file_key ty f := add_meta ty f (m1 !! file_key ty f)]> m1)) as (i & Hi & H1 & H2).
  - intros ty2 f2 i [H1 H2]. destruct (add_meta_flags ty2 f2 i ty) as [A1 A2]. split; auto.
  - rewrite lookup_insert_eq. eexists. split; [done|]. split; [|intros Hl; unfold add_meta, set_light; cbn [im_Light]; by rewrite Hl].
    unfold known_types in Ht. by cases_in Ht.
  - eexists _, i. split; [reflexivity|done].
Qed.

(** No icon of this list is marked dark. *)
Lemma fold_files_dark l k : forall m : IconMap,
  (forall i, m !! k = Some i -> im_Dark i = false) -> forall i,
  fold_left (fun m '(ty, f) => <[file_key ty f := add_meta ty f (m !! file_key ty f)]> m) l m !! k = Some i -> im_Dark i = false.
Proof.
  induction l as [|[ty f] l IH]; intros m Hm i; [apply Hm|]. cbn [fold_left]. apply IH. intros j.
  destruct (decide (file_key ty f = k)) as [<-|Hne]; [|by rewrite lookup_insert_ne; [apply Hm|]].
  rewrite lookup_insert_eq. intros [= <-]. unfold add_meta, set_light, setExt.
  destruct (m !! file_key ty f) as [i0|] eqn:E; cbn [default from_option]; repeat case_bool_decide; cbn; by try (apply Hm).
Qed.

Section Usable.
Context (unicode_lower : Z -> Z).

(** Every file of the list that is not a dark variant can be named as an icon. *)
Theorem listed_usable data ty ref :
  Forall (fun p => p.1 ∈ known_types) data -> (ty, ref ++ "."%char :: ty) ∈ listed data ->
  ty ∈ known_types -> "."%char ∉ ref -> ref <> [] -> CutSuffix ref "-dark" = None ->
  exists m, UpdateWalkxCodeIcons (Some data) ∅ = Ok m /\
    snd (parse unicode_lower (HasIcon m) (IconSourceWalkXCode ++ "/"%char :: ref ++ "."%char :: ty) true no_icon) = None.
Proof.
  intros Hall Hin Ht Hdot Hne Hdark. destruct (listed_found data ty _ Hall Hin ∅) as (m & i & Hm & Hi & Hty & Hl). exists m. split; [done|].
  assert (Hf : ty ∈ formats) by (unfold known_types, formats in *; set_solver).
  destruct (formats_lower unicode_lower ty Hf) as (Hlow & _ & Hd).
  rewrite parse_list; [|auto|done..|by rewrite Hlow]. rewrite Hlow. cbn [snd andb].
  assert (Hr : file_ref ty (ref ++ "."%char :: ty) = match CutSuffix ref "-light" with Some r => (r, true) | None => (ref, false) end).
  { unfold file_ref, TrimSuffix. by rewrite (proj2 (CutSuffix_Some _ _ ref) eq_refl). }
  unfold file_key in Hi. rewrite Hr in Hi, Hl. unfold HasIcon. cbn [iu_Extra iu_Source]. unfold list_extra, variant. rewrite Hdark.
  destruct (CutSuffix ref "-light") as [r|]; cbn [fst snd] in Hi, Hl; cbn [ix_Ref ix_FileType ix_IsLight ix_IsDark]; rewrite Hi, Hty.
  - by rewrite Hl.
  - done.
Qed.

(** No dark variant can, although the files are listed. *)
Theorem dark_refused data r ty :
  Forall (fun p => p.1 ∈ known_types) data -> ty ∈ known_types -> "."%char ∉ r ->
  exists m, UpdateWalkxCodeIcons (Some data) ∅ = Ok m /\
    snd (parse unicode_lower (HasIcon m) (IconSourceWalkXCode ++ "/"%char :: (r ++ B "-dark") ++ "."%char :: ty) true no_icon) = Some NoSuchIcon.
Proof.
  intros Hall Ht Hdot. rewrite update_known by done. eexists. split; [done|].
  assert (Hf : ty ∈ formats) by (unfold known_types, formats in *; set_solver).
  destruct (formats_lower unicode_lower ty Hf) as (Hlow & _ & Hd).
  rewrite parse_list; [|auto|..|done|by destruct r|by rewrite Hlow].
  2: { rewrite elem_of_app. intros [H|H]; [done|]. revert H. decide_closed. }
  rewrite Hlow. cbn [snd andb]. unfold HasIcon. cbn [iu_Extra iu_Source]. unfold list_extra, variant.
  assert (CutSuffix (r ++ B "-dark") "-light" = None) as ->.
  { destruct (CutSuffix _ _) as [t|] eqn:E; [|done]. apply CutSuffix_Some in E.
    apply (f_equal reverse) in E. rewrite !reverse_app in E. by vm_compute in E. }
  rewrite (proj2 (CutSuffix_Some _ _ r) eq_refl). cbn [ix_Ref ix_FileType ix_IsLight ix_IsDark].
  destruct (fold_left _ _ _ !! _) as [i|] eqn:E; [|done].
  apply fold_files_dark in E; [|intros j Hj; by rewrite lookup_empty in Hj]. rewrite E. by rewrite andb_false_r.
Qed.

End Usable.

(** *** Names do not survive a restart *)

(** The names and tags that the homepage shows are lost when the cache is read
    back, until the next update. *)
Theorem names_lost_on_restart s walk selfhst ref :
  is_cache s <> ∅ ->
  exists s', InitIconListCache walk selfhst (is_disk (save_icons_cache s)) = Ok s' /\
    (forall u, HasIcon (is_cache s') u = HasIcon (is_cache s) u) /\
    GetHomepageMeta (is_cache s') ref = (fun _ => ([], [])) <$> GetHomepageMeta (is_cache s) ref.
Proof.
  intros Hne. cbn [save_icons_cache is_disk]. unfold InitIconListCache. cbn [default from_option id].
  rewrite bool_decide_eq_false_2 by (intros E; by apply fmap_empty_inv in E).
  eexists. split; [done|]. cbn [is_cache]. split.
  - intros u. unfold HasIcon. destruct (iu_Extra u) as [x|]; [|done]. unfold on_disk. rewrite lookup_fmap. by destruct (is_cache s !! _).
  - unfold GetHomepageMeta, on_disk. rewrite lookup_fmap. by destruct (is_cache s !! _).
Qed.

(** ** Searching *)

Record IconMetaSearch := { ims_Meta : IconMeta; ims_Source : bytes; ims_Ref : bytes; ims_rank : Z }.

Section Search.

(** [strutils.ContainsFold] and [fuzzy.RankMatchFold]. *)
Context (ContainsFold : bytes -> bytes -> bool) (RankMatchFold : bytes -> bytes -> Z).

Definition rank_of (keyword k : bytes) (icon : IconMeta) : option Z :=
  if ContainsFold k keyword || ContainsFold (im_DisplayName icon) keyword then Some 0
  else
    let rank := RankMatchFold keyword k in
    if (rank =? -1) || (3 <? rank) then None else Some rank.

Definition ranked (k : bytes) (icon : IconMeta) (rank : Z) : IconMetaSearch :=
  let '(source, ref) := SourceRef k in {| ims_Meta := icon; ims_Source := source; ims_Ref := ref; ims_rank := rank |}.

(** [BinarySearchFunc] on a sorted slice: the first position whose element is not
    smaller; [Insert] there. *)
Fixpoint insert_ranked (x : IconMetaSearch) (l : list IconMetaSearch) : list IconMetaSearch :=
  match l with
  | [] => [x]
  | y :: l' => if ims_rank y <? ims_rank x then y :: insert_ranked x l' else x :: y :: l'
  end.

(** The loop ends when enough were found. *)
Fixpoint search_loop (keyword : bytes) (searchLimit : Z) (icons : list (bytes * IconMeta)) (results : list IconMetaSearch) : list IconMetaSearch :=
  match icons with
  | [] => results
  | (k, icon) :: icons' =>
      match rank_of keyword k icon with
      | None => search_loop keyword searchLimit icons' results
      | Some rank =>
          let results := insert_ranked (ranked k icon rank) results in
          if Z.of_nat (length results) =? searchLimit then results else search_loop keyword searchLimit icons' results
      end
  end.

(** [icons]: the map in the order of the range. *)
Definition SearchIcons (keyword : bytes) (limit : Z) (icons : list (bytes * IconMeta)) : result Empty_set (list IconMetaSearch) :=
  if bool_decide (keyword = []) then Ok []
  else
    let limit := if limit =? 0 then 10 else limit in
    let searchLimit := Z.min (wrap64 (limit * 5)) 50 in
    if searchLimit <? 0 then Panic MakeSliceOutOfRange
    else
      let results := search_loop keyword searchLimit icons [] in
      let n := Z.min (Z.of_nat (length results)) limit in
      Ok (take (Z.to_nat n) results).

Definition by_rank (a b : IconMetaSearch) : Prop := ims_rank a <= ims_rank b.

(** What matches, in the order of the range. *)
Definition matches (keyword : bytes) (icons : list (bytes * IconMeta)) : list IconMetaSearch :=
  omap (fun '(k, icon) => ranked k icon <$> rank_of keyword k icon) icons.

Lemma insert_ranked_perm x l : insert_ranked x l ≡ₚ x :: l.
Proof. induction l as [|y l IH]; simpl; [done|]. destruct (_ <? _); [|done]. rewrite IH. apply Permutation_swap. Qed.

Lemma insert_ranked_sorted x l : StronglySorted by_rank l -> StronglySorted by_rank (insert_ranked x l).
Proof.
  induction 1 as [|y l Hl IH Hy]; simpl; [by repeat constructor|]. destruct (Z.ltb_spec (ims_rank y) (ims_rank x)).
  - constructor; [done|]. rewrite insert_ranked_perm. constructor; [unfold by_rank; lia|done].
  - constructor; [by constructor|]. constructor; [done|]. eapply Forall_impl; [exact Hy|]. unfold by_rank. intros; lia.
Qed.

Lemma matches_cons keyword k icon icons :
  matches keyword ((k, icon) :: icons) =
    match rank_of keyword k icon with Some r => ranked k icon r :: matches keyword icons | None => matches keyword icons end.
Proof. unfold matches. cbn [omap list_omap]. by destruct (rank_of keyword k icon). Qed.

Lemma search_loop_spec keyword sl icons : forall results,
  StronglySorted by_rank results -> Z.of_nat (length results) < sl ->
  exists n, let found := take n (matches keyword icons) in
    search_loop keyword sl icons results ≡ₚ results ++ found /\
    StronglySorted by_rank (search_loop keyword sl icons results) /\
    Z.of_nat (length (search_loop keyword sl icons results)) <= sl /\
    (length found < length (matches keyword icons) -> Z.of_nat (length (search_loop keyword sl icons results)) = sl)%nat.
Proof.
  induction icons as [|[k icon] icons IH]; intros results Hs Hl.
  { exists 0%nat. cbn [search_loop matches omap list_omap]. rewrite take_nil, app_nil_r. cbn [length]. split_and!; [done|done|lia|lia]. }
  rewrite matches_cons. cbn [search_loop]. destruct (rank_of keyword k icon) as [rank|]; [|by apply IH].
  set (res := insert_ranked (ranked k icon rank) results).
  assert (Hp : res ≡ₚ ranked k icon rank :: results) by apply insert_ranked_perm.
  assert (Hsr : StronglySorted by_rank res) by (by apply insert_ranked_sorted).
  assert (Hlen : length res = S (length results)) by (by rewrite Hp).
  destruct (Z.eqb_spec (Z.of_nat (length res)) sl) as [E|E].
  - exists 1%nat. cbn [take firstn]. split_and!; [by rewrite Hp, <- Permutation_middle, app_nil_r|done|lia|done].
  - destruct (IH res Hsr ltac:(lia)) as (n & H1 & H2 & H3 & H4). exists (S n). cbn [take firstn length].
    split_and!; [rewrite H1, Hp; by rewrite <- Permutation_middle|done|done|intros Hlt; apply H4; lia].
Qed.

(** At most [limit] icons are found, each matches the keyword, the best first;
    when few match, all of them are considered. *)
Theorem search_icons_correct keyword limit icons :
  keyword <> [] -> 0 < limit -> limit * 5 <= MaxInt64 ->
  exists l rest, SearchIcons keyword limit icons = Ok l /\ Z.of_nat (length l) <= limit /\
    StronglySorted by_rank l /\ (forall x, x ∈ l -> x ∈ matches keyword icons) /\
    (Z.of_nat (length (matches keyword icons)) < Z.min (limit * 5) 50 ->
       l ++ rest ≡ₚ matches keyword icons /\ Forall (fun r => Forall (fun x => by_rank x r) l) rest /\ (rest <> [] -> Z.of_nat (length l) = limit)).
Proof.
  intros Hk Hl Hmax. unfold MaxInt64 in Hmax. unfold SearchIcons. rewrite bool_decide_eq_false_2 by done. rewrite (proj2 (Z.eqb_neq limit 0)) by lia.
  assert (wrap64 (limit * 5) = limit * 5) as -> by (unfold wrap64; rewrite Z.mod_small; lia).
  rewrite (proj2 (Z.ltb_ge (Z.min (limit * 5) 50) 0)) by lia.
  destruct (search_loop_spec keyword (Z.min (limit * 5) 50) icons []) as (n & H1 & H2 & H3 & H4); [constructor|simpl; lia|].
  cbn [app] in H1. set (res := search_loop keyword _ icons []) in *. set (c := Z.to_nat (Z.min (Z.of_nat (length res)) limit)).
  exists (take c res), (drop c res). split; [done|]. split; [rewrite length_take; lia|].
  assert (Hsplit : StronglySorted by_rank (take c res ++ drop c res)) by (by rewrite take_drop).
  apply StronglySorted_app in Hsplit as (Hs3 & Hs1 & Hs2).
  split; [done|]. split.
  - intros x Hx. assert (x ∈ res) as Hr by (rewrite <- (take_drop c res); apply elem_of_app; by left). rewrite H1 in Hr.
    apply elem_of_take in Hr as (i & Hi & _). by apply list_elem_of_lookup_2 in Hi.
  - intros Hfew. rewrite take_drop.
    assert (Hn : take n (matches keyword icons) = matches keyword icons).
    { apply firstn_all2. destruct (decide (length (take n (matches keyword icons)) < length (matches keyword icons))%nat) as [Hlt|Hge]; [|rewrite length_take in Hge; lia].
      specialize (H4 Hlt). rewrite H1 in H4. lia. }
    rewrite Hn in H1. split; [done|]. split.
    + apply Forall_forall. intros r Hr. apply Forall_forall. intros x Hx. by apply Hs3.
    + intros Hne. rewrite length_take. assert (c < length res)%nat; [|lia]. destruct (decide (c < length res)%nat); [done|]. rewrite drop_ge in Hne by lia. done.
Qed.

(** A negative limit panics. *)
Lemma negative_limit_panics keyword limit icons :
  keyword <> [] -> MinInt64 <= limit * 5 -> limit < 0 -> SearchIcons keyword limit icons = Panic MakeSliceOutOfRange.
Proof.
  intros Hk Hmin Hl. unfold MinInt64 in Hmin. unfold SearchIcons. rewrite bool_decide_eq_false_2 by done. rewrite (proj2 (Z.eqb_neq limit 0)) by lia.
  assert (wrap64 (limit * 5) = limit * 5) as -> by (unfold wrap64; rewrite Z.mod_small; lia).
  by rewrite (proj2 (Z.ltb_lt (Z.min (limit * 5) 50) 0)) by lia.
Qed.

End Search.

(** ** Finding the icon of a route *)

Record FetchResult := { fr_Icon : bytes; fr_contentType : bytes }.

(** A fetch gives an icon, or a status to answer with. *)
Definition fetched : Type := Z + FetchResult.

Definition ContentType (r : FetchResult) : bytes :=
  match fr_contentType r with
  | [] => if HasPrefix (fr_Icon r) "<svg" || HasPrefix (fr_Icon r) "<?xml" then B "image/svg+xml" else B "image/x-icon"
  | t => t
  end.

(** The outcome of the request for an absolute URL. *)
Inductive http_outcome :=
  | BadURL
  | ConnectionError
  | Answer (status : Z) (body : option bytes) (contentType : bytes).     (* [None]: reading failed *)

Definition FetchIconAbsolute (o : http_outcome) : fetched :=
  match o with
  | BadURL => inl 500
  | ConnectionError => inl 502
  | Answer status body contentType =>
      if negb (status =? 200) then inl status
      else match body with
           | None => inl 500
           | Some [] => inl 404
           | Some icon => inr {| fr_Icon := icon; fr_contentType := contentType |}
           end
  end.

(** The link to an icon in a page. *)
Inductive icon_link := UnreadablePage | NoLink | Href (href : bytes).

(** What the route's own handler writes for a request. *)
Record content := { ct_status : Z; ct_location : bytes; ct_contentType : bytes; ct_isHTML : bool; ct_data : bytes; ct_link : icon_link }.

Section Find.

(** The cached fetch of a URL; the route's handler; strutils.SanitizeURI;
    url.ParseRequestURI, giving the path; dataurl.DecodeString. *)
Context (icons : IconMap) (fetch : bytes -> http_outcome) (serve : bytes -> content)
  (SanitizeURI : bytes -> bytes) (ParseRequestURI : bytes -> option bytes) (DecodeDataURL : bytes -> option FetchResult)
  (timed_out : nat -> bool).

Definition fetchKnownIcon (u : IconURL) : fetched :=
  if negb (HasIcon icons u) then inl 404 else FetchIconAbsolute (fetch (URL u)).

Definition FetchFavIconFromURL (u : IconURL) : fetched :=
  if bool_decide (iu_Source u = IconSourceAbsolute) then FetchIconAbsolute (fetch (URL u))
  else if bool_decide (iu_Source u = IconSourceRelative) then inl 400
  else if bool_decide (iu_Source u = IconSourceWalkXCode) || bool_decide (iu_Source u = IconSourceSelfhSt) then fetchKnownIcon u
  else inl 400.

Definition list_icon (source filename ext : bytes) : IconURL :=
  {| iu_Source := source; iu_FullURL := None; iu_Extra := Some (list_extra source filename ext) |}.

(** The candidates for a name, in the order they are tried. *)
Definition candidates (filename : bytes) : list IconURL :=
  flat_map (fun ext => [list_icon IconSourceSelfhSt filename ext; list_icon IconSourceWalkXCode filename ext]) [B "svg"; B "webp"; B "png"].

Fixpoint first_fetched (us : list IconURL) : fetched :=
  match us with
  | [] => inl 404
  | u :: us' => match fetchKnownIcon u with inr r => inr r | inl _ => first_fetched us' end
  end.

Definition fetchIcon (filename : bytes) : fetched := first_fetched (candidates filename).

Definition sanitizeName (unicode_lower : Z -> Z) (name : bytes) : bytes :=
  ToLowerWith unicode_lower
    (flat_map (fun c => if bool_decide (c = "_"%char) || bool_decide (c = " "%char) then ["-"%char]
                        else if bool_decide (c = "("%char) || bool_decide (c = ")"%char) then [] else [c]) name).

Definition maxRedirectDepth : nat := 5.

(** The requests made, in order, and the outcome; [None] only when the fuel runs
    out. *)
Fixpoint findIconSlow (fuel : nat) (uri : bytes) (stack : list bytes) : option (list bytes * fetched) :=
  match fuel with
  | O => None
  | S fuel' =>
      if timed_out (length stack) then Some ([], inl 502)
      else if (maxRedirectDepth <? length stack)%nat then Some ([], inl 502)
      else
        match ParseRequestURI (SanitizeURI uri) with
        | None => Some ([], inl 500)
        | Some path =>
            let again loc := (fun '(reqs, r) => (path :: reqs, r)) <$> findIconSlow fuel' loc (stack ++ [path]) in
            let done r := Some ([path], r) in
            let c := serve path in
            if negb (ct_status c =? 200) then
              if ct_status c =? 0 then done (inl 502)
              else
                match ct_location c with
                | [] => done (inl (ct_status c))
                | l =>
                    let loc := SanitizeURI l in
                    if bool_decide (loc = B "/") || bool_decide (loc = path) || bool_decide (loc ∈ stack) then done (inl 502) else again loc
                end
            else if negb (ct_isHTML c) then done (inr {| fr_Icon := ct_data c; fr_contentType := ct_contentType c |})
            else
              match ct_link c with
              | UnreadablePage => done (inl 500)
              | NoLink => done (inl 404)
              | Href [] => done (inl 404)
              | Href href =>
                  if HasPrefix href "data:image/" then
                    done (match DecodeDataURL href with Some r => inr r | None => inl 500 end)
                  else if HasPrefix href "http://" || HasPrefix href "https://" then done (FetchIconAbsolute (fetch href))
                  else again href
              end
        end
  end.

(** The references of a route are tried first; only a route with a handler is
    asked for its page. *)
Definition FindIcon (unicode_lower : Z -> Z) (references : list bytes) (isHTTP : bool) (uri : bytes) : option (list bytes * fetched) :=
  match List.find (fun r => match r with inr _ => true | inl _ => false end) (map (fun ref => fetchIcon (sanitizeName unicode_lower ref)) references) with
  | Some r => Some ([], r)
  | None => if isHTTP then findIconSlow (maxRedirectDepth + 2) uri [] else Some ([], inl 404)
  end.

(** [GetFavIconFromAlias]: the icon of the homepage item, if it has one. *)
Definition GetFavIconFromAlias (unicode_lower : Z -> Z) (route : option (list bytes * option IconURL)) : option (list bytes * fetched) :=
  match route with
  | None => Some ([], inl 404)
  | Some (references, Some icon) =>
      if bool_decide (iu_Source icon = IconSourceRelative) then FindIcon unicode_lower references true (default [] (iu_FullURL icon))
      else Some ([], FetchFavIconFromURL icon)
  | Some (references, None) => FindIcon unicode_lower references true (B "/")
  end.

(** Following redirects and links ends: the fuel is enough, and at most six
    requests are made. *)
Lemma findIconSlow_bounded fuel : forall uri stack,
  (length stack + fuel = maxRedirectDepth + 2)%nat -> (0 < fuel)%nat ->
  exists reqs r, findIconSlow fuel uri stack = Some (reqs, r) /\ (length reqs + length stack <= maxRedirectDepth + 1 \/ reqs = [])%nat.
Proof.
  induction fuel as [|fuel IH]; intros uri stack Hf Hpos; [lia|]. cbn [findIconSlow].
  destruct (timed_out (length stack)); [by eexists _, _; split; [done|right]|].
  destruct (Nat.ltb_spec maxRedirectDepth (length stack)) as [Hd|Hd]; [by eexists _, _; split; [done|right]|].
  destruct (ParseRequestURI (SanitizeURI uri)) as [path|]; [|by eexists _, _; split; [done|right]].
  assert (Hdone : forall r : fetched, exists reqs r', Some ([path], r) = Some (reqs, r') /\ (length reqs + length stack <= maxRedirectDepth + 1 \/ reqs = [])%nat).
  { intros r. eexists _, _. split; [done|]. left. cbn [length]. lia. }
  assert (Hagain : forall loc, exists reqs r, ((fun '(reqs, r) => (path :: reqs, r)) <$> findIconSlow fuel loc (stack ++ [path])) = Some (reqs, r) /\
    (length reqs + length stack <= maxRedirectDepth + 1 \/ reqs = [])%nat).
  { intros loc. destruct (IH loc (stack ++ [path])) as (reqs & r & -> & Hr); [rewrite length_app; cbn [length]; lia|lia|].
    eexists _, _. split; [done|]. left. rewrite length_app in Hr. cbn [length] in *. destruct Hr as [Hr|Hr]; [lia|rewrite Hr; cbn [length]; lia]. }
  cbv zeta. destruct (negb _).
  - destruct (ct_status _ =? 0); [done|]. destruct (ct_location _); [done|]. destruct (_ || bool_decide (_ ∈ stack)); [done|]. by apply Hagain.
  - destruct (negb _); [done|]. destruct (ct_link _) as [| |[|c href]]; [done..|]. destruct (HasPrefix _ _); [done|].
    destruct (_ || _); [done|by apply Hagain].
Qed.

(** Looking for an icon always ends with an answer, after at most six requests
    to the route. *)
Theorem find_icon_terminates unicode_lower route :
  exists reqs r, GetFavIconFromAlias unicode_lower route = Some (reqs, r) /\ (length reqs <= maxRedirectDepth + 1)%nat.
Proof.
  assert (Hfind : forall refs b uri, exists reqs r, FindIcon unicode_lower refs b uri = Some (reqs, r) /\ (length reqs <= maxRedirectDepth + 1)%nat).
  { intros refs b uri. unfold FindIcon. destruct (List.find _ _); [by eexists _, _; split; [done|cbn [length]; lia]|].
    destruct b; [|by eexists _, _; split; [done|cbn [length]; lia]].
    destruct (findIconSlow_bounded (maxRedirectDepth + 2) uri []) as (reqs & r & -> & Hr); [cbn [length]; lia|lia|].
    eexists _, _. split; [done|]. cbn [length] in Hr. destruct Hr as [Hr| ->]; cbn [length]; lia. }
  unfold GetFavIconFromAlias. destruct route as [[refs [icon|]]|]; [|by apply Hfind|by eexists _, _; split; [done|cbn [length]; lia]].
  destruct (bool_decide _); [by apply Hfind|]. by eexists _, _; split; [done|cbn [length]; lia].
Qed.

End Find.

(** ** Examples *)

Module IconsDemo.

Definition tree : list (bytes * list bytes) := [(B "png", [B "plex.png"; B "plex-light.png"; B "gitea-dark.png"]); (B "svg", [B "plex.svg"])].

Lemma tree_known : Forall (fun p => p.1 ∈ known_types) tree.
Proof. repeat constructor; simpl; decide_closed. Qed.

Lemma icon_roundtrip_witness :
  exists u, parse id (fun _ => true) (B "@selfhst/plex-light.PNG") true no_icon = (u, None) /\
    String u = B "@selfhst/plex-light.png" /\ parse id (fun _ => true) (String u) true no_icon = (u, None).
Proof.
  eexists. split; [reflexivity|]. split; [reflexivity|]. eapply (icon_roundtrip id (fun _ => true) (B "@selfhst/plex-light.PNG") true). reflexivity.
Defined.

Lemma listed_usable_witness :
  exists m, UpdateWalkxCodeIcons (Some tree) ∅ = Ok m /\
    snd (parse id (HasIcon m) (IconSourceWalkXCode ++ "/"%char :: B "plex-light" ++ "."%char :: B "png") true no_icon) = None.
Proof. apply (listed_usable id tree (B "png") (B "plex-light")); [apply tree_known|decide_closed..|done|by vm_compute]. Defined.

(** gitea-dark.png is in the list, and refused. *)
Lemma dark_refused_witness :
  (B "png", B "gitea-dark.png") ∈ listed tree /\
  exists m, UpdateWalkxCodeIcons (Some tree) ∅ = Ok m /\
    snd (parse id (HasIcon m) (IconSourceWalkXCode ++ "/"%char :: (B "gitea" ++ B "-dark") ++ "."%char :: B "png") true no_icon) = Some NoSuchIcon.
Proof. split; [decide_closed|]. apply (dark_refused id tree (B "gitea") (B "png")); [apply tree_known|decide_closed..]. Defined.

(** A light variant of one type makes the code believe in those of other types. *)
Example light_of_other_type :
  exists m, UpdateWalkxCodeIcons (Some tree) ∅ = Ok m /\
    snd (parse id (HasIcon m) (B "@walkxcode/plex-light.svg") true no_icon) = None /\ (B "svg", B "plex-light.svg") ∉ listed tree.
Proof. eexists. split; [reflexivity|]. split; [by vm_compute|decide_closed]. Qed.

(** A list with a type that is not known panics. *)
Example unknown_type_panics : UpdateWalkxCodeIcons (Some [(B "ico", [B "plex.ico"])]) ∅ = Panic NilFunctionCall.
Proof. done. Qed.

Definition named : IconMap :=
  {[NewIconKey IconSourceSelfhSt (B "plex") := {| im_SVG := true; im_PNG := true; im_WebP := true; im_Light := false; im_Dark := false;
                                                 im_DisplayName := B "Plex"; im_Tag := B "Media" |}]}.

Lemma names_lost_on_restart_witness :
  exists s', InitIconListCache None None (is_disk (save_icons_cache {| is_cache := named; is_disk := None |})) = Ok s' /\
    GetHomepageMeta named (B "plex") = Some (B "Plex", B "Media") /\ GetHomepageMeta (is_cache s') (B "plex") = Some ([], []).
Proof.
  destruct (names_lost_on_restart {| is_cache := named; is_disk := None |} None None (B "plex")) as (s' & H1 & _ & H2);
    [cbn [is_cache]; unfold named; by apply map_non_empty_singleton|].
  exists s'. split; [exact H1|]. split; [by vm_compute|]. rewrite H2. by vm_compute.
Defined.

Definition few : list (bytes * IconMeta) := [(B "@selfhst/plex", new_meta); (B "@selfhst/plexus", new_meta); (B "@selfhst/gitea", new_meta)].
Definition contains (s k : bytes) : bool := bool_decide (is_Some (Index s k)).

Lemma search_icons_correct_witness :
  exists l rest, SearchIcons contains (fun _ _ => -1) (B "plex") 1 few = Ok l /\ l ++ rest ≡ₚ matches contains (fun _ _ => -1) (B "plex") few /\
    length l = 1%nat.
Proof.
  destruct (search_icons_correct contains (fun _ _ => -1) (B "plex") 1 few) as (l & rest & H1 & H2 & _ & _ & H5); [done|lia|by vm_compute|].
  destruct H5 as (H5 & _ & H6); [by vm_compute|]. exists l, rest. split; [exact H1|]. split; [exact H5|].
  assert (length (l ++ rest) = 2%nat) as Hlen by (rewrite H5; by vm_compute). rewrite length_app in Hlen.
  destruct rest; [simpl in Hlen; lia|]. specialize (H6 ltac:(done)). lia.
Defined.

End IconsDemo.
