(* ===== verification/Homepage.v ===== *)
(** * The homepage

    Models internal/homepage/homepage.go, override_config.go and the handlers of
    internal/api/v1/homepage: the items of the routes, what users override, the
    categories and their order; and internal/jsonstore/jsonstore.go, which keeps
    the overrides.

    Items are shared between categories by pointer and are not changed once they
    are added, so that a category is a list of items.  The ordered map of
    categories is an association list.  The pool of routes is given in the order
    of its iteration; url.Parse and the fuzzy search are parameters. *)

From stdpp Require Import sorting.
From Stdlib Require Import Sorted Permutation.
From S2P Require Import Prelude GoStrings GoSort Icons.

(** ** Items and categories *)

Record ItemConfig := {
  ic_Show : bool;
  ic_Name : bytes;
  ic_Icon : option IconURL;
  ic_Category : bytes;
  ic_Description : bytes;
  ic_URL : bytes;
  ic_Favorite : bool;
  ic_WidgetConfig : option bytes
}.

Record Item := {
  it_Config : ItemConfig;
  it_SortOrder : Z;
  it_FavSortOrder : Z;
  it_AllSortOrder : Z;
  it_Clicks : Z;
  it_Alias : bytes;
  it_Provider : bytes;
  it_ContainerID : bytes
}.

Definition CategoryAll : bytes := B "All".
Definition CategoryFavorites : bytes := B "Favorites".
Definition CategoryHidden : bytes := B "Hidden".
Definition CategoryOthers : bytes := B "Others".

Record Category := { ca_Name : bytes; ca_Items : list Item }.

Abbreviation HomepageMap := (list Category).

Definition NewHomepageMap : HomepageMap :=
  [{| ca_Name := CategoryFavorites; ca_Items := [] |}; {| ca_Name := CategoryAll; ca_Items := [] |}; {| ca_Name := CategoryHidden; ca_Items := [] |}].

(** Append to the category of that name, which is made when there is none. *)
Fixpoint add (item : Item) (categoryName : bytes) (c : HomepageMap) : HomepageMap :=
  match c with
  | [] => [{| ca_Name := categoryName; ca_Items := [item] |}]
  | k :: c' =>
      if bool_decide (ca_Name k = categoryName) then {| ca_Name := ca_Name k; ca_Items := ca_Items k ++ [item] |} :: c'
      else k :: add item categoryName c'
  end.

Definition Add (c : HomepageMap) (item : Item) : HomepageMap :=
  let c := add item (ic_Category (it_Config item)) c in
  let c := add item CategoryAll c in
  if ic_Show (it_Config item) then
    if ic_Favorite (it_Config item) then add item CategoryFavorites c else c
  else add item CategoryHidden c.

Inductive SortMethod := SortMethodClicks | SortMethodAlphabetical | SortMethodCustom.

Definition cmp_name (a b : Item) : comparison := str_compare (ic_Name (it_Config a)) (ic_Name (it_Config b)).

(** More clicks first, then by name. *)
Definition cmp_clicks (a b : Item) : comparison :=
  match (- it_Clicks a ?= - it_Clicks b)%Z with Eq => cmp_name a b | c => c end.

Definition cmp_custom (categoryName : bytes) (a b : Item) : comparison :=
  if bool_decide (categoryName = CategoryFavorites) then (it_FavSortOrder a ?= it_FavSortOrder b)%Z
  else if bool_decide (categoryName = CategoryAll) then (it_AllSortOrder a ?= it_AllSortOrder b)%Z
  else (it_SortOrder a ?= it_SortOrder b)%Z.

Definition cmp_items (method : SortMethod) (categoryName : bytes) : Item -> Item -> comparison :=
  match method with
  | SortMethodClicks => cmp_clicks
  | SortMethodAlphabetical => cmp_name
  | SortMethodCustom => cmp_custom categoryName
  end.

(** A method that is none of the three leaves the order. *)
Definition Sort (method : option SortMethod) (c : Category) : Category :=
  match method with
  | None => c
  | Some m => {| ca_Name := ca_Name c; ca_Items := SortStableFunc (cmp_items m (ca_Name c)) (ca_Items c) |}
  end.

(** ** Overrides *)

Record OverrideConfig := {
  oc_ItemOverrides : gmap bytes ItemConfig;
  oc_DisplayOrder : gmap bytes Z;
  oc_CategoryOrder : gmap bytes Z;
  oc_AllSortOrder : gmap bytes Z;
  oc_FavSortOrder : gmap bytes Z;
  oc_ItemClicks : gmap bytes Z;
  oc_ItemVisibility : gmap bytes bool;
  oc_ItemFavorite : gmap bytes bool
}.

Definition Initialize : OverrideConfig :=
  {| oc_ItemOverrides := ∅; oc_DisplayOrder := ∅; oc_CategoryOrder := ∅; oc_AllSortOrder := ∅; oc_FavSortOrder := ∅; oc_ItemClicks := ∅;
     oc_ItemVisibility := ∅; oc_ItemFavorite := ∅ |}.

Definition with_config (f : ItemConfig -> ItemConfig) (i : Item) : Item :=
  {| it_Config := f (it_Config i); it_SortOrder := it_SortOrder i; it_FavSortOrder := it_FavSortOrder i; it_AllSortOrder := it_AllSortOrder i;
     it_Clicks := it_Clicks i; it_Alias := it_Alias i; it_Provider := it_Provider i; it_ContainerID := it_ContainerID i |}.

Definition with_show (b : bool) (c : ItemConfig) : ItemConfig :=
  {| ic_Show := b; ic_Name := ic_Name c; ic_Icon := ic_Icon c; ic_Category := ic_Category c; ic_Description := ic_Description c; ic_URL := ic_URL c;
     ic_Favorite := ic_Favorite c; ic_WidgetConfig := ic_WidgetConfig c |}.
Definition with_favorite (b : bool) (c : ItemConfig) : ItemConfig :=
  {| ic_Show := ic_Show c; ic_Name := ic_Name c; ic_Icon := ic_Icon c; ic_Category := ic_Category c; ic_Description := ic_Description c; ic_URL := ic_URL c;
     ic_Favorite := b; ic_WidgetConfig := ic_WidgetConfig c |}.
Definition with_URL (u : bytes) (c : ItemConfig) : ItemConfig :=
  {| ic_Show := ic_Show c; ic_Name := ic_Name c; ic_Icon := ic_Icon c; ic_Category := ic_Category c; ic_Description := ic_Description c; ic_URL := u;
     ic_Favorite := ic_Favorite c; ic_WidgetConfig := ic_WidgetConfig c |}.
Definition with_category (k : bytes) (c : ItemConfig) : ItemConfig :=
  {| ic_Show := ic_Show c; ic_Name := ic_Name c; ic_Icon := ic_Icon c; ic_Category := k; ic_Description := ic_Description c; ic_URL := ic_URL c;
     ic_Favorite := ic_Favorite c; ic_WidgetConfig := ic_WidgetConfig c |}.

Definition override_config (c : OverrideConfig) (a : bytes) (cfg : ItemConfig) : ItemConfig :=
  let cfg := match oc_ItemOverrides c !! a with Some o => with_URL (ic_URL cfg) o | None => cfg end in
  let cfg := match oc_ItemVisibility c !! a with Some b => with_show b cfg | None => cfg end in
  let cfg := match oc_ItemFavorite c !! a with Some b => with_favorite b cfg | None => cfg end in
  match ic_Category cfg with [] => with_category CategoryOthers cfg | _ => cfg end.

Definition GetOverride (c : OverrideConfig) (item : Item) : Item :=
  let a := it_Alias item in
  {| it_Config := override_config c a (it_Config item);
     it_SortOrder := default (it_SortOrder item) (oc_DisplayOrder c !! a);
     it_FavSortOrder := default (it_FavSortOrder item) (oc_FavSortOrder c !! a);
     it_AllSortOrder := default (it_AllSortOrder item) (oc_AllSortOrder c !! a);
     it_Clicks := default (it_Clicks item) (oc_ItemClicks c !! a);
     it_Alias := it_Alias item; it_Provider := it_Provider item; it_ContainerID := it_ContainerID item |}.

(** The changes that users make. *)
Inductive override :=
  | OverrideItem (alias : bytes) (cfg : ItemConfig)
  | OverrideItems (items : gmap bytes ItemConfig)
  | SetSortOrder (key : bytes) (value : Z)
  | SetAllSortOrder (key : bytes) (value : Z)
  | SetFavSortOrder (key : bytes) (value : Z)
  | SetItemsVisibility (keys : list bytes) (value : bool)
  | SetItemsFavorite (keys : list bytes) (value : bool)
  | SetCategoryOrder (key : bytes) (value : Z)
  | IncrementItemClicks (key : bytes).

Definition set_keys (keys : list bytes) (value : bool) (m : gmap bytes bool) : gmap bytes bool :=
  fold_left (fun m k => <[k := value]> m) keys m.

(** [OverrideItem] and [OverrideItems] ([maps.Copy]). *)
Definition override_items (o : override) (m : gmap bytes ItemConfig) : gmap bytes ItemConfig :=
  match o with
  | OverrideItem alias cfg => <[alias := cfg]> m
  | OverrideItems items => items ∪ m
  | _ => m
  end.

Definition apply_override (o : override) (c : OverrideConfig) : OverrideConfig :=
  {| oc_ItemOverrides := override_items o (oc_ItemOverrides c);
     oc_DisplayOrder := match o with SetSortOrder k v => <[k := v]> (oc_DisplayOrder c) | _ => oc_DisplayOrder c end;
     oc_CategoryOrder := match o with SetCategoryOrder k v => <[k := v]> (oc_CategoryOrder c) | _ => oc_CategoryOrder c end;
     oc_AllSortOrder := match o with SetAllSortOrder k v => <[k := v]> (oc_AllSortOrder c) | _ => oc_AllSortOrder c end;
     oc_FavSortOrder := match o with SetFavSortOrder k v => <[k := v]> (oc_FavSortOrder c) | _ => oc_FavSortOrder c end;
     oc_ItemClicks := match o with
                      | IncrementItemClicks k => <[k := wrap64 (default 0 (oc_ItemClicks c !! k) + 1)]> (oc_ItemClicks c)
                      | _ => oc_ItemClicks c
                      end;
     oc_ItemVisibility := match o with SetItemsVisibility ks v => set_keys ks v (oc_ItemVisibility c) | _ => oc_ItemVisibility c end;
     oc_ItemFavorite := match o with SetItemsFavorite ks v => set_keys ks v (oc_ItemFavorite c) | _ => oc_ItemFavorite c end |}.

(** The handlers of the API: a body that cannot be read changes nothing. *)
Definition handle_override (body : option override) (c : OverrideConfig) : Z * OverrideConfig :=
  match body with
  | None => (400, c)
  | Some o => (200, apply_override o c)
  end.

Definition SetItem (body : option (bytes * ItemConfig)) := handle_override ((fun '(which, value) => OverrideItem which value) <$> body).
Definition SetItemsBatch (body : option (gmap bytes ItemConfig)) := handle_override (OverrideItems <$> body).
Definition SetItemVisible (body : option (list bytes * bool)) := handle_override ((fun '(which, value) => SetItemsVisibility which value) <$> body).
Definition SetItemFavorite (body : option (list bytes * bool)) := handle_override ((fun '(which, value) => SetItemsFavorite which value) <$> body).
Definition SetItemSortOrder (body : option (bytes * Z)) := handle_override ((fun '(which, value) => SetSortOrder which value) <$> body).
Definition SetItemAllSortOrder (body : option (bytes * Z)) := handle_override ((fun '(which, value) => SetAllSortOrder which value) <$> body).
Definition SetItemFavSortOrder (body : option (bytes * Z)) := handle_override ((fun '(which, value) => SetFavSortOrder which value) <$> body).
Definition set_category_order (body : option (bytes * Z)) := handle_override ((fun '(which, value) => SetCategoryOrder which value) <$> body).
Definition ItemClick (which : option bytes) := handle_override (IncrementItemClicks <$> which).

(** ** The list of items *)

Record ItemsRequest := {
  rq_SearchQuery : bytes;
  rq_Category : bytes;
  rq_Provider : bytes;
  rq_SortMethod : option SortMethod
}.

Section Items.

(** [url.Parse] succeeds; [fuzzy.MatchFold]. *)
Context (url_ok : bytes -> bool) (MatchFold : bytes -> bytes -> bool).

(** [_, hostname, _ = strings.Cut(hostname, ".")] for a name with a subdomain. *)
Definition parent_domain (hostname : bytes) : bytes :=
  if (1 <? length (base.filter (fun c => c = "."%char) hostname))%nat then snd (fst (Cut hostname ".")) else hostname.

Definition has_scheme (u : bytes) : bool := HasPrefix u "http://" || HasPrefix u "https://".

Definition item_URL (proto hostname : bytes) (item : Item) : bytes :=
  let u := if url_ok (ic_URL (it_Config item)) then ic_URL (it_Config item) else [] in
  let u := if negb (bool_decide (hostname = [])) && bool_decide (u = []) then
             if bool_decide ("."%char ∈ it_Alias item) then proto ++ B "://" ++ it_Alias item
             else proto ++ B "://" ++ it_Alias item ++ "."%char :: hostname
           else u in
  if has_scheme u then u else proto ++ B "://" ++ u.

Definition wanted (rq : ItemsRequest) (item : Item) : bool :=
  (bool_decide (rq_Provider rq = []) || bool_decide (it_Provider item = rq_Provider rq)) &&
  (bool_decide (rq_Category rq = []) || bool_decide (ic_Category (it_Config item) = rq_Category rq)) &&
  (bool_decide (rq_SearchQuery rq = []) || MatchFold (rq_SearchQuery rq) (ic_Name (it_Config item))).

(** [overrides.CategoryOrder[a] - overrides.CategoryOrder[b]], an [int]. *)
Definition cmp_categories (order : gmap bytes Z) (a b : Category) : comparison :=
  if bool_decide (ca_Name a = CategoryHidden) then Gt
  else if bool_decide (ca_Name b = CategoryHidden) then Lt
  else (wrap64 (default 0 (order !! ca_Name a) - default 0 (order !! ca_Name b)) ?= 0)%Z.

(** The items that are shown, with their URLs. *)
Definition shown_items (c : OverrideConfig) (proto hostname : bytes) (rq : ItemsRequest) (rs : list Item) : list Item :=
  map (fun i => with_config (with_URL (item_URL proto (parent_domain hostname) i)) i)
    (List.filter (wanted rq) (map (GetOverride c) rs)).

(** [rs]: the items of the routes in the order of the pool. *)
Definition HomepageItems (c : OverrideConfig) (proto hostname : bytes) (rq : ItemsRequest) (rs : list Item) : list Category :=
  let proto := if bool_decide (proto = B "https") then proto else B "http" in
  let hp := fold_left Add (shown_items c proto hostname rq rs) NewHomepageMap in
  SortStableFunc (cmp_categories (oc_CategoryOrder c)) (map (Sort (rq_SortMethod rq)) hp).

(** The names of categories, in order of appearance. *)
Definition HomepageCategories (c : OverrideConfig) (rs : list Item) : list bytes :=
  CategoryAll :: CategoryFavorites ::
  fold_left (fun acc i =>
    let k := ic_Category (it_Config (GetOverride c i)) in
    if bool_decide (k = []) || bool_decide (k ∈ acc) then acc else acc ++ [k]) rs [].

End Items.

(** ** Which category an item is in *)

Definition items_of (name : bytes) (c : HomepageMap) : list Item :=
  match List.find (fun k => bool_decide (ca_Name k = name)) c with Some k => ca_Items k | None => [] end.

(** How often an item is put into a category. *)
Definition copies (name : bytes) (i : Item) : list Item :=
  (if bool_decide (ic_Category (it_Config i) = name) then [i] else []) ++
  (if bool_decide (CategoryAll = name) then [i] else []) ++
  (if ic_Show (it_Config i) then
     if ic_Favorite (it_Config i) then (if bool_decide (CategoryFavorites = name) then [i] else []) else []
   else if bool_decide (CategoryHidden = name) then [i] else []).

Lemma items_of_add i k name c : items_of name (add i k c) = items_of name c ++ (if bool_decide (k = name) then [i] else []).
Proof.
  unfold items_of. induction c as [|x c IH]; cbn [add List.find].
  { cbn [ca_Name]. case_bool_decide; [done|]. cbn [List.find]. done. }
  destruct (bool_decide (ca_Name x = k)) eqn:Ek; cbn [List.find ca_Name]; reflect.
  - subst k. case_bool_decide; [done|]. by rewrite app_nil_r.
  - destruct (bool_decide (ca_Name x = name)) eqn:En; [|done]. reflect. subst name. rewrite bool_decide_eq_false_2 by congruence. by rewrite app_nil_r.
Qed.

Lemma items_of_Add c i name : items_of name (Add c i) = items_of name c ++ copies name i.
Proof.
  unfold Add, copies. destruct (ic_Show _); [destruct (ic_Favorite _)|]; rewrite !items_of_add; rewrite <- !app_assoc; by rewrite ?app_nil_r.
Qed.

Lemma names_add i k c : exists l, map ca_Name (add i k c) = map ca_Name c ++ l /\ (l = [] \/ l = [k] /\ k ∉ map ca_Name c).
Proof.
  induction c as [|x c IH]; cbn [add map]; [exists [k]; split; [done|right; split; [done|apply not_elem_of_nil]]|].
  destruct (bool_decide (ca_Name x = k)) eqn:E; cbn [map ca_Name]; reflect.
  - exists []. rewrite app_nil_r. auto.
  - destruct IH as (l & -> & Hl). exists l. split; [done|]. destruct Hl as [->|[-> Hk]]; [by left|right]. split; [done|]. by rewrite not_elem_of_cons.
Qed.

Lemma names_add_NoDup i k c : NoDup (map ca_Name c) -> NoDup (map ca_Name (add i k c)).
Proof.
  intros Hn. destruct (names_add i k c) as (l & -> & [->|[-> Hk]]); [by rewrite app_nil_r|].
  apply NoDup_app. split; [done|]. split; [|apply NoDup_singleton]. intros x Hx Hx'. apply list_elem_of_singleton in Hx' as ->. done.
Qed.

Lemma names_add_incl i k c n : n ∈ map ca_Name c -> n ∈ map ca_Name (add i k c).
Proof. intros Hn. destruct (names_add i k c) as (l & -> & _). apply elem_of_app. by left. Qed.

Lemma Add_names c i : NoDup (map ca_Name c) -> NoDup (map ca_Name (Add c i)) /\ (forall n, n ∈ map ca_Name c -> n ∈ map ca_Name (Add c i)).
Proof.
  intros Hn. unfold Add. destruct (ic_Show _); [destruct (ic_Favorite _)|]; split; eauto using names_add_NoDup, names_add_incl.
Qed.

Lemma fold_Add items : forall c, NoDup (map ca_Name c) ->
  NoDup (map ca_Name (fold_left Add items c)) /\ (forall n, n ∈ map ca_Name c -> n ∈ map ca_Name (fold_left Add items c)) /\
  (forall name, items_of name (fold_left Add items c) = items_of name c ++ flat_map (copies name) items).
Proof.
  induction items as [|i items IH]; intros c Hn; cbn [fold_left flat_map].
  { split_and!; [done|done|]. intros. by rewrite app_nil_r. }
  destruct (Add_names c i Hn) as [Hn' Hi]. destruct (IH (Add c i) Hn') as (H1 & H2 & H3). split_and!; [done|auto|].
  intros name. rewrite H3, items_of_Add. by rewrite <- app_assoc.
Qed.

Lemma items_of_in c k : NoDup (map ca_Name c) -> k ∈ c -> items_of (ca_Name k) c = ca_Items k.
Proof.
  unfold items_of. induction c as [|x c IH]; intros Hn Hk; [by apply not_elem_of_nil in Hk|]. cbn [map] in Hn. apply NoDup_cons in Hn as [Hx Hn].
  cbn [List.find]. apply elem_of_cons in Hk as [->|Hk]; [by rewrite bool_decide_eq_true_2|].
  rewrite bool_decide_eq_false_2; [by apply IH|]. intros E. apply Hx. rewrite E. rewrite list_elem_of_In. apply in_map. by apply list_elem_of_In.
Qed.

(** ** The order of the page *)

#[export] Instance cmp_items_total m name : TotalCompare (cmp_items m name).
Proof.
  destruct m; simpl; unfold cmp_clicks, cmp_name, cmp_custom; [|apply (text_compare_total (fun a => ic_Name (it_Config a)))|].
  - apply (then_compare_total (fun a b => (- it_Clicks a ?= - it_Clicks b)%Z) (fun a b => str_compare (ic_Name (it_Config a)) (ic_Name (it_Config b)))).
  - destruct (bool_decide _); [apply (key_compare_total it_FavSortOrder)|].
    destruct (bool_decide _); [apply (key_compare_total it_AllSortOrder)|apply (key_compare_total it_SortOrder)].
Qed.

(** Hidden last, the others by their order. *)
Definition hidden_rank (k : Category) : Z := if bool_decide (ca_Name k = CategoryHidden) then 1 else 0.
Definition order_of (order : gmap bytes Z) (k : Category) : Z :=
  if bool_decide (ca_Name k = CategoryHidden) then 0 else default 0 (order !! ca_Name k).

Definition cmp_spec (order : gmap bytes Z) (a b : Category) : comparison :=
  match (hidden_rank a ?= hidden_rank b)%Z with Eq => (order_of order a ?= order_of order b)%Z | c => c end.

#[export] Instance cmp_spec_total order : TotalCompare (cmp_spec order).
Proof.
  apply (then_compare_total (fun a b => (hidden_rank a ?= hidden_rank b)%Z) (fun a b => (order_of order a ?= order_of order b)%Z)).
Qed.

(** No order is so large that a difference overflows. *)
Definition small_orders (order : gmap bytes Z) : Prop := map_Forall (fun _ v => - 2 ^ 62 <= v < 2 ^ 62) order.

Lemma order_small order n : small_orders order -> - 2 ^ 62 <= default 0 (order !! n) < 2 ^ 62.
Proof. intros Hs. destruct (order !! n) as [v|] eqn:E; simpl; [exact (Hs n v E)|lia]. Qed.

Lemma cmp_categories_spec order a b : small_orders order -> ca_Name a <> ca_Name b -> cmp_categories order a b = cmp_spec order a b.
Proof.
  intros Hs Hne. unfold cmp_categories, cmp_spec, hidden_rank, order_of.
  destruct (bool_decide (ca_Name a = CategoryHidden)) eqn:Ea, (bool_decide (ca_Name b = CategoryHidden)) eqn:Eb; reflect; [congruence|done..|].
  pose proof (order_small order (ca_Name a) Hs). pose proof (order_small order (ca_Name b) Hs). cbn [Z.compare].
  unfold wrap64. rewrite Z.mod_small by lia.
  destruct (Z.compare_spec (default 0 (order !! ca_Name a)) (default 0 (order !! ca_Name b))).
  - apply Z.compare_eq_iff. lia.
  - apply Z.compare_lt_iff. lia.
  - apply Z.compare_gt_iff. lia.
Qed.

Lemma distinct_agree order l : small_orders order -> NoDup (map ca_Name l) ->
  StronglySorted (fun a b => cmp_categories order a b = cmp_spec order a b) l.
Proof.
  intros Hs. induction l as [|x l IH]; intros Hn; [constructor|]. cbn [map] in Hn. apply NoDup_cons in Hn as [Hx Hn]. constructor; [auto|].
  apply Forall_forall. intros y Hy. apply cmp_categories_spec; [done|]. intros E. apply Hx. rewrite E. rewrite list_elem_of_In. apply in_map. by apply list_elem_of_In.
Qed.

Lemma Sort_name m k : ca_Name (Sort m k) = ca_Name k.
Proof. by destruct m. Qed.

Lemma map_Sort_names m l : map ca_Name (map (Sort m) l) = map ca_Name l.
Proof. rewrite map_map. apply map_ext, Sort_name. Qed.

(** A list sorted by the specification ends with the hidden category. *)
Lemma hidden_last order r :
  sorted (cmp_spec order) r -> NoDup (map ca_Name r) -> CategoryHidden ∈ map ca_Name r ->
  exists l h, r = l ++ [h] /\ ca_Name h = CategoryHidden /\
    StronglySorted (fun a b => default 0 (order !! ca_Name a) <= default 0 (order !! ca_Name b)) l.
Proof.
  intros Hs Hn Hh. rewrite list_elem_of_In, in_map_iff in Hh. destruct Hh as (h & Eh & Hin). apply list_elem_of_In in Hin.
  apply list_elem_of_split in Hin as (l & l2 & ->). rewrite map_app in Hn. cbn [map] in Hn. apply NoDup_app in Hn as (Hn1 & Hn2 & Hn3).
  apply NoDup_cons in Hn3 as [Hn3 _]. unfold sorted in Hs. apply StronglySorted_app in Hs as (_ & Hs1 & Hs2).
  apply StronglySorted_inv in Hs2 as [_ Hf].
  assert (l2 = []) as ->.
  { destruct l2 as [|y l2]; [done|]. apply Forall_cons in Hf as [Hy _]. exfalso. unfold cmp_le, cmp_spec, hidden_rank in Hy.
    rewrite (bool_decide_eq_true_2 (ca_Name h = CategoryHidden)) in Hy by done.
    destruct (bool_decide (ca_Name y = CategoryHidden)) eqn:Ey; [|done]. reflect. apply Hn3. rewrite Eh, <- Ey. by left. }
  exists l, h. split; [done|]. split; [done|].
  assert (Hnh : Forall (fun a => ca_Name a <> CategoryHidden) l).
  { apply Forall_forall. intros a Ha Ea. apply (Hn2 (ca_Name a)); [rewrite list_elem_of_In; apply in_map; by apply list_elem_of_In|]. rewrite Ea, <- Eh. by left. }
  clear Hn1 Hn2 Hn3 Hf. induction Hs1 as [|a l _ IH Ha]; [constructor|]. apply Forall_cons in Hnh as [Hna Hnh]. constructor; [auto|].
  apply Forall_forall. intros b Hb. rewrite Forall_forall in Ha, Hnh. specialize (Ha b Hb). specialize (Hnh b Hb).
  unfold cmp_le, cmp_spec, hidden_rank, order_of in Ha. rewrite !bool_decide_eq_false_2 in Ha by done. by apply Z.compare_le_iff.
Qed.

(** The categories an item belongs to: its own, All, and either Hidden or, for a
    favourite, Favorites. *)
Definition belongs (name : bytes) (i : Item) : Prop :=
  name = ic_Category (it_Config i) \/ name = CategoryAll
  \/ (ic_Show (it_Config i) = true /\ ic_Favorite (it_Config i) = true /\ name = CategoryFavorites)
  \/ (ic_Show (it_Config i) = false /\ name = CategoryHidden).

Lemma copies_belong name i j : j ∈ copies name i <-> j = i /\ belongs name i.
Proof.
  unfold copies, belongs. destruct (ic_Show (it_Config i)), (ic_Favorite (it_Config i)); repeat case_bool_decide; simplify_eq; set_solver.
Qed.

Lemma shown_belongs name shown i : i ∈ flat_map (copies name) shown <-> i ∈ shown /\ belongs name i.
Proof.
  rewrite list_elem_of_In, in_flat_map. split.
  - intros (j & Hj & Hi). apply list_elem_of_In, copies_belong in Hi as [-> Hb]. split; [by apply list_elem_of_In|done].
  - intros [Hi Hb]. exists i. split; [by apply list_elem_of_In|]. apply list_elem_of_In. by apply copies_belong.
Qed.

Section Page.
Context (url_ok : bytes -> bool) (MatchFold : bytes -> bytes -> bool).

(** C39: the page: every category that has an item, once, with exactly the shown
    items that belong to it (an item belongs to its own category, to All, and to
    Hidden or, if it is a favourite, to Favorites; it is listed once for each of
    these reasons, so twice in All, Favorites or Hidden when that is also its own
    category), in the order asked for. If the configured orders are below 2^62 in
    size, so that their differences do not overflow, the hidden items come last
    and the other categories by their configured order. *)
Theorem homepage_exact c proto hostname rq rs :
  let r := HomepageItems url_ok MatchFold c proto hostname rq rs in
  let shown := shown_items url_ok MatchFold c (if bool_decide (proto = B "https") then proto else B "http") hostname rq rs in
  NoDup (map ca_Name r) /\
  (forall k, k ∈ r ->
     (forall i, i ∈ ca_Items k <-> i ∈ shown /\ belongs (ca_Name k) i) /\
     ca_Items k ≡ₚ flat_map (copies (ca_Name k)) shown /\
     forall m, rq_SortMethod rq = Some m -> sorted (cmp_items m (ca_Name k)) (ca_Items k)) /\
  (forall name i, i ∈ shown -> belongs name i -> name ∈ map ca_Name r) /\
  (small_orders (oc_CategoryOrder c) ->
     exists l h, r = l ++ [h] /\ ca_Name h = CategoryHidden /\
       StronglySorted (fun a b => default 0 (oc_CategoryOrder c !! ca_Name a) <= default 0 (oc_CategoryOrder c !! ca_Name b)) l).
Proof.
  intros r shown. unfold HomepageItems in r. fold shown in r. set (hp := fold_left Add shown NewHomepageMap) in r.
  destruct (fold_Add shown NewHomepageMap) as (Hn & Hi & Hit); [decide_closed|]. fold hp in Hn, Hi, Hit.
  assert (Hn' : NoDup (map ca_Name (map (Sort (rq_SortMethod rq)) hp))) by (by rewrite map_Sort_names).
  assert (Hperm : r ≡ₚ map (Sort (rq_SortMethod rq)) hp) by apply SortStableFunc_perm.
  assert (Hnames : map ca_Name r ≡ₚ map ca_Name hp) by (rewrite <- (map_Sort_names (rq_SortMethod rq) hp); by apply Permutation_map).
  assert (Hempty : forall name, items_of name NewHomepageMap = []).
  { intros name. unfold items_of, NewHomepageMap. cbn [List.find ca_Name]. by repeat case_bool_decide. }
  split; [by rewrite Hnames|]. split.
  { intros k Hk. rewrite Hperm in Hk. rewrite list_elem_of_In, in_map_iff in Hk. destruct Hk as (k0 & <- & Hk0). apply list_elem_of_In in Hk0.
    rewrite Sort_name. specialize (Hit (ca_Name k0)). rewrite Hempty in Hit. cbn [app] in Hit. rewrite (items_of_in hp k0 Hn Hk0) in Hit.
    assert (Hp : ca_Items (Sort (rq_SortMethod rq) k0) ≡ₚ flat_map (copies (ca_Name k0)) shown).
    { rewrite <- Hit. unfold Sort. destruct (rq_SortMethod rq); [apply SortStableFunc_perm|done]. }
    split; [intros i; rewrite Hp; apply shown_belongs|]. split; [exact Hp|].
    intros m E. unfold Sort. rewrite E. cbn [ca_Items]. apply SortStableFunc_sorted, _. }
  split.
  { intros name i Hi0 Hb. assert (Hne : flat_map (copies name) shown <> []).
    { intros E. apply (not_elem_of_nil i). rewrite <- E. by apply shown_belongs. }
    rewrite Hnames. specialize (Hit name). rewrite Hempty in Hit. cbn [app] in Hit. rewrite <- Hit in Hne. unfold items_of in Hne.
    destruct (List.find _ hp) as [k|] eqn:Ef; [|done]. apply find_some in Ef as [Hk En]. reflect. subst name. rewrite list_elem_of_In. by apply in_map. }
  intros Hs.
  assert (Hr : r = SortStableFunc (cmp_spec (oc_CategoryOrder c)) (map (Sort (rq_SortMethod rq)) hp)) by (by apply SortStableFunc_ext, distinct_agree).
  apply hidden_last; [|by rewrite Hnames|].
  - rewrite Hr. apply SortStableFunc_sorted, _.
  - rewrite Hnames. apply Hi. decide_closed.
Qed.

(** The URL of every item that is shown has a scheme. *)
Lemma item_URL_scheme proto hostname i : proto = B "http" \/ proto = B "https" -> has_scheme (item_URL url_ok proto hostname i) = true.
Proof.
  intros Hp. unfold item_URL. cbv zeta. match goal with |- context [if has_scheme ?u then _ else _] => destruct (has_scheme u) eqn:E; [done|] end.
  unfold has_scheme. destruct Hp as [-> | ->]; apply orb_true_iff; [left|right]; apply bool_decide_eq_true_2; reflexivity.
Qed.

End Page.

(** ** Overrides *)

Lemma override_config_idem c a cfg :
  let d := override_config c a cfg in
  override_config c a d = d /\ ic_URL d = ic_URL cfg /\ ic_Category d <> [].
Proof.
  unfold override_config. destruct cfg as [sh n ico k de u fv w].
  destruct (oc_ItemOverrides c !! a) as [[sh' n' ico' k' de' u' fv' w']|], (oc_ItemVisibility c !! a) as [v|], (oc_ItemFavorite c !! a) as [f|];
    unfold with_URL, with_show, with_favorite, with_category;
    cbn [ic_Show ic_Name ic_Icon ic_Category ic_Description ic_URL ic_Favorite ic_WidgetConfig];
    try destruct k'; try destruct k; done.
Qed.

(** Overriding twice is overriding once; the identity of an item and its URL are
    not changed, and it has a category. *)
Theorem override_idempotent c i :
  let j := GetOverride c i in
  GetOverride c j = j /\ it_Alias j = it_Alias i /\ ic_URL (it_Config j) = ic_URL (it_Config i) /\ ic_Category (it_Config j) <> [].
Proof.
  destruct (override_config_idem c (it_Alias i) (it_Config i)) as (H1 & H2 & H3).
  unfold GetOverride. cbn [it_Alias it_Config it_SortOrder it_FavSortOrder it_AllSortOrder it_Clicks it_Provider it_ContainerID].
  split; [|done]. f_equal; [exact H1|by destruct (_ !! _)..].
Qed.

(** What a change says is what the next page shows, whatever was set before. *)
Lemma set_keys_lookup ks v : forall m k, set_keys ks v m !! k = if bool_decide (k ∈ ks) then Some v else m !! k.
Proof.
  unfold set_keys. induction ks as [|a ks IH]; intros m k; cbn [fold_left]; [done|]. rewrite IH.
  destruct (decide (k ∈ ks)) as [Hk|Hk]; [rewrite !bool_decide_eq_true_2; [done|by right|done]|]. rewrite (bool_decide_eq_false_2 (k ∈ ks)) by done.
  destruct (decide (k = a)) as [->|Hne]; [rewrite lookup_insert_eq, bool_decide_eq_true_2; [done|by left]|].
  rewrite lookup_insert_ne, bool_decide_eq_false_2; [done| |done]. rewrite elem_of_cons. naive_solver.
Qed.

(** Clicks are counted. *)
Lemma clicks_counted c k n :
  0 <= default 0 (oc_ItemClicks c !! k) -> default 0 (oc_ItemClicks c !! k) + Z.of_nat n < 2 ^ 63 ->
  default 0 (oc_ItemClicks (Nat.iter n (apply_override (IncrementItemClicks k)) c) !! k) = default 0 (oc_ItemClicks c !! k) + Z.of_nat n.
Proof.
  intros H0 Hn. induction n as [|n IH]; [cbn [Nat.iter nat_rect]; lia|]. cbn [Nat.iter nat_rect apply_override oc_ItemClicks]. rewrite lookup_insert_eq. cbn [default from_option id].
  change (nat_rect (fun _ => OverrideConfig) c (fun _ => apply_override (IncrementItemClicks k)) n) with (Nat.iter n (apply_override (IncrementItemClicks k)) c).
  rewrite IH by lia. unfold wrap64. rewrite Z.mod_small; lia.
Qed.

(** ** Stores *)

(** internal/jsonstore: values by namespace, kept in memory and written to one
    file each at the end of the program.  [enc] and [dec] are sonic's; [dec] is
    given the value it decodes into. *)
Section Store.
Context {S : Type} (enc : S -> option bytes) (dec : bytes -> S -> S * bool) (init : S).

Record stores_state := { ss_stores : gmap bytes S; ss_files : gmap bytes bytes }.

(** [loadNS]: the value is registered also when its file cannot be decoded. *)
Definition loadNS (readable : bool) (ns : bytes) (st : stores_state) : S * stores_state :=
  let v := match ss_files st !! ns with
           | Some f => if readable then fst (dec f init) else init
           | None => init
           end in
  (v, {| ss_stores := <[ns := v]> (ss_stores st); ss_files := ss_files st |}).

(** [Store] and [Object]: a namespace is used once; [None] ends the program. *)
Definition Object (readable : bool) (ns : bytes) (st : stores_state) : option (S * stores_state) :=
  if bool_decide (is_Some (ss_stores st !! ns)) then None else Some (loadNS readable ns st).

(** [save]: each store on its own; [ok ns] when the file could be written. *)
Definition save (ok : bytes -> bool) (st : stores_state) : stores_state * bool :=
  let written := map_imap (fun ns v => if ok ns then enc v else None) (ss_stores st) in
  ({| ss_stores := ss_stores st; ss_files := written ∪ ss_files st |},
   bool_decide (map_Forall (fun ns v => ok ns = true /\ is_Some (enc v)) (ss_stores st))).

(** A value that could be written is found again by the next run, also when
    others could not. *)
Theorem store_roundtrip ok ns v st :
  ss_stores st !! ns = Some v -> ok ns = true -> (forall b, enc v = Some b -> dec b init = (v, true)) -> is_Some (enc v) ->
  exists st', Object true ns {| ss_stores := ∅; ss_files := ss_files (fst (save ok st)) |} = Some (v, st').
Proof.
  intros Hns Hok Hdec [b Hb]. unfold Object. cbn [ss_stores]. rewrite bool_decide_eq_false_2 by (rewrite lookup_empty; by intros []).
  unfold loadNS. cbn [ss_files ss_stores save fst].
  assert (E : (map_imap (fun ns v => if ok ns then enc v else None) (ss_stores st) ∪ ss_files st) !! ns = Some b).
  { apply lookup_union_Some_l. rewrite map_lookup_imap, Hns. simpl. by rewrite Hok. }
  rewrite E. rewrite (Hdec b Hb). by eexists.
Qed.

End Store.

(** ** Examples *)

Module HomepageDemo.

Definition cfg (name category : bytes) (show fav : bool) : ItemConfig :=
  {| ic_Show := show; ic_Name := name; ic_Icon := None; ic_Category := category; ic_Description := []; ic_URL := []; ic_Favorite := fav; ic_WidgetConfig := None |}.

Definition item (alias category : bytes) (show fav : bool) : Item :=
  {| it_Config := cfg alias category show fav; it_SortOrder := 0; it_FavSortOrder := 0; it_AllSortOrder := 0; it_Clicks := 0; it_Alias := alias;
     it_Provider := B "docker"; it_ContainerID := [] |}.

Definition rq : ItemsRequest := {| rq_SearchQuery := []; rq_Category := []; rq_Provider := []; rq_SortMethod := Some SortMethodAlphabetical |}.

Definition pool : list Item := [item (B "plex") (B "Media") true true; item (B "gitea") [] true false; item (B "admin") (B "Media") false false].

Definition page : list Category :=
  HomepageItems (fun _ => true) (fun _ _ => true) Initialize (B "https") (B "home.example.com") rq pool.

Example page_contents :
  map (fun k => (ca_Name k, map (fun i => ic_URL (it_Config i)) (ca_Items k))) page =
  [(CategoryFavorites, [B "https://plex.example.com"]);
   (CategoryAll, [B "https://admin.example.com"; B "https://gitea.example.com"; B "https://plex.example.com"]);
   (B "Media", [B "https://admin.example.com"; B "https://plex.example.com"]);
   (CategoryOthers, [B "https://gitea.example.com"]);
   (CategoryHidden, [B "https://admin.example.com"])].
Proof. by vm_compute. Qed.

Lemma homepage_exact_witness :
  NoDup (map ca_Name page) /\ exists l h, page = l ++ [h] /\ ca_Name h = CategoryHidden.
Proof.
  destruct (homepage_exact (fun _ => true) (fun _ _ => true) Initialize (B "https") (B "home.example.com") rq pool) as (H1 & _ & _ & (l & h & H2 & H3 & _)).
  - cbn [Initialize oc_CategoryOrder]. apply map_Forall_empty.
  - split; [exact H1|]. exists l, h. split; [exact H2|exact H3].
Defined.

(** An item whose category is one of the built-in ones is listed twice in it. *)
Example category_all_twice :
  map it_Alias (items_of CategoryAll (Add NewHomepageMap (item (B "plex") CategoryAll true false))) = [B "plex"; B "plex"].
Proof. by vm_compute. Qed.

(** With orders at the ends of the range the difference wraps around and the
    order is reversed. *)
Example order_overflow :
  cmp_categories (<[B "a" := 2 ^ 63 - 1]> (<[B "b" := -1]> ∅)) {| ca_Name := B "a"; ca_Items := [] |} {| ca_Name := B "b"; ca_Items := [] |} = Lt.
Proof. by vm_compute. Qed.

Definition enc_text (v : bytes) : option bytes := Some v.
Definition dec_text (b : bytes) (v : bytes) : bytes * bool := (b, true).

Lemma store_roundtrip_witness :
  exists st', Object dec_text [] true (B "a") {| ss_stores := ∅;
    ss_files := ss_files (fst (save enc_text (fun _ => true) {| ss_stores := {[B "a" := B "clicks"]}; ss_files := ∅ |})) |} = Some (B "clicks", st').
Proof.
  apply (store_roundtrip enc_text dec_text [] (fun _ => true) (B "a") (B "clicks") {| ss_stores := {[B "a" := B "clicks"]}; ss_files := ∅ |});
    [by vm_compute|done|intros b [= <-]; done|by eexists].
Defined.

End HomepageDemo.
