(* ===== verification/MaxMind.v ===== *)
(** * The MaxMind database

    Models internal/maxmind/maxmind.go, instance.go and types/config.go: loading
    the database, checking for updates, downloading, and replacing the file and
    the open reader.

    The answers of the server, decompression and the operating system are
    arguments; an archive is its list of entries.  [opens] tells which contents
    maxminddb.Open accepts. *)

From S2P Require Import Prelude GoStrings.

(** ** Configuration *)

Inductive DatabaseType := NoDatabase | MaxMindGeoLite | MaxMindGeoIP2.

Record Config := { mc_AccountID : bytes; mc_LicenseKey : bytes; mc_Database : DatabaseType }.

Definition Validate (c : Config) : Config :=
  {| mc_AccountID := mc_AccountID c; mc_LicenseKey := mc_LicenseKey c;
     mc_Database := match mc_Database c with NoDatabase => MaxMindGeoLite | d => d end |}.

Definition dbFilename (c : Config) : bytes :=
  match mc_Database c with MaxMindGeoLite => B "GeoLite2-Country.mmdb" | _ => B "GeoIP2-Country.mmdb" end.

Definition dbURL (c : Config) : bytes :=
  match mc_Database c with
  | MaxMindGeoLite => B "https://download.maxmind.com/geoip/databases/GeoLite2-Country/download?suffix=tar.gz"
  | _ => B "https://download.maxmind.com/geoip/databases/GeoIP2-Country/download?suffix=tar.gz"
  end.

(** ** Archives *)

(** An entry: the base of its name, the size in its header and its bytes; or a
    place where reading fails. *)
Inductive tar_item := TarError | TarFile (base : bytes) (size : Z) (data : bytes).

(** [None]: not gzip data. *)
Definition archive : Type := option (list tar_item).

Inductive mm_error :=
  | GzipError | ReadError | TooLarge | OpenError | CopyError | NotInArchive
  | RequestError | ResponseNotOK | InvalidDatabase | RenameError | ReopenError | OtherOpenError.

Definition maxArchiveSize : Z := 30 * 1024 * 1024.

(** What becomes of the destination file, and the error. *)
Fixpoint extract_loop (target : bytes) (open_ok : bool) (sumSize : Z) (items : list tar_item) : option bytes * option mm_error :=
  match items with
  | [] => (None, Some NotInArchive)
  | TarError :: _ => (None, Some ReadError)
  | TarFile base size data :: items' =>
      let sumSize := sumSize + size in
      if maxArchiveSize <? sumSize then (None, Some TooLarge)
      else if bool_decide (base = target) then
        if negb open_ok then (None, Some OpenError)
        else if Z.of_nat (length data) <? size then (Some data, Some CopyError)
        else (Some (take (Z.to_nat size) data), None)
      else extract_loop target open_ok sumSize items'
  end.

Definition extractFileFromTarGz (a : archive) (target : bytes) (open_ok : bool) : option bytes * option mm_error :=
  match a with
  | None => (None, Some GzipError)
  | Some items => extract_loop target open_ok 0 items
  end.

(** ** The database *)

Inductive last_modified := NoHeader | BadHeader | Modified (t : Z).

Record response := { rs_StatusCode : Z; rs_LastModified : last_modified; rs_Body : option archive }.     (* [None]: reading fails *)

(** The database file with its modification time, and the temporary file. *)
Record disk := { dk_db : option (bytes * Z); dk_tmp : option bytes }.

Record MaxMind := {
  mm_Config : Config;
  mm_lastUpdate : Z;
  mm_reader : option bytes;          (* the contents of the open database *)
  mm_scheduled : bool;               (* [scheduleUpdate] runs *)
  mm_disk : disk
}.

Definition zero_time : Z := - 62135596800.

Definition set_disk (d : disk) (m : MaxMind) : MaxMind :=
  {| mm_Config := mm_Config m; mm_lastUpdate := mm_lastUpdate m; mm_reader := mm_reader m; mm_scheduled := mm_scheduled m; mm_disk := d |}.
Definition set_reader (r : option bytes) (m : MaxMind) : MaxMind :=
  {| mm_Config := mm_Config m; mm_lastUpdate := mm_lastUpdate m; mm_reader := r; mm_scheduled := mm_scheduled m; mm_disk := mm_disk m |}.
Definition set_scheduled (m : MaxMind) : MaxMind :=
  {| mm_Config := mm_Config m; mm_lastUpdate := mm_lastUpdate m; mm_reader := mm_reader m; mm_scheduled := true; mm_disk := mm_disk m |}.
Definition set_last (t : Z) (m : MaxMind) : MaxMind :=
  {| mm_Config := mm_Config m; mm_lastUpdate := t; mm_reader := mm_reader m; mm_scheduled := mm_scheduled m; mm_disk := mm_disk m |}.

Definition loadLastUpdate (m : MaxMind) : MaxMind :=
  match dk_db (mm_disk m) with Some (_, t) => set_last t m | None => m end.

(** [os.Chtimes]; its error is ignored. *)
Definition setLastUpdate (t : Z) (chtimes_ok : bool) (m : MaxMind) : MaxMind :=
  let m := set_last t m in
  match dk_db (mm_disk m) with
  | Some (content, _) => if chtimes_ok then set_disk {| dk_db := Some (content, t); dk_tmp := dk_tmp (mm_disk m) |} m else m
  | None => m
  end.

Section MM.
Context (opens : bytes -> bool).

(** How the operating system behaves during a download, and the time. *)
Record os_run := { or_now : Z; or_open_ok : bool; or_rename_ok : bool; or_reopen_ok : bool; or_chtimes_ok : bool }.

Definition download (resp : option response) (o : os_run) (m : MaxMind) : MaxMind * option mm_error :=
  match resp with
  | None => (m, Some RequestError)
  | Some r =>
      if negb (rs_StatusCode r =? 200) then (m, Some ResponseNotOK)
      else match rs_Body r with
           | None => (m, Some ReadError)
           | Some a =>
               let '(written, err) := extractFileFromTarGz a (dbFilename (mm_Config m)) (or_open_ok o) in
               let tmp := match written with Some c => Some c | None => dk_tmp (mm_disk m) end in
               let m := set_disk {| dk_db := dk_db (mm_disk m); dk_tmp := tmp |} m in
               match err, written with
               | Some e, _ => (m, Some e)
               | None, None => (m, Some NotInArchive)           (* not reached: without error the file is written *)
               | None, Some content =>
                   if negb (opens content) then (set_disk {| dk_db := dk_db (mm_disk m); dk_tmp := None |} m, Some InvalidDatabase)
                   else if negb (or_rename_ok o) then (m, Some RenameError)
                   else
                     let m := set_disk {| dk_db := Some (content, or_now o); dk_tmp := None |} m in
                     if negb (or_reopen_ok o) then (set_reader None m, Some ReopenError)
                     else
                       let m := set_reader (Some content) m in
                       (match rs_LastModified r with Modified t => setLastUpdate t (or_chtimes_ok o) m | _ => m end, None)
               end
           end
  end.

(** [checkLastest]: an error, no time, or the time. *)
Definition checkLastest (resp : option response) : mm_error + option Z :=
  match resp with
  | None => inl RequestError
  | Some r =>
      if negb (rs_StatusCode r =? 200) then inl ResponseNotOK
      else match rs_LastModified r with
           | NoHeader => inr None
           | BadHeader => inl ReadError
           | Modified t => inr (Some t)
           end
  end.

(** [update]: [remoteLastModified.Equal] is called on what [checkLastest]
    returned. *)
Definition update (head get : option response) (o : os_run) (m : MaxMind) : result Empty_set MaxMind :=
  match checkLastest head with
  | inl _ => Ok m
  | inr None => Panic NilDereference
  | inr (Some t) => if t =? mm_lastUpdate m then Ok m else Ok (fst (download get o m))
  end.

(** [scheduleUpdate] before its first tick. *)
Definition scheduleUpdate (head get : option response) (o : os_run) (m : MaxMind) : result Empty_set MaxMind :=
  update head get o (set_scheduled (loadLastUpdate m)).

(** What opening the file says. *)
Inductive open_result := Opened (content : bytes) | NotExist | Invalid | OtherError.

Definition maxmindDBOpen (d : disk) (readable : bool) : open_result :=
  match dk_db d with
  | None => NotExist
  | Some (content, _) => if negb readable then OtherError else if opens content then Opened content else Invalid
  end.

(** The goroutine of [scheduleUpdate] is started, not run. *)
Definition LoadMaxMindDB (readable : bool) (get : option response) (o : os_run) (m : MaxMind) : MaxMind * option mm_error :=
  match mc_Database (mm_Config m) with
  | NoDatabase => (m, None)
  | _ =>
      match maxmindDBOpen (mm_disk m) readable with
      | OtherError => (m, Some OtherOpenError)
      | NotExist | Invalid => download get o m
      | Opened content => (set_scheduled (set_reader (Some content) m), None)
      end
  end.

(** [SetInstance]: the instance is replaced only when the new one has loaded. *)
Definition new_instance (c : Config) (d : disk) : MaxMind :=
  {| mm_Config := c; mm_lastUpdate := zero_time; mm_reader := None; mm_scheduled := false; mm_disk := d |}.

Definition SetInstance (c : Config) (d : disk) (readable : bool) (get : option response) (o : os_run) (instance : option MaxMind)
  : option MaxMind * option mm_error :=
  let '(m, err) := LoadMaxMindDB readable get o (new_instance c d) in
  match err with Some e => (instance, Some e) | None => (Some m, None) end.

(** ** Extraction *)

(** What is extracted is the first entry of that name; the sizes up to it stay
    within the limit, whatever the archive claims after it. *)
Theorem extract_exact target items content :
  extractFileFromTarGz (Some items) target true = (Some content, None) <->
  exists before size data after,
    items = before ++ TarFile target size data :: after /\
    Forall (fun i => match i with TarFile b _ _ => b <> target | TarError => False end) before /\
    (forall k, (k <= length before)%nat ->
       sum_Z (map (fun i => match i with TarFile _ s _ => s | TarError => 0 end) (take (S k) (before ++ [TarFile target size data]))) <= maxArchiveSize) /\
    size <= Z.of_nat (length data) /\ content = take (Z.to_nat size) data.
Proof.
  unfold extractFileFromTarGz.
  assert (H : forall items sum,
    extract_loop target true sum items = (Some content, None) <->
    exists before size data after,
      items = before ++ TarFile target size data :: after /\
      Forall (fun i => match i with TarFile b _ _ => b <> target | TarError => False end) before /\
      (forall k, (k <= length before)%nat ->
         sum + sum_Z (map (fun i => match i with TarFile _ s _ => s | TarError => 0 end) (take (S k) (before ++ [TarFile target size data]))) <= maxArchiveSize) /\
      size <= Z.of_nat (length data) /\ content = take (Z.to_nat size) data); [|exact (H items 0)].
  clear items. induction items as [|[|b s d] items IH]; intros sum; cbn [extract_loop].
  - split; [done|]. intros (bf & sz & dt & af & E & _). by destruct bf.
  - split; [done|]. intros (bf & sz & dt & af & E & Hf & _). destruct bf as [|x bf]; [done|]. injection E as <- _. by apply Forall_cons in Hf as [? _].
  - destruct (Z.ltb_spec maxArchiveSize (sum + s)) as [Hbig|Hbig].
    { split; [done|]. intros (bf & sz & dt & af & E & Hf & Hs & _). specialize (Hs 0%nat ltac:(lia)).
      destruct bf as [|x bf]; simpl in E; simplify_eq; exfalso; cbn [app take map sum_Z foldr] in Hs; rewrite ?take_0 in Hs; cbn [map foldr] in Hs; lia. }
    destruct (bool_decide (b = target)) eqn:Eb; reflect.
    + subst b. cbn [negb]. destruct (Z.ltb_spec (Z.of_nat (length d)) s) as [Hsh|Hsh].
      * split; [done|]. intros (bf & sz & dt & af & E & Hf & _ & Hl & _). destruct bf as [|x bf]; simpl in E; simplify_eq; [lia|].
        by apply Forall_cons in Hf as [? _].
      * split.
        -- intros [= <-]. exists [], s, d, items. split_and!; [done|constructor| |done|done]. intros [|k] Hk; [cbn [app take map sum_Z foldr]; lia|simpl in Hk; lia].
        -- intros (bf & sz & dt & af & E & Hf & _ & Hl & ->). destruct bf as [|x bf]; simpl in E; simplify_eq; [done|].
           by apply Forall_cons in Hf as [? _].
    + rewrite IH. split.
      * intros (bf & sz & dt & af & -> & Hf & Hs & Hl & ->). exists (TarFile b s d :: bf), sz, dt, af. split_and!; [done|by constructor| |done|done].
        intros [|k] Hk; cbn [app take map sum_Z foldr]; [rewrite take_0; cbn [map foldr]; lia|]. specialize (Hs k ltac:(simpl in Hk; lia)). unfold sum_Z in *. lia.
      * intros (bf & sz & dt & af & E & Hf & Hs & Hl & ->). destruct bf as [|x bf]; simpl in E; [by simplify_eq|]. injection E as <- ->.
        apply Forall_cons in Hf as [_ Hf]. exists bf, sz, dt, af. split_and!; [done|done| |done|done].
        intros k Hk. specialize (Hs (S k) ltac:(simpl; lia)). cbn [app take map sum_Z foldr] in Hs. unfold sum_Z. lia.
Qed.

(** Without an error the destination is written. *)
Lemma extract_written a target ok : snd (extractFileFromTarGz a target ok) = None -> is_Some (fst (extractFileFromTarGz a target ok)).
Proof.
  destruct a as [items|]; [|done]. unfold extractFileFromTarGz. generalize 0. induction items as [|[|b s d] items IH]; intros sum; cbn [extract_loop]; [done..|].
  destruct (_ <? _); [done|]. destruct (bool_decide _); [|apply IH]. destruct (negb ok); [done|]. destruct (_ <? _); [done|]. by eexists.
Qed.

Lemma extract_errors a target ok e : snd (extractFileFromTarGz a target ok) = Some e -> e <> ReopenError.
Proof.
  destruct a as [items|]; [|by intros [= <-]]. unfold extractFileFromTarGz. generalize 0.
  induction items as [|[|b s d] items IH]; intros sum; cbn [extract_loop]; [by intros [= <-]..|].
  destruct (_ <? _); [by intros [= <-]|]. destruct (bool_decide _); [|apply IH]. destruct (negb ok); [by intros [= <-]|].
  destruct (_ <? _); [by intros [= <-]|done].
Qed.

(** ** What is on disk and in memory *)

(** The file, if there is one, is a database, and so is what is open. *)
Definition db_valid (m : MaxMind) : Prop :=
  match dk_db (mm_disk m) with Some (c, _) => opens c = true | None => True end /\
  match mm_reader m with Some c => opens c = true | None => True end.

(** A download either replaces the file by a valid database, or leaves it as it
    was; the open database is kept unless the file was replaced. *)
Lemma download_spec get o m :
  let '(m', err) := download get o m in
  match err with
  | Some ReopenError => exists c, opens c = true /\ dk_db (mm_disk m') = Some (c, or_now o) /\ mm_reader m' = None
  | Some _ => dk_db (mm_disk m') = dk_db (mm_disk m) /\ mm_reader m' = mm_reader m
  | None => exists c t, opens c = true /\ dk_db (mm_disk m') = Some (c, t) /\ mm_reader m' = Some c
  end /\ (err <> None -> mm_lastUpdate m' = mm_lastUpdate m).
Proof.
  unfold download. destruct get as [r|]; [|done]. destruct (negb _); [done|]. destruct (rs_Body r) as [a|]; [|done].
  pose proof (extract_written a (dbFilename (mm_Config m)) (or_open_ok o)) as Hw.
  assert (He : forall e, snd (extractFileFromTarGz a (dbFilename (mm_Config m)) (or_open_ok o)) = Some e -> e <> ReopenError).
  { intros e. apply extract_errors. }
  destruct (extractFileFromTarGz _ _ _) as [written err]. cbn [fst snd] in Hw, He.
  destruct err as [e|]; [by specialize (He e eq_refl); destruct e|]. destruct (Hw eq_refl) as [c ->].
  destruct (opens c) eqn:Eo; cbn [negb]; [|done]. destruct (or_rename_ok o); cbn [negb]; [|done].
  destruct (or_reopen_ok o); cbn [negb].
  - destruct (rs_LastModified r) as [| |t]; [split; [by eexists _, _|done]..|]. split; [|done]. unfold setLastUpdate. simpl. destruct (or_chtimes_ok o); by eexists _, _.
  - split; [|done]. by eexists.
Qed.

(** Events of a running instance. *)
Inductive mm_event := Tick (head get : option response) (o : os_run).

Fixpoint mm_run (es : list mm_event) (m : MaxMind) : result Empty_set MaxMind :=
  match es with
  | [] => Ok m
  | Tick head get o :: es => m' ← update head get o m; mm_run es m'
  end.

(** C28: whatever the server answers, the file and the open database stay valid; the
    program only dies when a check is answered without a date. *)
Theorem database_stays_valid es m :
  db_valid m ->
  (forall m', mm_run es m = Ok m' -> db_valid m') /\
  (Forall (fun '(Tick head _ _) => checkLastest head <> inr None) es -> is_Ok (mm_run es m) = true).
Proof.
  revert m. induction es as [|[head get o] es IH]; intros m Hm; cbn [mm_run]; [split; [by intros m' [= <-]|done]|].
  assert (Hd : db_valid (fst (download get o m))).
  { pose proof (download_spec get o m) as Hs. destruct (download get o m) as [m' err]. destruct Hs as [Hs _]. cbn [fst]. unfold db_valid.
    destruct err as [e|]; [destruct e; try (destruct Hs as [-> ->]; exact Hm); destruct Hs as (c & Hc & -> & ->); done|].
    destruct Hs as (c & t & Hc & -> & ->). done. }
  unfold update. destruct (checkLastest head) as [e|[t|]] eqn:Ec; cbn [mbind result_bind].
  - destruct (IH m Hm) as [H1 H2]. split; [done|]. intros Hf. apply Forall_cons in Hf as [_ Hf]. auto.
  - destruct (t =? mm_lastUpdate m); cbn [mbind result_bind]; [destruct (IH m Hm) as [H1 H2]|destruct (IH _ Hd) as [H1 H2]];
      (split; [done|]; intros Hf; apply Forall_cons in Hf as [_ Hf]; auto).
  - split; [done|]. intros Hf. apply Forall_cons in Hf as [Hf _]. done.
Qed.

(** A check that is answered without Last-Modified kills the program, whatever
    the state. *)
Theorem no_date_panics head get o m r :
  head = Some r -> rs_StatusCode r = 200 -> rs_LastModified r = NoHeader -> update head get o m = Panic NilDereference.
Proof. intros -> Hs Hl. unfold update, checkLastest. by rewrite Hs, Hl. Qed.

(** After a download the database is not downloaded again until the server has a
    newer one, neither by this run nor by the next. *)
Theorem no_needless_download get o m m' r t head get2 o2 :
  get = Some r -> rs_LastModified r = Modified t -> or_chtimes_ok o = true ->
  download get o m = (m', None) -> checkLastest head = inr (Some t) ->
  update head get2 o2 m' = Ok m' /\
  forall c, update head get2 o2 (loadLastUpdate (new_instance c (mm_disk m'))) = Ok (loadLastUpdate (new_instance c (mm_disk m'))).
Proof.
  intros -> Hl Hch Hd Hh. unfold update. rewrite Hh. unfold download in Hd. destruct (negb _); [done|]. destruct (rs_Body r) as [a|]; [|done].
  pose proof (extract_written a (dbFilename (mm_Config m)) (or_open_ok o)) as Hw.
  destruct (extractFileFromTarGz _ _ _) as [written err]. destruct err as [e|]; [done|]. destruct (Hw eq_refl) as [c Hc]. cbn [fst] in Hc. rewrite Hc in Hd.
  destruct (negb _); [done|]. destruct (negb _); [done|]. destruct (negb _); [done|]. rewrite Hl in Hd. injection Hd as <-.
  unfold setLastUpdate. rewrite Hch. cbn. split; [by rewrite Z.eqb_refl|]. intros c'. unfold loadLastUpdate. cbn. by rewrite Z.eqb_refl.
Qed.

(** The first database a program downloads is never updated by it. *)
Theorem first_download_not_scheduled c get o m :
  mc_Database c <> NoDatabase -> fst (SetInstance c {| dk_db := None; dk_tmp := None |} true get o None) = Some m -> mm_scheduled m = false.
Proof.
  intros Hc. unfold SetInstance, LoadMaxMindDB. cbn [new_instance mm_Config mm_disk maxmindDBOpen dk_db].
  destruct (mc_Database c); [done|..];
    (destruct (download get o _) as [m' err] eqn:Ed; assert (Hs : mm_scheduled m' = false);
     [|destruct err; [done|by intros [= <-]]]);
    (unfold download in Ed; destruct get as [r|]; [|by injection Ed as <- _]; destruct (negb _); [by injection Ed as <- _|];
     destruct (rs_Body r); [|by injection Ed as <- _]; destruct (extractFileFromTarGz _ _ _) as [[w|] [e|]]; try (by injection Ed as <- _);
     destruct (negb _); [by injection Ed as <- _|]; destruct (negb _); [by injection Ed as <- _|]; destruct (negb _); [by injection Ed as <- _|];
     injection Ed as <- _; destruct (rs_LastModified r); try done; unfold setLastUpdate; cbn; by destruct (or_chtimes_ok o)).
Qed.

End MM.

(** ** Examples *)

Module MaxMindDemo.

Definition cfg : Config := {| mc_AccountID := B "1"; mc_LicenseKey := B "k"; mc_Database := MaxMindGeoLite |}.
Definition opens_db (c : bytes) : bool := HasPrefix c "db".
Definition fine : os_run := {| or_now := 10; or_open_ok := true; or_rename_ok := true; or_reopen_ok := true; or_chtimes_ok := true |}.

Definition good : response :=
  {| rs_StatusCode := 200; rs_LastModified := Modified 5; rs_Body := Some (Some [TarFile (B "LICENSE.txt") 3 (B "abc"); TarFile (B "GeoLite2-Country.mmdb") 3 (B "db1")]) |}.
Definition dateless : response := {| rs_StatusCode := 200; rs_LastModified := NoHeader; rs_Body := None |}.

Definition start : MaxMind := new_instance cfg {| dk_db := None; dk_tmp := None |}.
Definition loaded : MaxMind := fst (download opens_db (Some good) fine start).

Lemma database_stays_valid_witness :
  exists m', mm_run opens_db [Tick (Some good) (Some good) fine; Tick None None fine] loaded = Ok m' /\ db_valid opens_db m'.
Proof.
  eexists. split; [reflexivity|].
  eapply (database_stays_valid opens_db [Tick (Some good) (Some good) fine; Tick None None fine] loaded); [by vm_compute|reflexivity].
Defined.

Lemma no_date_panics_witness : update opens_db (Some dateless) (Some good) fine loaded = Panic NilDereference.
Proof. by apply (no_date_panics opens_db (Some dateless) (Some good) fine loaded dateless). Defined.

Lemma no_needless_download_witness : update opens_db (Some good) None fine loaded = Ok loaded.
Proof. apply (no_needless_download opens_db (Some good) fine start loaded good 5 (Some good) None fine); by vm_compute. Defined.

Lemma first_download_not_scheduled_witness : exists m,
  fst (SetInstance opens_db cfg {| dk_db := None; dk_tmp := None |} true (Some good) fine None) = Some m /\ mm_scheduled m = false.
Proof.
  eexists. split; [reflexivity|]. eapply (first_download_not_scheduled opens_db cfg (Some good) fine); [done|]. reflexivity.
Defined.

End MaxMindDemo.
