(* ===== verification/IdleProvider.v ===== *)
(** * Container providers of the idle watcher, and Proxmox

    Models internal/idlewatcher/provider/docker.go and proxmox.go, and
    internal/proxmox/lxc.go, node.go and config.go: the status of a container, the
    actions on it, the events of its changes, and the addresses of an LXC
    container.

    Answers of the Docker and Proxmox APIs are inputs.  An action waits in a loop
    that is driven by a ticker and a context; the loop is a function of the ticks
    it sees, and [None] means that it still waits. *)

From S2P Require Import Prelude GoStrings NetAddr EventQueue IdleWatcher.

(** ** Docker *)

Inductive docker_state := StateCreated | StateRunning | StatePaused | StateRestarting | StateRemoving | StateExited | StateDead.

Inductive status_error := ApiError | UnexpectedStatus.

(** The status, which is [ContainerStatusError] together with an error. *)
Definition docker_ContainerStatus (inspect : option docker_state) : ContainerStatus * option status_error :=
  match inspect with
  | None => (ContainerStatusError, Some ApiError)
  | Some StateRunning => (ContainerStatusRunning, None)
  | Some (StateExited | StateDead | StateRestarting) => (ContainerStatusStopped, None)
  | Some StatePaused => (ContainerStatusPaused, None)
  | Some _ => (ContainerStatusError, Some UnexpectedStatus)
  end.

(** ** Actions on LXC containers *)

Inductive LXCAction_t := LXCStart | LXCShutdown | LXCSuspend | LXCResume | LXCReboot.

Definition action_text (a : LXCAction_t) : bytes :=
  match a with
  | LXCStart => B "start" | LXCShutdown => B "shutdown" | LXCSuspend => B "suspend" | LXCResume => B "resume" | LXCReboot => B "reboot"
  end.

Inductive LXCStatus_t := LXCStatusRunning | LXCStatusStopped | LXCStatusSuspended | LXCStatusOther (s : bytes).

#[export] Instance LXCStatus_eq_dec : EqDecision LXCStatus_t.
Proof. solve_decision. Defined.

(** What one round of the loop sees: the context has ended, or a tick, with the
    answer to the ping ([None] an error, otherwise whether the task still runs)
    and to the query of the status. *)
Inductive lxc_round := ContextDone | CheckTick (ping : option bool) (status : option LXCStatus_t).

(** What an action waits for. *)
Definition reached (action : LXCAction_t) (status : LXCStatus_t) : bool :=
  match status, action with
  | LXCStatusRunning, LXCStart => true
  | LXCStatusStopped, LXCShutdown => true
  | LXCStatusSuspended, LXCSuspend => true
  | _, _ => false
  end.

(** [Some true]: nil is returned; [Some false]: an error. *)
Fixpoint wait_task (action : LXCAction_t) (rounds : list lxc_round) : option bool :=
  match rounds with
  | [] => None
  | ContextDone :: _ => Some false
  | CheckTick ping status :: rounds' =>
      match ping with
      | None => Some false
      | Some true => wait_task action rounds'
      | Some false =>
          match status with
          | None => Some false
          | Some s => if reached action s then Some true else wait_task action rounds'
          end
      end
  end.

(** [LXCAction]: [posted] when the request was accepted. *)
Definition LXCAction (posted : bool) (action : LXCAction_t) (rounds : list lxc_round) : option bool :=
  if posted then wait_task action rounds else Some false.

(** The methods of [ProxmoxProvider]. *)
Definition provider_action (c : provider_call) : LXCAction_t :=
  match c with
  | CallPause => LXCSuspend
  | CallUnpause => LXCResume
  | CallStart => LXCStart
  | CallStop _ _ => LXCShutdown
  | CallKill _ => LXCShutdown
  end.

Definition LXCIsRunning (status : option LXCStatus_t) : bool * bool := (bool_decide (status = Some LXCStatusRunning), bool_decide (is_Some status)).

Definition proxmox_ContainerStatus (status : option LXCStatus_t) : ContainerStatus * option status_error :=
  match status with
  | None => (ContainerStatusError, Some ApiError)
  | Some LXCStatusRunning => (ContainerStatusRunning, None)
  | Some LXCStatusStopped => (ContainerStatusStopped, None)
  | Some _ => (ContainerStatusError, Some UnexpectedStatus)
  end.

(** A round that neither ends the wait nor is what is waited for. *)
Definition undecided (action : LXCAction_t) (r : lxc_round) : bool :=
  match r with
  | CheckTick (Some true) _ => true
  | CheckTick (Some false) (Some s) => negb (reached action s)
  | _ => false
  end.

(** An action succeeds iff its task ended and the container has then reached the
    state the action is for, before anything failed. *)
Theorem lxc_action_exact action rounds :
  wait_task action rounds = Some true <->
  exists before s after, rounds = before ++ CheckTick (Some false) (Some s) :: after /\ forallb (undecided action) before = true /\ reached action s = true.
Proof.
  induction rounds as [|r rounds IH]; [split; [done|]; intros (bf & s & af & E & _); by destruct bf|].
  assert (Hskip : undecided action r = true -> (wait_task action rounds = Some true <->
    exists before s after, r :: rounds = before ++ CheckTick (Some false) (Some s) :: after /\ forallb (undecided action) before = true /\ reached action s = true)).
  { intros Hr. rewrite IH. split.
    - intros (bf & s & af & -> & Hf & Hs). exists (r :: bf), s, af. cbn [forallb]. by rewrite Hr.
    - intros (bf & s & af & E & Hf & Hs). destruct bf as [|r' bf]; injection E as -> ->; [cbn in Hr; by rewrite Hs in Hr|].
      cbn [forallb] in Hf. apply andb_prop in Hf as [_ Hf]. by exists bf, s, af. }
  assert (Hstop : undecided action r = false -> (forall s, r = CheckTick (Some false) (Some s) -> reached action s = false) ->
    ~ exists before s after, r :: rounds = before ++ CheckTick (Some false) (Some s) :: after /\ forallb (undecided action) before = true /\ reached action s = true).
  { intros Hr Hn (bf & s & af & E & Hf & Hs). destruct bf as [|r' bf]; injection E as -> ->; [by rewrite (Hn s eq_refl) in Hs|].
    cbn [forallb] in Hf. by rewrite Hr in Hf. }
  destruct r as [|[[]|] st]; cbn [wait_task].
  - split; [done|]. intros H. by apply Hstop in H.
  - by apply Hskip.
  - destruct st as [s|]; [|split; [done|]; intros H; by apply Hstop in H]. destruct (reached action s) eqn:Es.
    + split; [|done]. intros _. by exists [], s, rounds.
    + apply Hskip. cbn. by rewrite Es.
  - split; [done|]. intros H. by apply Hstop in H.
Qed.

(** Resuming never succeeds: no status is what it waits for. *)
Theorem unpause_never_succeeds rounds posted : LXCAction posted (provider_action CallUnpause) rounds <> Some true.
Proof.
  unfold LXCAction. destruct posted; [|done]. intros H. apply lxc_action_exact in H as (_ & s & _ & _ & _ & Hs). by destruct s.
Qed.

(** An action that failed is waited for until the context ends. *)
Lemma failed_action_waits action s n : reached action s = false -> wait_task action (replicate n (CheckTick (Some false) (Some s))) = None.
Proof. intros Hs. induction n as [|n IH]; [done|]. cbn [replicate wait_task]. by rewrite Hs. Qed.

(** ** Events of an LXC container *)

Inductive watch_out := OutEvent (action : Z) | OutError (e : status_error).

(** The loop of [Watch] after the first query said [running]. *)
Fixpoint watch_loop (running : bool) (statuses : list (option LXCStatus_t)) : list watch_out :=
  match statuses with
  | [] => []
  | st :: sts =>
      match proxmox_ContainerStatus st with
      | (_, Some e) => [OutError e]
      | (cs, None) =>
          let now := bool_decide (cs = ContainerStatusRunning) in
          if Bool.eqb running now then watch_loop running sts
          else OutEvent (if now then ActionContainerStart else ActionContainerStop) :: watch_loop now sts
      end
  end.

Definition Watch (first : option LXCStatus_t) (statuses : list (option LXCStatus_t)) : list watch_out :=
  match LXCIsRunning first with
  | (_, false) => [OutError ApiError]
  | (r, true) => watch_loop r statuses
  end.

(** The idle watcher that is given these events. *)
Definition follow (now : Z) (outs : list watch_out) (w : Watcher) : Watcher :=
  fold_left (fun w o => match o with OutEvent a => on_container_event now a w | OutError _ => w end) outs w.

Definition plain (s : LXCStatus_t) : bool := match s with LXCStatusRunning | LXCStatusStopped => true | _ => false end.

Lemma event_running now a w : running (on_container_event now a w) = if a =? ActionContainerStart then true else if a =? ActionContainerStop then false else running (on_container_event now a w).
Proof.
  destruct (Z.eqb_spec a ActionContainerStart) as [->|_]; [|destruct (Z.eqb_spec a ActionContainerStop) as [->|_]; [|done]];
    unfold on_container_event; cbn -[resetIdleTimer]; by destruct (resetIdleTimer now w).
Qed.

(** While the container is either running or stopped, the idle watcher knows
    which, after every poll. *)
Theorem proxmox_followed now first ss w :
  running w = bool_decide (first = LXCStatusRunning) -> plain first = true -> forallb plain ss = true ->
  running (follow now (Watch (Some first) (Some <$> ss)) w) = bool_decide (default first (last ss) = LXCStatusRunning).
Proof.
  intros Hw Hf Hss. unfold Watch, LXCIsRunning. rewrite (bool_decide_eq_true_2 (is_Some _)) by (by eexists).
  assert (E : bool_decide (Some first = Some LXCStatusRunning) = bool_decide (first = LXCStatusRunning)) by (apply bool_decide_ext; naive_solver). rewrite E.
  clear E. revert first w Hw Hf. induction ss as [|s ss IH]; intros first w Hw Hf; [done|]. cbn [forallb] in Hss. apply andb_prop in Hss as [Hs Hss].
  assert (Hlast : default first (last (s :: ss)) = default s (last ss)) by (rewrite last_cons; by destruct (last ss)). rewrite Hlast.
  cbn [fmap list_fmap watch_loop]. 
  assert (Hst : proxmox_ContainerStatus (Some s) = (if bool_decide (s = LXCStatusRunning) then ContainerStatusRunning else ContainerStatusStopped, None)) by (by destruct s).
  rewrite Hst. assert (Hr : bool_decide ((if bool_decide (s = LXCStatusRunning) then ContainerStatusRunning else ContainerStatusStopped) = ContainerStatusRunning) =
    bool_decide (s = LXCStatusRunning)) by (by destruct (bool_decide (s = LXCStatusRunning))). rewrite Hr.
  destruct (Bool.eqb_spec (bool_decide (first = LXCStatusRunning)) (bool_decide (s = LXCStatusRunning))) as [Eq|Ne].
  - rewrite Eq. apply IH; [done|by rewrite <- Eq|done].
  - cbn [follow fold_left]. apply IH; [done| |done]. rewrite event_running. by destruct (bool_decide (s = LXCStatusRunning)).
Qed.

(** ** Addresses *)

Definition privateIPOrNil (ip : option IP) : option IP := ip ≫= fun ip => if IsPrivate ip then Some ip else None.

Definition parseCIDR (s : bytes) : option IP :=
  match s with
  | [] => None
  | _ => privateIPOrNil (fst <$> ParseCIDR s)
  end.

(** The address behind a key, up to the next slash. *)
Definition ip_after (s key : bytes) : option IP :=
  i ← Index s key;
  let rest := drop (i + length key) s in
  privateIPOrNil (ParseIP (match IndexByte rest "/" with Some j => take j rest | None => rest end)).

Definition getIPFromNet (s : bytes) : list IP :=
  match s with
  | [] => []
  | _ => option_list (ip_after s "ip=") ++ option_list (ip_after s "ip6=")
  end.

Definition LXCGetIPsFromConfig (nets : option (list bytes)) : option (list IP) := flat_map getIPFromNet <$> nets.

Record Interface := { if_IPv4 : bytes; if_IPv6 : bytes; if_Name : bytes }.

Definition skipped (name : bytes) : bool :=
  bool_decide (name = B "lo") || HasPrefix name "br-" || HasPrefix name "veth" || HasPrefix name "docker".

Definition LXCGetIPsFromInterfaces (ifs : option (list Interface)) : option (list IP) :=
  flat_map (fun i => if skipped (if_Name i) then [] else option_list (parseCIDR (if_IPv4 i)) ++ option_list (parseCIDR (if_IPv6 i))) <$> ifs.

(** The configuration first, the interfaces when it has no address. *)
Definition LXCGetIPs (nets : option (list bytes)) (ifs : option (list Interface)) : option (list IP) :=
  match LXCGetIPsFromConfig nets with
  | None => None
  | Some [] => LXCGetIPsFromInterfaces ifs
  | Some ips => Some ips
  end.

Lemma private_only ip o : privateIPOrNil o = Some ip -> IsPrivate ip = true.
Proof. destruct o as [x|]; [|done]. simpl. destruct (IsPrivate x) eqn:E; [|done]. by intros [= <-]. Qed.

(** Only private addresses are ever given. *)
Theorem lxc_ips_private nets ifs ips : LXCGetIPs nets ifs = Some ips -> Forall (fun ip => IsPrivate ip = true) ips.
Proof.
  assert (Hp : forall o : option IP, (forall ip, o = Some ip -> IsPrivate ip = true) -> Forall (fun ip => IsPrivate ip = true) (option_list o)).
  { intros [ip|] H; repeat constructor. by apply H. }
  assert (Hflat : forall A (f : A -> list IP) l, (forall a, Forall (fun ip => IsPrivate ip = true) (f a)) -> Forall (fun ip => IsPrivate ip = true) (flat_map f l)).
  { intros A f l H. induction l; simpl; [constructor|]. by apply Forall_app. }
  unfold LXCGetIPs, LXCGetIPsFromConfig, LXCGetIPsFromInterfaces. destruct nets as [nets|]; [|done]. simpl.
  assert (Hn : Forall (fun ip => IsPrivate ip = true) (flat_map getIPFromNet nets)).
  { apply Hflat. intros s. unfold getIPFromNet. destruct s as [|c s]; [constructor|].
    apply Forall_app; split; apply Hp; intros ip; unfold ip_after; destruct (Index _ _); [|done| |done]; apply private_only. }
  destruct (flat_map getIPFromNet nets) as [|ip0 l0]; [|by intros [= <-]]. destruct ifs as [ifs|]; [|done]. intros [= <-]. apply Hflat.
  intros i. destruct (skipped _); [constructor|]. apply Forall_app; split; apply Hp; intros ip; unfold parseCIDR; case_match; try done; apply private_only.
Qed.

(** ** The API's address and the nodes *)

Definition api_suffix : bytes := B "/api2/json".

(** [Init]: one trailing slash is removed, and the path of the API appended. *)
Definition init_URL (u : bytes) : bytes :=
  let u := default u (CutSuffix u "/") in
  if HasSuffix u api_suffix then u else u ++ api_suffix.

Lemma HasSuffix_app s p : HasSuffix (s ++ p) p = true.
Proof.
  pose proof (proj2 (CutSuffix_Some (s ++ p) p s) eq_refl) as H. unfold CutSuffix in H. by destruct (HasSuffix (s ++ p) p).
Qed.

(** The address ends with the path of the API, and setting up a configuration
    again leaves it as it is. *)
Theorem init_URL_idempotent u : HasSuffix (init_URL u) api_suffix = true /\ init_URL (init_URL u) = init_URL u.
Proof.
  assert (H : HasSuffix (init_URL u) api_suffix = true).
  { unfold init_URL. destruct (HasSuffix (default u _) api_suffix) eqn:E; [done|apply HasSuffix_app]. }
  split; [done|]. unfold init_URL at 1.
  assert (Hs : CutSuffix (init_URL u) "/" = None).
  { destruct (CutSuffix (init_URL u) "/") as [t|] eqn:E; [|done]. exfalso. apply CutSuffix_Some in E.
    assert (E2 : exists t2, init_URL u = t2 ++ api_suffix).
    { destruct (CutSuffix (init_URL u) api_suffix) as [t2|] eqn:E2; [apply CutSuffix_Some in E2; eauto|]. unfold CutSuffix in E2. by rewrite H in E2. }
    destruct E2 as [t2 E2]. rewrite E in E2. apply (f_equal last) in E2. rewrite !last_app in E2. by vm_compute in E2. }
  rewrite Hs. simpl. by rewrite H.
Qed.

(** [AvailableNodeNames]: the names with a comma behind each, without the last
    one. *)
Definition AvailableNodeNames (names : list bytes) : bytes :=
  match names with
  | [] => []
  | _ => let s := flat_map (fun n => n ++ B ", ") names in take (length s - 2) s
  end.

Lemma AvailableNodeNames_last n names : exists s, AvailableNodeNames (names ++ [n]) = s ++ n.
Proof.
  exists (flat_map (fun n => n ++ B ", ") names). unfold AvailableNodeNames.
  destruct (names ++ [n]) as [|x l] eqn:E; [by destruct names|]. rewrite <- E. rewrite flat_map_app. cbn [flat_map]. rewrite app_nil_r.
  rewrite app_assoc. apply take_app_exact. rewrite !length_app. change (length (B ", ")) with 2%nat. lia.
Qed.

(** ** Examples *)

Module ProxmoxDemo.

Lemma lxc_action_exact_witness : wait_task LXCStart [CheckTick (Some true) None; CheckTick (Some false) (Some LXCStatusRunning)] = Some true.
Proof. apply lxc_action_exact. by exists [CheckTick (Some true) None], LXCStatusRunning, []. Defined.

Lemma lxc_ips_private_witness :
  LXCGetIPs (Some [B "name=eth0,bridge=vmbr0,ip=10.0.0.5/24"; B "name=eth1,ip=8.8.8.8/32"]) None = Some [As16 [10; 0; 0; 5]] /\
  Forall (fun ip => IsPrivate ip = true) [As16 [10; 0; 0; 5]].
Proof.
  split; [by vm_compute|]. apply (lxc_ips_private (Some [B "name=eth0,bridge=vmbr0,ip=10.0.0.5/24"; B "name=eth1,ip=8.8.8.8/32"]) None). by vm_compute.
Defined.

(** A container that was just created has no status the watcher knows. *)
Example created_is_an_error : docker_ContainerStatus (Some StateCreated) = (ContainerStatusError, Some UnexpectedStatus).
Proof. done. Qed.

(** Pausing suspends the container; the next poll ends the watch. *)
Example suspend_ends_watch :
  Watch (Some LXCStatusRunning) [Some LXCStatusSuspended; Some LXCStatusRunning] = [OutError UnexpectedStatus].
Proof. done. Qed.

End ProxmoxDemo.
