(* ===== verification/Base64.v ===== *)
(** * Base64

    The standard encoding of encoding/base64 (base64.StdEncoding) as the agent's
    certificates and proxy headers use it, with what DecodeString leaves in the
    buffer when it stops at an error. *)

From S2P Require Import Prelude GoStrings.

Definition std_digit (n : Z) : ascii :=
  if n <? 26 then zbyte (65 + n)
  else if n <? 52 then zbyte (71 + n)
  else if n <? 62 then zbyte (n - 4)
  else if n =? 62 then "+"%char else "/"%char.

Definition std_value (c : ascii) : option Z :=
  let x := byteZ c in
  if within 65 90 x then Some (x - 65)
  else if within 97 122 x then Some (x - 71)
  else if within 48 57 x then Some (x + 4)
  else if x =? 43 then Some 62
  else if x =? 47 then Some 63
  else None.

Definition pad : ascii := "="%char.

(** Three bytes as a number and a number as four digits. *)
Definition pack3 (a b c : ascii) : Z := byteZ a * 65536 + byteZ b * 256 + byteZ c.
Definition digits4 (n : Z) : Z * Z * Z * Z := (n / 262144, n / 4096 mod 64, n / 64 mod 64, n mod 64).
Definition undigits4 (x y z w : Z) : Z := x * 262144 + y * 4096 + z * 64 + w.

(** [base64.StdEncoding.EncodeToString]. *)
Fixpoint EncodeToString (s : bytes) : bytes :=
  match s with
  | a :: b :: c :: s' =>
      let '(x, y, z, w) := digits4 (pack3 a b c) in
      std_digit x :: std_digit y :: std_digit z :: std_digit w :: EncodeToString s'
  | [a; b] =>
      let '(x, y, z, _) := digits4 (pack3 a b (zbyte 0)) in [std_digit x; std_digit y; std_digit z; pad]
  | [a] =>
      let '(x, y, _, _) := digits4 (pack3 a (zbyte 0) (zbyte 0)) in [std_digit x; std_digit y; pad; pad]
  | [] => []
  end.

Definition byte1 (n : Z) : ascii := zbyte (n / 65536).
Definition byte2 (n : Z) : ascii := zbyte (n / 256).
Definition byte3 (n : Z) : ascii := zbyte n.

(** [decodeQuantum] in its loop: the bytes that are in the buffer, and whether
    all of the text was accepted.  The unused bits of a last digit are not
    looked at.  What follows the padding is an error, but the bytes before it
    are there. *)
Fixpoint decode_quanta (s : bytes) : bytes * bool :=
  match s with
  | [] => ([], true)
  | a :: b :: c :: d :: s' =>
      match std_value a, std_value b with
      | Some x, Some y =>
          match std_value c with
          | Some z =>
              match std_value d with
              | Some w =>
                  let n := undigits4 x y z w in
                  let '(r, ok) := decode_quanta s' in (byte1 n :: byte2 n :: byte3 n :: r, ok)
              | None =>
                  if bool_decide (d = pad) then
                    let n := undigits4 x y z 0 in ([byte1 n; byte2 n], bool_decide (s' = []))
                  else ([], false)
              end
          | None =>
              if bool_decide (c = pad) && bool_decide (d = pad) then
                ([byte1 (undigits4 x y 0 0)], bool_decide (s' = []))
              else ([], false)
          end
      | _, _ => ([], false)
      end
  | _ => ([], false)
  end.

Definition is_newline (c : ascii) : bool := (byteZ c =? 10) || (byteZ c =? 13).

(** [base64.StdEncoding.DecodeString]: line ends are skipped everywhere. *)
Definition DecodeString (s : bytes) : bytes * bool :=
  decode_quanta (List.filter (fun c => negb (is_newline c)) s).

(** ** Round trip *)

Lemma digit_table n : 0 <= n < 64 ->
  std_value (std_digit n) = Some n /\ is_newline (std_digit n) = false /\ std_digit n <> ";"%char.
Proof.
  intros Hn.
  assert (H : forallb (fun i => bool_decide (std_value (std_digit (Z.of_nat i)) = Some (Z.of_nat i))
            && negb (is_newline (std_digit (Z.of_nat i))) && bool_decide (std_digit (Z.of_nat i) <> ";"%char)) (seq 0 64) = true)
    by (vm_compute; reflexivity).
  rewrite forallb_forall in H. specialize (H (Z.to_nat n)).
  rewrite Z2Nat.id in H by lia. specialize (H ltac:(apply in_seq; lia)). reflect. auto.
Qed.

Lemma pack3_range a b c : 0 <= pack3 a b c < 16777216.
Proof. unfold pack3. pose proof (byteZ_range a). pose proof (byteZ_range b). pose proof (byteZ_range c). lia. Qed.

Lemma digits4_range n : 0 <= n < 16777216 ->
  let '(x, y, z, w) := digits4 n in 0 <= x < 64 /\ 0 <= y < 64 /\ 0 <= z < 64 /\ 0 <= w < 64.
Proof. unfold digits4. intros H. repeat split; dlia. Qed.

Lemma undigits_digits n : 0 <= n < 16777216 ->
  let '(x, y, z, w) := digits4 n in undigits4 x y z w = n.
Proof. unfold digits4, undigits4. intros H. dlia. Qed.

Lemma zbyte_mod z : zbyte (z mod 256) = zbyte z.
Proof. unfold zbyte. by rewrite Z.mod_mod. Qed.

Lemma zbyte_of z c : z mod 256 = byteZ c -> zbyte z = c.
Proof. intros H. by rewrite <- zbyte_mod, H, zbyte_byteZ. Qed.

Lemma unpack3 a b c :
  byte1 (pack3 a b c) = a /\ byte2 (pack3 a b c) = b /\ byte3 (pack3 a b c) = c.
Proof.
  unfold byte1, byte2, byte3, pack3.
  pose proof (byteZ_range a). pose proof (byteZ_range b). pose proof (byteZ_range c).
  repeat split; apply zbyte_of; dlia.
Qed.

(** Induction three bytes at a time. *)
Lemma bytes_ind3 (P : bytes -> Prop) :
  P [] -> (forall a, P [a]) -> (forall a b, P [a; b]) ->
  (forall a b c s, P s -> P (a :: b :: c :: s)) -> forall s, P s.
Proof.
  intros H0 H1 H2 H3.
  refine (fix go s := match s with
    | [] => H0 | [a] => H1 a | [a; b] => H2 a b | a :: b :: c :: s' => H3 a b c s' (go s') end).
Qed.

(** A text of the encoding has no line ends and no semicolons. *)
Lemma encode_clean s : Forall (fun c => is_newline c = false /\ c <> ";"%char) (EncodeToString s).
Proof.
  induction s as [|a|a b|a b c s IH] using bytes_ind3; cbn [EncodeToString]; [constructor|..];
  match goal with |- context [digits4 ?n] =>
    pose proof (digits4_range n (pack3_range _ _ _)) as Hd; destruct (digits4 n) as [[[x y] z] w];
    destruct Hd as (Hx & Hy & Hz & Hw) end;
  repeat constructor; try apply digit_table; auto; discriminate.
Qed.

(** The text of [s], alone or, where it ends in padding, with something behind
    it: the bytes are the same, but the second is an error. *)
Lemma decode_quanta_encode s t : t = [] \/ (length s mod 3)%nat <> 0%nat ->
  decode_quanta (EncodeToString s ++ t) = (s, bool_decide (t = [])).
Proof.
  induction s as [|a|a b|a b c s IH] using bytes_ind3; intros Ht; cbn [EncodeToString]; [by destruct Ht as [->|[]]|..];
  match goal with |- context [digits4 ?n] =>
    pose proof (digits4_range n (pack3_range _ _ _)) as Hd; pose proof (undigits_digits n (pack3_range _ _ _)) as Hu;
    destruct (digits4 n) as [[[x y] z] w] eqn:Ed; destruct Hd as (Hx & Hy & Hz & Hw) end;
  cbn [decode_quanta app]; rewrite !(fun n H => proj1 (digit_table n H)) by assumption.
  - replace (std_value pad) with (@None Z) by reflexivity. cbn -[undigits4 pad].
    assert (z = 0 /\ w = 0) as [-> ->].
    { unfold digits4, pack3 in Ed. injection Ed as <- <- <- <-. replace (byteZ (zbyte 0)) with 0 by reflexivity. split; dlia. }
    rewrite Hu, (proj1 (unpack3 _ _ _)). done.
  - replace (std_value pad) with (@None Z) by reflexivity.
    assert (w = 0) as ->.
    { unfold digits4, pack3 in Ed. injection Ed as <- <- <- <-. replace (byteZ (zbyte 0)) with 0 by reflexivity. dlia. }
    rewrite (bool_decide_eq_true_2 (pad = pad)) by done. cbv zeta. rewrite Hu. destruct (unpack3 a b (zbyte 0)) as (-> & -> & _). done.
  - rewrite IH; [cbv zeta; rewrite Hu; by destruct (unpack3 a b c) as (-> & -> & ->)|].
    destruct Ht as [Ht|Ht]; [by left|right]. intros H. apply Ht.
    change (length (a :: b :: c :: s)) with (3 + length s)%nat. rewrite Nat.add_comm.
    by rewrite <- Nat.Div0.add_mod_idemp_l, H.
Qed.

Lemma filter_all {A} (p : A -> bool) l : Forall (fun x => p x = true) l -> List.filter p l = l.
Proof. induction 1 as [|x l Hx _ IH]; simpl; [done|]. by rewrite Hx, IH. Qed.

Lemma DecodeString_encode_then s t : t = [] \/ (length s mod 3)%nat <> 0%nat ->
  Forall (fun c => is_newline c = false) t ->
  DecodeString (EncodeToString s ++ t) = (s, bool_decide (t = [])).
Proof.
  intros Ht Hn. unfold DecodeString. rewrite filter_all; [by apply decode_quanta_encode|].
  apply Forall_app; split; eapply Forall_impl; [apply encode_clean| |apply Hn|]; simpl; [by intros c [-> _]|by intros c ->].
Qed.

Lemma DecodeString_encode s : DecodeString (EncodeToString s) = (s, true).
Proof. rewrite <- (app_nil_r (EncodeToString s)). rewrite DecodeString_encode_then; auto. Qed.

Lemma encode_no_semicolon s : ";"%char ∉ EncodeToString s.
Proof.
  pose proof (encode_clean s) as H. rewrite Forall_forall in H. intros Hin. by destruct (H _ Hin).
Qed.

#[export] Hint Resolve encode_no_semicolon : godoxy.

(** What every reader of this format must accept: the padding of the last
    group, and a stray character behind it, which is refused only after the
    bytes are delivered. *)
Example decode_examples :
  DecodeString (B "Z28=") = (B "go", true) /\ DecodeString (B "Zw==") = (B "g", true) /\
  DecodeString (B "Zw==x") = (B "g", false) /\ DecodeString (B "Zw=") = ([], false) /\
  EncodeToString (B "docker") = B "ZG9ja2Vy".
Proof. vm_compute. auto. Qed.
