(* ===== verification/Agent.v ===== *)
(** * Agents

    Models the certificates, addresses and enrolment of agents: agent/pkg/agent
    (new_agent.go, config.go, http_requests.go, agent_pool.go), agent/pkg/certs,
    agent/pkg/server and agent/cmd/main.go on the agent's side, and
    internal/api/v1/agent (common.go, create.go, verify.go), which creates an
    agent and adds it to the running configuration.

    AES-GCM, X.509 and the zip format are classes of operations with the round
    trips they document as laws.  A certificate is a record that carries the
    public key it was signed for and by; the bytes it is written as are those of
    the class.  What the agent answers over HTTP is an argument. *)

From S2P Require Import Prelude GoStrings RulesHTTP MiddlewareVars Base64.

Inductive agent_error :=
  | ErrInvalidPEMPair | ErrBase64 | ErrKeySize | ErrRand | ErrOpen                 (* PEM pairs *)
  | ErrZipWrite | ErrZipRead                                                       (* archives *)
  | ErrSerial | ErrGenerateKey | ErrCreateCertificate                              (* new certificates *)
  | ErrKeyPair | ErrCA | ErrFetch | ErrInvalidRuntime (r : bytes) | ErrRuntimeStatus (status : Z) (r : bytes)
  | ErrInvalidHost | ErrReadCerts
  | ErrDialAddr (addr : bytes) | ErrDialNetwork (network : bytes)
  | ErrAgentExists | ErrProviderExists (name : bytes) | ErrLoadRoutes.

#[export] Instance agent_error_eq_dec : EqDecision agent_error.
Proof. solve_decision. Defined.

(** ** PEM pairs as texts *)

Record PEMPair := { Cert : bytes; Key : bytes }.

Definition no_pair : PEMPair := {| Cert := []; Key := [] |}.

Definition b64Encode (data : bytes) : bytes := EncodeToString data.
Definition b64Decode (data : bytes) : bytes * bool := DecodeString data.

Definition PEMPair_String (p : PEMPair) : bytes := b64Encode (Cert p) ++ ";"%char :: b64Encode (Key p).

(** The fields are assigned with the error still to be looked at: they hold the
    bytes that were decoded before it. *)
Definition Load (p : PEMPair) (data : bytes) : PEMPair * option agent_error :=
  match Split data ";"%char with
  | [part0; part1] =>
      let '(cert, ok) := b64Decode part0 in
      let p := {| Cert := cert; Key := Key p |} in
      if negb ok then (p, Some ErrBase64)
      else
        let '(key, ok) := b64Decode part1 in
        let p := {| Cert := Cert p; Key := key |} in
        if negb ok then (p, Some ErrBase64) else (p, None)
  | _ => (p, Some ErrInvalidPEMPair)
  end.

(** ** Encryption *)

Class AEAD := {
  gcm_Seal (key nonce data : bytes) : bytes;
  gcm_Open (key nonce ciphertext : bytes) : option bytes
}.

Definition NonceSize : nat := 12.

(** What is sealed is opened with the key and nonce it was sealed with. *)
Class AEADLaws `{AEAD} := {
  Open_Seal key nonce data : length nonce = NonceSize -> gcm_Open key nonce (gcm_Seal key nonce data) = Some data
}.

(** [aes.NewCipher] accepts keys of three sizes; [cipher.NewGCM] accepts AES. *)
Definition NewCipher_ok (key : bytes) : bool :=
  (length key =? 16)%nat || (length key =? 24)%nat || (length key =? 32)%nat.

Section Encryption.
Context `{AEAD}.

(** [nonce]: what the random source delivers, [None] if it fails. *)
Definition encrypt (nonce : option bytes) (data key : bytes) : result agent_error bytes :=
  if negb (NewCipher_ok key) then Err ErrKeySize
  else match nonce with
       | None => Err ErrRand
       | Some nonce => Ok (nonce ++ gcm_Seal key nonce data)
       end.

Definition decrypt (data key : bytes) : result agent_error bytes :=
  if negb (NewCipher_ok key) then Err ErrKeySize
  else if (length data <? NonceSize)%nat then Panic SliceOutOfBounds
  else match gcm_Open key (take NonceSize data) (drop NonceSize data) with
       | Some plain => Ok plain
       | None => Err ErrOpen
       end.

Definition Encrypt (nonces : option bytes * option bytes) (p : PEMPair) (encKey : bytes) : result agent_error PEMPair :=
  cert ← encrypt nonces.1 (Cert p) encKey;
  key ← encrypt nonces.2 (Key p) encKey;
  Ok {| Cert := cert; Key := key |}.

Definition Decrypt (p : PEMPair) (encKey : bytes) : result agent_error PEMPair :=
  cert ← decrypt (Cert p) encKey;
  key ← decrypt (Key p) encKey;
  Ok {| Cert := cert; Key := key |}.

(** The JSON fields of a pair are texts in base64. *)
Record PEMPairResponse := { resp_Cert : bytes; resp_Key : bytes }.

Definition toPEMPairResponse (p : PEMPair) : PEMPairResponse :=
  {| resp_Cert := EncodeToString (Cert p); resp_Key := EncodeToString (Key p) |}.

Definition fromEncryptedPEMPairResponse (encryptionKey : bytes) (r : PEMPairResponse) : result agent_error PEMPair :=
  let '(encCert, ok) := DecodeString (resp_Cert r) in
  if negb ok then Err ErrBase64
  else let '(encKey, ok) := DecodeString (resp_Key r) in
       if negb ok then Err ErrBase64
       else Decrypt {| Cert := encCert; Key := encKey |} encryptionKey.

(** Two nonces of the right size. *)
Definition good_nonces (n : option bytes * option bytes) : Prop :=
  match n with (Some a, Some b) => length a = NonceSize /\ length b = NonceSize | _ => False end.

End Encryption.

(** ** The archive of the certificates *)

(** [zip_accepts]: CreateHeader and Write succeed for an entry; [zip_close]:
    the bytes of an archive; [zip_read]: its entries, with their contents where
    they can be read. *)
Class ZipLib := {
  zip_accepts (name data : bytes) : bool;
  zip_close (entries : list (bytes * bytes)) : option bytes;
  zip_read (data : bytes) : option (list (bytes * option bytes))
}.

Class ZipLaws `{ZipLib} := {
  read_close entries data :
    zip_close entries = Some data -> zip_read data = Some (map (fun e => (e.1, Some e.2)) entries)
}.

Section Zip.
Context `{ZipLib}.

Definition writeFile (w : list (bytes * bytes)) (name data : bytes) : result agent_error (list (bytes * bytes)) :=
  if zip_accepts name data then Ok (w ++ [(name, data)]) else Err ErrZipWrite.

Definition ZipCert (ca crt key : bytes) : result agent_error bytes :=
  w ← writeFile [] (B "ca.pem") ca;
  w ← writeFile w (B "cert.pem") crt;
  w ← writeFile w (B "key.pem") key;
  match zip_close w with Some data => Ok data | None => Err ErrZipWrite end.

Record cert_set := { cs_ca : bytes; cs_crt : bytes; cs_key : bytes }.

Definition extract_entry (s : cert_set) (f : bytes * option bytes) : result agent_error cert_set :=
  let put g := match f.2 with Some data => Ok (g data) | None => Err ErrZipRead end in
  if bool_decide (f.1 = B "ca.pem") then put (fun d => {| cs_ca := d; cs_crt := cs_crt s; cs_key := cs_key s |})
  else if bool_decide (f.1 = B "cert.pem") then put (fun d => {| cs_ca := cs_ca s; cs_crt := d; cs_key := cs_key s |})
  else if bool_decide (f.1 = B "key.pem") then put (fun d => {| cs_ca := cs_ca s; cs_crt := cs_crt s; cs_key := d |})
  else Ok s.

Definition ExtractCert (data : bytes) : result agent_error cert_set :=
  match zip_read data with
  | None => Err ErrZipRead
  | Some files => foldM extract_entry {| cs_ca := []; cs_crt := []; cs_key := [] |} files
  end.

End Zip.

Definition AgentCertsBasePath : bytes := B "certs".

(** [strutils.IsValidFilename]. *)
Class FilenameLib := { IsValidFilename (name : bytes) : bool }.

Definition isValidAgentHost `{FilenameLib} (host : bytes) : bool := IsValidFilename (host ++ B ".zip").

Definition AgentCertsFilepath `{FilenameLib} (host : bytes) : option bytes :=
  if isValidAgentHost host then Some (filepath_Join AgentCertsBasePath (host ++ B ".zip")) else None.

(** ** Lemmas: texts, encryption, archives *)

Lemma load_string p0 p : Load p0 (PEMPair_String p) = (p, None).
Proof.
  unfold Load, PEMPair_String, b64Encode, b64Decode.
  rewrite Split_app, Split_no_sep by auto with godoxy.
  rewrite !DecodeString_encode. by destruct p.
Qed.

Lemma decrypt_encrypt `{AEADLaws} nonce data key c :
  length nonce = NonceSize -> encrypt (Some nonce) data key = Ok c -> decrypt c key = Ok data.
Proof.
  unfold encrypt, decrypt. intros Hn. destruct (negb (NewCipher_ok key)); [done|]. intros [= <-].
  rewrite length_app, Hn. replace (NonceSize + _ <? NonceSize)%nat with false by (symmetry; apply Nat.ltb_ge; lia).
  rewrite <- Hn, take_app_length, drop_app_length, Open_Seal by done. done.
Qed.

Lemma pair_roundtrip `{AEADLaws} nonces p key enc :
  good_nonces nonces -> Encrypt nonces p key = Ok enc ->
  fromEncryptedPEMPairResponse key (toPEMPairResponse enc) = Ok p.
Proof.
  destruct nonces as [[n1|] [n2|]]; try done. intros [H1 H2]. unfold Encrypt. simpl.
  destruct (encrypt (Some n1) _ _) as [c| |] eqn:Ec; simpl; try discriminate.
  destruct (encrypt (Some n2) _ _) as [k| |] eqn:Ek; simpl; try discriminate. intros [= <-].
  unfold fromEncryptedPEMPairResponse, toPEMPairResponse. cbn [resp_Cert resp_Key Cert Key].
  rewrite !DecodeString_encode. cbn [negb]. unfold Decrypt. cbn [Cert Key].
  rewrite (decrypt_encrypt _ _ _ _ H1 Ec). simpl. rewrite (decrypt_encrypt _ _ _ _ H2 Ek). by destruct p.
Qed.

(** A short text of a pair ends the handler with a panic. *)
Lemma decrypt_panics `{AEAD} data key :
  is_Panic (decrypt data key) = true <-> NewCipher_ok key = true /\ (length data < NonceSize)%nat.
Proof.
  unfold decrypt. destruct (NewCipher_ok key); simpl; [|naive_solver].
  destruct (Nat.ltb_spec (length data) NonceSize); simpl; [naive_solver|].
  destruct (gcm_Open _ _ _); simpl; split; try discriminate; intros [_ ?]; lia.
Qed.

Lemma extract_zip `{ZipLaws} ca crt key data :
  ZipCert ca crt key = Ok data -> ExtractCert data = Ok {| cs_ca := ca; cs_crt := crt; cs_key := key |}.
Proof.
  unfold ZipCert, writeFile, ExtractCert.
  destruct (zip_accepts (B "ca.pem") ca); [|discriminate]. cbn [mbind result_bind].
  destruct (zip_accepts (B "cert.pem") crt); [|discriminate]. cbn [mbind result_bind].
  destruct (zip_accepts (B "key.pem") key); [|discriminate]. cbn [mbind result_bind].
  destruct (zip_close _) as [d|] eqn:Ez; [|discriminate]. intros [= <-].
  by rewrite (read_close _ _ Ez).
Qed.

(** ** Certificates *)

Definition CertsDNSName : bytes := B "godoxy.agent".

Inductive KeyUsage := KeyUsageCertSign | KeyUsageCRLSign | KeyUsageDigitalSignature.
Inductive ExtKeyUsage := ExtKeyUsageServerAuth | ExtKeyUsageClientAuth.

#[export] Instance KeyUsage_eq_dec : EqDecision KeyUsage.
Proof. solve_decision. Defined.
#[export] Instance ExtKeyUsage_eq_dec : EqDecision ExtKeyUsage.
Proof. solve_decision. Defined.

Record pkix_Name := { pn_Organization : list bytes; pn_OrganizationalUnit : list bytes; pn_CommonName : bytes }.

#[export] Instance pkix_Name_eq_dec : EqDecision pkix_Name.
Proof. solve_decision. Defined.

(** The fields of [x509.Certificate] that name a certificate or that a
    verification with one root looks at. *)
Record Certificate := {
  x_SerialNumber : Z;
  x_Issuer : pkix_Name;
  x_Subject : pkix_Name;
  x_DNSNames : list bytes;
  x_NotBefore : Z;
  x_NotAfter : Z;
  x_KeyUsage : list KeyUsage;
  x_ExtKeyUsage : list ExtKeyUsage;
  x_IsCA : bool;
  x_PublicKey : bytes;
  x_Signer : bytes                (* the public half of the key that signed it *)
}.

(** Keys, the encodings of keys and certificates, calendar arithmetic, and the
    versions of goutils. *)
Class X509Lib := {
  PublicKey (priv : bytes) : bytes;
  MarshalECPrivateKey (priv : bytes) : option bytes;
  ParseECPrivateKey (der : bytes) : option bytes;
  MarshalCertificate (c : Certificate) : bytes;
  ParseCertificate (der : bytes) : option Certificate;
  pem_EncodeToMemory (typ data : bytes) : bytes;
  pem_Decode (text : bytes) : option (bytes * bytes);
  AddYears (years t : Z) : Z;
  version_Parse (s : bytes) : bytes
}.

(** What is encoded is decoded again. *)
Class X509Laws `{X509Lib} := {
  parse_marshal_key priv der : MarshalECPrivateKey priv = Some der -> ParseECPrivateKey der = Some priv;
  parse_marshal_cert c : ParseCertificate (MarshalCertificate c) = Some c;
  decode_encode_pem typ data : pem_Decode (pem_EncodeToMemory typ data) = Some (typ, data)
}.

Section NewAgent.
Context `{X509Lib}.

(** [x509.CreateCertificate(rand, template, parent, pub, priv)]. *)
Definition CreateCertificate (template parent : Certificate) (pub priv : bytes) : Certificate :=
  {| x_SerialNumber := x_SerialNumber template; x_Issuer := x_Subject parent; x_Subject := x_Subject template;
     x_DNSNames := x_DNSNames template; x_NotBefore := x_NotBefore template; x_NotAfter := x_NotAfter template;
     x_KeyUsage := x_KeyUsage template; x_ExtKeyUsage := x_ExtKeyUsage template; x_IsCA := x_IsCA template;
     x_PublicKey := pub; x_Signer := PublicKey priv |}.

Definition toPEMPair (cert : Certificate) (key : bytes) : result agent_error PEMPair :=
  match MarshalECPrivateKey key with
  | None => Panic ExplicitPanic
  | Some der =>
      Ok {| Cert := pem_EncodeToMemory (B "CERTIFICATE") (MarshalCertificate cert);
            Key := pem_EncodeToMemory (B "EC PRIVATE KEY") der |}
  end.

(** What the random source and the clock deliver to one call, in the order of
    the code; [na_create]: whether each certificate can be made. *)
Record new_agent_env := {
  na_caSerial : option Z; na_caKey : option bytes;
  na_srvKey : option bytes; na_srvSerial : option Z;
  na_clientKey : option bytes; na_clientSerial : option Z;
  na_create : bool * bool * bool;
  na_clock : nat -> Z
}.

Definition or_err {A} (o : option A) (e : agent_error) : result agent_error A :=
  match o with Some a => Ok a | None => Err e end.

Definition caSubject : pkix_Name :=
  {| pn_Organization := [B "GoDoxy"]; pn_OrganizationalUnit := []; pn_CommonName := CertsDNSName |}.

Definition caTemplate (serial t0 t1 : Z) : Certificate :=
  {| x_SerialNumber := serial; x_Issuer := {| pn_Organization := []; pn_OrganizationalUnit := []; pn_CommonName := [] |};
     x_Subject := caSubject; x_DNSNames := []; x_NotBefore := t0; x_NotAfter := AddYears 1000 t1;
     x_KeyUsage := [KeyUsageCertSign; KeyUsageCRLSign]; x_ExtKeyUsage := []; x_IsCA := true;
     x_PublicKey := []; x_Signer := [] |}.

(** The templates of the server and of the client differ in the unit and in
    the usage. *)
Definition leafTemplate (unit : bytes) (usage : ExtKeyUsage) (serial t0 t1 : Z) : Certificate :=
  {| x_SerialNumber := serial; x_Issuer := caSubject;
     x_Subject := {| pn_Organization := pn_Organization caSubject; pn_OrganizationalUnit := [unit]; pn_CommonName := CertsDNSName |};
     x_DNSNames := [CertsDNSName]; x_NotBefore := t0; x_NotAfter := AddYears 1000 t1;
     x_KeyUsage := [KeyUsageDigitalSignature]; x_ExtKeyUsage := [usage]; x_IsCA := false;
     x_PublicKey := []; x_Signer := [] |}.

Definition NewAgent (e : new_agent_env) : result agent_error (PEMPair * PEMPair * PEMPair) :=
  let '(create_ca, create_srv, create_client) := na_create e in
  let create ok tmpl parent pub priv := if ok : bool then Ok (CreateCertificate tmpl parent pub priv) else Err ErrCreateCertificate in
  caSerialNumber ← or_err (na_caSerial e) ErrSerial;
  let caTmpl := caTemplate caSerialNumber (na_clock e 0) (na_clock e 1) in
  caKey ← or_err (na_caKey e) ErrGenerateKey;
  caDER ← create create_ca caTmpl caTmpl (PublicKey caKey) caKey;
  ca ← toPEMPair caDER caKey;
  serverKey ← or_err (na_srvKey e) ErrGenerateKey;
  serverSerialNumber ← or_err (na_srvSerial e) ErrSerial;
  let srvTemplate := leafTemplate (B "Server") ExtKeyUsageServerAuth serverSerialNumber (na_clock e 2) (na_clock e 3) in
  srvCertDER ← create create_srv srvTemplate caTmpl (PublicKey serverKey) caKey;
  srv ← toPEMPair srvCertDER serverKey;
  clientKey ← or_err (na_clientKey e) ErrGenerateKey;
  clientSerialNumber ← or_err (na_clientSerial e) ErrSerial;
  let clientTemplate := leafTemplate (B "Client") ExtKeyUsageClientAuth clientSerialNumber (na_clock e 4) (na_clock e 5) in
  clientCertDER ← create create_client clientTemplate caTmpl (PublicKey clientKey) caKey;
  client ← toPEMPair clientCertDER clientKey;
  Ok (ca, srv, client).

(** [tls.X509KeyPair]: the certificate, and its private key if it fits. *)
Definition X509KeyPair (cert key : bytes) : option (Certificate * bytes) :=
  '(t, der) ← pem_Decode cert;
  if negb (bool_decide (t = B "CERTIFICATE")) then None else
  c ← ParseCertificate der;
  '(kt, kder) ← pem_Decode key;
  if negb (bool_decide (kt = B "EC PRIVATE KEY")) then None else
  k ← ParseECPrivateKey kder;
  if bool_decide (x_PublicKey c = PublicKey k) then Some (c, k) else None.

Definition ToTLSCert (p : PEMPair) : option (Certificate * bytes) := X509KeyPair (Cert p) (Key p).

(** [Certificate.Verify] of a certificate that a pool with one root issued. *)
Definition x509_Verify (root leaf : Certificate) (usage : ExtKeyUsage) (dnsName : bytes) (now : Z) : bool :=
  bool_decide (x_Issuer leaf = x_Subject root) && bool_decide (x_Signer leaf = x_PublicKey root)
  && x_IsCA root && bool_decide (KeyUsageCertSign ∈ x_KeyUsage root)
  && (x_NotBefore leaf <=? now) && (now <=? x_NotAfter leaf)
  && (x_NotBefore root <=? now) && (now <=? x_NotAfter root)
  && (bool_decide (x_ExtKeyUsage leaf = []) || bool_decide (usage ∈ x_ExtKeyUsage leaf))
  && (bool_decide (dnsName = []) || bool_decide (dnsName ∈ x_DNSNames leaf)).

(** ** The agent's own program *)

(** [main]: the pair of the server is loaded, but the error that is tested
    afterwards is the one of the certificate authority. *)
Definition agent_main (AgentCACert AgentSSLCert : bytes) : option (Certificate * (Certificate * bytes)) :=
  let '(ca, err) := Load no_pair AgentCACert in
  match err with
  | Some _ => None
  | None =>
      '(caCert, _) ← ToTLSCert ca;
      let '(srv, _) := Load no_pair AgentSSLCert in
      srvCert ← ToTLSCert srv;
      Some (caCert, srvCert)
  end.

(** [StartAgentServer]: which clients the TLS layer lets through. *)
Definition server_accepts (skipClientCertCheck : bool) (caCert : Certificate) (client : option Certificate) (now : Z) : bool :=
  if skipClientCertCheck then true
  else match client with
       | None => false
       | Some c => x509_Verify caCert c ExtKeyUsageClientAuth [] now
       end.

End NewAgent.

(** ** Lemmas: certificates *)

Lemma keypair_of `{X509Laws} c k p :
  toPEMPair c k = Ok p -> x_PublicKey c = PublicKey k -> ToTLSCert p = Some (c, k).
Proof.
  unfold toPEMPair, ToTLSCert, X509KeyPair. destruct (MarshalECPrivateKey k) as [der|] eqn:Em; [|discriminate].
  intros [= <-] Hpub. cbn [Cert Key]. rewrite !decode_encode_pem. simpl.
  rewrite parse_marshal_cert. simpl. rewrite (parse_marshal_key _ _ Em). simpl.
  by rewrite bool_decide_eq_true_2.
Qed.

(** The three certificates of a new agent as they were made. *)
Lemma NewAgent_inv `{X509Lib} e ca srv client :
  NewAgent e = Ok (ca, srv, client) ->
  exists s0 s1 s2 k0 k1 k2,
    let tmpl := caTemplate s0 (na_clock e 0) (na_clock e 1) in
    toPEMPair (CreateCertificate tmpl tmpl (PublicKey k0) k0) k0 = Ok ca
    /\ toPEMPair (CreateCertificate (leafTemplate (B "Server") ExtKeyUsageServerAuth s1 (na_clock e 2) (na_clock e 3)) tmpl (PublicKey k1) k0) k1 = Ok srv
    /\ toPEMPair (CreateCertificate (leafTemplate (B "Client") ExtKeyUsageClientAuth s2 (na_clock e 4) (na_clock e 5)) tmpl (PublicKey k2) k0) k2 = Ok client.
Proof.
  unfold NewAgent. destruct (na_create e) as [[b0 b1] b2].
  destruct (na_caSerial e) as [s0|]; [|discriminate]. destruct (na_caKey e) as [k0|]; [|discriminate].
  destruct b0; [|discriminate]. cbn [or_err mbind result_bind].
  destruct (toPEMPair _ k0) as [p0| |] eqn:E0; try discriminate. cbn [mbind result_bind].
  destruct (na_srvKey e) as [k1|]; [|discriminate]. destruct (na_srvSerial e) as [s1|]; [|discriminate].
  destruct b1; [|discriminate]. cbn [or_err mbind result_bind].
  destruct (toPEMPair _ k1) as [p1| |] eqn:E1; try discriminate. cbn [mbind result_bind].
  destruct (na_clientKey e) as [k2|]; [|discriminate]. destruct (na_clientSerial e) as [s2|]; [|discriminate].
  destruct b2; [|discriminate]. cbn [or_err mbind result_bind].
  destruct (toPEMPair _ k2) as [p2| |] eqn:E2; try discriminate. cbn [mbind result_bind].
  intros [= <- <- <-]. by exists s0, s1, s2, k0, k1, k2.
Qed.

(** A moment at which all three certificates are valid. *)
Definition valid_at `{X509Lib} (e : new_agent_env) (now : Z) : Prop :=
  forall i, (i < 6)%nat -> na_clock e i <= now <= AddYears 1000 (na_clock e i).

(** The certificates of a new agent: they load; the server shows one that the
    client's configuration accepts under the name of the agent, the client one
    that the server accepts; neither can play the other's part. *)
Theorem new_agent_mutual_tls `{X509Laws} e ca srv client now :
  NewAgent e = Ok (ca, srv, client) -> valid_at e now ->
  exists caCert caKey srvCert srvKey clientCert clientKey,
    ToTLSCert ca = Some (caCert, caKey) /\ ToTLSCert srv = Some (srvCert, srvKey) /\ ToTLSCert client = Some (clientCert, clientKey)
    /\ agent_main (PEMPair_String ca) (PEMPair_String srv) = Some (caCert, (srvCert, srvKey))
    /\ x509_Verify caCert srvCert ExtKeyUsageServerAuth CertsDNSName now = true
    /\ server_accepts false caCert (Some clientCert) now = true
    /\ server_accepts false caCert (Some srvCert) now = false
    /\ x509_Verify caCert clientCert ExtKeyUsageServerAuth CertsDNSName now = false
    /\ server_accepts false caCert None now = false
    /\ (forall c, x_Signer c <> PublicKey caKey -> server_accepts false caCert (Some c) now = false).
Proof.
  intros Hn Hv. destruct (NewAgent_inv _ _ _ _ Hn) as (s0 & s1 & s2 & k0 & k1 & k2 & P0 & P1 & P2).
  assert (Hle : forall i, (i < 6)%nat -> (na_clock e i <=? now) = true /\ (now <=? AddYears 1000 (na_clock e i)) = true).
  { intros i Hi. destruct (Hv i Hi). split; by apply Z.leb_le. }
  pose proof (keypair_of _ _ _ P0 eq_refl) as K0. pose proof (keypair_of _ _ _ P1 eq_refl) as K1.
  pose proof (keypair_of _ _ _ P2 eq_refl) as K2.
  do 6 eexists. split; [exact K0|]. split; [exact K1|]. split; [exact K2|].
  split; [unfold agent_main; rewrite !load_string, K0; simpl; by rewrite K1|].
  unfold server_accepts, x509_Verify, CreateCertificate, caTemplate, leafTemplate; cbn [x_Issuer x_Subject x_Signer x_PublicKey
    x_IsCA x_KeyUsage x_NotBefore x_NotAfter x_ExtKeyUsage x_DNSNames].
  rewrite (proj1 (Hle 0%nat ltac:(lia))), (proj2 (Hle 1%nat ltac:(lia))), (proj1 (Hle 2%nat ltac:(lia))),
    (proj2 (Hle 3%nat ltac:(lia))), (proj1 (Hle 4%nat ltac:(lia))), (proj2 (Hle 5%nat ltac:(lia))).
  rewrite !(bool_decide_eq_true_2 (PublicKey k0 = PublicKey k0)) by done.
  repeat split.
  intros c Hc. rewrite (bool_decide_eq_false_2 (x_Signer c = _)) by done. by rewrite !andb_false_r.
Qed.

(** The error of the server's pair is not looked at: a text with something
    behind the padding is refused by [Load] and used all the same. *)
Lemma ssl_error_ignored `{X509Lib} (ca srv : PEMPair) c :
  (length (Key srv) mod 3)%nat <> 0%nat -> is_newline c = false -> c <> ";"%char ->
  Load no_pair (PEMPair_String srv ++ [c]) = (srv, Some ErrBase64)
  /\ agent_main (PEMPair_String ca) (PEMPair_String srv ++ [c]) = agent_main (PEMPair_String ca) (PEMPair_String srv).
Proof.
  intros Hm Hc Hs.
  assert (El : Load no_pair (PEMPair_String srv ++ [c]) = (srv, Some ErrBase64)).
  { unfold Load, PEMPair_String, b64Encode, b64Decode. rewrite <- app_assoc. cbn [app].
    rewrite Split_app, Split_no_sep; [|rewrite not_elem_of_app, list_elem_of_singleton; split; [auto with godoxy|congruence]|auto with godoxy].
    rewrite DecodeString_encode, DecodeString_encode_then by auto. by destruct srv. }
  split; [done|]. unfold agent_main. by rewrite El, !load_string.
Qed.

(** ** An agent as the server knows it *)

Definition ContainerRuntimeDocker : bytes := B "docker".
Definition ContainerRuntimePodman : bytes := B "podman".

Definition EndpointVersion : bytes := B "/version".
Definition EndpointName : bytes := B "/name".
Definition EndpointRuntime : bytes := B "/runtime".
Definition EndpointProxyHTTP : bytes := B "/proxy/http".
Definition EndpointHealth : bytes := B "/health".
Definition EndpointSystemInfo : bytes := B "/system_info".
Definition AgentHost : bytes := CertsDNSName.
Definition APIEndpointBase : bytes := B "/godoxy/agent".
Definition APIBaseURL : bytes := B "https://" ++ AgentHost ++ APIEndpointBase.
Definition FakeDockerHostPrefix : bytes := B "agent://".
Definition HTTPProxyURLPrefixLen : nat := length (APIEndpointBase ++ EndpointProxyHTTP).

Definition IsDockerHostAgent (dockerHost : bytes) : bool := HasPrefix dockerHost FakeDockerHostPrefix.

(** [dockerHost[FakeDockerHostPrefixLen:]] *)
Definition GetAgentAddrFromDockerHost (dockerHost : bytes) : result agent_error bytes :=
  if (length dockerHost <? length FakeDockerHostPrefix)%nat then Panic SliceOutOfBounds
  else Ok (drop (length FakeDockerHostPrefix) dockerHost).

Record tls_Config := { tls_Certificate : Certificate * bytes; tls_RootCA : bytes; tls_ServerName : bytes }.

Record AgentConfig := {
  ac_Addr : bytes;
  ac_Name : bytes;
  ac_Version : bytes;
  ac_Runtime : bytes;
  ac_tls : option tls_Config
}.

Definition FakeDockerHost (cfg : AgentConfig) : bytes := FakeDockerHostPrefix ++ ac_Addr cfg.

(** [AgentConfig.String]; it is also the name of the agent's provider, which
    embeds the configuration. *)
Definition AgentConfig_String (cfg : AgentConfig) : bytes := ac_Name cfg ++ "@"%char :: ac_Addr cfg.

Definition new_config (addr runtime : bytes) : AgentConfig :=
  {| ac_Addr := addr; ac_Name := []; ac_Version := []; ac_Runtime := runtime; ac_tls := None |}.

(** [Parse] of an address in the configuration. *)
Definition AgentConfig_Parse (cfg : AgentConfig) (addr : bytes) : AgentConfig :=
  {| ac_Addr := addr; ac_Name := ac_Name cfg; ac_Version := ac_Version cfg; ac_Runtime := ac_Runtime cfg; ac_tls := ac_tls cfg |}.
Definition set_ac_Name (n : bytes) (cfg : AgentConfig) : AgentConfig :=
  {| ac_Addr := ac_Addr cfg; ac_Name := n; ac_Version := ac_Version cfg; ac_Runtime := ac_Runtime cfg; ac_tls := ac_tls cfg |}.
Definition set_ac_Version (v : bytes) (cfg : AgentConfig) : AgentConfig :=
  {| ac_Addr := ac_Addr cfg; ac_Name := ac_Name cfg; ac_Version := v; ac_Runtime := ac_Runtime cfg; ac_tls := ac_tls cfg |}.
Definition set_ac_Runtime (r : bytes) (cfg : AgentConfig) : AgentConfig :=
  {| ac_Addr := ac_Addr cfg; ac_Name := ac_Name cfg; ac_Version := ac_Version cfg; ac_Runtime := r; ac_tls := ac_tls cfg |}.
Definition set_ac_tls (t : tls_Config) (cfg : AgentConfig) : AgentConfig :=
  {| ac_Addr := ac_Addr cfg; ac_Name := ac_Name cfg; ac_Version := ac_Version cfg; ac_Runtime := ac_Runtime cfg; ac_tls := Some t |}.

(** The dialer of [Transport]: whatever the name in the URL, the connection
    goes to the address of the agent, and only requests for its name get one. *)
Definition Transport_dial (cfg : AgentConfig) (network addr : bytes) : result agent_error bytes :=
  if negb (bool_decide (addr = AgentHost ++ B ":443")) then Err (ErrDialAddr addr)
  else if negb (bool_decide (network = B "tcp")) then Err (ErrDialNetwork network)
  else Ok (ac_Addr cfg).

(** [NewFastHTTPHealthCheckClient]: the same for TCP only. *)
Definition health_dial (cfg : AgentConfig) (addr : bytes) : result agent_error bytes :=
  if negb (bool_decide (addr = AgentHost ++ B ":443")) then Err (ErrDialAddr addr) else Ok (ac_Addr cfg).

(** [fetchString]: what the agent answers at an endpoint, with the status;
    [None] when the request or the reading of the body fails. *)
Definition fetcher : Type := bytes -> option (bytes * Z).

Definition fetchString (fetch : fetcher) (endpoint : bytes) : result agent_error (bytes * Z) := or_err (fetch endpoint) ErrFetch.

(** The runtime from the answer of the agent. *)
Definition runtime_of (runtime : bytes) (status : Z) : result agent_error bytes :=
  if status =? 200 then
    if bool_decide (runtime = B "docker") then Ok ContainerRuntimeDocker
    else if bool_decide (runtime = B "podman") then Ok ContainerRuntimePodman
    else Err (ErrInvalidRuntime runtime)
  else if status =? 404 then Ok ContainerRuntimeDocker
  else Err (ErrRuntimeStatus status runtime).

Section Start.
Context `{X509Lib}.

(** [caCertPool.AppendCertsFromPEM(ca)]. *)
Definition AppendCertsFromPEM (ca : bytes) : bool :=
  match pem_Decode ca with
  | Some (t, der) => bool_decide (t = B "CERTIFICATE") && match ParseCertificate der with Some _ => true | None => false end
  | None => false
  end.

(** The configuration is assigned to step by step; what an error leaves is the
    first component. *)
Definition StartWithCerts (fetch : fetcher) (cfg : AgentConfig) (ca crt key : bytes) : AgentConfig * option agent_error :=
  match X509KeyPair crt key with
  | None => (cfg, Some ErrKeyPair)
  | Some clientCert =>
      if negb (AppendCertsFromPEM ca) then (cfg, Some ErrCA)
      else
        let cfg := set_ac_tls {| tls_Certificate := clientCert; tls_RootCA := ca; tls_ServerName := CertsDNSName |} cfg in
        match fetchString fetch EndpointName with
        | Ok (name, _) =>
            let cfg := set_ac_Name name cfg in
            match fetchString fetch EndpointVersion with
            | Ok (agentVersion, _) =>
                match fetchString fetch EndpointRuntime with
                | Ok (runtime, status) =>
                    match runtime_of runtime status with
                    | Ok r => (set_ac_Version (version_Parse agentVersion) (set_ac_Runtime r cfg), None)
                    | Err e => (cfg, Some e)
                    | Panic _ => (cfg, None)
                    end
                | Err e => (cfg, Some e)
                | Panic _ => (cfg, None)
                end
            | Err e => (cfg, Some e)
            | Panic _ => (cfg, None)
            end
        | Err e => (cfg, Some e)
        | Panic _ => (cfg, None)
        end
  end.

(** [Start]: with the certificates of the file. *)
Definition Start `{ZipLib, FilenameLib} (files : gmap bytes bytes) (fetch : fetcher) (cfg : AgentConfig) : AgentConfig * option agent_error :=
  match AgentCertsFilepath (ac_Addr cfg) with
  | None => (cfg, Some ErrInvalidHost)
  | Some filepath =>
      match files !! filepath with
      | None => (cfg, Some ErrReadCerts)
      | Some certData =>
          match ExtractCert certData with
          | Ok s => StartWithCerts fetch cfg (cs_ca s) (cs_crt s) (cs_key s)
          | Err e => (cfg, Some e)
          | Panic _ => (cfg, None)
          end
      end
  end.

End Start.

(** ** The pool of agents *)

Abbreviation agentPool := (gmap bytes AgentConfig).

Definition getAgentByAddr (pool : agentPool) (addr : bytes) : option AgentConfig := pool !! addr.

Definition GetAgent (pool : agentPool) (agentAddrOrDockerHost : bytes) : result agent_error (option AgentConfig) :=
  if negb (IsDockerHostAgent agentAddrOrDockerHost) then Ok (getAgentByAddr pool agentAddrOrDockerHost)
  else addr ← GetAgentAddrFromDockerHost agentAddrOrDockerHost; Ok (getAgentByAddr pool addr).

(** [Range] visits the entries in an order of its own. *)
Definition GetAgentByName (range : list (bytes * AgentConfig)) (name : bytes) : option AgentConfig :=
  snd <$> List.find (fun e => bool_decide (ac_Name e.2 = name)) range.

Definition AddAgent (a : AgentConfig) (pool : agentPool) : agentPool := <[ac_Addr a := a]> pool.
Definition RemoveAgent (a : AgentConfig) (pool : agentPool) : agentPool := delete (ac_Addr a) pool.
Definition RemoveAllAgents (pool : agentPool) : agentPool := ∅.
Definition ListAgents (range : list (bytes * AgentConfig)) : list AgentConfig := map snd range.
Definition NumAgents (pool : agentPool) : nat := size pool.

(** ** Lemmas: addresses and the pool *)

Lemma HasPrefix_app p s : HasPrefix (p ++ s) p = true.
Proof. apply bool_decide_eq_true_2. apply take_app_length. Qed.

(** An agent is found by its address and by the Docker host made of it, and no
    lookup of the pool panics. *)
Lemma agent_found pool a :
  GetAgent (AddAgent a pool) (FakeDockerHost a) = Ok (Some a)
  /\ (IsDockerHostAgent (ac_Addr a) = false -> GetAgent (AddAgent a pool) (ac_Addr a) = Ok (Some a))
  /\ (forall h, is_Panic (GetAgent pool h) = false)
  /\ (forall h, h <> ac_Addr a -> h <> FakeDockerHost a -> GetAgent (AddAgent a pool) h = GetAgent pool h).
Proof.
  assert (Hl : forall h, IsDockerHostAgent h = true -> exists s, h = FakeDockerHostPrefix ++ s).
  { intros h Hp. apply bool_decide_eq_true in Hp. exists (drop (length FakeDockerHostPrefix) h).
    rewrite <- Hp at 1. by rewrite take_drop. }
  assert (Hg : forall pool s, GetAgent pool (FakeDockerHostPrefix ++ s) = Ok (pool !! s)).
  { intros q s. unfold GetAgent, IsDockerHostAgent. rewrite HasPrefix_app. cbn [negb].
    unfold GetAgentAddrFromDockerHost. rewrite length_app.
    destruct (Nat.ltb_spec (length FakeDockerHostPrefix + length s) (length FakeDockerHostPrefix)); [lia|].
    by rewrite drop_app_length. }
  unfold FakeDockerHost, AddAgent. repeat split.
  - by rewrite Hg, lookup_insert_eq.
  - intros Hn. unfold GetAgent, getAgentByAddr. by rewrite Hn, lookup_insert_eq.
  - intros h. destruct (IsDockerHostAgent h) eqn:Eh; [destruct (Hl h Eh) as [s ->]; by rewrite Hg|].
    unfold GetAgent. by rewrite Eh.
  - intros h Ha Hf. destruct (IsDockerHostAgent h) eqn:Eh.
    + destruct (Hl h Eh) as [s ->]. rewrite !Hg, lookup_insert_ne by congruence. done.
    + unfold GetAgent, getAgentByAddr. by rewrite Eh, lookup_insert_ne by congruence.
Qed.

(** A started agent: its certificates were accepted and its name and runtime
    are what it answers; the runtime that was asked for plays no part. *)
Lemma started_config `{X509Lib} fetch addr runtime ca crt key cfg :
  StartWithCerts fetch (new_config addr runtime) ca crt key = (cfg, None) ->
  ac_Addr cfg = addr
  /\ (exists c, X509KeyPair crt key = Some c /\ ac_tls cfg = Some {| tls_Certificate := c; tls_RootCA := ca; tls_ServerName := CertsDNSName |})
  /\ (exists st, fetch EndpointName = Some (ac_Name cfg, st))
  /\ (exists r st, fetch EndpointRuntime = Some (r, st) /\ runtime_of r st = Ok (ac_Runtime cfg))
  /\ (forall runtime', StartWithCerts fetch (new_config addr runtime') ca crt key = (cfg, None)).
Proof.
  unfold StartWithCerts, fetchString.
  destruct (X509KeyPair crt key) as [c|]; [|discriminate]. destruct (AppendCertsFromPEM ca); [|discriminate]. cbn [negb].
  destruct (fetch EndpointName) as [[name st]|]; [|discriminate]. cbn [or_err].
  destruct (fetch EndpointVersion) as [[v sv]|]; [|discriminate]. cbn [or_err].
  destruct (fetch EndpointRuntime) as [[r sr]|]; [|discriminate]. cbn [or_err].
  destruct (runtime_of r sr) as [rt|?|?] eqn:Er; [|discriminate|].
  - intros [= <-]. cbn. repeat split; eauto.
  - exfalso. revert Er. unfold runtime_of. repeat case_match; discriminate.
Qed.

Lemma append_of `{X509Laws} c k p : toPEMPair c k = Ok p -> AppendCertsFromPEM (Cert p) = true.
Proof.
  unfold toPEMPair, AppendCertsFromPEM. destruct (MarshalECPrivateKey k); [|discriminate]. intros [= <-]. cbn [Cert].
  rewrite decode_encode_pem, parse_marshal_cert. by rewrite bool_decide_eq_true_2.
Qed.

(** With the certificates of a new agent, starting it depends on its answers
    alone. *)
Lemma new_agent_starts `{X509Laws} e ca srv client fetch addr rt name st v sv r sr runtime :
  NewAgent e = Ok (ca, srv, client) ->
  fetch EndpointName = Some (name, st) -> fetch EndpointVersion = Some (v, sv) -> fetch EndpointRuntime = Some (r, sr) ->
  runtime_of r sr = Ok runtime ->
  exists cfg, StartWithCerts fetch (new_config addr rt) (Cert ca) (Cert client) (Key client) = (cfg, None)
    /\ ac_Addr cfg = addr /\ ac_Name cfg = name /\ ac_Runtime cfg = runtime.
Proof.
  intros Hn Hf1 Hf2 Hf3 Hr. destruct (NewAgent_inv _ _ _ _ Hn) as (s0 & s1 & s2 & k0 & k1 & k2 & P0 & _ & P2).
  pose proof (keypair_of _ _ _ P2 eq_refl) as Hk. unfold ToTLSCert in Hk.
  unfold StartWithCerts, fetchString. rewrite Hk, (append_of _ _ _ P0), Hf1, Hf2, Hf3. cbn [negb or_err]. rewrite Hr.
  eexists. split; [reflexivity|done].
Qed.

(** ** Creating an agent *)

Record NewAgentRequest := { nr_Name : bytes; nr_Host : bytes; nr_Port : Z; nr_Type : bytes; nr_Nightly : bool; nr_Runtime : bytes }.

Record AgentEnvConfig := { ae_Name : bytes; ae_Port : Z; ae_CACert : bytes; ae_SSLCert : bytes; ae_Runtime : bytes }.

(** What [Generate] is called on: the environment of a script, or with an image
    that of a compose file. *)
Inductive Generator := EnvConfig (c : AgentEnvConfig) | ComposeConfig (image : bytes) (c : AgentEnvConfig).

Definition DockerImageProduction : bytes := B "ghcr.io/yusing/godoxy-agent:latest".
Definition DockerImageNightly : bytes := B "ghcr.io/yusing/godoxy-agent:nightly".

Definition JoinHostPort (host port : bytes) : bytes :=
  if bool_decide (":"%char ∈ host) then "["%char :: host ++ B "]:" ++ port else host ++ ":"%char :: port.

Record NewAgentResponse := { ar_Compose : bytes; ar_CA : PEMPairResponse; ar_Client : PEMPairResponse }.

(** A response with a status, or the panic of a handler. *)
Inductive http_outcome (A : Type) := Status200 (a : A) | Status400 | Status409 | Status500 | HandlerPanic.
Arguments Status200 {A} a.
Arguments Status400 {A}.
Arguments Status409 {A}.
Arguments Status500 {A}.
Arguments HandlerPanic {A}.

(** What one execution of [Create] draws and what its templates produce. *)
Record create_env := {
  ce_new : new_agent_env;
  ce_generate : Generator -> option bytes;
  ce_ca_nonces : option bytes * option bytes;
  ce_client_nonces : option bytes * option bytes
}.

(** [None]: the body is not a valid request. *)
Definition Create `{AEAD, X509Lib} (e : create_env) (pool : agentPool) (encryptionKey : bytes) (req : option NewAgentRequest) :
    http_outcome NewAgentResponse :=
  match req with
  | None => Status400
  | Some r =>
      match GetAgent pool (JoinHostPort (nr_Host r) (Itoa (nr_Port r))) with
      | Ok None =>
          let image := if nr_Nightly r then DockerImageNightly else DockerImageProduction in
          match NewAgent (ce_new e) with
          | Ok (ca, srv, client) =>
              let env := {| ae_Name := nr_Name r; ae_Port := nr_Port r; ae_CACert := PEMPair_String ca;
                            ae_SSLCert := PEMPair_String srv; ae_Runtime := nr_Runtime r |} in
              let cfg := if bool_decide (nr_Type r = B "docker") then ComposeConfig image env else EnvConfig env in
              match ce_generate e cfg with
              | None => Status500
              | Some template =>
                  match Encrypt (ce_ca_nonces e) ca encryptionKey with
                  | Ok encCA =>
                      match Encrypt (ce_client_nonces e) client encryptionKey with
                      | Ok encClient =>
                          Status200 {| ar_Compose := template; ar_CA := toPEMPairResponse encCA; ar_Client := toPEMPairResponse encClient |}
                      | Err _ => Status500
                      | Panic _ => HandlerPanic
                      end
                  | Err _ => Status500
                  | Panic _ => HandlerPanic
                  end
              end
          | Err _ => Status500
          | Panic _ => HandlerPanic
          end
      | Ok (Some _) => Status409
      | Err _ => Status500
      | Panic _ => HandlerPanic
      end
  end.

(** ** Adding it *)

(** The part of the running program that [Verify] changes: the encryption key,
    the agents of the configuration file, the providers of the active state with
    the number of their routes, the pool and the files. *)
Record api_world := {
  aw_key : bytes;
  aw_configured : list bytes;
  aw_providers : gmap bytes nat;
  aw_pool : agentPool;
  aw_files : gmap bytes bytes
}.

Definition set_aw_providers (p : gmap bytes nat) (w : api_world) : api_world :=
  {| aw_key := aw_key w; aw_configured := aw_configured w; aw_providers := p; aw_pool := aw_pool w; aw_files := aw_files w |}.
Definition set_aw_pool (p : agentPool) (w : api_world) : api_world :=
  {| aw_key := aw_key w; aw_configured := aw_configured w; aw_providers := aw_providers w; aw_pool := p; aw_files := aw_files w |}.
Definition set_aw_files (f : gmap bytes bytes) (w : api_world) : api_world :=
  {| aw_key := aw_key w; aw_configured := aw_configured w; aw_providers := aw_providers w; aw_pool := aw_pool w; aw_files := f |}.

(** [rotateKey]: the key is replaced unless the random source fails. *)
Definition rotateKey (rand : option bytes) (w : api_world) : api_world :=
  match rand with
  | None => w
  | Some key => {| aw_key := key; aw_configured := aw_configured w; aw_providers := aw_providers w; aw_pool := aw_pool w; aw_files := aw_files w |}
  end.

Record VerifyNewAgentRequest := { vr_Host : bytes; vr_CA : PEMPairResponse; vr_Client : PEMPairResponse; vr_Runtime : bytes }.

(** What the agent answers, the routes its provider loads ([None]: an error),
    and whether the file can be written. *)
Record verify_env := { ve_fetch : fetcher; ve_routes : option nat; ve_write : bool }.

Definition verifyNewAgent `{X509Lib} (e : verify_env) (w : api_world) (host : bytes) (ca client : PEMPair) (containerRuntime : bytes) :
    api_world * result agent_error nat :=
  if bool_decide (host ∈ aw_configured w) then (w, Err ErrAgentExists)
  else
    let '(agentCfg, err) := StartWithCerts (ve_fetch e) (new_config host containerRuntime) (Cert ca) (Cert client) (Key client) in
    match err with
    | Some err => (w, Err err)
    | None =>
        let name := AgentConfig_String agentCfg in
        match aw_providers w !! name with
        | Some _ => (w, Err (ErrProviderExists name))
        | None =>
            let w := set_aw_providers (<[name := 0%nat]> (aw_providers w)) w in
            let w := set_aw_pool (AddAgent agentCfg (aw_pool w)) w in
            match ve_routes e with
            | None =>
                let w := set_aw_providers (delete name (aw_providers w)) w in
                (set_aw_pool (RemoveAgent agentCfg (aw_pool w)) w, Err ErrLoadRoutes)
            | Some n => (set_aw_providers (<[name := n]> (aw_providers w)) w, Ok n)
            end
        end
    end.

Definition Verify `{AEAD, X509Lib, ZipLib, FilenameLib} (e : verify_env) (w : api_world) (req : option VerifyNewAgentRequest) :
    api_world * http_outcome nat :=
  match req with
  | None => (w, Status400)
  | Some r =>
      match AgentCertsFilepath (vr_Host r) with
      | None => (w, Status400)
      | Some filename =>
          match fromEncryptedPEMPairResponse (aw_key w) (vr_CA r) with
          | Ok ca =>
              match fromEncryptedPEMPairResponse (aw_key w) (vr_Client r) with
              | Ok client =>
                  match verifyNewAgent e w (vr_Host r) ca client (vr_Runtime r) with
                  | (w, Ok nRoutesAdded) =>
                      match ZipCert (Cert ca) (Cert client) (Key client) with
                      | Ok zip =>
                          if ve_write e then (set_aw_files (<[filename := zip]> (aw_files w)) w, Status200 nRoutesAdded)
                          else (w, Status500)
                      | Err _ => (w, Status500)
                      | Panic _ => (w, HandlerPanic)
                      end
                  | (w, Err _) => (w, Status400)
                  | (w, Panic _) => (w, HandlerPanic)
                  end
              | Err _ => (w, Status400)
              | Panic _ => (w, HandlerPanic)
              end
          | Err _ => (w, Status400)
          | Panic _ => (w, HandlerPanic)
          end
      end
  end.

(** ** Lemmas: enrolment *)

Lemma Create_inv `{AEAD, X509Lib} e pool key r resp :
  Create e pool key (Some r) = Status200 resp ->
  exists ca srv client encCA encClient,
    NewAgent (ce_new e) = Ok (ca, srv, client)
    /\ Encrypt (ce_ca_nonces e) ca key = Ok encCA /\ Encrypt (ce_client_nonces e) client key = Ok encClient
    /\ ar_CA resp = toPEMPairResponse encCA /\ ar_Client resp = toPEMPairResponse encClient
    /\ (exists cfg, ce_generate e cfg = Some (ar_Compose resp)
         /\ match cfg with EnvConfig c | ComposeConfig _ c => ae_CACert c = PEMPair_String ca /\ ae_SSLCert c = PEMPair_String srv end).
Proof.
  unfold Create. destruct (GetAgent _ _) as [[?|]| |]; try discriminate.
  destruct (NewAgent (ce_new e)) as [[[ca srv] client]| |]; try discriminate. cbv zeta.
  destruct (ce_generate e _) as [t|] eqn:Eg; [|discriminate].
  destruct (Encrypt _ ca key) as [ea| |] eqn:Ea; try discriminate.
  destruct (Encrypt _ client key) as [ec| |] eqn:Ec; try discriminate. intros [= <-].
  exists ca, srv, client, ea, ec. repeat split; auto.
  eexists. split; [apply Eg|]. by destruct (bool_decide _).
Qed.

(** What a successful [verifyNewAgent] changes. *)
Lemma verify_ok `{X509Lib} e w host ca client rt w' n :
  verifyNewAgent e w host ca client rt = (w', Ok n) ->
  exists cfg, StartWithCerts (ve_fetch e) (new_config host rt) (Cert ca) (Cert client) (Key client) = (cfg, None)
    /\ aw_pool w' = AddAgent cfg (aw_pool w) /\ aw_providers w' = <[AgentConfig_String cfg := n]> (aw_providers w)
    /\ aw_providers w !! AgentConfig_String cfg = None /\ (host ∉ aw_configured w)
    /\ aw_files w' = aw_files w /\ aw_key w' = aw_key w /\ aw_configured w' = aw_configured w.
Proof.
  unfold verifyNewAgent. case_bool_decide as Hc; [discriminate|].
  destruct (StartWithCerts _ _ _ _ _) as [cfg [err|]] eqn:Es; [discriminate|].
  destruct (aw_providers w !! _) eqn:Ep; [discriminate|]. destruct (ve_routes e); [|discriminate].
  intros [= <- <-]. exists cfg. cbn. rewrite insert_insert_eq. auto 9.
Qed.

(** A refused one: nothing changes, if the pool had no agent at this address. *)
Lemma verify_err `{X509Lib} e w host ca client rt w' err :
  aw_pool w !! host = None -> verifyNewAgent e w host ca client rt = (w', Err err) -> w' = w.
Proof.
  intros Hp. unfold verifyNewAgent. case_bool_decide as Hc; [congruence|].
  destruct (StartWithCerts _ _ _ _ _) as [cfg [err'|]] eqn:Es; [congruence|].
  destruct (aw_providers w !! _) eqn:Ep; [congruence|]. destruct (ve_routes e); [congruence|].
  intros [= <- <-]. destruct (started_config _ _ _ _ _ _ _ Es) as (Ha & _).
  destruct w as [k co pr po fi]. cbn in *. unfold set_aw_pool, set_aw_providers, RemoveAgent, AddAgent. cbn.
  by rewrite Ha, !delete_insert_id by done.
Qed.

(** With pairs that the key opens, [Verify] is decided by [verifyNewAgent] and
    by the writing of the archive. *)
Lemma Verify_opened `{AEAD, X509Lib, ZipLib, FilenameLib} e w r ca client filename :
  AgentCertsFilepath (vr_Host r) = Some filename ->
  fromEncryptedPEMPairResponse (aw_key w) (vr_CA r) = Ok ca ->
  fromEncryptedPEMPairResponse (aw_key w) (vr_Client r) = Ok client ->
  Verify e w (Some r) =
    match verifyNewAgent e w (vr_Host r) ca client (vr_Runtime r) with
    | (w', Ok n) =>
        match ZipCert (Cert ca) (Cert client) (Key client) with
        | Ok zip => if ve_write e then (set_aw_files (<[filename := zip]> (aw_files w')) w', Status200 n) else (w', Status500)
        | Err _ => (w', Status500)
        | Panic _ => (w', HandlerPanic)
        end
    | (w', Err _) => (w', Status400)
    | (w', Panic _) => (w', HandlerPanic)
    end.
Proof. intros Hf Hc Hk. unfold Verify. by rewrite Hf, Hc, Hk. Qed.

Lemma ZipCert_no_panic `{ZipLib} ca crt key p : ZipCert ca crt key <> Panic p.
Proof.
  unfold ZipCert, writeFile.
  destruct (zip_accepts (B "ca.pem") ca); [|discriminate]. cbn [mbind result_bind].
  destruct (zip_accepts (B "cert.pem") crt); [|discriminate]. cbn [mbind result_bind].
  destruct (zip_accepts (B "key.pem") key); [|discriminate]. cbn [mbind result_bind].
  by destruct (zip_close _).
Qed.

Lemma verifyNewAgent_no_panic `{X509Lib} e w host ca client rt w' p : verifyNewAgent e w host ca client rt <> (w', Panic p).
Proof. unfold verifyNewAgent. repeat case_match; congruence. Qed.

(** The certificates of the archive start the agent as it was started. *)
Lemma restart_from_file `{ZipLaws, X509Lib, FilenameLib} files fetch host rt rt' filename zip ca client cfg :
  AgentCertsFilepath host = Some filename -> files !! filename = Some zip ->
  ZipCert (Cert ca) (Cert client) (Key client) = Ok zip ->
  StartWithCerts fetch (new_config host rt) (Cert ca) (Cert client) (Key client) = (cfg, None) ->
  Start files fetch (new_config host rt') = (cfg, None).
Proof.
  intros Hf Hl Hz Hs. unfold Start. cbn [ac_Addr new_config]. rewrite Hf, Hl, (extract_zip _ _ _ _ Hz). cbn [cs_ca cs_crt cs_key].
  by destruct (started_config _ _ _ _ _ _ _ Hs) as (_ & _ & _ & _ & ->).
Qed.

Definition verify_request (host rt : bytes) (resp : NewAgentResponse) : VerifyNewAgentRequest :=
  {| vr_Host := host; vr_CA := ar_CA resp; vr_Client := ar_Client resp; vr_Runtime := rt |}.

(** An answer of 500 leaves the agent and its provider in place without the
    file that would start it again. *)
Lemma verify_500_registers `{AEAD, X509Lib, ZipLib, FilenameLib} e w r w' :
  Verify e w (Some r) = (w', Status500) ->
  aw_files w' = aw_files w /\ exists cfg, ac_Addr cfg = vr_Host r /\ aw_pool w' !! vr_Host r = Some cfg
    /\ aw_providers w !! AgentConfig_String cfg = None /\ is_Some (aw_providers w' !! AgentConfig_String cfg).
Proof.
  unfold Verify. destruct (AgentCertsFilepath _); [|discriminate].
  destruct (fromEncryptedPEMPairResponse _ (vr_CA r)) as [ca| |]; try discriminate.
  destruct (fromEncryptedPEMPairResponse _ (vr_Client r)) as [client| |]; try discriminate.
  destruct (verifyNewAgent e w _ ca client _) as [w1 [n|err|p]] eqn:Ev; try discriminate.
  destruct (verify_ok _ _ _ _ _ _ _ _ Ev) as (cfg & Hs & Hpool & Hprov & Hfree & _ & Hfi & _).
  intros Hw. assert (w' = w1) as -> by (revert Hw; repeat case_match; congruence).
  split; [done|]. exists cfg. destruct (started_config _ _ _ _ _ _ _ Hs) as (Ha & _).
  rewrite Hpool, Hprov. unfold AddAgent. rewrite Ha, !lookup_insert_eq. eauto.
Qed.

(** Everything that has to go well: the host makes a file name and is not one of
    the configured agents, the agent answers with certificates that are accepted,
    no provider has its name, its routes load, the archive is made and written. *)
Definition enrols `{X509Lib, ZipLib, FilenameLib} (ve : verify_env) (w : api_world) (host rt : bytes) (ca client : PEMPair)
    (n : nat) : Prop :=
  is_Some (AgentCertsFilepath host) /\ (host ∉ aw_configured w)
  /\ (exists cfg, StartWithCerts (ve_fetch ve) (new_config host rt) (Cert ca) (Cert client) (Key client) = (cfg, None)
       /\ aw_providers w !! AgentConfig_String cfg = None)
  /\ ve_routes ve = Some n /\ (exists zip, ZipCert (Cert ca) (Cert client) (Key client) = Ok zip) /\ ve_write ve = true.

(** What an enrolment with [n] routes leaves: the agent in the pool, its provider,
    and a file that starts it again. *)
Definition enrolled `{X509Lib, ZipLib, FilenameLib} (ve : verify_env) (w' : api_world) (host rt : bytes) (ca client : PEMPair)
    (n : nat) : Prop :=
  exists cfg, StartWithCerts (ve_fetch ve) (new_config host rt) (Cert ca) (Cert client) (Key client) = (cfg, None)
    /\ aw_pool w' !! host = Some cfg /\ aw_providers w' !! AgentConfig_String cfg = Some n
    /\ forall rt', Start (aw_files w') (ve_fetch ve) (new_config host rt') = (cfg, None).

(** C36: adding an agent with what its creation returned, while the key is the
    same (and nonces have the right length): the pairs are opened and nothing
    panics. The answer is 200 exactly when the host makes a valid file name and is
    not configured already, the agent answers and its certificates are accepted,
    no provider has its name, its routes load, and the archive is made and
    written; then the agent is in the pool, its provider is registered and the
    file starts it again with the same certificates. When only the archive or its
    writing fails the answer is 500, and the agent and its provider stay without
    the file. A 400 changes nothing, unless an agent at this address was in the
    pool without being configured. *)
Theorem agent_enrolment `{AEADLaws, X509Laws, ZipLaws, FilenameLib} ce pool r resp ve w host rt :
  Create ce pool (aw_key w) (Some r) = Status200 resp ->
  good_nonces (ce_ca_nonces ce) -> good_nonces (ce_client_nonces ce) ->
  exists ca srv client, NewAgent (ce_new ce) = Ok (ca, srv, client)
    /\ let '(w', out) := Verify ve w (Some (verify_request host rt resp)) in
       out <> HandlerPanic
       /\ (forall n, out = Status200 n <-> enrols ve w host rt ca client n)
       /\ (forall n, out = Status200 n -> enrolled ve w' host rt ca client n)
       /\ (out = Status500 -> aw_files w' = aw_files w
             /\ exists cfg, ac_Addr cfg = host /\ aw_pool w' !! host = Some cfg
                  /\ aw_providers w !! AgentConfig_String cfg = None /\ is_Some (aw_providers w' !! AgentConfig_String cfg))
       /\ (out = Status400 -> aw_pool w !! host = None -> w' = w).
Proof.
  intros Hc Hn1 Hn2. destruct (Create_inv _ _ _ _ _ Hc) as (ca & srv & client & ea & ec & Hna & Ea & Ec & Hca & Hcl & _).
  exists ca, srv, client. split; [done|].
  destruct (AgentCertsFilepath host) as [filename|] eqn:Ef.
  2:{ unfold Verify, enrols. cbn [vr_Host verify_request]. rewrite Ef. repeat split; try congruence. intros [[? Hx] _]. done. }
  pose proof (verify_500_registers ve w (verify_request host rt resp)) as H500. cbn [vr_Host verify_request] in H500.
  pose proof (Verify_opened ve w (verify_request host rt resp) ca client filename Ef) as Hv. cbn [vr_CA vr_Client verify_request] in Hv.
  rewrite Hca, Hcl in Hv. specialize (Hv (pair_roundtrip _ _ _ _ Hn1 Ea) (pair_roundtrip _ _ _ _ Hn2 Ec)).
  cbn [vr_Host vr_Runtime verify_request] in Hv.
  destruct (Verify ve w (Some (verify_request host rt resp))) as [w' out] eqn:Ev'. specialize (H500 w').
  assert (Hno : forall n, verifyNewAgent ve w host ca client rt <> ((verifyNewAgent ve w host ca client rt).1, Ok n) ->
                  ~ enrols ve w host rt ca client n).
  { intros n Hne (_ & Hnc & (cfg & Hs & Hfr) & Hr & _). apply Hne. unfold verifyNewAgent.
    rewrite bool_decide_eq_false_2 by done. by rewrite Hs, Hfr, Hr. }
  destruct (verifyNewAgent ve w host ca client rt) as [w1 [n|err|p]] eqn:Ev; cbn [fst] in Hno.
  - destruct (verify_ok _ _ _ _ _ _ _ _ Ev) as (cfg & Hs & Hpool & Hprov & Hfree & Hnc & _).
    assert (Ha : ac_Addr cfg = host) by apply (started_config _ _ _ _ _ _ _ Hs).
    assert (Hroutes : ve_routes ve = Some n).
    { revert Ev. unfold verifyNewAgent. rewrite bool_decide_eq_false_2, Hs, Hfree by done. destruct (ve_routes ve); congruence. }
    destruct (ZipCert _ _ _) as [zip|err|p] eqn:Ez; [destruct (ve_write ve) eqn:Ew| |by destruct (ZipCert_no_panic _ _ _ _ Ez)];
      injection Hv as -> ->.
    + split; [done|]. split; [|split; [|done]].
      * intros m. split; [intros [= <-]; split; [by eexists|]; eauto 9|]. intros (_ & _ & _ & Hr & _). congruence.
      * intros m [= <-]. exists cfg. cbn [aw_pool aw_providers aw_files set_aw_files].
        rewrite Hpool, Hprov. unfold AddAgent. rewrite Ha, !lookup_insert_eq. repeat split; [done|].
        intros rt'. eapply restart_from_file; [exact Ef|apply lookup_insert_eq|exact Ez|exact Hs].
    + split; [done|]. split; [intros m; split; [done|]|split; [done|split; [by intros _; apply H500|done]]].
      intros (_ & _ & _ & _ & _ & Hw). congruence.
    + split; [done|]. split; [intros m; split; [done|]|split; [done|split; [by intros _; apply H500|done]]].
      intros (_ & _ & _ & _ & [zip Hz] & _). congruence.
  - injection Hv as -> ->. split; [done|]. split; [intros m; split; [done|]|split; [done|split; [done|]]].
    + intros He. exfalso. apply (Hno m); [congruence|done].
    + intros _ Hp. by eapply verify_err.
  - by destruct (verifyNewAgent_no_panic _ _ _ _ _ _ _ _ Ev).
Qed.

(** An agent that was added before under another name is lost from the pool
    when the routes of the new one do not load. *)
Lemma verify_400_drops `{X509Lib} e w host ca client rt cfg old :
  host ∉ aw_configured w -> aw_pool w !! host = Some old ->
  StartWithCerts (ve_fetch e) (new_config host rt) (Cert ca) (Cert client) (Key client) = (cfg, None) ->
  aw_providers w !! AgentConfig_String cfg = None -> ve_routes e = None ->
  exists w', verifyNewAgent e w host ca client rt = (w', Err ErrLoadRoutes)
    /\ aw_pool w' !! host = None /\ aw_providers w' = aw_providers w.
Proof.
  intros Hnc Hold Hs Hf Hr. unfold verifyNewAgent. rewrite bool_decide_eq_false_2 by done. rewrite Hs, Hf, Hr.
  eexists. split; [done|]. cbn. destruct (started_config _ _ _ _ _ _ _ Hs) as (Ha & _).
  unfold RemoveAgent. rewrite Ha, lookup_delete_eq, delete_insert_id by done. done.
Qed.

(** A pair whose bytes are shorter than a nonce ends the handler with a panic. *)
Lemma verify_short_panics `{AEAD, X509Lib, ZipLib, FilenameLib} e w r filename cert key :
  AgentCertsFilepath (vr_Host r) = Some filename -> NewCipher_ok (aw_key w) = true ->
  vr_CA r = toPEMPairResponse {| Cert := cert; Key := key |} -> (length cert < NonceSize)%nat ->
  Verify e w (Some r) = (w, HandlerPanic).
Proof.
  intros Hf Hk Hr Hl. unfold Verify. rewrite Hf, Hr. unfold fromEncryptedPEMPairResponse, toPEMPairResponse.
  cbn [resp_Cert resp_Key Cert Key]. rewrite !DecodeString_encode. cbn [negb]. unfold Decrypt. cbn [Cert Key].
  unfold decrypt. rewrite Hk. cbn [negb]. by rewrite (proj2 (Nat.ltb_lt _ _) Hl).
Qed.

(** ** Concrete libraries and examples *)

Module AgentDemo.

(** Any countable data as bytes: the bits of its code. *)
Fixpoint bits (p : positive) : bytes :=
  match p with xH => [] | xO q => "0"%char :: bits q | xI q => "1"%char :: bits q end.
Fixpoint unbits (s : bytes) : positive :=
  match s with [] => xH | c :: s' => if Ascii.eqb c "0" then xO (unbits s') else xI (unbits s') end.

Lemma unbits_bits p : unbits (bits p) = p.
Proof. induction p; simpl; congruence. Qed.

Definition usage_code (u : KeyUsage) : nat :=
  match u with KeyUsageCertSign => 0 | KeyUsageCRLSign => 1 | KeyUsageDigitalSignature => 2 end.
Definition usage_of (n : nat) : KeyUsage :=
  match n with 0%nat => KeyUsageCertSign | 1%nat => KeyUsageCRLSign | _ => KeyUsageDigitalSignature end.
Definition ext_code (u : ExtKeyUsage) : bool := bool_decide (u = ExtKeyUsageServerAuth).
Definition ext_of (b : bool) : ExtKeyUsage := if b then ExtKeyUsageServerAuth else ExtKeyUsageClientAuth.

#[export] Instance KeyUsage_countable : Countable KeyUsage.
Proof. refine (inj_countable' usage_code usage_of _). by intros []. Defined.
#[export] Instance ExtKeyUsage_countable : Countable ExtKeyUsage.
Proof. refine (inj_countable' ext_code ext_of _). by intros []. Defined.
#[export] Instance pkix_Name_countable : Countable pkix_Name.
Proof.
  refine (inj_countable' (fun n => (pn_Organization n, pn_OrganizationalUnit n, pn_CommonName n))
    (fun '(a, b, c) => {| pn_Organization := a; pn_OrganizationalUnit := b; pn_CommonName := c |}) _). by intros [].
Defined.
#[export] Instance Certificate_eq_dec : EqDecision Certificate.
Proof. solve_decision. Defined.
#[export] Instance Certificate_countable : Countable Certificate.
Proof.
  refine (inj_countable' (fun c => (x_SerialNumber c, x_Issuer c, x_Subject c, x_DNSNames c, (x_NotBefore c, x_NotAfter c),
      (x_KeyUsage c, x_ExtKeyUsage c, x_IsCA c), (x_PublicKey c, x_Signer c)))
    (fun '(s, i, u, d, (nb, na), (ku, eu, ca), (pk, sg)) =>
       {| x_SerialNumber := s; x_Issuer := i; x_Subject := u; x_DNSNames := d; x_NotBefore := nb; x_NotAfter := na;
          x_KeyUsage := ku; x_ExtKeyUsage := eu; x_IsCA := ca; x_PublicKey := pk; x_Signer := sg |}) _). by intros [].
Defined.

#[export] Instance demo_aead : AEAD := {
  gcm_Seal key nonce data := key ++ nonce ++ data;
  gcm_Open key nonce c :=
    if HasPrefix c (key ++ nonce) then Some (drop (length (key ++ nonce)) c) else None
}.

#[export] Instance demo_aead_laws : AEADLaws.
Proof.
  constructor. intros key nonce data _. cbn [gcm_Seal gcm_Open demo_aead].
  by rewrite app_assoc, HasPrefix_app, drop_app_length.
Qed.

#[export] Instance demo_x509 : X509Lib := {
  PublicKey priv := B "pub" ++ priv;
  MarshalECPrivateKey priv := Some priv;
  ParseECPrivateKey der := Some der;
  MarshalCertificate c := bits (encode c);
  ParseCertificate der := decode (unbits der);
  pem_EncodeToMemory typ data := bits (encode (typ, data));
  pem_Decode text := decode (unbits text);
  AddYears years t := t + years * 31556952;
  version_Parse s := s
}.

#[export] Instance demo_x509_laws : X509Laws.
Proof.
  constructor; cbn [MarshalECPrivateKey ParseECPrivateKey ParseCertificate MarshalCertificate pem_Decode pem_EncodeToMemory demo_x509].
  - by intros ?? [= <-].
  - intros c. rewrite unbits_bits. apply decode_encode.
  - intros typ data. rewrite unbits_bits. apply decode_encode.
Qed.

#[export] Instance demo_zip : ZipLib := {
  zip_accepts _ _ := true;
  zip_close entries := Some (bits (encode entries));
  zip_read data := map (fun e => (e.1, Some e.2)) <$> (decode (unbits data) : option (list (bytes * bytes)))
}.

#[export] Instance demo_zip_laws : ZipLaws.
Proof.
  constructor. cbn [zip_close zip_read demo_zip]. intros entries data [= <-]. by rewrite unbits_bits, decode_encode.
Qed.

#[export] Instance demo_filenames : FilenameLib := { IsValidFilename name := negb (bool_decide ("/"%char ∈ name)) }.

Definition draw : new_agent_env :=
  {| na_caSerial := Some 1; na_caKey := Some (B "k0"); na_srvKey := Some (B "k1"); na_srvSerial := Some 2;
     na_clientKey := Some (B "k2"); na_clientSerial := Some 3; na_create := (true, true, true); na_clock := Z.of_nat |}.

Definition nonce : bytes := B "abcdefghijkl".
Definition secret : bytes := B "0123456789abcdef0123456789abcdef".

Definition creation : create_env :=
  {| ce_new := draw; ce_generate := fun _ => Some (B "compose"); ce_ca_nonces := (Some nonce, Some nonce); ce_client_nonces := (Some nonce, Some nonce) |}.

Definition the_request : NewAgentRequest :=
  {| nr_Name := B "nas"; nr_Host := B "10.0.0.2"; nr_Port := 8890; nr_Type := B "docker"; nr_Nightly := false; nr_Runtime := B "docker" |}.

Definition world : api_world :=
  {| aw_key := secret; aw_configured := []; aw_providers := ∅; aw_pool := ∅; aw_files := ∅ |}.

Definition answers : fetcher := fun endpoint =>
  if bool_decide (endpoint = EndpointRuntime) then Some (B "docker", 200) else Some (B "nas", 200).

Definition verification : verify_env := {| ve_fetch := answers; ve_routes := Some 3%nat; ve_write := true |}.

Lemma new_agent_mutual_tls_witness :
  exists ca srv client, NewAgent draw = Ok (ca, srv, client) /\ valid_at draw 1000 /\
  exists caCert caKey srvCert srvKey clientCert clientKey,
    ToTLSCert ca = Some (caCert, caKey) /\ ToTLSCert srv = Some (srvCert, srvKey) /\ ToTLSCert client = Some (clientCert, clientKey)
    /\ agent_main (PEMPair_String ca) (PEMPair_String srv) = Some (caCert, (srvCert, srvKey))
    /\ x509_Verify caCert srvCert ExtKeyUsageServerAuth CertsDNSName 1000 = true
    /\ server_accepts false caCert (Some clientCert) 1000 = true
    /\ server_accepts false caCert (Some srvCert) 1000 = false
    /\ x509_Verify caCert clientCert ExtKeyUsageServerAuth CertsDNSName 1000 = false
    /\ server_accepts false caCert None 1000 = false
    /\ (forall c, x_Signer c <> PublicKey caKey -> server_accepts false caCert (Some c) 1000 = false).
Proof.
  do 3 eexists. assert (Hv : valid_at draw 1000).
  { intros i Hi. cbn [AddYears demo_x509 na_clock draw]. lia. }
  split; [reflexivity|]. split; [exact Hv|]. apply (new_agent_mutual_tls draw); [reflexivity|exact Hv].
Defined.

Definition the_host : bytes := B "10.0.0.2:8890".

(** The agent of the example, started with the pairs of the example. *)
Lemma demo_starts ca srv client :
  NewAgent draw = Ok (ca, srv, client) ->
  exists cfg, StartWithCerts answers (new_config the_host []) (Cert ca) (Cert client) (Key client) = (cfg, None).
Proof.
  intros Hna. destruct (new_agent_starts draw ca srv client answers the_host [] (B "nas") 200 (B "nas") 200 (B "docker") 200 (B "docker"))
    as (cfg & Hs & _); eauto.
Qed.

Lemma agent_enrolment_witness :
  exists resp ca srv client w' cfg, Create creation ∅ (aw_key world) (Some the_request) = Status200 resp
    /\ NewAgent draw = Ok (ca, srv, client)
    /\ Verify verification world (Some (verify_request the_host [] resp)) = (w', Status200 3%nat)
    /\ aw_pool w' !! the_host = Some cfg
    /\ Start (aw_files w') answers (new_config the_host (B "podman")) = (cfg, None).
Proof.
  assert (Hc : exists resp, Create creation ∅ (aw_key world) (Some the_request) = Status200 resp) by (eexists; reflexivity).
  destruct Hc as [resp Hc].
  assert (Hn : good_nonces (ce_ca_nonces creation)) by (split; reflexivity).
  destruct (agent_enrolment creation ∅ the_request resp verification world the_host [] Hc Hn Hn) as (ca & srv & client & Hna & H).
  destruct (Verify verification world _) as [w' out] eqn:Ev. destruct H as (_ & Hall & H200 & _).
  destruct (demo_starts _ _ _ Hna) as [cfg Hs].
  assert (Hz : exists zip, ZipCert (Cert ca) (Cert client) (Key client) = Ok zip) by (eexists; reflexivity).
  destruct Hz as [zip Hz].
  assert (out = Status200 3%nat) as -> by
    (apply (Hall 3%nat); split; [eexists; reflexivity|]; split; [intros Hin; inversion Hin|];
     split; [exists cfg; split; [exact Hs|reflexivity]|]; split; [reflexivity|]; split; [exists zip; exact Hz|reflexivity]).
  destruct (H200 3%nat eq_refl) as (cfg' & _ & Hp & _ & Hst).
  exists resp, ca, srv, client, w', cfg'. split; [exact Hc|]. split; [exact Hna|]. split; [exact Ev|]. split; [exact Hp|apply Hst].
Defined.

(** A server pair that [Load] refuses and [main] uses. *)
Example junk_accepted :
  (Load no_pair (B "Zw==;Zw==!")).2 = Some ErrBase64 /\ (Load no_pair (B "Zw==;Zw==!")).1 = (Load no_pair (B "Zw==;Zw==")).1.
Proof. split; reflexivity. Qed.

End AgentDemo.
