(* ===== verification/AgentProxy.v ===== *)
(** * Requests through agents, TLS options and health checks of agents

    Models agent/pkg/agentproxy/config.go (the configuration of a request in its
    headers, in the current and in the deprecated form),
    internal/route/types/http_config.go (the TLS options of a route), the part of
    internal/route/reverse_proxy.go that chooses the transport and the headers,
    agent/pkg/handler/proxy_http.go and check_health.go, and [DoHealthCheck] of
    agent/pkg/agent/http_requests.go.

    Reading and writing JSON is a class with the round trip as a law. *)

From S2P Require Import Prelude GoStrings RulesHTTP Monitor Base64 Agent.

(** ** TLS options *)

Record HTTPConfig := {
  hc_NoTLSVerify : bool;
  hc_ResponseHeaderTimeout : Z;
  hc_DisableCompression : bool;
  hc_SSLServerName : option bytes;
  hc_SSLTrustedCertificate : bytes;
  hc_SSLCertificate : bytes;
  hc_SSLCertificateKey : bytes;
  hc_SSLProtocols : list bytes
}.

Definition zero_HTTPConfig : HTTPConfig :=
  {| hc_NoTLSVerify := false; hc_ResponseHeaderTimeout := 0; hc_DisableCompression := false; hc_SSLServerName := None;
     hc_SSLTrustedCertificate := []; hc_SSLCertificate := []; hc_SSLCertificateKey := []; hc_SSLProtocols := [] |}.

(** [tls.Config]; a version of 0 leaves the choice to the library. *)
Record TLSConfig := {
  tc_InsecureSkipVerify : bool;
  tc_ServerName : bytes;
  tc_RootCAs : option bytes;
  tc_Certificate : option (bytes * bytes);
  tc_MinVersion : Z;
  tc_MaxVersion : Z
}.

Inductive tls_error :=
  | ErrReadTrusted (path : bytes) | ErrParseTrusted (path : bytes) | ErrKeyRequired
  | ErrLoadClientCert (path : bytes) | ErrUnsupportedProtocol (protocol : bytes).

Definition VersionTLS10 : Z := 0x0301.
Definition VersionTLS11 : Z := 0x0302.
Definition VersionTLS12 : Z := 0x0303.
Definition VersionTLS13 : Z := 0x0304.

(** [URL.Hostname] of the host of a URL. *)
Definition validOptionalPort (port : bytes) : bool :=
  match port with [] => true | c :: ds => Ascii.eqb c ":" && forallb is_digit ds end.

Definition Hostname (host : bytes) : bytes :=
  let host :=
    match LastIndexByte host ":"%char with
    | Some colon => if validOptionalPort (drop colon host) then take colon host else host
    | None => host
    end in
  if HasPrefix host (B "[") && HasSuffix host (B "]") then take (length host - 2) (drop 1 host) else host.

Section TLS.

(** The lower case of runes that are not ASCII, reading files, whether they
    hold certificates, and [tls.LoadX509KeyPair]. *)
Context (unicode_lower : Z -> Z) (ReadFile : bytes -> option bytes) (parses : bytes -> bool) (LoadX509KeyPair : bytes -> bytes -> bool).

Definition protocol_version (protocol : bytes) : option Z :=
  let p := ToLowerWith unicode_lower protocol in
  if bool_decide (p = B "tlsv1.0") then Some VersionTLS10
  else if bool_decide (p = B "tlsv1.1") then Some VersionTLS11
  else if bool_decide (p = B "tlsv1.2") then Some VersionTLS12
  else if bool_decide (p = B "tlsv1.3") then Some VersionTLS13
  else None.

Definition protocol_step (acc : Z * Z) (protocol : bytes) : result tls_error (Z * Z) :=
  let '(minVersion, maxVersion) := acc in
  match protocol_version protocol with
  | None => Err (ErrUnsupportedProtocol protocol)
  | Some version =>
      Ok (if (minVersion =? 0) || (version <? minVersion) then version else minVersion,
          if (maxVersion =? 0) || (maxVersion <? version) then version else maxVersion)
  end.

Definition tls_serverName (cfg : HTTPConfig) (host : bytes) : bytes :=
  match hc_SSLServerName cfg with
  | Some name =>
      if bool_decide (name = B "off") then []
      else if bool_decide (name = B "on") || bool_decide (name = []) then Hostname host
      else name
  | None => Hostname host
  end.

Definition tls_roots (cfg : HTTPConfig) : result tls_error (option bytes) :=
  match hc_SSLTrustedCertificate cfg with
  | [] => Ok None
  | path =>
      match ReadFile path with
      | None => Err (ErrReadTrusted path)
      | Some data => if parses data then Ok (Some data) else Err (ErrParseTrusted path)
      end
  end.

Definition tls_client (cfg : HTTPConfig) : result tls_error (option (bytes * bytes)) :=
  match hc_SSLCertificate cfg with
  | [] => Ok None
  | crt =>
      if bool_decide (hc_SSLCertificateKey cfg = []) then Err ErrKeyRequired
      else if LoadX509KeyPair crt (hc_SSLCertificateKey cfg) then Ok (Some (crt, hc_SSLCertificateKey cfg))
      else Err (ErrLoadClientCert crt)
  end.

Definition BuildTLSConfig (cfg : HTTPConfig) (targetHost : bytes) : result tls_error TLSConfig :=
  roots ← tls_roots cfg;
  client ← tls_client cfg;
  versions ← foldM protocol_step (0, 0) (hc_SSLProtocols cfg);
  Ok {| tc_InsecureSkipVerify := hc_NoTLSVerify cfg; tc_ServerName := tls_serverName cfg targetHost;
        tc_RootCAs := roots; tc_Certificate := client; tc_MinVersion := versions.1; tc_MaxVersion := versions.2 |}.

(** The name that [http.Transport] sends: the one of the configuration, or of
    the host it connects to if that is empty. *)
Definition sent_server_name (c : TLSConfig) (host : bytes) : bytes :=
  match tc_ServerName c with [] => Hostname host | name => name end.

(** The versions a connection may use. *)
Definition allows (c : TLSConfig) (v : Z) : bool :=
  ((tc_MinVersion c =? 0) || (tc_MinVersion c <=? v)) && ((tc_MaxVersion c =? 0) || (v <=? tc_MaxVersion c)).

(** ** Lemmas: TLS options *)

Lemma protocol_version_range p v : protocol_version p = Some v -> VersionTLS10 <= v <= VersionTLS13.
Proof. unfold protocol_version. repeat case_match; intros [= <-]; unfold VersionTLS10, VersionTLS11, VersionTLS12, VersionTLS13; lia. Qed.

(** The fold keeps the least and the greatest version listed. *)
Lemma versions_fold ps acc r :
  (acc = (0, 0) \/ 0 < acc.1 <= acc.2) -> foldM protocol_step acc ps = Ok r ->
  (ps = [] /\ r = acc)
  \/ (0 < r.1 <= r.2
      /\ (forall p, p ∈ ps -> exists v, protocol_version p = Some v /\ r.1 <= v <= r.2)
      /\ (acc = (0, 0) \/ (r.1 <= acc.1 /\ acc.2 <= r.2))
      /\ (r.1 = acc.1 \/ exists p, p ∈ ps /\ protocol_version p = Some r.1)
      /\ (r.2 = acc.2 \/ exists p, p ∈ ps /\ protocol_version p = Some r.2)).
Proof.
  revert acc. induction ps as [|p ps IH]; intros acc Hacc Hf; [left; split; [done|]; simpl in Hf; congruence|].
  right. simpl in Hf. destruct acc as [mn mx]. cbn [protocol_step] in Hf.
  destruct (protocol_version p) as [v|] eqn:Ev; [|discriminate]. pose proof (protocol_version_range _ _ Ev) as Hv.
  unfold VersionTLS10, VersionTLS13 in Hv.
  set (mn' := if _ || (v <? mn) then v else mn) in Hf. set (mx' := if _ || (mx <? v) then v else mx) in Hf.
  assert (Hm : (mn' = v /\ (mn = 0 \/ v < mn) \/ mn' = mn /\ mn <= v /\ mn <> 0)
               /\ (mx' = v /\ (mx = 0 \/ mx < v) \/ mx' = mx /\ v <= mx /\ mx <> 0)).
  { unfold mn', mx'. split; [destruct (Z.eqb_spec mn 0), (Z.ltb_spec v mn)|destruct (Z.eqb_spec mx 0), (Z.ltb_spec mx v)]; simpl; lia. }
  clearbody mn' mx'.
  assert (Hr : 0 < mn' <= mx' /\ mn' <= v <= mx' /\ ((mn, mx) = (0, 0) \/ mn' <= mn /\ mx <= mx')).
  { destruct Hacc as [[= -> ->]|Hacc]; [repeat split; auto; lia|]. simpl in Hacc. split; [|split; [|right]]; lia. }
  destruct Hr as (Hr1 & Hr2 & Hr3).
  destruct (IH (mn', mx') (or_intror Hr1) Hf) as [[-> ->]|(H1 & H2 & H3 & H4 & H5)]; simpl in *.
  - split; [lia|]. split; [intros q Hq; apply list_elem_of_singleton in Hq as ->; exists v; auto|].
    split; [done|]. split; [destruct Hm as [[[-> _]|[-> _]] _]|destruct Hm as [_ [[-> _]|[-> _]]]]; auto;
      right; exists p; (split; [by left|done]).
  - destruct H3 as [H3|H3]; [exfalso; injection H3; lia|].
    split; [done|]. split; [intros q [->|Hq]%elem_of_cons; [exists v; split; [done|lia]|auto]|].
    split; [destruct Hr3 as [|]; [by left|right; lia]|]. split.
    + destruct H4 as [->|(q & Hq & Hp)]; [|right; exists q; split; [by right|done]].
      destruct Hm as [[[-> _]|[-> _]] _]; auto. right; exists p; split; [by left|done].
    + destruct H5 as [->|(q & Hq & Hp)]; [|right; exists q; split; [by right|done]].
      destruct Hm as [_ [[-> _]|[-> _]]]; auto. right; exists p; split; [by left|done].
Qed.

(** An accepted list of protocols allows each of them; every version between
    the least and the greatest is allowed as well. *)
Theorem protocols_allowed cfg host c :
  BuildTLSConfig cfg host = Ok c -> hc_SSLProtocols cfg <> [] ->
  (forall p, p ∈ hc_SSLProtocols cfg -> exists v, protocol_version p = Some v /\ allows c v = true)
  /\ (forall v, allows c v = true <->
        exists p q a b, p ∈ hc_SSLProtocols cfg /\ q ∈ hc_SSLProtocols cfg
          /\ protocol_version p = Some a /\ protocol_version q = Some b /\ a <= v <= b).
Proof.
  unfold BuildTLSConfig. destruct (tls_roots cfg) as [roots| |]; try discriminate. cbn [mbind result_bind].
  destruct (tls_client cfg) as [cl| |]; try discriminate. cbn [mbind result_bind].
  destruct (foldM protocol_step _ _) as [r| |] eqn:Ef; try discriminate. cbn [mbind result_bind]. intros [= <-] Hne.
  destruct (versions_fold _ _ _ (or_introl eq_refl) Ef) as [[He _]|(H1 & H2 & _ & H4 & H5)]; [done|].
  assert (Hal : forall v, allows {| tc_InsecureSkipVerify := hc_NoTLSVerify cfg; tc_ServerName := tls_serverName cfg host;
      tc_RootCAs := roots; tc_Certificate := cl; tc_MinVersion := r.1; tc_MaxVersion := r.2 |} v = true <-> r.1 <= v <= r.2).
  { intros v. unfold allows. cbn [tc_MinVersion tc_MaxVersion].
    rewrite andb_true_iff, !orb_true_iff, !Z.eqb_eq, !Z.leb_le. lia. }
  split; [intros p Hp; destruct (H2 p Hp) as (v & Hv & Hr); exists v; by rewrite Hal|].
  intros v. rewrite Hal. simpl in *. split.
  - intros Hv. destruct H4 as [?|(p & Hp & Ha)]; [lia|]. destruct H5 as [?|(q & Hq & Hb)]; [lia|].
    exists p, q, r.1, r.2. auto.
  - intros (p & q & a & b & Hp & Hq & Ha & Hb & Hv).
    destruct (H2 p Hp) as (a' & Ha' & ?), (H2 q Hq) as (b' & Hb' & ?). simplify_eq. lia.
Qed.

(** Switching the server name off does not: the transport fills it in. *)
Lemma sni_off_ignored cfg host c :
  hc_SSLServerName cfg = Some (B "off") -> BuildTLSConfig cfg host = Ok c ->
  tc_ServerName c = [] /\ sent_server_name c host = Hostname host.
Proof.
  intros Hs. unfold BuildTLSConfig. destruct (tls_roots cfg); try discriminate. destruct (tls_client cfg); try discriminate.
  cbn [mbind result_bind]. destruct (foldM _ _ _); try discriminate. intros [= <-].
  unfold sent_server_name, tls_serverName. cbn [tc_ServerName]. by rewrite Hs, bool_decide_eq_true_2.
Qed.

End TLS.

(** ** The configuration of a request in its headers *)

Record proxy_Config := { pc_Scheme : bytes; pc_Host : bytes; pc_HTTPConfig : HTTPConfig }.

Definition HeaderXProxyScheme : bytes := B "X-Proxy-Scheme".
Definition HeaderXProxyHost : bytes := B "X-Proxy-Host".
Definition HeaderXProxyConfig : bytes := B "X-Proxy-Config".
Definition HeaderXProxyHTTPS : bytes := B "X-Proxy-Https".
Definition HeaderXProxySkipTLSVerify : bytes := B "X-Proxy-Skip-Tls-Verify".
Definition HeaderXProxyResponseHeaderTimeout : bytes := B "X-Proxy-Response-Header-Timeout".

(** JSON of the options.  [Unmarshal] assigns to a configuration, whose scheme
    and host have JSON names too; the flag is false for an error. *)
Class ProxyJSON := {
  Marshal (c : HTTPConfig) : bytes;
  Unmarshal (json : bytes) (c : proxy_Config) : proxy_Config * bool
}.

Class ProxyJSONLaws `{ProxyJSON} := {
  Unmarshal_Marshal h scheme host :
    Unmarshal (Marshal h) {| pc_Scheme := scheme; pc_Host := host; pc_HTTPConfig := zero_HTTPConfig |}
      = ({| pc_Scheme := scheme; pc_Host := host; pc_HTTPConfig := h |}, true);
  Unmarshal_empty c : Unmarshal [] c = (c, false)
}.

Definition FormatBool (b : bool) : bytes := if b then B "true" else B "false".

(** [strconv.ParseBool] where its error is dropped. *)
Definition ParseBool (s : bytes) : bool := bool_decide (s ∈ [B "1"; B "t"; B "T"; B "true"; B "TRUE"; B "True"]).

Definition MaxDuration : Z := 2 ^ 63 - 1.
Definition MinDuration : Z := - 2 ^ 63.

(** [d.Round(time.Second)]: to the nearest second, halves away from zero,
    saturating. *)
Definition Round_Second (d : Z) : Z :=
  let r := Z.rem d Second in
  if d <? 0 then
    let r := - r in
    if r + r <? Second then d + r
    else let d1 := d - Second + r in if MinDuration <=? d1 then d1 else MinDuration
  else if r + r <? Second then d - r
  else let d1 := d + Second - r in if d1 <=? MaxDuration then d1 else MaxDuration.

(** [int(d.Seconds())] *)
Definition int_Seconds (d : Z) : Z := Z.quot d Second.

Section Headers.
Context `{ProxyJSON}.

Definition SetAgentProxyConfigHeaders (cfg : proxy_Config) (h : Values) : Values :=
  let h := hset h HeaderXProxyHost (pc_Host cfg) in
  let h := hset h HeaderXProxyScheme (pc_Scheme cfg) in
  hset h HeaderXProxyConfig (EncodeToString (Marshal (pc_HTTPConfig cfg))).

Definition SetAgentProxyConfigHeadersLegacy (cfg : proxy_Config) (h : Values) : Values :=
  let h := hset h HeaderXProxyHost (pc_Host cfg) in
  let h := hset h HeaderXProxyHTTPS (FormatBool (bool_decide (pc_Scheme cfg = B "https"))) in
  let h := hset h HeaderXProxySkipTLSVerify (FormatBool (hc_NoTLSVerify (pc_HTTPConfig cfg))) in
  hset h HeaderXProxyResponseHeaderTimeout (Itoa (int_Seconds (Round_Second (hc_ResponseHeaderTimeout (pc_HTTPConfig cfg))))).

Definition legacy_HTTPConfig (noTLSVerify : bool) (timeout : Z) : HTTPConfig :=
  {| hc_NoTLSVerify := noTLSVerify; hc_ResponseHeaderTimeout := timeout; hc_DisableCompression := false; hc_SSLServerName := None;
     hc_SSLTrustedCertificate := []; hc_SSLCertificate := []; hc_SSLCertificateKey := []; hc_SSLProtocols := [] |}.

Definition proxyConfigFromHeadersLegacy (h : Values) : proxy_Config :=
  let responseHeaderTimeout := match Atoi (hget h HeaderXProxyResponseHeaderTimeout) with Some n => n | None => 0 end in
  {| pc_Scheme := if ParseBool (hget h HeaderXProxyHTTPS) then B "https" else B "http";
     pc_Host := hget h HeaderXProxyHost;
     pc_HTTPConfig := legacy_HTTPConfig (ParseBool (hget h HeaderXProxySkipTLSVerify)) (wrap64 (responseHeaderTimeout * Second)) |}.

Definition proxyConfigFromHeaders (h : Values) : proxy_Config * bool :=
  let cfg := {| pc_Scheme := hget h HeaderXProxyScheme; pc_Host := hget h HeaderXProxyHost; pc_HTTPConfig := zero_HTTPConfig |} in
  let '(cfgJSON, ok) := DecodeString (hget h HeaderXProxyConfig) in
  if negb ok then (cfg, false) else Unmarshal cfgJSON cfg.

(** [ConfigFromHeaders]; its error is always nil. *)
Definition ConfigFromHeaders (h : Values) : proxy_Config :=
  let '(cfg, ok) := proxyConfigFromHeaders h in
  if bool_decide (pc_Host cfg = []) || negb ok then proxyConfigFromHeadersLegacy h else cfg.

(** [NewReverseProxyRoute]: the headers that the handler of a route sets before
    it forwards a request to the agent; [older]: the version of the agent is
    older than 0.18.6. *)
Definition setHeaderFunc (older : bool) (cfg : proxy_Config) : Values -> Values :=
  if negb older then SetAgentProxyConfigHeadersLegacy cfg else SetAgentProxyConfigHeaders cfg.

(** ** Lemmas: headers *)

Lemma hget_hset_eq h k v : hget (hset h k v) k = v.
Proof. unfold hget, hset. by rewrite lookup_insert_eq. Qed.

Lemma hget_hset_ne h k k' v : k <> k' -> hget (hset h k v) k' = hget h k'.
Proof. intros. unfold hget, hset. by rewrite lookup_insert_ne. Qed.

(** Rewriting the lookups of headers that were just set. *)
Ltac header_lookup := repeat first [rewrite hget_hset_eq | rewrite hget_hset_ne by discriminate].

Lemma ParseBool_FormatBool b : ParseBool (FormatBool b) = b.
Proof. by destruct b. Qed.

Lemma Round_Second_seconds d : MinDuration <= d <= MaxDuration ->
  let n := int_Seconds (Round_Second d) in MinInt64 <= n <= MaxInt64 /\ MinDuration <= n * Second <= MaxDuration
    /\ Z.abs (n * Second - d) <= Second.
Proof.
  intros Hd. unfold int_Seconds, Round_Second, MinDuration, MaxDuration, MinInt64, MaxInt64 in *.
  change (2 ^ 63) with 9223372036854775808 in *. change Second with 1000000000. cbv zeta.
  pose proof (Z.quot_rem d 1000000000 ltac:(lia)) as Hq.
  assert (Hs : (d < 0 -> -1000000000 < Z.rem d 1000000000 <= 0) /\ (0 <= d -> 0 <= Z.rem d 1000000000 < 1000000000)) by (split; intros; dlia).
  set (q := Z.quot d 1000000000) in *. set (r := Z.rem d 1000000000) in *. clearbody q r.
  assert (Hm : forall k x, x = k * 1000000000 -> Z.quot x 1000000000 = k) by (intros k x ->; apply Z.quot_mul; lia).
  destruct (Z.ltb_spec d 0).
  - destruct (Z.ltb_spec (- r + - r) 1000000000); [rewrite (Hm q) by lia; lia|].
    destruct (Z.leb_spec (- (9223372036854775808)) (d - 1000000000 + - r)); [rewrite (Hm (q - 1)) by lia; lia|].
    change (Z.quot (- (9223372036854775808)) 1000000000) with (-9223372036). lia.
  - destruct (Z.ltb_spec (r + r) 1000000000); [rewrite (Hm q) by lia; lia|].
    destruct (Z.leb_spec (d + 1000000000 - r) (9223372036854775808 - 1)); [rewrite (Hm (q + 1)) by lia; lia|].
    change (Z.quot (9223372036854775808 - 1) 1000000000) with 9223372036. lia.
Qed.

Lemma wrap64_id z : MinDuration <= z <= MaxDuration -> wrap64 z = z.
Proof.
  unfold wrap64, MinDuration, MaxDuration. intros Hz. rewrite Z.mod_small by lia. lia.
Qed.

(** What is left of a configuration after the deprecated headers. *)
Definition legacy_view (cfg : proxy_Config) : proxy_Config :=
  {| pc_Scheme := if bool_decide (pc_Scheme cfg = B "https") then B "https" else B "http";
     pc_Host := pc_Host cfg;
     pc_HTTPConfig := legacy_HTTPConfig (hc_NoTLSVerify (pc_HTTPConfig cfg))
       (int_Seconds (Round_Second (hc_ResponseHeaderTimeout (pc_HTTPConfig cfg))) * Second) |}.

(** The headers that the parser reads. *)
Definition proxy_headers : list bytes :=
  [HeaderXProxyScheme; HeaderXProxyHost; HeaderXProxyConfig; HeaderXProxyHTTPS; HeaderXProxySkipTLSVerify;
   HeaderXProxyResponseHeaderTimeout].

(** What the agent receives when the given headers of the request arrive as they
    were sent.  The reverse proxy in between is not part of this repository; the
    ones in use drop the headers that the client names in Connection. *)
Definition arrive (ks : list bytes) (sent received : Values) : Prop := forall k, k ∈ ks -> hget received k = hget sent k.

Lemma arrive_host sent received : arrive proxy_headers sent received ->
  hget received HeaderXProxyScheme = hget sent HeaderXProxyScheme /\ hget received HeaderXProxyHost = hget sent HeaderXProxyHost
  /\ hget received HeaderXProxyConfig = hget sent HeaderXProxyConfig /\ hget received HeaderXProxyHTTPS = hget sent HeaderXProxyHTTPS
  /\ hget received HeaderXProxySkipTLSVerify = hget sent HeaderXProxySkipTLSVerify
  /\ hget received HeaderXProxyResponseHeaderTimeout = hget sent HeaderXProxyResponseHeaderTimeout.
Proof. intros Ha. unfold arrive, proxy_headers in Ha. split_and!; apply Ha; set_solver. Qed.

(** The parser reads nothing else. *)
Lemma config_of_arrived sent received : arrive proxy_headers sent received -> ConfigFromHeaders received = ConfigFromHeaders sent.
Proof.
  intros (E1 & E2 & E3 & E4 & E5 & E6)%arrive_host.
  unfold ConfigFromHeaders, proxyConfigFromHeaders, proxyConfigFromHeadersLegacy. by rewrite E1, E2, E3, E4, E5, E6.
Qed.

Lemma legacy_of_headers cfg h :
  MinDuration <= hc_ResponseHeaderTimeout (pc_HTTPConfig cfg) <= MaxDuration ->
  proxyConfigFromHeadersLegacy (SetAgentProxyConfigHeadersLegacy cfg h) = legacy_view cfg.
Proof.
  intros Ht. unfold proxyConfigFromHeadersLegacy, SetAgentProxyConfigHeadersLegacy. header_lookup.
  destruct (Round_Second_seconds _ Ht) as (Hn & Hr & _). rewrite Atoi_Itoa, !ParseBool_FormatBool, wrap64_id by done. done.
Qed.

Lemma current_of_headers `{!ProxyJSONLaws} cfg h :
  pc_Host cfg <> [] -> ConfigFromHeaders (SetAgentProxyConfigHeaders cfg h) = cfg.
Proof.
  intros Hh. unfold ConfigFromHeaders, proxyConfigFromHeaders, SetAgentProxyConfigHeaders. header_lookup.
  rewrite DecodeString_encode. cbn [negb]. rewrite Unmarshal_Marshal. cbn [pc_Host negb].
  rewrite bool_decide_eq_false_2 by done. by destruct cfg.
Qed.

(** An empty configuration is no JSON: the deprecated headers decide. *)
Lemma config_missing `{!ProxyJSONLaws} received :
  hget received HeaderXProxyConfig = [] -> ConfigFromHeaders received = proxyConfigFromHeadersLegacy received.
Proof.
  intros Hc. unfold ConfigFromHeaders, proxyConfigFromHeaders. rewrite Hc.
  change (DecodeString []) with (@nil ascii, true). cbn [negb]. by rewrite Unmarshal_empty, orb_true_r.
Qed.

(** C38: the two header formats of [agentproxy], for a configuration with a host
    and a representable timeout, JSON being read back, and whatever headers the
    client sent, as far as the X-Proxy headers reach the agent as they were set
    (the reverse proxy in between drops those a client names in Connection): in
    the current format the agent reads the configuration that was set. In the
    deprecated format it reads, if the client sent no X-Proxy-Config, the same
    host, https or else http, the same choice on verifying certificates, the
    timeout in whole seconds, off by a second at most, and defaults for
    everything else; if the client sent one that decodes to a configuration with
    a host, that one instead. If the configuration does not arrive, the agent
    falls back to the deprecated headers as they do. *)
Theorem agent_proxy_config `{!ProxyJSONLaws} cfg h received :
  pc_Host cfg <> [] -> MinDuration <= hc_ResponseHeaderTimeout (pc_HTTPConfig cfg) <= MaxDuration ->
  (arrive proxy_headers (SetAgentProxyConfigHeaders cfg h) received -> ConfigFromHeaders received = cfg)
  /\ (arrive proxy_headers (SetAgentProxyConfigHeadersLegacy cfg h) received -> hget h HeaderXProxyConfig = [] ->
        ConfigFromHeaders received = legacy_view cfg
        /\ Z.abs (hc_ResponseHeaderTimeout (pc_HTTPConfig (legacy_view cfg)) - hc_ResponseHeaderTimeout (pc_HTTPConfig cfg)) <= Second)
  /\ (arrive proxy_headers (SetAgentProxyConfigHeadersLegacy cfg h) received ->
        forall json evil, hget h HeaderXProxyConfig = EncodeToString json -> pc_Host evil <> [] ->
        Unmarshal json {| pc_Scheme := hget h HeaderXProxyScheme; pc_Host := pc_Host cfg; pc_HTTPConfig := zero_HTTPConfig |} = (evil, true) ->
        ConfigFromHeaders received = evil)
  /\ (hget received HeaderXProxyConfig = [] -> ConfigFromHeaders received = proxyConfigFromHeadersLegacy received).
Proof.
  intros Hh Ht. split; [|split; [|split]].
  - intros Ha. rewrite (config_of_arrived _ _ Ha). by apply current_of_headers.
  - intros Ha Hc. destruct (Round_Second_seconds _ Ht) as (_ & _ & Hs). split; [|exact Hs].
    rewrite (config_of_arrived _ _ Ha), config_missing; [by apply legacy_of_headers|].
    unfold SetAgentProxyConfigHeadersLegacy. by header_lookup.
  - intros Ha json evil Hj Hev Hu. rewrite (config_of_arrived _ _ Ha). unfold ConfigFromHeaders, proxyConfigFromHeaders.
    replace (hget (SetAgentProxyConfigHeadersLegacy cfg h) HeaderXProxyConfig) with (hget h HeaderXProxyConfig)
      by (unfold SetAgentProxyConfigHeadersLegacy; by header_lookup).
    replace (hget (SetAgentProxyConfigHeadersLegacy cfg h) HeaderXProxyScheme) with (hget h HeaderXProxyScheme)
      by (unfold SetAgentProxyConfigHeadersLegacy; by header_lookup).
    replace (hget (SetAgentProxyConfigHeadersLegacy cfg h) HeaderXProxyHost) with (pc_Host cfg)
      by (unfold SetAgentProxyConfigHeadersLegacy; by header_lookup).
    rewrite Hj, DecodeString_encode. cbn [negb]. rewrite Hu. by rewrite bool_decide_eq_false_2.
  - apply config_missing.
Qed.

End Headers.

(** ** Forwarding a request on the agent *)

(** What the reverse proxy of [ProxyHTTP] is set up with. *)
Record proxied := {
  px_Scheme : bytes;
  px_Host : bytes;
  px_Path : bytes;
  px_ResponseHeaderTimeout : Z;
  px_DisableCompression : bool;
  px_TLS : TLSConfig
}.

(** The only error left is the one of the TLS options, a 500; [urlHost] and
    [path] are those of the request, whose path the router matched. *)
Definition ProxyHTTP `{ProxyJSON} (unicode_lower : Z -> Z) (ReadFile : bytes -> option bytes) (parses : bytes -> bool)
    (LoadX509KeyPair : bytes -> bytes -> bool) (h : Values) (urlHost path : bytes) : result tls_error proxied :=
  let cfg := ConfigFromHeaders h in
  let http := pc_HTTPConfig cfg in
  tls ← BuildTLSConfig unicode_lower ReadFile parses LoadX509KeyPair http urlHost;
  if (length path <? HTTPProxyURLPrefixLen)%nat then Panic SliceOutOfBounds
  else Ok {| px_Scheme := pc_Scheme cfg; px_Host := pc_Host cfg; px_Path := drop HTTPProxyURLPrefixLen path;
             px_ResponseHeaderTimeout := if 0 <? hc_ResponseHeaderTimeout http then hc_ResponseHeaderTimeout http else 60 * Second;
             px_DisableCompression := hc_DisableCompression http; px_TLS := tls |}.

(** A request whose current headers arrive as they were set is forwarded to the
    target of the route, with its options and with the path behind the prefix. *)
Theorem forwarded_exactly `{ProxyJSONLaws} u rf ps lk cfg h received urlHost path tls :
  pc_Host cfg <> [] -> arrive proxy_headers (SetAgentProxyConfigHeaders cfg h) received -> BuildTLSConfig u rf ps lk (pc_HTTPConfig cfg) urlHost = Ok tls ->
  exists px, ProxyHTTP u rf ps lk received urlHost (APIEndpointBase ++ EndpointProxyHTTP ++ path) = Ok px
    /\ px_Scheme px = pc_Scheme cfg /\ px_Host px = pc_Host cfg /\ px_Path px = path /\ px_TLS px = tls
    /\ 0 < px_ResponseHeaderTimeout px.
Proof.
  intros Hh Ha Htls.
  unfold ProxyHTTP. rewrite (config_of_arrived _ _ Ha), current_of_headers, Htls by done. cbn [mbind result_bind].
  rewrite app_assoc, length_app. unfold HTTPProxyURLPrefixLen.
  destruct (Nat.ltb_spec (length (APIEndpointBase ++ EndpointProxyHTTP) + length path) (length (APIEndpointBase ++ EndpointProxyHTTP))); [lia|].
  eexists. split; [reflexivity|]. cbn [px_Scheme px_Host px_Path px_TLS px_ResponseHeaderTimeout].
  rewrite drop_app_length. repeat split.
  destruct (Z.ltb_spec 0 (hc_ResponseHeaderTimeout (pc_HTTPConfig cfg))); [done|]. unfold Second, Millisecond. lia.
Qed.

(** ** Health checks by the agent *)

(** The answer: the status with the text of [http.Error], or the result. *)
Inductive health_answer := HealthError (status : Z) (msg : bytes) | HealthOK (r : HealthCheckResult).

(** What the probes yield on the agent's host: the error of [os.Stat], and the
    checks over HTTP and over raw sockets. *)
Record probes := {
  pb_stat : bytes -> option bytes;
  pb_http : bytes -> bytes -> bytes -> check_result;
  pb_raw : bytes -> bytes -> check_result
}.

Definition zero_health : HealthCheckResult := {| Healthy := false; Detail := []; Latency := 0 |}.

Definition answer_of (r : check_result) : health_answer :=
  match r with inl r => HealthOK r | inr err => HealthError 502 err end.

(** [CheckHealth]; [query] is [Query().Get]. *)
Definition agent_CheckHealth (pb : probes) (query : bytes -> bytes) : health_answer :=
  let scheme := query (B "scheme") in
  let host := query (B "host") in
  if bool_decide (scheme = []) then HealthError 400 (B "missing scheme")
  else if bool_decide (scheme = B "fileserver") then
    let path := query (B "path") in
    if bool_decide (path = []) then HealthError 400 (B "missing path")
    else match pb_stat pb path with
         | None => HealthOK {| Healthy := true; Detail := []; Latency := 0 |}
         | Some err => HealthOK {| Healthy := false; Detail := err; Latency := 0 |}
         end
  else if bool_decide (scheme = B "http") || bool_decide (scheme = B "https") then
    if bool_decide (host = []) then HealthError 400 (B "missing host")
    else answer_of (pb_http pb scheme host (query (B "path")))
  else if bool_decide (scheme = B "tcp") || bool_decide (scheme = B "udp") then
    if bool_decide (host = []) then HealthError 400 (B "missing host")
    else
      let hasPort := bool_decide (":"%char ∈ host) in
      let port := query (B "port") in
      if bool_decide (port <> []) && hasPort then HealthError 400 (B "port and host with port cannot both be provided")
      else
        let host := if bool_decide (port <> []) then host ++ ":"%char :: port else host in
        answer_of (pb_raw pb scheme host)
  else HealthOK zero_health.

Definition newline : ascii := ascii_of_nat 10.

(** [DoHealthCheck]: the result and the error.  [transport]: the error of the
    request.  The latency of a result is the one the agent measured. *)
Definition DoHealthCheck (transport : option bytes) (answer : health_answer) (elapsed : Z) : HealthCheckResult * option bytes :=
  match transport with
  | Some err => ({| Healthy := false; Detail := []; Latency := elapsed |}, Some err)
  | None =>
      match answer with
      | HealthError status msg =>
          ({| Healthy := false; Detail := B "HTTP " ++ Itoa status ++ " "%char :: (msg ++ [newline]); Latency := elapsed |}, None)
      | HealthOK r => (r, None)
      end
  end.

(** [buildQuery] of the target of a monitor, as the handler reads it. *)
Definition buildQuery (scheme host path : bytes) (k : bytes) : bytes :=
  if bool_decide (k = B "scheme") then scheme
  else if bool_decide (k = B "host") then host
  else if bool_decide (k = B "path") then path else [].

(** The check of a monitor through an agent. *)
Definition monitor_through_agent (pb : probes) (transport : option bytes) (elapsed : Z) (scheme host path : bytes) : check_result :=
  let '(resp, err) := DoHealthCheck transport (agent_CheckHealth pb (buildQuery scheme host path)) elapsed in
  Agent_CheckHealth resp err.

(** An agent that answers reports what its own probe finds.  An error of the
    probe is no error of the monitor: the target counts as unhealthy.  A check
    is never refused for a URL that has a host. *)
Theorem agent_health_faithful pb elapsed scheme host path :
  host <> [] ->
  (scheme = B "http" \/ scheme = B "https" ->
     monitor_through_agent pb None elapsed scheme host path =
       match pb_http pb scheme host path with
       | inl r => inl r
       | inr err => inl {| Healthy := false; Detail := B "HTTP 502 " ++ err ++ [newline]; Latency := elapsed |}
       end)
  /\ (scheme = B "tcp" \/ scheme = B "udp" ->
     monitor_through_agent pb None elapsed scheme host path =
       match pb_raw pb scheme host with
       | inl r => inl r
       | inr err => inl {| Healthy := false; Detail := B "HTTP 502 " ++ err ++ [newline]; Latency := elapsed |}
       end)
  /\ (scheme = B "fileserver" -> path <> [] ->
     monitor_through_agent pb None elapsed scheme host path =
       inl {| Healthy := match pb_stat pb path with None => true | Some _ => false end;
              Detail := default [] (pb_stat pb path); Latency := 0 |})
  /\ (scheme ∉ [[]; B "fileserver"; B "http"; B "https"; B "tcp"; B "udp"] ->
     monitor_through_agent pb None elapsed scheme host path = inl zero_health).
Proof.
  intros Hh. unfold monitor_through_agent, agent_CheckHealth.
  change (buildQuery scheme host path (B "scheme")) with scheme. change (buildQuery scheme host path (B "host")) with host.
  change (buildQuery scheme host path (B "path")) with path. change (buildQuery scheme host path (B "port")) with (@nil ascii).
  assert (Hd : bool_decide (host = []) = false) by (by apply bool_decide_eq_false_2).
  repeat split.
  - intros [->| ->]; cbn -[pb_http]; rewrite Hd; by destruct (pb_http _ _ _ _).
  - intros [->| ->]; cbn -[pb_raw]; rewrite Hd; by destruct (pb_raw _ _ _).
  - intros -> Hp. cbn -[pb_stat]. rewrite (bool_decide_eq_false_2 (path = [])) by done. by destruct (pb_stat pb path).
  - intros Hs. rewrite !not_elem_of_cons in Hs. destruct Hs as (H0 & H1 & H2 & H3 & H4 & H5 & _).
    by rewrite (bool_decide_eq_false_2 _ H0), (bool_decide_eq_false_2 _ H1), (bool_decide_eq_false_2 _ H2),
      (bool_decide_eq_false_2 _ H3), (bool_decide_eq_false_2 _ H4), (bool_decide_eq_false_2 _ H5).
Qed.

(** ** Concrete JSON and examples *)

Module AgentProxyDemo.

#[export] Instance HTTPConfig_eq_dec : EqDecision HTTPConfig.
Proof. solve_decision. Defined.
#[export] Instance HTTPConfig_countable : Countable HTTPConfig.
Proof.
  refine (inj_countable' (fun c => (hc_NoTLSVerify c, hc_ResponseHeaderTimeout c, hc_DisableCompression c, hc_SSLServerName c,
      (hc_SSLTrustedCertificate c, hc_SSLCertificate c, hc_SSLCertificateKey c), hc_SSLProtocols c))
    (fun '(a, b, c, d, (e, f, g), h) => {| hc_NoTLSVerify := a; hc_ResponseHeaderTimeout := b; hc_DisableCompression := c;
       hc_SSLServerName := d; hc_SSLTrustedCertificate := e; hc_SSLCertificate := f; hc_SSLCertificateKey := g; hc_SSLProtocols := h |}) _).
  by intros [].
Defined.

(** Options start with an o; a text that starts with an h names a host. *)
#[export] Instance demo_json : ProxyJSON := {
  Marshal h := "o"%char :: AgentDemo.bits (encode h);
  Unmarshal json c :=
    match json with
    | "o"%char :: s =>
        match decode (AgentDemo.unbits s) with
        | Some h => ({| pc_Scheme := pc_Scheme c; pc_Host := pc_Host c; pc_HTTPConfig := h |}, true)
        | None => (c, false)
        end
    | "h"%char :: s => ({| pc_Scheme := pc_Scheme c; pc_Host := s; pc_HTTPConfig := pc_HTTPConfig c |}, true)
    | _ => (c, false)
    end
}.

#[export] Instance demo_json_laws : ProxyJSONLaws.
Proof.
  constructor; [|done]. intros h scheme host. cbn [Marshal Unmarshal demo_json].
  by rewrite AgentDemo.unbits_bits, decode_encode.
Qed.

Definition options : HTTPConfig :=
  {| hc_NoTLSVerify := true; hc_ResponseHeaderTimeout := 2500 * Millisecond; hc_DisableCompression := true;
     hc_SSLServerName := Some (B "off"); hc_SSLTrustedCertificate := []; hc_SSLCertificate := []; hc_SSLCertificateKey := [];
     hc_SSLProtocols := [B "TLSv1.0"; B "TLSv1.3"] |}.

Definition target : proxy_Config := {| pc_Scheme := B "https"; pc_Host := B "app:443"; pc_HTTPConfig := options |}.

Definition evil_headers : Values := {[ HeaderXProxyConfig := [EncodeToString (B "hinternal:2375")] ]}.

(** The client's header decides where an agent that gets the deprecated headers
    sends the request. *)
Lemma agent_proxy_config_witness :
  ConfigFromHeaders (setHeaderFunc true target evil_headers) = target
  /\ pc_Host (ConfigFromHeaders (setHeaderFunc false target evil_headers)) = B "internal:2375"
  /\ ConfigFromHeaders (setHeaderFunc false target ∅) =
       {| pc_Scheme := B "https"; pc_Host := B "app:443"; pc_HTTPConfig := legacy_HTTPConfig true (3 * Second) |}.
Proof.
  assert (Hh : pc_Host target <> []) by discriminate.
  assert (Ht : MinDuration <= hc_ResponseHeaderTimeout (pc_HTTPConfig target) <= MaxDuration) by (vm_compute; split; discriminate).
  split; [|split].
  - apply (agent_proxy_config target evil_headers (setHeaderFunc true target evil_headers) Hh Ht). by intros k _.
  - destruct (agent_proxy_config target evil_headers (setHeaderFunc false target evil_headers) Hh Ht) as (_ & _ & H3 & _).
    rewrite (H3 ltac:(by intros k _) (B "hinternal:2375") {| pc_Scheme := []; pc_Host := B "internal:2375"; pc_HTTPConfig := zero_HTTPConfig |}); [reflexivity..|discriminate|reflexivity].
  - destruct (agent_proxy_config target ∅ (setHeaderFunc false target ∅) Hh Ht) as (_ & H2 & _).
    destruct (H2 ltac:(by intros k _) eq_refl) as (-> & _). vm_compute. reflexivity.
Defined.

(** Listing the oldest and the newest protocol allows those between. *)
Example unlisted_allowed : exists c, BuildTLSConfig id (fun _ => None) (fun _ => false) (fun _ _ => false) options (B "app:443") = Ok c
  /\ allows c VersionTLS11 = true /\ sent_server_name c (B "app:443") = B "app".
Proof. eexists. split; [reflexivity|split; reflexivity]. Qed.

End AgentProxyDemo.
