(* ===== verification/AgentMetrics.v ===== *)
(** * System information of all agents

    Models internal/api/v1/metrics/all_system_info.go: a websocket on which the
    server and its agents are asked for their system information, round after
    round; the retries of a request to an agent; the goroutine that writes to
    the socket, whose channel is closed when the handler returns. *)

From S2P Require Import Prelude GoStrings Period.

(** ** Asking one agent *)

Definition maxRetries : nat := 3.

(** [max((1<<attempt)*time.Second, 5*time.Second)] *)
Definition retry_delay (attempt : nat) : Z := Z.max (Z.shiftl 1 (Z.of_nat attempt) * Second) (5 * Second).

(** One attempt: whether the context ends during the delay before it, what the
    request yields, and whether the context has ended afterwards. *)
Record attempt_run := { at_delay_done : bool; at_result : bytes + bytes; at_ctx_done : bool }.

Inductive retry_error := ContextDone | RequestFailed (e : bytes).

(** The data or the error, the number of requests, and the time spent in
    delays. *)
Record retry_out := { ro_result : bytes + retry_error; ro_requests : nat; ro_waited : Z }.

Definition out_more (waited : Z) (requests : nat) (o : retry_out) : retry_out :=
  {| ro_result := ro_result o; ro_requests := requests + ro_requests o; ro_waited := waited + ro_waited o |}.

(** [for attempt := range maxRetries]; [fuel] counts the attempts left. *)
Fixpoint retry_loop (fuel attempt : nat) (run : nat -> attempt_run) (lastErr : bytes) : retry_out :=
  match fuel with
  | 0%nat => {| ro_result := inr (RequestFailed lastErr); ro_requests := 0; ro_waited := 0 |}
  | S fuel =>
      let a := run attempt in
      let delay := if (0 <? attempt)%nat then retry_delay attempt else 0 in
      if (0 <? attempt)%nat && at_delay_done a then {| ro_result := inr ContextDone; ro_requests := 0; ro_waited := 0 |}
      else match at_result a with
           | inl data => {| ro_result := inl data; ro_requests := 1; ro_waited := delay |}
           | inr err =>
               if at_ctx_done a then {| ro_result := inr ContextDone; ro_requests := 1; ro_waited := delay |}
               else out_more delay 1 (retry_loop fuel (S attempt) run err)
           end
  end.

Definition getAgentSystemInfoWithRetry (run : nat -> attempt_run) : retry_out := retry_loop maxRetries 0 run [].

(** Attempt [k], counted from [a], is made: those before it fail, and the
    context lasts until then. *)
Definition reaches (run : nat -> attempt_run) (a k : nat) : Prop :=
  (forall i, (a <= i < a + k)%nat -> (exists e, at_result (run i) = inr e) /\ at_ctx_done (run i) = false)
  /\ (forall i, (a <= i <= a + k)%nat -> (0 < i)%nat -> at_delay_done (run i) = false).

Lemma reaches_0 run a : reaches run a 0 <-> ((0 < a)%nat -> at_delay_done (run a) = false).
Proof.
  unfold reaches. split; [intros [_ H]; apply H; lia|]. intros H. split; intros i Hi; [lia|].
  assert (i = a) as -> by lia. exact H.
Qed.

Lemma reaches_S run a k :
  reaches run a (S k) <->
    ((0 < a)%nat -> at_delay_done (run a) = false) /\ (exists e, at_result (run a) = inr e) /\ at_ctx_done (run a) = false
    /\ reaches run (S a) k.
Proof.
  unfold reaches. split.
  - intros [H1 H2]. split; [apply H2; lia|]. destruct (H1 a) as [He Hc]; [lia|]. split; [done|]. split; [done|].
    split; intros i Hi; [apply H1|apply H2]; lia.
  - intros (Hd & He & Hc & H1 & H2). split; intros i Hi; (destruct (decide (i = a)) as [->|Hne]; [auto|]); [apply H1|apply H2]; lia.
Qed.

(** Data is returned exactly if one of the attempts that are made yields it. *)
Lemma retry_loop_data fuel : forall a run err data,
  ro_result (retry_loop fuel a run err) = inl data <->
  exists k, (k < fuel)%nat /\ reaches run a k /\ at_result (run (a + k)%nat) = inl data.
Proof.
  induction fuel as [|fuel IH]; intros a run err data; cbn [retry_loop]; [split; [discriminate|intros (k & ? & _); lia]|].
  assert (Hsplit : (exists k, (k < S fuel)%nat /\ reaches run a k /\ at_result (run (a + k)%nat) = inl data) <->
    (reaches run a 0 /\ at_result (run a) = inl data)
    \/ exists k, (k < fuel)%nat /\ reaches run a (S k) /\ at_result (run (S a + k)%nat) = inl data).
  { split.
    - intros ([|k] & Hk & Hr & Hd); [left; by rewrite Nat.add_0_r in Hd|right; exists k].
      rewrite Nat.add_succ_r in Hd. split; [lia|]. split; [exact Hr|exact Hd].
    - intros [[Hr Hd]|(k & Hk & Hr & Hd)]; [exists 0%nat; rewrite Nat.add_0_r; split; [lia|done]|].
      exists (S k). rewrite Nat.add_succ_r. split; [lia|done]. }
  rewrite Hsplit, reaches_0. setoid_rewrite reaches_S. clear Hsplit.
  destruct (Nat.ltb_spec 0 a), (at_delay_done (run a)) eqn:Ed; cbn [andb ro_result]; try (split; [discriminate|]; naive_solver).
  all: destruct (at_result (run a)) as [d|e] eqn:Er; [cbn [ro_result]; split; [intros [= <-]; left; split; [lia || done|done]|naive_solver]|].
  all: destruct (at_ctx_done (run a)) eqn:Ec; [cbn [ro_result]; naive_solver|].
  all: cbn [out_more ro_result]; rewrite IH; split;
    [intros (k & Hk & Hr & Hd); right; exists k; split; [done|split; [split; [lia || done|split; [eauto|done]]|done]]
    |intros [[_ ?]|(k & Hk & (_ & _ & _ & Hr) & Hd)]; [done|eauto]].
Qed.

(** The delays: five seconds each, as long as there are three attempts. *)
Lemma retry_delay_constant i : (i < 3)%nat -> retry_delay i = 5 * Second.
Proof. intros Hi. destruct i as [|[|[|i]]]; [reflexivity..|lia]. Qed.

Lemma retry_loop_bounds fuel : forall a run err,
  (a + fuel <= 3)%nat ->
  let o := retry_loop fuel a run err in
  (ro_requests o <= fuel)%nat /\ 0 <= ro_waited o <= Z.of_nat (fuel - (if (0 <? a)%nat then 0 else 1)) * (5 * Second).
Proof.
  assert (HS : 0 < 5 * Second) by reflexivity.
  induction fuel as [|fuel IH]; intros a run err Ha; cbn [retry_loop]; [cbn; split; [lia|nia]|].
  rewrite (retry_delay_constant a) by lia. specialize (IH (S a) run). cbv zeta in *.
  replace (0 <? S a)%nat with true in IH by done. rewrite Nat.sub_0_r in IH.
  assert (Hn : Z.of_nat (S fuel) = Z.of_nat fuel + 1) by lia.
  destruct (Nat.ltb_spec 0 a), (at_delay_done (run a)); cbn [andb ro_requests ro_waited];
    rewrite ?Nat.sub_0_r; try (split; [lia|nia]).
  all: destruct (at_result (run a)) as [d|e]; [cbn; split; [lia|nia]|]; destruct (at_ctx_done (run a)); [cbn; split; [lia|nia]|].
  all: destruct (IH e ltac:(lia)) as [H1 H2]; cbn [out_more ro_requests ro_waited]; split; [lia|].
  all: try replace (S fuel - 1)%nat with fuel by lia; nia.
Qed.

(** At most three requests are made and at most ten seconds are spent in delays,
    which do not grow with the attempts; the answer is data exactly if one of
    the attempts that are made yields it. *)
Theorem retry_bounded run :
  let o := getAgentSystemInfoWithRetry run in
  (ro_requests o <= 3)%nat /\ 0 <= ro_waited o <= 10 * Second
  /\ (forall data, ro_result o = inl data <-> exists k, (k < 3)%nat /\ reaches run 0 k /\ at_result (run k) = inl data).
Proof.
  destruct (retry_loop_bounds 3 0 run [] (le_n 3)) as [H1 H2]. split; [exact H1|].
  split; [replace (10 * Second) with (Z.of_nat 2 * (5 * Second)) by reflexivity; exact H2|].
  intros data. apply (retry_loop_data 3 0).
Qed.

(** ** Rounds *)

Record SystemInfoData := { sd_AgentName : bytes; sd_SystemInfo : option bytes }.

Definition zero_data : SystemInfoData := {| sd_AgentName := []; sd_SystemInfo := None |}.

#[export] Instance SystemInfoData_eq_dec : EqDecision SystemInfoData.
Proof. solve_decision. Defined.

(** A round: what the server itself answers, and what each agent of the pool
    does, by name. *)
Record round := { rd_self : bytes + bytes; rd_agents : list (bytes * (bytes + retry_error)) }.

Definition sent_data (r : round) : list SystemInfoData :=
  match rd_self r with inl d => [{| sd_AgentName := B "GoDoxy"; sd_SystemInfo := Some d |}] | inr _ => [] end
  ++ omap (fun '(name, res) => match res with inl d => Some {| sd_AgentName := name; sd_SystemInfo := Some d |} | inr _ => None end) (rd_agents r).

Definition numErrs (r : round) : nat :=
  (match rd_self r with inl _ => 0 | inr _ => 1 end
   + length (List.filter (fun '(_, res) => match res with inl _ => false | inr _ => true end) (rd_agents r)))%nat.

Definition totalAgents (r : round) : nat := S (length (rd_agents r)).

(** [doRound]: the flag that its callers name [shouldContinue], and whether
    there was an error. *)
Definition doRound (r : round) : bool * bool := ((numErrs r =? totalAgents r)%nat, negb (numErrs r =? 0)%nat).

(** The rounds of a connection while it lasts: what is sent, and whether the
    handler ended with an error. *)
Fixpoint rounds_loop (rs : list round) : list SystemInfoData * bool :=
  match rs with
  | [] => ([], false)
  | r :: rs' =>
      let '(shouldContinue, err) := doRound r in
      if err && negb shouldContinue then (sent_data r, true)
      else let '(sent, ended) := rounds_loop rs' in (sent_data r ++ sent, ended)
  end.

Inductive info_outcome := BadQuery | NotWebsocket | UpgradeFailed | Streamed (sent : list SystemInfoData) (ended : bool).

(** [AllSystemInfo]: the query, the header, the upgrade, then the rounds at the
    interval, which is at least the interval of polling. *)
Definition AllSystemInfo (query_ok websocket upgrade_ok : bool) (interval : Z) (rs : list round) : Z * info_outcome :=
  let interval := if interval <? PollInterval then PollInterval else interval in
  (interval,
   if negb query_ok then BadQuery
   else if negb websocket then NotWebsocket
   else if negb upgrade_ok then UpgradeFailed
   else let '(sent, ended) := rounds_loop rs in Streamed sent ended).

Definition succeeds {A E} (res : A + E) : bool := match res with inl _ => true | inr _ => false end.
Definition some_fails (r : round) : bool := negb (succeeds (rd_self r)) || existsb (fun x => negb (succeeds x.2)) (rd_agents r).
Definition some_succeeds (r : round) : bool := succeeds (rd_self r) || existsb (fun x => succeeds x.2) (rd_agents r).

Lemma numErrs_spec r :
  (numErrs r <= totalAgents r)%nat /\ ((numErrs r =? 0)%nat = negb (some_fails r))
  /\ ((numErrs r =? totalAgents r)%nat = negb (some_succeeds r)).
Proof.
  unfold numErrs, totalAgents, some_fails, some_succeeds.
  set (n := length (List.filter _ (rd_agents r))).
  assert (Hn : (n <= length (rd_agents r))%nat
    /\ ((n =? 0)%nat = negb (existsb (fun x => negb (succeeds x.2)) (rd_agents r)))
    /\ ((n =? length (rd_agents r))%nat = negb (existsb (fun x => succeeds x.2) (rd_agents r)))).
  { unfold n. clear n. induction (rd_agents r) as [|[name [d|e]] l (IH1 & IH2 & IH3)]; cbn -[Nat.eqb]; [done|..].
    - repeat split; [lia|done|]. apply Nat.eqb_neq. lia.
    - repeat split; [lia|done]. }
  destruct Hn as (H1 & H2 & H3). destruct (rd_self r) as [d|e]; cbn [succeeds negb orb plus].
  - repeat split; [lia|done|]. apply Nat.eqb_neq. lia.
  - repeat split; [lia|done].
Qed.

(** A round ends the stream exactly if some, but not all of those asked fail:
    when everybody fails it goes on, and one agent that is down takes the others
    with it. *)
Theorem stream_ends_on_partial_failure r rs :
  rounds_loop (r :: rs) =
    if some_fails r && some_succeeds r then (sent_data r, true)
    else (sent_data r ++ (rounds_loop rs).1, (rounds_loop rs).2).
Proof.
  cbn [rounds_loop]. unfold doRound. destruct (numErrs_spec r) as (_ & H1 & H2). rewrite H1, H2, !negb_involutive.
  destruct (some_fails r && some_succeeds r); [done|]. by destruct (rounds_loop rs).
Qed.

(** ** The writing goroutine *)

(** The channel, whether it is closed, whether the connection is, what was
    written and whether the goroutine still runs. *)
Record writer_state := {
  ws_queue : list SystemInfoData;
  ws_closed : bool;
  ws_done : bool;
  ws_written : list SystemInfoData;
  ws_running : bool;
  ws_produced : list SystemInfoData
}.

(** The deferred calls of the handler close the channel before the connection.
    Receiving from a closed channel that is empty yields the zero value. *)
Inductive writer_step : writer_state -> writer_state -> Prop :=
  | w_produce s d : ws_closed s = false ->
      writer_step s {| ws_queue := ws_queue s ++ [d]; ws_closed := false; ws_done := ws_done s; ws_written := ws_written s;
                       ws_running := ws_running s; ws_produced := ws_produced s ++ [d] |}
  | w_close s : ws_closed s = false ->
      writer_step s {| ws_queue := ws_queue s; ws_closed := true; ws_done := ws_done s; ws_written := ws_written s;
                       ws_running := ws_running s; ws_produced := ws_produced s |}
  | w_disconnect s :
      writer_step s {| ws_queue := ws_queue s; ws_closed := ws_closed s; ws_done := true; ws_written := ws_written s;
                       ws_running := ws_running s; ws_produced := ws_produced s |}
  | w_write s d q : ws_running s = true -> ws_queue s = d :: q ->
      writer_step s {| ws_queue := q; ws_closed := ws_closed s; ws_done := ws_done s; ws_written := ws_written s ++ [d];
                       ws_running := true; ws_produced := ws_produced s |}
  | w_write_zero s : ws_running s = true -> ws_queue s = [] -> ws_closed s = true ->
      writer_step s {| ws_queue := []; ws_closed := true; ws_done := ws_done s; ws_written := ws_written s ++ [zero_data];
                       ws_running := true; ws_produced := ws_produced s |}
  | w_write_fails s d q : ws_running s = true -> ws_queue s = d :: q ->
      writer_step s {| ws_queue := q; ws_closed := ws_closed s; ws_done := true; ws_written := ws_written s;
                       ws_running := false; ws_produced := ws_produced s |}
  | w_stop s : ws_running s = true -> ws_done s = true ->
      writer_step s {| ws_queue := ws_queue s; ws_closed := ws_closed s; ws_done := true; ws_written := ws_written s;
                       ws_running := false; ws_produced := ws_produced s |}.

Definition writer_init : writer_state :=
  {| ws_queue := []; ws_closed := false; ws_done := false; ws_written := []; ws_running := true; ws_produced := [] |}.

(** What was written is a prefix of what was produced, followed after the
    closing by empty messages only. *)
Definition writer_inv (s : writer_state) : Prop :=
  exists w z, ws_written s = w ++ replicate z zero_data
    /\ (ws_closed s = false -> z = 0%nat)
    /\ (ws_running s = true -> ws_produced s = w ++ ws_queue s)
    /\ (z <> 0%nat -> ws_queue s = [])
    /\ exists rest, ws_produced s = w ++ rest.

Lemma writer_inv_step s s' : writer_inv s -> writer_step s s' -> writer_inv s'.
Proof.
  intros (w & z & Hw & Hz & Hp & Hq & rest & Hr) Hstep. destruct Hstep as [s d Hc|s Hc|s|s d q Hrun Eq|s Hrun Eq Hc|s d q Hrun Eq|s Hrun Hd];
    unfold writer_inv; cbn [ws_queue ws_closed ws_done ws_written ws_running ws_produced].
  - exists w, z. specialize (Hz Hc). subst z. split_and!; auto; [intros Hx; rewrite (Hp Hx); by rewrite app_assoc|done|].
    exists (rest ++ [d]). rewrite Hr. by rewrite app_assoc.
  - exists w, z. split_and!; eauto; discriminate.
  - exists w, z. split_and!; eauto.
  - assert (z = 0%nat) as -> by (destruct z; [done|]; exfalso; rewrite Hq in Eq; [discriminate|lia]).
    assert (He : ws_produced s = (w ++ [d]) ++ q) by (rewrite (Hp Hrun), Eq; by rewrite <- app_assoc).
    exists (w ++ [d]), 0%nat. rewrite Hw. simpl. rewrite !app_nil_r. split_and!; eauto; done.
  - exists w, (S z). rewrite Hw, replicate_S_end, app_assoc. split_and!; eauto; [discriminate|intros _; by rewrite (Hp Hrun), Eq].
  - assert (z = 0%nat) as -> by (destruct z; [done|]; exfalso; rewrite Hq in Eq; [discriminate|lia]).
    exists w, 0%nat. split_and!; eauto; done.
  - exists w, z. split_and!; eauto; discriminate.
Qed.

Lemma writer_inv_reachable s0 s : rtc writer_step s0 s -> writer_inv s0 -> writer_inv s.
Proof. induction 1; eauto using writer_inv_step. Qed.

Lemma writer_inv_init : writer_inv writer_init.
Proof. exists [], 0%nat. repeat split; auto. by exists []. Qed.

(** While the handler runs, the client receives the data in the order of the
    channel and nothing else. *)
Theorem writer_in_order s : rtc writer_step writer_init s -> ws_closed s = false ->
  exists rest, ws_produced s = ws_written s ++ rest.
Proof.
  intros Hr Hc. destruct (writer_inv_reachable _ _ Hr writer_inv_init) as (w & z & Hw & Hz & _ & _ & rest & Hp).
  specialize (Hz Hc). subst z. exists rest. by rewrite Hp, Hw, app_nil_r.
Qed.

(** When it returns, the writer can send empty messages before it stops. *)
Lemma empty_messages_on_return d n :
  exists s, rtc writer_step writer_init s /\ ws_done s = false /\ ws_written s = d :: replicate n zero_data.
Proof.
  assert (Hbase : exists s, rtc writer_step writer_init s /\ ws_done s = false /\ ws_closed s = true /\ ws_queue s = []
     /\ ws_running s = true /\ ws_written s = [d]).
  { exists {| ws_queue := []; ws_closed := true; ws_done := false; ws_written := [d]; ws_running := true; ws_produced := [d] |}.
    split; [|done]. eapply rtc_l; [apply (w_produce writer_init d); reflexivity|].
    eapply rtc_l; [eapply w_write; reflexivity|]. cbn. eapply rtc_l; [apply w_close; reflexivity|]. cbn. apply rtc_refl. }
  destruct Hbase as (s & Hr & Hd & Hc & Hq & Hrun & Hw).
  cut (exists s, rtc writer_step writer_init s /\ ws_done s = false /\ ws_closed s = true /\ ws_queue s = []
     /\ ws_running s = true /\ ws_written s = d :: replicate n zero_data); [naive_solver|].
  induction n as [|n (t & Ht & Htd & Htc & Htq & Htr & Htw)]; [by exists s|].
  eexists. split; [eapply rtc_r; [exact Ht|]; by apply w_write_zero|]. cbn. rewrite Htw.
  repeat split; auto. by rewrite <- app_comm_cons, <- replicate_S_end.
Qed.
