(* ===== verification/Watchers.v ===== *)
(** * Watchers

    Models the goroutines behind the event channels: EventsWithOptions of
    internal/watcher/docker_watcher.go with its reconnection, the filters it asks
    Docker for, and the directory watcher of directory_watcher.go,
    file_watcher.go and config_file_watcher.go with the files added to it.  The
    Docker watcher is put together with the event queue that receives from it.

    The channels are not buffered: a send is a step that waits for a receiver,
    or, in the directory watcher, is dropped without one. *)

From S2P Require Import Prelude GoStrings EventQueue Provider.

(** ** Filters *)

Record DockerFilter := { df_Term : bytes; df_Values : list bytes }.

Definition NewDockerFilter (term : bytes) (values : list bytes) : DockerFilter := {| df_Term := term; df_Values := values |}.

(** [client.Filters]: the values of each term. *)
Abbreviation Filters := (gmap bytes (gset bytes)).

Definition Filters_Add (f : Filters) (term : bytes) (values : list bytes) : Filters :=
  <[term := default ∅ (f !! term) ∪ list_to_set values]> f.

Definition NewDockerFilters (filters : list DockerFilter) : Filters :=
  fold_left (fun f x => Filters_Add f (df_Term x) (df_Values x)) filters ∅.

Definition DockerFilterContainer : DockerFilter := NewDockerFilter (B "type") [B "container"].
Definition DockerFilterStart : DockerFilter := NewDockerFilter (B "event") [B "start"].
Definition DockerFilterDie : DockerFilter := NewDockerFilter (B "event") [B "die"].
Definition DockerFilterDestroy : DockerFilter := NewDockerFilter (B "event") [B "destroy"].
Definition DockerFilterContainerNameID (nameOrID : bytes) : DockerFilter := NewDockerFilter (B "container") [nameOrID].

Definition optionsDefault : Filters :=
  NewDockerFilters [DockerFilterContainer; DockerFilterStart; DockerFilterDie; DockerFilterDestroy].

(** ** The Docker watcher *)

(** An error of the stream, as far as [parseError] looks at it. *)
Inductive stream_error := DeadlineExceeded | ConnectionFailed | OtherError (e : bytes).

Definition parseError (err : stream_error) : bytes :=
  match err with
  | DeadlineExceeded => B "docker client connection timeout"
  | ConnectionFailed => B "docker client connection failure"
  | OtherError e => e
  end.

(** Where the goroutine is: connecting, waiting in a [select], or in a send that
    waits for the receiver. *)
Inductive dw_pc :=
  | Connecting
  | SendClientError (e : bytes)
  | GaveUp                            (* returned before the deferred closing *)
  | Watching
  | SendEvent (e : Event)
  | SendError (e : bytes)
  | SendClear                         (* the reload that clears the routes *)
  | Retrying
  | SendReload                        (* the reload that loads them again *)
  | Closed.

(** With what the receiver got, and the number of streams opened. *)
Record dw_state := {
  dw_at : dw_pc;
  dw_streams : nat;
  dw_events : list Event;
  dw_errors : list bytes
}.

Inductive dw_label :=
  | LClient (r : option bytes)        (* NewClient: the error *)
  | LMessage (m : docker_Message)
  | LStreamErr (e : option stream_error)
  | LTick (connected : bool)
  | LDone                             (* ctx.Done is selected *)
  | LRecvEvent                        (* the receiver takes an event *)
  | LRecvErr.

Definition go (s : dw_state) (pc : dw_pc) : dw_state :=
  {| dw_at := pc; dw_streams := dw_streams s; dw_events := dw_events s; dw_errors := dw_errors s |}.
Definition open_stream (s : dw_state) : dw_state :=
  {| dw_at := Watching; dw_streams := S (dw_streams s); dw_events := dw_events s; dw_errors := dw_errors s |}.
Definition deliver_event (s : dw_state) (e : Event) : dw_state :=
  {| dw_at := dw_at s; dw_streams := dw_streams s; dw_events := dw_events s ++ [e]; dw_errors := dw_errors s |}.
Definition deliver_error (s : dw_state) (e : bytes) : dw_state :=
  {| dw_at := dw_at s; dw_streams := dw_streams s; dw_events := dw_events s; dw_errors := dw_errors s ++ [e] |}.

(** One step; [None]: not possible in this state. *)
Definition dw_step (s : dw_state) (l : dw_label) : option dw_state :=
  match dw_at s, l with
  | Connecting, LClient (Some err) => Some (go s (SendClientError err))
  | Connecting, LClient None => Some (open_stream s)
  | SendClientError e, LRecvErr => Some (go (deliver_error s e) GaveUp)
  | Watching, LDone => Some (go s Closed)
  | Watching, LMessage m => Some (match handleEvent m with Some e => go s (SendEvent e) | None => s end)
  | Watching, LStreamErr None => Some s
  | Watching, LStreamErr (Some e) => Some (go s (SendError (parseError e)))
  | SendEvent e, LRecvEvent => Some (go (deliver_event s e) Watching)
  | SendError e, LRecvErr => Some (go (deliver_error s e) SendClear)
  | SendClear, LRecvEvent => Some (go (deliver_event s reloadTrigger) Retrying)
  | Retrying, LDone => Some (go s Closed)
  | Retrying, LTick true => Some (go s SendReload)
  | Retrying, LTick false => Some s
  | SendReload, LRecvEvent => Some (open_stream (deliver_event s reloadTrigger))
  | _, _ => None
  end.

Definition dw_init : dw_state := {| dw_at := Connecting; dw_streams := 0; dw_events := []; dw_errors := [] |}.

Definition dw_run (s : dw_state) (ls : list dw_label) : option dw_state :=
  fold_left (fun o l => s ← o; dw_step s l) ls (Some s).

(** Are the channels closed and the client given back? *)
Definition channels_closed (s : dw_state) : bool := match dw_at s with Closed => true | _ => false end.

(** What each step owes to the receiver. *)
Definition owed_events (l : dw_label) : list Event :=
  match l with
  | LMessage m => match handleEvent m with Some e => [e] | None => [] end
  | LStreamErr (Some _) => [reloadTrigger]
  | LTick true => [reloadTrigger]
  | _ => []
  end.

Definition owed_errors (l : dw_label) : list bytes :=
  match l with LClient (Some e) => [e] | LStreamErr (Some e) => [parseError e] | _ => [] end.

(** What a state has still to send. *)
Definition pending_events (pc : dw_pc) : list Event :=
  match pc with SendEvent e => [e] | SendError _ | SendClear | SendReload => [reloadTrigger] | _ => [] end.

Definition pending_errors (pc : dw_pc) : list bytes :=
  match pc with SendClientError e | SendError e => [e] | _ => [] end.

Definition reconnects (ls : list dw_label) : nat :=
  length (List.filter (fun l => match l with LTick true => true | _ => false end) ls).

(** ** Lemmas *)

Lemma dw_run_app s ls l : dw_run s (ls ++ [l]) = dw_run s ls ≫= fun s' => dw_step s' l.
Proof. unfold dw_run. by rewrite fold_left_app. Qed.

Lemma dw_step_owed s l s' : dw_step s l = Some s' ->
  dw_events s' ++ pending_events (dw_at s') = (dw_events s ++ pending_events (dw_at s)) ++ owed_events l
  /\ dw_errors s' ++ pending_errors (dw_at s') = (dw_errors s ++ pending_errors (dw_at s)) ++ owed_errors l.
Proof.
  unfold dw_step. destruct s as [pc n evs errs]. cbn [dw_at].
  destruct pc, l; try discriminate; repeat case_match; try discriminate; intros [= <-];
    cbn [dw_at dw_events dw_errors go open_stream deliver_event deliver_error pending_events pending_errors owed_events owed_errors];
    repeat match goal with H : handleEvent _ = _ |- _ => rewrite H end; by rewrite ?app_nil_r.
Qed.

(** The streams that were opened: one at the start and one after each
    reconnection that was announced. *)
Definition streams_due (pc : dw_pc) (n : nat) : nat :=
  match pc with Connecting | SendClientError _ | GaveUp => 0 | SendReload => n | _ => S n end.

Lemma dw_step_streams s l s' n : dw_step s l = Some s' -> (dw_at s = Connecting -> n = 0%nat) ->
  dw_streams s = streams_due (dw_at s) n ->
  (dw_at s' = Connecting -> False) /\ dw_streams s' = streams_due (dw_at s') (n + reconnects [l]).
Proof.
  unfold dw_step. destruct s as [pc k evs errs]. cbn [dw_at dw_streams].
  destruct pc, l; try discriminate; repeat case_match; try discriminate; intros [= <-] Hn Hk;
    cbn [dw_at dw_streams go open_stream deliver_event deliver_error streams_due] in *; unfold reconnects; cbn;
    rewrite ?Nat.add_0_r, ?Nat.add_1_r; split; try done; try lia; rewrite Hn in *; auto.
Qed.

(** Whatever happens, the receiver gets in order the events of the messages
    that Docker sent and, for each loss of the connection, one reload before and
    one after it comes back; what it has not got yet is the send the goroutine
    waits in.  The errors are reported once each, and a new stream is opened for
    each reconnection. *)
Theorem docker_watcher_exact ls s :
  dw_run dw_init ls = Some s ->
  dw_events s ++ pending_events (dw_at s) = flat_map owed_events ls
  /\ dw_errors s ++ pending_errors (dw_at s) = flat_map owed_errors ls
  /\ dw_streams s = streams_due (dw_at s) (reconnects ls).
Proof.
  assert (Hall : dw_run dw_init ls = Some s ->
    dw_events s ++ pending_events (dw_at s) = flat_map owed_events ls
    /\ dw_errors s ++ pending_errors (dw_at s) = flat_map owed_errors ls
    /\ dw_streams s = streams_due (dw_at s) (reconnects ls)
    /\ (dw_at s = Connecting -> reconnects ls = 0%nat)); [|intros H; by destruct (Hall H) as (? & ? & ? & _)].
  revert s. induction ls as [|l ls IH] using rev_ind; intros s.
  - intros [= <-]. done.
  - rewrite dw_run_app. destruct (dw_run dw_init ls) as [t|] eqn:Et; [|discriminate]. cbn [mbind option_bind]. intros Hs.
    destruct (IH t eq_refl) as (H1 & H2 & H3 & H4). destruct (dw_step_owed _ _ _ Hs) as [E1 E2].
    destruct (dw_step_streams _ _ _ _ Hs H4 H3) as [E3 E4].
    rewrite !flat_map_app. cbn [flat_map]. rewrite !app_nil_r, <- H1, <- H2. split; [done|]. split; [done|].
    unfold reconnects in *. rewrite List.filter_app, length_app. split; [done|]. intros Hc. by destruct (E3 Hc).
Qed.

(** While the connection is down only reloads are delivered. *)
Lemma no_events_while_down s l s' : dw_step s l = Some s' ->
  match dw_at s with SendError _ | SendClear | Retrying | SendReload => True | _ => False end ->
  dw_events s' = dw_events s \/ dw_events s' = dw_events s ++ [reloadTrigger].
Proof.
  unfold dw_step. destruct s as [pc k evs errs]. cbn [dw_at].
  destruct pc; try done; intros Hs _; destruct l; try discriminate; repeat case_match; try discriminate; injection Hs as <-; cbn; auto.
Qed.

(** A send does not watch the context: without a receiver no step is possible
    and the channels stay open; nor are they closed when the client could not be
    made. *)
Lemma cancel_not_seen s :
  match dw_at s with SendClientError _ | SendEvent _ | SendError _ | SendClear | SendReload => True | _ => False end ->
  channels_closed s = false /\ forall l s', dw_step s l = Some s' -> l = LRecvEvent \/ l = LRecvErr.
Proof.
  unfold dw_step, channels_closed. destruct s as [pc k evs errs]. cbn [dw_at].
  destruct pc; try done; intros _; (split; [done|]); intros l s'; destruct l; try discriminate; auto.
Qed.

Lemma gave_up_stays s ls : dw_at s = GaveUp -> ls <> [] -> dw_run s ls = None.
Proof.
  intros Hs Hne. destruct ls as [|l ls]; [done|]. unfold dw_run. cbn [fold_left mbind option_bind].
  assert (dw_step s l = None) as -> by (unfold dw_step; by rewrite Hs). clear Hne. by induction ls.
Qed.

(** ** The watcher and its queue *)

(** The event that a receiver would take now. *)
Definition offered (pc : dw_pc) : option Event :=
  match pc with SendEvent e => Some e | SendClear | SendReload => Some reloadTrigger | _ => None end.

Definition offered_error (pc : dw_pc) : option bytes :=
  match pc with SendClientError e | SendError e => Some e | _ => None end.

Inductive sys_label :=
  | SysWatcher (l : dw_label)         (* a step of the watcher on its own *)
  | SysEvent                          (* the queue receives an event *)
  | SysError                          (* the queue receives an error *)
  | SysClosed                         (* the queue sees the closed channel *)
  | SysTick
  | SysTaskDone.

Definition is_recv (l : dw_label) : bool := match l with LRecvEvent | LRecvErr => true | _ => false end.

Section System.
Context {W : Type} `{QueueHandler W} (IsDebug : bool).

Definition sys_step (s : dw_state * @EventQueue W) (l : sys_label) : option (dw_state * @EventQueue W) :=
  let '(w, q) := s in
  let running := bool_decide (q_status q = Running) in
  match l with
  | SysWatcher l => if is_recv l then None else (fun w' => (w', q)) <$> dw_step w l
  | SysEvent =>
      if negb running then None
      else e ← offered (dw_at w); w' ← dw_step w LRecvEvent; Some (w', queue_step IsDebug q (EventCh (Some e)))
  | SysError =>
      if negb running then None
      else e ← offered_error (dw_at w); w' ← dw_step w LRecvErr; Some (w', queue_step IsDebug q (ErrCh (Some (Some e))))
  | SysClosed => if channels_closed w then Some (w, queue_step IsDebug q (EventCh None)) else None
  | SysTick => Some (w, queue_step IsDebug q TickerC)
  | SysTaskDone => Some (w, queue_step IsDebug q TaskDone)
  end.

Definition sys_run (s : dw_state * @EventQueue W) (ls : list sys_label) : option (dw_state * @EventQueue W) :=
  fold_left (fun o l => s ← o; sys_step s l) ls (Some s).

(** The events [evs] were passed to the callback or are still held: the world is
    what calls of the callbacks made of [world], and the batches of these calls
    with the pending events are [evs]. *)
Definition passed_on (world : W) (q : @EventQueue W) (evs : list Event) : Prop :=
  exists cs, q_world q = fold_left deliver cs world /\ concat (batches cs) ++ q_queue q = evs.

Lemma queue_step_events world q i evs :
  passed_on world q evs ->
  passed_on world (queue_step IsDebug q i)
    (evs ++ match q_status q, i with Running, EventCh (Some e) => [e] | _, _ => [] end).
Proof.
  intros (cs & Hw & <-). exists (cs ++ step_call q i). split.
  - by rewrite step_world, fold_left_app, Hw.
  - by rewrite batches_app, concat_app, <- app_assoc, step_events, app_assoc.
Qed.

Lemma recv_offered w w' e : offered (dw_at w) = Some e -> dw_step w LRecvEvent = Some w' -> dw_events w' = dw_events w ++ [e].
Proof.
  unfold dw_step. destruct w as [pc k evs errs]. cbn [dw_at]. destruct pc; try discriminate; intros [= <-] [= <-]; done.
Qed.

Lemma other_keeps_events w w' l : l <> LRecvEvent -> dw_step w l = Some w' -> dw_events w' = dw_events w.
Proof.
  unfold dw_step. destruct w as [pc k evs errs]. cbn [dw_at].
  destruct pc, l; try done; repeat case_match; try discriminate; intros _ [= <-]; done.
Qed.

(** The labels of the watcher alone. *)
Definition own_steps (ws : list dw_label) : list dw_label := List.filter (fun l => negb (is_recv l)) ws.
Definition watcher_labels (ls : list sys_label) : list dw_label :=
  omap (fun l => match l with SysWatcher l => Some l | _ => None end) ls.

(** A step of the system is at most one step of the watcher, and the queue has
    what the watcher delivered. *)
Lemma sys_step_refines world w0 q0 l w q :
  sys_step (w0, q0) l = Some (w, q) -> passed_on world q0 (dw_events w0) ->
  passed_on world q (dw_events w)
  /\ exists ws, dw_run w0 ws = Some w /\ own_steps ws = watcher_labels [l].
Proof.
  intros Hs Hq. unfold sys_step in Hs. destruct l as [l| | | | |].
  - destruct (is_recv l) eqn:Er; [discriminate|]. destruct (dw_step w0 l) as [w'|] eqn:Es; [|discriminate]. injection Hs as <- <-.
    assert (Hne : l <> LRecvEvent) by (by intros ->). rewrite (other_keeps_events _ _ _ Hne Es).
    split; [done|]. exists [l]. unfold own_steps. cbn. by rewrite Er.
  - case_bool_decide as Hr; [|discriminate]. cbn [negb] in Hs.
    destruct (offered (dw_at w0)) as [e|] eqn:Eo; [|discriminate]. cbn [mbind option_bind] in Hs.
    destruct (dw_step w0 LRecvEvent) as [w'|] eqn:Es; [|discriminate]. injection Hs as <- <-.
    apply (queue_step_events world q0 (EventCh (Some e))) in Hq. rewrite Hr in Hq. rewrite (recv_offered _ _ _ Eo Es).
    split; [done|]. by exists [LRecvEvent].
  - case_bool_decide as Hr; [|discriminate]. cbn [negb] in Hs.
    destruct (offered_error (dw_at w0)) as [e|] eqn:Eo; [|discriminate]. cbn [mbind option_bind] in Hs.
    destruct (dw_step w0 LRecvErr) as [w'|] eqn:Es; [|discriminate]. injection Hs as <- <-.
    assert (Hne : LRecvErr <> LRecvEvent) by done.
    apply (queue_step_events world q0 (ErrCh (Some (Some e)))) in Hq. rewrite Hr, app_nil_r in Hq.
    rewrite (other_keeps_events _ _ _ Hne Es). split; [done|]. by exists [LRecvErr].
  - destruct (channels_closed w0); [|discriminate]. injection Hs as <- <-. apply (queue_step_events world q0 (EventCh None)) in Hq.
    split; [destruct (q_status q0); by rewrite app_nil_r in Hq|by exists []].
  - injection Hs as <- <-. apply (queue_step_events world q0 TickerC) in Hq.
    split; [destruct (q_status q0); by rewrite app_nil_r in Hq|by exists []].
  - injection Hs as <- <-. apply (queue_step_events world q0 TaskDone) in Hq.
    split; [destruct (q_status q0); by rewrite app_nil_r in Hq|by exists []].
Qed.

Lemma dw_run_trans s s' ls1 ls2 : dw_run s ls1 = Some s' -> dw_run s (ls1 ++ ls2) = dw_run s' ls2.
Proof. unfold dw_run. rewrite fold_left_app. by intros ->. Qed.

(** Nothing is lost or doubled between Docker and the callback of the queue:
    the queue has passed on or holds, in order, what the messages and the
    reconnections of the watcher call for, but for the one send in progress. *)
Theorem watcher_to_queue world ls w q :
  sys_run (dw_init, NewEventQueue world) ls = Some (w, q) ->
  exists evs, passed_on world q evs /\ evs ++ pending_events (dw_at w) = flat_map owed_events (watcher_labels ls).
Proof.
  intros Hrun.
  cut (passed_on world q (dw_events w) /\ exists ws, dw_run dw_init ws = Some w /\ own_steps ws = watcher_labels ls).
  { intros (Hq & ws & Hw & <-). exists (dw_events w). split; [done|].
    destruct (docker_watcher_exact _ _ Hw) as (-> & _). unfold own_steps.
    clear. induction ws as [|l ws IH]; [done|]. cbn. rewrite IH. by destruct l as [| | |[]| | |]. }
  revert w q Hrun. induction ls as [|l ls IH] using rev_ind; intros w q Hrun.
  - injection Hrun as <- <-. split; by exists [].
  - unfold sys_run in Hrun. rewrite fold_left_app in Hrun. cbn [fold_left] in Hrun. fold (sys_run (dw_init, NewEventQueue world) ls) in Hrun.
    destruct (sys_run _ ls) as [[w0 q0]|]; [|discriminate]. cbn [mbind option_bind] in Hrun.
    destruct (IH _ _ eq_refl) as (Hq & ws & Hw & Hl). destruct (sys_step_refines _ _ _ _ _ _ Hrun Hq) as (Hq' & ws' & Hw' & Hl').
    split; [done|]. exists (ws ++ ws'). rewrite (dw_run_trans _ _ _ _ Hw). split; [done|].
    unfold own_steps, watcher_labels in *. by rewrite List.filter_app, omap_app, Hl, Hl'.
Qed.

(** When the task of the queue ends while the watcher sends, the watcher stays
    in its send: it never gets to close the channels and give the client back. *)
Lemma watcher_leaks w q ls w' q' :
  q_status q <> Running -> offered (dw_at w) <> None \/ offered_error (dw_at w) <> None ->
  sys_run (w, q) ls = Some (w', q') -> w' = w /\ channels_closed w' = false.
Proof.
  intros Hq Ho. revert w' q'.
  assert (Hpc : match dw_at w with SendClientError _ | SendEvent _ | SendError _ | SendClear | SendReload => True | _ => False end).
  { destruct (dw_at w); cbn in Ho; naive_solver. }
  destruct (cancel_not_seen w Hpc) as [Hc Hl].
  assert (Hstop : forall i, queue_step IsDebug q i = q) by (intros i; unfold queue_step; by destruct (q_status q)).
  cut (forall w' q', sys_run (w, q) ls = Some (w', q') -> w' = w /\ q' = q).
  { intros Hx w' q' Hr. by destruct (Hx _ _ Hr) as [-> _]. }
  induction ls as [|l ls IH] using rev_ind; intros w' q' Hr; [by injection Hr as <- <-|].
  unfold sys_run in Hr. rewrite fold_left_app in Hr. cbn [fold_left] in Hr. fold (sys_run (w, q) ls) in Hr.
  destruct (sys_run (w, q) ls) as [[w0 q0]|]; [|discriminate]. destruct (IH _ _ eq_refl) as [-> ->]. cbn [mbind option_bind] in Hr.
  unfold sys_step in Hr. rewrite (bool_decide_eq_false_2 (q_status q = Running)) in Hr by done. rewrite !Hstop, Hc in Hr. cbn [negb] in Hr.
  destruct l as [l| | | | |]; try discriminate; try (by injection Hr as <- <-).
  destruct (is_recv l) eqn:Er; [discriminate|]. destruct (dw_step w l) as [w1|] eqn:Es; [|discriminate].
  destruct (Hl _ _ Es) as [->| ->]; discriminate.
Qed.

End System.

(** ** An outage as the routes see it *)

Section Outage.
Variable info : nat -> route_info.
Variable t : ProviderType.

(** The first reload, while Docker cannot be asked, removes every route. *)
Lemma outage_clears start_ok order st :
  consistent info st -> Permutation order (map_to_list (pv_routes st)) ->
  forall k, pv_routes (Handle info t [reloadTrigger] [] true start_ok order st) !! k = None.
Proof.
  intros Hc Ho k. assert (Hf : fresh_routes info st []) by (split; constructor).
  destruct (Handle_spec info t [reloadTrigger] [] true start_ok order st Hc Hf Ho) as [_ ->]. done.
Qed.

(** The second one loads what there is. *)
Lemma outage_recovers start_ok newRoutes order st :
  consistent info st -> pv_routes st = ∅ -> fresh_routes info st newRoutes -> order = [] ->
  forall k, pv_routes (Handle info t [reloadTrigger] newRoutes false start_ok order st) !! k
    = id ← (list_to_map newRoutes : gmap bytes nat) !! k; if start_ok id then Some id else None.
Proof.
  intros Hc He Hf -> k.
  assert (Ho : Permutation [] (map_to_list (pv_routes st))) by (by rewrite He, map_to_list_empty).
  destruct (Handle_spec info t [reloadTrigger] newRoutes false start_ok [] st Hc Hf Ho) as [_ ->].
  cbn [andb]. unfold expected. rewrite He. by destruct (list_to_map newRoutes !! k).
Qed.

(** If Docker is back before the first reload asks it, the routes that exist
    are kept, although their containers may have been replaced while no events
    arrived: a reload concerns no container. *)
Lemma quick_restart_keeps_stale start_ok newRoutes order st k old new :
  consistent info st -> fresh_routes info st newRoutes -> Permutation order (map_to_list (pv_routes st)) ->
  t <> ProviderTypeFile -> pv_routes st !! k = Some old -> (list_to_map newRoutes : gmap bytes nat) !! k = Some new ->
  ri_ContainerID (info new) <> [] -> ri_ContainerName (info new) <> [] ->
  pv_routes (Handle info t [reloadTrigger] newRoutes false start_ok order st) !! k = Some old.
Proof.
  intros Hc Hf Ho Ht Hk Hn Hid Hname.
  destruct (Handle_spec info t [reloadTrigger] newRoutes false start_ok order st Hc Hf Ho) as [_ ->].
  cbn [andb]. unfold expected. rewrite Hn, Hk. unfold matchAny, match_event. cbn [existsb reloadTrigger ev_ActorID ev_ActorName].
  rewrite !bool_decide_eq_false_2 by done. by destruct t.
Qed.

End Outage.

(** ** The directory watcher *)

(** The channels of a watched file: what was received there, and whether they
    are closed. *)
Record fileWatcher := { fw_received : list Event; fw_closed : bool }.

Record DirWatcher := {
  hw_dir : bytes;
  hw_fwMap : gmap bytes fileWatcher;
  hw_received : list Event;           (* on the channel of the directory *)
  hw_errors : list bytes;
  hw_closed : bool                    (* [cleanup] ran *)
}.

Definition NewDirectoryWatcher (dirPath : bytes) : DirWatcher :=
  {| hw_dir := dirPath; hw_fwMap := ∅; hw_received := []; hw_errors := []; hw_closed := false |}.

(** [Add]: the watcher of a file that is already watched is shared. *)
Definition DirWatcher_Add (relPath : bytes) (h : DirWatcher) : DirWatcher :=
  match hw_fwMap h !! relPath with
  | Some _ => h
  | None =>
      {| hw_dir := hw_dir h; hw_fwMap := <[relPath := {| fw_received := []; fw_closed := false |}]> (hw_fwMap h);
         hw_received := hw_received h; hw_errors := hw_errors h; hw_closed := hw_closed h |}
  end.

Definition cleanup (h : DirWatcher) : DirWatcher :=
  {| hw_dir := hw_dir h; hw_fwMap := (fun fw => {| fw_received := fw_received fw; fw_closed := true |}) <$> hw_fwMap h;
     hw_received := hw_received h; hw_errors := hw_errors h; hw_closed := true |}.

(** What the goroutine of [start] and its users do; [ready] flags say whether
    somebody receives on the directory's channel, on the file's or on that of
    errors. *)
Inductive dir_label :=
  | DirAdd (relPath : bytes)
  | DirEvent (e : fs_event) (dir_ready : bool) (file_ready : bool)
  | DirEventsClosed
  | DirError (err : bytes) (is_closed ready : bool)
  | DirTaskDone.

Definition dir_step (h : DirWatcher) (l : dir_label) : DirWatcher :=
  match l with
  | DirAdd relPath => DirWatcher_Add relPath h
  | DirEvent e dir_ready file_ready =>
      if hw_closed h then h
      else
        let '(to_dir, to_file) := dispatch (hw_dir h) (dom (hw_fwMap h)) dir_ready (fun _ => file_ready) e in
        {| hw_dir := hw_dir h;
           hw_fwMap := match to_file with
                       | Some msg => alter (fun fw => {| fw_received := fw_received fw ++ [msg]; fw_closed := fw_closed fw |})
                                           (ev_ActorName msg) (hw_fwMap h)
                       | None => hw_fwMap h
                       end;
           hw_received := hw_received h ++ match to_dir with Some msg => [msg] | None => [] end;
           hw_errors := hw_errors h; hw_closed := false |}
  | DirEventsClosed | DirTaskDone => if hw_closed h then h else cleanup h
  | DirError err is_closed ready =>
      if hw_closed h then h
      else if is_closed then cleanup h
      else {| hw_dir := hw_dir h; hw_fwMap := hw_fwMap h; hw_received := hw_received h;
              hw_errors := hw_errors h ++ (if ready then [err] else []); hw_closed := false |}
  end.

Definition dir_run (h : DirWatcher) (ls : list dir_label) : DirWatcher := fold_left dir_step ls h.

(** The events of a file in a history: from when it is watched until the
    watcher stops, those that find a receiver. *)
Fixpoint file_events (dir p : bytes) (watched : bool) (ls : list dir_label) : list Event :=
  match ls with
  | [] => []
  | DirAdd q :: ls' => file_events dir p (watched || bool_decide (q = p)) ls'
  | DirEvent e _ ready :: ls' =>
      match translate dir e with
      | Some msg => if watched && ready && bool_decide (ev_ActorName msg = p) then [msg] else []
      | None => []
      end ++ file_events dir p watched ls'
  | DirEventsClosed :: _ | DirTaskDone :: _ | DirError _ true _ :: _ => []
  | DirError _ false _ :: ls' => file_events dir p watched ls'
  end.

(** What the watcher of [p] has received. *)
Definition received_by (h : DirWatcher) (p : bytes) : list Event :=
  match hw_fwMap h !! p with Some fw => fw_received fw | None => [] end.

(** ** Lemmas: the directory watcher *)

Lemma closed_keeps_files p ls : forall h, hw_closed h = true -> received_by (dir_run h ls) p = received_by h p.
Proof.
  induction ls as [|l ls IH]; intros h Hc; [done|]. unfold dir_run in *. cbn [fold_left].
  assert (Hs : hw_closed (dir_step h l) = true /\ received_by (dir_step h l) p = received_by h p).
  { destruct l as [q| | | |]; cbn [dir_step]; rewrite ?Hc; auto. unfold DirWatcher_Add, received_by.
    destruct (hw_fwMap h !! q) eqn:Eq; [auto|]. cbn. split; [done|].
    destruct (decide (q = p)) as [->|Hne]; [by rewrite lookup_insert_eq, Eq|by rewrite lookup_insert_ne]. }
  destruct Hs as [Hc' <-]. by apply IH.
Qed.

Lemma received_cleanup h p : received_by (cleanup h) p = received_by h p.
Proof. unfold received_by, cleanup. cbn. rewrite lookup_fmap. by destruct (hw_fwMap h !! p). Qed.

Lemma dir_step_dir h l : hw_dir (dir_step h l) = hw_dir h.
Proof.
  destruct l as [q|e dr fr| |err [] r|]; cbn [dir_step]; try (by destruct (hw_closed h)).
  - unfold DirWatcher_Add. by destruct (hw_fwMap h !! q).
  - destruct (hw_closed h); [done|]. by destruct (dispatch _ _ _ _ _).
Qed.

(** One event: what it adds to the watcher of [p]. *)
Lemma event_received h e dr fr p :
  hw_closed h = false ->
  let h' := dir_step h (DirEvent e dr fr) in
  received_by h' p = received_by h p ++
    match translate (hw_dir h) e with
    | Some msg => if bool_decide (p ∈ dom (hw_fwMap h)) && fr && bool_decide (ev_ActorName msg = p) then [msg] else []
    | None => []
    end
  /\ dom (hw_fwMap h') = dom (hw_fwMap h) /\ hw_closed h' = false.
Proof.
  intros Hc. cbn [dir_step]. rewrite Hc. unfold dispatch. destruct (translate (hw_dir h) e) as [msg|]; [|cbn; by rewrite !app_nil_r].
  cbn zeta. destruct (bool_decide (ev_ActorName msg ∈ dom (hw_fwMap h)) && fr) eqn:Eb; unfold received_by; cbn [hw_fwMap hw_closed].
  - apply andb_true_iff in Eb as [Ein ->]. apply bool_decide_eq_true in Ein. rewrite dom_alter_L. split; [|done].
    destruct (decide (ev_ActorName msg = p)) as [<-|Hne].
    + rewrite lookup_alter_eq, !bool_decide_eq_true_2 by done. apply elem_of_dom in Ein as [fw Hfw]. by rewrite Hfw.
    + rewrite lookup_alter_ne, (bool_decide_eq_false_2 (ev_ActorName msg = p)) by done. by rewrite andb_false_r, app_nil_r.
  - split; [|done]. destruct (decide (ev_ActorName msg = p)) as [<-|Hne]; [by rewrite Eb, app_nil_r|].
    rewrite (bool_decide_eq_false_2 (ev_ActorName msg = p)) by done. by rewrite andb_false_r, app_nil_r.
Qed.

Lemma dir_run_events p ls : forall h, hw_closed h = false ->
  received_by (dir_run h ls) p = received_by h p ++ file_events (hw_dir h) p (bool_decide (p ∈ dom (hw_fwMap h))) ls.
Proof.
  induction ls as [|l ls IH]; intros h Hc; [by rewrite app_nil_r|].
  change (dir_run h (l :: ls)) with (dir_run (dir_step h l) ls).
  destruct l as [q|e dr fr| |err cl r|]; cbn [file_events].
  - rewrite IH, dir_step_dir by (cbn; unfold DirWatcher_Add; by case_match). cbn [dir_step].
    unfold DirWatcher_Add, received_by. destruct (hw_fwMap h !! q) eqn:Eq.
    + f_equal. f_equal. case_bool_decide as Hp; [done|]. rewrite bool_decide_eq_false_2; [done|].
      intros ->. apply Hp, elem_of_dom. eauto.
    + cbn [hw_fwMap]. f_equal; [destruct (decide (q = p)) as [->|?]; [by rewrite lookup_insert_eq, Eq|by rewrite lookup_insert_ne]|].
      f_equal. rewrite dom_insert_L. apply eq_iff_eq_true. rewrite orb_true_iff, !bool_decide_eq_true, elem_of_union, elem_of_singleton. naive_solver.
  - destruct (event_received h e dr fr p Hc) as (H1 & H2 & H3). rewrite IH, dir_step_dir, H1, H2, <- app_assoc by done. done.
  - cbn [dir_step]. rewrite Hc, closed_keeps_files, received_cleanup, app_nil_r by done. done.
  - cbn [dir_step]. rewrite Hc. destruct cl; [rewrite closed_keeps_files, received_cleanup, app_nil_r by done; done|]. by rewrite IH.
  - cbn [dir_step]. rewrite Hc, closed_keeps_files, received_cleanup, app_nil_r by done. done.
Qed.

(** A watched file gets exactly its own events, in order, as far as somebody
    receives at the moment they are sent. *)
Theorem directory_watcher_exact dir p ls :
  received_by (dir_run (NewDirectoryWatcher dir) ls) p = file_events dir p false ls
  /\ Forall (fun e => ev_ActorName e = p /\ ev_Type e = EventTypeFile) (received_by (dir_run (NewDirectoryWatcher dir) ls) p).
Proof.
  assert (He : received_by (dir_run (NewDirectoryWatcher dir) ls) p = file_events dir p false ls).
  { by rewrite dir_run_events. }
  split; [done|]. rewrite He. generalize false. clear He.
  induction ls as [|l ls IH]; intros w; cbn [file_events]; [constructor|].
  destruct l as [q|e dr fr| |err [] r|]; auto. apply Forall_app; split; [|auto].
  destruct (translate dir e) as [msg|] eqn:Et; [|constructor]. destruct (w && fr); [|constructor]. cbn [andb].
  case_bool_decide; constructor; [|constructor]. split; [done|].
  revert Et. unfold translate. repeat case_match; intros; simplify_eq; done.
Qed.

(** An event that nobody receives is lost, and a file added after the watcher
    stopped is never closed. *)
Lemma event_lost dir p e dr ls1 :
  received_by (dir_run (NewDirectoryWatcher dir) (ls1 ++ [DirEvent e dr false])) p = received_by (dir_run (NewDirectoryWatcher dir) ls1) p.
Proof.
  unfold dir_run. rewrite fold_left_app. cbn [fold_left]. set (h := fold_left dir_step ls1 _).
  destruct (hw_closed h) eqn:Hc; [cbn [dir_step]; by rewrite Hc|].
  destruct (event_received h e dr false p Hc) as (-> & _). destruct (translate _ _); [|by rewrite app_nil_r].
  by rewrite andb_false_r, app_nil_r.
Qed.

Lemma added_too_late dir p ls fw :
  let h := dir_run (dir_step (NewDirectoryWatcher dir) DirTaskDone) (DirAdd p :: ls) in
  hw_fwMap h !! p = Some fw -> fw_closed fw = false.
Proof.
  cbv zeta. change (dir_run _ (DirAdd p :: ls)) with (dir_run (dir_step (dir_step (NewDirectoryWatcher dir) DirTaskDone) (DirAdd p)) ls).
  set (h0 := dir_step (NewDirectoryWatcher dir) DirTaskDone). set (h := dir_step h0 (DirAdd p)).
  assert (E0 : hw_fwMap h0 = ∅) by apply fmap_empty.
  assert (Hh : hw_closed h = true /\ forall fw, hw_fwMap h !! p = Some fw -> fw_closed fw = false).
  { change h with (DirWatcher_Add p h0). unfold DirWatcher_Add. rewrite E0, lookup_empty. split; [done|].
    cbn [hw_fwMap]. rewrite lookup_insert_eq. by intros ? [= <-]. }
  destruct Hh as [Hc Hf]. revert Hc Hf. generalize h. clear h h0 E0. induction ls as [|l ls IH]; intros h Hc Hf; [apply Hf|].
  change (dir_run h (l :: ls)) with (dir_run (dir_step h l) ls). apply IH.
  - destruct l as [q| | | |]; cbn [dir_step]; rewrite ?Hc; auto. unfold DirWatcher_Add. by destruct (hw_fwMap h !! q).
  - destruct l as [q| | | |]; cbn [dir_step]; rewrite ?Hc; auto. unfold DirWatcher_Add. destruct (hw_fwMap h !! q); [auto|].
    cbn. intros fw' [[<- <-]|[_ Hl]]%lookup_insert_Some; auto.
Qed.

(** ** Examples *)

Module WatchersDemo.

Definition start_msg : docker_Message := {| msg_Action := dockerActionStart; msg_ActorID := B "id"; msg_Attributes := ∅ |}.

(** A start, a lost connection, a failed and a successful attempt. *)
Definition outage : list dw_label :=
  [LClient None; LMessage start_msg; LRecvEvent; LStreamErr (Some ConnectionFailed); LRecvErr; LRecvEvent; LTick false; LTick true; LRecvEvent; LDone].

Lemma docker_watcher_exact_witness :
  exists s e, dw_run dw_init outage = Some s /\ handleEvent start_msg = Some e
    /\ dw_events s = [e; reloadTrigger; reloadTrigger] /\ dw_streams s = 2%nat /\ channels_closed s = true.
Proof.
  destruct (dw_run dw_init outage) as [s|] eqn:Er; [|vm_compute in Er; discriminate].
  destruct (docker_watcher_exact outage s Er) as (H1 & H2 & H3).
  assert (Hat : dw_at s = Closed) by (vm_compute in Er; injection Er as <-; reflexivity).
  rewrite Hat in H1, H3. exists s. eexists. split; [reflexivity|]. split; [reflexivity|].
  rewrite app_nil_r in H1. split; [exact H1|]. split; [exact H3|]. unfold channels_closed. rewrite Hat. reflexivity.
Defined.

(** The events asked for: containers that start, die or are destroyed. *)
Example default_filters :
  optionsDefault !! B "type" = Some {[ B "container" ]}
  /\ optionsDefault !! B "event" = Some {[ B "start"; B "die"; B "destroy" ]}.
Proof. split; reflexivity. Qed.

End WatchersDemo.
