(* ===== verification/ModifyHTML.v ===== *)
(** * Middlewares: injecting HTML

    Models internal/net/gphttp/middleware/modify_html.go: the request asks for an
    unencoded response, and the body of an HTML response is parsed, changed at
    the elements that a selector finds, and written again.

    The documents of golang.org/x/net/html and goquery are a type of the class
    [HTMLLib] with the operations the code calls. *)

From S2P Require Import Prelude GoStrings RulesHTTP MiddlewareVars.

(** Parsing, the number of elements found by a selector, replacing all of them,
    appending to the first, moving the contents of further [head] elements into
    the first and removing them, and rendering, which may fail. *)
Class HTMLLib := {
  Document : Type;
  NewDocument (content : bytes) : option Document;
  Find_Length (doc : Document) (selector : bytes) : nat;
  ReplaceWithHtml (doc : Document) (selector html : bytes) : Document;
  AppendHtml_First (doc : Document) (selector html : bytes) : Document;
  merge_heads (doc : Document) : Document;
  Render (doc : Document) : option bytes;
  IsHTML (h : Values) : bool
}.

Record modifyHTML := { mh_Target : bytes; mh_HTML : bytes; mh_Replace : bool }.

(** [before] *)
Definition modifyHTML_before (h : Values) : Values := Header_Set h (B "Accept-Encoding") (B "identity").

Section Modify.
Context `{HTMLLib}.

Definition buildHTML (doc : Document) : option bytes :=
  let doc := if (1 <? Find_Length doc (B "head"))%nat then merge_heads doc else doc in
  Render doc.

Definition drop_encodings (h : Values) : Values :=
  Header_Del (Header_Del (Header_Del h (B "Transfer-Encoding")) (B "Trailer")) (B "Content-Encoding").

(** [modifyResponse]: the response, and whether an error is returned; [read] is
    whether the whole body could be read. *)
Definition modifyResponse (m : modifyHTML) (read : bool) (resp : Response) : Response * bool :=
  if negb (IsHTML (rs_Header resp)) then (resp, false)
  else if negb read then
    ({| rs_StatusCode := rs_StatusCode resp;
        rs_Header := drop_encodings (Header_Set (rs_Header resp) (B "Content-Length") (B "0"));
        rs_ContentLength := 0; rs_Body := []; rs_replaced := true |}, false)
  else
    let restored := {| rs_StatusCode := rs_StatusCode resp; rs_Header := rs_Header resp;
                       rs_ContentLength := rs_ContentLength resp; rs_Body := rs_Body resp; rs_replaced := true |} in
    match NewDocument (rs_Body resp) with
    | None => (restored, false)
    | Some doc =>
        if (Find_Length doc (mh_Target m) =? 0)%nat then (restored, false)
        else
          let doc := if mh_Replace m then ReplaceWithHtml doc (mh_Target m) (mh_HTML m)
                     else AppendHtml_First doc (mh_Target m) (mh_HTML m) in
          match buildHTML doc with
          | None => (restored, true)
          | Some buf =>
              ({| rs_StatusCode := rs_StatusCode resp;
                  rs_Header := Header_Set (drop_encodings (Header_Set (rs_Header resp) (B "Content-Length") (Itoa (Z.of_nat (length buf)))))
                                 (B "Content-Type") (B "text/html; charset=utf-8");
                  rs_ContentLength := Z.of_nat (length buf); rs_Body := buf; rs_replaced := true |}, false)
          end
    end.

(** The length that a response announces. *)
Definition length_header (resp : Response) : bytes := hget (rs_Header resp) (B "Content-Length").

Lemma length_after_drop h n :
  hget (drop_encodings (Header_Set h (B "Content-Length") n)) (B "Content-Length") = n
  /\ (forall v, hget (Header_Set (drop_encodings (Header_Set h (B "Content-Length") n)) (B "Content-Type") v) (B "Content-Length") = n)
  /\ (forall k, k ∈ [B "Transfer-Encoding"; B "Trailer"; B "Content-Encoding"] ->
        drop_encodings (Header_Set h (B "Content-Length") n) !! k = None).
Proof.
  unfold drop_encodings, Header_Set, Header_Del, hset, hget.
  change (CanonicalHeaderKey (B "Content-Length")) with (B "Content-Length").
  change (CanonicalHeaderKey (B "Content-Type")) with (B "Content-Type").
  change (CanonicalHeaderKey (B "Transfer-Encoding")) with (B "Transfer-Encoding").
  change (CanonicalHeaderKey (B "Trailer")) with (B "Trailer").
  change (CanonicalHeaderKey (B "Content-Encoding")) with (B "Content-Encoding").
  split; [by rewrite !lookup_delete_ne, lookup_insert_eq|]. split.
  - intros v. rewrite lookup_insert_ne by done. by rewrite !lookup_delete_ne, lookup_insert_eq.
  - intros k Hk. rewrite !elem_of_cons in Hk. destruct Hk as [->|[->|[->|Hk]]]; [| | |by apply elem_of_nil in Hk].
    + by rewrite 2!lookup_delete_ne, lookup_delete_eq.
    + by rewrite lookup_delete_ne, lookup_delete_eq.
    + apply lookup_delete_eq.
Qed.

Lemma content_type_keeps h v k : k <> B "Content-Type" -> Header_Set h (B "Content-Type") v !! k = h !! k.
Proof. intros Hk. by apply lookup_insert_ne. Qed.

(** The status never changes.  Either the body is the one that came, with its
    headers, or the announced length is the length of the new body and no
    encoding is announced; an error is only returned with the body that came. *)
Theorem modify_html_consistent m read resp :
  let '(r, err) := modifyResponse m read resp in
  rs_StatusCode r = rs_StatusCode resp
  /\ ((rs_Body r = rs_Body resp /\ rs_Header r = rs_Header resp /\ rs_ContentLength r = rs_ContentLength resp)
      \/ (err = false /\ rs_ContentLength r = Z.of_nat (length (rs_Body r)) /\ length_header r = Itoa (rs_ContentLength r)
          /\ rs_Header r !! B "Content-Encoding" = None /\ rs_Header r !! B "Transfer-Encoding" = None))
  /\ (IsHTML (rs_Header resp) = false -> r = resp)
  /\ (err = true -> rs_Body r = rs_Body resp).
Proof.
  unfold modifyResponse. destruct (IsHTML (rs_Header resp)); cbn [negb]; [|split_and!; [done|by left|done|done]].
  destruct read; cbn [negb].
  - destruct (NewDocument (rs_Body resp)) as [doc|]; [|split_and!; [done|by left|done|done]].
    destruct (Find_Length doc (mh_Target m) =? 0)%nat; [split_and!; [done|by left|done|done]|].
    destruct (buildHTML _) as [buf|]; [|split_and!; [done|by left|done|done]]. cbn. split_and!; try done. right.
    destruct (length_after_drop (rs_Header resp) (Itoa (Z.of_nat (length buf)))) as (_ & Hl & Hd).
    unfold length_header. cbn. split_and!; auto.
    + rewrite content_type_keeps by done. apply Hd. set_solver.
    + rewrite content_type_keeps by done. apply Hd. set_solver.
  - cbn. split_and!; try done. right.
    destruct (length_after_drop (rs_Header resp) (B "0")) as (Hl & _ & Hd). unfold length_header. cbn.
    split_and!; auto; apply Hd; set_solver.
Qed.

(** A response whose body cannot be read to the end is sent on with its status
    and an empty body. *)
Lemma truncated_becomes_empty m resp :
  IsHTML (rs_Header resp) = true ->
  let r := (modifyResponse m false resp).1 in rs_StatusCode r = rs_StatusCode resp /\ rs_Body r = [] /\ length_header r = B "0".
Proof.
  intros Hh. unfold modifyResponse. rewrite Hh. cbn [negb fst]. split_and!; try done.
  apply (length_after_drop (rs_Header resp) (B "0")).
Qed.

End Modify.
