(* ===== verification/API.v ===== *)
(** * The REST API: its router, its guards, and the playground of rules

    Models internal/api/handler.go (the routes of the API with their groups, the
    check of the token in front of the guarded ones, the handling of errors and
    panics) and internal/api/v1/route/playground.go (parsing the rules one by
    one, the mock request and response, running the rules on them).

    What a handler of the API does is an argument; of gin, the choice of the
    route and the order of the middlewares are modelled. *)

From S2P Require Import Prelude GoStrings NetAddr RulesParser RulesSplit RulesHTTP RulesOn RulesVars RulesDo Rules Auth.

(** ** The routes *)

Inductive segment := Lit (s : bytes) | Param.

Record api_route := {
  rt_method : bytes;
  rt_pattern : list segment;
  rt_guarded : bool;              (* in the group that checks the token *)
  rt_name : bytes
}.

Definition pattern (path : bytes) : list segment :=
  map (fun s => match s with ":"%char :: _ => Param | _ => Lit s end) (Split path "/"%char).

Definition route (guarded : bool) (method path name : bytes) : api_route :=
  {| rt_method := method; rt_pattern := pattern (B "/api/v1" ++ path); rt_guarded := guarded; rt_name := name |}.

Definition GET : bytes := B "GET".
Definition POST : bytes := B "POST".
Definition PUT : bytes := B "PUT".
Definition HEAD : bytes := B "HEAD".

Definition public_routes : list api_route := [route false GET (B "/version") (B "apiV1.Version")].

Definition auth_routes : list api_route :=
  [route false HEAD (B "/auth/check") (B "authApi.Check"); route false POST (B "/auth/login") (B "authApi.Login");
   route false GET (B "/auth/callback") (B "authApi.Callback"); route false POST (B "/auth/callback") (B "authApi.Callback");
   route false POST (B "/auth/logout") (B "authApi.Logout"); route false GET (B "/auth/logout") (B "authApi.Logout")].

Definition v1_routes : list api_route :=
  let r := route true in
  [r GET (B "/favicon") (B "apiV1.FavIcon"); r GET (B "/health") (B "apiV1.Health"); r GET (B "/icons") (B "apiV1.Icons");
   r POST (B "/reload") (B "apiV1.Reload"); r GET (B "/stats") (B "apiV1.Stats");
   r GET (B "/route/list") (B "routeApi.Routes"); r GET (B "/route/:which") (B "routeApi.Route");
   r GET (B "/route/providers") (B "routeApi.Providers"); r GET (B "/route/by_provider") (B "routeApi.ByProvider");
   r POST (B "/route/playground") (B "routeApi.Playground");
   r GET (B "/file/list") (B "fileApi.List"); r GET (B "/file/content") (B "fileApi.Get"); r PUT (B "/file/content") (B "fileApi.Set");
   r POST (B "/file/content") (B "fileApi.Set"); r POST (B "/file/validate") (B "fileApi.Validate");
   r GET (B "/homepage/categories") (B "homepageApi.Categories"); r GET (B "/homepage/items") (B "homepageApi.Items");
   r POST (B "/homepage/set/item") (B "homepageApi.SetItem"); r POST (B "/homepage/set/items_batch") (B "homepageApi.SetItemsBatch");
   r POST (B "/homepage/set/item_visible") (B "homepageApi.SetItemVisible");
   r POST (B "/homepage/set/item_favorite") (B "homepageApi.SetItemFavorite");
   r POST (B "/homepage/set/item_sort_order") (B "homepageApi.SetItemSortOrder");
   r POST (B "/homepage/set/item_all_sort_order") (B "homepageApi.SetItemAllSortOrder");
   r POST (B "/homepage/set/item_fav_sort_order") (B "homepageApi.SetItemFavSortOrder");
   r POST (B "/homepage/set/category_order") (B "homepageApi.SetCategoryOrder");
   r POST (B "/homepage/item_click") (B "homepageApi.ItemClick");
   r GET (B "/cert/info") (B "certApi.Info"); r GET (B "/cert/renew") (B "certApi.Renew");
   r GET (B "/agent/list") (B "agentApi.List"); r POST (B "/agent/create") (B "agentApi.Create"); r POST (B "/agent/verify") (B "agentApi.Verify");
   r GET (B "/metrics/system_info") (B "metricsApi.SystemInfo"); r GET (B "/metrics/all_system_info") (B "metricsApi.AllSystemInfo");
   r GET (B "/metrics/uptime") (B "metricsApi.Uptime");
   r GET (B "/docker/container/:id") (B "dockerApi.GetContainer"); r GET (B "/docker/containers") (B "dockerApi.Containers");
   r GET (B "/docker/info") (B "dockerApi.Info"); r GET (B "/docker/logs/:id") (B "dockerApi.Logs");
   r POST (B "/docker/start") (B "dockerApi.Start"); r POST (B "/docker/stop") (B "dockerApi.Stop");
   r POST (B "/docker/restart") (B "dockerApi.Restart")].

(** [NewHandler]: the routes it registers. *)
Definition NewHandler (auth_enabled : bool) : list api_route :=
  public_routes ++ (if auth_enabled then auth_routes else []) ++ v1_routes.

(** A parameter matches one element that is not empty. *)
Fixpoint matches (p : list segment) (path : list bytes) : bool :=
  match p, path with
  | [], [] => true
  | Lit s :: p', x :: path' => bool_decide (s = x) && matches p' path'
  | Param :: p', x :: path' => negb (bool_decide (x = [])) && matches p' path'
  | _, _ => false
  end.

Definition is_static (r : api_route) : bool := forallb (fun s => match s with Lit _ => true | Param => false end) (rt_pattern r).

(** The tree of gin prefers a literal element to a parameter. *)
Definition find_route (routes : list api_route) (method path : bytes) : option api_route :=
  let ok r := bool_decide (rt_method r = method) && matches (rt_pattern r) (Split path "/"%char) in
  match List.find (fun r => is_static r && ok r) routes with
  | Some r => Some r
  | None => List.find ok routes
  end.

(** ** Serving a request *)

(** What a handler does: the status it writes, if any, whether it records
    errors, and whether it panics. *)
Record handler_run := { hr_status : option Z; hr_errors : bool; hr_panics : bool }.

Record api_reply := { rp_ran : option bytes; rp_status : option Z; rp_no_cache : bool }.

(** The answer of [CheckToken]: accepted, refused or a panic. *)
Inductive token := TokenOK | TokenRefused | TokenPanics.

(** [AuthMiddleware]: the check of the default authentication. *)
Definition AuthMiddleware `{HTTPLib, AuthLib} (now : Z) (defaultAuth : Provider) (r : Request) : token :=
  match provider_CheckToken now defaultAuth r with
  | Ok _ => TokenOK
  | Err _ => TokenRefused
  | Panic _ => TokenPanics
  end.

(** [NoCache]: its headers are set unless the response has a Cache-Control. *)
Definition NoCache (cache_set : bool) : bool := negb cache_set.

(** [ErrorHandler], the recovery, [NoCache] and [AuthMiddleware] around the
    handler.  The first status that is written counts; nothing is written after
    an upgrade to a websocket. *)
Definition serve (auth_enabled : bool) (tok : token) (websocket cache_set : bool) (run : bytes -> handler_run) (method path : bytes) : api_reply :=
  match find_route (NewHandler auth_enabled) method path with
  | None => {| rp_ran := None; rp_status := Some 404; rp_no_cache := false |}
  | Some r =>
      let no_cache := NoCache cache_set in
      let internal := if websocket then None else Some 500 in
      match (if auth_enabled && rt_guarded r then tok else TokenOK) with
      | TokenRefused => {| rp_ran := None; rp_status := Some 401; rp_no_cache := no_cache |}
      | TokenPanics => {| rp_ran := None; rp_status := internal; rp_no_cache := no_cache |}
      | TokenOK =>
          let h := run (rt_name r) in
          {| rp_ran := Some (rt_name r);
             rp_status := match hr_status h with Some s => Some s | None => if hr_panics h || hr_errors h then internal else Some 200 end;
             rp_no_cache := no_cache |}
      end
  end.

(** ** Lemmas: the router *)

Lemma find_route_in routes method path r : find_route routes method path = Some r ->
  r ∈ routes /\ rt_method r = method /\ matches (rt_pattern r) (Split path "/"%char) = true.
Proof.
  unfold find_route. intros Hf.
  assert (Hx : In r routes /\ bool_decide (rt_method r = method) && matches (rt_pattern r) (Split path "/"%char) = true).
  { destruct (List.find _ routes) as [r'|] eqn:E1.
    - injection Hf as ->. apply List.find_some in E1 as [Hi Hp]. by apply andb_true_iff in Hp as [_ Hp].
    - by apply List.find_some in Hf. }
  destruct Hx as [Hi Hp]. reflect. split; [by apply list_elem_of_In|done].
Qed.

(** The handlers that are reached without a token. *)
Definition public_names : list bytes := [B "apiV1.Version"; B "authApi.Check"; B "authApi.Login"; B "authApi.Callback"; B "authApi.Logout"].

Lemma unguarded_public r : r ∈ NewHandler true -> rt_guarded r = false -> rt_name r ∈ public_names.
Proof.
  intros Hin Hg.
  assert (Hall : forallb (fun r => rt_guarded r || bool_decide (rt_name r ∈ public_names)) (NewHandler true) = true) by (vm_compute; reflexivity).
  rewrite forallb_forall in Hall. specialize (Hall r ltac:(by apply list_elem_of_In)). rewrite Hg in Hall. by apply bool_decide_eq_true in Hall.
Qed.

(** With authentication no handler runs without an accepted token but the
    version and those of logging in and out; a refused request gets 401. *)
Theorem api_guarded tok websocket cache_set run method path :
  let reply := serve true tok websocket cache_set run method path in
  (forall name, rp_ran reply = Some name -> tok = TokenOK \/ name ∈ public_names)
  /\ (tok = TokenRefused -> rp_ran reply = None -> rp_status reply = Some 401 \/ rp_status reply = Some 404)
  /\ (tok = TokenOK -> forall r, find_route (NewHandler true) method path = Some r -> rp_ran reply = Some (rt_name r)).
Proof.
  unfold serve. destruct (find_route (NewHandler true) method path) as [r|] eqn:Ef; [|cbn; naive_solver].
  destruct (find_route_in _ _ _ _ Ef) as (Hin & _). destruct (rt_guarded r) eqn:Hg; cbn [andb].
  - destruct tok; cbn; naive_solver.
  - cbn. split_and!; [|discriminate|naive_solver]. intros name [= <-]. right. by apply unguarded_public.
Qed.

(** Every route of the table is found under its own path, and none hides
    another. *)
Definition sample (p : list segment) : bytes := Join (map (fun s => match s with Lit x => x | Param => B "x" end) p) "/"%char.

Lemma routes_reachable auth_enabled r : r ∈ NewHandler auth_enabled ->
  find_route (NewHandler auth_enabled) (rt_method r) (sample (rt_pattern r)) = Some r.
Proof.
  intros Hin.
  assert (Hall : forallb (fun r => match find_route (NewHandler auth_enabled) (rt_method r) (sample (rt_pattern r)) with
      | Some r' => bool_decide (rt_name r' = rt_name r) && bool_decide (rt_method r' = rt_method r)
                   && bool_decide (sample (rt_pattern r') = sample (rt_pattern r))
                   && (length (List.filter (fun x => bool_decide (rt_method x = rt_method r) && bool_decide (sample (rt_pattern x) = sample (rt_pattern r)))
                         (NewHandler auth_enabled)) =? 1)%nat
      | None => false end) (NewHandler auth_enabled) = true) by (destruct auth_enabled; vm_compute; reflexivity).
  rewrite forallb_forall in Hall. specialize (Hall r ltac:(by apply list_elem_of_In)).
  destruct (find_route _ _ _) as [r'|] eqn:Ef; [|discriminate]. destruct (find_route_in _ _ _ _ Ef) as (Hin' & _).
  apply andb_true_iff in Hall as [Hall Hone]. reflect. apply Nat.eqb_eq in Hone. f_equal.
  set (p := fun x => bool_decide (rt_method x = rt_method r) && bool_decide (sample (rt_pattern x) = sample (rt_pattern r))) in Hone.
  assert (Hu : forall l a b, In a (List.filter p l) -> In b (List.filter p l) -> length (List.filter p l) = 1%nat -> a = b).
  { intros l a b Ha Hb Hl. destruct (List.filter p l) as [|x [|y l']]; [done| |discriminate]. destruct Ha as [<-|[]], Hb as [<-|[]]. done. }
  apply (Hu (NewHandler auth_enabled)); [| |done]; apply filter_In; (split; [by apply list_elem_of_In|]); unfold p;
    apply andb_true_iff; split; by apply bool_decide_eq_true_2.
Qed.

(** A route of the proxy whose name is that of a literal path cannot be asked
    for by name. *)
Example route_named_list : exists r, find_route (NewHandler true) GET (B "/api/v1/route/list") = Some r /\ rt_name r = B "routeApi.Routes".
Proof. eexists. split; reflexivity. Qed.

(** ** The playground *)

Record RawRule := { raw_Name : bytes; raw_On : bytes; raw_Do : bytes }.

Record ParsedRule := { pr_Name : bytes; pr_On : bytes; pr_Do : bytes; pr_invalid : bool; pr_IsResponseRule : bool }.

Section Playground.
Context `{HL : HTTPLib} `{RL : RuleLib} `{DL : DoLib}.

Definition zero_on : RuleOn := {| on_raw := []; on_checker := None; on_isResponseChecker := false |}.
Definition zero_command : Command := {| cmd_raw := []; cmd_exec := None; cmd_isResponseHandler := false |}.

(** One rule of [parseRules]: an empty text is not parsed, and a command that
    does not parse leaves the field as it was. *)
Definition parse_rule (raw : RawRule) : result rule_error (ParsedRule * option Rule) :=
  '(on, onErrs) ← match raw_On raw with [] => Ok (zero_on, []) | v => RuleOn_Parse v end;
  '(cmd, doErr) ← match raw_Do raw with
                  | [] => Ok (zero_command, false)
                  | v => match Command_Parse v with
                         | Ok c => Ok (c, false)
                         | Err _ => Ok (zero_command, true)
                         | Panic p => Panic p
                         end
                  end;
  let rule := {| rule_Name := raw_Name raw; rule_On := on; rule_Do := cmd |} in
  let isValid := match onErrs with [] => negb doErr | _ => false end in
  Ok ({| pr_Name := raw_Name raw; pr_On := raw_On raw; pr_Do := raw_Do raw; pr_invalid := negb isValid;
         pr_IsResponseRule := IsResponseRule rule |},
      if isValid then Some rule else None).

Fixpoint parseRules (rawRules : list RawRule) : result rule_error (list ParsedRule * list Rule) :=
  match rawRules with
  | [] => Ok ([], [])
  | raw :: raws =>
      '(p, rule) ← parse_rule raw;
      '(ps, rules) ← parseRules raws;
      Ok (p :: ps, match rule with Some r => r :: rules | None => rules end)
  end.

(** [checkMatchedRules]: the rules are checked once more, on the request as
    they left it and with a fresh response modifier. *)
Fixpoint check_matched (rules : list Rule) (w : world) : result unit (list bytes) :=
  match rules with
  | [] => Ok []
  | r :: rules' =>
      '(b, w) ← Rule_Check r w;
      names ← check_matched rules' w;
      Ok (if b : bool then rule_Name r :: names else names)
  end.

Definition checkMatchedRules (rules : list Rule) (w : world) : result unit (list bytes) :=
  check_matched rules (with_rm (fun _ => NewResponseModifier) w).

(** ** The mock request and response *)

(** [None] is a nil map; a cookie is written into it. *)
Definition mock_headers (headers : option Values) (cookies : list Cookie) : result unit (option Values) :=
  match headers, cookies with
  | None, [] => Ok None
  | None, _ => Panic NilMapWrite
  | Some h, _ => Ok (Some (fold_left AddCookie cookies h))
  end.

Definition mock_remote (remoteIP : bytes) : bytes := match remoteIP with [] => B "127.0.0.1:0" | ip => ip ++ B ":0" end.

(** The recorder before the rules run: the headers and the body of the mock
    response are already in it. *)
Definition mock_recorder (headers : list (bytes * bytes)) (body : bytes) : writer :=
  {| w_Header := fold_left (fun h '(k, v) => hadd h k v) headers ∅; w_sent := None; w_body := body |}.

(** The upstream, as it is called by rules that buffer the response: it writes
    the mock response. *)
Definition mock_upstream (status : Z) (body : bytes) (w : world) : result unit world :=
  let w := if negb (bool_decide (body = [])) && bool_decide (hget (w_Header (out w)) (B "Content-Type") = [])
           then with_out (fun o => set_out_Header (hset (w_Header o) (B "Content-Type") (B "text/plain")) o) w else w in
  let w := if 0 <? status then rm_WriteHeader status w else w in
  Ok (if bool_decide (body = []) then w else rm_Write body w).

(** What the answer shows: the status of the recorder, 200 if there is none,
    and its body. *)
Definition final_status (mock_status : Z) (w : world) : Z :=
  match w_sent (out w) with Some s => s | None => if 0 <? mock_status then mock_status else 200 end.

(** ** Lemmas: the playground *)

(** Every rule is reported, in order and with its texts; exactly those that
    are reported as valid are run. *)
Theorem parseRules_exact raws ps rules :
  parseRules raws = Ok (ps, rules) ->
  map (fun p => (pr_Name p, pr_On p, pr_Do p)) ps = map (fun r => (raw_Name r, raw_On r, raw_Do r)) raws
  /\ map rule_Name rules = map pr_Name (List.filter (fun p => negb (pr_invalid p)) ps)
  /\ map IsResponseRule rules = map pr_IsResponseRule (List.filter (fun p => negb (pr_invalid p)) ps).
Proof.
  revert ps rules. induction raws as [|raw raws IH]; intros ps rules; cbn [parseRules]; [by intros [= <- <-]|].
  destruct (parse_rule raw) as [[p rule]| |] eqn:Ep; try discriminate. cbn [mbind result_bind].
  destruct (parseRules raws) as [[ps' rules']| |]; try discriminate. cbn [mbind result_bind]. intros [= <- <-].
  destruct (IH _ _ eq_refl) as (H1 & H2 & H3). unfold parse_rule in Ep.
  destruct (match raw_On raw with [] => _ | _ => _ end) as [[on errs]| |]; try discriminate. cbn [mbind result_bind] in Ep.
  destruct (match raw_Do raw with [] => _ | _ => _ end) as [[cmd derr]| |]; try discriminate. cbn [mbind result_bind] in Ep.
  injection Ep as <- <-. cbn [map pr_Name pr_On pr_Do List.filter pr_invalid]. rewrite negb_involutive, H1.
  split; [done|]. destruct (match errs with [] => _ | _ => _ end); cbn [map]; by rewrite H2, H3.
Qed.

(** A rule without a command is reported as valid; if it is reached, it ends
    the run with a panic. *)
Lemma empty_do_valid name :
  parseRules [{| raw_Name := name; raw_On := []; raw_Do := [] |}]
  = Ok ([{| pr_Name := name; pr_On := []; pr_Do := []; pr_invalid := false; pr_IsResponseRule := false |}],
        [{| rule_Name := name; rule_On := zero_on; rule_Do := zero_command |}])
  /\ forall w, Rule_Handle {| rule_Name := name; rule_On := zero_on; rule_Do := zero_command |} w = Panic NilDereference.
Proof. split; reflexivity. Qed.

(** Cookies without headers panic. *)
Lemma cookies_need_headers c cookies : mock_headers None (c :: cookies) = Panic NilMapWrite.
Proof. reflexivity. Qed.

End Playground.

Module PlaygroundDemo.

Definition mock_world : world :=
  let w := example_world "GET" "/x" ∅ in World (req w) (rm w) (mock_recorder [] (B "hello")) (fx w).

(** The body of the mock response is in the recorder before the upstream writes
    it again. *)
Example body_doubled :
  match BuildHandler whole_write false (mock_upstream 200 (B "hello")) [get_rule (B "api") (B "path glob(/api/*)") (B "pass")] mock_world with
  | Ok w => w_body (out w) = B "hellohello" /\ final_status 200 w = 200
  | _ => False
  end.
Proof. vm_compute. split; reflexivity. Qed.

(** A rule that rewrites the path it matches on runs, but is not reported. *)
Example rewritten_not_reported :
  let rules := [get_rule (B "strip") (B "path glob(/x)") (B "rewrite /x /y")] in
  match BuildHandler whole_write false (mock_upstream 200 []) rules mock_world with
  | Ok w => u_Path (r_URL (req w)) = B "/y" /\ checkMatchedRules rules w = Ok []
  | _ => False
  end.
Proof. vm_compute. split; reflexivity. Qed.

End PlaygroundDemo.
